(* ===== verification/_CoqProject ===== *)
-Q . S2P
Prelude.v
Dhash.v
EntryList.v
TypeEnviron.v
FortranDescr.v
SystemV.v
CxxClass.v
ItaniumAbi.v
ItaniumSub.v
ItaniumLayout.v
ItaniumBases.v
ItaniumClass.v
ItaniumProps.v
Trie.v
UniqueStr.v
StringUtils.v
Heap.v
RbTree.v
RbShape.v
RbRep.v
RbInsert.v
RbDelete.v
RbMap.v
ConstValue.v
ConstOrder.v
ConstFold.v
ConstFoldProps.v
ConstElements.v
PoolTree.v
ConstPool.v
ConstEnum.v
ConstEnumProps.v
ConstEnumSpec.v
RefCount.v
RefGraph.v
RefMark.v
RefMarkRoots.v
RefScan.v
RefCollect.v
RefCycles.v
RefOps.v
RefClient.v
Ast.v
AstNode.v
AstTree.v
AstCopy.v
AstRead.v
AstList.v
AstFree.v
AstAmbig.v
AstIter.v
AstProps.v
CxxTypes.v
CxxEquiv.v
CxxBases.v
CxxBasesProps.v
CxxConv.v
CxxQual.v
CxxRank.v
CxxRankProps.v
CxxArith.v
CxxBetter.v
CxxTotal.v
CxxProps.v
Locus.v
CStream.v
Tpp.v
TppProps.v
FortranChars.v
FortranPeek.v
FortranSplit.v
FortranLines.v
FortranRead.v
FortranFixed.v
FortranTotal.v
FortranFixedTotal.v
FortranProps.v
