(* ===== verification/Prelude.v ===== *)
(** * The core of the Mercurium compiler (mcxx): a verification development

    Mercurium is the source-to-source compiler of OmpSs.  This development
    models the C code at its core: the containers of [mcxx/lib] that all its
    phases share, and the parts of [mcxx/src/frontend] that decide the sizes of
    types and the values of constants.  File names below are relative to
    [mcxx/lib] (lib) and [mcxx/src/frontend] (frontend).

    ** The parts and the files that model them

    Containers
    - [Dhash]: hash tables with chained buckets, keyed by pointers and by
      strings (lib/dhash_ptr.c, lib/dhash_str.c).  The class [DhashKey] is what
      a table asks of its keys; [Table] is the table, [Ptr] and [Str] the two
      files.
    - [Trie]: tries with sorted children (lib/slow_char_trie.c,
      frontend/cxx-type-trie.c) over the class [TriePolicy].
    - [UniqueStr]: the table of unique strings (lib/char_hash.c and
      lib/slow_char_trie.c).  The class [Interner] is the promise to the rest
      of the compiler, which compares names by address.
    - [Locus]: the table of the places of the sources, which are compared by
      address (frontend/cxx-locus.c), over [Interner].
    - [StringUtils]: concatenation, string builders, splitting, prefixes and
      the merge sort of string lists (lib/string_utils.c), over [Interner].
    - [EntryList]: symbol lists, chains of nodes of four slots updated in place
      (frontend/cxx-entrylist.c).
    - [Heap], [RbTree], [RbShape], [RbRep], [RbInsert], [RbDelete], [RbMap]:
      red-black trees with parent pointers (lib/red_black_tree.c).  [RbTree] is
      the code, store by store, in the heap monad of [Heap]; [RbShape] the
      trees as mathematical objects; [RbRep], [RbInsert] and [RbDelete] the
      proofs in a separation logic; [RbMap] the runs of operations.
    - [RefCount]: reference counts and the collection of cycles
      (lib/mcxx_refcount.c).  [RefGraph] and [RefMark] are sums over the objects
      and the traversals of the collector, [RefMarkRoots], [RefScan],
      [RefCollect] and [RefCycles] its three phases, [RefOps] the counting, and
      [RefClient] the runs of a client.

    Types
    - [TypeEnviron]: the target descriptions and their lookup
      (frontend/cxx-typeenviron.c, driver/cxx-driver.c), and the built-in types
      they give (frontend/cxx-typeutils.c).
    - [FortranDescr]: Fortran array descriptors
      (frontend/fortran/fortran03-typeenviron.c).
    - [SystemV]: the layout of C types (frontend/cxx-typeenviron.c,
      [system_v_*]).
    - [CxxClass]: C++ classes and their traits (frontend/cxx-typeutils.c).
    - [ItaniumAbi]: the layout of C++ classes (frontend/cxx-typeenviron.c,
      [cxx_abi_*]); [ItaniumSub], [ItaniumBases], [ItaniumLayout] and
      [ItaniumClass] are its invariants, [ItaniumProps] its theorems.

    - [CxxTypes]: types as values, qualifiers, typedefs and equivalence
      (frontend/cxx-typeutils.c); [CxxEquiv]: the canonical types that the
      equivalence compares.
    - [CxxBases], [CxxBasesProps]: the searches for base classes and for
      ambiguous ones (the same file).
    - [CxxConv]: the standard conversions between types (the same file);
      [CxxQual]: the rule of the conversions of pointers, on types without
      typedefs.
    - [CxxRank]: which of two conversions is better (frontend/cxx-overload.c);
      [CxxRankProps], [CxxArith], [CxxBetter] and [CxxTotal]: conversions have
      ranks, the table of the arithmetic types, irreflexivity, and termination;
      [CxxProps] their theorems.

    Constants
    - [ConstValue]: compile-time values and their pool (frontend/cxx-cexpr.c);
      [ConstOrder]: their order; [ConstPool]: the pool as the red-black tree of
      the code, with the lookups that its comparison makes itself; [PoolTree]:
      the search and the insertion of that tree for a comparison that may change
      the tree.
    - [ConstFold], [ConstFoldProps]: the operators on constants.
    - [ConstElements]: values of several elements, and the comparisons of
      strings of frontend/fortran/fortran03-exprtype.c.
    - [ConstEnum], [ConstEnumProps], [ConstEnumSpec]: limits of the integer
      types, the smallest type of a value, and enumerations
      (frontend/cxx-buildscope.c).

    Syntax trees
    - [Ast]: nodes, lists and ambiguities (frontend/cxx-ast.c,
      frontend/cxx-ast-inline.h) over a memory of nodes and arrays.  [AstNode]
      has the bitmaps and the arrays of children, [AstTree] trees in memory,
      [AstCopy], [AstRead], [AstList], [AstIter], [AstFree] and [AstAmbig] the
      operations, [AstProps] the theorems.

    Lines of text
    - [CStream]: strings and streams of the C library.
    - [Tpp]: the preprocessor that makes versions of files, with conditions,
      definitions and includes (lib/tpp.c); [TppProps] its theorems.

    Fortran lines
    - [FortranChars]: the reader of free form under the Fortran scanner, which
      joins continued lines and follows strings, comments, sentinels and line
      markers; [FortranFixed]: the reader of fixed form, and the choice between
      the two (frontend/fortran/fortran03-scanner.c).
    - [FortranPeek]: the queue of peeked characters (the same file).
    - [FortranSplit]: the splitting of long lines of the Fortran that the compiler
      writes (frontend/fortran/fortran03-split.c).
    - [FortranLines]: files are split by lines, and lines fit; [FortranRead]:
      split lines are read back; [FortranTotal], [FortranFixedTotal]: the readers
      end; [FortranProps] their theorems.

    How they interact: the string functions end in the table of unique strings,
    which also holds the file names of loci; the table of unique strings is a
    hash table of its own or the trie; the layouts read a type environment, and the C++ layout falls back on the C
    layout; the limits of the types and the folding of constants read the sizes
    of the type environment; the pool of constants is a red-black tree whose
    order compares the contents of its keys, and may look up and insert other
    constants while it does; syntax trees are verified in the
    logic of [Heap], as the red-black trees are; conversions ask the equivalence
    of types and the searches for base classes, and are ranked by the same; the
    queue of peeked characters is filled by the readers, and what is split is
    proved against the reader that will read it.

    ** State, errors, integers

    C functions are Rocq functions of the same name.  A call returns [res]:
    [Ret] a value, [Err Aborted] for [internal_error], [fatal_error] and a
    failed [ERROR_CONDITION], [Err Undef] for undefined behaviour, [Err NoFuel]
    for a fuelled loop that was cut.  A structure that is updated in place and
    that nobody else points to is passed as a value (tables, tries, lists);
    structures that point to each other live in the store of [Heap]; strings
    that are compared by address live in a memory of strings; counted objects
    live in the state of [RefCount], with the globals of their file; constants, which
    never change, are passed by their contents, and by address in [ConstPool].
    Integers are integers in [Z] with the conversions of the code: [size_t]
    modulo [2^64], [unsigned] modulo [2^32], [cvalue_uint_t] modulo [2^W] where
    the width [W] of the host is 64 or 128.  Signed overflow is [Undef].

    ** What the theorems show

    - Refinement: every run of operations of a table, a trie, a symbol list or
      a red-black tree gives the answers of a finite map, a sequence or a
      sorted list of entries ([dhash_refines_map], [type_trie_refines_map],
      [entry_list_refines_sequence], [rb_tree_refines_sorted_entries]); the
      pool of constants gives one address per content, when the characters that
      its comparisons look up are in it already ([constants_are_unique]);
      [uniquestr] gives one address per string, in both implementations, and
      [make_locus] one per place of the sources.
    - Reference counts: no run of a client loses an object that the client
      reaches ([reachable_objects_stay]), and a collection ends and frees all
      the others, once ([collectcycles_frees_garbage]).  The invariant
      [counted] says that counts are exact and that garbage is reachable from
      the buffer of candidate roots.
    - Types: equivalence is equality of canonical types
      ([equivalent_types_decides_canonical]); a standard conversion of C++ is
      always decided, has a rank and is not better than itself
      ([standard_conversion_answers]); arithmetic conversions are ranked by a
      table, pointers are converted by the rule of the standard where no
      qualifier is hidden by a typedef or an array, and base classes are found on
      the paths of the hierarchy.  Equivalence is treated on types that are
      [proper]: no parameters of array or function type, and typedefs with one
      definition.
    - Invariants: rehashing keeps a hash table, red-black trees stay balanced,
      target descriptions are consistent.
    - Layout: the plain fields of C structs have the offsets of the ABI, and C
      types sizes that are multiples of their alignments; the C++ layout of
      [layable] programs ends, keeps apart the base subobjects of one class and
      the parts of an object that are not bit-fields, and agrees with the C
      layout on plain classes, bit-fields included.
    - Syntax trees: a copy has the same contents in new blocks; freeing frees
      each block once; lists are sequences, under concatenation, splitting and
      the loop over their elements; the choice of an interpretation, the check
      of the links, through ambiguities too, and the comparison are what they
      say, on trees that share no nodes where they write.
    - Constants: where C defines a result, folding gives it; conversions,
      powers, limits and enumerations of [int] agree with C.
    - Strings: sorting, splitting, joining and round trips.
    - Fortran lines: a statement or a directive that is split fits the limit and
      is read back as it was, with one blank where a line was cut between tokens
      ([split_lines_fit], [split_statement_read_back],
      [split_directive_read_back]); files are split line by line; the readers of
      both forms end and stay in their buffer ([input_reads_files]); peeking
      does not change what is read ([peeked_characters_are_a_queue]).
    - Preprocessing: the output is what nested blocks of conditions mean, line by
      line ([tpp_conditional_blocks]); it ends on every system of files
      ([tpp_ends]).
    - Errors: insertions abort on null keys and values only; a file is accepted
      exactly when its blocks of conditions are well nested
      ([tpp_unbalanced_blocks]).
    Plain lemmas, next to the theorems, show where the code departs from its
    comments or from the standards; they evaluate the code on small inputs.

    ** Fuel and bounds

    Every loop that is not structural takes fuel, and the theorems about runs
    prove that the call returns, so the bound is enough: [grow_capacity]
    doubles at most 33 times; a walk down a red-black tree of [n] entries takes
    [2 log2 (n + 1) + 1] steps; a lookup in the pool of constants is two deep,
    since the lookups that its comparisons make compare integers only; the
    rounding of an offset up to an alignment takes at most the alignment plus one steps; the search for an offset without
    conflicts ends past the last offset in the register of subobjects; a power
    takes [W + 2] calls.  The operators on constants take the depth of the
    operands.  The theorems on C++ layouts assume a program that is [layable]: no
    dependent bases, no class that is a direct base twice or both directly and
    virtually, no virtual base that is the primary base of another base, and
    sizes below [2^64].  The traversals of the collector take the depth of their
    calls, at most twice the number of objects; the theorems on its clients are
    for fewer than [MCXX_MAX_ROOTS] objects, since the code breaks when the
    buffer of roots fills up during a release ([full_buffer_use_after_free]).
    Traversals of syntax trees take their height, and [ast_check] one more than
    the number of nodes.  The equivalence of types takes the depth of the types,
    and the searches in a hierarchy more than its height; a conversion takes more
    than the depth of its destination, and its types must be less than 255 deep,
    since the code keeps their qualifiers in arrays of
    [MCXX_MAX_QUALIFIER_CONVERSION] elements.  The loops of the Fortran readers
    take what is left of the file; in fixed form a string is padded up to the
    last column, so a file has at most its length times the width of characters.
    Lines are read back when the limit is 3 or more and the blanks before a token
    are shorter than the limit less one, directives when the limit is more than
    the prefix and its marks; a line must have fewer than [2^29] characters, and
    the queue fewer than [2^30].  The preprocessor ends because includes are
    nested 32 deep at most; its theorem on blocks takes one step per line and one
    for the end, and allows conditions 31 deep and 32 names.

    ** Not modelled

    - Structures, [__float128], printing, rounding and raw data of constants,
      and their conversion to syntax trees: they need generated code.
    - Types that depend on template parameters, [typeof], packs and braced lists,
      arrays of variable size and the Intel vector types; the tables that make
      types unique, since types are compared by contents.
    - The options of the command line of lib/tpp.c, and errors of streams.
    - The tokens of the Fortran scanner, which are a parameter of the splitting,
      its stack of included files and its warnings.
    - The [dealloc] functions of counted objects, which are code of the clients;
      they are taken not to call lib/mcxx_refcount.c.
    - lib/mem.c, lib/filename.c, lib/perish.c: wrappers of the C library.
    - Scanners, parsers and the semantic trees (nodecl): generated from
      grammars.  Of the syntax trees, the names of the kinds of nodes, which are
      generated, and the diagnostics.
    - Scopes, semantic analysis, template deduction and code generation: a
      mutually recursive body of code over shared symbols, except the
      enumerations, the comparisons of strings and the ranking of standard
      conversions above; user-defined conversions are part of it.
    - The phases in C++ (TL, Nanos++): another language.

    ** Next

    The rest of the constants (structures, casts between floating types, the
    unpacking of strings), the tables that make types unique, the tokens of the
    Fortran scanner, and user-defined conversions. *)

From stdpp Require Export base numbers list list_numbers strings gmap sorting.
From Stdlib Require Export ZArith Lia.

#[global] Set Default Goal Selector "!".
Declare Scope mcxx_scope.
Delimit Scope mcxx_scope with mcxx.

#[global] Open Scope Z_scope.

(** ** Outcomes of C code

    [Aborted] is a call to [abort()], [internal_error], [fatal_error] or a
    failing [ERROR_CONDITION]; [Undef] is undefined behaviour (a null
    dereference, an access out of bounds, a division by zero); [NoFuel] is an
    artefact of the fuelled loops, which the termination theorems exclude. *)
Inductive cerr := Aborted | Undef | NoFuel.

Inductive res (A : Type) :=
| Ret (x : A)
| Err (e : cerr).
Arguments Ret {A} _.
Arguments Err {A} _.

#[export] Instance cerr_eq_dec : EqDecision cerr.
Proof. solve_decision. Defined.

#[export] Instance res_eq_dec {A} `{EqDecision A} : EqDecision (res A).
Proof. solve_decision. Defined.

#[export] Instance res_ret : MRet res := λ A x, Ret x.
#[export] Instance res_bind : MBind res := λ A B f m,
  match m with Ret x => f x | Err e => Err e end.
#[export] Instance res_fmap : FMap res := λ A B f m,
  match m with Ret x => Ret (f x) | Err e => Err e end.

(** A read that is undefined behaviour when it misses. *)
Definition get {A} (o : option A) : res A :=
  match o with Some x => Ret x | None => Err Undef end.

Lemma bind_ret {A B} (x : A) (f : A → res B) : (Ret x ≫= f) = f x.
Proof. done. Qed.

Lemma bind_ret_inv {A B} (m : res A) (f : A → res B) y :
  (m ≫= f) = Ret y → ∃ x, m = Ret x ∧ f x = Ret y.
Proof. destruct m as [x|e]; simpl; [eauto | done]. Qed.

(** ** Fuelled loops

    [loop n step s] runs [step] at most [n] times: [inl s'] goes on with the
    state [s'], [inr r] leaves the loop with the result [r]. *)
Fixpoint loop {S R} (fuel : nat) (step : S → res (S + R)) (s : S) : res R :=
  match fuel with
  | O => Err NoFuel
  | Datatypes.S n =>
      match step s with
      | Err e => Err e
      | Ret (inr r) => Ret r
      | Ret (inl s') => loop n step s'
      end
  end.

(** The total-correctness rule: an invariant, a measure that decreases and a
    fuel above the measure give a result that satisfies the postcondition. *)
Lemma loop_spec {S R} (I : S → Prop) (m : S → nat) (Q : R → Prop)
    (step : S → res (S + R)) :
  (∀ s, I s →
     match step s with
     | Ret (inl s') => I s' ∧ (m s' < m s)%nat
     | Ret (inr r) => Q r
     | Err _ => False
     end) →
  ∀ s fuel, I s → (m s < fuel)%nat → ∃ r, loop fuel step s = Ret r ∧ Q r.
Proof.
  intros Hstep s fuel. revert s.
  induction fuel as [|fuel IH]; intros s HI Hm; [lia|].
  specialize (Hstep s HI). simpl.
  destruct (step s) as [[s'|r]|e]; [|eauto|done].
  destruct Hstep as [HI' Hlt]. apply IH; [done|lia].
Qed.

(** A loop over the elements of a list that can leave with an error. *)
Fixpoint for_each {A S} (body : A → S → res S) (xs : list A) (s : S) : res S :=
  match xs with
  | [] => Ret s
  | x :: xs' =>
      s' ← body x s;
      for_each body xs' s'
  end.

(** ** Machine integers

    A [w]-bit unsigned integer is a [Z] in [0, 2^w); [wrapu w] and [wraps w]
    are the conversions of C to the unsigned and the two's complement signed
    [w]-bit types. *)
Definition wrapu (w z : Z) : Z := z mod 2 ^ w.
Definition wraps (w z : Z) : Z := (z + 2 ^ (w - 1)) mod 2 ^ w - 2 ^ (w - 1).

Abbreviation u8 := (wrapu 8).
Abbreviation u32 := (wrapu 32).
Abbreviation u64 := (wrapu 64).
Abbreviation s8 := (wraps 8).
Abbreviation s32 := (wraps 32).

Create HintDb cint.

Lemma wrapu_range w z : 0 ≤ w → 0 ≤ wrapu w z < 2 ^ w.
Proof. intros Hw. apply Z.mod_pos_bound. lia. Qed.

Lemma wrapu_small w z : 0 ≤ z < 2 ^ w → wrapu w z = z.
Proof. apply Z.mod_small. Qed.

Lemma wraps_range w z : 0 < w → - 2 ^ (w - 1) ≤ wraps w z < 2 ^ (w - 1).
Proof.
  intros Hw. unfold wraps.
  pose proof (Z.mod_pos_bound (z + 2 ^ (w - 1)) (2 ^ w) ltac:(lia)).
  assert (2 ^ w = 2 * 2 ^ (w - 1)).
  { rewrite <-Z.pow_succ_r by lia. f_equal. lia. }
  lia.
Qed.

Lemma wraps_small w z : 0 < w → - 2 ^ (w - 1) ≤ z < 2 ^ (w - 1) → wraps w z = z.
Proof.
  intros Hw Hz. unfold wraps.
  assert (2 ^ w = 2 * 2 ^ (w - 1)).
  { rewrite <-Z.pow_succ_r by lia. f_equal. lia. }
  rewrite Z.mod_small; lia.
Qed.

#[export] Hint Resolve wrapu_range wraps_range : cint.

(** ** Strings

    A C string is the list of its bytes before the terminating NUL. *)
Definition bytes (s : string) : list Z :=
  (λ a, Z.of_N (Ascii.N_of_ascii a)) <$> String.list_ascii_of_string s.

(** ** Automation *)

(** Turn the boolean comparisons of C conditions into propositions. *)
Ltac zbool :=
  repeat match goal with
  | H : (_ <? _) = true |- _ => apply Z.ltb_lt in H
  | H : (_ <? _) = false |- _ => apply Z.ltb_ge in H
  | H : (_ <=? _) = true |- _ => apply Z.leb_le in H
  | H : (_ <=? _) = false |- _ => apply Z.leb_gt in H
  | H : (_ =? _) = true |- _ => apply Z.eqb_eq in H
  | H : (_ =? _) = false |- _ => apply Z.eqb_neq in H
  | H : _ && _ = true |- _ => apply andb_true_iff in H; destruct H
  | H : _ || _ = false |- _ => apply orb_false_iff in H; destruct H
  | H : negb _ = true |- _ => apply negb_true_iff in H
  | H : negb _ = false |- _ => apply negb_false_iff in H
  end.

(** Split on the condition of an [if] of the goal. *)
Ltac split_if :=
  match goal with
  | |- context [if ?b then _ else _] => destruct b eqn:?; zbool
  end.

(** Run through the binds of a hypothesis [m ≫= f = Ret y]. *)
Ltac inv_bind :=
  repeat match goal with
  | H : (_ ≫= _) = Ret _ |- _ =>
      apply bind_ret_inv in H; destruct H as (? & ? & H)
  end.
