(* ===== verification/Dhash.v ===== *)
(** * Dynamic hash tables: [lib/dhash_ptr.c] and [lib/dhash_str.c]

    The two files are the same code over two kinds of keys: [dhash_ptr]
    compares its keys as pointers and hashes the eight bytes of the pointer,
    [dhash_str] compares them with [strcmp] and hashes the bytes of the string.
    Module [Murmur] models the hash function of both, the class [DhashKey] is
    what the table asks of its keys, Module [Table] models the table over that
    interface and refines it to a finite map, and Modules [Ptr] and [Str] are
    the two instances. *)

From S2P Require Import Prelude.

(** ** The hash function

    [Murmur3_32] of [dhash_str.c] reads [len] bytes from [key]; the one of
    [dhash_ptr.c] has the same body with [key] pointing to its own argument and
    [len = sizeof(ptr)].  [read i] is the byte at [key + i]; the reads are
    little-endian, as on the hosts the compiler runs on. *)
Module Murmur.

Definition c1 : Z := 0xcc9e2d51.
Definition c2 : Z := 0x1b873593.
Definition r1 : Z := 15.
Definition r2 : Z := 13.
Definition m : Z := 5.
Definition n : Z := 0xe6546b64.

Definition shl32 (x k : Z) : Z := u32 (Z.shiftl x k).
Definition mul32 (x y : Z) : Z := u32 (x * y).

(** [keydata[it]], a 32-bit little-endian load. *)
Definition keydata (read : Z → Z) (it : Z) : Z :=
  read (4 * it) + 2 ^ 8 * read (4 * it + 1)
  + 2 ^ 16 * read (4 * it + 2) + 2 ^ 24 * read (4 * it + 3).

(** The three scrambling assignments to [k] (and to [k1] in the tail). *)
Definition scramble (k : Z) : Z :=
  let k := mul32 k c1 in
  let k := Z.lor (shl32 k r1) (Z.shiftr k (32 - r1)) in
  mul32 k c2.

(** [hash = ((hash << r2) | (hash >> (32-r2)) * m) + n]: the product binds
    tighter than the disjunction. *)
Definition mix (hash k : Z) : Z :=
  let hash := Z.lxor hash k in
  u32 (Z.lor (shl32 hash r2) (mul32 (Z.shiftr hash (32 - r2)) m) + n).

(** [while (len >= 4) { ... }] on [(len, keydata_it, hash)]. *)
Fixpoint words (fuel : nat) (read : Z → Z) (len it hash : Z) : Z * Z * Z :=
  match fuel with
  | O => (len, it, hash)
  | S fuel' =>
      if 4 <=? len
      then words fuel' read (len - 4) (it + 1)
             (mix hash (scramble (keydata read it)))
      else (len, it, hash)
  end.

(** [keydata + keydata_it*4] is computed on a [uint32_t*], so the tail starts
    [16 * keydata_it] bytes after [key].  The cases of the [switch] fall
    through. *)
Definition tail_step (read : Z → Z) (len it hash : Z) : Z :=
  let tail i := read (16 * it + i) in
  let sel := Z.land len 3 in
  let k1 := 0 in
  let k1 := if sel =? 3 then Z.lxor k1 (shl32 (tail 2) 16) else k1 in
  let k1 := if 2 <=? sel then Z.lxor k1 (shl32 (tail 1) 8) else k1 in
  if 1 <=? sel
  then Z.lxor hash (scramble (Z.lxor k1 (tail 0)))
  else hash.

Definition finish (len hash : Z) : Z :=
  let hash := Z.lxor hash len in
  let hash := Z.lxor hash (Z.shiftr hash 16) in
  let hash := mul32 hash 0x85ebca6b in
  let hash := Z.lxor hash (Z.shiftr hash 13) in
  let hash := mul32 hash 0xc2b2ae35 in
  Z.lxor hash (Z.shiftr hash 16).

Definition Murmur3_32 (read : Z → Z) (len : Z) : Z :=
  let '(len, it, hash) := words (Z.to_nat len) read len 0 0 in
  finish len (tail_step read len it hash).

Lemma words_spec fuel read len it hash :
  0 ≤ len → len ≤ Z.of_nat fuel →
  ∃ h, words fuel read len it hash = (len mod 4, it + len / 4, h).
Proof.
  revert len it hash. induction fuel as [|fuel IH]; intros len it hash Hl Hf; simpl.
  - assert (len = 0) as -> by lia. exists hash.
    rewrite Z.mod_0_l, Z.div_0_l, Z.add_0_r by lia. done.
  - destruct (4 <=? len) eqn:E; zbool.
    + destruct (IH (len - 4) (it + 1) (mix hash (scramble (keydata read it))))
        as [h ->]; [lia|lia|].
      exists h.
      replace (len - 4) with (len + (-1) * 4) by lia.
      rewrite Z.mod_add, Z.div_add by lia.
      replace (it + 1 + (len / 4 + -1)) with (it + len / 4) by lia. done.
    + exists hash. rewrite Z.mod_small, Z.div_small, Z.add_0_r by lia. done.
Qed.

(** The loop reads bytes before [len] only. *)
Lemma words_ext fuel r1 r2 len it hash :
  0 ≤ it → (∀ i, 0 ≤ i < 4 * it + len → r1 i = r2 i) →
  words fuel r1 len it hash = words fuel r2 len it hash.
Proof.
  revert len it hash. induction fuel as [|fuel IH]; intros len it hash Hit Hr; [done|].
  simpl. destruct (4 <=? len) eqn:E; [|done]. zbool.
  assert (keydata r1 it = keydata r2 it) as ->.
  { unfold keydata. rewrite !Hr by lia. done. }
  apply IH; [lia|]. intros i Hi. apply Hr. lia.
Qed.

Lemma finish_nonneg len hash : 0 ≤ finish len hash.
Proof.
  unfold finish. set (h := mul32 _ 0xc2b2ae35).
  assert (0 ≤ h) by (apply wrapu_range; lia).
  apply Z.lxor_nonneg. rewrite Z.shiftr_nonneg. tauto.
Qed.

Lemma Murmur3_32_nonneg read len : 0 ≤ Murmur3_32 read len.
Proof.
  unfold Murmur3_32. destruct (words _ _ _ _ _) as [[l it] h]. apply finish_nonneg.
Qed.

(** The strings whose hash depends on their bytes only: a string shorter than
    a word, where the tail starts at its first byte, and one that has no tail. *)
Definition tail_in_bounds (len : Z) : Prop := len < 4 ∨ len mod 4 = 0.

Lemma Murmur3_32_ext r1 r2 len :
  0 ≤ len → tail_in_bounds len → (∀ i, 0 ≤ i < len → r1 i = r2 i) →
  Murmur3_32 r1 len = Murmur3_32 r2 len.
Proof.
  intros Hl Hg Hr. unfold Murmur3_32.
  rewrite (words_ext _ r1 r2) by (try lia; intros; apply Hr; lia).
  destruct (words_spec (Z.to_nat len) r2 len 0 0) as [h ->]; [lia|lia|].
  f_equal. unfold tail_step.
  destruct Hg as [Hg|Hg].
  - rewrite Z.mod_small, Z.div_small by lia. simpl.
    assert (Hc : len = 0 ∨ len = 1 ∨ len = 2 ∨ len = 3) by lia.
    destruct Hc as [->|[->|[->| ->]]]; simpl; rewrite ?Hr by lia; done.
  - rewrite Hg. done.
Qed.

End Murmur.

(** ** The interface of the keys

    [key_canon] is what [key_eqb] compares; [key_good] singles out the
    canonical keys whose hash is determined by [key_canon]. *)
Class DhashKey (K C : Type) := {
  key_is_null : K → bool;
  key_canon : K → C;
  key_eqb : K → K → bool;
  key_hash : K → Z;
  key_good : C → Prop;
}.

Class DhashKeyOk (K C : Type) `{DhashKey K C, EqDecision C} : Prop := {
  key_eqb_spec k1 k2 : key_eqb k1 k2 = bool_decide (key_canon k1 = key_canon k2);
  key_hash_nonneg k : 0 ≤ key_hash k;
  key_hash_canon k1 k2 :
    key_good (key_canon k1) → key_canon k1 = key_canon k2 →
    key_hash k1 = key_hash k2;
}.

Module Table.

(** [bucket_ptr_t]; the [next] field is the tail of the list.  The infos are
    [void*] addresses, [NULL] is 0. *)
Record bucket (K : Type) := Bucket { b_key : K; b_info : Z }.
Arguments Bucket {K} _ _.
Arguments b_key {K} _.
Arguments b_info {K} _.

(** [struct dhash_ptr_tag] *)
Record dhash (K : Type) := Dhash {
  buckets : list (list (bucket K));
  num_buckets_idx : nat;
  num_items : Z;
}.
Arguments Dhash {K} _ _ _.
Arguments buckets {K} _.
Arguments num_buckets_idx {K} _.
Arguments num_items {K} _.

Definition MAX_BUCKET_SIZE : Z := 76003.
Definition prime_set : list Z :=
  [5; 11; 23; 53; 131; 317; 787; 1951; 4877; 12163; 30403; MAX_BUCKET_SIZE].
Definition last_prime : nat := length prime_set - 1.

Section Ops.
Context {K C : Type} `{DhashKey K C}.

(** [while (prime_set[num_buckets_idx] < initial_size) num_buckets_idx++;] *)
Fixpoint round_to_next_prime (fuel : nat) (initial_size : Z) (idx : nat) : res nat :=
  match fuel with
  | O => Err NoFuel
  | S fuel' =>
      p ← get (prime_set !! idx);
      if p <? initial_size
      then round_to_next_prime fuel' initial_size (S idx)
      else Ret idx
  end.

Definition dhash_new (initial_size : Z) : res (dhash K) :=
  if initial_size <? 0 then Err Aborted else
  idx ← (if MAX_BUCKET_SIZE <=? initial_size then Ret last_prime
         else round_to_next_prime 12 initial_size 0);
  num ← get (prime_set !! idx);
  Ret (Dhash (replicate (Z.to_nat num) []) idx 0).

(** [Murmur3_32(key) % num_buckets] *)
Definition slot (key : K) (num_buckets : Z) : nat :=
  Z.to_nat (key_hash key mod num_buckets).

(** The loop of [dhash_ptr_query] over the chain. *)
Fixpoint chain_query (key : K) (b : list (bucket K)) : Z :=
  match b with
  | [] => 0
  | e :: b' => if key_eqb (b_key e) key then b_info e else chain_query key b'
  end.

Definition dhash_query (d : dhash K) (key : K) : res Z :=
  if key_is_null key then Err Aborted else
  num_buckets ← get (prime_set !! num_buckets_idx d);
  b ← get (buckets d !! slot key num_buckets);
  Ret (chain_query key b).

(** The update loop of [dhash_ptr_do_insert]: [None] when the key is not in
    the chain. *)
Fixpoint chain_update (key : K) (info : Z) (b : list (bucket K)) :
    option (list (bucket K)) :=
  match b with
  | [] => None
  | e :: b' =>
      if key_eqb (b_key e) key then Some (Bucket (b_key e) info :: b')
      else (e ::.) <$> chain_update key info b'
  end.

Definition dhash_do_insert (d : dhash K) (key : K) (info : Z) : res (dhash K) :=
  num_buckets ← get (prime_set !! num_buckets_idx d);
  let hash := slot key num_buckets in
  b ← get (buckets d !! hash);
  match chain_update key info b with
  | Some b' => Ret (Dhash (<[hash := b']> (buckets d)) (num_buckets_idx d) (num_items d))
  | None =>
      Ret (Dhash (<[hash := Bucket key info :: b]> (buckets d))
             (num_buckets_idx d) (num_items d + 1))
  end.

(** The inner loop of the rehash: every link of an old chain is copied to the
    front of its new chain. *)
Fixpoint rehash_chain (num_new_buckets : Z) (old_b : list (bucket K))
    (new_buckets : list (list (bucket K))) : res (list (list (bucket K))) :=
  match old_b with
  | [] => Ret new_buckets
  | e :: old_b' =>
      let new_hash := slot (b_key e) num_new_buckets in
      b ← get (new_buckets !! new_hash);
      rehash_chain num_new_buckets old_b'
        (<[new_hash := Bucket (b_key e) (b_info e) :: b]> new_buckets)
  end.

Fixpoint rehash_buckets (num_new_buckets : Z) (old_buckets : list (list (bucket K)))
    (new_buckets : list (list (bucket K))) : res (list (list (bucket K))) :=
  match old_buckets with
  | [] => Ret new_buckets
  | old_b :: rest =>
      new_buckets' ← rehash_chain num_new_buckets old_b new_buckets;
      rehash_buckets num_new_buckets rest new_buckets'
  end.

Definition dhash_increase_rehash (d : dhash K) : res (dhash K) :=
  if decide (num_buckets_idx d = last_prime) then Ret d else
  let idx := S (num_buckets_idx d) in
  num_new_buckets ← get (prime_set !! idx);
  new_buckets ← rehash_buckets num_new_buckets (buckets d)
                  (replicate (Z.to_nat num_new_buckets) []);
  Ret (Dhash new_buckets idx (num_items d)).

Definition dhash_insert (d : dhash K) (key : K) (info : Z) : res (dhash K) :=
  if key_is_null key then Err Aborted else
  if info =? 0 then Err Aborted else
  num_buckets ← get (prime_set !! num_buckets_idx d);
  d' ← (if Z.quot (num_buckets * 3) 4 <? num_items d
        then dhash_increase_rehash d else Ret d);
  dhash_do_insert d' key info.

(** The unlinking loop of [dhash_ptr_remove]: [None] when the key is not in
    the chain. *)
Fixpoint chain_remove (key : K) (b : list (bucket K)) : option (list (bucket K)) :=
  match b with
  | [] => None
  | e :: b' =>
      if key_eqb (b_key e) key then Some b'
      else (e ::.) <$> chain_remove key b'
  end.

Definition dhash_remove (d : dhash K) (key : K) : res (dhash K) :=
  if key_is_null key then Err Aborted else
  num_buckets ← get (prime_set !! num_buckets_idx d);
  let hash := slot key num_buckets in
  b ← get (buckets d !! hash);
  match chain_remove key b with
  | Some b' =>
      Ret (Dhash (<[hash := b']> (buckets d)) (num_buckets_idx d) (num_items d - 1))
  | None => Ret d
  end.

(** [walk_info] is the state [St] that [walk_fn] reads and writes. *)
Fixpoint chain_walk {St} (walk_fn : K → Z → St → St) (b : list (bucket K)) (s : St) : St :=
  match b with
  | [] => s
  | e :: b' => chain_walk walk_fn b' (walk_fn (b_key e) (b_info e) s)
  end.

Fixpoint buckets_walk {St} (walk_fn : K → Z → St → St)
    (bs : list (list (bucket K))) (s : St) : St :=
  match bs with
  | [] => s
  | b :: bs' => buckets_walk walk_fn bs' (chain_walk walk_fn b s)
  end.

Definition dhash_walk {St} (d : dhash K) (walk_fn : K → Z → St → St) (s : St) : res St :=
  num_buckets ← get (prime_set !! num_buckets_idx d);
  if decide (Z.to_nat num_buckets ≤ length (buckets d))%nat
  then Ret (buckets_walk walk_fn (take (Z.to_nat num_buckets) (buckets d)) s)
  else Err Undef.

(** [free_bucket_list] and [dhash_ptr_destroy], as the sequence of the links
    they give back to the allocator. *)
Fixpoint free_bucket_list (b : list (bucket K)) : list (bucket K) :=
  match b with
  | [] => []
  | e :: b' => free_bucket_list b' ++ [e]
  end.

Definition dhash_destroy (d : dhash K) : res (list (bucket K)) :=
  num_buckets ← get (prime_set !! num_buckets_idx d);
  if decide (Z.to_nat num_buckets ≤ length (buckets d))%nat
  then Ret (concat (free_bucket_list <$> take (Z.to_nat num_buckets) (buckets d)))
  else Err Undef.

End Ops.

(** ** The abstract map and the representation invariant *)
Section Spec.
Context {K C : Type} `{DhashKey K C, Countable C, !DhashKeyOk K C}.
Implicit Types (d : dhash K) (l : list (bucket K)) (bs : list (list (bucket K))).

Definition entry (e : bucket K) : C * Z := (key_canon (b_key e), b_info e).
Definition keys l : list C := (λ e, key_canon (b_key e)) <$> l.
Definition binds l : gmap C Z := list_to_map (entry <$> l).

(** The finite map a table stands for. *)
Definition dhash_map d : gmap C Z := binds (concat (buckets d)).

(** Every link is in the bucket its key hashes to. *)
Definition placed (nb : Z) bs : Prop :=
  length bs = Z.to_nat nb ∧
  ∀ i b e, bs !! i = Some b → e ∈ b → slot (b_key e) nb = i.

(** The links: one per key, with a determined hash and a non-null info. *)
Definition links_ok l : Prop :=
  NoDup (keys l) ∧ Forall (λ e, key_good (key_canon (b_key e)) ∧ b_info e ≠ 0) l.

Record wf_at (nb : Z) d : Prop := {
  wf_idx : prime_set !! num_buckets_idx d = Some nb;
  wf_placed : placed nb (buckets d);
  wf_links : links_ok (concat (buckets d));
  wf_items : num_items d = Z.of_nat (length (concat (buckets d)));
}.

Definition wf d : Prop := ∃ nb, wf_at nb d.

(** The load factor the table keeps until it reaches its last size. *)
Definition load_ok d : Prop :=
  num_buckets_idx d = last_prime ∨
  ∃ nb, prime_set !! num_buckets_idx d = Some nb ∧ num_items d ≤ Z.quot (nb * 3) 4 + 1.

(** *** Lists of links as maps *)

Lemma keys_entry l : (entry <$> l).*1 = keys l.
Proof. unfold keys. by rewrite <-list_fmap_compose. Qed.

Lemma binds_cons e l : binds (e :: l) = <[key_canon (b_key e) := b_info e]> (binds l).
Proof. done. Qed.

Lemma binds_perm l l' : NoDup (keys l) → l ≡ₚ l' → binds l = binds l'.
Proof.
  intros Hnd Hp. apply list_to_map_proper; [by rewrite keys_entry|by rewrite Hp].
Qed.

Lemma binds_lookup l c v :
  NoDup (keys l) →
  binds l !! c = Some v ↔ ∃ e, e ∈ l ∧ key_canon (b_key e) = c ∧ b_info e = v.
Proof.
  intros Hnd. unfold binds. rewrite <-elem_of_list_to_map by by rewrite keys_entry.
  rewrite list_elem_of_fmap. unfold entry. split.
  - intros (e & [= -> ->] & He). eauto.
  - intros (e & He & <- & <-). eauto.
Qed.

Lemma binds_not_key l c : c ∉ keys l → binds l !! c = None.
Proof.
  intros Hc. apply not_elem_of_list_to_map_1. by rewrite keys_entry.
Qed.

Lemma links_ok_perm l l' : l ≡ₚ l' → links_ok l → links_ok l'.
Proof. intros Hp [??]. split; [unfold keys in *|]; by rewrite <-Hp. Qed.

Lemma links_ok_app l l' : links_ok (l ++ l') → links_ok l.
Proof.
  intros [Hnd Hf]. apply Forall_app in Hf as [??].
  unfold keys in Hnd. rewrite fmap_app in Hnd. apply NoDup_app in Hnd as (?&?&?).
  by split.
Qed.

(** *** Chains *)

Lemma key_eqb_true k1 k2 : key_eqb k1 k2 = true ↔ key_canon k1 = key_canon k2.
Proof. rewrite key_eqb_spec. apply bool_decide_eq_true. Qed.

Lemma key_eqb_false k1 k2 : key_eqb k1 k2 = false ↔ key_canon k1 ≠ key_canon k2.
Proof. rewrite key_eqb_spec. apply bool_decide_eq_false. Qed.

Lemma chain_query_binds key l : chain_query key l = default 0 (binds l !! key_canon key).
Proof.
  induction l as [|e l IH]; [done|]. rewrite binds_cons. simpl.
  destruct (key_eqb (b_key e) key) eqn:E.
  - apply key_eqb_true in E. by rewrite E, lookup_insert_eq.
  - apply key_eqb_false in E. by rewrite lookup_insert_ne.
Qed.

Lemma chain_update_spec key info l :
  match chain_update key info l with
  | Some l' => ∃ l1 e l2, l = l1 ++ e :: l2 ∧ key_canon (b_key e) = key_canon key
                 ∧ l' = l1 ++ Bucket (b_key e) info :: l2
  | None => key_canon key ∉ keys l
  end.
Proof.
  induction l as [|e l IH]; simpl; [by apply not_elem_of_nil|].
  destruct (key_eqb (b_key e) key) eqn:E.
  - apply key_eqb_true in E. by exists [], e, l.
  - apply key_eqb_false in E. destruct (chain_update key info l) as [l'|]; simpl.
    + destruct IH as (l1 & e' & l2 & -> & ? & ->). by exists (e :: l1), e', l2.
    + apply not_elem_of_cons. by split.
Qed.

Lemma chain_remove_spec key l :
  match chain_remove key l with
  | Some l' => ∃ l1 e l2, l = l1 ++ e :: l2 ∧ key_canon (b_key e) = key_canon key
                 ∧ l' = l1 ++ l2
  | None => key_canon key ∉ keys l
  end.
Proof.
  induction l as [|e l IH]; simpl; [by apply not_elem_of_nil|].
  destruct (key_eqb (b_key e) key) eqn:E.
  - apply key_eqb_true in E. by exists [], e, l.
  - apply key_eqb_false in E. destruct (chain_remove key l) as [l'|]; simpl.
    + destruct IH as (l1 & e' & l2 & -> & ? & ->). by exists (e :: l1), e', l2.
    + apply not_elem_of_cons. by split.
Qed.

(** *** The array of buckets *)

Lemma prime_pos i nb : prime_set !! i = Some nb → 5 ≤ nb ≤ MAX_BUCKET_SIZE.
Proof.
  intros Hi. apply list_elem_of_lookup_2 in Hi. revert nb Hi.
  apply Forall_forall. repeat constructor; vm_compute; done.
Qed.

(** The next size always leaves room for one more item. *)
Lemma next_prime_grows i nb :
  prime_set !! i = Some nb → i ≠ last_prime →
  ∃ nb', prime_set !! S i = Some nb' ∧ Z.quot (nb * 3) 4 + 1 ≤ Z.quot (nb' * 3) 4.
Proof.
  intros Hi Hne. pose proof (lookup_lt_Some _ _ _ Hi) as Hlt.
  unfold last_prime in Hne. simpl in Hlt, Hne.
  do 11 (destruct i as [|i]; [injection Hi as <-; eexists; split; [reflexivity|vm_compute; done]|]).
  lia.
Qed.

Lemma slot_lt k nb : 0 < nb → (slot k nb < Z.to_nat nb)%nat.
Proof. intros Hnb. unfold slot. pose proof (Z.mod_pos_bound (key_hash k) nb Hnb). lia. Qed.

Lemma placed_slot nb bs k :
  0 < nb → placed nb bs → ∃ b, bs !! slot k nb = Some b.
Proof.
  intros Hnb [Hlen _]. apply lookup_lt_is_Some. rewrite Hlen. by apply slot_lt.
Qed.

Lemma placed_empty nb : placed nb (replicate (Z.to_nat nb) []).
Proof.
  split; [by rewrite length_replicate|].
  intros i b e Hi He. apply lookup_replicate in Hi as [-> _]. set_solver.
Qed.

(** The links outside the bucket [i]. *)
Definition others (i : nat) bs : list (bucket K) := concat (delete i bs).

Lemma concat_others i bs b : bs !! i = Some b → concat bs ≡ₚ b ++ others i bs.
Proof.
  intros Hi. unfold others. rewrite delete_take_drop.
  rewrite <-(take_drop_middle _ _ _ Hi) at 1.
  rewrite !concat_app. simpl. by rewrite Permutation_app_swap_app.
Qed.

Lemma concat_others_insert i bs b b' :
  bs !! i = Some b → concat (<[i := b']> bs) ≡ₚ b' ++ others i bs.
Proof.
  intros Hi. unfold others. rewrite delete_take_drop.
  rewrite insert_take_drop by by eapply lookup_lt_Some.
  rewrite !concat_app. simpl. by rewrite Permutation_app_swap_app.
Qed.

Lemma placed_insert nb bs i b' :
  placed nb bs → (∀ e, e ∈ b' → slot (b_key e) nb = i) → placed nb (<[i := b']> bs).
Proof.
  intros [Hlen Hpl] Hb'. split; [by rewrite length_insert|].
  intros j b e Hj He. apply list_lookup_insert_Some in Hj as [(-> & -> & _)|[_ Hj]].
  - by apply Hb'.
  - by eapply Hpl.
Qed.

(** The bucket of a key holds every link with that key. *)
Lemma slot_binds nb bs k b :
  0 < nb → placed nb bs → links_ok (concat bs) → bs !! slot k nb = Some b →
  binds b !! key_canon k = binds (concat bs) !! key_canon k.
Proof.
  intros Hnb Hpl Hok Hb.
  pose proof (concat_others _ _ _ Hb) as Hp.
  pose proof (links_ok_perm _ _ Hp Hok) as Hok'.
  destruct (links_ok_app _ _ Hok') as [Hndb _].
  apply option_eq. intros v. destruct Hok as [Hnd Hf].
  rewrite !binds_lookup by done. split.
  - intros (e & He & ? & ?). exists e. split; [|done]. rewrite Hp. set_solver.
  - intros (e & He & Hc & Hv). exists e. split; [|done].
    rewrite Forall_forall in Hf. destruct (Hf e He) as [Hg _].
    apply list_elem_of_In, in_concat in He as (b' & Hb' & Hin).
    apply list_elem_of_In in Hb', Hin. apply list_elem_of_lookup in Hb' as [i Hi].
    assert (slot k nb = i) as <-; [|congruence].
    rewrite <-(proj2 Hpl i b' e Hi Hin). unfold slot.
    by rewrite (key_hash_canon (b_key e) k Hg Hc).
Qed.

(** *** The rehash *)

Lemma rehash_chain_spec nb old acc :
  0 < nb → placed nb acc →
  ∃ acc', rehash_chain nb old acc = Ret acc' ∧ placed nb acc'
    ∧ concat acc' ≡ₚ old ++ concat acc.
Proof.
  intros Hnb. revert acc. induction old as [|e old IH]; intros acc Hacc; simpl.
  { by exists acc. }
  destruct (placed_slot nb acc (b_key e) Hnb Hacc) as [b Hb]. rewrite Hb. simpl.
  destruct (IH (<[slot (b_key e) nb := Bucket (b_key e) (b_info e) :: b]> acc))
    as (acc' & -> & Hpl & Hp).
  { apply placed_insert; [done|]. intros e' [->|He']%elem_of_cons; [done|].
    by eapply (proj2 Hacc). }
  exists acc'. split; [done|]. split; [done|]. rewrite Hp.
  rewrite (concat_others_insert _ _ _ _ Hb), (concat_others _ _ _ Hb).
  destruct e; simpl. symmetry. apply Permutation_middle.
Qed.

Lemma rehash_buckets_spec nb old acc :
  0 < nb → placed nb acc →
  ∃ acc', rehash_buckets nb old acc = Ret acc' ∧ placed nb acc'
    ∧ concat acc' ≡ₚ concat old ++ concat acc.
Proof.
  intros Hnb. revert acc. induction old as [|b old IH]; intros acc Hacc; simpl.
  { by exists acc. }
  destruct (rehash_chain_spec nb b acc Hnb Hacc) as (acc1 & -> & Hpl1 & Hp1). simpl.
  destruct (IH acc1 Hpl1) as (acc2 & -> & Hpl2 & Hp2).
  exists acc2. split; [done|]. split; [done|].
  rewrite Hp2, Hp1, <-app_assoc. apply Permutation_app_swap_app.
Qed.

Lemma concat_replicate_nil (k : nat) : concat (replicate k ([] : list (bucket K))) = [].
Proof. by induction k. Qed.

Lemma increase_rehash_spec d :
  wf d →
  ∃ d', dhash_increase_rehash d = Ret d' ∧ wf d' ∧ dhash_map d' = dhash_map d
    ∧ num_items d' = num_items d
    ∧ num_buckets_idx d' =
        (if decide (num_buckets_idx d = last_prime) then num_buckets_idx d
         else S (num_buckets_idx d)).
Proof.
  intros [nb [Hidx Hpl Hok Hit]]. unfold dhash_increase_rehash.
  destruct (decide (num_buckets_idx d = last_prime)) as [Hlast|Hlast].
  { exists d. split; [done|]. split; [by exists nb|done]. }
  assert (is_Some (prime_set !! S (num_buckets_idx d))) as [nb' Hnb'].
  { apply lookup_lt_is_Some. apply lookup_lt_Some in Hidx. unfold last_prime in Hlast.
    simpl in *. lia. }
  rewrite Hnb'. simpl. pose proof (prime_pos _ _ Hnb').
  destruct (rehash_buckets_spec nb' (buckets d) (replicate (Z.to_nat nb') []))
    as (bs & -> & Hpl' & Hp); [lia|apply placed_empty|].
  rewrite concat_replicate_nil, app_nil_r in Hp. simpl.
  eexists. split; [done|]. split; [|split; [|done]].
  - exists nb'. split; simpl; [done|done| |].
    + by apply (links_ok_perm (concat (buckets d))).
    + by rewrite Hp.
  - unfold dhash_map. simpl. symmetry. apply binds_perm; [apply Hok|done].
Qed.

(** *** The operations *)

(** Replacing one bucket: what is left to show of the new chain. *)
Lemma replace_bucket nb d k b b' :
  wf_at nb d → buckets d !! slot k nb = Some b →
  (∀ e, e ∈ b' → slot (b_key e) nb = slot k nb) →
  links_ok (b' ++ others (slot k nb) (buckets d)) →
  ∀ d', d' = Dhash (<[slot k nb := b']> (buckets d)) (num_buckets_idx d)
               (num_items d - Z.of_nat (length b) + Z.of_nat (length b')) →
  wf_at nb d' ∧ dhash_map d' = binds (b' ++ others (slot k nb) (buckets d)).
Proof.
  intros [Hidx Hpl Hok Hit] Hb Hslot Hok' d' ->.
  pose proof (concat_others _ _ _ Hb) as Hp.
  pose proof (concat_others_insert _ _ _ b' Hb) as Hp'.
  split.
  - split; simpl; [done|by apply placed_insert| |].
    + by apply (links_ok_perm _ _ (symmetry Hp')).
    + rewrite Hit, Hp, Hp', !length_app. lia.
  - unfold dhash_map. simpl. symmetry. apply binds_perm; [apply Hok'|done].
Qed.

Lemma dhash_map_bucket nb d k b :
  wf_at nb d → buckets d !! slot k nb = Some b →
  dhash_map d = binds (b ++ others (slot k nb) (buckets d)).
Proof.
  intros [_ _ [Hnd _] _] Hb. by apply binds_perm, concat_others.
Qed.

Lemma wf_bucket nb d k :
  wf_at nb d → ∃ b, buckets d !! slot k nb = Some b
    ∧ links_ok (b ++ others (slot k nb) (buckets d))
    ∧ (∀ e, e ∈ b → slot (b_key e) nb = slot k nb)
    ∧ binds b !! key_canon k = dhash_map d !! key_canon k.
Proof.
  intros [Hidx Hpl Hok _]. pose proof (prime_pos _ _ Hidx).
  destruct (placed_slot nb (buckets d) k) as [b Hb]; [lia|done|].
  exists b. split; [done|]. split; [by eapply links_ok_perm, Hok; apply concat_others|].
  split; [intros e; by apply (proj2 Hpl)|]. by apply (slot_binds nb); [lia|..].
Qed.

Lemma links_ok_update l1 e l2 r info :
  info ≠ 0 → links_ok ((l1 ++ e :: l2) ++ r) →
  links_ok ((l1 ++ Bucket (b_key e) info :: l2) ++ r)
  ∧ binds ((l1 ++ Bucket (b_key e) info :: l2) ++ r)
    = <[key_canon (b_key e) := info]> (binds ((l1 ++ e :: l2) ++ r)).
Proof.
  intros Hinfo [Hnd Hf]. rewrite <-!app_assoc in *. simpl in *.
  assert (links_ok (l1 ++ Bucket (b_key e) info :: l2 ++ r)) as Hok'.
  { split.
    - unfold keys in *. rewrite fmap_app, fmap_cons in *. simpl in *. done.
    - apply Forall_app in Hf as [Hf1 [[Hg Hi] Hf2]%Forall_cons].
      apply Forall_app. split; [done|]. by constructor. }
  split; [done|].
  rewrite (binds_perm _ (Bucket (b_key e) info :: l1 ++ l2 ++ r) (proj1 Hok'))
    by (symmetry; apply Permutation_middle).
  rewrite (binds_perm _ (e :: l1 ++ l2 ++ r) Hnd) by (symmetry; apply Permutation_middle).
  rewrite !binds_cons. simpl. by rewrite insert_insert_eq.
Qed.

Lemma links_ok_push l key info :
  key_good (key_canon key) → info ≠ 0 → binds l !! key_canon key = None →
  links_ok l → links_ok (Bucket key info :: l).
Proof.
  intros Hg Hi Hnew [Hnd Hf]. split; [|by constructor].
  unfold keys. rewrite fmap_cons. apply NoDup_cons. split; [|done].
  intros Hin. apply list_elem_of_fmap in Hin as (e & Hc & He).
  assert (binds l !! key_canon key = Some (b_info e)); [|congruence].
  apply binds_lookup; [done|]. by exists e.
Qed.

Lemma links_ok_unlink l1 e l2 r :
  links_ok ((l1 ++ e :: l2) ++ r) →
  links_ok ((l1 ++ l2) ++ r)
  ∧ binds ((l1 ++ l2) ++ r) = delete (key_canon (b_key e)) (binds ((l1 ++ e :: l2) ++ r)).
Proof.
  intros Hok. rewrite <-!app_assoc in *. simpl in *.
  assert (l1 ++ e :: l2 ++ r ≡ₚ e :: l1 ++ l2 ++ r) as Hp
    by (symmetry; apply Permutation_middle).
  pose proof (links_ok_perm _ _ Hp Hok) as [Hnd' Hf'].
  unfold keys in Hnd'. rewrite fmap_cons in Hnd'. apply NoDup_cons in Hnd' as [Hni Hnd'].
  apply Forall_cons in Hf' as [_ Hf']. split; [by split|].
  rewrite (binds_perm _ _ (proj1 Hok) Hp), binds_cons.
  symmetry. apply delete_insert_id. by apply binds_not_key.
Qed.

Lemma do_insert_spec d key info :
  wf d → key_good (key_canon key) → info ≠ 0 →
  ∃ d', dhash_do_insert d key info = Ret d' ∧ wf d'
    ∧ dhash_map d' = <[key_canon key := info]> (dhash_map d)
    ∧ num_buckets_idx d' = num_buckets_idx d ∧ num_items d' ≤ num_items d + 1.
Proof.
  intros [nb Hwf] Hgood Hinfo. destruct (wf_bucket nb d key Hwf) as (b & Hb & Hok & Hsl & Hbind).
  pose proof (dhash_map_bucket nb d key b Hwf Hb) as Hmap.
  unfold dhash_do_insert. rewrite (wf_idx _ _ Hwf). simpl. rewrite Hb. simpl.
  pose proof (chain_update_spec key info b) as Hupd.
  destruct (chain_update key info b) as [b'|].
  - destruct Hupd as (l1 & e & l2 & -> & Hc & ->).
    destruct (links_ok_update _ _ _ _ info Hinfo Hok) as [Hok' Hb'].
    edestruct (replace_bucket nb d key _ (l1 ++ Bucket (b_key e) info :: l2) Hwf Hb)
      as [Hwf' Hmap']; [|exact Hok'|reflexivity|].
    { intros e' He'. apply elem_of_app in He' as [?|[->|?]%elem_of_cons]; simpl;
        apply Hsl; set_solver. }
    rewrite !length_app in Hwf', Hmap'. simpl in Hwf', Hmap'. rewrite Z.sub_add in Hwf', Hmap'.
    eexists. split; [done|]. split; [by exists nb|]. split; [|simpl; split; [done|lia]].
    by rewrite Hmap', Hb', Hc, Hmap.
  - edestruct (replace_bucket nb d key _ (Bucket key info :: b) Hwf Hb)
      as [Hwf' Hmap']; [| |reflexivity|].
    + intros e' [->|?]%elem_of_cons; [done|by apply Hsl].
    + rewrite <-app_comm_cons. apply links_ok_push; [done|done| |done].
      rewrite <-Hmap, <-Hbind. by apply binds_not_key.
    + simpl in Hwf', Hmap'.
      replace (num_items d - Z.of_nat (length b) + Z.of_nat (S (length b)))
        with (num_items d + 1) in Hwf', Hmap' by lia.
      eexists. split; [done|]. split; [by exists nb|]. split; [|simpl; split; [done|lia]].
      by rewrite Hmap', binds_cons, Hmap.
Qed.

Lemma remove_spec d key :
  wf d → key_is_null key = false →
  ∃ d', dhash_remove d key = Ret d' ∧ wf d'
    ∧ dhash_map d' = delete (key_canon key) (dhash_map d)
    ∧ num_buckets_idx d' = num_buckets_idx d ∧ num_items d' ≤ num_items d.
Proof.
  intros [nb Hwf] Hnn. destruct (wf_bucket nb d key Hwf) as (b & Hb & Hok & Hsl & Hbind).
  pose proof (dhash_map_bucket nb d key b Hwf Hb) as Hmap.
  unfold dhash_remove. rewrite Hnn, (wf_idx _ _ Hwf). simpl. rewrite Hb. simpl.
  pose proof (chain_remove_spec key b) as Hrem.
  destruct (chain_remove key b) as [b'|].
  - destruct Hrem as (l1 & e & l2 & -> & Hc & ->).
    destruct (links_ok_unlink _ _ _ _ Hok) as [Hok' Hb'].
    edestruct (replace_bucket nb d key _ (l1 ++ l2) Hwf Hb)
      as [Hwf' Hmap']; [|exact Hok'|reflexivity|].
    { intros e' He'. apply Hsl. revert He'. rewrite !elem_of_app, elem_of_cons. tauto. }
    rewrite !length_app in Hwf', Hmap'. simpl in Hwf', Hmap'.
    replace (num_items d - Z.of_nat (length l1 + S (length l2))
             + Z.of_nat (length l1 + length l2)) with (num_items d - 1) in Hwf', Hmap' by lia.
    eexists. split; [done|]. split; [by exists nb|].
    split; [by rewrite Hmap', Hb', Hc, Hmap|]. simpl. split; [done|lia].
  - exists d. split; [done|]. split; [by exists nb|]. split; [|done].
    symmetry. apply delete_id. rewrite <-Hbind. by apply binds_not_key.
Qed.

Lemma query_spec d key :
  wf d → key_is_null key = false →
  dhash_query d key = Ret (default 0 (dhash_map d !! key_canon key)).
Proof.
  intros [nb Hwf] Hnn. destruct (wf_bucket nb d key Hwf) as (b & Hb & Hok & Hsl & Hbind).
  unfold dhash_query. rewrite Hnn, (wf_idx _ _ Hwf). simpl. rewrite Hb. simpl.
  by rewrite chain_query_binds, Hbind.
Qed.

Lemma insert_spec d key info :
  wf d → key_is_null key = false → key_good (key_canon key) → info ≠ 0 →
  ∃ d', dhash_insert d key info = Ret d' ∧ wf d'
    ∧ dhash_map d' = <[key_canon key := info]> (dhash_map d)
    ∧ (load_ok d → load_ok d').
Proof.
  intros Hwf Hnn Hg Hi. destruct (Hwf) as [nb Hat].
  unfold dhash_insert. rewrite Hnn, (proj2 (Z.eqb_neq _ _) Hi), (wf_idx _ _ Hat). simpl.
  destruct (Z.quot (nb * 3) 4 <? num_items d) eqn:E; zbool; simpl.
  - destruct (increase_rehash_spec d Hwf) as (d1 & -> & Hwf1 & Hm1 & Hn1 & Hi1). simpl.
    destruct (do_insert_spec d1 key info Hwf1 Hg Hi) as (d2 & -> & Hwf2 & Hm2 & Hi2 & Hn2).
    exists d2. split; [done|]. split; [done|]. split; [by rewrite Hm2, Hm1|].
    intros Hload. unfold load_ok. rewrite Hi2, Hi1.
    destruct (decide (num_buckets_idx d = last_prime)) as [->|Hne]; [by left|].
    destruct Hload as [?|(nb0 & Hnb0 & Hle)]; [done|].
    rewrite (wf_idx _ _ Hat) in Hnb0. injection Hnb0 as <-.
    right. pose proof (next_prime_grows _ _ (wf_idx _ _ Hat) Hne) as (nb' & Hnb' & Hgrow).
    exists nb'. split; [done|]. lia.
  - destruct (do_insert_spec d key info Hwf Hg Hi) as (d2 & -> & Hwf2 & Hm2 & Hi2 & Hn2).
    exists d2. split; [done|]. split; [done|]. split; [done|].
    intros _. right. exists nb. rewrite Hi2. split; [apply Hat|lia].
Qed.

Lemma round_spec fuel size idx :
  (idx + S fuel = S last_prime)%nat → size < MAX_BUCKET_SIZE →
  ∃ idx' nb, round_to_next_prime (S fuel) size idx = Ret idx'
    ∧ prime_set !! idx' = Some nb ∧ size ≤ nb.
Proof.
  revert idx. induction fuel as [|fuel IH]; intros idx Hf Hs;
    (assert (is_Some (prime_set !! idx)) as [p Hp];
      [apply lookup_lt_is_Some; unfold last_prime in Hf; simpl in *; lia|]);
    cbn [round_to_next_prime]; rewrite Hp; cbn [get mbind res_bind];
    destruct (p <? size) eqn:E; zbool; [|by exists idx, p| |by exists idx, p].
  - assert (idx = last_prime) as -> by lia. injection Hp as <-. lia.
  - apply IH; [lia|done].
Qed.

Lemma new_spec size :
  0 ≤ size →
  ∃ d, dhash_new size = Ret d ∧ wf d ∧ dhash_map d = ∅ ∧ load_ok d
    ∧ (size ≤ Z.of_nat (length (buckets d)) ∨ num_buckets_idx d = last_prime).
Proof.
  intros Hs. unfold dhash_new. rewrite (proj2 (Z.ltb_ge _ _) Hs).
  assert (∃ idx nb, (if MAX_BUCKET_SIZE <=? size then Ret last_prime
                     else round_to_next_prime 12 size 0) = Ret idx
            ∧ prime_set !! idx = Some nb ∧ (size ≤ nb ∨ idx = last_prime))
    as (idx & nb & -> & Hnb & Hsz).
  { destruct (MAX_BUCKET_SIZE <=? size) eqn:E; zbool.
    - exists last_prime, MAX_BUCKET_SIZE. split; [done|]. split; [done|]. by right.
    - destruct (round_spec 11 size 0) as (idx & nb & Hr & ? & ?); [done|done|].
      exists idx, nb. split; [exact Hr|]. split; [done|]. by left. }
  simpl. rewrite Hnb. simpl. pose proof (prime_pos _ _ Hnb).
  eexists. split; [done|]. split; [|split; [|split]].
  - exists nb. split; simpl; [done|apply placed_empty| |].
    + rewrite concat_replicate_nil. split; constructor.
    + by rewrite concat_replicate_nil.
  - unfold dhash_map. simpl. by rewrite concat_replicate_nil.
  - right. exists nb. split; [done|]. simpl.
    pose proof (Z.quot_pos (nb * 3) 4 ltac:(lia) ltac:(lia)). lia.
  - simpl. rewrite length_replicate. destruct Hsz; [left|right]; [lia|done].
Qed.

(** *** Walking and destroying *)

Lemma chain_walk_foldl {St} (f : K → Z → St → St) l s :
  chain_walk f l s = foldl (λ s e, f (b_key e) (b_info e) s) s l.
Proof. revert s. induction l as [|e l IH]; intros s; simpl; [done|apply IH]. Qed.

Lemma buckets_walk_foldl {St} (f : K → Z → St → St) bs s :
  buckets_walk f bs s = foldl (λ s e, f (b_key e) (b_info e) s) s (concat bs).
Proof.
  revert s. induction bs as [|b bs IH]; intros s; simpl; [done|].
  by rewrite IH, chain_walk_foldl, foldl_app.
Qed.

Lemma wf_all_buckets nb d :
  wf_at nb d → (Z.to_nat nb ≤ length (buckets d))%nat
    ∧ take (Z.to_nat nb) (buckets d) = buckets d.
Proof. intros [_ [Hlen _] _ _]. split; [lia|]. apply take_ge. lia. Qed.

Lemma entries_map d : wf d → entry <$> concat (buckets d) ≡ₚ map_to_list (dhash_map d).
Proof.
  intros [nb [_ _ [Hnd _] _]]. unfold dhash_map, binds.
  rewrite map_to_list_to_map; [done|]. by rewrite keys_entry.
Qed.

Lemma free_bucket_list_perm l : free_bucket_list l ≡ₚ l.
Proof.
  induction l as [|e l IH]; simpl; [done|]. rewrite IH. by rewrite Permutation_app_comm.
Qed.

Lemma concat_free_perm bs : concat (free_bucket_list <$> bs) ≡ₚ concat bs.
Proof. induction bs as [|b bs IH]; simpl; [done|]. by rewrite IH, free_bucket_list_perm. Qed.

End Spec.
End Table.

(** ** Runs of operations against the abstract map *)
Module Runs.
Import Table.

Inductive dhash_op (K : Type) :=
| OpInsert (key : K) (info : Z)
| OpRemove (key : K)
| OpQuery (key : K).
Arguments OpInsert {K} _ _.
Arguments OpRemove {K} _.
Arguments OpQuery {K} _.

Section Runs.
Context {K C : Type} `{DhashKey K C, Countable C, !DhashKeyOk K C}.

(** The table after a sequence of operations and the answers of its queries. *)
Fixpoint run (d : dhash K) (ops : list (dhash_op K)) : res (dhash K * list Z) :=
  match ops with
  | [] => Ret (d, [])
  | OpInsert k v :: ops => d' ← dhash_insert d k v; run d' ops
  | OpRemove k :: ops => d' ← dhash_remove d k; run d' ops
  | OpQuery k :: ops =>
      v ← dhash_query d k;
      '(d', vs) ← run d ops;
      Ret (d', v :: vs)
  end.

(** The same operations on a finite map; [NULL] answers a missing key. *)
Fixpoint spec_run (m : gmap C Z) (ops : list (dhash_op K)) : gmap C Z * list Z :=
  match ops with
  | [] => (m, [])
  | OpInsert k v :: ops => spec_run (<[key_canon k := v]> m) ops
  | OpRemove k :: ops => spec_run (delete (key_canon k) m) ops
  | OpQuery k :: ops =>
      let '(m', vs) := spec_run m ops in
      (m', default 0 (m !! key_canon k) :: vs)
  end.

(** What the callers must respect: no null key, no null info, and inserted
    keys with a determined hash. *)
Definition legal (o : dhash_op K) : Prop :=
  match o with
  | OpInsert k v => key_is_null k = false ∧ key_good (key_canon k) ∧ v ≠ 0
  | OpRemove k | OpQuery k => key_is_null k = false
  end.

Lemma run_refines ops d :
  wf d → load_ok d → Forall legal ops →
  ∃ d', run d ops = Ret (d', (spec_run (dhash_map d) ops).2)
    ∧ wf d' ∧ load_ok d' ∧ dhash_map d' = (spec_run (dhash_map d) ops).1.
Proof.
  revert d. induction ops as [|[k v|k|k] ops IH]; intros d Hwf Hld Hok;
    apply Forall_cons in Hok || clear Hok; simpl.
  - by exists d.
  - destruct Hok as [(Hn & Hg & Hv) Hok].
    destruct (insert_spec d k v Hwf Hn Hg Hv) as (d1 & -> & Hwf1 & <- & Hld1). simpl. auto.
  - destruct Hok as [Hn Hok].
    destruct (remove_spec d k Hwf Hn) as (d1 & Hr & Hwf1 & Hm1 & Hi1 & Hn1).
    rewrite Hr, <-Hm1. simpl. apply IH; [done| |done].
    destruct Hld as [Hld|(nb & Hnb & Hld)]; [by left; rewrite Hi1|].
    right. exists nb. rewrite Hi1. split; [done|lia].
  - destruct Hok as [Hn Hok]. rewrite (query_spec d k Hwf Hn). simpl.
    destruct (IH d Hwf Hld Hok) as (d1 & Hr & Hwf1 & Hld1 & Hm1). rewrite Hr. simpl.
    exists d1. destruct (spec_run (dhash_map d) ops) as [m vs]. by split_and!.
Qed.

Lemma dhash_new_run size ops :
  0 ≤ size → Forall legal ops →
  ∃ d0 d', dhash_new size = Ret d0
    ∧ run d0 ops = Ret (d', (spec_run ∅ ops).2)
    ∧ wf d' ∧ load_ok d' ∧ dhash_map d' = (spec_run ∅ ops).1.
Proof.
  intros Hs Hok. destruct (new_spec size Hs) as (d0 & -> & Hwf & Hm & Hld & _).
  destruct (run_refines ops d0 Hwf Hld Hok) as (d' & Hr & Hwf' & Hld' & Hm').
  rewrite Hm in *. by exists d0, d'.
Qed.

(** C1: a table made by [dhash_new] behaves as a finite map: every sequence of
    insertions, removals and queries that respects the contract runs to the
    end, its queries answer what the finite map answers ([NULL] for a missing
    key), and the table stays well formed and within its load factor through
    every rehash. *)
Theorem dhash_refines_map size ops :
  0 ≤ size → Forall legal ops →
  ∃ d0 d', dhash_new size = Ret d0
    ∧ run d0 ops = Ret (d', (spec_run ∅ ops).2)
    ∧ wf d' ∧ load_ok d' ∧ dhash_map d' = (spec_run ∅ ops).1.
Proof. apply dhash_new_run. Qed.

(** The rehash keeps every binding: it moves the links of a well-formed
    table to the next size, without changing the map or the number of items,
    and it does nothing once the last size is reached. *)
Theorem dhash_rehash_preserves d :
  wf d →
  ∃ d', dhash_increase_rehash d = Ret d' ∧ wf d' ∧ dhash_map d' = dhash_map d
    ∧ num_items d' = num_items d
    ∧ num_buckets_idx d' =
        (if decide (num_buckets_idx d = last_prime) then num_buckets_idx d
         else S (num_buckets_idx d)).
Proof. apply increase_rehash_spec. Qed.

(** On a well-formed table the insertion of a key with a determined hash
    aborts exactly when the key or the info is null, and succeeds otherwise;
    no chain or array access of it is out of bounds. *)
Theorem dhash_insert_errors d key info :
  wf d → key_good (key_canon key) →
  (dhash_insert d key info = Err Aborted ↔ key_is_null key = true ∨ info = 0)
  ∧ dhash_insert d key info ≠ Err Undef ∧ dhash_insert d key info ≠ Err NoFuel.
Proof.
  intros Hwf Hg. destruct (key_is_null key) eqn:Hn.
  { unfold dhash_insert. rewrite Hn. naive_solver. }
  destruct (decide (info = 0)) as [->|Hi].
  { unfold dhash_insert. rewrite Hn. naive_solver. }
  destruct (insert_spec d key info Hwf Hn Hg Hi) as (d' & -> & _). naive_solver.
Qed.

(** A walk calls its function on every binding of the table exactly once:
    the visited links, in order, are a permutation of the bindings of the map,
    and the destructor gives back exactly those links. *)
Theorem dhash_walk_visits_bindings d :
  wf d →
  ∃ l, entry <$> l ≡ₚ map_to_list (dhash_map d)
    ∧ (∀ St (f : K → Z → St → St) s,
         dhash_walk d f s = Ret (foldl (λ s e, f (b_key e) (b_info e) s) s l))
    ∧ ∃ freed, dhash_destroy d = Ret freed ∧ freed ≡ₚ l.
Proof.
  intros Hwf. destruct (Hwf) as [nb Hat]. exists (concat (buckets d)).
  destruct (wf_all_buckets nb d Hat) as [Hle Htake].
  split; [by apply entries_map|].
  unfold dhash_walk, dhash_destroy. rewrite (wf_idx _ _ Hat). simpl.
  split.
  - intros St f s. rewrite decide_True, Htake by done. by rewrite buckets_walk_foldl.
  - rewrite decide_True, Htake by done. eexists. split; [done|]. apply concat_free_perm.
Qed.

End Runs.
End Runs.

(** ** Keys of [dhash_ptr]: addresses of 64 bits *)
Module Ptr.
Import Murmur Table Runs.

(** The hash of a pointer reads the bytes of the argument itself. *)
Definition Murmur3_32 (ptr : Z) : Z :=
  Murmur.Murmur3_32 (λ i, Z.land (Z.shiftr ptr (8 * i)) 255) 8.

#[export] Instance ptr_key : DhashKey Z Z := {
  key_is_null p := p =? 0;
  key_canon p := p;
  key_eqb := Z.eqb;
  key_hash := Murmur3_32;
  key_good _ := True;
}.

#[export] Instance ptr_key_ok : DhashKeyOk Z Z.
Proof.
  split.
  - intros k1 k2. apply Bool.eq_iff_eq_true. rewrite bool_decide_eq_true. apply Z.eqb_eq.
  - intros k. apply Murmur3_32_nonneg.
  - intros k1 k2 _ Hc. simpl in Hc. by subst k2.
Qed.

(** A table of four pointers, and its rehash: the fifth insertion moves a
    table of five buckets to eleven. *)
Definition ptr_ops : list (dhash_op Z) :=
  [OpInsert 4096 1; OpInsert 8192 2; OpQuery 4096; OpInsert 4096 3; OpRemove 8192;
   OpQuery 4096; OpQuery 8192; OpInsert 16 4; OpInsert 24 5; OpInsert 32 6].

Definition ptr_table : dhash Z :=
  match (d ← dhash_new 5; run d ptr_ops) with
  | Ret (d, _) => d
  | Err _ => Dhash [] 0 0
  end.

Lemma ptr_ops_legal : Forall legal ptr_ops.
Proof. repeat constructor; discriminate. Qed.

Lemma ptr_table_wf : wf ptr_table ∧ load_ok ptr_table.
Proof.
  destruct (dhash_new_run 5 ptr_ops ltac:(lia) ptr_ops_legal)
    as (d0 & d' & Hn & Hr & Hwf & Hld & _).
  unfold ptr_table. rewrite Hn, bind_ret, Hr. done.
Qed.

Lemma dhash_refines_map_witness :
  ∃ d0 d', dhash_new 5 = Ret d0 ∧ run d0 ptr_ops = Ret (d', [1; 3; 0])
    ∧ wf d' ∧ load_ok d' ∧ dhash_map d' = (spec_run ∅ ptr_ops).1.
Proof.
  assert ((spec_run ∅ ptr_ops).2 = [1; 3; 0]) as <- by (vm_compute; reflexivity).
  apply (dhash_refines_map 5 ptr_ops); [lia|apply ptr_ops_legal].
Defined.

Lemma dhash_rehash_preserves_witness :
  ∃ d', dhash_increase_rehash ptr_table = Ret d' ∧ wf d'
    ∧ dhash_map d' = dhash_map ptr_table ∧ num_items d' = 4 ∧ num_buckets_idx d' = 1%nat.
Proof.
  destruct (dhash_rehash_preserves ptr_table (proj1 ptr_table_wf))
    as (d' & Hd & Hwf & Hm & Hn & Hi).
  exists d'. split; [exact Hd|]. split; [exact Hwf|]. split; [exact Hm|].
  rewrite Hn, Hi. split; vm_compute; reflexivity.
Defined.

Lemma dhash_insert_errors_witness :
  (dhash_insert ptr_table 64 9 = Err Aborted ↔ (64 =? 0) = true ∨ 9 = 0)
  ∧ dhash_insert ptr_table 64 9 ≠ Err Undef ∧ dhash_insert ptr_table 64 9 ≠ Err NoFuel.
Proof. exact (dhash_insert_errors ptr_table 64 9 (proj1 ptr_table_wf) I). Defined.

Lemma dhash_walk_visits_bindings_witness :
  ∃ l, entry <$> l ≡ₚ map_to_list (dhash_map ptr_table)
    ∧ (∀ St (f : Z → Z → St → St) s,
         dhash_walk ptr_table f s = Ret (foldl (λ s e, f (b_key e) (b_info e) s) s l))
    ∧ ∃ freed, dhash_destroy ptr_table = Ret freed ∧ freed ≡ₚ l.
Proof. exact (dhash_walk_visits_bindings ptr_table (proj1 ptr_table_wf)). Defined.

End Ptr.

(** ** Keys of [dhash_str]: pointers to NUL-terminated strings *)
Module Str.
Import Murmur Table Runs.

(** A [char*] key: the bytes before its NUL and the memory behind the NUL. *)
Inductive strkey :=
| StrNull
| Str (chars : list Z) (after : nat → Z).

Definition chars (k : strkey) : list Z :=
  match k with StrNull => [] | Str s _ => s end.

(** The byte at [key + i]. *)
Definition read (k : strkey) (i : Z) : Z :=
  match k with
  | StrNull => 0
  | Str s after =>
      let i := Z.to_nat i in
      match s !! i with
      | Some b => b
      | None => if decide (i = length s) then 0 else after (i - S (length s))%nat
      end
  end.

(** [strcmp(k1, k2) == 0] *)
Definition str_eqb (k1 k2 : strkey) : bool := bool_decide (chars k1 = chars k2).

(** [uint32_t len = strlen(key)] truncates the length. *)
Definition Murmur3_32 (k : strkey) : Z :=
  Murmur.Murmur3_32 (read k) (u32 (Z.of_nat (length (chars k)))).

#[export] Instance str_key : DhashKey strkey (list Z) := {
  key_is_null k := match k with StrNull => true | _ => false end;
  key_canon := chars;
  key_eqb := str_eqb;
  key_hash := Murmur3_32;
  key_good s := tail_in_bounds (Z.of_nat (length s)) ∧ Z.of_nat (length s) < 2 ^ 32;
}.

#[export] Instance str_key_ok : DhashKeyOk strkey (list Z).
Proof.
  split.
  - done.
  - intros k. apply Murmur3_32_nonneg.
  - intros k1 k2 [Hg Hlt] Hc. simpl in *. unfold Murmur3_32. rewrite <-Hc.
    rewrite wrapu_small by lia. apply Murmur3_32_ext; [lia|done|].
    intros i Hi. destruct k1 as [|s1 a1], k2 as [|s2 a2]; simpl in *; subst; simpl in *.
    + lia.
    + lia.
    + lia.
    + destruct (lookup_lt_is_Some_2 s2 (Z.to_nat i)) as [b ->]; [lia|done].
Qed.

(** The functions of [dhash_str.c]: the code of the table over these keys.
    Unlike the pointer version, the destructor keeps the header of the table. *)
Definition dhash_str_new : Z → res (dhash strkey) := dhash_new.
Definition dhash_str_query : dhash strkey → strkey → res Z := dhash_query.
Definition dhash_str_do_insert : dhash strkey → strkey → Z → res (dhash strkey) :=
  dhash_do_insert.
Definition dhash_str_increase_rehash : dhash strkey → res (dhash strkey) :=
  dhash_increase_rehash.
Definition dhash_str_insert : dhash strkey → strkey → Z → res (dhash strkey) :=
  dhash_insert.
Definition dhash_str_remove : dhash strkey → strkey → res (dhash strkey) :=
  dhash_remove.
Definition dhash_str_walk {St} : dhash strkey → (strkey → Z → St → St) → St → res St :=
  dhash_walk.
Definition dhash_str_destroy : dhash strkey → res (list (bucket strkey)) :=
  dhash_destroy.

(** A key at some address: the bytes of [s], its NUL, and a memory filled with
    [fill] behind it. *)
Definition str_at (s : string) (fill : Z) : strkey := Str (bytes s) (λ _, fill).

(** The hash of a string is determined by its bytes when the string is
    shorter than four bytes or its length is a multiple of four: a key of that
    kind is found by every key that [strcmp] identifies with it, whatever
    memory follows them, the answers for the other keys stay, and removing it
    through an equal key removes it. *)
Theorem dhash_str_finds_key d k1 k2 v :
  wf d → chars k1 = chars k2 → k1 ≠ StrNull → k2 ≠ StrNull → v ≠ 0 →
  tail_in_bounds (Z.of_nat (length (chars k1))) → Z.of_nat (length (chars k1)) < 2 ^ 32 →
  ∃ d1, dhash_str_insert d k1 v = Ret d1 ∧ wf d1
    ∧ dhash_str_query d1 k2 = Ret v
    ∧ (∀ k3, k3 ≠ StrNull → chars k3 ≠ chars k1 →
         dhash_str_query d1 k3 = dhash_str_query d k3)
    ∧ ∃ d2, dhash_str_remove d1 k2 = Ret d2 ∧ wf d2 ∧ dhash_str_query d2 k1 = Ret 0.
Proof.
  intros Hwf Hc Hn1 Hn2 Hv Hg Hlt.
  assert (Hnull : ∀ k : strkey, k ≠ StrNull → key_is_null k = false) by (by intros []).
  destruct (insert_spec d k1 v Hwf (Hnull _ Hn1)) as (d1 & Hd1 & Hwf1 & Hm1 & _); [done|done|].
  simpl in Hm1. exists d1. split; [exact Hd1|]. split; [done|].
  unfold dhash_str_query, dhash_str_remove. split; [|split].
  - rewrite query_spec by auto. simpl. by rewrite Hm1, Hc, lookup_insert_eq.
  - intros k3 Hn3 Hc3. rewrite !query_spec by auto. simpl. by rewrite Hm1, lookup_insert_ne.
  - destruct (remove_spec d1 k2 Hwf1 (Hnull _ Hn2)) as (d2 & Hd2 & Hwf2 & Hm2 & _).
    exists d2. split; [done|]. split; [done|].
    rewrite query_spec by auto. simpl in *. by rewrite Hm2, Hc, lookup_delete_eq.
Qed.

Definition str_table : dhash strkey := Dhash (replicate 5 []) 0 0.

Lemma str_table_wf : wf str_table.
Proof.
  destruct (new_spec (K := strkey) 5 ltac:(lia)) as (d & Hd & Hwf & _).
  injection Hd as <-. exact Hwf.
Qed.

Lemma dhash_str_finds_key_witness :
  let k1 := str_at "omp_task" 0 in
  let k2 := str_at "omp_task" 255 in
  ∃ d1, dhash_str_insert str_table k1 7 = Ret d1 ∧ wf d1
    ∧ dhash_str_query d1 k2 = Ret 7
    ∧ (∀ k3, k3 ≠ StrNull → chars k3 ≠ chars k1 →
         dhash_str_query d1 k3 = dhash_str_query str_table k3)
    ∧ ∃ d2, dhash_str_remove d1 k2 = Ret d2 ∧ wf d2 ∧ dhash_str_query d2 k1 = Ret 0.
Proof.
  apply (dhash_str_finds_key str_table (str_at "omp_task" 0) (str_at "omp_task" 255) 7);
    try done; [apply str_table_wf|by right].
Defined.

(** For other lengths the hash reads memory behind the string: the key
    ["alpha"] inserted from one place of the memory and queried from another,
    with other bytes after its NUL, is not found, although [strcmp] finds the
    two keys equal. *)
Theorem dhash_str_tail_out_of_bounds :
  str_eqb (str_at "alpha" 0) (str_at "alpha" 1) = true
  ∧ (d0 ← dhash_str_new 5;
     d1 ← dhash_str_insert d0 (str_at "alpha" 0) 7;
     dhash_str_query d1 (str_at "alpha" 1)) = Ret 0.
Proof. split; [done|]. vm_compute. reflexivity. Qed.

End Str.
