(* ===== verification/EntryList.v ===== *)
(** * Lists of symbols: [frontend/cxx-entrylist.c]

    A list of symbols is a header with a count and a chain of nodes of
    [NUM_IMMEDIATE] slots that is updated in place.  A [scope_entry_t*] is an
    address ([NULL] is 0), a node is the list of its slots, a chain the list
    of its nodes ([next == NULL] is the empty tail) and a
    [scope_entry_list_t*] an [option] of a header.  The operations follow the
    code slot by slot; [represents] says which sequence of symbols a list
    stands for, and the theorems refine every operation to that sequence. *)

From S2P Require Import Prelude.

Definition NUM_IMMEDIATE : nat := 4.

Abbreviation node := (list Z).

Record entry_list := EntryList { num_items_list : Z; next : list node }.

Definition entry_list_node_allocate : node := replicate NUM_IMMEDIATE 0.

Definition entry_list_allocate : entry_list := EntryList 0 [entry_list_node_allocate].

Definition entry_list_new (entry : Z) : entry_list :=
  EntryList 1 [<[0%nat := entry]> entry_list_node_allocate].

(** The recursion goes down at most [num_pos / NUM_IMMEDIATE] nodes. *)
Fixpoint add_to_pos_rec (fuel : nat) (chain : list node) (entry num_pos : Z) :
    res (list node) :=
  match fuel with
  | O => Err NoFuel
  | S fuel' =>
      match chain with
      | [] => Err Undef
      | slots :: nxt =>
          if num_pos <? 4 then
            if num_pos <? 0 then Err Undef
            else Ret (<[Z.to_nat num_pos := entry]> slots :: nxt)
          else
            let nxt := match nxt with [] => [entry_list_node_allocate] | _ => nxt end in
            nxt' ← add_to_pos_rec fuel' nxt entry (num_pos - 4);
            Ret (slots :: nxt')
      end
  end.

Definition entry_list_add_to_pos_rec (chain : list node) (entry num_pos : Z) :=
  add_to_pos_rec (S (Z.to_nat num_pos)) chain entry num_pos.

(** [for (j = pos + n - 1; j >= pos; j--) list[j+1] = list[j];] *)
Fixpoint shift_right_slots (n pos : nat) (slots : node) : node :=
  match n with
  | O => slots
  | S n' =>
      let j := (pos + n')%nat in
      shift_right_slots n' pos (<[S j := slots !!! j]> slots)
  end.

Fixpoint entry_list_prepend_rec (chain : list node) (entry num_items : Z) : list node :=
  match chain with
  | [] => [<[0%nat := entry]> entry_list_node_allocate]
  | slots :: nxt =>
      let last := slots !!! 3%nat in
      let slots := <[0%nat := entry]> (shift_right_slots 3 0 slots) in
      if 4 <=? num_items
      then slots :: entry_list_prepend_rec nxt last (num_items - 4)
      else slots :: nxt
  end.

Definition entry_list_prepend (l : option entry_list) (entry : Z) : option entry_list :=
  match l with
  | None => Some (EntryList 1 [<[0%nat := entry]> entry_list_node_allocate])
  | Some l =>
      Some (EntryList (num_items_list l + 1)
              (entry_list_prepend_rec (next l) entry (num_items_list l)))
  end.

Definition entry_list_add (l : option entry_list) (entry : Z) : res (option entry_list) :=
  match l with
  | None => Ret (Some (entry_list_new entry))
  | Some l =>
      chain ← entry_list_add_to_pos_rec (next l) entry (num_items_list l);
      Ret (Some (EntryList (num_items_list l + 1) chain))
  end.

Fixpoint insert_and_shift_right (chain : list node) (pos : nat) (new_entry : Z) :
    res (list node) :=
  match chain with
  | [] => Ret []
  | slots :: nxt =>
      let keep := slots !!! 3%nat in
      let slots := <[pos := new_entry]> (shift_right_slots (3 - pos) pos slots) in
      match nxt with
      | _ :: _ => nxt' ← insert_and_shift_right nxt 0 keep; Ret (slots :: nxt')
      | [] =>
          if keep =? 0 then Ret [slots] else
          nxt' ← entry_list_add_to_pos_rec [entry_list_node_allocate] keep 0;
          Ret (slots :: nxt')
      end
  end.

(** [for (j = 0; j < NUM_IMMEDIATE; j++) if (list[j] == position) break;] *)
Fixpoint find_slot (slots : node) (position : Z) : option nat :=
  match slots with
  | [] => None
  | x :: slots' => if x =? position then Some 0%nat else S <$> find_slot slots' position
  end.

(** The search reads [list->next->list[j]], the slots of the node after. *)
Fixpoint entry_list_add_after_rec (chain : list node) (position entry : Z) :
    res (list node * bool) :=
  match chain with
  | [] => Ret ([], false)
  | slots :: nxt =>
      match nxt with
      | [] => Err Undef
      | slots2 :: nxt2 =>
          match find_slot slots2 position with
          | None =>
              '(nxt', found) ← entry_list_add_after_rec nxt position entry;
              Ret (slots :: nxt', found)
          | Some j =>
              if decide (j < 3)%nat then
                chain' ← insert_and_shift_right chain (S j) entry;
                Ret (chain', true)
              else
                nxt' ← insert_and_shift_right nxt 0 entry;
                Ret (slots :: nxt', true)
          end
      end
  end.

Definition entry_list_add_after (l : option entry_list) (position entry : Z) :
    res (option entry_list) :=
  match l with
  | None => Err Undef
  | Some l =>
      '(chain, added) ← entry_list_add_after_rec (next l) position entry;
      Ret (Some (EntryList (num_items_list l + if added : bool then 1 else 0) chain))
  end.

Fixpoint entry_list_add_before_rec (chain : list node) (position entry : Z) :
    res (list node * bool) :=
  match chain with
  | [] => Ret ([], false)
  | slots :: nxt =>
      match find_slot slots position with
      | None =>
          '(nxt', found) ← entry_list_add_before_rec nxt position entry;
          Ret (slots :: nxt', found)
      | Some j =>
          chain' ← insert_and_shift_right chain j entry;
          Ret (chain', true)
      end
  end.

Definition entry_list_add_before (l : option entry_list) (position entry : Z) :
    res (option entry_list) :=
  match l with
  | None => Err Undef
  | Some l =>
      '(chain, added) ← entry_list_add_before_rec (next l) position entry;
      Ret (Some (EntryList (num_items_list l + if added : bool then 1 else 0) chain))
  end.

(** Every node of the chain is copied, slot by slot. *)
Definition entry_list_copy (l : option entry_list) : option entry_list :=
  match l with
  | None => None
  | Some l =>
      Some (EntryList (num_items_list l)
              ((λ it, (λ i, it !!! i) <$> seq 0 NUM_IMMEDIATE) <$> next l))
  end.

Definition entry_list_size (l : option entry_list) : Z :=
  match l with None => 0 | Some l => num_items_list l end.

Definition entry_list_head (l : option entry_list) : res Z :=
  match l with
  | None => Err Undef
  | Some l => match next l with [] => Err Undef | slots :: _ => get (slots !! 0%nat) end
  end.

(** ** Iterators *)

Record iterator := Iterator {
  current_pos : Z;
  total_pos : Z;
  current_list : list node;
  first_list : option entry_list;
}.

Definition entry_list_iterator_begin (l : option entry_list) : iterator :=
  Iterator 0 0 (match l with None => [] | Some l => next l end) l.

Definition entry_list_iterator_current (it : iterator) : res Z :=
  match current_list it with
  | [] => Err Undef
  | slots :: _ => get (slots !! Z.to_nat (current_pos it))
  end.

Definition entry_list_iterator_next (it : iterator) : res iterator :=
  let cp := current_pos it + 1 in
  let tp := total_pos it + 1 in
  if cp =? 4 then
    match current_list it with
    | [] => Err Undef
    | _ :: nxt => Ret (Iterator 0 tp nxt (first_list it))
    end
  else Ret (Iterator cp tp (current_list it) (first_list it)).

Definition entry_list_iterator_end (it : iterator) : bool :=
  match first_list it with
  | None => true
  | Some l => num_items_list l <=? total_pos it
  end.

(** [for (it = begin(list); !end(it); next(it)) { ... current(it) ... }]: the
    body [f] goes on with a new state or breaks with a result. *)
Definition iterate {St R} (l : option entry_list) (f : St → Z → res (St + R))
    (s : St) : res (St + R) :=
  loop (S (Z.to_nat (entry_list_size l)))
    (λ '(it, s),
       if entry_list_iterator_end it then Ret (inr (inl s)) else
       e ← entry_list_iterator_current it;
       r ← f s e;
       match r with
       | inr r => Ret (inr (inr r))
       | inl s' => it' ← entry_list_iterator_next it; Ret (inl (it', s'))
       end)
    (entry_list_iterator_begin l, s).

Definition entry_list_add_once (l : option entry_list) (entry : Z) :
    res (option entry_list) :=
  r ← iterate l (λ _ current, Ret (if current =? entry then inr () else inl ())) ();
  match r with
  | inr _ => Ret l
  | inl _ => entry_list_add l entry
  end.

Definition entry_list_contains (l : option entry_list) (entry : Z) : res bool :=
  match l with
  | None => Ret false
  | Some _ =>
      r ← iterate l (λ _ current, Ret (if current =? entry then inr () else inl ())) ();
      Ret (match r with inr _ => true | inl _ => false end)
  end.

(** The loop of [entry_list_to_symbol_array] and of the two array fills of
    [entry_list_merge]. *)
Definition entry_list_to_symbol_array (l : option entry_list) : res (list Z) :=
  r ← iterate (R := ()) l (λ array e, Ret (inl (array ++ [e]))) [];
  Ret (match r with inl array => array | inr _ => [] end).

Fixpoint add_all (l : option entry_list) (xs : list Z) : res (option entry_list) :=
  match xs with
  | [] => Ret l
  | x :: xs' => l' ← entry_list_add l x; add_all l' xs'
  end.

Definition entry_list_from_symbol_array (num_items : Z) (xs : list Z) :
    res (option entry_list) :=
  if num_items <=? 0 then Ret None else
  if decide (Z.to_nat num_items ≤ length xs)%nat
  then add_all (Some entry_list_allocate) (take (Z.to_nat num_items) xs)
  else Err Undef.

(** One of the two loops of [entry_list_concat]. *)
Definition append_all (result a : option entry_list) : res (option entry_list) :=
  r ← iterate (R := ()) a (λ result e, result' ← entry_list_add result e; Ret (inl result')) result;
  Ret (match r with inl result => result | inr _ => None end).

Definition entry_list_concat (a b : option entry_list) : res (option entry_list) :=
  result ← append_all None a;
  append_all result b.

(** ** Removal *)

(** [for (j = pos + 1; j < NUM_IMMEDIATE; j++) list[j-1] = list[j];] *)
Fixpoint shift_left_slots (n pos : nat) (slots : node) : node :=
  match n with
  | O => slots
  | S n' => shift_left_slots n' (S pos) (<[pos := slots !!! S pos]> slots)
  end.

Fixpoint shift_left_all_elements_from_pos (chain : list node) (pos : nat) :
    Z * list node :=
  match chain with
  | [] => (0, [])
  | slots :: nxt =>
      let first_element := slots !!! 0%nat in
      let slots := shift_left_slots (3 - pos) pos slots in
      let '(x, nxt') := shift_left_all_elements_from_pos nxt 0 in
      (first_element, <[3%nat := x]> slots :: nxt')
  end.

(** [for (i = 0; i < NUM_IMMEDIATE; i++)] on the first node of the chain. *)
Fixpoint remove_slots (n i : nat) (chain : list node) (entry matches : Z) :
    list node * Z :=
  match n with
  | O => (chain, matches)
  | S n' =>
      match chain with
      | [] => ([], matches)
      | slots :: _ =>
          if slots !!! i =? entry
          then remove_slots n' (S i) (shift_left_all_elements_from_pos chain i).2
                 entry (matches + 1)
          else remove_slots n' (S i) chain entry matches
      end
  end.

Fixpoint entry_list_remove_rec (fuel : nat) (chain : list node) (entry : Z) :
    res (list node * Z) :=
  match fuel with
  | O => Err NoFuel
  | S fuel' =>
      match chain with
      | [] => Ret ([], 0)
      | _ =>
          let '(chain', number_of_matches) := remove_slots NUM_IMMEDIATE 0 chain entry 0 in
          match chain' with
          | [] => Err Undef
          | slots :: nxt =>
              '(nxt', n) ← entry_list_remove_rec fuel' nxt entry;
              Ret (slots :: nxt', n + number_of_matches)
          end
      end
  end.

Definition entry_list_remove (l : option entry_list) (entry : Z) : res (option entry_list) :=
  match l with
  | None => Ret None
  | Some l =>
      '(chain, number_of_matches) ←
        entry_list_remove_rec (S (length (next l))) (next l) entry;
      Ret (Some (EntryList (num_items_list l - number_of_matches) chain))
  end.

(** ** Merging *)

(** [qsort] of an array of pointers with [ptr_comp], which compares them as
    [intptr_t]; equal pointers are indistinguishable. *)
Definition ptr_le (p q : Z) : Prop := wraps 64 p ≤ wraps 64 q.

#[export] Instance ptr_le_dec : RelDecision ptr_le.
Proof. intros p q. unfold ptr_le. apply _. Defined.

Definition sort_ptrs (xs : list Z) : list Z := merge_sort ptr_le xs.

(** [while ( *p == *(p+1)) p++;] *)
Fixpoint skip_repeated (p : list Z) : res (list Z) :=
  match p with
  | x :: p' =>
      match p' with
      | y :: _ => if x =? y then skip_repeated p' else Ret p
      | [] => Err Undef
      end
  | [] => Err Undef
  end.

(** [while ( *p != NULL && *q != NULL)]; [p] and [q] are what is left of the
    two null-ended arrays. *)
Definition merge_step (st : list Z * list Z * option entry_list) :
    res (list Z * list Z * option entry_list + list Z * list Z * option entry_list) :=
  let '(p, q, result) := st in
  x ← get (head p);
  y ← get (head q);
  if (x =? 0) || (y =? 0) then Ret (inr (p, q, result)) else
  p ← skip_repeated p;
  q ← skip_repeated q;
  x ← get (head p);
  y ← get (head q);
  if x <? y then result' ← entry_list_add result x; Ret (inl (tail p, q, result'))
  else if y <? x then result' ← entry_list_add result y; Ret (inl (p, tail q, result'))
  else result' ← entry_list_add result x; Ret (inl (tail p, tail q, result')).

(** [while ( *p != NULL) { result = entry_list_add(result, *p); p++; }] *)
Fixpoint merge_rest (p : list Z) (result : option entry_list) : res (option entry_list) :=
  match p with
  | [] => Err Undef
  | x :: p' =>
      if x =? 0 then Ret result else
      result' ← entry_list_add result x;
      merge_rest p' result'
  end.

Definition entry_list_merge (list1 list2 : option entry_list) : res (option entry_list) :=
  elems1 ← entry_list_to_symbol_array list1;
  elems2 ← entry_list_to_symbol_array list2;
  let p := sort_ptrs elems1 ++ [0] in
  let q := sort_ptrs elems2 ++ [0] in
  '(p, q, result) ← loop (S (length p + length q)) merge_step (p, q, None);
  result ← merge_rest p result;
  merge_rest q result.

(** * The sequence of symbols a list stands for *)

Definition zeros (k : nat) : list Z := replicate k 0.

Definition nodes_ok (chain : list node) : Prop := Forall (λ n, length n = NUM_IMMEDIATE) chain.

(** The slots of the chain hold [xs], then nulls. *)
Definition chain_repr (chain : list node) (xs : list Z) : Prop :=
  nodes_ok chain ∧ chain ≠ [] ∧ ∃ k, concat chain = xs ++ zeros k.

Definition represents (l : option entry_list) (xs : list Z) : Prop :=
  match l with
  | None => xs = []
  | Some l =>
      chain_repr (next l) xs ∧ num_items_list l = Z.of_nat (length xs)
      ∧ Forall (λ x, x ≠ 0) xs
  end.

(** ** Slots *)

Lemma node_cases (slots : node) :
  length slots = NUM_IMMEDIATE → ∃ a b c d, slots = [a; b; c; d].
Proof.
  intros Hl. destruct slots as [|a [|b [|c [|d [|]]]]]; try discriminate. eauto.
Qed.

Ltac node_cases H :=
  let a := fresh "a" in let b := fresh "b" in
  let c := fresh "c" in let d := fresh "d" in
  destruct (node_cases _ H) as (a & b & c & d & ->).

Lemma shift_right_insert slots pos x :
  length slots = NUM_IMMEDIATE → (pos < 4)%nat →
  <[pos := x]> (shift_right_slots (3 - pos) pos slots)
  = take pos slots ++ x :: take (3 - pos) (drop pos slots).
Proof. intros Hl Hp. node_cases Hl. do 4 (destruct pos as [|pos]; [done|]). lia. Qed.

Lemma shift_left_insert slots pos x :
  length slots = NUM_IMMEDIATE → (pos < 4)%nat →
  <[3%nat := x]> (shift_left_slots (3 - pos) pos slots)
  = take pos slots ++ drop (S pos) slots ++ [x].
Proof. intros Hl Hp. node_cases Hl. do 4 (destruct pos as [|pos]; [done|]). lia. Qed.

Lemma nodes_ok_cons slots nxt :
  nodes_ok (slots :: nxt) ↔ length slots = NUM_IMMEDIATE ∧ nodes_ok nxt.
Proof. unfold nodes_ok. by rewrite Forall_cons. Qed.

Lemma nodes_ok_length chain : nodes_ok chain → length (concat chain) = (4 * length chain)%nat.
Proof.
  induction 1 as [|n chain Hn _ IH]; simpl; [done|]. rewrite length_app, IH, Hn.
  unfold NUM_IMMEDIATE. lia.
Qed.

(** Split a represented chain at its first node. *)
Lemma concat_cons_repr slots nxt xs k :
  length slots = NUM_IMMEDIATE → concat (slots :: nxt) = xs ++ zeros k →
  (∃ j k', (length xs < 4)%nat ∧ slots = xs ++ zeros (S j) ∧ concat nxt = zeros k')
  ∨ (∃ ys, (4 ≤ length xs)%nat ∧ xs = slots ++ ys ∧ concat nxt = ys ++ zeros k).
Proof.
  unfold NUM_IMMEDIATE. simpl. intros Hl Hc.
  assert (slots = take 4 (xs ++ zeros k)) as Hs by (by rewrite <-Hc, take_app_length').
  assert (concat nxt = drop 4 (xs ++ zeros k)) as Hn by (by rewrite <-Hc, drop_app_length').
  rewrite take_app in Hs. rewrite drop_app in Hn. unfold zeros in *.
  rewrite take_replicate in Hs. rewrite drop_replicate in Hn.
  destruct (decide (length xs < 4)%nat) as [Hlt|Hge]; [left|right].
  - rewrite take_ge in Hs by lia. rewrite drop_ge in Hn by lia.
    exists ((4 - length xs) `min` k - 1)%nat, (k - (4 - length xs))%nat.
    split; [done|]. split; [|done]. rewrite Hs. do 2 f_equal.
    apply (f_equal length) in Hs. rewrite length_app, length_replicate in Hs. lia.
  - exists (drop 4 xs). split; [lia|].
    replace (4 - length xs)%nat with 0%nat in * by lia. simpl in Hs, Hn.
    rewrite app_nil_r in Hs. rewrite Nat.sub_0_r in Hn.
    split; [by rewrite Hs, take_drop|done].
Qed.

(** ** Adding at the end *)

Lemma add_to_pos_spec fuel chain xs e :
  chain_repr chain xs → (length xs < fuel)%nat →
  ∃ chain', add_to_pos_rec fuel chain e (Z.of_nat (length xs)) = Ret chain'
    ∧ chain_repr chain' (xs ++ [e]).
Proof.
  revert chain xs. induction fuel as [|fuel IH]; intros chain xs (Hok & Hne & k & Hc) Hf; [lia|].
  destruct chain as [|slots nxt]; [done|].
  apply nodes_ok_cons in Hok as [Hl Hok]. simpl.
  destruct (concat_cons_repr _ _ _ _ Hl Hc) as [(j & k' & Hlt & -> & Hn)|(ys & Hge & -> & Hn)].
  - rewrite (proj2 (Z.ltb_lt _ _)), (proj2 (Z.ltb_ge _ _)), Nat2Z.id by lia.
    eexists. split; [done|]. split; [|split; [done|]].
    + apply nodes_ok_cons. by rewrite length_insert.
    + exists (j + k')%nat. simpl. rewrite Hn. unfold zeros.
      rewrite insert_app_r_alt, Nat.sub_diag by lia. simpl.
      by rewrite <-!app_assoc, replicate_add.
  - rewrite (proj2 (Z.ltb_ge _ _)) by lia. unfold NUM_IMMEDIATE in Hl.
    rewrite length_app, Hl in *.
    replace (Z.of_nat (4 + length ys) - 4) with (Z.of_nat (length ys)) by lia.
    set (nxt2 := match nxt with [] => [entry_list_node_allocate] | _ => nxt end).
    assert (chain_repr nxt2 ys) as Hr.
    { destruct nxt as [|slots2 nxt].
      - symmetry in Hn. apply app_nil in Hn as [-> _].
        split; [by constructor|]. split; [done|]. by exists 4%nat.
      - split; [done|]. split; [done|]. by exists k. }
    destruct (IH nxt2 ys Hr ltac:(lia)) as (nxt3 & -> & Hok3 & Hne3 & k3 & Hc3). simpl.
    eexists. split; [done|]. split; [by apply nodes_ok_cons|]. split; [done|].
    exists k3. simpl. by rewrite Hc3, <-!app_assoc.
Qed.

Lemma add_repr l xs e :
  represents l xs → e ≠ 0 →
  ∃ l', entry_list_add l e = Ret l' ∧ represents l' (xs ++ [e]).
Proof.
  intros Hr He. destruct l as [l|]; simpl in *.
  - destruct Hr as (Hc & Hn & Hnz). unfold entry_list_add_to_pos_rec. rewrite Hn.
    destruct (add_to_pos_spec (S (Z.to_nat (Z.of_nat (length xs)))) (next l) xs e Hc)
      as (chain & -> & Hc'); [lia|]. simpl.
    eexists. split; [done|]. simpl. split; [done|].
    rewrite length_app, Forall_app, Forall_singleton. simpl. split; [lia|done].
  - subst xs. eexists. split; [done|]. simpl. split; [|split; [done|by constructor]].
    split; [by constructor|]. split; [done|]. by exists 3%nat.
Qed.

(** ** Adding at the front *)

Lemma prepend_rec_spec chain xs e :
  nodes_ok chain → (∃ k, concat chain = xs ++ zeros k) →
  chain_repr (entry_list_prepend_rec chain e (Z.of_nat (length xs))) (e :: xs).
Proof.
  revert xs e. induction chain as [|slots nxt IH]; intros xs e Hok [k Hc]; simpl.
  - symmetry in Hc. apply app_nil in Hc as [-> _].
    split; [by constructor|]. split; [done|]. by exists 3%nat.
  - apply nodes_ok_cons in Hok as [Hl Hok].
    rewrite (shift_right_insert slots 0) by (done || lia).
    change (take (3 - 0) (drop 0 slots)) with (take 3 slots). rewrite take_0, app_nil_l.
    destruct (concat_cons_repr _ _ _ _ Hl Hc) as [(j & k' & Hlt & Hs & Hn)|(ys & Hge & -> & Hn)].
    + rewrite (proj2 (Z.leb_gt _ _)) by lia. split; [|split; [done|]].
      * apply nodes_ok_cons. split; [|done]. by node_cases Hl.
      * exists (j + k')%nat. rewrite concat_cons, <-!app_comm_cons, Hn. f_equal.
        unfold zeros in *. rewrite Hs, replicate_S_end, app_assoc in Hl |- *.
        rewrite take_app_length'.
        2: { rewrite length_app in Hl. unfold NUM_IMMEDIATE in Hl. simpl in Hl. lia. }
        by rewrite <-app_assoc, replicate_add.
    + unfold NUM_IMMEDIATE in Hl |- *. rewrite length_app, Hl.
      rewrite (proj2 (Z.leb_le _ _)) by lia.
      replace (Z.of_nat (4 + length ys) - 4) with (Z.of_nat (length ys)) by lia.
      destruct (IH ys (slots !!! 3%nat) Hok (ex_intro _ k Hn)) as (Hok' & _ & k' & Hc').
      split; [|split; [done|]].
      * apply nodes_ok_cons. split; [|done]. by node_cases Hl.
      * exists k'. simpl. rewrite Hc'. node_cases Hl. done.
Qed.

Lemma prepend_repr l xs e :
  represents l xs → e ≠ 0 → represents (entry_list_prepend l e) (e :: xs).
Proof.
  intros Hr He. destruct l as [l|]; simpl in *.
  - destruct Hr as ((Hok & _ & Hk) & -> & Hnz).
    split; [by apply prepend_rec_spec|]. split; [lia|by constructor].
  - subst xs. split; [|split; [done|by constructor]].
    split; [by constructor|]. split; [done|]. by exists 3%nat.
Qed.

(** ** Adding in the middle *)

(** Nothing is lost when a slot is opened: the last slot moves to a new node
    unless it is null. *)
Lemma insert_slots_spec chain pos e :
  nodes_ok chain → chain ≠ [] → (pos < 4)%nat →
  ∃ chain', insert_and_shift_right chain pos e = Ret chain'
    ∧ nodes_ok chain' ∧ chain' ≠ []
    ∧ (concat chain' = take pos (concat chain) ++ e :: drop pos (concat chain) ++ zeros 3
       ∨ concat chain' ++ [0] = take pos (concat chain) ++ e :: drop pos (concat chain)).
Proof.
  revert pos e. induction chain as [|slots nxt IH]; intros pos e Hok Hne Hp; [done|].
  apply nodes_ok_cons in Hok as [Hl Hok]. simpl.
  rewrite (shift_right_insert slots pos e Hl Hp).
  assert (length (take pos slots ++ e :: take (3 - pos) (drop pos slots)) = 4%nat) as Hl2.
  { unfold NUM_IMMEDIATE in Hl. rewrite length_app, length_cons, !length_take, length_drop. lia. }
  assert (∀ rest, take pos (slots ++ rest) ++ e :: drop pos (slots ++ rest)
          = (take pos slots ++ e :: take (3 - pos) (drop pos slots)) ++ slots !!! 3%nat :: rest)
    as Hsplit.
  { intros rest. node_cases Hl. do 4 (destruct pos as [|pos]; [done|]). lia. }
  destruct nxt as [|slots2 nxt].
  - simpl. rewrite app_nil_r. specialize (Hsplit []). rewrite app_nil_r in Hsplit.
    destruct (Z.eqb_spec (slots !!! 3%nat) 0) as [H0|H0].
    + eexists. split; [done|]. split; [by constructor|]. split; [done|]. right.
      rewrite Hsplit. simpl. by rewrite app_nil_r, H0.
    + unfold entry_list_add_to_pos_rec. simpl. eexists. split; [done|].
      split; [by repeat constructor|]. split; [done|]. left.
      rewrite concat_cons, (app_comm_cons _ (zeros 3)), (app_assoc (take _ _)), Hsplit.
      by rewrite <-(app_assoc _ [_] (zeros 3)).
  - destruct (IH 0%nat (slots !!! 3%nat) Hok) as (chain' & -> & Hok' & _ & Hc); [done|lia|].
    rewrite take_0, drop_0 in Hc. simpl. eexists. split; [done|].
    split; [by apply nodes_ok_cons|]. split; [done|].
    change (slots ++ slots2 ++ concat nxt) with (slots ++ concat (slots2 :: nxt)).
    rewrite concat_cons. destruct Hc as [Hc|Hc]; [left|right].
    + rewrite (app_comm_cons _ (zeros 3)), (app_assoc (take pos (_ ++ _))), Hsplit, Hc.
      rewrite <-(app_assoc _ (_ :: _) (zeros 3)). done.
    + rewrite Hsplit, <-app_assoc, Hc. done.
Qed.

Lemma find_slot_Some slots p j :
  find_slot slots p = Some j →
  (j < length slots)%nat ∧ slots = take j slots ++ p :: drop (S j) slots ∧ p ∉ take j slots.
Proof.
  revert j. induction slots as [|x slots IH]; intros j; simpl; [done|].
  destruct (Z.eqb_spec x p) as [->|Hne].
  - intros [= <-]. simpl. split; [lia|]. by split; [|apply not_elem_of_nil].
  - intros (j' & Hj & ->)%fmap_Some. destruct (IH j' Hj) as (Hlt & Hs & Hn). simpl.
    split; [lia|]. split; [by f_equal|]. by apply not_elem_of_cons.
Qed.

Lemma find_slot_None slots p : find_slot slots p = None → p ∉ slots.
Proof.
  induction slots as [|x slots IH]; simpl; [by intros _ ?%not_elem_of_nil|].
  destruct (Z.eqb_spec x p) as [->|Hne]; [done|].
  intros Hn%fmap_None. apply not_elem_of_cons. auto.
Qed.

(** The reference operation: [e] goes before the first [p]. *)
Fixpoint insert_before (p e : Z) (xs : list Z) : list Z :=
  match xs with
  | [] => []
  | x :: xs' => if decide (x = p) then e :: x :: xs' else x :: insert_before p e xs'
  end.

Lemma insert_before_skip p e xs ys :
  p ∉ xs → insert_before p e (xs ++ ys) = xs ++ insert_before p e ys.
Proof.
  induction xs as [|x xs IH]; [done|]. intros [Hne Hn]%not_elem_of_cons. simpl.
  rewrite decide_False by done. by rewrite IH.
Qed.

Lemma insert_before_hit p e ys : insert_before p e (p :: ys) = e :: p :: ys.
Proof. simpl. by rewrite decide_True. Qed.

Lemma insert_before_absent p e xs : p ∉ xs → insert_before p e xs = xs.
Proof.
  intros Hn. rewrite <-(app_nil_r xs) at 1. rewrite insert_before_skip by done.
  apply app_nil_r.
Qed.

Lemma nonzero_no_trailing ys zs k :
  Forall (λ x, x ≠ 0) ys → zs ++ [0] = ys ++ zeros k → ∃ k', zs = ys ++ zeros k'.
Proof.
  intros Hnz Hz. destruct k as [|k].
  - simpl in Hz. rewrite app_nil_r in Hz. subst ys.
    apply Forall_app in Hnz as [_ [H0 _]%Forall_cons]. done.
  - unfold zeros in Hz. rewrite replicate_S_end, app_assoc in Hz.
    apply app_inj_tail in Hz as [-> _]. by exists k.
Qed.

Lemma first_node_split slots nxt xs k j p :
  concat (slots :: nxt) = xs ++ zeros k → p ≠ 0 → find_slot slots p = Some j →
  ∃ pre post, xs = pre ++ p :: post ∧ length pre = j ∧ p ∉ pre.
Proof.
  intros Hc Hp (Hj & Hs & Hn)%find_slot_Some. rewrite concat_cons in Hc.
  assert ((xs ++ zeros k) !! j = Some p) as Hlk.
  { rewrite <-Hc, Hs, <-app_assoc, lookup_app_r by (rewrite length_take; lia).
    by rewrite length_take_le, Nat.sub_diag by lia. }
  assert (j < length xs)%nat as Hjx.
  { destruct (decide (j < length xs)%nat); [done|].
    rewrite lookup_app_r in Hlk by lia. by apply lookup_replicate in Hlk as [-> _]. }
  rewrite lookup_app_l in Hlk by done.
  exists (take j xs), (drop (S j) xs). rewrite take_drop_middle by done.
  split; [done|]. split; [apply length_take_le; lia|].
  rewrite <-(take_app_le xs (zeros k)), <-Hc, take_app_le by lia. done.
Qed.

Lemma add_before_rec_spec chain xs p e :
  nodes_ok chain → (∃ k, concat chain = xs ++ zeros k) →
  Forall (λ x, x ≠ 0) xs → p ≠ 0 → e ≠ 0 →
  ∃ chain', entry_list_add_before_rec chain p e = Ret (chain', bool_decide (p ∈ xs))
    ∧ nodes_ok chain' ∧ (chain ≠ [] → chain' ≠ [])
    ∧ ∃ k, concat chain' = insert_before p e xs ++ zeros k.
Proof.
  intros Hok Hk Hnz Hp He. revert xs Hok Hk Hnz.
  induction chain as [|slots nxt IH]; intros xs Hok [k Hc] Hnz; cbn [entry_list_add_before_rec].
  - symmetry in Hc. apply app_nil in Hc as [-> _]. exists []. repeat split; [by constructor|done|by exists 0%nat].
  - pose proof Hok as [Hl Hok2]%nodes_ok_cons.
    destruct (find_slot slots p) as [j|] eqn:Hf.
    + assert (j < 4)%nat as Hj by (change 4%nat with NUM_IMMEDIATE; rewrite <-Hl; by apply find_slot_Some in Hf as [? _]).
      destruct (insert_slots_spec (slots :: nxt) j e Hok) as (chain' & -> & Hok' & Hne' & Hc'); [done..|].
      destruct (first_node_split _ _ _ _ _ _ Hc Hp Hf) as (pre & post & -> & <- & Hpre).
      rewrite bool_decide_true by set_solver.
      exists chain'. split; [done|]. split; [done|]. split; [done|].
      rewrite insert_before_skip, insert_before_hit by done.
      rewrite Hc, <-app_assoc, take_app_length, drop_app_length in Hc'.
      destruct Hc' as [Hc'|Hc'].
      * exists (k + 3)%nat. unfold zeros in *. rewrite Hc', replicate_add. by rewrite <-!app_assoc.
      * apply (nonzero_no_trailing _ _ k); [|by rewrite Hc', <-!app_assoc].
        apply Forall_app in Hnz as [? ?]. apply Forall_app. split; [done|]. by constructor.
    + apply find_slot_None in Hf.
      destruct (concat_cons_repr _ _ _ _ Hl Hc) as [(i & k' & Hlt & Hs & Hn)|(ys & Hge & -> & Hn)].
      * destruct (IH [] Hok2) as (chain' & -> & Hok' & _ & k2 & Hc'); [by exists k'|done|].
        assert (p ∉ xs) by set_solver.
        rewrite !bool_decide_false by (done || apply not_elem_of_nil). simpl.
        eexists. split; [done|]. split; [by apply nodes_ok_cons|]. split; [done|].
        exists (S i + k2)%nat. rewrite insert_before_absent by done.
        unfold zeros in *. by rewrite concat_cons, Hc', Hs, replicate_add, <-app_assoc.
      * apply Forall_app in Hnz as [_ Hnz].
        destruct (IH ys Hok2) as (chain' & -> & Hok' & _ & k2 & Hc'); [by exists k|done|].
        simpl. eexists. split; [|split; [by apply nodes_ok_cons|split; [done|]]].
        { do 2 f_equal. apply bool_decide_ext. set_solver. }
        exists k2. by rewrite concat_cons, Hc', insert_before_skip, <-app_assoc.
Qed.

(** ** Iteration *)

(** What an iteration does on the sequence of symbols. *)
Fixpoint fold_break {St R} (f : St → Z → res (St + R)) (s : St) (xs : list Z) : res (St + R) :=
  match xs with
  | [] => Ret (inl s)
  | x :: xs' =>
      r ← f s x;
      match r with inr r => Ret (inr r) | inl s' => fold_break f s' xs' end
  end.

(** The iterator has [ys] left to visit. *)
Definition it_at (it : iterator) (ys : list Z) : Prop :=
  0 ≤ current_pos it < 4 ∧ nodes_ok (current_list it)
  ∧ (∃ k, drop (Z.to_nat (current_pos it)) (concat (current_list it)) = ys ++ zeros k)
  ∧ match first_list it with
    | None => ys = []
    | Some l => num_items_list l = total_pos it + Z.of_nat (length ys)
    end.

Lemma begin_at l xs : represents l xs → it_at (entry_list_iterator_begin l) xs.
Proof.
  destruct l as [l|]; simpl.
  - intros ((Hok & _ & Hk) & Hn & _). split; [simpl; lia|done].
  - intros ->. split; [simpl; lia|]. split; [by constructor|]. split; [by exists 0%nat|done].
Qed.

Lemma end_at it ys :
  it_at it ys → entry_list_iterator_end it = bool_decide (ys = []).
Proof.
  intros (_ & _ & _ & Hf). unfold entry_list_iterator_end.
  destruct (first_list it); [|by subst ys].
  destruct ys as [|y ys]; simpl in Hf; [apply Z.leb_le|apply Z.leb_gt]; lia.
Qed.

Lemma current_at it y ys : it_at it (y :: ys) → entry_list_iterator_current it = Ret y.
Proof.
  intros (Hcp & Hok & [k Hd] & _). unfold entry_list_iterator_current.
  apply (f_equal (.!! 0%nat)) in Hd. rewrite lookup_drop, Nat.add_0_r in Hd. simpl in Hd.
  destruct (current_list it) as [|slots nxt]; [done|].
  apply nodes_ok_cons in Hok as [Hl _]. unfold NUM_IMMEDIATE in Hl. simpl in Hd.
  rewrite lookup_app_l in Hd by lia. by rewrite Hd.
Qed.

Lemma next_at it y ys :
  it_at it (y :: ys) → ∃ it', entry_list_iterator_next it = Ret it' ∧ it_at it' ys.
Proof.
  intros (Hcp & Hok & [k Hd] & Hf). unfold entry_list_iterator_next.
  assert (current_list it ≠ []) as Hne by (intros Hcl; rewrite Hcl in Hd; simpl in Hd; by rewrite drop_nil in Hd).
  apply (f_equal (drop 1)) in Hd. rewrite drop_drop in Hd. simpl in Hd. rewrite drop_0 in Hd.
  assert (match first_list it with
          | None => ys = []
          | Some l => num_items_list l = total_pos it + 1 + Z.of_nat (length ys)
          end) as Hf' by (destruct (first_list it); [simpl in Hf; lia|done]).
  destruct (Z.eqb_spec (current_pos it + 1) 4) as [H4|H4].
  - replace (current_pos it) with 3 in Hd by lia.
    destruct (current_list it) as [|slots nxt]; [done|].
    apply nodes_ok_cons in Hok as [Hl Hok].
    eexists. split; [done|]. split; [done|]. split; [done|]. split; [|done].
    exists k. simpl. rewrite drop_0, <-Hd, concat_cons. by rewrite drop_app_length'.
  - eexists. split; [done|]. split; [simpl; lia|]. split; [done|]. split; [|done].
    exists k. simpl. rewrite <-Hd. f_equal. lia.
Qed.

Section fold.
Context {St R : Type} (f : St → Z → res (St + R)).

Lemma iterate_fold l xs s : represents l xs → iterate l f s = fold_break f s xs.
Proof.
  intros Hr. unfold iterate.
  assert (length xs < S (Z.to_nat (entry_list_size l)))%nat as Hfuel.
  { destruct l as [l|]; simpl in *; [|subst xs; simpl; lia].
    destruct Hr as (_ & -> & _). lia. }
  pose proof (begin_at l xs Hr) as Hit. revert Hfuel Hit.
  generalize (entry_list_iterator_begin l) as it.
  generalize (S (Z.to_nat (entry_list_size l))) as fuel. clear Hr. intros fuel.
  revert xs s. induction fuel as [|fuel IH]; intros xs s it Hf Hit; [lia|].
  cbn [loop]. rewrite (end_at it xs Hit). destruct xs as [|x xs]; [done|].
  simpl. rewrite (current_at it x xs Hit), bind_ret.
  destruct (f s x) as [[s'|r]|e]; [|done|done]. simpl.
  destruct (next_at it x xs Hit) as (it' & -> & Hit'). simpl.
  simpl in Hf. apply IH; [lia|done].
Qed.
End fold.

Lemma fold_break_find e xs :
  fold_break (λ _ current, Ret (if current =? e then inr () else inl ())) () xs
  = Ret (if decide (e ∈ xs) then inr () else inl ()).
Proof.
  induction xs as [|x xs IH]; [done|]. simpl. destruct (Z.eqb_spec x e) as [->|Hne].
  - by rewrite decide_True by set_solver.
  - rewrite IH. f_equal. by apply decide_ext; set_solver.
Qed.

Lemma fold_break_array (xs acc : list Z) :
  fold_break (R := ()) (λ array e, Ret (inl (array ++ [e]))) acc xs = Ret (inl (acc ++ xs)).
Proof.
  revert acc. induction xs as [|x xs IH]; intros acc; simpl; [by rewrite app_nil_r|].
  by rewrite IH, <-app_assoc.
Qed.

Lemma to_symbol_array_repr l xs : represents l xs → entry_list_to_symbol_array l = Ret xs.
Proof.
  intros Hr. unfold entry_list_to_symbol_array.
  by rewrite (iterate_fold _ l xs) by done; rewrite fold_break_array.
Qed.

Lemma contains_repr l xs e :
  represents l xs → entry_list_contains l e = Ret (bool_decide (e ∈ xs)).
Proof.
  intros Hr. unfold entry_list_contains. rewrite (iterate_fold _ l xs) by done.
  rewrite fold_break_find. destruct l as [l|].
  - simpl. case_decide; [by rewrite bool_decide_true|by rewrite bool_decide_false].
  - by rewrite Hr.
Qed.

Lemma add_once_repr l xs e :
  represents l xs → e ≠ 0 →
  ∃ l', entry_list_add_once l e = Ret l'
    ∧ represents l' (if decide (e ∈ xs) then xs else xs ++ [e]).
Proof.
  intros Hr He. unfold entry_list_add_once. rewrite (iterate_fold _ l xs) by done.
  rewrite fold_break_find. simpl. case_decide; [by exists l|]. by apply add_repr.
Qed.

Lemma add_all_repr l xs ys :
  represents l xs → Forall (λ x, x ≠ 0) ys →
  ∃ l', add_all l ys = Ret l' ∧ represents l' (xs ++ ys).
Proof.
  intros Hr Hnz. revert l xs Hr.
  induction Hnz as [|y ys Hy _ IH]; intros l xs Hr; simpl; [exists l; by rewrite app_nil_r|].
  destruct (add_repr l xs y Hr Hy) as (l1 & -> & Hr1). simpl.
  destruct (IH l1 _ Hr1) as (l2 & -> & Hr2). exists l2. by rewrite <-app_assoc in Hr2.
Qed.

Lemma represents_nonzero l xs : represents l xs → Forall (λ x, x ≠ 0) xs.
Proof. destruct l as [l|]; simpl; [by intros (_ & _ & ?)|by intros ->]. Qed.

Lemma append_all_eq result a ys :
  represents a ys → append_all result a = add_all result ys.
Proof.
  intros Ha. unfold append_all. rewrite (iterate_fold _ a ys) by done. clear Ha.
  revert result. induction ys as [|y ys IH]; intros result; simpl; [done|].
  destruct (entry_list_add result y) as [r|]; simpl; [apply IH|done].
Qed.

(** ** Removing *)

Lemma shift_left_spec chain pos :
  nodes_ok chain → (pos < 4)%nat →
  let '(x, chain') := shift_left_all_elements_from_pos chain pos in
  x = default 0 (head (concat chain)) ∧ nodes_ok chain' ∧ length chain' = length chain
  ∧ (chain ≠ [] → concat chain' = take pos (concat chain) ++ drop (S pos) (concat chain) ++ [0]).
Proof.
  revert pos. induction chain as [|slots nxt IH]; intros pos Hok Hp; simpl.
  { by split; [|split]. }
  apply nodes_ok_cons in Hok as [Hl Hok].
  specialize (IH 0%nat Hok ltac:(lia)).
  destruct (shift_left_all_elements_from_pos nxt 0) as [y nxt'].
  destruct IH as (-> & Hok' & Hlen & Hc).
  rewrite (shift_left_insert slots pos _ Hl Hp).
  split; [by node_cases Hl|].
  split; [apply nodes_ok_cons; split; [|done]|split; [simpl; lia|intros _]].
  { node_cases Hl. do 4 (destruct pos as [|pos]; [done|]). lia. }
  rewrite concat_cons.
  assert (default 0 (head (concat nxt)) :: concat nxt' = concat nxt ++ [0]) as Hn.
  { destruct nxt as [|slots2 nxt2]; [by destruct nxt'|].
    rewrite Hc by done. rewrite take_0, app_nil_l.
    apply nodes_ok_cons in Hok as [Hl2 _]. by node_cases Hl2. }
  node_cases Hl. do 4 (destruct pos as [|pos]; [by rewrite ?take_0; simpl; rewrite Hn|]). lia.
Qed.

(** The scan of [entry_list_remove_rec] on the slots of the whole chain: after
    a removal the slot that moved in is not looked at again. *)
Fixpoint scan (n : nat) (c : list Z) (e : Z) : list Z * Z :=
  match n, c with
  | O, _ => (c, 0)
  | _, [] => ([], 0)
  | S n', x :: c' =>
      if x =? e then
        match c' ++ [0] with
        | y :: c'' => let '(r, m) := scan n' c'' e in (y :: r, m + 1)
        | [] => ([], 0)
        end
      else let '(r, m) := scan n' c' e in (x :: r, m)
  end.

Lemma remove_slots_spec n i chain e m :
  nodes_ok chain → chain ≠ [] → (i + n = 4)%nat →
  let '(chain', m') := remove_slots n i chain e m in
  nodes_ok chain' ∧ length chain' = length chain
  ∧ concat chain' = take i (concat chain) ++ (scan n (drop i (concat chain)) e).1
  ∧ m' = m + (scan n (drop i (concat chain)) e).2.
Proof.
  revert i chain m. induction n as [|n IH]; intros i chain m Hok Hne Hi; simpl.
  { rewrite take_drop. split; [done|]. split; [done|]. split; [done|lia]. }
  destruct chain as [|slots nxt] eqn:Hchain; [done|].
  assert (length slots = NUM_IMMEDIATE) as Hl by (by apply nodes_ok_cons in Hok as [? _]).
  rewrite <-Hchain in *. unfold NUM_IMMEDIATE in Hl.
  assert (∃ x, concat chain !! i = Some x ∧ slots !!! i = x) as (x & Hx & ->).
  { destruct (lookup_lt_is_Some_2 slots i) as [x Hx]; [lia|]. exists x.
    split; [|by apply list_lookup_total_correct].
    rewrite Hchain. simpl. by rewrite lookup_app_l by lia. }
  rewrite (drop_S _ _ _ Hx). destruct (x =? e) eqn:Hxe.
  - pose proof (shift_left_spec chain i Hok ltac:(lia)) as Hs.
    destruct (shift_left_all_elements_from_pos chain i) as [y chain'].
    destruct Hs as (_ & Hok' & Hlen & Hc). specialize (Hc Hne). simpl.
    specialize (IH (S i) chain' (m + 1) Hok'). rewrite Hc in IH.
    assert (length (concat chain) ≥ S i)%nat by (apply lookup_lt_Some in Hx; lia).
    destruct (drop (S i) (concat chain) ++ [0]) as [|z rest] eqn:Hd; [by destruct (drop _ _)|].
    assert (take (S i) (take i (concat chain) ++ z :: rest) = take i (concat chain) ++ [z]) as Ht.
    { rewrite take_app_ge, length_take_le by (rewrite ?length_take; lia).
      by replace (S i - i)%nat with 1%nat by lia. }
    assert (drop (S i) (take i (concat chain) ++ z :: rest) = rest) as Hdr.
    { rewrite drop_app_ge, length_take_le by (rewrite ?length_take; lia).
      by replace (S i - i)%nat with 1%nat by lia. }
    rewrite Ht, Hdr in IH. destruct (remove_slots n (S i) chain' e (m + 1)) as [chain2 m2].
    destruct (scan n rest e) as [r k]. simpl in *.
    destruct IH as (? & ? & -> & ->); [by destruct chain'; [destruct chain|]|lia|].
    split; [done|]. split; [lia|]. split; [by rewrite <-app_assoc|lia].
  - specialize (IH (S i) chain m Hok Hne).
    destruct (remove_slots n (S i) chain e m) as [chain2 m2].
    destruct (scan n (drop (S i) (concat chain)) e) as [r k]. simpl in *.
    destruct IH as (? & ? & -> & ->); [lia|].
    split; [done|]. split; [done|]. split; [|done].
    rewrite (take_S_r _ _ _ Hx). by rewrite <-app_assoc.
Qed.

Lemma scan_length n c e : length (scan n c e).1 = length c.
Proof.
  revert c. induction n as [|n IH]; intros [|x c]; simpl; [done..|].
  destruct (x =? e).
  - destruct (c ++ [0]) as [|y c'] eqn:Hc; [by destruct c|].
    apply (f_equal length) in Hc. rewrite length_app in Hc. simpl in Hc.
    specialize (IH c'). destruct (scan n c' e). simpl in *. lia.
  - specialize (IH c). destruct (scan n c e). simpl in *. lia.
Qed.

Lemma scan_split a b c e :
  scan (a + b) c e
  = let '(r1, k1) := scan a c e in
    let '(r2, k2) := scan b (drop a r1) e in (take a r1 ++ r2, k1 + k2).
Proof.
  revert c. induction a as [|a IH]; intros c.
  - simpl. rewrite drop_0. destruct (scan b c e). done.
  - destruct c as [|x c]; simpl; [by destruct b|]. destruct (x =? e).
    + destruct (c ++ [0]) as [|y c']; [by destruct b|]. rewrite IH.
      destruct (scan a c' e) as [r1 k1]. simpl. destruct (scan b (drop a r1) e) as [r2 k2].
      f_equal. lia.
    + rewrite IH. destruct (scan a c e) as [r1 k1]. simpl. by destruct (scan b (drop a r1) e).
Qed.

Lemma remove_rec_spec fuel chain e :
  nodes_ok chain → (length chain < fuel)%nat →
  ∃ chain', entry_list_remove_rec fuel chain e
              = Ret (chain', (scan (4 * length chain) (concat chain) e).2)
    ∧ nodes_ok chain' ∧ length chain' = length chain
    ∧ concat chain' = (scan (4 * length chain) (concat chain) e).1.
Proof.
  revert chain. induction fuel as [|fuel IH]; intros chain Hok Hf; [lia|].
  cbn [entry_list_remove_rec]. destruct chain as [|slots nxt] eqn:Hchain.
  { exists []. done. }
  rewrite <-Hchain in *. assert (chain ≠ []) as Hne by (by rewrite Hchain).
  assert (length chain = S (length nxt)) as Hlen by (by rewrite Hchain).
  clear Hchain slots. pose proof (remove_slots_spec 4 0 chain e 0 Hok Hne eq_refl) as Hs.
  unfold NUM_IMMEDIATE. destruct (remove_slots 4 0 chain e 0) as [chain1 m1].
  destruct Hs as (Hok1 & Hlen1 & Hc1 & Hm1). rewrite take_0, drop_0 in *.
  destruct (scan 4 (concat chain) e) as [r1 k1] eqn:Hs4. simpl in Hc1, Hm1.
  destruct chain1 as [|slots1 nxt1]; [simpl in *; lia|].
  apply nodes_ok_cons in Hok1 as [Hl1 Hok1]. simpl in Hlen1.
  destruct (IH nxt1 Hok1) as (nxt2 & -> & Hok2 & Hlen2 & Hc2); [lia|].
  replace (4 * length chain)%nat with (4 + 4 * length nxt1)%nat by lia.
  rewrite scan_split, Hs4. cbv beta iota. subst m1 r1. rewrite concat_cons. rewrite take_app_length', drop_app_length' by done.
  destruct (scan (4 * length nxt1) (concat nxt1) e) as [r2 k2]. simpl in *.
  exists (slots1 :: nxt2). split; [do 2 f_equal; lia|].
  split; [by apply nodes_ok_cons|]. split; [simpl; lia|]. simpl. by rewrite Hc2.
Qed.

(** What [entry_list_remove] does to the sequence: the symbol that follows a
    removed one stays, whatever it is. *)
Fixpoint remove_skip (e : Z) (xs : list Z) : list Z :=
  match xs with
  | [] => []
  | x :: xs' =>
      if decide (x = e)
      then match xs' with [] => [] | y :: ys => y :: remove_skip e ys end
      else x :: remove_skip e xs'
  end.

Lemma scan_zeros n e : e ≠ 0 → scan n (zeros n) e = (zeros n, 0).
Proof.
  intros He. unfold zeros. induction n as [|n IH]; [done|].
  cbn [scan replicate]. rewrite IH. by rewrite (proj2 (Z.eqb_neq 0 e)).
Qed.

Lemma scan_remove_skip n xs k e :
  e ≠ 0 → (length xs + k = n)%nat →
  ∃ k', scan n (xs ++ zeros k) e
        = (remove_skip e xs ++ zeros k',
           Z.of_nat (length xs) - Z.of_nat (length (remove_skip e xs))).
Proof.
  intros He. revert xs k. induction n as [n IH] using lt_wf_ind; intros xs k Hn.
  destruct xs as [|x xs]; simpl.
  { exists k. simpl in Hn. subst k. by apply scan_zeros. }
  simpl in Hn. destruct n as [|n]; [lia|]. simpl. destruct (Z.eqb_spec x e) as [->|Hne].
  - rewrite decide_True by done. rewrite <-app_assoc.
    assert (zeros k ++ [0] = zeros (k + 1)) as -> by (unfold zeros; by rewrite replicate_add).
    destruct xs as [|y ys]; simpl; simpl in Hn.
    + exists (S n). replace k with n by lia. rewrite Nat.add_1_r. simpl.
      by rewrite scan_zeros.
    + destruct (IH n ltac:(lia) ys (k + 1)%nat) as [k' Hk']; [lia|].
      rewrite Hk'. exists k'. f_equal. lia.
  - rewrite decide_False by done.
    destruct (IH n ltac:(lia) xs k) as [k' Hk']; [lia|].
    rewrite Hk'. exists k'. f_equal. simpl. lia.
Qed.

Lemma remove_repr l xs e :
  represents l xs → e ≠ 0 →
  ∃ l', entry_list_remove l e = Ret l' ∧ represents l' (remove_skip e xs).
Proof.
  intros Hr He. destruct l as [l|]; [|simpl in Hr; subst xs; by exists None].
  destruct Hr as ((Hok & Hne & [k Hc]) & Hn & Hnz). unfold entry_list_remove.
  destruct (remove_rec_spec (S (length (next l))) (next l) e Hok)
    as (chain' & -> & Hok' & Hlen & Hc'); [lia|]. rewrite bind_ret.
  destruct (scan_remove_skip (4 * length (next l)) xs k e He) as [k' Hs].
  { rewrite <-nodes_ok_length, Hc, length_app by done. unfold zeros. by rewrite length_replicate. }
  rewrite Hc, Hs in *. eexists. split; [done|]. cbn [represents num_items_list next snd].
  split; [split; [done|split]|split].
  - intros ->. by destruct (next l).
  - by exists k'.
  - lia.
  - clear -Hnz. induction xs as [xs IH] using (induction_ltof1 _ length).
    destruct xs as [|x [|y ys]]; simpl; [done|by case_decide|].
    apply Forall_cons in Hnz as [Hx Hnz]. case_decide.
    + apply Forall_cons in Hnz as [Hy Hnz]. constructor; [done|].
      apply IH; [unfold ltof; simpl; lia|done].
    + constructor; [done|]. apply (IH (y :: ys)); [unfold ltof; simpl; lia|done].
Qed.

Lemma remove_skip_absent e xs : e ∉ xs → remove_skip e xs = xs.
Proof.
  induction xs as [|x xs IH]; [done|]. intros [Hne Hn]%not_elem_of_cons. simpl.
  rewrite decide_False by done. by rewrite IH.
Qed.

Lemma remove_skip_nodup e xs : NoDup xs → remove_skip e xs = filter (λ x, x ≠ e) xs.
Proof.
  induction 1 as [|x xs Hx Hnd IH]; [done|]. simpl. rewrite filter_cons.
  destruct (decide (x = e)) as [->|Hne].
  - rewrite decide_False by tauto.
    rewrite <-IH, remove_skip_absent by done.
    destruct xs as [|y ys]; [done|]. f_equal. apply remove_skip_absent. set_solver.
  - rewrite decide_True by done. by f_equal.
Qed.

Lemma copy_repr l xs : represents l xs → entry_list_copy l = l.
Proof.
  destruct l as [l|]; simpl; [|done]. intros ((Hok & _ & _) & _ & _).
  destruct l as [n chain]. simpl in *. do 2 f_equal.
  induction Hok as [|slots chain Hl _ IH]; [done|]. rewrite fmap_cons, IH. f_equal.
  by node_cases Hl.
Qed.

(** ** Merging *)

Definition addresses (xs : list Z) : Prop := Forall (λ x, 0 < x < 2 ^ 63) xs.

Lemma addresses_nonzero xs : addresses xs → Forall (λ x, x ≠ 0) xs.
Proof. intros Ha. eapply Forall_impl; [exact Ha|]. simpl. lia. Qed.

#[export] Instance ptr_le_trans : Transitive ptr_le.
Proof. intros x y z. unfold ptr_le. lia. Qed.

#[export] Instance ptr_le_total : Total ptr_le.
Proof. intros x y. unfold ptr_le. lia. Qed.

Lemma sort_ptrs_sorted xs :
  addresses xs → NoDup xs → StronglySorted Z.lt (sort_ptrs xs) ∧ sort_ptrs xs ≡ₚ xs.
Proof.
  intros Ha Hnd. unfold sort_ptrs.
  assert (merge_sort ptr_le xs ≡ₚ xs) as Hp by apply merge_sort_Permutation.
  split; [|done].
  assert (StronglySorted ptr_le (merge_sort ptr_le xs)) as Hs.
  { apply StronglySorted_merge_sort; [apply _..]. }
  assert (addresses (merge_sort ptr_le xs)) as Ha' by (unfold addresses; by rewrite Hp).
  assert (NoDup (merge_sort ptr_le xs)) as Hnd' by (by rewrite Hp).
  clear Hp Ha Hnd. induction Hs as [|x ys Hs IH Hx]; constructor.
  - apply Forall_cons in Ha' as [_ Ha']. apply NoDup_cons in Hnd' as [_ Hnd']. auto.
  - apply Forall_cons in Ha' as [Hxa Ha']. apply NoDup_cons in Hnd' as [Hn Hnd'].
    rewrite Forall_forall in Hx, Ha' |- *. intros y Hy. specialize (Hx y Hy).
    specialize (Ha' y Hy). unfold ptr_le in Hx. simpl in Hxa, Ha'.
    rewrite !wraps_small in Hx by lia.
    assert (x ≠ y) by (by intros ->). lia.
Qed.

Lemma skip_repeated_sorted x xs :
  0 < x → StronglySorted Z.lt (x :: xs) → skip_repeated ((x :: xs) ++ [0]) = Ret ((x :: xs) ++ [0]).
Proof.
  intros Hx Hs. apply StronglySorted_inv in Hs as [_ Hs]. simpl.
  destruct xs as [|y xs]; simpl.
  - by rewrite (proj2 (Z.eqb_neq x 0)) by lia.
  - apply Forall_cons in Hs as [Hy _]. by rewrite (proj2 (Z.eqb_neq x y)) by lia.
Qed.

Lemma merge_rest_add_all ps result :
  Forall (λ x, x ≠ 0) ps → merge_rest (ps ++ [0]) result = add_all result ps.
Proof.
  intros Hnz. revert result. induction Hnz as [|x ps Hx _ IH]; intros result; [done|].
  simpl. rewrite (proj2 (Z.eqb_neq x 0)) by done.
  destruct (entry_list_add result x); simpl; [apply IH|done].
Qed.

(** The state of the merge: [zs] is done, [ps] and [qs] are left. *)
Definition merging (us : list Z) (p q : list Z) (result : option entry_list)
    (ps qs zs : list Z) : Prop :=
  p = ps ++ [0] ∧ q = qs ++ [0] ∧ represents result zs
  ∧ StronglySorted Z.lt (zs ++ ps) ∧ StronglySorted Z.lt (zs ++ qs)
  ∧ addresses ps ∧ addresses qs
  ∧ ∀ u, u ∈ us ↔ u ∈ zs ∨ u ∈ ps ∨ u ∈ qs.

Lemma sorted_between zs x ps y qs :
  StronglySorted Z.lt (zs ++ x :: ps) → StronglySorted Z.lt (zs ++ y :: qs) → x < y →
  StronglySorted Z.lt ((zs ++ [x]) ++ y :: qs).
Proof.
  intros Hx Hy Hxy. rewrite <-app_assoc. simpl.
  induction zs as [|z zs IH]; simpl in *.
  - constructor; [done|]. constructor; [done|].
    apply StronglySorted_inv in Hy as [_ Hy]. eapply Forall_impl; [exact Hy|]. simpl. lia.
  - apply StronglySorted_inv in Hx as [Hx Hzx]. apply StronglySorted_inv in Hy as [Hy Hzy].
    constructor; [by apply IH|].
    apply Forall_app in Hzx as [Hz1 [Hz2 _]%Forall_cons]. apply Forall_app in Hzy as [_ Hz3].
    apply Forall_app. split; [done|]. by constructor.
Qed.

Lemma sorted_app_r (zs ps : list Z) : StronglySorted Z.lt (zs ++ ps) → StronglySorted Z.lt ps.
Proof.
  induction zs as [|z zs IH]; simpl; [done|]. intros [Hs _]%StronglySorted_inv. auto.
Qed.

Lemma merge_step_spec us st :
  (∃ ps qs zs, merging us st.1.1 st.1.2 st.2 ps qs zs) →
  match merge_step st with
  | Ret (inl st') =>
      (∃ ps qs zs, merging us st'.1.1 st'.1.2 st'.2 ps qs zs)
      ∧ (length st'.1.1 + length st'.1.2 < length st.1.1 + length st.1.2)%nat
  | Ret (inr st') =>
      ∃ ps qs zs, merging us st'.1.1 st'.1.2 st'.2 ps qs zs ∧ (ps = [] ∨ qs = [])
  | Err _ => False
  end.
Proof.
  destruct st as [[p q] result]. simpl. intros (ps & qs & zs & Hm).
  pose proof Hm as (-> & -> & Hr & Hps & Hqs & Hap & Haq & Hu).
  destruct ps as [|x ps].
  { simpl. destruct qs; simpl; eauto 10. }
  destruct qs as [|y qs].
  { simpl. rewrite orb_true_r. eauto 10. }
  pose proof (Forall_cons_1 _ _ _ Hap) as [Hx Hap'].
  pose proof (Forall_cons_1 _ _ _ Haq) as [Hy Haq'].
  unfold merge_step. cbn [head app get]. rewrite !bind_ret.
  rewrite (proj2 (Z.eqb_neq x 0)), (proj2 (Z.eqb_neq y 0)) by lia. simpl orb. cbv iota.
  rewrite !app_comm_cons, !skip_repeated_sorted by (lia || by eapply sorted_app_r).
  rewrite !bind_ret. cbn [head app get]. rewrite !bind_ret.
  destruct (Z.ltb_spec x y) as [Hxy|Hxy].
  - destruct (add_repr result zs x Hr) as (r & -> & Hr'); [lia|]. simpl.
    split; [|lia]. exists ps, (y :: qs), (zs ++ [x]).
    split; [done|]. split; [done|]. split; [done|]. split; [by rewrite <-app_assoc|].
    split; [by eapply sorted_between|]. split; [done|]. split; [done|].
    intros u. rewrite Hu. set_solver.
  - destruct (Z.ltb_spec y x) as [Hyx|Hyx].
    + destruct (add_repr result zs y Hr) as (r & -> & Hr'); [lia|]. simpl.
      split; [|rewrite !length_app; simpl; lia]. exists (x :: ps), qs, (zs ++ [y]).
      split; [done|]. split; [done|]. split; [done|]. split; [by eapply sorted_between|].
      split; [by rewrite <-app_assoc|]. split; [done|]. split; [done|].
      intros u. rewrite Hu. set_solver.
    + assert (y = x) as -> by lia.
      destruct (add_repr result zs x Hr) as (r & -> & Hr'); [lia|]. simpl.
      split; [|lia]. exists ps, qs, (zs ++ [x]).
      split; [done|]. split; [done|]. split; [done|]. split; [by rewrite <-app_assoc|].
      split; [by rewrite <-app_assoc|]. split; [done|]. split; [done|].
      intros u. rewrite Hu. set_solver.
Qed.

Lemma merge_repr l1 l2 xs ys :
  represents l1 xs → represents l2 ys →
  addresses xs → addresses ys → NoDup xs → NoDup ys →
  ∃ l zs, entry_list_merge l1 l2 = Ret l ∧ represents l zs
    ∧ StronglySorted Z.lt zs ∧ ∀ u, u ∈ zs ↔ u ∈ xs ∨ u ∈ ys.
Proof.
  intros H1 H2 Ha1 Ha2 Hn1 Hn2. unfold entry_list_merge.
  rewrite (to_symbol_array_repr l1 xs), (to_symbol_array_repr l2 ys), !bind_ret by done.
  destruct (sort_ptrs_sorted xs Ha1 Hn1) as [Hs1 Hp1].
  destruct (sort_ptrs_sorted ys Ha2 Hn2) as [Hs2 Hp2].
  destruct (loop_spec (λ st, ∃ ps qs zs, merging (xs ++ ys) st.1.1 st.1.2 st.2 ps qs zs)
    (λ st, (length st.1.1 + length st.1.2)%nat)
    (λ st, ∃ ps qs zs, merging (xs ++ ys) st.1.1 st.1.2 st.2 ps qs zs ∧ (ps = [] ∨ qs = []))
    merge_step (merge_step_spec (xs ++ ys))
    (sort_ptrs xs ++ [0], sort_ptrs ys ++ [0], None)
    (S (length (sort_ptrs xs ++ [0]) + length (sort_ptrs ys ++ [0]))))
    as ([[p q] result] & Hloop & ps & qs & zs & (Hp & Hq & Hr & Hps & Hqs & Hap & Haq & Hu) & He).
  - exists (sort_ptrs xs), (sort_ptrs ys), [].
    split; [done|]. split; [done|]. split; [done|]. split; [done|]. split; [done|].
    split; [unfold addresses; by rewrite Hp1|]. split; [unfold addresses; by rewrite Hp2|].
    intros u. rewrite Hp1, Hp2. set_solver.
  - simpl. lia.
  - cbv zeta. rewrite Hloop, bind_ret. simpl in Hp, Hq, Hr. subst p q.
    rewrite merge_rest_add_all by by apply addresses_nonzero.
    destruct (add_all_repr result zs ps Hr) as (l & -> & Hl); [by apply addresses_nonzero|].
    rewrite bind_ret, merge_rest_add_all by by apply addresses_nonzero.
    destruct (add_all_repr l _ qs Hl) as (l' & -> & Hl'); [by apply addresses_nonzero|].
    exists l', ((zs ++ ps) ++ qs). split; [done|]. split; [done|]. split.
    + destruct He as [-> | ->]; by rewrite ?app_nil_r in *.
    + set_solver.
Qed.

(** * The operations as a refinement of sequences *)

Inductive list_op :=
| Add (e : Z)
| AddOnce (e : Z)
| Prepend (e : Z)
| AddBefore (p e : Z)
| Remove (e : Z)
| Concat (es : list Z).

Definition step_list (l : option entry_list) (o : list_op) : res (option entry_list) :=
  match o with
  | Add e => entry_list_add l e
  | AddOnce e => entry_list_add_once l e
  | Prepend e => Ret (entry_list_prepend l e)
  | AddBefore p e => entry_list_add_before l p e
  | Remove e => entry_list_remove l e
  | Concat es =>
      b ← entry_list_from_symbol_array (Z.of_nat (length es)) es;
      entry_list_concat l b
  end.

Definition step_seq (xs : list Z) (o : list_op) : list Z :=
  match o with
  | Add e => xs ++ [e]
  | AddOnce e => if decide (e ∈ xs) then xs else xs ++ [e]
  | Prepend e => e :: xs
  | AddBefore p e => insert_before p e xs
  | Remove e => remove_skip e xs
  | Concat es => xs ++ es
  end.

(** Symbols are never [NULL]; [entry_list_add_before] reads its list. *)
Definition legal_op (xs : list Z) (o : list_op) : Prop :=
  match o with
  | Add e | AddOnce e | Prepend e | Remove e => e ≠ 0
  | AddBefore p e => p ≠ 0 ∧ e ≠ 0 ∧ xs ≠ []
  | Concat es => Forall (λ x, x ≠ 0) es
  end.

Fixpoint run_list (l : option entry_list) (os : list list_op) : res (option entry_list) :=
  match os with
  | [] => Ret l
  | o :: os' => l' ← step_list l o; run_list l' os'
  end.

Fixpoint legal_ops (xs : list Z) (os : list list_op) : Prop :=
  match os with
  | [] => True
  | o :: os' => legal_op xs o ∧ legal_ops (step_seq xs o) os'
  end.

Lemma from_symbol_array_repr xs :
  Forall (λ x, x ≠ 0) xs →
  ∃ l, entry_list_from_symbol_array (Z.of_nat (length xs)) xs = Ret l ∧ represents l xs.
Proof.
  intros Hnz. unfold entry_list_from_symbol_array.
  destruct (Z.leb_spec (Z.of_nat (length xs)) 0) as [Hl|Hl].
  - exists None. split; [done|]. by destruct xs.
  - rewrite decide_True by lia. rewrite Nat2Z.id, take_ge by lia.
    apply (add_all_repr (Some entry_list_allocate) [] xs); [|done].
    split; [|done]. split; [by constructor|]. split; [done|]. by exists 4%nat.
Qed.

Lemma concat_repr a b xs ys :
  represents a xs → represents b ys →
  ∃ l, entry_list_concat a b = Ret l ∧ represents l (xs ++ ys).
Proof.
  intros Ha Hb. unfold entry_list_concat. rewrite (append_all_eq None a xs) by done.
  destruct (add_all_repr None [] xs) as (l & -> & Hl); [done|by eapply represents_nonzero|].
  rewrite bind_ret, (append_all_eq l b ys) by done.
  apply (add_all_repr l xs ys Hl). by eapply represents_nonzero.
Qed.

Lemma insert_before_length p e xs :
  length (insert_before p e xs) = (length xs + if bool_decide (p ∈ xs) then 1 else 0)%nat.
Proof.
  induction xs as [|x xs IH]; [done|]. simpl.
  destruct (decide (x = p)) as [Hx|Hx].
  - rewrite bool_decide_true by set_solver. simpl. lia.
  - simpl. rewrite IH, (bool_decide_ext (p ∈ x :: xs) (p ∈ xs)) by set_solver. done.
Qed.

Lemma insert_before_nonzero p e xs :
  e ≠ 0 → Forall (λ x, x ≠ 0) xs → Forall (λ x, x ≠ 0) (insert_before p e xs).
Proof.
  intros He. induction 1 as [|x xs Hx Hxs IH]; simpl; [done|].
  case_decide; repeat (constructor; [done|]); done.
Qed.

Lemma add_before_repr l xs p e :
  represents l xs → p ≠ 0 → e ≠ 0 → xs ≠ [] →
  ∃ l', entry_list_add_before l p e = Ret l' ∧ represents l' (insert_before p e xs).
Proof.
  intros Hr Hp He Hxs. destruct l as [l|]; [|done].
  destruct Hr as ((Hok & Hne & Hk) & Hn & Hnz). unfold entry_list_add_before.
  destruct (add_before_rec_spec (next l) xs p e Hok Hk Hnz Hp He)
    as (chain' & -> & Hok' & Hne' & Hk'). rewrite bind_ret.
  eexists. split; [done|]. cbn [represents num_items_list next].
  split; [split; [done|split; [auto|done]]|]. split; [|by apply insert_before_nonzero].
  rewrite insert_before_length. destruct (bool_decide (p ∈ xs)); lia.
Qed.

Lemma step_repr l xs o :
  represents l xs → legal_op xs o →
  ∃ l', step_list l o = Ret l' ∧ represents l' (step_seq xs o).
Proof.
  intros Hr Ho. destruct o as [e|e|e|p e|e|es]; simpl in *.
  - by apply add_repr.
  - by apply add_once_repr.
  - eexists. split; [done|]. by apply prepend_repr.
  - destruct Ho as (? & ? & ?). by apply add_before_repr.
  - by apply remove_repr.
  - destruct (from_symbol_array_repr es Ho) as (b & -> & Hb). simpl. by apply concat_repr.
Qed.

(** C10: lists of symbols refine sequences: any run of add, add_once, prepend,
    add_before, remove and concat from the empty list succeeds, and the list
    it leaves is the sequence of the same run on sequences. Its size, its
    membership test, its copy and its array then agree with that sequence. *)
Theorem entry_list_refines_sequence os :
  legal_ops [] os →
  let xs := foldl step_seq [] os in
  ∃ l, run_list None os = Ret l ∧ represents l xs
    ∧ entry_list_size l = Z.of_nat (length xs)
    ∧ entry_list_to_symbol_array l = Ret xs
    ∧ (∀ e, entry_list_contains l e = Ret (bool_decide (e ∈ xs)))
    ∧ entry_list_copy l = l.
Proof.
  intros Hos. cbv zeta.
  assert (∀ l xs, represents l xs → legal_ops xs os →
            ∃ l', run_list l os = Ret l' ∧ represents l' (foldl step_seq xs os)) as Hrun.
  { clear Hos. induction os as [|o os IH]; intros l xs Hr; simpl; [by exists l|].
    intros [Ho Hos]. destruct (step_repr l xs o Hr Ho) as (l1 & -> & Hr1). simpl. by apply IH. }
  destruct (Hrun None [] eq_refl Hos) as (l & Hl & Hr). exists l.
  split; [done|]. split; [done|]. split.
  { destruct l as [l|]; [by destruct Hr as (_ & ? & _)|]. simpl in Hr. by rewrite Hr. }
  split; [by apply to_symbol_array_repr|]. split; [|by eapply copy_repr].
  intros e. by apply contains_repr.
Qed.

Lemma entry_list_refines_sequence_witness :
  ∃ l, run_list None [Add 10; Prepend 20; AddOnce 10; AddBefore 10 30; Concat [40; 50; 10];
                      Remove 20] = Ret l
    ∧ entry_list_to_symbol_array l = Ret [30; 10; 40; 50; 10].
Proof.
  destruct (entry_list_refines_sequence
    [Add 10; Prepend 20; AddOnce 10; AddBefore 10 30; Concat [40; 50; 10]; Remove 20])
    as (l & Hl & _ & _ & Ha & _).
  - simpl. repeat split; try done. repeat constructor; done.
  - exists l. split; [exact Hl|exact Ha].
Defined.

(** Removing a symbol from a list without repetitions leaves the other
    symbols in their order. *)
Theorem entry_list_remove_nodup l xs e :
  represents l xs → NoDup xs → e ≠ 0 →
  ∃ l', entry_list_remove l e = Ret l' ∧ represents l' (filter (λ x, x ≠ e) xs).
Proof.
  intros Hr Hnd He. destruct (remove_repr l xs e Hr He) as (l' & Hl & Hr').
  exists l'. by rewrite <-remove_skip_nodup.
Qed.

Lemma entry_list_remove_nodup_witness :
  ∃ l', entry_list_remove (Some (EntryList 5 [[1; 2; 3; 4]; [5; 0; 0; 0]])) 2 = Ret l'
    ∧ represents l' [1; 3; 4; 5].
Proof.
  destruct (entry_list_remove_nodup (Some (EntryList 5 [[1; 2; 3; 4]; [5; 0; 0; 0]]))
              [1; 2; 3; 4; 5] 2) as (l' & Hl & Hr).
  - split; [|split; [done|repeat constructor; done]].
    split; [repeat constructor|]. split; [done|]. by exists 3%nat.
  - apply (bool_decide_unpack _). vm_compute. exact I.
  - done.
  - exists l'. split; [exact Hl|exact Hr].
Defined.

(** [entry_list_remove] does not look at the symbol that moves into the
    place of a removed one, so of two equal neighbours one stays. *)
Theorem entry_list_remove_keeps_neighbour l xs ys e :
  represents l (xs ++ e :: e :: ys) → e ∉ xs → e ≠ 0 →
  ∃ l', entry_list_remove l e = Ret l' ∧ entry_list_contains l' e = Ret true.
Proof.
  intros Hr Hn He. destruct (remove_repr l _ e Hr He) as (l' & Hl & Hr').
  exists l'. split; [done|]. rewrite (contains_repr l' _ e Hr'). f_equal.
  apply bool_decide_true.
  clear Hr Hl Hr'. induction xs as [|x xs IH]; simpl.
  - rewrite decide_True by done. left.
  - apply not_elem_of_cons in Hn as [Hne Hn]. rewrite decide_False by done. right. auto.
Qed.

Lemma entry_list_remove_keeps_neighbour_witness :
  ∃ l', entry_list_remove (Some (EntryList 3 [[1; 2; 2; 0]])) 2 = Ret l'
    ∧ entry_list_contains l' 2 = Ret true.
Proof.
  apply (entry_list_remove_keeps_neighbour (Some (EntryList 3 [[1; 2; 2; 0]])) [1] [] 2).
  - split; [|split; [done|repeat constructor; done]].
    split; [repeat constructor|]. split; [done|]. by exists 1%nat.
  - apply (bool_decide_unpack _). vm_compute. exact I.
  - done.
Defined.

(** The merge of two lists without repetitions is their union in strictly
    increasing order of address. *)
Theorem entry_list_merge_union l1 l2 xs ys :
  represents l1 xs → represents l2 ys →
  addresses xs → addresses ys → NoDup xs → NoDup ys →
  ∃ l zs, entry_list_merge l1 l2 = Ret l ∧ represents l zs
    ∧ StronglySorted Z.lt zs ∧ ∀ u, u ∈ zs ↔ u ∈ xs ∨ u ∈ ys.
Proof. apply merge_repr. Qed.

Lemma entry_list_merge_union_witness :
  ∃ l zs, entry_list_merge (Some (EntryList 3 [[30; 10; 20; 0]]))
            (Some (EntryList 2 [[40; 20; 0; 0]])) = Ret l
    ∧ represents l zs ∧ StronglySorted Z.lt zs
    ∧ ∀ u, u ∈ zs ↔ u ∈ [30; 10; 20] ∨ u ∈ [40; 20].
Proof.
  apply (entry_list_merge_union (Some (EntryList 3 [[30; 10; 20; 0]]))
           (Some (EntryList 2 [[40; 20; 0; 0]])) [30; 10; 20] [40; 20]).
  - split; [|split; [done|repeat constructor; done]].
    split; [repeat constructor|]. split; [done|]. by exists 1%nat.
  - split; [|split; [done|repeat constructor; done]].
    split; [repeat constructor|]. split; [done|]. by exists 2%nat.
  - repeat constructor; done.
  - repeat constructor; done.
  - apply (bool_decide_unpack _). vm_compute. exact I.
  - apply (bool_decide_unpack _). vm_compute. exact I.
Defined.

(** [entry_list_add_after] searches the node after the current one, so on
    any list of one to four symbols built by [entry_list_from_symbol_array] it
    reads through a null pointer. *)
Theorem entry_list_add_after_short_undefined xs l p e :
  (0 < length xs ≤ 4)%nat →
  entry_list_from_symbol_array (Z.of_nat (length xs)) xs = Ret l →
  entry_list_add_after l p e = Err Undef.
Proof.
  intros Hl. destruct xs as [|x1 [|x2 [|x3 [|x4 [|]]]]]; simpl in Hl; try lia;
    intros [= <-]; done.
Qed.

Lemma entry_list_add_after_short_undefined_witness :
  entry_list_add_after (Some (EntryList 2 [[10; 20; 0; 0]])) 10 15 = Err Undef.
Proof.
  apply (entry_list_add_after_short_undefined [10; 20]).
  - simpl. lia.
  - reflexivity.
Defined.
