(* ===== verification/TypeEnviron.v ===== *)
(** * Type environments: [frontend/cxx-typeenviron.c], [driver/cxx-driver.c]

    The eleven target descriptions (sizes, alignments, byte order, floating
    types, the types of [sizeof], [ptrdiff_t], [char] and [wchar_t]) that
    [init_type_environments] fills in once, and the lookup by name that the
    driver and the configuration file use.  The globals are a store from their
    names to records; each section of [init_type_environments] is a function on
    its record, with the assignments in the order of the code, and keeps the
    fields it does not assign.  Functions of other files whose address is
    stored are named by constructors. *)

From stdpp Require Import functions.
From S2P Require Import Prelude.

(** ** Floating types *)

Record floating_type_info := FloatingTypeInfo {
  size_of : Z; align_of : Z; bits : Z; base : Z; p : Z; emin : Z; emax : Z }.

(** The global variables whose address is stored in the environments. *)
Inductive floating_global :=
| binary_float_16 | binary_float_32 | binary_float_64 | binary_float_64_bis
| binary_float_80_intel | binary_float_2x64 | binary_float_128.

#[export] Instance floating_global_eq_dec : EqDecision floating_global.
Proof. solve_decision. Defined.

(** [emin] is a [size_t], so a negative exponent is stored modulo [2^64]. *)
Definition floating_info (f : floating_global) : floating_type_info :=
  match f with
  | binary_float_16 => FloatingTypeInfo 2 2 16 2 10 (u64 (-29)) 32
  | binary_float_32 => FloatingTypeInfo 4 4 32 2 23 (u64 (-125)) 128
  | binary_float_64 => FloatingTypeInfo 8 8 64 2 52 (u64 (-1021)) 1024
  | binary_float_64_bis => FloatingTypeInfo 8 8 64 2 52 (u64 (-1021)) 1024
  | binary_float_80_intel => FloatingTypeInfo 12 4 80 2 63 (u64 (-16381)) 16384
  | binary_float_2x64 => FloatingTypeInfo 16 16 128 2 105 (u64 (-968)) 1024
  | binary_float_128 => FloatingTypeInfo 16 16 128 2 112 (u64 (-16381)) 16384
  end.

(** ** Environments *)

Inductive endianness_t := ENV_BIG_ENDIAN | ENV_LITTLE_ENDIAN.

Inductive type_function :=
| f_get_signed_int_type | f_get_unsigned_int_type
| f_get_signed_long_int_type | f_get_unsigned_long_int_type
| f_get_signed_char_type | f_get_unsigned_char_type
| f_bgq_get_pointer_to_char.

Inductive sizeof_function := generic_system_v_sizeof.

Inductive builtins_function :=
| gcc_builtins_i386 | gcc_builtins_x86_64 | gcc_builtins_arm | gcc_builtins_arm64.

Definition MAX_DIFFERENT_FLOATS : nat := 8.

Record type_environment := TypeEnvironment {
  environ_id : string; environ_name : string; endianness : endianness_t;
  sizeof_bool : Z; alignof_bool : Z;
  int_type_of_wchar_t : option type_function; sizeof_wchar_t : Z; alignof_wchar_t : Z;
  sizeof_unsigned_short : Z; alignof_unsigned_short : Z;
  sizeof_signed_short : Z; alignof_signed_short : Z;
  sizeof_signed_int : Z; alignof_signed_int : Z;
  sizeof_unsigned_int : Z; alignof_unsigned_int : Z;
  sizeof_signed_long : Z; alignof_signed_long : Z;
  sizeof_unsigned_long : Z; alignof_unsigned_long : Z;
  sizeof_signed_long_long : Z; alignof_signed_long_long : Z;
  sizeof_unsigned_long_long : Z; alignof_unsigned_long_long : Z;
  num_float_types : Z; all_floats : list (option floating_global);
  float_info : option floating_global; double_info : option floating_global;
  long_double_info : option floating_global; float16_info : option floating_global;
  float128_info : option floating_global;
  sizeof_pointer : Z; alignof_pointer : Z;
  sizeof_function_pointer : Z; alignof_function_pointer : Z;
  sizeof_pointer_to_data_member : Z; alignof_pointer_to_data_member : Z;
  sizeof_pointer_to_member_function : Z; alignof_pointer_to_member_function : Z;
  compute_sizeof : option sizeof_function;
  type_of_sizeof : option type_function; type_of_ptrdiff_t : option type_function;
  char_type : option type_function;
  sizeof_builtin_va_list : Z; alignof_builtin_va_list : Z;
  builtin_va_list_type : option type_function;
  gcc_target_specific_builtins : option builtins_function }.

(** A static object starts with every member zero; [ENV_BIG_ENDIAN] is 0. *)
Definition zero_environment : type_environment :=
  TypeEnvironment "" "" ENV_BIG_ENDIAN 0 0 None 0 0 0 0 0 0 0 0 0 0 0 0 0 0 0 0 0 0
    0 (replicate MAX_DIFFERENT_FLOATS None) None None None None None
    0 0 0 0 0 0 0 0 None None None None 0 0 None None.

Inductive float_slot := FloatInfo | DoubleInfo | LongDoubleInfo | Float128Info.

(** The macro [DEFINE_FLOAT_TYPE]. *)
Definition define_float_type (slot : float_slot) (value : floating_global)
    (e : type_environment) : res type_environment :=
  if negb ((0 <=? num_float_types e) && (num_float_types e <? Z.of_nat MAX_DIFFERENT_FLOATS))
  then Err Undef else
  Ret {|
    environ_id := environ_id e; environ_name := environ_name e; endianness := endianness e;
    sizeof_bool := sizeof_bool e; alignof_bool := alignof_bool e;
    int_type_of_wchar_t := int_type_of_wchar_t e; sizeof_wchar_t := sizeof_wchar_t e;
    alignof_wchar_t := alignof_wchar_t e; sizeof_unsigned_short := sizeof_unsigned_short e;
    alignof_unsigned_short := alignof_unsigned_short e;
    sizeof_signed_short := sizeof_signed_short e;
    alignof_signed_short := alignof_signed_short e; sizeof_signed_int := sizeof_signed_int e;
    alignof_signed_int := alignof_signed_int e; sizeof_unsigned_int := sizeof_unsigned_int e;
    alignof_unsigned_int := alignof_unsigned_int e; sizeof_signed_long := sizeof_signed_long e;
    alignof_signed_long := alignof_signed_long e;
    sizeof_unsigned_long := sizeof_unsigned_long e;
    alignof_unsigned_long := alignof_unsigned_long e;
    sizeof_signed_long_long := sizeof_signed_long_long e;
    alignof_signed_long_long := alignof_signed_long_long e;
    sizeof_unsigned_long_long := sizeof_unsigned_long_long e;
    alignof_unsigned_long_long := alignof_unsigned_long_long e;
    num_float_types := num_float_types e + 1;
    all_floats := <[Z.to_nat (num_float_types e) := Some value]> (all_floats e);
    float_info := match slot with FloatInfo => Some value | _ => float_info e end;
    double_info := match slot with DoubleInfo => Some value | _ => double_info e end;
    long_double_info := match slot with LongDoubleInfo => Some value | _ => long_double_info e end;
    float16_info := float16_info e;
    float128_info := match slot with Float128Info => Some value | _ => float128_info e end;
    sizeof_pointer := sizeof_pointer e; alignof_pointer := alignof_pointer e;
    sizeof_function_pointer := sizeof_function_pointer e;
    alignof_function_pointer := alignof_function_pointer e;
    sizeof_pointer_to_data_member := sizeof_pointer_to_data_member e;
    alignof_pointer_to_data_member := alignof_pointer_to_data_member e;
    sizeof_pointer_to_member_function := sizeof_pointer_to_member_function e;
    alignof_pointer_to_member_function := alignof_pointer_to_member_function e;
    compute_sizeof := compute_sizeof e; type_of_sizeof := type_of_sizeof e;
    type_of_ptrdiff_t := type_of_ptrdiff_t e; char_type := char_type e;
    sizeof_builtin_va_list := sizeof_builtin_va_list e;
    alignof_builtin_va_list := alignof_builtin_va_list e;
    builtin_va_list_type := builtin_va_list_type e;
    gcc_target_specific_builtins := gcc_target_specific_builtins e
  |}.

(** ** The sections of [init_type_environments] *)

Definition init_linux_ia32 (have_quadmath : bool) (e : type_environment) : res type_environment :=
  let e := {|
    environ_id := "linux-i386"%string; environ_name := "Linux IA32"%string;
    endianness := ENV_LITTLE_ENDIAN; sizeof_bool := 1; alignof_bool := 1;
    int_type_of_wchar_t := Some f_get_signed_int_type; sizeof_wchar_t := 4; alignof_wchar_t := 4;
    sizeof_unsigned_short := 2; alignof_unsigned_short := 2; sizeof_signed_short := 2;
    alignof_signed_short := 2; sizeof_signed_int := 4; alignof_signed_int := 4;
    sizeof_unsigned_int := 4; alignof_unsigned_int := 4; sizeof_signed_long := 4;
    alignof_signed_long := 4; sizeof_unsigned_long := 4; alignof_unsigned_long := 4;
    sizeof_signed_long_long := 8; alignof_signed_long_long := 4; sizeof_unsigned_long_long := 8;
    alignof_unsigned_long_long := 4; num_float_types := num_float_types e;
    all_floats := all_floats e; float_info := float_info e; double_info := double_info e;
    long_double_info := long_double_info e; float16_info := float16_info e;
    float128_info := float128_info e; sizeof_pointer := 4; alignof_pointer := 4;
    sizeof_function_pointer := 4; alignof_function_pointer := 4;
    sizeof_pointer_to_data_member := 4; alignof_pointer_to_data_member := 4;
    sizeof_pointer_to_member_function := 8; alignof_pointer_to_member_function := 4;
    compute_sizeof := Some generic_system_v_sizeof;
    type_of_sizeof := Some f_get_unsigned_int_type; type_of_ptrdiff_t := Some f_get_signed_int_type;
    char_type := Some f_get_signed_char_type; sizeof_builtin_va_list := 4;
    alignof_builtin_va_list := 4; builtin_va_list_type := builtin_va_list_type e;
    gcc_target_specific_builtins := Some gcc_builtins_i386
  |} in
  e ← define_float_type FloatInfo binary_float_32 e;
  e ← define_float_type DoubleInfo binary_float_64 e;
  e ← define_float_type LongDoubleInfo binary_float_80_intel e;
  if have_quadmath then define_float_type Float128Info binary_float_128 e else Ret e.

Definition init_linux_amd64 (have_quadmath : bool) (e : type_environment) : res type_environment :=
  let e := {|
    environ_id := "linux-x86_64"%string; environ_name := "Linux AMD64/EMT64"%string;
    endianness := ENV_LITTLE_ENDIAN; sizeof_bool := 1; alignof_bool := 1;
    int_type_of_wchar_t := Some f_get_signed_int_type; sizeof_wchar_t := 4; alignof_wchar_t := 4;
    sizeof_unsigned_short := 2; alignof_unsigned_short := 2; sizeof_signed_short := 2;
    alignof_signed_short := 2; sizeof_signed_int := 4; alignof_signed_int := 4;
    sizeof_unsigned_int := 4; alignof_unsigned_int := 4; sizeof_signed_long := 8;
    alignof_signed_long := 8; sizeof_unsigned_long := 8; alignof_unsigned_long := 8;
    sizeof_signed_long_long := 8; alignof_signed_long_long := 8; sizeof_unsigned_long_long := 8;
    alignof_unsigned_long_long := 8; num_float_types := num_float_types e;
    all_floats := all_floats e; float_info := float_info e; double_info := double_info e;
    long_double_info := long_double_info e; float16_info := float16_info e;
    float128_info := float128_info e; sizeof_pointer := 8; alignof_pointer := 8;
    sizeof_function_pointer := 8; alignof_function_pointer := 8;
    sizeof_pointer_to_data_member := 8; alignof_pointer_to_data_member := 8;
    sizeof_pointer_to_member_function := 16; alignof_pointer_to_member_function := 8;
    compute_sizeof := Some generic_system_v_sizeof;
    type_of_sizeof := Some f_get_unsigned_long_int_type;
    type_of_ptrdiff_t := Some f_get_signed_long_int_type;
    char_type := Some f_get_unsigned_char_type; sizeof_builtin_va_list := 24;
    alignof_builtin_va_list := 8; builtin_va_list_type := builtin_va_list_type e;
    gcc_target_specific_builtins := Some gcc_builtins_x86_64
  |} in
  e ← define_float_type FloatInfo binary_float_32 e;
  e ← define_float_type DoubleInfo binary_float_64 e;
  e ← define_float_type LongDoubleInfo binary_float_80_intel e;
  if have_quadmath then define_float_type Float128Info binary_float_128 e else Ret e.

Definition init_linux_ia64 (have_quadmath : bool) (e : type_environment) : res type_environment :=
  let e := {|
    environ_id := "linux-ia64"%string; environ_name := "Linux Itanium"%string;
    endianness := ENV_LITTLE_ENDIAN; sizeof_bool := 1; alignof_bool := 1;
    int_type_of_wchar_t := Some f_get_signed_int_type; sizeof_wchar_t := 4; alignof_wchar_t := 4;
    sizeof_unsigned_short := 2; alignof_unsigned_short := 2; sizeof_signed_short := 2;
    alignof_signed_short := 2; sizeof_signed_int := 4; alignof_signed_int := 4;
    sizeof_unsigned_int := 4; alignof_unsigned_int := 4; sizeof_signed_long := 8;
    alignof_signed_long := 8; sizeof_unsigned_long := 8; alignof_unsigned_long := 8;
    sizeof_signed_long_long := 8; alignof_signed_long_long := 8; sizeof_unsigned_long_long := 8;
    alignof_unsigned_long_long := 8; num_float_types := num_float_types e;
    all_floats := all_floats e; float_info := float_info e; double_info := double_info e;
    long_double_info := long_double_info e; float16_info := float16_info e;
    float128_info := float128_info e; sizeof_pointer := 8; alignof_pointer := 8;
    sizeof_function_pointer := 8; alignof_function_pointer := 8;
    sizeof_pointer_to_data_member := 8; alignof_pointer_to_data_member := 8;
    sizeof_pointer_to_member_function := 16; alignof_pointer_to_member_function := 8;
    compute_sizeof := Some generic_system_v_sizeof;
    type_of_sizeof := Some f_get_unsigned_long_int_type;
    type_of_ptrdiff_t := Some f_get_signed_long_int_type; char_type := Some f_get_signed_char_type;
    sizeof_builtin_va_list := 8; alignof_builtin_va_list := 8;
    builtin_va_list_type := builtin_va_list_type e;
    gcc_target_specific_builtins := gcc_target_specific_builtins e
  |} in
  e ← define_float_type FloatInfo binary_float_32 e;
  e ← define_float_type DoubleInfo binary_float_64 e;
  e ← define_float_type LongDoubleInfo binary_float_80_intel e;
  if have_quadmath then define_float_type Float128Info binary_float_128 e else Ret e.

Definition init_linux_ppc32 (e : type_environment) : res type_environment :=
  let e := {|
    environ_id := "linux-ppc32"%string;
    environ_name := "Linux PowerPC 32 (ELFv1 Big Endian)"%string; endianness := endianness e;
    sizeof_bool := 1; alignof_bool := 1; int_type_of_wchar_t := Some f_get_signed_long_int_type;
    sizeof_wchar_t := 4; alignof_wchar_t := 4; sizeof_unsigned_short := 2;
    alignof_unsigned_short := 2; sizeof_signed_short := 2; alignof_signed_short := 2;
    sizeof_signed_int := 4; alignof_signed_int := 4; sizeof_unsigned_int := 4;
    alignof_unsigned_int := 4; sizeof_signed_long := 4; alignof_signed_long := 4;
    sizeof_unsigned_long := 4; alignof_unsigned_long := 4; sizeof_signed_long_long := 8;
    alignof_signed_long_long := 8; sizeof_unsigned_long_long := 8;
    alignof_unsigned_long_long := 8; num_float_types := num_float_types e;
    all_floats := all_floats e; float_info := float_info e; double_info := double_info e;
    long_double_info := long_double_info e; float16_info := float16_info e;
    float128_info := float128_info e; sizeof_pointer := 4; alignof_pointer := 4;
    sizeof_function_pointer := 4; alignof_function_pointer := 4;
    sizeof_pointer_to_data_member := 4; alignof_pointer_to_data_member := 4;
    sizeof_pointer_to_member_function := 8; alignof_pointer_to_member_function := 4;
    compute_sizeof := Some generic_system_v_sizeof;
    type_of_sizeof := Some f_get_unsigned_int_type; type_of_ptrdiff_t := Some f_get_signed_int_type;
    char_type := Some f_get_unsigned_char_type; sizeof_builtin_va_list := 12;
    alignof_builtin_va_list := 4; builtin_va_list_type := builtin_va_list_type e;
    gcc_target_specific_builtins := gcc_target_specific_builtins e
  |} in
  e ← define_float_type FloatInfo binary_float_32 e;
  e ← define_float_type DoubleInfo binary_float_64 e;
  define_float_type LongDoubleInfo binary_float_2x64 e.

Definition init_linux_ppc64 (e : type_environment) : res type_environment :=
  let e := {|
    environ_id := "linux-ppc64"%string;
    environ_name := "Linux PowerPC 64 (ELFv1 Big Endian)"%string; endianness := ENV_BIG_ENDIAN;
    sizeof_bool := 1; alignof_bool := 1; int_type_of_wchar_t := Some f_get_signed_int_type;
    sizeof_wchar_t := 4; alignof_wchar_t := 4; sizeof_unsigned_short := 2;
    alignof_unsigned_short := 2; sizeof_signed_short := 2; alignof_signed_short := 2;
    sizeof_signed_int := 4; alignof_signed_int := 4; sizeof_unsigned_int := 4;
    alignof_unsigned_int := 4; sizeof_signed_long := 8; alignof_signed_long := 8;
    sizeof_unsigned_long := 8; alignof_unsigned_long := 8; sizeof_signed_long_long := 8;
    alignof_signed_long_long := 8; sizeof_unsigned_long_long := 8;
    alignof_unsigned_long_long := 8; num_float_types := num_float_types e;
    all_floats := all_floats e; float_info := float_info e; double_info := double_info e;
    long_double_info := long_double_info e; float16_info := float16_info e;
    float128_info := float128_info e; sizeof_pointer := 8; alignof_pointer := 8;
    sizeof_function_pointer := 8; alignof_function_pointer := 8;
    sizeof_pointer_to_data_member := 8; alignof_pointer_to_data_member := 8;
    sizeof_pointer_to_member_function := 16; alignof_pointer_to_member_function := 8;
    compute_sizeof := Some generic_system_v_sizeof;
    type_of_sizeof := Some f_get_unsigned_long_int_type;
    type_of_ptrdiff_t := Some f_get_signed_long_int_type;
    char_type := Some f_get_unsigned_char_type; sizeof_builtin_va_list := 8;
    alignof_builtin_va_list := 8; builtin_va_list_type := builtin_va_list_type e;
    gcc_target_specific_builtins := gcc_target_specific_builtins e
  |} in
  e ← define_float_type FloatInfo binary_float_32 e;
  e ← define_float_type DoubleInfo binary_float_64 e;
  define_float_type LongDoubleInfo binary_float_2x64 e.

Definition init_linux_bgq_ppc64 (ppc64 : type_environment) : type_environment :=
  {|
    environ_id := "linux-bgq-ppc64"%string;
    environ_name := "BlueGene/Q PowerPC 64 (ELFv1 Big Endian)"%string;
    endianness := endianness ppc64; sizeof_bool := sizeof_bool ppc64;
    alignof_bool := alignof_bool ppc64; int_type_of_wchar_t := int_type_of_wchar_t ppc64;
    sizeof_wchar_t := sizeof_wchar_t ppc64; alignof_wchar_t := alignof_wchar_t ppc64;
    sizeof_unsigned_short := sizeof_unsigned_short ppc64;
    alignof_unsigned_short := alignof_unsigned_short ppc64;
    sizeof_signed_short := sizeof_signed_short ppc64;
    alignof_signed_short := alignof_signed_short ppc64;
    sizeof_signed_int := sizeof_signed_int ppc64;
    alignof_signed_int := alignof_signed_int ppc64;
    sizeof_unsigned_int := sizeof_unsigned_int ppc64;
    alignof_unsigned_int := alignof_unsigned_int ppc64;
    sizeof_signed_long := sizeof_signed_long ppc64;
    alignof_signed_long := alignof_signed_long ppc64;
    sizeof_unsigned_long := sizeof_unsigned_long ppc64;
    alignof_unsigned_long := alignof_unsigned_long ppc64;
    sizeof_signed_long_long := sizeof_signed_long_long ppc64;
    alignof_signed_long_long := alignof_signed_long_long ppc64;
    sizeof_unsigned_long_long := sizeof_unsigned_long_long ppc64;
    alignof_unsigned_long_long := alignof_unsigned_long_long ppc64;
    num_float_types := num_float_types ppc64; all_floats := all_floats ppc64;
    float_info := float_info ppc64; double_info := double_info ppc64;
    long_double_info := long_double_info ppc64; float16_info := float16_info ppc64;
    float128_info := float128_info ppc64; sizeof_pointer := sizeof_pointer ppc64;
    alignof_pointer := alignof_pointer ppc64;
    sizeof_function_pointer := sizeof_function_pointer ppc64;
    alignof_function_pointer := alignof_function_pointer ppc64;
    sizeof_pointer_to_data_member := sizeof_pointer_to_data_member ppc64;
    alignof_pointer_to_data_member := alignof_pointer_to_data_member ppc64;
    sizeof_pointer_to_member_function := sizeof_pointer_to_member_function ppc64;
    alignof_pointer_to_member_function := alignof_pointer_to_member_function ppc64;
    compute_sizeof := compute_sizeof ppc64; type_of_sizeof := type_of_sizeof ppc64;
    type_of_ptrdiff_t := type_of_ptrdiff_t ppc64; char_type := char_type ppc64;
    sizeof_builtin_va_list := sizeof_builtin_va_list ppc64;
    alignof_builtin_va_list := alignof_builtin_va_list ppc64;
    builtin_va_list_type := Some f_bgq_get_pointer_to_char;
    gcc_target_specific_builtins := gcc_target_specific_builtins ppc64
  |}.

Definition init_linux_ppc64_le (e : type_environment) : res type_environment :=
  let e := {|
    environ_id := "linux-ppc64-le"%string;
    environ_name := "Linux PowerPC 64 (ELFv2 Little Endian)"%string;
    endianness := ENV_LITTLE_ENDIAN; sizeof_bool := 1; alignof_bool := 1;
    int_type_of_wchar_t := Some f_get_signed_int_type; sizeof_wchar_t := 4; alignof_wchar_t := 4;
    sizeof_unsigned_short := 2; alignof_unsigned_short := 2; sizeof_signed_short := 2;
    alignof_signed_short := 2; sizeof_signed_int := 4; alignof_signed_int := 4;
    sizeof_unsigned_int := 4; alignof_unsigned_int := 4; sizeof_signed_long := 8;
    alignof_signed_long := 8; sizeof_unsigned_long := 8; alignof_unsigned_long := 8;
    sizeof_signed_long_long := 8; alignof_signed_long_long := 8; sizeof_unsigned_long_long := 8;
    alignof_unsigned_long_long := 8; num_float_types := num_float_types e;
    all_floats := all_floats e; float_info := float_info e; double_info := double_info e;
    long_double_info := long_double_info e; float16_info := float16_info e;
    float128_info := float128_info e; sizeof_pointer := 8; alignof_pointer := 8;
    sizeof_function_pointer := 8; alignof_function_pointer := 8;
    sizeof_pointer_to_data_member := 8; alignof_pointer_to_data_member := 8;
    sizeof_pointer_to_member_function := 16; alignof_pointer_to_member_function := 8;
    compute_sizeof := Some generic_system_v_sizeof;
    type_of_sizeof := Some f_get_unsigned_long_int_type;
    type_of_ptrdiff_t := Some f_get_signed_long_int_type;
    char_type := Some f_get_unsigned_char_type; sizeof_builtin_va_list := 8;
    alignof_builtin_va_list := 8; builtin_va_list_type := builtin_va_list_type e;
    gcc_target_specific_builtins := gcc_target_specific_builtins e
  |} in
  e ← define_float_type FloatInfo binary_float_32 e;
  e ← define_float_type DoubleInfo binary_float_64 e;
  define_float_type LongDoubleInfo binary_float_2x64 e.

Definition init_linux_spu (e : type_environment) : res type_environment :=
  let e := {|
    environ_id := "linux-spu"%string; environ_name := "Linux SPU"%string;
    endianness := ENV_BIG_ENDIAN; sizeof_bool := 1; alignof_bool := 1;
    int_type_of_wchar_t := Some f_get_signed_int_type; sizeof_wchar_t := 4; alignof_wchar_t := 4;
    sizeof_unsigned_short := 2; alignof_unsigned_short := 2; sizeof_signed_short := 2;
    alignof_signed_short := 2; sizeof_signed_int := 4; alignof_signed_int := 4;
    sizeof_unsigned_int := 4; alignof_unsigned_int := 4; sizeof_signed_long := 4;
    alignof_signed_long := 4; sizeof_unsigned_long := 4; alignof_unsigned_long := 4;
    sizeof_signed_long_long := 8; alignof_signed_long_long := 8; sizeof_unsigned_long_long := 8;
    alignof_unsigned_long_long := 8; num_float_types := num_float_types e;
    all_floats := all_floats e; float_info := float_info e; double_info := double_info e;
    long_double_info := long_double_info e; float16_info := float16_info e;
    float128_info := float128_info e; sizeof_pointer := 4; alignof_pointer := 4;
    sizeof_function_pointer := 4; alignof_function_pointer := 4;
    sizeof_pointer_to_data_member := 4; alignof_pointer_to_data_member := 4;
    sizeof_pointer_to_member_function := 8; alignof_pointer_to_member_function := 4;
    compute_sizeof := Some generic_system_v_sizeof;
    type_of_sizeof := Some f_get_unsigned_int_type; type_of_ptrdiff_t := Some f_get_signed_int_type;
    char_type := Some f_get_unsigned_char_type;
    sizeof_builtin_va_list := sizeof_builtin_va_list e;
    alignof_builtin_va_list := alignof_builtin_va_list e;
    builtin_va_list_type := builtin_va_list_type e;
    gcc_target_specific_builtins := gcc_target_specific_builtins e
  |} in
  e ← define_float_type FloatInfo binary_float_32 e;
  e ← define_float_type DoubleInfo binary_float_64 e;
  define_float_type LongDoubleInfo binary_float_128 e.

Definition init_solaris_sparcv9 (e : type_environment) : res type_environment :=
  let e := {|
    environ_id := "solaris-sparcv9"%string; environ_name := "Solaris SPARCv9"%string;
    endianness := ENV_BIG_ENDIAN; sizeof_bool := 1; alignof_bool := 1;
    int_type_of_wchar_t := Some f_get_signed_int_type; sizeof_wchar_t := 4; alignof_wchar_t := 4;
    sizeof_unsigned_short := 2; alignof_unsigned_short := 2; sizeof_signed_short := 2;
    alignof_signed_short := 2; sizeof_signed_int := 4; alignof_signed_int := 4;
    sizeof_unsigned_int := 4; alignof_unsigned_int := 4; sizeof_signed_long := 8;
    alignof_signed_long := 8; sizeof_unsigned_long := 8; alignof_unsigned_long := 8;
    sizeof_signed_long_long := 8; alignof_signed_long_long := 8; sizeof_unsigned_long_long := 8;
    alignof_unsigned_long_long := 8; num_float_types := num_float_types e;
    all_floats := all_floats e; float_info := float_info e; double_info := double_info e;
    long_double_info := long_double_info e; float16_info := float16_info e;
    float128_info := float128_info e; sizeof_pointer := 8; alignof_pointer := 8;
    sizeof_function_pointer := 8; alignof_function_pointer := 8;
    sizeof_pointer_to_data_member := 8; alignof_pointer_to_data_member := 8;
    sizeof_pointer_to_member_function := 16; alignof_pointer_to_member_function := 8;
    compute_sizeof := Some generic_system_v_sizeof;
    type_of_sizeof := Some f_get_unsigned_long_int_type;
    type_of_ptrdiff_t := Some f_get_signed_long_int_type; char_type := Some f_get_signed_char_type;
    sizeof_builtin_va_list := 8; alignof_builtin_va_list := 8;
    builtin_va_list_type := builtin_va_list_type e;
    gcc_target_specific_builtins := gcc_target_specific_builtins e
  |} in
  e ← define_float_type FloatInfo binary_float_32 e;
  e ← define_float_type DoubleInfo binary_float_64 e;
  define_float_type LongDoubleInfo binary_float_2x64 e.

Definition init_linux_arm_eabi (e : type_environment) : res type_environment :=
  let e := {|
    environ_id := "linux-arm"%string; environ_name := "Linux ARM (GNUEABI)"%string;
    endianness := ENV_LITTLE_ENDIAN; sizeof_bool := 1; alignof_bool := 1;
    int_type_of_wchar_t := Some f_get_unsigned_int_type; sizeof_wchar_t := 4;
    alignof_wchar_t := 4; sizeof_unsigned_short := 2; alignof_unsigned_short := 2;
    sizeof_signed_short := 2; alignof_signed_short := 2; sizeof_signed_int := 4;
    alignof_signed_int := 4; sizeof_unsigned_int := 4; alignof_unsigned_int := 4;
    sizeof_signed_long := 4; alignof_signed_long := 4; sizeof_unsigned_long := 4;
    alignof_unsigned_long := 4; sizeof_signed_long_long := 8; alignof_signed_long_long := 8;
    sizeof_unsigned_long_long := 8; alignof_unsigned_long_long := 8;
    num_float_types := num_float_types e; all_floats := all_floats e;
    float_info := float_info e; double_info := double_info e;
    long_double_info := long_double_info e; float16_info := float16_info e;
    float128_info := float128_info e; sizeof_pointer := 4; alignof_pointer := 4;
    sizeof_function_pointer := 4; alignof_function_pointer := 4;
    sizeof_pointer_to_data_member := 4; alignof_pointer_to_data_member := 4;
    sizeof_pointer_to_member_function := 8; alignof_pointer_to_member_function := 4;
    compute_sizeof := Some generic_system_v_sizeof;
    type_of_sizeof := Some f_get_unsigned_int_type; type_of_ptrdiff_t := Some f_get_signed_int_type;
    char_type := Some f_get_unsigned_char_type; sizeof_builtin_va_list := 4;
    alignof_builtin_va_list := 4; builtin_va_list_type := builtin_va_list_type e;
    gcc_target_specific_builtins := Some gcc_builtins_arm
  |} in
  e ← define_float_type FloatInfo binary_float_32 e;
  e ← define_float_type DoubleInfo binary_float_64 e;
  define_float_type LongDoubleInfo binary_float_64_bis e.

Definition init_linux_arm64 (e : type_environment) : res type_environment :=
  let e := {|
    environ_id := "linux-arm64"%string; environ_name := "Linux ARM 64"%string;
    endianness := ENV_LITTLE_ENDIAN; sizeof_bool := 1; alignof_bool := 1;
    int_type_of_wchar_t := Some f_get_unsigned_int_type; sizeof_wchar_t := 4;
    alignof_wchar_t := 4; sizeof_unsigned_short := 2; alignof_unsigned_short := 2;
    sizeof_signed_short := 2; alignof_signed_short := 2; sizeof_signed_int := 4;
    alignof_signed_int := 4; sizeof_unsigned_int := 4; alignof_unsigned_int := 4;
    sizeof_signed_long := 8; alignof_signed_long := 8; sizeof_unsigned_long := 8;
    alignof_unsigned_long := 8; sizeof_signed_long_long := 8; alignof_signed_long_long := 8;
    sizeof_unsigned_long_long := 8; alignof_unsigned_long_long := 8;
    num_float_types := num_float_types e; all_floats := all_floats e;
    float_info := float_info e; double_info := double_info e;
    long_double_info := long_double_info e; float16_info := float16_info e;
    float128_info := float128_info e; sizeof_pointer := 8; alignof_pointer := 8;
    sizeof_function_pointer := 8; alignof_function_pointer := 8;
    sizeof_pointer_to_data_member := 8; alignof_pointer_to_data_member := 8;
    sizeof_pointer_to_member_function := 8; alignof_pointer_to_member_function := 8;
    compute_sizeof := Some generic_system_v_sizeof;
    type_of_sizeof := Some f_get_unsigned_long_int_type;
    type_of_ptrdiff_t := Some f_get_signed_long_int_type;
    char_type := Some f_get_unsigned_char_type; sizeof_builtin_va_list := 32;
    alignof_builtin_va_list := 8; builtin_va_list_type := builtin_va_list_type e;
    gcc_target_specific_builtins := Some gcc_builtins_arm64
  |} in
  e ← define_float_type FloatInfo binary_float_32 e;
  e ← define_float_type DoubleInfo binary_float_64 e;
  define_float_type LongDoubleInfo binary_float_128 e.
(** ** Initialisation *)

Inductive arch :=
| linux_ia32 | linux_amd64 | linux_ia64 | linux_ppc32 | linux_ppc64 | linux_ppc64_le
| linux_bgq_ppc64 | linux_spu | linux_arm_eabi | linux_arm64 | solaris_sparcv9.

#[export] Instance arch_eq_dec : EqDecision arch.
Proof. solve_decision. Defined.

(** The static globals, and the flag [inited]. *)
Record globals := Globals { inited : bool; environs : arch → type_environment }.

Definition initial_globals : globals := Globals false (λ _, zero_environment).

Definition on_environ (k : arch) (f : type_environment → res type_environment)
    (g : arch → type_environment) : res (arch → type_environment) :=
  e ← f (g k);
  Ret (<[k := e]> g).

Definition set_endianness (b : endianness_t) (e : type_environment) : type_environment :=
  {|
    environ_id := environ_id e; environ_name := environ_name e; endianness := b;
    sizeof_bool := sizeof_bool e; alignof_bool := alignof_bool e;
    int_type_of_wchar_t := int_type_of_wchar_t e; sizeof_wchar_t := sizeof_wchar_t e;
    alignof_wchar_t := alignof_wchar_t e; sizeof_unsigned_short := sizeof_unsigned_short e;
    alignof_unsigned_short := alignof_unsigned_short e;
    sizeof_signed_short := sizeof_signed_short e;
    alignof_signed_short := alignof_signed_short e; sizeof_signed_int := sizeof_signed_int e;
    alignof_signed_int := alignof_signed_int e; sizeof_unsigned_int := sizeof_unsigned_int e;
    alignof_unsigned_int := alignof_unsigned_int e; sizeof_signed_long := sizeof_signed_long e;
    alignof_signed_long := alignof_signed_long e;
    sizeof_unsigned_long := sizeof_unsigned_long e;
    alignof_unsigned_long := alignof_unsigned_long e;
    sizeof_signed_long_long := sizeof_signed_long_long e;
    alignof_signed_long_long := alignof_signed_long_long e;
    sizeof_unsigned_long_long := sizeof_unsigned_long_long e;
    alignof_unsigned_long_long := alignof_unsigned_long_long e;
    num_float_types := num_float_types e; all_floats := all_floats e;
    float_info := float_info e; double_info := double_info e;
    long_double_info := long_double_info e; float16_info := float16_info e;
    float128_info := float128_info e; sizeof_pointer := sizeof_pointer e;
    alignof_pointer := alignof_pointer e; sizeof_function_pointer := sizeof_function_pointer e;
    alignof_function_pointer := alignof_function_pointer e;
    sizeof_pointer_to_data_member := sizeof_pointer_to_data_member e;
    alignof_pointer_to_data_member := alignof_pointer_to_data_member e;
    sizeof_pointer_to_member_function := sizeof_pointer_to_member_function e;
    alignof_pointer_to_member_function := alignof_pointer_to_member_function e;
    compute_sizeof := compute_sizeof e; type_of_sizeof := type_of_sizeof e;
    type_of_ptrdiff_t := type_of_ptrdiff_t e; char_type := char_type e;
    sizeof_builtin_va_list := sizeof_builtin_va_list e;
    alignof_builtin_va_list := alignof_builtin_va_list e;
    builtin_va_list_type := builtin_va_list_type e;
    gcc_target_specific_builtins := gcc_target_specific_builtins e
  |}.

(** The section of the 32-bit PowerPC assigns [linux_ia64.endianness]. *)
Definition init_type_environments (have_quadmath : bool) (s : globals) : res globals :=
  if inited s then Ret s else
  let g := environs s in
  g ← on_environ linux_ia32 (init_linux_ia32 have_quadmath) g;
  g ← on_environ linux_amd64 (init_linux_amd64 have_quadmath) g;
  g ← on_environ linux_ia64 (init_linux_ia64 have_quadmath) g;
  g ← on_environ linux_ia64 (λ e, Ret (set_endianness ENV_BIG_ENDIAN e)) g;
  g ← on_environ linux_ppc32 init_linux_ppc32 g;
  g ← on_environ linux_ppc64 init_linux_ppc64 g;
  g ← on_environ linux_bgq_ppc64 (λ _, Ret (init_linux_bgq_ppc64 (g linux_ppc64))) g;
  g ← on_environ linux_ppc64_le init_linux_ppc64_le g;
  g ← on_environ linux_spu init_linux_spu g;
  g ← on_environ solaris_sparcv9 init_solaris_sparcv9 g;
  g ← on_environ linux_arm_eabi init_linux_arm_eabi g;
  g ← on_environ linux_arm64 init_linux_arm64 g;
  Ret (Globals true g).

Definition type_environment_list : list arch :=
  [linux_ia32; linux_ia64; linux_ppc32; linux_ppc64; linux_bgq_ppc64; linux_ppc64_le;
   linux_amd64; linux_spu; linux_arm_eabi; linux_arm64; solaris_sparcv9].

Fixpoint find_environment (s : globals) (env_id : string) (l : list arch) : option arch :=
  match l with
  | [] => None
  | k :: l' =>
      if decide (env_id = environ_id (environs s k)) then Some k
      else find_environment s env_id l'
  end.

Definition get_environment (s : globals) (env_id : string) : option arch :=
  find_environment s env_id type_environment_list.

(** [config_set_environment] and the option [--env]: an unknown name keeps the
    environment that was chosen before. *)
Definition config_set_environment (s : globals) (value : string) (current : option arch) :
    option arch :=
  match get_environment s value with
  | Some chosen_env => Some chosen_env
  | None => current
  end.

(** ** Builtin types: [frontend/cxx-typeutils.c]

    Each getter creates its type once, with the size and alignment of the
    environment in use at its first call; the model gives the type that this
    call creates. *)

Inductive builtin_kind := BT_CHAR | BT_CHAR16_T | BT_CHAR32_T | BT_WCHAR | BT_BOOL | BT_INT | BT_POINTER.

(** [is_long] is 1 for [long], 2 for [long long] and 3 for [__int128]. *)
Record builtin_type := BuiltinType {
  builtin : builtin_kind; is_signed : bool; is_unsigned : bool; is_short : bool;
  is_long : Z; bt_size : Z; bt_alignment : Z }.

Definition get_char16_t_type : builtin_type :=
  BuiltinType BT_CHAR16_T false false false 0 2 2.

Definition get_char32_t_type : builtin_type :=
  BuiltinType BT_CHAR32_T false false false 0 4 4.

Definition get_signed_char_type : builtin_type :=
  BuiltinType BT_CHAR true false false 0 1 1.

Definition get_unsigned_char_type : builtin_type :=
  BuiltinType BT_CHAR false true false 0 1 1.

Definition get_bool_type (e : type_environment) : builtin_type :=
  BuiltinType BT_BOOL false false false 0 (sizeof_bool e) (alignof_bool e).

Definition get_signed_int_type (e : type_environment) : builtin_type :=
  BuiltinType BT_INT true false false 0 (sizeof_signed_int e) (alignof_signed_int e).

Definition get_signed_short_int_type (e : type_environment) : builtin_type :=
  BuiltinType BT_INT true false true 0 (sizeof_signed_short e) (alignof_signed_short e).

Definition get_signed_long_int_type (e : type_environment) : builtin_type :=
  BuiltinType BT_INT true false false 1 (sizeof_signed_long e) (alignof_signed_long e).

Definition get_signed_long_long_int_type (e : type_environment) : builtin_type :=
  BuiltinType BT_INT true false false 2 (sizeof_signed_long_long e) (alignof_signed_long_long e).

Definition get_signed_int128_type : builtin_type :=
  BuiltinType BT_INT true false false 3 16 16.

Definition get_unsigned_int_type (e : type_environment) : builtin_type :=
  BuiltinType BT_INT false true false 0 (sizeof_unsigned_int e) (alignof_unsigned_int e).

Definition get_unsigned_short_int_type (e : type_environment) : builtin_type :=
  BuiltinType BT_INT false true true 0 (sizeof_unsigned_short e) (alignof_unsigned_short e).

Definition get_unsigned_long_int_type (e : type_environment) : builtin_type :=
  BuiltinType BT_INT false true false 1 (sizeof_unsigned_long e) (alignof_unsigned_long e).

Definition get_unsigned_long_long_int_type (e : type_environment) : builtin_type :=
  BuiltinType BT_INT false true false 2 (sizeof_unsigned_long_long e) (alignof_unsigned_long_long e).

Definition get_unsigned_int128_type : builtin_type :=
  BuiltinType BT_INT false true false 3 16 16.

(** The type a pointer gets when it is made; the size of a pointer to an array
    with descriptor is left to the layout. *)
Definition get_pointer_type (is_function_type : bool) (e : type_environment) : builtin_type :=
  if is_function_type
  then BuiltinType BT_POINTER false false false 0
         (sizeof_function_pointer e) (alignof_function_pointer e)
  else BuiltinType BT_POINTER false false false 0 (sizeof_pointer e) (alignof_pointer e).

Definition get_pointer_to_member_type (is_function_type : bool) (e : type_environment) :
    builtin_type :=
  if is_function_type
  then BuiltinType BT_POINTER false false false 0
         (sizeof_pointer_to_member_function e) (alignof_pointer_to_member_function e)
  else BuiltinType BT_POINTER false false false 0
         (sizeof_pointer_to_data_member e) (alignof_pointer_to_data_member e).

Definition bgq_get_pointer_to_char (e : type_environment) : builtin_type :=
  get_pointer_type false e.

Definition call_type_function (e : type_environment) (f : type_function) : builtin_type :=
  match f with
  | f_get_signed_int_type => get_signed_int_type e
  | f_get_unsigned_int_type => get_unsigned_int_type e
  | f_get_signed_long_int_type => get_signed_long_int_type e
  | f_get_unsigned_long_int_type => get_unsigned_long_int_type e
  | f_get_signed_char_type => get_signed_char_type
  | f_get_unsigned_char_type => get_unsigned_char_type
  | f_bgq_get_pointer_to_char => bgq_get_pointer_to_char e
  end.

(** In C [wchar_t] is a typedef of an integer type, in C++ a type of its own. *)
Definition get_wchar_t_type (cxx : bool) (e : type_environment) : res builtin_type :=
  if cxx
  then Ret (BuiltinType BT_WCHAR false false false 0 (sizeof_wchar_t e) (alignof_wchar_t e))
  else f ← get (int_type_of_wchar_t e); Ret (call_type_function e f).

Definition get_size_t_type (disable_sizeof : bool) (e : type_environment) : res builtin_type :=
  if negb disable_sizeof
  then f ← get (type_of_sizeof e); Ret (call_type_function e f)
  else Ret (get_unsigned_int_type e).

Definition get_ptrdiff_t_type (disable_sizeof : bool) (e : type_environment) : res builtin_type :=
  if negb disable_sizeof
  then f ← get (type_of_ptrdiff_t e); Ret (call_type_function e f)
  else Ret (get_signed_int_type e).

(** ** What a target description promises *)

Definition pow2 (z : Z) : bool := (0 <? z) && (z =? 2 ^ Z.log2 z).

(** A size and an alignment the layout can use: the alignment is a power of two
    and the size of an array element is a multiple of it. *)
Definition size_align_ok (size align : Z) : bool :=
  pow2 align && (0 <? size) && (size mod align =? 0).

Definition float_ok (f : option floating_global) : bool :=
  match f with
  | None => false
  | Some f =>
      let i := floating_info f in
      size_align_ok (size_of i) (align_of i) && (bits i <=? 8 * size_of i) && (base i =? 2)
      && (p i + 1 <? bits i)
  end.

Definition sizeof_type_function (e : type_environment) (f : type_function) : Z :=
  bt_size (call_type_function e f).

Definition is_unsigned_function (e : type_environment) (f : type_function) : bool :=
  is_unsigned (call_type_function e f).

Definition sizes_aligned (e : type_environment) : bool :=
  forallb (λ '(s, a), size_align_ok s a)
    [(sizeof_bool e, alignof_bool e);
     (sizeof_wchar_t e, alignof_wchar_t e);
     (sizeof_unsigned_short e, alignof_unsigned_short e);
     (sizeof_signed_short e, alignof_signed_short e);
     (sizeof_signed_int e, alignof_signed_int e);
     (sizeof_unsigned_int e, alignof_unsigned_int e);
     (sizeof_signed_long e, alignof_signed_long e);
     (sizeof_unsigned_long e, alignof_unsigned_long e);
     (sizeof_signed_long_long e, alignof_signed_long_long e);
     (sizeof_unsigned_long_long e, alignof_unsigned_long_long e);
     (sizeof_pointer e, alignof_pointer e);
     (sizeof_function_pointer e, alignof_function_pointer e);
     (sizeof_pointer_to_data_member e, alignof_pointer_to_data_member e);
     (sizeof_pointer_to_member_function e, alignof_pointer_to_member_function e)].

(** The order of the integer types of C: each is at least as wide as the one
    before, and a signed type is as wide as its unsigned type. *)
Definition integers_ordered (e : type_environment) : bool :=
  (sizeof_signed_short e =? sizeof_unsigned_short e)
  && (sizeof_signed_int e =? sizeof_unsigned_int e)
  && (sizeof_signed_long e =? sizeof_unsigned_long e)
  && (sizeof_signed_long_long e =? sizeof_unsigned_long_long e)
  && (2 <=? sizeof_signed_short e)
  && (sizeof_signed_short e <=? sizeof_signed_int e)
  && (sizeof_signed_int e <=? sizeof_signed_long e)
  && (sizeof_signed_long e <=? sizeof_signed_long_long e).

(** [sizeof] gives an unsigned integer as wide as a pointer and [ptrdiff_t] is
    the signed one; a [wchar_t] is as wide as its integer type. *)
Definition index_types_ok (e : type_environment) : bool :=
  match type_of_sizeof e, type_of_ptrdiff_t e, int_type_of_wchar_t e with
  | Some s, Some d, Some w =>
      is_unsigned_function e s && negb (is_unsigned_function e d)
      && (sizeof_type_function e s =? sizeof_pointer e)
      && (sizeof_type_function e d =? sizeof_pointer e)
      && (sizeof_type_function e w =? sizeof_wchar_t e)
  | _, _, _ => false
  end.

(** The first [num_float_types] entries of [all_floats] are filled, and hold
    the floating types of the environment. *)
Definition floats_ok (e : type_environment) : bool :=
  float_ok (float_info e) && float_ok (double_info e) && float_ok (long_double_info e)
  && (3 <=? num_float_types e) && (num_float_types e <=? Z.of_nat MAX_DIFFERENT_FLOATS)
  && forallb float_ok (take (Z.to_nat (num_float_types e)) (all_floats e))
  && forallb (λ f, bool_decide (f ∈ all_floats e))
       [float_info e; double_info e; long_double_info e]
  && match compute_sizeof e with Some _ => true | None => false end.

Definition environment_ok (e : type_environment) : bool :=
  sizes_aligned e && integers_ordered e && index_types_ok e && floats_ok e.

Definition final_globals (have_quadmath : bool) : globals :=
  match init_type_environments have_quadmath initial_globals with
  | Ret s => s
  | Err _ => initial_globals
  end.

Lemma init_final hq : init_type_environments hq initial_globals = Ret (final_globals hq).
Proof.
  unfold final_globals. destruct (init_type_environments hq initial_globals) as [s|e] eqn:He.
  - reflexivity.
  - exfalso. destruct hq; vm_compute in He; discriminate He.
Qed.

Lemma final_inited hq : inited (final_globals hq) = true.
Proof. destruct hq; vm_compute; reflexivity. Qed.

(** The first call of [init_type_environments] fills every environment of
    the list, within the bounds of [all_floats], with a coherent description:
    power-of-two alignments that divide the sizes, ordered integer widths,
    [sizeof] and [ptrdiff_t] types as wide as a pointer, and usable floating
    types. *)
Theorem init_type_environments_ok have_quadmath :
  init_type_environments have_quadmath initial_globals = Ret (final_globals have_quadmath)
  ∧ inited (final_globals have_quadmath) = true
  ∧ Forall (λ k, environment_ok (environs (final_globals have_quadmath) k) = true)
      type_environment_list
  ∧ ∀ k, k ∈ type_environment_list.
Proof.
  split; [|split; [|split]].
  - apply init_final.
  - apply final_inited.
  - destruct have_quadmath; apply (bool_decide_unpack _); vm_compute; exact I.
  - intros k. destruct k; unfold type_environment_list; set_solver.
Qed.

(** Later calls of [init_type_environments] change nothing. *)
Theorem init_type_environments_once hq hq' :
  init_type_environments hq' (final_globals hq) = Ret (final_globals hq).
Proof. unfold init_type_environments. by rewrite final_inited. Qed.

Lemma find_environment_Some s id l k :
  find_environment s id l = Some k → k ∈ l ∧ environ_id (environs s k) = id.
Proof.
  induction l as [|j l IH]; simpl; [done|]. case_decide as Hj.
  - intros [= ->]. split; [left|done].
  - intros [Hk Hid]%IH. split; [by right|done].
Qed.

Lemma find_environment_None s id l :
  find_environment s id l = None → ∀ k, k ∈ l → environ_id (environs s k) ≠ id.
Proof.
  induction l as [|j l IH]; simpl; [by intros _ k ?%not_elem_of_nil|].
  case_decide as Hj; [done|]. intros Hn k [->|Hk]%elem_of_cons; [congruence|auto].
Qed.

(** The names of the environments are distinct, so [get_environment]
    inverts [environ_id] on the list; it fails exactly on the names of no
    environment, and an unknown name leaves the configuration as it was. *)
Theorem get_environment_inverse hq k current id :
  get_environment (final_globals hq) (environ_id (environs (final_globals hq) k)) = Some k
  ∧ config_set_environment (final_globals hq) (environ_id (environs (final_globals hq) k)) current
    = Some k
  ∧ ((∀ j, environ_id (environs (final_globals hq) j) ≠ id) →
       config_set_environment (final_globals hq) id current = current).
Proof.
  assert (get_environment (final_globals hq) (environ_id (environs (final_globals hq) k)) = Some k)
    as Hk by (destruct hq, k; vm_compute; reflexivity).
  split; [done|]. unfold config_set_environment. split; [by rewrite Hk|].
  intros Hid. destruct (get_environment (final_globals hq) id) as [j|] eqn:Hj; [|done].
  apply find_environment_Some in Hj as [_ Hj]. by destruct (Hid j).
Qed.

Lemma get_environment_inverse_witness :
  config_set_environment (final_globals true) "pdp11" (Some linux_amd64) = Some linux_amd64.
Proof.
  apply (get_environment_inverse true linux_arm64 (Some linux_amd64) "pdp11").
  intros j. destruct j; vm_compute; discriminate.
Defined.

(** The section of the 32-bit PowerPC assigns the byte order of the
    Itanium, so after the initialisation [linux_ia64] is big-endian although
    its own section makes it little-endian; [linux_ppc32] is big-endian only
    because a static object starts with zeros. *)
Theorem linux_ia64_left_big_endian hq :
  endianness <$> init_linux_ia64 hq zero_environment = Ret ENV_LITTLE_ENDIAN
  ∧ endianness (environs (final_globals hq) linux_ia64) = ENV_BIG_ENDIAN
  ∧ endianness (environs (final_globals hq) linux_ppc32) = ENV_BIG_ENDIAN
  ∧ (∀ b, endianness <$> init_linux_ppc32 (set_endianness b zero_environment) = Ret b).
Proof.
  split; [destruct hq; vm_compute; reflexivity|].
  split; [destruct hq; vm_compute; reflexivity|].
  split; [destruct hq; vm_compute; reflexivity|].
  intros b. destruct b; vm_compute; reflexivity.
Qed.
