(* ===== verification/FortranDescr.v ===== *)
(** * Fortran array descriptors: [frontend/fortran/fortran03-typeenviron.c]

    The size and alignment of the descriptor an assumed-shape array is passed
    by, for each of the Fortran compilers the driver knows, and their lookup by
    name in [driver/cxx-driver.c].  The properties relate the closed formulas
    to the C structures the comments of the source document, through the
    layout of [SystemV]. *)

From S2P Require Import Prelude TypeEnviron.

Inductive fortran_array_descriptor :=
| gfortran_7_or_less_array_descriptor
| gfortran_8_or_greater_array_descriptor
| ifort_array_descriptor
| xlf_array_descriptor.

#[export] Instance fortran_array_descriptor_eq_dec : EqDecision fortran_array_descriptor.
Proof. solve_decision. Defined.

Section descriptors.
Context (env : type_environment).

(** [type_get_size] and [type_get_alignment] of [type_of_sizeof()] and
    [type_of_ptrdiff_t()]: a null function pointer cannot be called. *)
Definition of_type (f : option type_function) : res (Z * Z) :=
  f ← get f;
  let t := call_type_function env f in
  Ret (bt_size t, bt_alignment t).

Definition gfortran_7_or_less_array_descriptor_info (rank : Z) : res (Z * Z) :=
  let base_addr_size := sizeof_pointer env in
  let base_addr_align := alignof_pointer env in
  '(offset_size, offset_align) ← of_type (type_of_sizeof env);
  '(dtype_size, dtype_align) ← of_type (type_of_ptrdiff_t env);
  let descriptor_dimension_size := u64 (3 * dtype_size) in
  let descriptor_dimension_align := dtype_align in
  let dim_size := u64 (rank * descriptor_dimension_size) in
  let dim_align := descriptor_dimension_align in
  Ret (u64 (base_addr_size + offset_size + dtype_size + dim_size),
       Z.max base_addr_align (Z.max offset_align (Z.max dtype_align (Z.max dim_align 0)))).

Definition gfortran_7_or_less_array_descriptor_get_size (rank : Z) : res Z :=
  fst <$> gfortran_7_or_less_array_descriptor_info rank.

Definition gfortran_7_or_less_array_descriptor_get_alignment (rank : Z) : res Z :=
  snd <$> gfortran_7_or_less_array_descriptor_info rank.

Definition gfortran_from_8_array_descriptor_info (rank : Z) : res (Z * Z) :=
  let base_addr_size := sizeof_pointer env in
  let base_addr_align := alignof_pointer env in
  '(offset_size, offset_align) ← of_type (type_of_sizeof env);
  let signed_int := get_signed_int_type env in
  let signed_char := get_signed_char_type in
  let signed_short := get_signed_short_int_type env in
  let dtype_align :=
    Z.max offset_align
      (Z.max (bt_alignment signed_int)
         (Z.max (bt_alignment signed_char) (Z.max (bt_alignment signed_short) 0))) in
  let dtype_size :=
    u64 (offset_size + bt_size signed_int + 2 * bt_size signed_char + bt_size signed_short) in
  '(span_size, span_align) ← of_type (type_of_ptrdiff_t env);
  let descriptor_dimension_size := u64 (3 * span_size) in
  let descriptor_dimension_align := span_align in
  let dim_size := u64 (rank * descriptor_dimension_size) in
  let dim_align := descriptor_dimension_align in
  Ret (u64 (base_addr_size + offset_size + dtype_size + span_size + dim_size),
       Z.max base_addr_align
         (Z.max offset_align (Z.max dtype_align (Z.max span_align (Z.max dim_align 0))))).

Definition gfortran_from_8_array_descriptor_get_size (rank : Z) : res Z :=
  fst <$> gfortran_from_8_array_descriptor_info rank.

Definition gfortran_from_8_array_descriptor_get_alignment (rank : Z) : res Z :=
  snd <$> gfortran_from_8_array_descriptor_info rank.

(** [int] arithmetic converted to [size_t]. *)
Definition int_to_size (z : Z) : res Z :=
  if (- 2 ^ 31 <=? z) && (z <? 2 ^ 31) then Ret (u64 z) else Err Undef.

Definition ifort_array_descriptor_get_size (rank : Z) : res Z :=
  if sizeof_pointer env =? 8 then int_to_size (48 + 24 * rank)
  else if sizeof_pointer env =? 4 then int_to_size (24 + 12 * rank)
  else Err Aborted.

Definition ifort_array_descriptor_get_alignment (rank : Z) : res Z :=
  if sizeof_pointer env =? 8 then Ret 8
  else if sizeof_pointer env =? 4 then Ret 4
  else Err Aborted.

Definition xlf_array_descriptor_get_size (rank : Z) : res Z :=
  if sizeof_pointer env =? 8 then int_to_size (32 + 24 * rank)
  else if sizeof_pointer env =? 4 then int_to_size (20 + 12 * rank)
  else Err Aborted.

Definition xlf_array_descriptor_get_alignment (rank : Z) : res Z :=
  if sizeof_pointer env =? 8 then Ret 8
  else if sizeof_pointer env =? 4 then Ret 4
  else Err Aborted.

Definition fortran_size_of_array_descriptor (d : fortran_array_descriptor) (rank : Z) : res Z :=
  match d with
  | gfortran_7_or_less_array_descriptor => gfortran_7_or_less_array_descriptor_get_size rank
  | gfortran_8_or_greater_array_descriptor => gfortran_from_8_array_descriptor_get_size rank
  | ifort_array_descriptor => ifort_array_descriptor_get_size rank
  | xlf_array_descriptor => xlf_array_descriptor_get_size rank
  end.

Definition fortran_alignment_of_array_descriptor (d : fortran_array_descriptor) (rank : Z) :
    res Z :=
  match d with
  | gfortran_7_or_less_array_descriptor => gfortran_7_or_less_array_descriptor_get_alignment rank
  | gfortran_8_or_greater_array_descriptor => gfortran_from_8_array_descriptor_get_alignment rank
  | ifort_array_descriptor => ifort_array_descriptor_get_alignment rank
  | xlf_array_descriptor => xlf_array_descriptor_get_alignment rank
  end.
End descriptors.

Definition descriptor_id (d : fortran_array_descriptor) : string :=
  match d with
  | gfortran_7_or_less_array_descriptor => "gfortran"
  | gfortran_8_or_greater_array_descriptor => "gfortran-8-or-greater"
  | ifort_array_descriptor => "ifort"
  | xlf_array_descriptor => "xlf"
  end.

Definition fortran_array_descriptor_list : list fortran_array_descriptor :=
  [gfortran_7_or_less_array_descriptor; gfortran_8_or_greater_array_descriptor;
   ifort_array_descriptor; xlf_array_descriptor].

Definition default_fortran_array_descriptor := gfortran_7_or_less_array_descriptor.

Definition get_fortran_array_descriptor (id : string) : option fortran_array_descriptor :=
  snd <$> list_find (λ d, id = descriptor_id d) fortran_array_descriptor_list.
