(* ===== verification/SystemV.v ===== *)
(** * The System V layout of C types: [frontend/cxx-typeenviron.c]

    [system_v_generic_sizeof] and the functions it calls: arrays, unions,
    structs with bit-fields and flexible arrays, enums, references and Fortran
    arrays with descriptor.  Sizes and offsets are [size_t] and wrap modulo
    [2^64]; [int] values are converted where the code converts them.

    A [ctype] is the part of a [type_t] that the layout reads.  [type_layout]
    is [type_get_size] and [type_get_alignment] of [frontend/cxx-typeutils.c]:
    the code caches the result in the type, the model computes it. *)

From S2P Require Import Prelude TypeEnviron FortranDescr.

(** ** Offsets *)

(** [while ( *current_offset % required_align != 0) ( *current_offset)++;] *)
Definition next_offset_with_align (current_offset required_align : Z) : res Z :=
  if required_align =? 0 then Err Undef else
  loop (S (Z.to_nat required_align))
    (λ offset, Ret (if negb (offset mod required_align =? 0)
                    then inl (u64 (offset + 1)) else inr offset))
    current_offset.

(** [while (offset % required_align != 0) offset--;] *)
Definition compute_bitfield_offset (offset required_align : Z) : res Z :=
  if required_align =? 0 then Err Undef else
  loop (S (Z.to_nat required_align))
    (λ offset, Ret (if negb (offset mod required_align =? 0)
                    then inl (u64 (offset - 1)) else inr offset))
    offset.

(** The result is an [int]. *)
Definition round_to_upper_byte (bit_offset : Z) : res Z :=
  bit_offset ← loop 9
    (λ bit_offset, Ret (if negb (bit_offset mod 8 =? 0)
                        then inl (u64 (bit_offset + 1)) else inr bit_offset))
    bit_offset;
  Ret (s32 (bit_offset / 8)).

(** ** Types *)

(** A [nodecl_t]: null, a constant or a run-time expression. *)
Inductive expr := Null | Const (c : Z) | Nonconst.

Inductive ctype :=
| Basic (size alignment : Z)
| Array (element_type : ctype) (size_expr : expr) (descriptor_rank : option Z)
| Union (fields : list field)
| Struct (fields : list field)
| Enum (underlying : ctype)
| Lvalue_reference
| Pointer_to_descriptor (array_rank : Z)
| Named (alias_type : ctype) (explicit_aligned : expr)
| Other
with field :=
| Field (type_information : ctype) (bitfield_size : option Z) (is_unnamed_bitfield : bool).

(** What the layout asks of a type: its size and alignment and, for an array,
    its bound, its rank when it has a descriptor, and its element. *)
Record type_info := TypeInfo {
  size_align : res (Z * Z);
  as_array : option (expr * option Z * res (Z * Z)) }.

Record field_info := FieldInfo {
  fi_type : type_info; fi_bitsize : option Z; fi_unnamed : bool }.

Record layout_state := LayoutState {
  ls_offset : Z; ls_align : Z; ls_bit : Z; ls_bitfield : bool }.

(** Where a field goes: [field_offset] and, for a bit-field, [bitfield_offset],
    [bitfield_first] and [bitfield_last]. *)
Record placement := Placement {
  field_offset : Z; bitfield : option (Z * Z * Z) }.

Section config.
Context (env : type_environment) (fdesc : fortran_array_descriptor).

Definition system_v_array_sizeof (element : res (Z * Z)) (size_expr : expr) : res (Z * Z) :=
  '(element_size, element_align) ← element;
  match size_expr with
  | Const c =>
      let size := s32 (u32 c) in
      Ret (u64 (size * element_size), element_align)
  | Null => Err Aborted
  | Nonconst => Err Aborted
  end.

Definition size_of_fortran_array_with_descriptor (rank : Z) : res (Z * Z) :=
  size ← fortran_size_of_array_descriptor env fdesc rank;
  align ← fortran_alignment_of_array_descriptor env fdesc rank;
  Ret (size, align).

(** The size and alignment of a field; an unbounded array is a Fortran
    descriptor or a flexible last member. *)
Definition field_size_align (f : field_info) (is_last_field : bool) : res (Z * Z) :=
  match as_array (fi_type f) with
  | Some (Null, descriptor, element) =>
      match descriptor with
      | Some rank => size_of_fortran_array_with_descriptor rank
      | None =>
          if is_last_field then
            '(_, element_align) ← element;
            Ret (0, element_align)
          else Err Aborted
      end
  | _ => size_align (fi_type f)
  end.

(** The storage unit, the first bit and the number of bits of a bit-field,
    and the offset from which it is laid out. *)
Definition place_bits (bitsize field_size field_align : Z) (unnamed : bool)
    (st : layout_state) : res (Z * Z * Z * Z) :=
  if negb (ls_bitfield st) && (field_align =? 0) then Err Undef else
  let offset :=
    if ls_bitfield st && (0 <? ls_offset st) then ls_offset st - 1 else ls_offset st in
  let initial_bit :=
    if ls_bitfield st then ls_bit st else u64 ((ls_offset st mod field_align) * 8) in
  if bitsize =? 0
  then Ret (offset, ls_align st, initial_bit, u64 (field_size * 8 - initial_bit))
  else if u64 (field_size * 8) <? bitsize then Err Aborted
  else
    let no_room := u64 (field_size * 8 - initial_bit) <? bitsize in
    offset ← (if no_room then next_offset_with_align offset field_align else Ret offset);
    let initial_bit := if no_room then 0 else initial_bit in
    let whole_align :=
      if negb unnamed && (ls_align st <? field_align) then field_align else ls_align st in
    Ret (offset, whole_align, initial_bit, bitsize).

Definition first_last (field_size initial_bit filled_bits : Z) : Z * Z :=
  match endianness env with
  | ENV_LITTLE_ENDIAN =>
      let first := s32 initial_bit in (first, s32 (u64 (first + (filled_bits - 1))))
  | ENV_BIG_ENDIAN =>
      let first := s32 (u64 (field_size * 8 - initial_bit - 1)) in
      (first, s32 (u64 (first - (filled_bits - 1))))
  end.

Definition system_v_field_layout (f : field_info) (st : layout_state) (is_last_field : bool) :
    res (layout_state * placement) :=
  '(field_size, field_align) ← field_size_align f is_last_field;
  match fi_bitsize f with
  | Some b =>
      let bitsize := u32 b in
      '(offset, whole_align, initial_bit, filled_bits) ←
        place_bits bitsize field_size field_align (fi_unnamed f) st;
      let current_bit := u64 (initial_bit + filled_bits) in
      bitfield_offset ← compute_bitfield_offset offset field_align;
      let '(first, last) := first_last field_size initial_bit filled_bits in
      bytes ← round_to_upper_byte filled_bits;
      Ret (LayoutState (u64 (offset + bytes)) whole_align current_bit true,
           Placement bitfield_offset (Some (offset, first, last)))
  | None =>
      let whole_align := if ls_align st <? field_align then field_align else ls_align st in
      offset ← next_offset_with_align (ls_offset st) field_align;
      Ret (LayoutState (u64 (offset + field_size)) whole_align (ls_bit st) false,
           Placement offset None)
  end.

(** [i == num_fields - 1] holds at the last element of the list. *)
Fixpoint struct_fields (fields : list field_info) (st : layout_state) :
    res (layout_state * list placement) :=
  match fields with
  | [] => Ret (st, [])
  | f :: fields' =>
      '(st', p) ← system_v_field_layout f st (match fields' with [] => true | _ => false end);
      '(st'', ps) ← struct_fields fields' st';
      Ret (st'', p :: ps)
  end.

Definition system_v_struct_layout (cxx : bool) (fields : list field_info) :
    res (Z * Z * list placement) :=
  '(st, ps) ← struct_fields fields (LayoutState 0 1 0 false);
  offset ← next_offset_with_align (ls_offset st) (ls_align st);
  if cxx && (offset =? 0) then Ret (1, 1, ps) else Ret (offset, ls_align st, ps).

Definition system_v_struct_sizeof (cxx : bool) (fields : list field_info) : res (Z * Z) :=
  '(size, align, _) ← system_v_struct_layout cxx fields;
  Ret (size, align).

Fixpoint union_fields (fields : list field_info) (max_offset whole_align : Z) :
    res (Z * Z * list placement) :=
  match fields with
  | [] => Ret (max_offset, whole_align, [])
  | f :: fields' =>
      '(st, p) ← system_v_field_layout f (LayoutState 0 whole_align 0 false)
                   (match fields' with [] => true | _ => false end);
      '(m, a, ps) ← union_fields fields' (Z.max max_offset (ls_offset st)) (ls_align st);
      Ret (m, a, p :: ps)
  end.

Definition system_v_union_layout (fields : list field_info) : res (Z * Z * list placement) :=
  '(max_offset, whole_align, ps) ← union_fields fields 0 1;
  max_offset ← next_offset_with_align max_offset whole_align;
  if max_offset =? 0
  then Ret (sizeof_signed_int env, alignof_signed_int env, ps)
  else Ret (max_offset, whole_align, ps).

Definition system_v_union_sizeof (fields : list field_info) : res (Z * Z) :=
  '(size, align, _) ← system_v_union_layout fields;
  Ret (size, align).

Definition c_or_cxx_enum_sizeof (underlying : res (Z * Z)) : res (Z * Z) :=
  '(size, align) ← underlying;
  Ret (size, align).

(** A typedef takes the size of its alias, and its own [aligned] attribute. *)
Definition named_sizeof (alias_type : res (Z * Z)) (explicit_aligned : expr) : res (Z * Z) :=
  '(size, align) ← alias_type;
  match explicit_aligned with
  | Null => Ret (size, align)
  | Const c => Ret (size, u64 c)
  | Nonconst => Err Aborted
  end.

(** [system_v_generic_sizeof], reached from [type_get_size]. *)
Fixpoint type_layout (t : ctype) : type_info :=
  match t with
  | Basic size alignment => TypeInfo (Ret (size, alignment)) None
  | Array element_type size_expr descriptor_rank =>
      let element := size_align (type_layout element_type) in
      TypeInfo
        (match descriptor_rank with
         | None => system_v_array_sizeof element size_expr
         | Some rank => size_of_fortran_array_with_descriptor rank
         end)
        (Some (size_expr, descriptor_rank, element))
  | Union fields =>
      TypeInfo (system_v_union_sizeof
                  (map (λ '(Field t b u), FieldInfo (type_layout t) b u) fields)) None
  | Struct fields =>
      TypeInfo (system_v_struct_sizeof false
                  (map (λ '(Field t b u), FieldInfo (type_layout t) b u) fields)) None
  | Enum underlying => TypeInfo (c_or_cxx_enum_sizeof (size_align (type_layout underlying))) None
  | Lvalue_reference => TypeInfo (Ret (sizeof_pointer env, alignof_pointer env)) None
  | Pointer_to_descriptor array_rank =>
      TypeInfo (size_of_fortran_array_with_descriptor array_rank) None
  | Named alias_type explicit_aligned =>
      let alias := type_layout alias_type in
      TypeInfo (named_sizeof (size_align alias) explicit_aligned) (as_array alias)
  | Other => TypeInfo (Err Aborted) None
  end.

Definition type_get_size (t : ctype) : res Z := fst <$> size_align (type_layout t).

Definition type_get_alignment (t : ctype) : res Z := snd <$> size_align (type_layout t).

Definition field_info_of (f : field) : field_info :=
  match f with Field t b u => FieldInfo (type_layout t) b u end.
End config.

(** * Rounding *)

(** The least multiple of [a] that is not below [o]. *)
Definition roundup (o a : Z) : Z := o + (- o) mod a.

Section roundup.
Context (a : Z) (Ha : 0 < a).

Lemma roundup_bounds o : o ≤ roundup o a < o + a.
Proof. unfold roundup. pose proof (Z.mod_pos_bound (- o) a Ha). lia. Qed.

Lemma roundup_divide o : (a | roundup o a).
Proof.
  unfold roundup. exists (- (- o / a)). rewrite (Z.mod_eq (- o) a) by lia. lia.
Qed.

Lemma roundup_unique o r : o ≤ r < o + a → (a | r) → r = roundup o a.
Proof.
  intros Hr [q Hq]. unfold roundup.
  rewrite <-(Z.mod_unique_pos (- o) a (- q) (r - o)); lia.
Qed.

Lemma roundup_multiple o : (a | o) → roundup o a = o.
Proof. intros Hd. symmetry. apply roundup_unique; [lia|done]. Qed.

Lemma roundup_next o : o mod a ≠ 0 → roundup (o + 1) a = roundup o a.
Proof.
  intros Ho. symmetry. apply roundup_unique; [|apply roundup_divide].
  pose proof (roundup_bounds o). pose proof (roundup_divide o) as Hd.
  assert (roundup o a ≠ o).
  { intros Heq. rewrite Heq in Hd. apply Z.mod_divide in Hd; lia. }
  lia.
Qed.
End roundup.

(** The loop takes one step per byte of padding, and wraps at [2^64]. *)
Lemma next_offset_eq o a :
  0 < a → 0 ≤ o < 2 ^ 64 →
  next_offset_with_align o a = Ret (if roundup o a <? 2 ^ 64 then roundup o a else 0).
Proof.
  intros Ha Ho. unfold next_offset_with_align.
  rewrite (proj2 (Z.eqb_neq a 0)) by lia.
  destruct (loop_spec
    (λ s, 0 ≤ s < 2 ^ 64 ∧ (roundup s a = roundup o a ∨ s = 0 ∧ 2 ^ 64 ≤ roundup o a))
    (λ s, Z.to_nat (Z.min (roundup s a) (2 ^ 64) - s))
    (λ r, r = if roundup o a <? 2 ^ 64 then roundup o a else 0)
    (λ offset, Ret (if negb (offset mod a =? 0) then inl (u64 (offset + 1)) else inr offset))
  ) with (s := o) (fuel := S (Z.to_nat a)) as (r & -> & ->); [| | |done].
  - intros s (Hs & Hinv). destruct (Z.eqb_spec (s mod a) 0) as [Hm|Hm]; simpl.
    + apply Z.mod_divide in Hm; [|lia]. rewrite (roundup_multiple a Ha s Hm) in Hinv.
      destruct (Z.ltb_spec (roundup o a) (2 ^ 64)); lia.
    + pose proof (roundup_bounds a Ha s) as Hb.
      assert (roundup s a ≠ s) as Hne.
      { intros Heq. pose proof (roundup_divide a Ha s) as Hd. rewrite Heq in Hd.
        apply Z.mod_divide in Hd; lia. }
      destruct Hinv as [Hinv|[-> _]]; [|by rewrite Z.mod_0_l in Hm by lia].
      destruct (decide (s + 1 < 2 ^ 64)) as [Hlt|Hge].
      * rewrite wrapu_small by lia. rewrite roundup_next by done.
        split; [split; [lia|by left]|lia].
      * assert (s + 1 = 2 ^ 64) as Hs1 by lia. unfold wrapu. rewrite Hs1, Z.mod_same by lia.
        split; [split; [lia|right; lia]|].
        rewrite (roundup_multiple a Ha 0) by apply Z.divide_0_r. lia.
  - split; [done|by left].
  - pose proof (roundup_bounds a Ha o). lia.
Qed.

Lemma next_offset_small o a :
  0 < a → 0 ≤ o → roundup o a < 2 ^ 64 → next_offset_with_align o a = Ret (roundup o a).
Proof.
  intros Ha Ho Hr. pose proof (roundup_bounds a Ha o).
  rewrite next_offset_eq by lia. by rewrite (proj2 (Z.ltb_lt _ _) Hr).
Qed.

Lemma next_offset_divide o a r :
  0 ≤ o < 2 ^ 64 → next_offset_with_align o a = Ret r → 0 < a →
  0 ≤ r < 2 ^ 64 ∧ (a | r).
Proof.
  intros Ho Hr Ha. rewrite next_offset_eq in Hr by done. injection Hr as <-.
  pose proof (roundup_bounds a Ha o).
  split_if; [split; [lia|by apply roundup_divide]|split; [lia|apply Z.divide_0_r]].
Qed.

Lemma compute_bitfield_offset_eq o a :
  0 < a → 0 ≤ o < 2 ^ 64 → compute_bitfield_offset o a = Ret (o - o mod a).
Proof.
  intros Ha Ho. unfold compute_bitfield_offset. rewrite (proj2 (Z.eqb_neq a 0)) by lia.
  pose proof (Z.mod_pos_bound o a Ha) as Hm.
  destruct (loop_spec (λ s, 0 ≤ s < 2 ^ 64 ∧ s - s mod a = o - o mod a) (λ s, Z.to_nat (s mod a))
    (λ r, r = o - o mod a)
    (λ offset, Ret (if negb (offset mod a =? 0) then inl (u64 (offset - 1)) else inr offset))
  ) with (s := o) (fuel := S (Z.to_nat a)) as (r & -> & ->); [|done|lia|done].
  intros s (Hs & Hinv). destruct (Z.eqb_spec (s mod a) 0) as [Hz|Hz]; simpl; [lia|].
  pose proof (Z.mod_pos_bound s a Ha).
  assert (s ≠ 0) by (intros ->; by rewrite Z.mod_0_l in Hz by lia).
  rewrite wrapu_small by lia.
  assert ((s - 1) mod a = s mod a - 1) as Hs1.
  { symmetry. apply (Z.mod_unique_pos _ _ (s / a)); [lia|].
    pose proof (Z.div_mod s a). lia. }
  rewrite Hs1. lia.
Qed.

(** * Structs of plain fields *)

(** The field is no bit-field and no unbounded array, and has the size [s] and
    the alignment [a]. *)
Definition plain_field (f : field_info) (sa : Z * Z) : Prop :=
  fi_bitsize f = None ∧ size_align (fi_type f) = Ret sa
  ∧ (∀ d e, as_array (fi_type f) ≠ Some (Null, d, e)) ∧ 0 ≤ sa.1 ∧ 0 < sa.2.

(** The reference layout: every field goes to the first multiple of its
    alignment after the field before it. *)
Fixpoint ref_offsets (o : Z) (sas : list (Z * Z)) : list Z :=
  match sas with
  | [] => []
  | (s, a) :: sas' => roundup o a :: ref_offsets (roundup o a + s) sas'
  end.

Fixpoint ref_end (o : Z) (sas : list (Z * Z)) : Z :=
  match sas with
  | [] => o
  | (s, a) :: sas' => ref_end (roundup o a + s) sas'
  end.

Definition max_align (a : Z) (sas : list (Z * Z)) : Z := foldl (λ m sa, Z.max m sa.2) a sas.

Lemma ref_end_ge o sas : Forall (λ sa, 0 ≤ sa.1 ∧ 0 < sa.2) sas → o ≤ ref_end o sas.
Proof.
  intros Hok. revert o. induction Hok as [|[s a] sas [Hs Ha] _ IH]; intros o; simpl in *; [lia|].
  pose proof (roundup_bounds a Ha o). specialize (IH (roundup o a + s)). lia.
Qed.

Lemma max_align_ge a sas : a ≤ max_align a sas ∧ ∀ sa, sa ∈ sas → sa.2 ≤ max_align a sas.
Proof.
  unfold max_align. revert a. induction sas as [|sa sas IH]; intros a; simpl.
  - split; [lia|]. by intros sa ?%not_elem_of_nil.
  - destruct (IH (Z.max a sa.2)) as [H1 H2]. split; [lia|].
    intros sb [->|Hsb]%elem_of_cons; [lia|auto].
Qed.

Lemma max_align_in a sas : max_align a sas = a ∨ ∃ sa, sa ∈ sas ∧ max_align a sas = sa.2.
Proof.
  unfold max_align. revert a. induction sas as [|sa sas IH]; intros a; simpl; [by left|].
  destruct (IH (Z.max a sa.2)) as [->|(sb & Hsb & ->)].
  - destruct (Z.max_spec a sa.2) as [[_ ->]|[_ ->]]; [right; exists sa|by left].
    split; [left|done].
  - right. exists sb. split; [by right|done].
Qed.

Section layout.
Context (env : type_environment) (fdesc : fortran_array_descriptor).

Lemma plain_field_size_align f sa last :
  plain_field f sa → field_size_align env fdesc f last = Ret sa.
Proof.
  intros (_ & Hs & Hn & _). unfold field_size_align.
  destruct (as_array (fi_type f)) as [[[[|c|] d] e]|]; try done. by destruct (Hn d e).
Qed.

Lemma plain_layout f s a st last :
  plain_field f (s, a) → 0 ≤ ls_offset st → roundup (ls_offset st) a + s < 2 ^ 64 →
  system_v_field_layout env fdesc f st last
  = Ret (LayoutState (roundup (ls_offset st) a + s) (Z.max (ls_align st) a) (ls_bit st) false,
         Placement (roundup (ls_offset st) a) None).
Proof.
  intros Hp Ho Hb. pose proof (plain_field_size_align f (s, a) last Hp) as Hsa.
  destruct Hp as (Hbits & _ & _ & Hs & Ha). simpl in Hs, Ha.
  pose proof (roundup_bounds a Ha (ls_offset st)).
  unfold system_v_field_layout. rewrite Hsa. simpl. rewrite Hbits.
  rewrite next_offset_small by lia. simpl. rewrite wrapu_small by lia.
  do 3 f_equal. split_if; lia.
Qed.

Lemma struct_fields_plain fs sas st :
  Forall2 plain_field fs sas → 0 ≤ ls_offset st → ref_end (ls_offset st) sas < 2 ^ 64 →
  ∃ b, struct_fields env fdesc fs st
    = Ret (LayoutState (ref_end (ls_offset st) sas) (max_align (ls_align st) sas) (ls_bit st) b,
           (λ o, Placement o None) <$> ref_offsets (ls_offset st) sas).
Proof.
  intros Hfs. revert st. induction Hfs as [|f [s a] fs sas Hf Hfs IH]; intros st Ho Hb.
  - exists (ls_bitfield st). by destruct st.
  - pose proof Hf as (_ & _ & _ & Hs & Ha). simpl in Hs, Ha.
    pose proof (roundup_bounds a Ha (ls_offset st)).
    assert (Forall (λ sa, 0 ≤ sa.1 ∧ 0 < sa.2) sas) as Hok.
    { clear -Hfs. induction Hfs as [|f sa fs sas (_ & _ & _ & ? & ?) _ IH]; by constructor. }
    cbn [ref_end] in Hb. pose proof (ref_end_ge (roundup (ls_offset st) a + s) sas Hok).
    cbn [struct_fields]. rewrite (plain_layout f s a) by (done || lia). rewrite bind_ret.
    destruct (IH (LayoutState (roundup (ls_offset st) a + s) (Z.max (ls_align st) a)
                    (ls_bit st) false)) as [b Hb']; [simpl; lia|done|].
    exists b. by rewrite Hb'.
Qed.

Lemma struct_layout_plain fs sas :
  Forall2 plain_field fs sas → roundup (ref_end 0 sas) (max_align 1 sas) < 2 ^ 64 →
  system_v_struct_layout env fdesc false fs
  = Ret (roundup (ref_end 0 sas) (max_align 1 sas), max_align 1 sas,
         (λ o, Placement o None) <$> ref_offsets 0 sas).
Proof.
  intros Hfs Hb. pose proof (max_align_ge 1 sas) as [Hm _].
  pose proof (roundup_bounds (max_align 1 sas) ltac:(lia) (ref_end 0 sas)).
  destruct (struct_fields_plain fs sas (LayoutState 0 1 0 false) Hfs) as [b Hst];
    [simpl; lia|simpl; lia|].
  unfold system_v_struct_layout. rewrite Hst. simpl.
  rewrite next_offset_small; [done|lia| |done].
  transitivity (ref_end 0 []); [simpl; lia|]. apply ref_end_ge.
  clear -Hfs. induction Hfs as [|f sa fs sas (_ & _ & _ & ? & ?) _ IH]; by constructor.
Qed.
End layout.

(** ** What the reference layout guarantees *)

Lemma ref_offsets_spec o sas i s a p :
  Forall (λ sa, 0 ≤ sa.1 ∧ 0 < sa.2) sas →
  sas !! i = Some (s, a) → ref_offsets o sas !! i = Some p →
  (a | p) ∧ o ≤ p ∧ p + s ≤ ref_end o sas.
Proof.
  intros Hok. revert o i. induction Hok as [|[s' a'] sas [Hs Ha] Hok IH]; intros o i; [done|].
  simpl in Hs, Ha. pose proof (roundup_bounds a' Ha o). destruct i as [|i]; simpl.
  - intros [= -> ->] [= <-]. split; [by apply roundup_divide|]. split; [lia|].
    by apply ref_end_ge.
  - intros Hsa Hp. destruct (IH (roundup o a' + s') i Hsa Hp) as (? & ? & ?).
    split; [done|]. split; [lia|done].
Qed.

Lemma ref_offsets_disjoint o sas i j s a p q :
  Forall (λ sa, 0 ≤ sa.1 ∧ 0 < sa.2) sas → (i < j)%nat →
  sas !! i = Some (s, a) → ref_offsets o sas !! i = Some p → ref_offsets o sas !! j = Some q →
  p + s ≤ q.
Proof.
  intros Hok. revert o i j. induction Hok as [|[s' a'] sas [Hs Ha] Hok IH]; intros o i j Hij; [done|].
  destruct j as [|j]; [lia|]. destruct i as [|i]; simpl.
  - intros [= -> ->] [= <-] Hq.
    assert (∃ sa, sas !! j = Some sa) as [[s2 a2] Hsa].
    { apply lookup_lt_is_Some_2. apply lookup_lt_Some in Hq. revert Hq. clear.
      generalize (roundup o a + s) as o'. revert j.
      induction sas as [|[s' a'] sas IH]; intros j o' Hq; simpl in *; [lia|].
      destruct j as [|j]; [lia|]. apply ->Nat.succ_lt_mono. eapply IH. apply Nat.succ_lt_mono, Hq. }
    by destruct (ref_offsets_spec _ _ _ _ _ _ Hok Hsa Hq) as (_ & ? & _).
  - apply IH. lia.
Qed.

Lemma plain_sizes fs sas :
  Forall2 plain_field fs sas → Forall (λ sa, 0 ≤ sa.1 ∧ 0 < sa.2) sas.
Proof. induction 1 as [|f sa fs sas (_ & _ & _ & ? & ?) _ IH]; by constructor. Qed.

(** C15: the layout of a struct of plain fields, neither bit-fields nor unbounded
    arrays, whose size fits in 64 bits, is the reference layout: every field starts at a multiple of its alignment,
    the fields do not overlap and keep their order, all of them end within the
    struct, the alignment is the largest one (and at least 1), and the size is
    the end of the last field rounded up to it.  (Bit-fields can overlap the
    field after them: [bitfields_overlap_next_field].) *)
Theorem struct_layout_correct env fdesc fs sas :
  Forall2 plain_field fs sas → roundup (ref_end 0 sas) (max_align 1 sas) < 2 ^ 64 →
  ∃ size align os,
    system_v_struct_layout env fdesc false fs
      = Ret (size, align, (λ o, Placement o None) <$> os)
    ∧ length os = length fs
    ∧ (∀ i s a p, sas !! i = Some (s, a) → os !! i = Some p → (a | p) ∧ 0 ≤ p ∧ p + s ≤ size)
    ∧ (∀ i j s a p q, (i < j)%nat → sas !! i = Some (s, a) → os !! i = Some p →
         os !! j = Some q → p + s ≤ q)
    ∧ (align | size) ∧ (∀ sa, sa ∈ sas → sa.2 ≤ align)
    ∧ (align = 1 ∨ ∃ sa, sa ∈ sas ∧ align = sa.2)
    ∧ size < ref_end 0 sas + align.
Proof.
  intros Hfs Hb. pose proof (plain_sizes fs sas Hfs) as Hok.
  pose proof (max_align_ge 1 sas) as [Hm Hle]. assert (0 < max_align 1 sas) as Hma by lia.
  pose proof (roundup_bounds (max_align 1 sas) Hma (ref_end 0 sas)).
  exists (roundup (ref_end 0 sas) (max_align 1 sas)), (max_align 1 sas), (ref_offsets 0 sas).
  split; [by apply struct_layout_plain|]. split.
  { rewrite (Forall2_length _ _ _ Hfs). clear. generalize 0 as o.
    induction sas as [|[s a] sas IH]; intros o; simpl; [done|]. by rewrite IH. }
  split.
  { intros i s a p Hsa Hp. destruct (ref_offsets_spec _ _ _ _ _ _ Hok Hsa Hp) as (? & ? & ?).
    split; [done|]. lia. }
  split.
  { intros i j s a p q Hij Hsa Hp Hq. by eapply ref_offsets_disjoint. }
  split; [by apply roundup_divide|]. split; [done|]. split; [by apply max_align_in|]. lia.
Qed.

Definition int_field (n : Z) : field_info :=
  FieldInfo (TypeInfo (Ret (n, n)) None) None false.

Lemma struct_layout_correct_witness :
  let fs := [int_field 1; int_field 4; int_field 2; int_field 8] in
  let sas := [(1, 1); (4, 4); (2, 2); (8, 8)] in
  ∃ size align os,
    system_v_struct_layout (environs (final_globals true) linux_amd64)
      gfortran_7_or_less_array_descriptor false fs
      = Ret (size, align, (λ o, Placement o None) <$> os)
    ∧ os = [0; 4; 8; 16] ∧ size = 24
    ∧ (∀ i j s a p q, (i < j)%nat → sas !! i = Some (s, a) → os !! i = Some p →
         os !! j = Some q → p + s ≤ q).
Proof.
  intros fs sas.
  destruct (struct_layout_correct (environs (final_globals true) linux_amd64)
    gfortran_7_or_less_array_descriptor fs sas) as (size & align & os & Hl & _ & _ & Hd & _).
  - repeat constructor; simpl; try done.
  - vm_compute. reflexivity.
  - exists size, align, os. split; [exact Hl|].
    assert (Ret (size, align, (λ o, Placement o None) <$> os)
            = Ret (24, 8, (λ o, Placement o None) <$> [0; 4; 8; 16])) as Heq.
    { rewrite <-Hl. vm_compute. reflexivity. }
    assert (size = 24) as -> by congruence.
    assert ((λ o, Placement o None) <$> os = (λ o, Placement o None) <$> [0; 4; 8; 16]) as Hos
      by congruence.
    split; [|split; [done|exact Hd]].
    clear -Hos. assert (Inj (=) (=) (λ o, Placement o None)) by (intros x y; congruence).
    by apply (inj (fmap (λ o, Placement o None))) in Hos.
Defined.

(** * Every C type has a size that its alignment divides *)

Lemma ctype_ind' (P : ctype → Prop) (Q : list field → Prop) :
  (∀ s a, P (Basic s a)) →
  (∀ t e d, P t → P (Array t e d)) →
  (∀ fs, Q fs → P (Union fs)) →
  (∀ fs, Q fs → P (Struct fs)) →
  (∀ t, P t → P (Enum t)) →
  P Lvalue_reference →
  (∀ r, P (Pointer_to_descriptor r)) →
  (∀ t e, P t → P (Named t e)) →
  P Other →
  Q [] →
  (∀ t b u fs, P t → Q fs → Q (Field t b u :: fs)) →
  ∀ t, P t.
Proof.
  intros HB HA HU HS HE HL HP HN HO Hnil Hcons.
  fix IH 1. intros [s a|t e d|fs|fs|t| |r|t e|].
  - apply HB.
  - apply HA, IH.
  - apply HU. induction fs as [|[t b u] fs IHfs]; [done|]. apply Hcons; [apply IH|done].
  - apply HS. induction fs as [|[t b u] fs IHfs]; [done|]. apply Hcons; [apply IH|done].
  - apply HE, IH.
  - done.
  - apply HP.
  - apply HN, IH.
  - done.
Qed.

(** The types of the C front end that carry no alignment of their own and no
    Fortran descriptor; bit-fields and flexible arrays are allowed. *)
Fixpoint c_type (t : ctype) : Prop :=
  match t with
  | Basic size alignment => 0 ≤ size < 2 ^ 64 ∧ pow2 alignment = true ∧ alignment < 2 ^ 64
                            ∧ (alignment | size)
  | Array t _ None => c_type t
  | Array _ _ (Some _) => False
  | Union fields | Struct fields =>
      foldr (λ '(Field t _ _) P, c_type t ∧ P) True fields
  | Enum t => c_type t
  | Lvalue_reference => True
  | Pointer_to_descriptor _ => False
  | Named t e => e = Null ∧ c_type t
  | Other => True
  end.

(** A size and an alignment of a complete object type. *)
Definition good_layout (sa : Z * Z) : Prop :=
  0 ≤ sa.1 < 2 ^ 64 ∧ pow2 sa.2 = true ∧ sa.2 < 2 ^ 64 ∧ (sa.2 | sa.1).

Definition good_result (r : res (Z * Z)) : Prop :=
  match r with Ret sa => good_layout sa | Err _ => True end.

(** The element of a flexible array matters even if the array has no size. *)
Definition good_info (i : type_info) : Prop :=
  good_result (size_align i)
  ∧ match as_array i with
    | Some (_, descriptor, element) => descriptor = None ∧ good_result element
    | None => True
    end.

Lemma pow2_eq a : pow2 a = true → ∃ k, 0 ≤ k ∧ a = 2 ^ k.
Proof. unfold pow2. intros H. zbool. exists (Z.log2 a). split; [apply Z.log2_nonneg|done]. Qed.

Lemma pow2_pos a : pow2 a = true → 0 < a.
Proof. unfold pow2. intros H. zbool. lia. Qed.

Lemma pow2_divide_64 a : pow2 a = true → a < 2 ^ 64 → (a | 2 ^ 64).
Proof.
  intros Hp Ha. destruct (pow2_eq a Hp) as (k & Hk & ->).
  apply Z.pow_lt_mono_r_iff in Ha; [|lia..].
  exists (2 ^ (64 - k)). rewrite <-Z.pow_add_r by lia. f_equal. lia.
Qed.

Lemma wrapu_divide a z : (a | 2 ^ 64) → (a | z) → (a | u64 z).
Proof.
  intros [p Hp] [q Hq]. unfold wrapu. rewrite Z.mod_eq by lia.
  exists (q - p * (z / 2 ^ 64)). rewrite Hq, Hp at 1. lia.
Qed.

Section good.
Context (env : type_environment) (fdesc : fortran_array_descriptor).
Context (Henv : sizes_aligned env = true).
Context (Hsmall : sizeof_pointer env < 2 ^ 64 ∧ alignof_pointer env < 2 ^ 64
                  ∧ sizeof_signed_int env < 2 ^ 64 ∧ alignof_signed_int env < 2 ^ 64).

Lemma size_align_ok_good s a :
  size_align_ok s a = true → s < 2 ^ 64 → a < 2 ^ 64 → good_layout (s, a).
Proof.
  unfold size_align_ok. intros Hok Hs Ha. zbool. unfold good_layout. simpl.
  pose proof (pow2_pos a ltac:(done)).
  split; [lia|]. split; [done|]. split; [done|]. apply Z.mod_divide; lia.
Qed.

Lemma env_good :
  good_layout (sizeof_pointer env, alignof_pointer env)
  ∧ good_layout (sizeof_signed_int env, alignof_signed_int env).
Proof.
  unfold sizes_aligned in Henv. simpl in Henv. zbool.
  split; apply size_align_ok_good; (done || lia).
Qed.

Lemma array_good r e : good_result r → good_result (system_v_array_sizeof r e).
Proof.
  unfold system_v_array_sizeof. destruct r as [[s a]|]; simpl; [|done].
  intros (Hs & Hp & Ha & Hd). destruct e as [|c|]; simpl; [done| |done].
  split; [apply wrapu_range; lia|]. split; [done|]. split; [done|].
  apply wrapu_divide; [by apply pow2_divide_64|]. by apply Z.divide_mul_r.
Qed.

(** Every step of the layout keeps the offset in range and the alignment a
    power of two. *)
Definition good_state (st : layout_state) : Prop :=
  0 ≤ ls_offset st < 2 ^ 64 ∧ pow2 (ls_align st) = true ∧ ls_align st < 2 ^ 64.

Lemma field_size_align_good f last sa :
  good_info (fi_type f) → field_size_align env fdesc f last = Ret sa →
  pow2 sa.2 = true ∧ sa.2 < 2 ^ 64.
Proof.
  intros [Hg Ha]. unfold field_size_align.
  assert (size_align (fi_type f) = Ret sa → pow2 sa.2 = true ∧ sa.2 < 2 ^ 64) as Hdef.
  { intros Hsa. rewrite Hsa in Hg. by destruct Hg as (_ & ? & ? & _). }
  destruct (as_array (fi_type f)) as [[[[|c|] d] e]|]; auto.
  destruct Ha as [-> He]. destruct last; [|done]. destruct e as [[s a]|]; simpl; [|done].
  intros [= <-]. by destruct He as (_ & ? & ? & _).
Qed.

Lemma place_bits_good b s a u st o wa ib fb :
  good_state st → pow2 a = true → a < 2 ^ 64 →
  place_bits b s a u st = Ret (o, wa, ib, fb) →
  0 ≤ o < 2 ^ 64 ∧ pow2 wa = true ∧ wa < 2 ^ 64.
Proof.
  intros (Ho & Hp & Hw) Ha Haw. unfold place_bits. pose proof (pow2_pos a Ha).
  rewrite (proj2 (Z.eqb_neq a 0)), andb_false_r by lia.
  set (o' := if _ && _ then _ else _).
  assert (0 ≤ o' < 2 ^ 64) as Ho'.
  { unfold o'. destruct (ls_bitfield st); simpl; [|done]. split_if; lia. }
  destruct (b =? 0); [intros [= <- <- _ _]; done|].
  destruct (_ <? b); [done|].
  intros Hb. apply bind_ret_inv in Hb as (o2 & Ho2 & [= <- <- _ _]).
  split.
  - destruct (_ <? b); [|by injection Ho2 as <-].
    by apply next_offset_divide in Ho2 as [? _].
  - destruct (negb u && _); done.
Qed.

Lemma field_layout_good f st last st' p :
  good_info (fi_type f) → good_state st →
  system_v_field_layout env fdesc f st last = Ret (st', p) → good_state st'.
Proof.
  intros Hf Hst. unfold system_v_field_layout. intros Hl.
  apply bind_ret_inv in Hl as ([s a] & Hsa & Hl).
  destruct (field_size_align_good f last (s, a) Hf Hsa) as [Ha Haw]. simpl in Ha, Haw.
  destruct (fi_bitsize f) as [b|].
  - apply bind_ret_inv in Hl as ([[[o wa] ib] fb] & Hb & Hl).
    destruct (place_bits_good _ _ _ _ _ _ _ _ _ Hst Ha Haw Hb) as (_ & Hwp & Hww).
    apply bind_ret_inv in Hl as (bo & _ & Hl).
    destruct (first_last env s ib fb) as [fst lst].
    apply bind_ret_inv in Hl as (by' & _ & [= <- _]).
    split; [apply wrapu_range; lia|done].
  - apply bind_ret_inv in Hl as (o & _ & [= <- _]). destruct Hst as (_ & Hp & Hw).
    split; [apply wrapu_range; lia|]. simpl. by destruct (_ <? a).
Qed.

Lemma struct_fields_good fs st st' ps :
  Forall (λ f, good_info (fi_type f)) fs → good_state st →
  struct_fields env fdesc fs st = Ret (st', ps) → good_state st'.
Proof.
  intros Hfs. revert st ps. induction Hfs as [|f fs Hf _ IH]; intros st ps Hst Hl.
  - by injection Hl as <- _.
  - cbn [struct_fields] in Hl. apply bind_ret_inv in Hl as ([st1 p] & H1 & Hl).
    apply bind_ret_inv in Hl as ([st2 ps'] & H2 & [= -> _]).
    eapply IH; [|exact H2]. by eapply field_layout_good.
Qed.

Lemma struct_good fs :
  Forall (λ f, good_info (fi_type f)) fs →
  good_result (system_v_struct_sizeof env fdesc false fs).
Proof.
  intros Hfs. unfold system_v_struct_sizeof, system_v_struct_layout.
  destruct (struct_fields env fdesc fs (LayoutState 0 1 0 false)) as [[st ps]|e] eqn:Hst; [|done].
  apply struct_fields_good in Hst as (Ho & Hp & Hw); [|done|by repeat split].
  simpl. pose proof (pow2_pos _ Hp).
  destruct (next_offset_with_align (ls_offset st) (ls_align st)) as [r|e] eqn:Hr; [|done].
  apply next_offset_divide in Hr as [? ?]; [|done..]. by unfold good_result, good_layout.
Qed.

Lemma union_fields_good fs m a m' a' ps :
  Forall (λ f, good_info (fi_type f)) fs → 0 ≤ m < 2 ^ 64 → pow2 a = true → a < 2 ^ 64 →
  union_fields env fdesc fs m a = Ret (m', a', ps) →
  0 ≤ m' < 2 ^ 64 ∧ pow2 a' = true ∧ a' < 2 ^ 64.
Proof.
  intros Hfs. revert m a ps. induction Hfs as [|f fs Hf _ IH]; intros m a ps Hm Ha Haw Hl.
  - by injection Hl as <- <- _.
  - cbn [union_fields] in Hl. apply bind_ret_inv in Hl as ([st1 p] & H1 & Hl).
    apply bind_ret_inv in Hl as ([[m2 a2] ps'] & H2 & [= -> -> _]).
    apply field_layout_good in H1 as (Ho & Hp & Hw); [|done|by repeat split].
    eapply IH; [| | |exact H2]; [lia|done..].
Qed.

Lemma union_good fs :
  Forall (λ f, good_info (fi_type f)) fs →
  good_result (system_v_union_sizeof env fdesc fs).
Proof.
  intros Hfs. unfold system_v_union_sizeof, system_v_union_layout.
  destruct (union_fields env fdesc fs 0 1) as [[[m a] ps]|e] eqn:Hu; [|done].
  apply union_fields_good in Hu as (Hm & Hp & Hw); [|done|lia|done|lia].
  simpl. pose proof (pow2_pos _ Hp).
  destruct (next_offset_with_align m a) as [r|e] eqn:Hr; [|done].
  apply next_offset_divide in Hr as [? ?]; [|done..]. simpl.
  destruct (r =? 0); [apply env_good|by unfold good_result, good_layout].
Qed.

Lemma type_layout_good t : c_type t → good_info (type_layout env fdesc t).
Proof.
  apply (ctype_ind'
    (λ t, c_type t → good_info (type_layout env fdesc t))
    (λ fs, foldr (λ '(Field t _ _) P, c_type t ∧ P) True fs →
       Forall (λ f, good_info (fi_type f))
         (map (λ '(Field t b u), FieldInfo (type_layout env fdesc t) b u) fs)));
    clear t; simpl.
  - intros s a (Hs & Hp & Ha & Hd). by split; [unfold good_result, good_layout|].
  - intros t e d IH Ht. destruct d as [r|]; [done|]. destruct (IH Ht) as [Hg _].
    split; simpl; [by apply array_good|done].
  - intros fs IH Hfs. split; [|done]. apply union_good. auto.
  - intros fs IH Hfs. split; [|done]. apply struct_good. auto.
  - intros t IH Ht. destruct (IH Ht) as [Hg _]. split; [|done]. simpl.
    by destruct (size_align (type_layout env fdesc t)) as [[s a]|].
  - intros _. split; [|done]. apply env_good.
  - done.
  - intros t e IH [-> Ht]. destruct (IH Ht) as [Hg Ha]. split; [|done]. simpl.
    by destruct (size_align (type_layout env fdesc t)) as [[s a]|].
  - done.
  - done.
  - intros t b u fs IHt IHfs [Ht Hfs]. constructor; auto.
Qed.
End good.

(** C26: in every environment, the size the layout computes for a C type
    (scalars, arrays, structs and unions with bit-fields and flexible arrays,
    enums, typedefs without [aligned]) is a multiple of its alignment, and the
    alignment a power of two, so that the elements of an array of the type are
    all aligned. *)
Theorem c_type_size_multiple_of_align hq k fdesc t size align :
  c_type t → size_align (type_layout (environs (final_globals hq) k) fdesc t) = Ret (size, align) →
  0 ≤ size < 2 ^ 64 ∧ (∃ n, 0 ≤ n ∧ align = 2 ^ n) ∧ (align | size).
Proof.
  intros Ht Hsa.
  destruct (type_layout_good (environs (final_globals hq) k) fdesc) with (t := t) as [Hg _].
  - destruct hq, k; vm_compute; reflexivity.
  - destruct hq, k; vm_compute; repeat split.
  - done.
  - rewrite Hsa in Hg. destruct Hg as (Hs & Hp & _ & Hd). split; [done|].
    split; [by apply pow2_eq|done].
Qed.

Lemma c_type_size_multiple_of_align_witness :
  let t := Struct [Field (Basic 1 1) None false; Field (Basic 8 4) None false;
                   Field (Basic 4 4) (Some 3) false; Field (Array (Basic 2 2) Null None) None false] in
  size_align (type_layout (environs (final_globals false) linux_ia32)
                ifort_array_descriptor t) = Ret (16, 4)
  ∧ (4 | 16).
Proof.
  intros t.
  assert (size_align (type_layout (environs (final_globals false) linux_ia32)
                        ifort_array_descriptor t) = Ret (16, 4)) as Ht
    by (vm_compute; reflexivity).
  split; [exact Ht|].
  destruct (c_type_size_multiple_of_align false linux_ia32 ifort_array_descriptor t 16 4)
    as (_ & _ & Hd); [|exact Ht|exact Hd].
  simpl. repeat split; try lia.
  - by exists 1.
  - by exists 2.
  - by exists 1.
  - by exists 1.
Defined.

(** * Unions *)

Lemma union_fields_plain env fdesc fs sas m a :
  Forall2 plain_field fs sas → Forall (λ sa, sa.1 < 2 ^ 64) sas →
  union_fields env fdesc fs m a
  = Ret (foldl (λ m sa, Z.max m sa.1) m sas, max_align a sas, (λ _, Placement 0 None) <$> fs).
Proof.
  intros Hfs. revert m a. induction Hfs as [|f [s a'] fs sas Hf Hfs IH]; intros m a Hs; [done|].
  apply Forall_cons in Hs as [Hs1 Hs]. simpl in Hs1.
  pose proof Hf as (_ & _ & _ & Hs0 & Ha). simpl in Hs0, Ha.
  assert (roundup 0 a' = 0) as H0 by (apply roundup_multiple; [done|apply Z.divide_0_r]).
  cbn [union_fields]. rewrite (plain_layout env fdesc f s a' (LayoutState 0 a 0 false));
    simpl; rewrite ?H0; [|done|lia|lia]. simpl. by rewrite IH.
Qed.

Lemma max_size_ge m (sas : list (Z * Z)) :
  m ≤ foldl (λ m sa, Z.max m sa.1) m sas
  ∧ ∀ sa, sa ∈ sas → sa.1 ≤ foldl (λ m sa, Z.max m sa.1) m sas.
Proof.
  revert m. induction sas as [|sa sas IH]; intros m; simpl.
  - split; [lia|]. by intros sa ?%not_elem_of_nil.
  - destruct (IH (Z.max m sa.1)) as [H1 H2]. split; [lia|].
    intros sb [->|Hsb]%elem_of_cons; [lia|auto].
Qed.

Lemma max_size_lt m b (sas : list (Z * Z)) :
  m < b → Forall (λ sa, sa.1 < b) sas → foldl (λ m sa, Z.max m sa.1) m sas < b.
Proof.
  intros Hm Hs. revert m Hm. induction Hs as [|sa sas Hsa _ IH]; intros m Hm; simpl; [done|].
  apply IH. lia.
Qed.

(** The fields of a union of plain fields all start at offset 0 and end
    within it; its alignment is the largest one and its size the largest size
    rounded up to that, except that an empty union has the layout of [int]. *)
Theorem union_layout_correct env fdesc fs sas :
  Forall2 plain_field fs sas → Forall (λ sa, sa.1 < 2 ^ 63) sas → max_align 1 sas ≤ 2 ^ 63 →
  ∃ size align,
    system_v_union_layout env fdesc fs = Ret (size, align, (λ _, Placement 0 None) <$> fs)
    ∧ (∀ sa, sa ∈ sas → sa.1 ≤ size ∨ size = sizeof_signed_int env ∧ sa.1 = 0)
    ∧ (align = max_align 1 sas ∧ (align | size)
       ∨ (∀ sa, sa ∈ sas → sa.1 = 0)
         ∧ (size, align) = (sizeof_signed_int env, alignof_signed_int env)).
Proof.
  intros Hfs Hs Ha. pose proof (plain_sizes fs sas Hfs) as Hok.
  pose proof (max_align_ge 1 sas) as [Hm _]. assert (0 < max_align 1 sas) as Hma by lia.
  destruct (max_size_ge 0 sas) as [Hm0 Hms].
  set (m := foldl (λ m sa, Z.max m sa.1) 0 sas) in *.
  assert (m < 2 ^ 63) as Hmb.
  { apply max_size_lt; [lia|done]. }
  pose proof (roundup_bounds (max_align 1 sas) Hma m) as Hr.
  unfold system_v_union_layout. rewrite (union_fields_plain env fdesc fs sas); [|done|].
  2: { eapply Forall_impl; [exact Hs|]. simpl. lia. }
  rewrite bind_ret. fold m. rewrite next_offset_small by lia. rewrite bind_ret.
  destruct (Z.eqb_spec (roundup m (max_align 1 sas)) 0) as [Hz|Hz].
  - assert (∀ sa, sa ∈ sas → sa.1 = 0) as Hzero.
    { intros sa Hsa. specialize (Hms sa Hsa). rewrite Forall_forall in Hok.
      specialize (Hok sa Hsa). lia. }
    eexists _, _. split; [done|]. split; [|by right].
    intros sa Hsa. right. auto.
  - eexists _, _. split; [done|]. split.
    + intros sa Hsa. left. specialize (Hms sa Hsa). lia.
    + left. split; [done|]. by apply roundup_divide.
Qed.

Lemma union_layout_correct_witness :
  let fs := [int_field 2; FieldInfo (TypeInfo (Ret (12, 4)) None) None false; int_field 8] in
  let sas := [(2, 2); (12, 4); (8, 8)] in
  ∃ size align,
    system_v_union_layout (environs (final_globals true) linux_amd64)
      gfortran_7_or_less_array_descriptor fs
      = Ret (size, align, (λ _, Placement 0 None) <$> fs)
    ∧ (∀ sa, sa ∈ sas → sa.1 ≤ size ∨ size = 4 ∧ sa.1 = 0).
Proof.
  intros fs sas.
  destruct (union_layout_correct (environs (final_globals true) linux_amd64)
    gfortran_7_or_less_array_descriptor fs sas) as (size & align & Hl & Hs & _).
  - repeat constructor; simpl; try done.
  - repeat constructor; simpl; lia.
  - vm_compute. discriminate.
  - exists size, align. split; [exact Hl|exact Hs].
Defined.

(** * Bit-fields *)

(** Two adjacent [int] bit-fields of 4 and 5 bits followed by a [char]: the
    offset advances by the bytes of the last bit-field's width only, although
    it starts at bit 4, so the [char] is laid out at byte 1, where the
    bit-field still has bit 8. *)
Theorem bitfields_overlap_next_field k hq fdesc :
  endianness (environs (final_globals hq) k) = ENV_LITTLE_ENDIAN →
  let int b := FieldInfo (TypeInfo (Ret (4, 4)) None) (Some b) false in
  ∃ size,
    system_v_struct_layout (environs (final_globals hq) k) fdesc false [int 4; int 5; int_field 1]
    = Ret (size, 4, [Placement 0 (Some (0, 0, 3)); Placement 0 (Some (0, 4, 8)); Placement 1 None]).
Proof.
  intros He. eexists. destruct hq, k; try (vm_compute in He; discriminate He); vm_compute; reflexivity.
Qed.

Lemma bitfields_overlap_next_field_witness :
  let int b := FieldInfo (TypeInfo (Ret (4, 4)) None) (Some b) false in
  ∃ size,
    system_v_struct_layout (environs (final_globals true) linux_amd64) xlf_array_descriptor false
      [int 4; int 5; int_field 1]
    = Ret (size, 4, [Placement 0 (Some (0, 0, 3)); Placement 0 (Some (0, 4, 8)); Placement 1 None]).
Proof. refine (bitfields_overlap_next_field linux_amd64 true xlf_array_descriptor _). vm_compute. reflexivity. Defined.

(** * Fortran descriptors *)

Definition basic (t : builtin_type) : ctype := Basic (bt_size t) (bt_alignment t).

Definition member (t : ctype) : field := Field t None false.

(** The structures documented in [fortran03-typeenviron.c]. *)
Definition descriptor_dimension (index_type : ctype) : ctype :=
  Struct [member index_type; member index_type; member index_type].

Definition gfc_array_descriptor_7 (env : type_environment) (size_t index_type : ctype) (r : Z) :=
  Struct [member (basic (get_pointer_type false env)); member size_t; member index_type;
          member (Array (descriptor_dimension index_type) (Const r) None)].

Definition gfc_array_descriptor_8 (env : type_environment) (size_t index_type : ctype) (r : Z) :=
  let dtype_type :=
    Struct [member size_t; member (basic (get_signed_int_type env));
            member (basic get_signed_char_type); member (basic get_signed_char_type);
            member (basic (get_signed_short_int_type env))] in
  Struct [member (basic (get_pointer_type false env)); member size_t; member dtype_type;
          member index_type; member (Array (descriptor_dimension index_type) (Const r) None)].

Definition documented_descriptor (env : type_environment) (d : fortran_array_descriptor) (r : Z) :
    res (Z * Z) :=
  size_t ← get_size_t_type false env;
  index_type ← get_ptrdiff_t_type false env;
  match d with
  | gfortran_7_or_less_array_descriptor =>
      size_align (type_layout env d (gfc_array_descriptor_7 env (basic size_t) (basic index_type) r))
  | gfortran_8_or_greater_array_descriptor =>
      size_align (type_layout env d (gfc_array_descriptor_8 env (basic size_t) (basic index_type) r))
  | _ => Err Aborted
  end.

(** For every environment and every rank Fortran allows, the formulas for
    the descriptors of gfortran give the size and alignment that the C layout
    gives to the structures the source documents. *)
Theorem gfortran_descriptors_match_documented_structs hq :
  Forall (λ k, Forall (λ d, Forall (λ r,
    size_of_fortran_array_with_descriptor (environs (final_globals hq) k) d r
    = documented_descriptor (environs (final_globals hq) k) d r) (seqZ 0 16))
    [gfortran_7_or_less_array_descriptor; gfortran_8_or_greater_array_descriptor])
    type_environment_list.
Proof. destruct hq; apply (bool_decide_unpack _); vm_compute; exact I. Qed.
