(* ===== verification/CxxClass.v ===== *)
(** * C++ classes and their traits: [frontend/cxx-typeutils.c]

    The part of a class that the layout and the type traits read: its bases,
    its members with their [entity_specs], its destructor and its default
    constructor.  Classes are numbered in the order of their definitions, and
    the table of a program lists them with the last one first, so that the
    class [k :: P] has the number [length P] and its bases and the classes of
    its members are in [P].  The recursion of the code from a class to its
    bases is [by_class], structural on the table. *)

From S2P Require Import Prelude SystemV.
#[local] Open Scope Z_scope.

(** ** Types and members *)

(** [TScalar name] stands for the arithmetic, enumerated and pointer types,
    with one [name] for each class of equivalent types; an array has no size
    when it is unbounded; [TNamed] is a typedef-name, or the name of a class,
    with its [aligned] attribute. *)
Inductive cxx_type :=
| TScalar (name : nat) (size alignment : Z)
| TReference (is_rvalue : bool) (referenced_type : cxx_type)
| TArray (element_type : cxx_type) (size : option Z)
| TVector (element_type : cxx_type) (size alignment : Z)
| TClass (c : nat)
| TNamed (alias_type : cxx_type) (explicit_aligned : expr).

Inductive access_specifier := AS_UNKNOWN | AS_PUBLIC | AS_PRIVATE | AS_PROTECTED.

#[export] Instance access_specifier_eq_dec : EqDecision access_specifier.
Proof. solve_decision. Defined.

Record data_member := DataMember {
  type_information : cxx_type;
  bitfield_size : option Z;          (* [is_bitfield] and its constant *)
  is_unnamed_bitfield : bool;
  access : access_specifier;
  has_initializer : bool }.

Record function_specs := FunctionSpecs {
  function_symbol : nat;
  is_virtual : bool; is_trivial : bool; is_user_declared : bool;
  is_constructor : bool; is_copy_constructor : bool; is_move_constructor : bool;
  is_copy_assignment_operator : bool; is_move_assignment_operator : bool }.

Inductive class_member :=
| SK_VARIABLE (is_static : bool) (m : data_member)
| SK_FUNCTION (f : function_specs)
| SK_OTHER.

Record base_class := BaseClass {
  class_symbol : nat; base_is_virtual : bool; base_is_dependent : bool }.

Record class_type := ClassType {
  is_union : bool;
  base_classes_list : list base_class;
  members : list class_member;
  destructor : option function_specs;
  default_constructor : option function_specs }.

Notation class_table := (list class_type).

(** ** From a class to its bases *)
Fixpoint by_class {A} (none : A) (body : class_table → (nat → A) → class_type → A)
    (P : class_table) (c : nat) : A :=
  match P with
  | [] => none
  | k :: P' =>
      if decide (c = length P') then body P' (by_class none body P') k
      else by_class none body P' c
  end.

(** The class number [c], with the classes defined before it. *)
Fixpoint class_at (P : class_table) (c : nat) : option (class_table * class_type) :=
  match P with
  | [] => None
  | k :: P' => if decide (c = length P') then Some (P', k) else class_at P' c
  end.

(** ** Members *)

(** [_class_type_get_members_pred] with the predicate of each caller. *)
Definition class_type_get_nonstatic_data_members (k : class_type) : list data_member :=
  omap (λ e, match e with SK_VARIABLE false m => Some m | _ => None end) (members k).

Definition class_type_get_member_functions (k : class_type) : list function_specs :=
  omap (λ e, match e with SK_FUNCTION f => Some f | _ => None end) (members k).

Definition class_type_get_functions_pred (pred : function_specs → bool) (k : class_type) :
    list function_specs :=
  List.filter pred (class_type_get_member_functions k).

Definition class_type_get_constructors := class_type_get_functions_pred is_constructor.
Definition class_type_get_copy_constructors := class_type_get_functions_pred is_copy_constructor.
Definition class_type_get_move_constructors := class_type_get_functions_pred is_move_constructor.
Definition class_type_get_copy_assignment_operators :=
  class_type_get_functions_pred is_copy_assignment_operator.
Definition class_type_get_move_assignment_operators :=
  class_type_get_functions_pred is_move_assignment_operator.

(** The virtual functions of a class and of all its bases, dependent ones
    included; [entry_list_merge] is the union of two lists of symbols. *)
Definition virtual_functions_body (rec : nat → list nat) (k : class_type) : list nat :=
  foldl (λ result b, remove_dups (result ++ rec (class_symbol b)))
    (function_symbol <$> class_type_get_functions_pred is_virtual k) (base_classes_list k).

Definition class_type_get_virtual_functions : class_table → nat → list nat :=
  by_class [] (λ _, virtual_functions_body).

(** ** Dynamic, polymorphic and empty classes *)
Definition polymorphic_body (P : class_table) (k : class_type) : bool :=
  match virtual_functions_body (class_type_get_virtual_functions P) k with
  | [] => false
  | _ :: _ => true
  end.

Definition class_type_is_polymorphic (P : class_table) (c : nat) : bool :=
  match class_at P c with Some (P', k) => polymorphic_body P' k | None => false end.

Definition dynamic_body (P : class_table) (rec : nat → bool) (k : class_type) : bool :=
  if polymorphic_body P k then true else
  if match destructor k with Some d => is_virtual d | None => false end then true else
  existsb (λ b, if base_is_dependent b then false
                else base_is_virtual b || rec (class_symbol b)) (base_classes_list k).

Definition class_type_is_dynamic : class_table → nat → bool := by_class false dynamic_body.

Definition member_is_nonempty (m : data_member) : bool :=
  match bitfield_size m with None => true | Some b => negb (b =? 0) end.

Definition empty_body (P : class_table) (rec : nat → bool) (k : class_type) : bool :=
  if dynamic_body P (class_type_is_dynamic P) k then false else
  let num_of_non_empty_nonstatics_data_members :=
    length (List.filter member_is_nonempty (class_type_get_nonstatic_data_members k)) in
  let bases := List.filter (λ b, negb (base_is_dependent b)) (base_classes_list k) in
  let has_virtual_bases := existsb base_is_virtual bases in
  let has_nonempty_bases := existsb (λ b, negb (rec (class_symbol b))) bases in
  (num_of_non_empty_nonstatics_data_members =? 0)%nat
  && negb has_virtual_bases && negb has_nonempty_bases.

Definition class_type_is_empty : class_table → nat → bool := by_class false empty_body.

(** ** Nearly empty classes *)
Definition MCXX_MAX_SCOPES_NESTING : nat := 128.

(** The classes of [list] are those above [num_elems]. *)
Definition empty_base_not_zero_offset_body (P : class_table)
    (rec : nat → list nat → res bool) (k : class_type) (list : list nat) : res bool :=
  (fix go bases :=
    match bases with
    | [] => Ret false
    | b :: bases' =>
        if base_is_dependent b then go bases'
        else if negb (base_is_virtual b) && class_type_is_empty P (class_symbol b) then
          if decide (length list = MCXX_MAX_SCOPES_NESTING) then Err Aborted
          else if bool_decide (class_symbol b ∈ list) then Ret true
          else
            found ← rec (class_symbol b) (list ++ [class_symbol b]);
            if found : bool then Ret true else go bases'
        else go bases'
    end) (base_classes_list k).

Definition has_non_virtual_empty_base_class_not_zero_offset_rec :
    class_table → nat → list nat → res bool :=
  by_class (λ _, Err Undef) empty_base_not_zero_offset_body.

(** The loop over the bases, and [last_check] after it. *)
Fixpoint nearly_empty_bases (P : class_table) (rec : nat → res bool) (last_check : res bool)
    (seen_non_virtual_nearly_empty : bool) (bases : list base_class) : res bool :=
  match bases with
  | [] =>
      not_zero ← last_check;
      Ret (negb not_zero)
  | b :: bases' =>
      if base_is_dependent b || base_is_virtual b
      then nearly_empty_bases P rec last_check seen_non_virtual_nearly_empty bases'
      else
        nearly_empty ← rec (class_symbol b);
        if nearly_empty : bool then
          if seen_non_virtual_nearly_empty then Ret false
          else nearly_empty_bases P rec last_check true bases'
        else if class_type_is_empty P (class_symbol b)
        then nearly_empty_bases P rec last_check seen_non_virtual_nearly_empty bases'
        else Ret false
  end.

Definition nearly_empty_body (P : class_table) (rec : nat → res bool) (k : class_type) :
    res bool :=
  if negb (dynamic_body P (class_type_is_dynamic P) k) then Ret false else
  if existsb member_is_nonempty (class_type_get_nonstatic_data_members k) then Ret false else
  nearly_empty_bases P rec
    (empty_base_not_zero_offset_body P
       (has_non_virtual_empty_base_class_not_zero_offset_rec P) k [])
    false (base_classes_list k).

Definition class_type_is_nearly_empty : class_table → nat → res bool :=
  by_class (Err Undef) nearly_empty_body.

(** ** Types *)
Fixpoint advance_over_typedefs (t : cxx_type) : cxx_type :=
  match t with TNamed alias_type _ => advance_over_typedefs alias_type | _ => t end.

(** [is_class_type] and the class it finds. *)
Definition get_actual_class_type (t : cxx_type) : option nat :=
  match advance_over_typedefs t with TClass c => Some c | _ => None end.

(** Equality of types under typedefs; unbounded arrays are equivalent to each
    other only. *)
Fixpoint equivalent_types (t1 t2 : cxx_type) : bool :=
  match t1 with
  | TNamed alias_type _ => equivalent_types alias_type t2
  | TScalar n _ _ =>
      match advance_over_typedefs t2 with TScalar n' _ _ => (n =? n')%nat | _ => false end
  | TReference rv r =>
      match advance_over_typedefs t2 with
      | TReference rv' r' => Bool.eqb rv rv' && equivalent_types r r'
      | _ => false
      end
  | TArray e size =>
      match advance_over_typedefs t2 with
      | TArray e' size' =>
          if negb (equivalent_types e e') then false else
          match size, size' with
          | Some n, Some n' => n =? n'
          | None, None => true
          | _, _ => false
          end
      | _ => false
      end
  | TVector e size _ =>
      match advance_over_typedefs t2 with
      | TVector e' size' _ => (size =? size') && equivalent_types e e'
      | _ => false
      end
  | TClass c =>
      match advance_over_typedefs t2 with TClass c' => (c =? c')%nat | _ => false end
  end.

(** ** Trivial, aggregate, standard-layout and POD classes *)
Definition class_type_is_trivially_copiable (k : class_type) : bool :=
  if existsb (λ f, negb (is_trivial f)) (class_type_get_copy_constructors k) then false else
  if existsb (λ f, negb (is_trivial f)) (class_type_get_move_constructors k) then false else
  if existsb (λ f, negb (is_trivial f)) (class_type_get_copy_assignment_operators k)
  then false else
  if existsb (λ f, negb (is_trivial f)) (class_type_get_move_assignment_operators k)
  then false else
  match destructor k with Some d => is_trivial d | None => true end.

Definition class_type_is_trivial (k : class_type) : bool :=
  if match default_constructor k with Some d => negb (is_trivial d) | None => false end
  then false else class_type_is_trivially_copiable k.

Definition is_reference_type (t : cxx_type) : bool :=
  match advance_over_typedefs t with TReference _ _ => true | _ => false end.

(** The loop over the members that compares their access. *)
Fixpoint same_access (a : access_specifier) (ms : list data_member) : bool :=
  match ms with
  | [] => true
  | m :: ms' =>
      if bool_decide (a = AS_UNKNOWN) then same_access (access m) ms'
      else if bool_decide (a ≠ access m) then false else same_access a ms'
  end.

Definition standard_layout_member (rec : nat → bool) (m : data_member) : bool :=
  if is_reference_type (type_information m) then false else
  let data_member_type :=
    match advance_over_typedefs (type_information m) with
    | TArray e _ => e
    | _ => type_information m
    end in
  match get_actual_class_type data_member_type with Some c => rec c | None => true end.

Definition standard_layout_body (P : class_table) (rec : nat → bool) (k : class_type) : bool :=
  let nonstatic_data_members := class_type_get_nonstatic_data_members k in
  let bases := base_classes_list k in
  let base_members b :=
    match class_at P (class_symbol b) with
    | Some (_, kb) => class_type_get_nonstatic_data_members kb
    | None => []
    end in
  if negb (forallb (standard_layout_member rec) nonstatic_data_members) then false else
  if existsb is_virtual (class_type_get_member_functions k) then false else
  if existsb base_is_virtual bases then false else
  if negb (same_access AS_UNKNOWN nonstatic_data_members) then false else
  if negb (forallb (λ b, rec (class_symbol b)) bases) then false else
  match nonstatic_data_members with
  | [] =>
      (* [nonempty += (nonstatic_data_members != NULL)] *)
      let nonempty :=
        foldl (λ n b, n + match nonstatic_data_members with [] => 0 | _ :: _ => 1 end) 0 bases in
      negb (1 <? nonempty)
  | first_nonstatic :: _ =>
      if existsb (λ b, match base_members b with [] => true | _ :: _ => false end) bases
      then false else
      negb (existsb (λ b, equivalent_types (type_information first_nonstatic)
                            (TClass (class_symbol b))) bases)
  end.

Definition class_type_is_standard_layout : class_table → nat → bool :=
  by_class false standard_layout_body.

Definition class_is_aggregate (cxx11 : bool) (k : class_type) : bool :=
  if existsb is_user_declared (class_type_get_constructors k) then false else
  if existsb (λ m, (cxx11 && has_initializer m)
                   || bool_decide (access m = AS_PRIVATE)
                   || bool_decide (access m = AS_PROTECTED))
       (class_type_get_nonstatic_data_members k) then false else
  if negb (length (base_classes_list k) =? 0)%nat then false else
  negb (existsb is_virtual (class_type_get_member_functions k)).

Definition is_aggregate_type (cxx11 : bool) (P : class_table) (t : cxx_type) : bool :=
  match advance_over_typedefs t with
  | TArray _ _ | TVector _ _ _ => true
  | TClass c =>
      match class_at P c with Some (_, k) => class_is_aggregate cxx11 k | None => false end
  | _ => false
  end.

Fixpoint closure_of_simple_properties (class_prop : nat → bool) (t : cxx_type) : bool :=
  match t with
  | TScalar _ _ _ => true
  | TReference _ _ => false
  | TArray e _ | TVector e _ _ => closure_of_simple_properties class_prop e
  | TClass c => class_prop c
  | TNamed alias_type _ => closure_of_simple_properties class_prop alias_type
  end.

Definition pod_body (cxx11 : bool) (P : class_table) (rec : nat → bool) (k : class_type) : bool :=
  let members_are_pod :=
    forallb (λ m, closure_of_simple_properties rec (type_information m))
      (class_type_get_nonstatic_data_members k) in
  if cxx11 then
    if negb (class_type_is_trivial k)
       || negb (standard_layout_body P (class_type_is_standard_layout P) k) then false else
    members_are_pod
  else
    if negb (class_is_aggregate cxx11 k) then false else
    if negb members_are_pod then false else
    if existsb is_user_declared (class_type_get_copy_assignment_operators k) then false else
    match destructor k with Some d => negb (is_user_declared d) | None => true end.

Definition class_type_is_pod (cxx11 : bool) : class_table → nat → bool :=
  by_class false (pod_body cxx11).

Definition is_pod_type (cxx11 : bool) (P : class_table) (t : cxx_type) : bool :=
  closure_of_simple_properties (class_type_is_pod cxx11 P) t.

(** * Classes and their ancestors *)

(** The bases of the class [k], the last of [n + 1] classes, and the classes of
    its members are among the first [n]. *)
Fixpoint type_below (n : nat) (t : cxx_type) : Prop :=
  match t with
  | TScalar _ _ _ => True
  | TReference _ t' | TArray t' _ | TVector t' _ _ | TNamed t' _ => type_below n t'
  | TClass c => (c < n)%nat
  end.

Definition class_below (n : nat) (k : class_type) : Prop :=
  Forall (λ b, class_symbol b < n)%nat (base_classes_list k) ∧
  Forall (λ m, type_below n (type_information m)) (class_type_get_nonstatic_data_members k).

Fixpoint table_wf (P : class_table) : Prop :=
  match P with
  | [] => True
  | k :: P' => class_below (length P') k ∧ table_wf P'
  end.

Lemma class_at_lt P c P' k : class_at P c = Some (P', k) → (c < length P)%nat ∧ length P' = c.
Proof.
  induction P as [|k0 P IH]; simpl; [done|]. case_decide; [intros; simplify_eq; lia|].
  intros H'. destruct (IH H'). lia.
Qed.

Lemma class_at_is_Some P c : (c < length P)%nat → ∃ P' k, class_at P c = Some (P', k).
Proof.
  induction P as [|k P IH]; simpl; [lia|]. intros Hc. case_decide; [eauto|]. apply IH. lia.
Qed.

Lemma class_at_wf P c P' k :
  table_wf P → class_at P c = Some (P', k) → class_below c k ∧ table_wf P'.
Proof.
  induction P as [|k0 P IH]; simpl; [done|]. intros [Hk HP].
  case_decide; [intros; by simplify_eq|auto].
Qed.

(** The classes before [c] are the same in the table that ends before [c]. *)
Lemma class_at_older P c P' k b :
  class_at P c = Some (P', k) → (b < c)%nat → class_at P' b = class_at P b.
Proof.
  induction P as [|k0 P IH]; simpl; [done|]. intros Hc Hb. case_decide as Hd.
  - simplify_eq. by rewrite decide_False by lia.
  - rewrite (decide_False (P := b = _)); [auto|]. apply class_at_lt in Hc. lia.
Qed.

Section by_class.
Context {A : Type} (none : A) (body : class_table → (nat → A) → class_type → A).

Lemma by_class_eq P c P' k :
  class_at P c = Some (P', k) →
  by_class none body P c = body P' (by_class none body P') k.
Proof.
  induction P as [|k0 P IH]; simpl; [done|]. case_decide; [intros; by simplify_eq|auto].
Qed.

Lemma by_class_older P c P' k b :
  class_at P c = Some (P', k) → (b < c)%nat →
  by_class none body P' b = by_class none body P b.
Proof.
  induction P as [|k0 P IH]; simpl; [done|]. intros Hc Hb. case_decide as Hd.
  - simplify_eq. by rewrite decide_False by lia.
  - rewrite (decide_False (P := b = _)); [auto|]. apply class_at_lt in Hc. lia.
Qed.
End by_class.

(** [c] has the base [b], through a specifier that satisfies [Q]. *)
Definition direct_base (Q : base_class → Prop) (P : class_table) (c b : nat) : Prop :=
  ∃ P' k bc, class_at P c = Some (P', k) ∧ bc ∈ base_classes_list k
             ∧ Q bc ∧ class_symbol bc = b.

(** [c] is derived from [c'], or is [c'], and [c'] satisfies [R]. *)
Definition ancestor (Q : base_class → Prop) (P : class_table) (R : class_type → Prop) (c : nat) :=
  ∃ c' P' k, rtc (direct_base Q P) c c' ∧ class_at P c' = Some (P', k) ∧ R k.

Lemma ancestor_step Q P R c P' k :
  class_at P c = Some (P', k) →
  ancestor Q P R c ↔
    R k ∨ ∃ bc, bc ∈ base_classes_list k ∧ Q bc ∧ ancestor Q P R (class_symbol bc).
Proof.
  intros Hc. split.
  - intros (c' & P1 & k1 & Hr & Hc' & HR). inversion Hr as [|? b ? Hb Hr']; simplify_eq.
    + by left.
    + right. destruct Hb as (P2 & k2 & bc & Hc2 & Hbc & HQ & <-). simplify_eq.
      exists bc. split_and!; [done|done|]. by exists c', P1, k1.
  - intros [HR|(bc & Hbc & HQ & c' & P1 & k1 & Hr & Hc' & HR)].
    + exists c, P', k. split_and!; [apply rtc_refl|done|done].
    + exists c', P1, k1. split_and!; [|done|done]. eapply rtc_l; [|done].
      exists P', k, bc. done.
Qed.

Lemma base_below P c P' k bc :
  table_wf P → class_at P c = Some (P', k) → bc ∈ base_classes_list k →
  (class_symbol bc < c)%nat.
Proof.
  intros Hwf Hc Hbc. destruct (class_at_wf _ _ _ _ Hwf Hc) as [[Hb _] _].
  rewrite Forall_forall in Hb. auto.
Qed.

(** Induction on classes: the bases of a class come before it. *)
Lemma class_ind (P : class_table) (Φ : nat → class_table → class_type → Prop) :
  table_wf P →
  (∀ c P' k, class_at P c = Some (P', k) → table_wf P' →
     (∀ b Pb kb, (b < c)%nat → class_at P b = Some (Pb, kb) → Φ b Pb kb) → Φ c P' k) →
  ∀ c P' k, class_at P c = Some (P', k) → Φ c P' k.
Proof.
  intros Hwf IH c. induction (lt_wf c) as [c _ IHc]. intros P' k Hc.
  apply IH; [done|by eapply class_at_wf|eauto].
Qed.

(** * Virtual functions, dynamic and empty classes *)
Lemma elem_of_merged_bases (rec : nat → list nat) x bs l :
  x ∈ foldl (λ result b, remove_dups (result ++ rec (class_symbol b))) l bs ↔
  x ∈ l ∨ ∃ b, b ∈ bs ∧ x ∈ rec (class_symbol b).
Proof.
  revert l. induction bs as [|b bs IH]; intros l; simpl.
  - split; [by left|]. intros [H|(b & Hb & _)]; [done|by apply not_elem_of_nil in Hb].
  - rewrite IH, elem_of_remove_dups, elem_of_app. setoid_rewrite elem_of_cons. naive_solver.
Qed.

Definition has_virtual_function (x : nat) (k : class_type) : Prop :=
  x ∈ function_symbol <$> class_type_get_functions_pred is_virtual k.

Lemma elem_of_virtual_functions P c x :
  table_wf P → (c < length P)%nat →
  x ∈ class_type_get_virtual_functions P c ↔
  ancestor (λ _, True) P (has_virtual_function x) c.
Proof.
  intros Hwf. induction (lt_wf c) as [c _ IH]. intros Hlt.
  destruct (class_at_is_Some P c Hlt) as (P' & k & Hc).
  rewrite (ancestor_step _ _ _ _ _ _ Hc). unfold class_type_get_virtual_functions at 1.
  rewrite (by_class_eq _ _ _ _ _ _ Hc). fold class_type_get_virtual_functions.
  unfold virtual_functions_body. rewrite elem_of_merged_bases.
  apply or_iff_compat_l. split; intros (b & Hb & Hx); exists b.
  - pose proof (base_below _ _ _ _ _ Hwf Hc Hb).
    split_and!; [done|done|]. apply IH; [done|lia|].
    by rewrite <-(by_class_older [] (λ _, virtual_functions_body) P c P' k).
  - destruct Hx as [_ Hx]. pose proof (base_below _ _ _ _ _ Hwf Hc Hb).
    split; [done|]. rewrite (by_class_older [] (λ _, virtual_functions_body) P c P' k) by done.
    apply IH; [done|lia|done].
Qed.

(** A virtual function of the class or of an ancestor, a virtual destructor or
    a virtual base of the class or of a non-dependent ancestor. *)
Definition nondependent (b : base_class) : Prop := base_is_dependent b = false.

Definition has_virtuals (k : class_type) : Prop :=
  class_type_get_functions_pred is_virtual k ≠ [].

Definition virtual_dtor_or_base (k : class_type) : Prop :=
  (∃ d, destructor k = Some d ∧ is_virtual d = true) ∨
  ∃ b, b ∈ base_classes_list k ∧ nondependent b ∧ base_is_virtual b = true.

Definition dynamic (P : class_table) (c : nat) : Prop :=
  ancestor (λ _, True) P has_virtuals c ∨ ancestor nondependent P virtual_dtor_or_base c.

Lemma polymorphic_iff P c P' k :
  table_wf P → class_at P c = Some (P', k) →
  polymorphic_body P' k = true ↔ ancestor (λ _, True) P has_virtuals c.
Proof.
  intros Hwf Hc. pose proof (class_at_lt _ _ _ _ Hc) as [Hlt _].
  assert (virtual_functions_body (class_type_get_virtual_functions P') k
          = class_type_get_virtual_functions P c) as He.
  { symmetry. unfold class_type_get_virtual_functions. by rewrite (by_class_eq _ _ _ _ _ _ Hc). }
  unfold polymorphic_body. rewrite He.
  assert ((∃ x, x ∈ class_type_get_virtual_functions P c) ↔
          ancestor (λ _, True) P has_virtuals c) as <-.
  { setoid_rewrite elem_of_virtual_functions; [|done|done].
    unfold ancestor, has_virtuals, has_virtual_function. split.
    - intros (x & c' & P1 & k1 & Hr & Hc1 & Hx). exists c', P1, k1. split_and!; [done|done|].
      intros He'. rewrite He' in Hx. by apply not_elem_of_nil in Hx.
    - intros (c' & P1 & k1 & Hr & Hc1 & Hx).
      destruct (class_type_get_functions_pred is_virtual k1) as [|f fs] eqn:Hf; [done|].
      exists (function_symbol f), c', P1, k1. rewrite Hf. split_and!; [done|done|by left]. }
  destruct (class_type_get_virtual_functions P c) as [|x l]; simpl; split; try done.
  - intros [x Hx]. by apply not_elem_of_nil in Hx.
  - intros _. exists x. by left.
Qed.

Lemma existsb_iff {A} (f : A → bool) l : existsb f l = true ↔ ∃ x, x ∈ l ∧ f x = true.
Proof. rewrite existsb_exists. by setoid_rewrite list_elem_of_In. Qed.

Lemma forallb_iff {A} (f : A → bool) l : forallb f l = true ↔ ∀ x, x ∈ l → f x = true.
Proof. rewrite forallb_forall. by setoid_rewrite list_elem_of_In. Qed.

Lemma or_true_iff (a b c : bool) (A B : Prop) :
  (a = true ↔ A) → (b = true ∨ c = true ↔ B) →
  (if a then true else if b then true else c) = true ↔ A ∨ B.
Proof. destruct a, b; naive_solver. Qed.

Lemma dynamic_body_iff P c P' k :
  table_wf P → class_at P c = Some (P', k) →
  (∀ b, (b < c)%nat → class_type_is_dynamic P' b = true ↔ dynamic P b) →
  dynamic_body P' (class_type_is_dynamic P') k = true ↔ dynamic P c.
Proof.
  intros Hwf Hc IH. unfold dynamic at 1, dynamic_body.
  assert (∀ A B C : Prop, (A ↔ B) → A ∨ C ↔ B ∨ C) by tauto.
  transitivity (ancestor (λ _, True) P has_virtuals c ∨
    (virtual_dtor_or_base k ∨
     ∃ bc, bc ∈ base_classes_list k ∧ nondependent bc ∧ dynamic P (class_symbol bc))).
  - apply or_true_iff; [by apply polymorphic_iff|].
    rewrite existsb_iff. unfold virtual_dtor_or_base, nondependent. split.
    + intros [Hd|(b & Hb & Hv)].
      * left. left. destruct (destructor k) as [d|]; [eauto|done].
      * destruct (base_is_dependent b) eqn:Hdep; [done|].
        apply orb_true_iff in Hv as [Hv|Hv]; [left; right; eauto|].
        right. exists b. split_and!; [done|done|].
        apply IH; [by eapply base_below|done].
    + intros [[(d & -> & Hd)|(b & Hb & Hdep & Hv)]|(b & Hb & Hdep & Hv)].
      * by left.
      * right. exists b. rewrite Hdep, Hv. done.
      * right. exists b. rewrite Hdep. split; [done|]. apply orb_true_iff. right.
        apply IH; [by eapply base_below|done].
  - rewrite (ancestor_step nondependent _ _ _ _ _ Hc). unfold dynamic. split.
    + intros [H'|[H'|(bc & Hbc & Hdep & [H'|H'])]]; [by left|right; by left| |].
      * left. rewrite (ancestor_step _ _ _ _ _ _ Hc). right. eauto.
      * right. right. eauto.
    + intros [H'|[H'|(bc & Hbc & Hdep & H')]]; [by left|right; by left|].
      right. right. exists bc. eauto.
Qed.

Lemma is_dynamic_iff P c :
  table_wf P → (c < length P)%nat → class_type_is_dynamic P c = true ↔ dynamic P c.
Proof.
  intros Hwf. induction (lt_wf c) as [c _ IH]. intros Hlt.
  destruct (class_at_is_Some P c Hlt) as (P' & k & Hc).
  unfold class_type_is_dynamic at 1. rewrite (by_class_eq _ _ _ _ _ _ Hc).
  fold class_type_is_dynamic. apply dynamic_body_iff; [done..|].
  intros b Hb. unfold class_type_is_dynamic.
  rewrite (by_class_older _ _ _ _ _ _ _ Hc Hb). apply IH; [done|lia].
Qed.

Lemma dynamic_at P c P' k :
  class_at P c = Some (P', k) →
  dynamic_body P' (class_type_is_dynamic P') k = class_type_is_dynamic P c.
Proof. intros Hc. symmetry. apply (by_class_eq _ _ _ _ _ _ Hc). Qed.

Lemma dynamic_base P c P' k bc :
  class_at P c = Some (P', k) → bc ∈ base_classes_list k → nondependent bc →
  dynamic P (class_symbol bc) → dynamic P c.
Proof.
  intros Hc Hbc Hdep [H|H]; [left|right]; rewrite (ancestor_step _ _ _ _ _ _ Hc); right; eauto.
Qed.

(** A data member that is not a bit-field of width zero. *)
Definition has_data (k : class_type) : Prop :=
  ∃ m, m ∈ class_type_get_nonstatic_data_members k ∧ member_is_nonempty m = true.

Definition empty (P : class_table) (c : nat) : Prop :=
  ¬ dynamic P c ∧ ¬ ancestor nondependent P has_data c.

Lemma filter_none {A} (f : A → bool) l :
  (length (List.filter f l) =? 0)%nat = true ↔ ∀ x, x ∈ l → f x = false.
Proof.
  rewrite Nat.eqb_eq. induction l as [|y l IH]; simpl.
  - split; [|done]. by intros _ x ?%not_elem_of_nil.
  - setoid_rewrite elem_of_cons. destruct (f y) eqn:Hy; simpl.
    + split; [done|]. intros H. rewrite H in Hy by (by left). done.
    + rewrite IH. naive_solver.
Qed.

Lemma negb_existsb_filter {A} (f g : A → bool) l :
  negb (existsb f (List.filter g l)) = true ↔ ∀ x, x ∈ l → g x = true → f x = false.
Proof.
  rewrite negb_true_iff, <-not_true_iff_false, existsb_iff.
  setoid_rewrite list_elem_of_In. setoid_rewrite filter_In.
  setoid_rewrite <-not_true_iff_false. naive_solver.
Qed.

Lemma is_empty_iff P c :
  table_wf P → (c < length P)%nat → class_type_is_empty P c = true ↔ empty P c.
Proof.
  intros Hwf. induction (lt_wf c) as [c _ IH]. intros Hlt.
  destruct (class_at_is_Some P c Hlt) as (P' & k & Hc).
  unfold class_type_is_empty at 1. rewrite (by_class_eq _ _ _ _ _ _ Hc).
  fold class_type_is_empty. unfold empty_body. rewrite (dynamic_at _ _ _ _ Hc).
  pose proof (is_dynamic_iff P c Hwf Hlt) as Hd. unfold empty.
  destruct (class_type_is_dynamic P c); [naive_solver|].
  assert (¬ dynamic P c) as Hnd by naive_solver. clear Hd.
  rewrite !andb_true_iff, filter_none, !negb_existsb_filter.
  assert (∀ b, b ∈ base_classes_list k → base_is_dependent b = false →
    class_type_is_empty P' (class_symbol b) = true ↔ empty P (class_symbol b)) as IHb.
  { intros b Hb Hdep. pose proof (base_below _ _ _ _ _ Hwf Hc Hb) as Hbc.
    unfold class_type_is_empty. rewrite (by_class_older _ _ _ _ _ _ _ Hc Hbc). apply IH; [done|lia]. }
  rewrite (ancestor_step _ _ _ _ _ _ Hc). unfold has_data at 1. split.
  - intros [[Hm Hv] Hb]. split; [done|]. intros [(m & Hin & Hm')|(b & Hin & Hdep & Hanc)].
    + rewrite Hm in Hm' by done. done.
    + specialize (Hb b Hin). rewrite Hdep in Hb. apply (IHb b Hin Hdep); [|done].
      apply negb_false_iff. auto.
  - intros [_ Hno]. split_and!.
    + intros m Hm. apply not_true_iff_false. intros H'. apply Hno. left. by exists m.
    + intros b Hb Hdep%negb_true_iff. apply not_true_iff_false. intros Hv. apply Hnd. right.
      rewrite (ancestor_step _ _ _ _ _ _ Hc). left. right. exists b. done.
    + intros b Hb Hdep%negb_true_iff. apply negb_false_iff, (IHb b Hb Hdep). split.
      * intros H'. apply Hnd. by eapply dynamic_base.
      * intros H'. apply Hno. right. exists b. done.
Qed.

(** [class_type_is_polymorphic], [class_type_is_dynamic] and
    [class_type_is_empty] of a well-formed table: a class is polymorphic when
    it or an ancestor has a virtual function; it is dynamic when moreover it
    or an ancestor has a virtual destructor or a virtual base; and it is empty
    when it is not dynamic and neither it nor an ancestor has a data member
    other than bit-fields of width zero. *)
Theorem class_predicates_characterised P c :
  table_wf P → (c < length P)%nat →
  (class_type_is_polymorphic P c = true ↔ ancestor (λ _, True) P has_virtuals c)
  ∧ (class_type_is_dynamic P c = true ↔ dynamic P c)
  ∧ (class_type_is_empty P c = true ↔ empty P c).
Proof.
  intros Hwf Hlt. split_and!; [|by apply is_dynamic_iff|by apply is_empty_iff].
  unfold class_type_is_polymorphic.
  destruct (class_at_is_Some P c Hlt) as (P' & k & Hc). rewrite Hc. by apply polymorphic_iff.
Qed.

(** * The search for an empty base at a nonzero offset *)

(** The list of the search holds the classes on the path from the class to its
    base, and a base is never on the path to itself: the search finds nothing,
    whatever the hierarchy. *)
Lemma search_step P (rec : nat → list nat → res bool) k (l : list nat) n :
  Forall (λ b, class_symbol b < n)%nat (base_classes_list k) →
  Forall (λ x, n ≤ x)%nat l →
  (∀ b, (b < n)%nat → rec b (l ++ [b]) = Ret false ∨ rec b (l ++ [b]) = Err Aborted) →
  empty_base_not_zero_offset_body P rec k l = Ret false
  ∨ empty_base_not_zero_offset_body P rec k l = Err Aborted.
Proof.
  intros Hb Hl Hrec. unfold empty_base_not_zero_offset_body.
  induction Hb as [|b bs Hb _ IH]; simpl; [by left|].
  destruct (base_is_dependent b); [done|]. destruct (negb _ && _); [|done].
  case_decide; [by right|]. rewrite bool_decide_false.
  - destruct (Hrec (class_symbol b) Hb) as [->| ->]; simpl; [done|by right].
  - intros Hin. rewrite Forall_forall in Hl. specialize (Hl _ Hin). lia.
Qed.

Lemma search_finds_nothing P c l :
  table_wf P → (c < length P)%nat → Forall (λ x, c ≤ x)%nat l →
  has_non_virtual_empty_base_class_not_zero_offset_rec P c l = Ret false
  ∨ has_non_virtual_empty_base_class_not_zero_offset_rec P c l = Err Aborted.
Proof.
  intros Hwf. revert l. induction (lt_wf c) as [c _ IH]. intros l Hlt Hl.
  destruct (class_at_is_Some P c Hlt) as (P' & k & Hc).
  destruct (class_at_wf _ _ _ _ Hwf Hc) as [[Hb _] _].
  unfold has_non_virtual_empty_base_class_not_zero_offset_rec.
  rewrite (by_class_eq _ _ _ _ _ _ Hc).
  eapply search_step; [done|done|]. intros b Hbc.
  rewrite (by_class_older _ _ _ _ _ _ _ Hc Hbc). apply IH; [done|lia|].
  rewrite Forall_app. split.
  - eapply Forall_impl; [done|]. simpl. lia.
  - by constructor.
Qed.

(** The last check of [class_type_is_nearly_empty], that no empty base is
    laid out at a nonzero offset, never makes a class other than nearly empty:
    the search keeps the path to the base, not the bases it has met, so it
    never finds a repeated base.  It only aborts, beyond 128 nested bases. *)
Theorem nearly_empty_check_is_vacuous P c P' k :
  table_wf P → class_at P c = Some (P', k) →
  class_type_is_dynamic P c = true →
  existsb member_is_nonempty (class_type_get_nonstatic_data_members k) = false →
  class_type_is_nearly_empty P c = 
    nearly_empty_bases P' (class_type_is_nearly_empty P') (Ret false) false (base_classes_list k)
  ∨ class_type_is_nearly_empty P c = Err Aborted.
Proof.
  intros Hwf Hc Hd Hm.
  set (check := empty_base_not_zero_offset_body P'
    (has_non_virtual_empty_base_class_not_zero_offset_rec P') k []).
  assert (class_type_is_nearly_empty P c
    = nearly_empty_bases P' (class_type_is_nearly_empty P') check false (base_classes_list k)) as ->.
  { unfold class_type_is_nearly_empty at 1. rewrite (by_class_eq _ _ _ _ _ _ Hc).
    unfold nearly_empty_body. by rewrite (dynamic_at _ _ _ _ Hc), Hd, Hm. }
  destruct (class_at_wf _ _ _ _ Hwf Hc) as [[Hb _] Hwf']. pose proof (class_at_lt _ _ _ _ Hc) as [_ Hn].
  assert (check = Ret false ∨ check = Err Aborted) as Hcheck.
  { apply (search_step _ _ _ _ c); [done|by constructor|]. intros b Hbc.
    apply search_finds_nothing; [done|lia|by constructor]. }
  destruct Hcheck as [Hck|Hck]; rewrite Hck; [by left|].
  cut (∀ seen bs, let r last := nearly_empty_bases P' (class_type_is_nearly_empty P') last seen bs in
    r (Err Aborted) = r (Ret false) ∨ r (Err Aborted) = Err Aborted); [auto|].
  intros seen bs. revert seen. induction bs as [|b bs IH]; intros seen; simpl; [by right|].
  destruct (base_is_dependent b || base_is_virtual b); simpl; [apply IH|].
  destruct (class_type_is_nearly_empty P' (class_symbol b)) as [[]|]; simpl; [| |by left].
  - destruct seen; [by left|apply IH].
  - destruct (class_type_is_empty P' (class_symbol b)); [apply IH|by left].
Qed.

(** * Examples *)
Definition plain_member (t : cxx_type) : class_member :=
  SK_VARIABLE false (DataMember t None false AS_PUBLIC false).
Definition virtual_member : class_member :=
  SK_FUNCTION (FunctionSpecs 7 true false true false false false false false).
Definition derived (bases : list nat) (ms : list class_member) : class_type :=
  ClassType false ((λ c, BaseClass c false false) <$> bases) ms None None.

(** [struct E { }; struct V { virtual void f(); }; struct D : E, V { };], the
    last one first. *)
Definition three_classes : class_table :=
  [derived [0%nat; 1%nat] []; derived [] [virtual_member]; derived [] []].

Lemma three_classes_wf : table_wf three_classes.
Proof. repeat split; repeat (constructor; simpl; try lia). Qed.

Lemma class_predicates_characterised_witness :
  dynamic three_classes 2 ∧ empty three_classes 0
  ∧ ancestor (λ _, True) three_classes has_virtuals 2.
Proof.
  destruct (class_predicates_characterised three_classes 2 three_classes_wf) as (Hp & Hd & _);
    [simpl; lia|].
  destruct (class_predicates_characterised three_classes 0 three_classes_wf) as (_ & _ & He);
    [simpl; lia|].
  split; [apply Hd; vm_compute; reflexivity|].
  split; [apply He; vm_compute; reflexivity|apply Hp; vm_compute; reflexivity].
Defined.

(** [struct E { }; struct A : E { }; struct B : E { };
    struct D : A, B { virtual void f(); };]  One of the two [E] of [D] is at a
    nonzero offset, and [D] is found nearly empty. *)
Definition repeated_empty_base : class_table :=
  [derived [1%nat; 2%nat] [virtual_member]; derived [0%nat] []; derived [0%nat] []; derived [] []].

Lemma nearly_empty_check_is_vacuous_witness :
  nearly_empty_bases (tail repeated_empty_base) (class_type_is_nearly_empty (tail repeated_empty_base))
    (Ret false) false (base_classes_list (derived [1%nat; 2%nat] [])) = Ret true
  ∧ class_type_is_nearly_empty repeated_empty_base 3 = Ret true.
Proof.
  assert (table_wf repeated_empty_base) as Hwf
    by (repeat split; repeat (constructor; simpl; try lia)).
  split; [vm_compute; reflexivity|].
  destruct (nearly_empty_check_is_vacuous repeated_empty_base 3 (tail repeated_empty_base)
    (derived [1%nat; 2%nat] [virtual_member])) as [H|H].
  - exact Hwf.
  - reflexivity.
  - vm_compute. reflexivity.
  - vm_compute. reflexivity.
  - rewrite H. vm_compute. reflexivity.
  - exfalso. revert H. vm_compute. discriminate.
Defined.

(** The comment of [class_type_is_standard_layout] asks for data members in at
    most one class of the hierarchy.  Two bases with data members are not
    counted, and a base without data members is refused when the class has
    some. *)
Lemma standard_layout_two_bases_with_data :
  class_type_is_standard_layout
    [derived [0%nat; 1%nat] []; derived [] [plain_member (TScalar 0 4 4)];
     derived [] [plain_member (TScalar 0 4 4)]] 2 = true.
Proof. vm_compute. reflexivity. Qed.

Lemma standard_layout_empty_base_refused :
  class_type_is_standard_layout
    [derived [0%nat] [plain_member (TScalar 0 4 4)]; derived [] []] 1 = false
  ∧ class_type_is_standard_layout
      [derived [0%nat] [plain_member (TScalar 0 4 4)];
       derived [] [plain_member (TScalar 1 1 1)]] 1 = true.
Proof. split; vm_compute; reflexivity. Qed.
