(* ===== verification/ItaniumAbi.v ===== *)
(** * The Itanium layout of C++ classes: [frontend/cxx-typeenviron.c]

    [cxx_abi_generic_sizeof] and the functions it calls: the primary base, the
    register of the subobjects of a class by offset, the search for
    conflicts of empty bases, bit-fields, and the layout of bases, members and
    virtual bases.  Classes are laid out in the order of their definitions
    ([layout_program]): the code computes the layout of a class when its size
    is first asked for and caches it, which gives the same result as long as a
    class does not contain itself. *)

From S2P Require Import Prelude TypeEnviron FortranDescr SystemV CxxClass.
#[local] Open Scope Z_scope.

(** ** State *)

(** What the layout stores in a class, its bases and its members. *)
Record class_layout := ClassLayout {
  cl_size : Z; cl_align : Z; cl_data_size : Z;
  non_virtual_size : Z; non_virtual_align : Z;
  base_offsets : list Z;                          (* one per direct base *)
  virtual_base_classes_list : list (nat * Z);
  placements : list placement }.                  (* one per data member *)

(** A symbol with an offset: a base class or a data member. *)
Inductive scope_entry := Base (c : nat) | Member (m : data_member).

Definition entry_type (e : scope_entry) : cxx_type :=
  match e with Base c => TClass c | Member m => type_information m end.

(** [offset_info_t]: the subobjects at each offset. *)
Notation offset_info := (list (Z * list scope_entry)).

Record layout_info := LayoutInfo {
  dsize : Z; size : Z; align : Z;
  offsets : offset_info;
  previous_was_bitfield : bool; bit_within_bitfield : Z;
  previous_base : option nat }.       (* [previous_was_base] when not null *)

(** The offsets given so far to the parts of the class under layout. *)
Record class_offsets := ClassOffsets {
  co_bases : list Z; co_virtual : list (nat * Z); co_placements : list placement }.

Definition MCXX_MAX_CLASS_BASES : nat := 256.

(** ** Bases *)
Notation base_info := (list (nat * bool)).

Definition preorder_body (rec : nat → base_info → res base_info) (k : class_type)
    (info : base_info) : res base_info :=
  if decide (length info = MCXX_MAX_CLASS_BASES) then Err Aborted else
  for_each (λ b info,
    if base_is_dependent b then Ret info else
    let is_found :=
      existsb (λ '(entry, virtual),
        (entry =? class_symbol b)%nat && virtual && base_is_virtual b) info in
    if is_found then Ret info
    else rec (class_symbol b) (info ++ [(class_symbol b, base_is_virtual b)]))
    (base_classes_list k) info.

Definition class_type_preorder_all_bases_rec : class_table → nat → base_info → res base_info :=
  by_class (λ _, Err Undef) (λ _, preorder_body).

Definition class_type_preorder_all_bases (P : class_table) (k : class_type) : res base_info :=
  preorder_body (class_type_preorder_all_bases_rec P) k [].

(** [get_primary] is [cxx_abi_class_type_get_primary_base_class] on the bases. *)
Definition class_type_get_indirect_virtual_primary_bases
    (get_primary : nat → res (option (nat * bool))) (bases : base_info) : res (list nat) :=
  for_each (λ '(b, _) indirect_primary_bases,
    primary ← get_primary b;
    match primary with
    | Some (entry, true) =>
        if existsb (Nat.eqb entry) indirect_primary_bases then Ret indirect_primary_bases
        else if decide (length indirect_primary_bases = MCXX_MAX_CLASS_BASES) then Err Aborted
        else Ret (indirect_primary_bases ++ [entry])
    | _ => Ret indirect_primary_bases
    end) bases [].

(** The first nearly empty virtual base that is no indirect primary base, or
    the first one of all. *)
Fixpoint first_nearly_empty (P : class_table) (primaries : list nat)
    (first_ne_virtual_base : option nat) (bases : base_info) : res (option nat) :=
  match bases with
  | [] => Ret first_ne_virtual_base
  | (b, is_virtual) :: bases' =>
      nearly_empty ← (if is_virtual : bool then class_type_is_nearly_empty P b else Ret false);
      if nearly_empty : bool then
        let first := match first_ne_virtual_base with None => Some b | f => f end in
        if existsb (Nat.eqb b) primaries
        then first_nearly_empty P primaries first bases'
        else Ret (Some b)
      else first_nearly_empty P primaries first_ne_virtual_base bases'
  end.

Definition primary_base_body (P : class_table) (rec : nat → res (option (nat * bool)))
    (k : class_type) : res (option (nat * bool)) :=
  bases ← class_type_preorder_all_bases P k;
  primaries ← class_type_get_indirect_virtual_primary_bases rec bases;
  match List.find (λ b, negb (base_is_dependent b) && negb (base_is_virtual b)
                        && class_type_is_dynamic P (class_symbol b)) (base_classes_list k)
  return res (option (nat * bool)) with
  | Some b => Ret (Some (class_symbol b, false))
  | None =>
      entry ← first_nearly_empty P primaries None bases;
      Ret (option_map (λ b, (b, true)) entry)
  end.

Definition cxx_abi_class_type_get_primary_base_class :
    class_table → nat → res (option (nat * bool)) :=
  by_class (Err Undef) primary_base_body.

(** ** Offsets of subobjects *)

(** The offset of the first base of the list with that symbol. *)
Fixpoint offset_direct_base (bases : list base_class) (os : list Z) (direct_base : nat) : res Z :=
  match bases, os with
  | b :: bases', o :: os' =>
      if (class_symbol b =? direct_base)%nat then Ret o
      else offset_direct_base bases' os' direct_base
  | _, _ => Err Aborted
  end.

Definition class_type_get_offset_direct_base (k : class_type) (l : class_layout) (direct_base : nat) :
    res Z :=
  offset_direct_base (base_classes_list k) (base_offsets l) direct_base.

Fixpoint class_type_set_offset_direct_base (bases : list base_class) (os : list Z)
    (direct_base : nat) (base_offset : Z) : res (list Z) :=
  match bases, os with
  | b :: bases', o :: os' =>
      if (class_symbol b =? direct_base)%nat then Ret (base_offset :: os')
      else
        os'' ← class_type_set_offset_direct_base bases' os' direct_base base_offset;
        Ret (o :: os'')
  | _, _ => Err Aborted
  end.

Fixpoint class_type_set_offset_virtual_base (vs : list (nat * Z)) (virtual_base : nat)
    (offset : Z) : list (nat * Z) :=
  match vs with
  | [] => [(virtual_base, offset)]
  | (b, o) :: vs' =>
      if (b =? virtual_base)%nat then (b, offset) :: vs'
      else (b, o) :: class_type_set_offset_virtual_base vs' virtual_base offset
  end.

(** Offsets are kept in increasing order; an entry goes first at its offset. *)
Fixpoint cxx_abi_register_entity_offset (info : offset_info) (entry : scope_entry) (offset : Z) :
    offset_info :=
  match info with
  | [] => [(offset, [entry])]
  | (o, subobjects) :: info' =>
      if o =? offset then (o, entry :: subobjects) :: info'
      else if offset <? o then (offset, [entry]) :: info
      else (o, subobjects) :: cxx_abi_register_entity_offset info' entry offset
  end.

Section layouts.
Context (layout_of : nat → res class_layout).

(** The nonvirtual bases of a base, its data members and then the base. *)
Definition register_body (P : class_table) (rec : nat → Z → offset_info → res offset_info)
    (k : class_type) (chosen_offset : Z) (info : offset_info) : res offset_info :=
  l ← layout_of (length P);
  info ← for_each (λ b info,
    if base_is_dependent b then Ret info else
    if base_is_virtual b then Ret info else
    base_offset ← class_type_get_offset_direct_base k l (class_symbol b);
    rec (class_symbol b) (u64 (chosen_offset + base_offset)) info)
    (base_classes_list k) info;
  let info :=
    foldl (λ info '(m, p),
      match bitfield_size m with
      | Some _ => info
      | None =>
          cxx_abi_register_entity_offset info (Member m) (u64 (chosen_offset + field_offset p))
      end) info (zip (class_type_get_nonstatic_data_members k) (placements l)) in
  Ret (cxx_abi_register_entity_offset info (Base (length P)) chosen_offset).

Definition register_base (P : class_table) : nat → Z → offset_info → res offset_info :=
  by_class (λ _ _, Err Undef) register_body P.

Definition cxx_abi_register_subobject_offset (P : class_table) (info : offset_info)
    (member : scope_entry) (chosen_offset : Z) : res offset_info :=
  match member with
  | Base c => register_base P c chosen_offset info
  | Member _ => Ret (cxx_abi_register_entity_offset info member chosen_offset)
  end.

(** An entry of an equivalent type is registered at the offset. *)
Definition conflicts_at (info : offset_info) (t : cxx_type) (candidate_offset : Z) : bool :=
  existsb (λ '(o, subobjects),
    (o =? candidate_offset)
    && existsb (λ e, equivalent_types (entry_type e) t) subobjects) info.

(** Looks for a conflict among the elements of a list, in order. *)
Fixpoint any_conflict {A} (check : A → res bool) (xs : list A) : res bool :=
  match xs with
  | [] => Ret false
  | x :: xs' =>
      conflict ← check x;
      if conflict : bool then Ret true else any_conflict check xs'
  end.

(** [cxx_abi_conflicting_member] on a base class: [rec] is its second half. *)
Definition conflicting_class (info : offset_info) (rec : nat → Z → res bool) (base : nat)
    (offset : Z) : res bool :=
  if conflicts_at info (TClass base) offset then Ret true else rec base offset.

(** The second half of [cxx_abi_conflicting_member]: the nonvirtual bases and
    then the virtual bases of the class of the member. *)
Definition conflicting_bases_body (info : offset_info) (P : class_table)
    (rec : nat → Z → res bool) (k : class_type) (candidate_offset : Z) : res bool :=
  l ← layout_of (length P);
  conflict ← any_conflict (λ b,
    if base_is_dependent b then Ret false else
    if base_is_virtual b then Ret false else
    base_offset ← class_type_get_offset_direct_base k l (class_symbol b);
    conflicting_class info rec (class_symbol b) (u64 (candidate_offset + base_offset)))
    (base_classes_list k);
  if conflict : bool then Ret true else
  any_conflict (λ '(base, base_offset),
    conflicting_class info rec base (u64 (candidate_offset + base_offset)))
    (virtual_base_classes_list l).

Definition conflicting_bases (info : offset_info) : class_table → nat → Z → res bool :=
  by_class (λ _, Err Undef) (conflicting_bases_body info).

Definition cxx_abi_conflicting_member (P : class_table) (info : offset_info)
    (member : scope_entry) (candidate_offset : Z) : res bool :=
  if conflicts_at info (entry_type member) candidate_offset then Ret true else
  match get_actual_class_type (entry_type member) with
  | Some c => conflicting_bases info P c candidate_offset
  | None => Ret false
  end.
End layouts.

(** ** The layout of a member *)

Definition get_char_type : builtin_type := BuiltinType BT_CHAR false false false 0 1 1.

Section config.
Context (env : type_environment) (fdesc : fortran_array_descriptor) (cxx11 : bool).

Definition get_largest_integral_with_bits (bits : Z) : builtin_type :=
  let integral_types := [
    get_unsigned_long_long_int_type env; get_signed_long_long_int_type env;
    get_unsigned_long_int_type env; get_signed_long_int_type env;
    get_unsigned_int_type env; get_signed_int_type env;
    get_unsigned_short_int_type env; get_signed_short_int_type env;
    get_unsigned_char_type; get_signed_char_type ] in
  match List.find (λ t, u64 (bt_size t * 8) <=? bits) integral_types with
  | Some t => t
  | None => get_char_type
  end.

Section members.
Context (layout_of : nat → res class_layout).

Definition cxx_abi_array_sizeof (element : res (Z * Z)) (size_expr : option Z) : res (Z * Z) :=
  '(element_size, element_align) ← element;
  match size_expr with
  | Some c => Ret (u64 (s32 (u32 c) * element_size), element_align)
  | None => Err Aborted
  end.

(** [type_get_size] and [type_get_alignment]: a reference takes the size of
    the type it refers to. *)
Fixpoint cxx_type_layout (t : cxx_type) : res (Z * Z) :=
  match t with
  | TScalar _ size alignment => Ret (size, alignment)
  | TReference _ referenced_type => cxx_type_layout referenced_type
  | TArray element_type size => cxx_abi_array_sizeof (cxx_type_layout element_type) size
  | TVector _ size alignment => Ret (size, alignment)
  | TClass c => l ← layout_of c; Ret (cl_size l, cl_align l)
  | TNamed alias_type explicit_aligned => named_sizeof (cxx_type_layout alias_type) explicit_aligned
  end.

(** A bit-field no wider than its type: the offset to lay it out from, its
    first bit, and its number of bits. *)
Definition place_bitfield (bitsize size_of_member member_align : Z) (li : layout_info) :
    res (Z * Z * Z) :=
  offset ← match previous_base li with
           | Some b =>
               '(_, base_align) ← cxx_type_layout (TClass b);
               next_offset_with_align (dsize li) base_align
           | None => Ret (dsize li)
           end;
  '(offset, initial_bit) ←
    (if previous_was_bitfield li then
       Ret (if 0 <? offset then offset - 1 else offset, bit_within_bitfield li)
     else if member_align =? 0 then Err Undef
     else Ret (offset, u64 ((offset mod member_align) * 8)));
  if bitsize =? 0 then Ret (offset, initial_bit, u64 (size_of_member * 8 - initial_bit))
  else if u64 (size_of_member * 8 - initial_bit) <? bitsize then
    offset ← next_offset_with_align offset member_align;
    Ret (offset, 0, bitsize)
  else Ret (offset, initial_bit, bitsize).

Definition cxx_abi_lay_bitfield (m : data_member) (bits : Z) (li : layout_info) :
    res (layout_info * placement) :=
  let bitsize := u32 bits in
  '(size_of_member, member_align) ← cxx_type_layout (type_information m);
  '(offset, used_bytes, initial_bit, filled_bits, placement, bit_align) ←
    (if bitsize <=? u64 (size_of_member * 8) then
       '(offset, initial_bit, filled_bits) ← place_bitfield bitsize size_of_member member_align li;
       bitfield_offset ← compute_bitfield_offset offset member_align;
       let '(first, last) := first_last env size_of_member initial_bit filled_bits in
       Ret (offset, 0, initial_bit, filled_bits,
            Placement bitfield_offset (Some (offset, first, last)), member_align)
     else
       let integral_type_align := bt_alignment (get_largest_integral_with_bits bitsize) in
       offset ← next_offset_with_align (dsize li) integral_type_align;
       Ret (offset, bitsize / 8, 0, bitsize mod 8,
            Placement offset (Some (0, 0, 0)), integral_type_align));
  bytes ← round_to_upper_byte filled_bits;
  let dsize' := u64 (offset + u64 (used_bytes + bytes)) in
  Ret (LayoutInfo dsize' (Z.max (size li) dsize')
         (if is_unnamed_bitfield m then align li else Z.max (align li) bit_align)
         (offsets li) true (u64 (initial_bit + filled_bits)) None,
       placement).

(** [while (cxx_abi_conflicting_member(...)) offset += increment;]  The fuel is
    one more than the largest registered offset: beyond it there is no
    conflict. *)
Definition last_offset (info : offset_info) : Z := foldr (λ e m, Z.max e.1 m) (-1) info.

Definition skip_conflicts (P : class_table) (info : offset_info) (member : scope_entry)
    (increment offset : Z) : res Z :=
  loop (S (S (Z.to_nat (last_offset info - offset))))
    (λ offset,
      conflict ← cxx_abi_conflicting_member layout_of P info member offset;
      Ret (if conflict : bool then inl (u64 (offset + increment)) else inr offset))
    offset.

Definition set_base_offset (bases : list base_class) (co : class_offsets)
    (is_virtual_base_class : bool) (base : nat) (offset : Z) : res class_offsets :=
  if is_virtual_base_class then
    Ret (ClassOffsets (co_bases co)
           (class_type_set_offset_virtual_base (co_virtual co) base offset) (co_placements co))
  else
    os ← class_type_set_offset_direct_base bases (co_bases co) base offset;
    Ret (ClassOffsets os (co_virtual co) (co_placements co)).

(** [cxx_abi_lay_member_out] for a base class, empty or not. *)
Definition lay_base_out (P : class_table) (bases : list base_class) (base : nat)
    (is_virtual_base_class : bool) (st : layout_info * class_offsets) :
    res (layout_info * class_offsets) :=
  let '(li, co) := st in
  l ← layout_of base;
  if class_type_is_empty P base then
    conflict ← cxx_abi_conflicting_member layout_of P (offsets li) (Base base) 0;
    offset ← (if conflict : bool
              then skip_conflicts P (offsets li) (Base base) (non_virtual_align l) (dsize li)
              else Ret 0);
    co ← set_base_offset bases co is_virtual_base_class base offset;
    info ← cxx_abi_register_subobject_offset layout_of P (offsets li) (Base base) offset;
    Ret (LayoutInfo (dsize li) (Z.max (size li) (u64 (offset + cl_size l))) (align li) info
           false (bit_within_bitfield li) (Some base), co)
  else
    offset ← next_offset_with_align (dsize li) (non_virtual_align l);
    offset ← skip_conflicts P (offsets li) (Base base) (non_virtual_align l) offset;
    co ← set_base_offset bases co is_virtual_base_class base offset;
    info ← cxx_abi_register_subobject_offset layout_of P (offsets li) (Base base) offset;
    let end_of_base := u64 (offset + non_virtual_size l) in
    Ret (LayoutInfo end_of_base (Z.max (size li) end_of_base)
           (Z.max (align li) (non_virtual_align l)) info
           false (bit_within_bitfield li) (Some base), co).

(** The size and alignment of a data member; an array without size that is the
    last member is a flexible array. *)
Definition member_size_align (m : data_member) (is_last_member : bool) : res (Z * Z) :=
  match advance_over_typedefs (type_information m) with
  | TArray element_type None =>
      if is_last_member then
        '(_, alignment) ← cxx_type_layout element_type;
        Ret (0, alignment)
      else cxx_type_layout (type_information m)
  | _ => cxx_type_layout (type_information m)
  end.

(** [cxx_abi_lay_member_out] for a data member. *)
Definition lay_data_member_out (P : class_table) (m : data_member) (is_last_member : bool)
    (st : layout_info * class_offsets) : res (layout_info * class_offsets) :=
  let '(li, co) := st in
  match bitfield_size m with
  | Some bits =>
      '(li, p) ← cxx_abi_lay_bitfield m bits li;
      Ret (li, ClassOffsets (co_bases co) (co_virtual co) (co_placements co ++ [p]))
  | None =>
      '(sizeof_member, alignment) ← member_size_align m is_last_member;
      offset ← next_offset_with_align (dsize li) alignment;
      offset ← skip_conflicts P (offsets li) (Member m) alignment offset;
      info ← cxx_abi_register_subobject_offset layout_of P (offsets li) (Member m) offset;
      let end_of_member := u64 (offset + sizeof_member) in
      Ret (LayoutInfo end_of_member (Z.max (size li) end_of_member)
             (Z.max (align li) alignment) info false (bit_within_bitfield li) None,
           ClassOffsets (co_bases co) (co_virtual co)
             (co_placements co ++ [Placement offset None]))
  end.

(** [i == num_fields - 1] holds at the last element of the list. *)
Fixpoint lay_data_members_out (P : class_table) (ms : list data_member)
    (st : layout_info * class_offsets) : res (layout_info * class_offsets) :=
  match ms with
  | [] => Ret st
  | m :: ms' =>
      st ← lay_data_member_out P m (match ms' with [] => true | _ => false end) st;
      lay_data_members_out P ms' st
  end.

(** ** The layout of a class *)

(** A POD whose bit-fields are no wider than their types. *)
Definition class_is_pod_layout (P : class_table) (k : class_type) : res bool :=
  if negb (pod_body cxx11 P (class_type_is_pod cxx11 P) k) then Ret false else
  for_each (λ m ok,
    if negb ok then Ret false else
    match bitfield_size m with
    | None => Ret true
    | Some bits =>
        '(size_of_type, _) ← cxx_type_layout (type_information m);
        Ret (negb (u64 (size_of_type * 8) <? u64 bits))
    end) (class_type_get_nonstatic_data_members k) true.

(** The virtual pointer, or the primary base. *)
Definition lay_primary_out (P : class_table) (k : class_type) (st : layout_info * class_offsets) :
    res (option nat * (layout_info * class_offsets)) :=
  if negb (dynamic_body P (class_type_is_dynamic P) k) then Ret (None, st) else
  primary ← primary_base_body P (cxx_abi_class_type_get_primary_base_class P) k;
  match primary return res (option nat * (layout_info * class_offsets)) with
  | None =>
      Ret (None,
           (LayoutInfo (sizeof_pointer env) (sizeof_pointer env) (alignof_pointer env)
              (offsets st.1) false 0 None, st.2))
  | Some (b, is_virtual) =>
      st ← lay_base_out P (base_classes_list k) b is_virtual st;
      Ret (Some b, st)
  end.

Definition lay_nonvirtual_bases_out (P : class_table) (k : class_type) (primary : option nat)
    (st : layout_info * class_offsets) : res (layout_info * class_offsets) :=
  for_each (λ b st,
    if negb (base_is_virtual b) && bool_decide (primary ≠ Some (class_symbol b))
    then lay_base_out P (base_classes_list k) (class_symbol b) false st
    else Ret st) (base_classes_list k) st.

(** The loop that looks for a virtual base among the indirect primary bases
    reads, at each step, the one at the position [i] of the base: beyond the
    number of indirect primary bases the array is not initialised. *)
Definition is_indirect_primary (primaries : list nat) (i : nat) (b : nat) : res bool :=
  match primaries with
  | [] => Ret false
  | _ :: _ => p ← get (primaries !! i); Ret (b =? p)%nat
  end.

Definition lay_virtual_bases_out (P : class_table) (k : class_type) (primary : option nat)
    (st : layout_info * class_offsets) : res (layout_info * class_offsets) :=
  bases ← class_type_preorder_all_bases P k;
  primaries ← class_type_get_indirect_virtual_primary_bases
                (cxx_abi_class_type_get_primary_base_class P) bases;
  for_each (λ '(i, (b, is_virtual)) st,
    if negb is_virtual then Ret st else
    found ← (if bool_decide (primary = Some b) then Ret true
             else is_indirect_primary primaries i b);
    if found : bool then Ret st else lay_base_out P (base_classes_list k) b true st)
    (imap pair bases) st.

Definition cxx_abi_class_sizeof (P : class_table) (k : class_type) : res class_layout :=
  let st := (LayoutInfo 0 0 1 [] false 0 None,
             ClassOffsets (map (λ _, 0) (base_classes_list k)) [] []) in
  '(primary, st) ← lay_primary_out P k st;
  st ← lay_nonvirtual_bases_out P k primary st;
  st ← lay_data_members_out P (class_type_get_nonstatic_data_members k) st;
  let nvalign := align st.1 in
  let nvsize := size st.1 in
  '(li, co) ← lay_virtual_bases_out P k primary st;
  size' ← next_offset_with_align (size li) (align li);
  let size' := if size' =? 0 then 1 else size' in
  pod_layout ← class_is_pod_layout P k;
  let nvsize :=
    if pod_body cxx11 P (class_type_is_pod cxx11 P) k && negb pod_layout then size' else nvsize in
  Ret (ClassLayout size' (align li) (size li) nvsize nvalign
         (co_bases co) (co_virtual co) (co_placements co)).

(** What [system_v_union_sizeof] asks of a member. *)
Definition field_info_of_member (m : data_member) : field_info :=
  FieldInfo
    (TypeInfo (cxx_type_layout (type_information m))
       (match advance_over_typedefs (type_information m) with
        | TArray e size =>
            Some (match size with Some n => Const n | None => Null end, None, cxx_type_layout e)
        | _ => None
        end))
    (bitfield_size m) (is_unnamed_bitfield m).

Definition cxx_abi_union_sizeof (k : class_type) : res class_layout :=
  '(size, align, ps) ← system_v_union_layout env fdesc
      (map field_info_of_member (class_type_get_nonstatic_data_members k));
  Ret (ClassLayout size align size size align (map (λ _, 0) (base_classes_list k)) [] ps).
End members.

(** [cxx_abi_generic_sizeof] on a class, with the layouts of the classes before
    it, the last one first. *)
Definition layout_at (L : list class_layout) (c : nat) : res class_layout :=
  if (c <? length L)%nat then get (L !! (length L - S c)%nat) else Err Undef.

Definition layout_class (P : class_table) (L : list class_layout) (k : class_type) :
    res class_layout :=
  if is_union k then cxx_abi_union_sizeof (layout_at L) k
  else cxx_abi_class_sizeof (layout_at L) P k.

Fixpoint layout_program (P : class_table) : res (list class_layout) :=
  match P with
  | [] => Ret []
  | k :: P' =>
      L ← layout_program P';
      l ← layout_class P' L k;
      Ret (l :: L)
  end.
End config.
