(* ===== verification/ItaniumSub.v ===== *)
(** * Subobjects: the register of offsets and the search for conflicts

    Lemmas on the two recursions of the layout through the bases of a class,
    [cxx_abi_register_subobject_offset] and [cxx_abi_conflicting_member], over
    a table of classes whose layouts satisfy the invariant [layout_ok]. *)

From S2P Require Import Prelude SystemV CxxClass ItaniumAbi.
#[local] Open Scope Z_scope.

(** ** Loops *)
Lemma for_each_spec {A S} (body : A → S → res S) (I : list A → S → Prop) xs s :
  I [] s →
  (∀ done x s, I done s → (∃ todo, xs = done ++ x :: todo) →
     ∃ s', body x s = Ret s' ∧ I (done ++ [x]) s') →
  ∃ s', for_each body xs s = Ret s' ∧ I xs s'.
Proof.
  intros H0 Hstep.
  assert (∀ todo done s, xs = done ++ todo → I done s →
    ∃ s', for_each body todo s = Ret s' ∧ I xs s') as Hall.
  { induction todo as [|x todo IH]; intros dn s1 Hxs HI; simpl.
    - rewrite app_nil_r in Hxs. subst. eauto.
    - destruct (Hstep dn x s1 HI) as (s2 & -> & HI2); [by exists todo|]. simpl.
      apply (IH (dn ++ [x])); [by rewrite <-app_assoc|done]. }
  by apply (Hall xs []).
Qed.

Lemma any_conflict_spec {A} (check : A → res bool) (Φ : A → Prop) (beyond : Prop) xs :
  (∀ x, x ∈ xs → ∃ r, check x = Ret r ∧ (r = false → Φ x) ∧ (beyond → r = false)) →
  ∃ r, any_conflict check xs = Ret r ∧ (r = false → ∀ x, x ∈ xs → Φ x) ∧ (beyond → r = false).
Proof.
  induction xs as [|x xs IH]; intros Hx; simpl.
  - exists false. split; [done|]. split; [|done]. by intros _ x ?%not_elem_of_nil.
  - destruct (Hx x) as (r & -> & Hr & Hb); [by left|]. simpl. destruct r.
    + exists true. split; [done|]. split; [done|]. intros Hy. by specialize (Hb Hy).
    + destruct IH as (r & -> & Hr' & Hb'); [intros y Hy; apply Hx; by right|].
      exists r. split; [done|]. split; [|done]. intros -> y [->|Hy]%elem_of_cons; auto.
Qed.

Lemma flat_map_ext_elem {A B} (f g : A → list B) xs :
  (∀ x, x ∈ xs → f x = g x) → flat_map f xs = flat_map g xs.
Proof.
  induction xs as [|x xs IH]; intros H; simpl; [done|]. rewrite H by (by left).
  f_equal. apply IH. intros y Hy. apply H. by right.
Qed.

Lemma elem_of_flat_map {A B} (f : A → list B) xs y :
  y ∈ flat_map f xs ↔ ∃ x, x ∈ xs ∧ y ∈ f x.
Proof. rewrite list_elem_of_In, in_flat_map. by setoid_rewrite list_elem_of_In. Qed.

(** ** The register *)

(** The entry [e] is registered at the offset [o]. *)
Definition registered (info : offset_info) (o : Z) (e : scope_entry) : Prop :=
  ∃ subobjects, (o, subobjects) ∈ info ∧ e ∈ subobjects.

Lemma registered_cons o subs info o' e :
  registered ((o, subs) :: info) o' e ↔ (o' = o ∧ e ∈ subs) ∨ registered info o' e.
Proof. unfold registered. setoid_rewrite elem_of_cons. naive_solver. Qed.

Lemma registered_nil o e : ¬ registered [] o e.
Proof. by intros (? & ?%not_elem_of_nil & _). Qed.

Lemma registered_entity info entry offset o e :
  registered (cxx_abi_register_entity_offset info entry offset) o e ↔
  (o = offset ∧ e = entry) ∨ registered info o e.
Proof.
  induction info as [|[o1 subs] info IH]; simpl.
  - rewrite registered_cons, list_elem_of_singleton. done.
  - destruct (Z.eqb_spec o1 offset) as [->|Hne].
    + rewrite !registered_cons, elem_of_cons. tauto.
    + destruct (offset <? o1).
      * rewrite registered_cons, list_elem_of_singleton. done.
      * rewrite !registered_cons, IH. tauto.
Qed.

Lemma conflicts_at_iff info t o :
  conflicts_at info t o = true ↔
  ∃ e, registered info o e ∧ equivalent_types (entry_type e) t = true.
Proof.
  unfold conflicts_at, registered. rewrite existsb_iff. split.
  - intros ([o' subs] & Hin & Hand). apply andb_true_iff in Hand as [Ho Hex].
    apply Z.eqb_eq in Ho as ->. apply existsb_iff in Hex as (e & He & Heq). eauto.
  - intros (e & (subs & Hin & He) & Heq). exists (o, subs). split; [done|].
    apply andb_true_iff. split; [by apply Z.eqb_eq|]. apply existsb_iff. eauto.
Qed.

Lemma no_conflict_base info c o :
  conflicts_at info (TClass c) o = false → ¬ registered info o (Base c).
Proof.
  intros Hc Hr. apply not_true_iff_false in Hc. apply Hc, conflicts_at_iff.
  exists (Base c). split; [done|]. simpl. apply Nat.eqb_refl.
Qed.

Lemma last_offset_spec info o e : registered info o e → o ≤ last_offset info.
Proof.
  induction info as [|[o1 subs] info IH]; [by intros ?%registered_nil|].
  rewrite registered_cons. simpl. intros [[-> _]|Hr]; [lia|]. specialize (IH Hr). lia.
Qed.

Lemma no_conflict_beyond info t o : last_offset info < o → conflicts_at info t o = false.
Proof.
  intros Ho. apply not_true_iff_false. rewrite conflicts_at_iff. intros (e & Hr & _).
  apply last_offset_spec in Hr. lia.
Qed.

(** The register has offsets of its entries only, so its last offset is one of
    them. *)
Definition info_wf (info : offset_info) : Prop := Forall (λ e, e.2 ≠ []) info.

Lemma info_wf_entity info entry offset :
  info_wf info → info_wf (cxx_abi_register_entity_offset info entry offset).
Proof.
  unfold info_wf. induction 1 as [|[o subs] info Ho Hi IH]; simpl; [by repeat constructor|].
  destruct (o =? offset); [by constructor|].
  destruct (offset <? o); [by repeat constructor|by constructor].
Qed.

Lemma last_offset_le info b :
  info_wf info → -1 ≤ b → (∀ o e, registered info o e → o ≤ b) → last_offset info ≤ b.
Proof.
  intros Hwf Hb. induction Hwf as [|[o subs] info Ho _ IH]; intros Hall; simpl; [done|].
  destruct subs as [|e subs]; [done|].
  assert (o ≤ b) by (apply (Hall o e), registered_cons; left; split; [done|by left]).
  assert (last_offset info ≤ b); [|unfold last_offset in *; lia].
  apply IH. intros o' e' Hr. apply (Hall o' e'), registered_cons. by right.
Qed.

(** ** Subobjects *)
Definition shift (o : Z) (subs : list (nat * Z)) : list (nat * Z) :=
  map (λ '(c, o'), (c, o + o')) subs.

Lemma elem_of_shift o subs c o' : (c, o') ∈ shift o subs ↔ (c, o' - o) ∈ subs.
Proof.
  unfold shift. rewrite list_elem_of_fmap. split.
  - intros ([c1 o1] & [= -> ->] & Hin). by replace (o + o1 - o) with o1 by lia.
  - intros Hin. exists (c, o' - o). split; [f_equal; lia|done].
Qed.

Section layouts.
Context (layout_of : nat → res class_layout).

(** The bases of a class with their offsets. *)
Definition bases_with_offsets (k : class_type) (l : class_layout) : list (base_class * Z) :=
  zip (base_classes_list k) (base_offsets l).

(** The nonvirtual base subobjects of an object of class [c], itself included,
    with their offsets. *)
Definition nv_subobjects_body (P : class_table) (rec : nat → list (nat * Z)) (k : class_type) :
    list (nat * Z) :=
  (length P, 0) ::
  match layout_of (length P) with
  | Ret l =>
      flat_map (λ '(b, o), if base_is_virtual b then [] else shift o (rec (class_symbol b)))
        (bases_with_offsets k l)
  | Err _ => []
  end.

Definition nv_subobjects : class_table → nat → list (nat * Z) := by_class [] nv_subobjects_body.

(** The largest offset, from the object, that the search for conflicts looks
    at. *)
Definition reach_body (P : class_table) (rec : nat → Z) (k : class_type) : Z :=
  match layout_of (length P) with
  | Ret l =>
      Z.max (foldr (λ '(b, o) m, Z.max (o + rec (class_symbol b)) m) 0 (bases_with_offsets k l))
        (foldr (λ '(b, o) m, Z.max (o + rec b) m) 0 (virtual_base_classes_list l))
  | Err _ => 0
  end.

Definition reach : class_table → nat → Z := by_class 0 reach_body.

(** ** The invariant of layouts *)
Record layout_ok (P : class_table) (c : nat) (k : class_type) (l : class_layout) : Prop := {
  lo_nondependent : Forall nondependent (base_classes_list k);
  lo_bases_nodup : NoDup (class_symbol <$> base_classes_list k);
  lo_length : length (base_offsets l) = length (base_classes_list k);
  lo_size : 0 < cl_size l < 2 ^ 64;
  lo_nvsize : 0 ≤ non_virtual_size l ≤ cl_size l;
  lo_align : 0 < cl_align l ∧ 0 < non_virtual_align l;
  lo_nv_bases : ∀ b o lb, (b, o) ∈ bases_with_offsets k l → base_is_virtual b = false →
    layout_of (class_symbol b) = Ret lb → 0 ≤ o ∧ o + non_virtual_size lb ≤ non_virtual_size l;
  lo_virtual_bases : ∀ b o, (b, o) ∈ virtual_base_classes_list l → (b < c)%nat ∧ 0 ≤ o;
  lo_fields : ∀ m p,
    (m, p) ∈ zip (class_type_get_nonstatic_data_members k) (placements l) →
    bitfield_size m = None → 0 ≤ field_offset p ≤ non_virtual_size l;
  lo_subobjects : NoDup (nv_subobjects P c) }.

Definition layouts_ok (P : class_table) : Prop :=
  table_wf P ∧
  ∀ c P' k, class_at P c = Some (P', k) → ∃ l, layout_of c = Ret l ∧ layout_ok P c k l.

Lemma offset_direct_base_zip bases os b o :
  NoDup (class_symbol <$> bases) → (b, o) ∈ zip bases os →
  offset_direct_base bases os (class_symbol b) = Ret o.
Proof.
  revert os. induction bases as [|b1 bases IH]; intros [|o1 os]; simpl;
    try (by intros _ ?%not_elem_of_nil).
  rewrite NoDup_cons. intros [Hn Hnd] [[= -> ->]|Hin]%elem_of_cons.
  - by rewrite Nat.eqb_refl.
  - rewrite (proj2 (Nat.eqb_neq _ _)); [by apply IH|]. intros He. apply Hn. rewrite He.
    apply list_elem_of_fmap_2. by apply elem_of_zip_l in Hin.
Qed.

Section ok.
Context (P : class_table) (Hok : layouts_ok P).

Lemma class_ok c :
  (c < length P)%nat → ∃ P' k l, class_at P c = Some (P', k) ∧ layout_of c = Ret l
                         ∧ layout_ok P c k l ∧ length P' = c ∧ class_below c k.
Proof.
  intros Hc. destruct Hok as [Hwf H]. destruct (class_at_is_Some P c Hc) as (P' & k & Hat).
  destruct (H c P' k Hat) as (l & Hl & Hlo). exists P', k, l.
  pose proof (class_at_lt _ _ _ _ Hat) as [_ ?].
  by destruct (class_at_wf _ _ _ _ Hwf Hat).
Qed.

Lemma base_with_offset c P' k l b o :
  class_at P c = Some (P', k) → (b, o) ∈ bases_with_offsets k l →
  (class_symbol b < c)%nat ∧ b ∈ base_classes_list k.
Proof.
  intros Hat Hin. apply elem_of_zip_l in Hin. split; [|done].
  eapply base_below; [apply Hok|done|done].
Qed.

Lemma nv_subobjects_eq c P' k l :
  class_at P c = Some (P', k) → layout_of c = Ret l →
  nv_subobjects P c = (c, 0) ::
    flat_map (λ '(b, o), if base_is_virtual b then [] else shift o (nv_subobjects P (class_symbol b)))
      (bases_with_offsets k l).
Proof.
  intros Hat Hl. unfold nv_subobjects at 1. rewrite (by_class_eq _ _ _ _ _ _ Hat).
  unfold nv_subobjects_body at 1. destruct (class_at_lt _ _ _ _ Hat) as [_ ->]. rewrite Hl.
  f_equal. apply flat_map_ext_elem. intros [b o] Hin.
  destruct (base_with_offset _ _ _ _ _ _ Hat Hin) as [Hb _].
  destruct (base_is_virtual b); [done|]. f_equal. apply (by_class_older _ _ _ _ _ _ _ Hat Hb).
Qed.

Lemma elem_of_nv_subobjects c P' k l c' o' :
  class_at P c = Some (P', k) → layout_of c = Ret l →
  (c', o') ∈ nv_subobjects P c ↔
  (c' = c ∧ o' = 0) ∨
  ∃ b o, (b, o) ∈ bases_with_offsets k l ∧ base_is_virtual b = false
         ∧ (c', o' - o) ∈ nv_subobjects P (class_symbol b).
Proof.
  intros Hat Hl. rewrite (nv_subobjects_eq _ _ _ _ Hat Hl), elem_of_cons.
  assert ((c', o') = (c, 0) ↔ c' = c ∧ o' = 0) as -> by naive_solver. apply or_iff_compat_l.
  rewrite elem_of_flat_map. split.
  - intros ([b o] & Hin & Hs). exists b, o. destruct (base_is_virtual b); [by apply not_elem_of_nil in Hs|].
    by rewrite elem_of_shift in Hs.
  - intros (b & o & Hin & Hv & Hs). exists (b, o). rewrite Hv. by rewrite elem_of_shift.
Qed.

(** A nonvirtual base subobject is inside the nonvirtual part of the object. *)
Lemma nv_subobjects_bounds c l c' o' :
  (c < length P)%nat → layout_of c = Ret l → (c', o') ∈ nv_subobjects P c →
  (c' ≤ c)%nat ∧ 0 ≤ o' ≤ non_virtual_size l.
Proof.
  revert l c' o'. induction (lt_wf c) as [c _ IH]. intros l c' o' Hc Hl Hin.
  destruct (class_ok c Hc) as (P' & k & l' & Hat & Hl' & Hlo & _). rewrite Hl in Hl'.
  injection Hl' as <-. apply (elem_of_nv_subobjects _ _ _ _ _ _ Hat Hl) in Hin.
  destruct Hin as [[-> ->]|(b & o & Hb & Hv & Hin)].
  - destruct (lo_nvsize _ _ _ _ Hlo). lia.
  - destruct (base_with_offset _ _ _ _ _ _ Hat Hb) as [Hbc _].
    destruct (class_ok (class_symbol b)) as (_ & kb & lb & _ & Hlb & _); [lia|].
    destruct (IH _ Hbc lb c' (o' - o)) as [? ?]; [lia|done|done|].
    destruct (lo_nv_bases _ _ _ _ Hlo b o lb Hb Hv Hlb). lia.
Qed.

Lemma base_has_offset c k l b :
  layout_ok P c k l → b ∈ base_classes_list k →
  ∃ o, (b, o) ∈ bases_with_offsets k l
       ∧ class_type_get_offset_direct_base k l (class_symbol b) = Ret o.
Proof.
  intros Hlo Hb. apply list_elem_of_lookup in Hb as [i Hi].
  destruct (lookup_lt_is_Some_2 (base_offsets l) i) as [o Ho].
  { rewrite (lo_length _ _ _ _ Hlo). by eapply lookup_lt_Some. }
  assert ((b, o) ∈ bases_with_offsets k l) as Hin.
  { apply list_elem_of_lookup. exists i. apply lookup_zip_with_Some. eauto. }
  exists o. split; [done|]. apply offset_direct_base_zip; [apply Hlo|done].
Qed.

(** [info'] has the entries of [info], the subobjects [subs] and entries
    between the offsets [lo] and [hi]. *)
Record extends (info info' : offset_info) (subs : list (nat * Z)) (lo hi : Z) : Prop := {
  ext_wf : info_wf info → info_wf info';
  ext_old : ∀ o e, registered info o e → registered info' o e;
  ext_subs : ∀ c o, (c, o) ∈ subs → registered info' o (Base c);
  ext_new : ∀ o e, registered info' o e → registered info o e ∨ lo ≤ o ≤ hi }.

Lemma extends_refl info lo hi : extends info info [] lo hi.
Proof. split; try done; [|auto]. by intros c o ?%not_elem_of_nil. Qed.

Lemma extends_trans info1 info2 info3 s1 s2 lo hi :
  extends info1 info2 s1 lo hi → extends info2 info3 s2 lo hi →
  extends info1 info3 (s1 ++ s2) lo hi.
Proof.
  intros [] []. split; [auto|auto| |].
  - intros c o [H|H]%elem_of_app; auto.
  - intros o e H. naive_solver.
Qed.

Lemma extends_entity info entry o lo hi :
  lo ≤ o ≤ hi →
  extends info (cxx_abi_register_entity_offset info entry o)
    (match entry with Base c => [(c, o)] | Member _ => [] end) lo hi.
Proof.
  intros Ho. split.
  - apply info_wf_entity.
  - intros o' e H. apply registered_entity. by right.
  - intros c o' H. apply registered_entity. left. destruct entry; [|by apply not_elem_of_nil in H].
    apply list_elem_of_singleton in H. by injection H as -> ->.
  - intros o' e [[-> _]|H]%registered_entity; auto.
Qed.

Lemma extends_weaken info info' subs subs' lo hi lo' hi' :
  extends info info' subs lo hi → (∀ s, s ∈ subs' → s ∈ subs) → lo' ≤ lo → hi ≤ hi' →
  extends info info' subs' lo' hi'.
Proof.
  intros [] Hs Hlo Hhi. split; auto. intros o e H. destruct (ext_new0 o e H); [auto|right; lia].
Qed.

(** The data members of a base. *)
Lemma register_members_extends chosen hi ms info :
  (∀ m p, (m, p) ∈ ms → bitfield_size m = None → 0 ≤ field_offset p ≤ hi) →
  0 ≤ chosen → chosen + hi < 2 ^ 64 →
  extends info
    (foldl (λ info '(m, p),
       match bitfield_size m with
       | Some _ => info
       | None =>
           cxx_abi_register_entity_offset info (Member m) (u64 (chosen + field_offset p))
       end) info ms) [] chosen (chosen + hi).
Proof.
  revert info. induction ms as [|[m p] ms IH]; intros info Hms Hc Hb; simpl;
    [apply extends_refl|].
  eapply (extends_trans _ _ _ [] []); [|apply IH; [|done..]].
  - destruct (bitfield_size m) eqn:Hm; [apply extends_refl|].
    destruct (Hms m p) as [? ?]; [by left|done|].
    rewrite wrapu_small by lia. apply (extends_entity _ (Member m)). lia.
  - intros m' p' Hin. apply Hms. by right.
Qed.

(** The subobjects of the bases [bs] of a class at the offset [off]. *)
Definition subobjects_of (k : class_type) (l : class_layout) (off : Z) (bs : list base_class)
    (subs : list (nat * Z)) : Prop :=
  ∀ b o c' o', b ∈ bs → (b, o) ∈ bases_with_offsets k l → base_is_virtual b = false →
    (c', o') ∈ nv_subobjects P (class_symbol b) → (c', off + o + o') ∈ subs.

Lemma subobjects_of_snoc k l off bs subs b o subs' :
  NoDup (class_symbol <$> base_classes_list k) →
  subobjects_of k l off bs subs → (b, o) ∈ bases_with_offsets k l →
  (base_is_virtual b = false → subs' = shift (off + o) (nv_subobjects P (class_symbol b))) →
  subobjects_of k l off (bs ++ [b]) (subs ++ subs').
Proof.
  intros Hnd Hs Hbo Hs' b1 o1 c' o' [Hb1|Hb1]%elem_of_app Hin Hv Hc'; apply elem_of_app.
  - left. eauto.
  - apply list_elem_of_singleton in Hb1 as ->. right. rewrite (Hs' Hv).
    assert (o1 = o) as ->.
    { pose proof (offset_direct_base_zip _ _ _ _ Hnd Hin).
      pose proof (offset_direct_base_zip _ _ _ _ Hnd Hbo). congruence. }
    apply elem_of_shift. by replace (off + o + o' - (off + o)) with o' by lia.
Qed.

Lemma register_base_extends c l off info :
  (c < length P)%nat → layout_of c = Ret l → 0 ≤ off → off + non_virtual_size l < 2 ^ 64 →
  ∃ info', register_base layout_of P c off info = Ret info'
    ∧ extends info info' (shift off (nv_subobjects P c)) off (off + non_virtual_size l).
Proof.
  revert l off info. induction (lt_wf c) as [c _ IH]. intros l off info Hc Hl Ho Hoff.
  destruct (class_ok c Hc) as (P' & k & l' & Hat & Hl' & Hlo & HP' & _).
  rewrite Hl in Hl'. injection Hl' as <-.
  unfold register_base. rewrite (by_class_eq _ _ _ _ _ _ Hat). unfold register_body at 1.
  rewrite HP', Hl, bind_ret. set (hi := off + non_virtual_size l).
  match goal with |- context [for_each ?body _ _] => set (step := body) end.
  destruct (for_each_spec step
    (λ bs info1, ∃ subs, extends info info1 subs off hi ∧ subobjects_of k l off bs subs)
    (base_classes_list k) info) as (info1 & Hrun & subs & Hext & Hsubs).
  - exists []. split; [apply extends_refl|]. by intros b o c' o' ?%not_elem_of_nil.
  - intros bs b info1 (subs & Hext & Hsubs) (todo & Htodo).
    assert (b ∈ base_classes_list k) as Hb by (rewrite Htodo; apply elem_of_app; right; left).
    pose proof (lo_nondependent _ _ _ _ Hlo) as Hdep. rewrite Forall_forall in Hdep.
    destruct (base_has_offset c k l b Hlo Hb) as (o & Hbo & Hget).
    unfold step. rewrite (Hdep b Hb). destruct (base_is_virtual b) eqn:Hv.
    + exists info1. split; [done|]. exists (subs ++ []). split; [by rewrite app_nil_r|].
      apply (subobjects_of_snoc _ _ _ _ _ _ o); [apply Hlo|done|done|by rewrite Hv].
    + destruct (base_with_offset c P' k l b o Hat Hbo) as [Hbc _].
      destruct (class_ok (class_symbol b)) as (_ & kb & lb & _ & Hlb & Hlob & _); [lia|].
      destruct (lo_nv_bases _ _ _ _ Hlo b o lb Hbo Hv Hlb) as [Ho0 Ho1].
      destruct (lo_nvsize _ _ _ _ Hlob) as [Hnv0 _].
      rewrite Hget, bind_ret, wrapu_small by lia.
      rewrite (by_class_older _ _ _ _ _ _ _ Hat Hbc).
      destruct (IH _ Hbc lb (off + o) info1) as (info2 & Hr & Hext2); [lia|done|lia|lia|].
      exists info2. split; [exact Hr|].
      exists (subs ++ shift (off + o) (nv_subobjects P (class_symbol b))). split.
      * eapply extends_trans; [done|]. eapply extends_weaken; [exact Hext2|done|lia|lia].
      * apply (subobjects_of_snoc _ _ _ _ _ _ o); [apply Hlo|done|done|done].
  - rewrite Hrun, bind_ret. eexists. split; [done|].
    eapply extends_weaken.
    + eapply extends_trans; [exact Hext|]. eapply extends_trans.
      * apply register_members_extends; [|done|done]. intros m p Hm Hbit. by apply (lo_fields _ _ _ _ Hlo m).
      * apply (extends_entity _ (Base c)). subst hi. destruct (lo_nvsize _ _ _ _ Hlo). lia.
    + intros [c' o'] Hin%elem_of_shift. apply (elem_of_nv_subobjects _ _ _ _ _ _ Hat Hl) in Hin.
      destruct Hin as [[-> Ho']|(b & o & Hbo & Hv & Hin)].
      * apply elem_of_app. right. apply list_elem_of_singleton. f_equal. lia.
      * apply elem_of_app. left.
        replace o' with (off + o + (o' - off - o)) by lia.
        apply (Hsubs b); [by destruct (base_with_offset c P' k l b o Hat Hbo)|done|done|done].
    + done.
    + done.
Qed.

(** ** Conflicts *)
Lemma foldr_max_spec {A} (f : A → Z) xs :
  0 ≤ foldr (λ x m, Z.max (f x) m) 0 xs ∧
  ∀ x, x ∈ xs → f x ≤ foldr (λ x m, Z.max (f x) m) 0 xs.
Proof.
  induction xs as [|x xs [IH1 IH2]]; simpl.
  - split; [done|]. by intros x ?%not_elem_of_nil.
  - split; [lia|]. intros y [->|Hy]%elem_of_cons; [lia|]. specialize (IH2 y Hy). lia.
Qed.

Lemma foldr_pair_max {A} (f : A → Z) (xs : list (A * Z)) :
  foldr (λ '(b, o) m, Z.max (o + f b) m) 0 xs = foldr (λ x m, Z.max (x.2 + f x.1) m) 0 xs.
Proof. induction xs as [|[b o] xs IH]; simpl; [done|]. by rewrite IH. Qed.

Lemma reach_spec c k l P' :
  class_at P c = Some (P', k) → layout_of c = Ret l → layout_ok P c k l →
  0 ≤ reach P c
  ∧ (∀ b o, (b, o) ∈ bases_with_offsets k l → o + reach P (class_symbol b) ≤ reach P c)
  ∧ (∀ b o, (b, o) ∈ virtual_base_classes_list l → o + reach P b ≤ reach P c).
Proof.
  intros Hat Hl Hlo. unfold reach. rewrite (by_class_eq _ _ _ _ _ _ Hat).
  set (rec := by_class 0 reach_body P). unfold reach_body at 1 3 5.
  destruct (class_at_lt _ _ _ _ Hat) as [_ ->]. rewrite Hl, !foldr_pair_max.
  set (older := by_class 0 reach_body P').
  assert (∀ b, (b < c)%nat → older b = rec b) as Holder by (intros b; apply by_class_older with k; done).
  destruct (foldr_max_spec (λ x, x.2 + older (class_symbol x.1)) (bases_with_offsets k l)) as [H1 H2].
  destruct (foldr_max_spec (λ x, x.2 + older x.1) (virtual_base_classes_list l)) as [_ H4].
  split_and!; [lia| |].
  - intros b o Hin. specialize (H2 _ Hin). simpl in H2.
    destruct (base_with_offset c P' k l b o Hat Hin) as [Hb _]. rewrite (Holder _ Hb) in H2. lia.
  - intros b o Hin. specialize (H4 _ Hin). simpl in H4.
    destruct (lo_virtual_bases _ _ _ _ Hlo b o Hin) as [Hb _]. rewrite (Holder _ Hb) in H4. lia.
Qed.

Lemma reach_nonneg c : (c < length P)%nat → 0 ≤ reach P c.
Proof. intros Hc. destruct (class_ok c Hc) as (P' & k & l & Hat & Hl & Hlo & _). by eapply reach_spec. Qed.

Lemma conflicting_bases_spec info c off :
  (c < length P)%nat → 0 ≤ off → off + reach P c < 2 ^ 64 →
  ∃ r, conflicting_bases layout_of info P c off = Ret r
    ∧ (r = false → ∀ c' o', (c', o') ∈ nv_subobjects P c → c' ≠ c →
         conflicts_at info (TClass c') (off + o') = false)
    ∧ (last_offset info < off → r = false).
Proof.
  revert off. induction (lt_wf c) as [c _ IH]. intros off Hc Ho Hoff.
  destruct (class_ok c Hc) as (P' & k & l & Hat & Hl & Hlo & HP' & _).
  destruct (reach_spec c k l P' Hat Hl Hlo) as (Hr0 & Hr1 & Hr2).
  unfold conflicting_bases. rewrite (by_class_eq _ _ _ _ _ _ Hat).
  unfold conflicting_bases_body at 1. rewrite HP', Hl, bind_ret.
  set (check := conflicting_class info _).
  assert (∀ b o, (b < c)%nat → 0 ≤ o → o + reach P b ≤ reach P c →
    ∃ r, check b (u64 (off + o)) = Ret r
      ∧ (r = false → ∀ c' o', (c', o') ∈ nv_subobjects P b →
           conflicts_at info (TClass c') (off + o + o') = false)
      ∧ (last_offset info < off → r = false)) as Hcheck.
  { intros b o Hb Hbo Hreach. pose proof (reach_nonneg b ltac:(lia)).
    rewrite wrapu_small by lia. unfold check, conflicting_class.
    destruct (conflicts_at info (TClass b) (off + o)) eqn:Hat0.
    - exists true. split_and!; [done|done|]. intros Hlast.
      rewrite no_conflict_beyond in Hat0; [done|lia].
    - rewrite (by_class_older _ _ _ _ _ _ _ Hat Hb).
      destruct (IH b Hb (off + o)) as (r & Hrun & Hr & Hbey); [lia|lia|lia|].
      exists r. split_and!; [done| |intros; apply Hbey; lia]. intros -> c' o' Hin.
      destruct (decide (c' = b)) as [->|Hne]; [|auto].
      destruct (class_ok b) as (Pb & kb & lb & Hatb & Hlb & Hlob & _); [lia|].
      apply (elem_of_nv_subobjects _ _ _ _ _ _ Hatb Hlb) in Hin as [[_ ->]|(b1 & o1 & Hb1 & _ & Hin)].
      + by rewrite Z.add_0_r.
      + destruct (base_with_offset b Pb kb lb b1 o1 Hatb Hb1) as [Hlt _].
        destruct (class_ok (class_symbol b1)) as (_ & _ & lb1 & _ & Hlb1 & _); [lia|].
        destruct (nv_subobjects_bounds (class_symbol b1) lb1 b (o' - o1)); [lia|done|done|lia]. }
  clearbody check.
  match goal with |- context [any_conflict ?f (base_classes_list k)] =>
    destruct (any_conflict_spec f (λ b, ∀ o c' o', (b, o) ∈ bases_with_offsets k l →
      base_is_virtual b = false → (c', o') ∈ nv_subobjects P (class_symbol b) →
      conflicts_at info (TClass c') (off + o + o') = false)
      (last_offset info < off) (base_classes_list k)) as (r & -> & Hr & Hbey) end.
  { intros b Hb. destruct (base_has_offset c k l b Hlo Hb) as (o & Hbo & Hget).
    pose proof (lo_nondependent _ _ _ _ Hlo) as Hdep. rewrite Forall_forall in Hdep.
    rewrite (Hdep b Hb). destruct (base_is_virtual b) eqn:Hv; [by exists false|].
    destruct (base_with_offset c P' k l b o Hat Hbo) as [Hbc _].
    destruct (class_ok (class_symbol b)) as (_ & _ & lb & _ & Hlb & _); [lia|].
    destruct (lo_nv_bases _ _ _ _ Hlo b o lb Hbo Hv Hlb) as [Ho0 _].
    rewrite Hget, bind_ret.
    destruct (Hcheck (class_symbol b) o Hbc Ho0 (Hr1 b o Hbo)) as (r & -> & Hr & Hbey).
    exists r. split_and!; [done| |done]. intros -> o1 c' o' Hbo1 _ Hin.
    assert (o1 = o) as ->; [|auto].
    pose proof (offset_direct_base_zip _ _ _ _ (lo_bases_nodup _ _ _ _ Hlo) Hbo1).
    unfold class_type_get_offset_direct_base in Hget. congruence. }
  rewrite bind_ret. destruct r; [exists true; split_and!; [done|done|intros Hx; by specialize (Hbey Hx)]|].
  match goal with |- context [any_conflict ?f _] =>
    destruct (any_conflict_spec f (λ _, True) (last_offset info < off) (virtual_base_classes_list l))
      as (r' & -> & _ & Hbey') end.
  { intros [b o] Hin. destruct (lo_virtual_bases _ _ _ _ Hlo b o Hin) as [Hb Hbo].
    destruct (Hcheck b o Hb Hbo (Hr2 b o Hin)) as (r & -> & _ & ?). eauto. }
  exists r'. split_and!; [done| |done]. intros _ c' o' Hin Hne.
  apply (elem_of_nv_subobjects _ _ _ _ _ _ Hat Hl) in Hin as [[-> _]|(b & o & Hbo & Hv & Hin)]; [done|].
  destruct (base_with_offset c P' k l b o Hat Hbo) as [_ Hb].
  replace (off + o') with (off + o + (o' - o)) by lia. by apply (Hr eq_refl b Hb).
Qed.
End ok.
End layouts.
