(* ===== verification/ItaniumLayout.v ===== *)
(** * The layout of C++ classes is correct

    The invariant of [cxx_abi_class_sizeof] while it lays out the bases and the
    members of a class, kept by each step ([lay_base_out],
    [lay_data_member_out]), and the theorems it gives: the loops of the layout
    end, base subobjects of one class have different offsets, the parts of an
    object do not overlap, and a class without bases has the layout of the C
    struct with its members. *)

From S2P Require Import Prelude TypeEnviron FortranDescr SystemV CxxClass ItaniumAbi ItaniumSub.
#[local] Open Scope Z_scope.

(** ** The search for an offset *)
Section skip.
Context (layout_of : nat → res class_layout) (P : class_table) (Hok : layouts_ok layout_of P).

(** The largest offset from an entry that the search looks at, when the entry
    is of class type. *)
Definition entry_reach (e : scope_entry) : Z :=
  match get_actual_class_type (entry_type e) with
  | Some c => reach layout_of P c
  | None => 0
  end.

Definition entry_below (e : scope_entry) : Prop :=
  ∀ c, get_actual_class_type (entry_type e) = Some c → (c < length P)%nat.

Lemma entry_reach_nonneg e : entry_below e → 0 ≤ entry_reach e.
Proof.
  unfold entry_below, entry_reach. intros He.
  destruct (get_actual_class_type (entry_type e)) as [c|]; [|done].
  apply reach_nonneg; auto.
Qed.

Lemma conflicting_member_spec info e off :
  entry_below e → 0 ≤ off → off + entry_reach e < 2 ^ 64 →
  ∃ r, cxx_abi_conflicting_member layout_of P info e off = Ret r
    ∧ (r = false → conflicts_at info (entry_type e) off = false
         ∧ ∀ c c' o', get_actual_class_type (entry_type e) = Some c →
             (c', o') ∈ nv_subobjects layout_of P c → c' ≠ c →
             conflicts_at info (TClass c') (off + o') = false)
    ∧ (last_offset info < off → r = false).
Proof.
  unfold entry_below, entry_reach, cxx_abi_conflicting_member. intros He Ho Hoff.
  destruct (conflicts_at info (entry_type e) off) eqn:Hat.
  - exists true. split_and!; [done|done|]. intros Hlast.
    by rewrite no_conflict_beyond in Hat.
  - destruct (get_actual_class_type (entry_type e)) as [c|].
    + destruct (conflicting_bases_spec layout_of P Hok info c off) as (r & -> & Hr & Hbey); auto.
      exists r. split_and!; [done| |done]. intros ->. split; [done|].
      intros c1 c' o' [= <-]. by apply Hr.
    + exists false. done.
Qed.

(** A base of class [c] finds no conflict: none of its nonvirtual subobjects is
    registered where it would be. *)
Lemma no_conflict_subobjects info c off c' o' :
  (c < length P)%nat → 0 ≤ off → off + entry_reach (Base c) < 2 ^ 64 →
  cxx_abi_conflicting_member layout_of P info (Base c) off = Ret false →
  (c', o') ∈ nv_subobjects layout_of P c → ¬ registered info (off + o') (Base c').
Proof.
  intros Hc Ho Hoff Hno Hin.
  destruct (conflicting_member_spec info (Base c) off) as (r & Hrun & Hr & _);
    [by intros c1 [= <-]|done|done|].
  rewrite Hno in Hrun. injection Hrun as <-. destruct (Hr eq_refl) as [Hself Hsubs].
  apply no_conflict_base. destruct (decide (c' = c)) as [->|Hne]; [|by eapply Hsubs].
  destruct (class_ok layout_of P Hok c Hc) as (P' & k & l & Hat & Hl & _).
  apply (elem_of_nv_subobjects _ _ Hok _ _ _ _ _ _ Hat Hl) in Hin as [[_ ->]|(b & o & Hb & _ & Hin)].
  - by rewrite Z.add_0_r.
  - destruct (base_with_offset _ _ Hok c P' k l b o Hat Hb) as [Hlt _].
    destruct (class_ok layout_of P Hok (class_symbol b)) as (_ & _ & lb & _ & Hlb & _); [lia|].
    destruct (nv_subobjects_bounds _ _ Hok (class_symbol b) lb c (o' - o)); [lia|done|done|lia].
Qed.

(** The search ends, not beyond the last registered offset by more than one
    step, and without a conflict. *)
Lemma skip_conflicts_spec info e inc off :
  entry_below e → 0 < inc → 0 ≤ off →
  Z.max off (last_offset info + inc) + entry_reach e < 2 ^ 64 →
  ∃ off', skip_conflicts layout_of P info e inc off = Ret off'
    ∧ off ≤ off' ≤ Z.max off (last_offset info + inc) ∧ (inc | off' - off)
    ∧ cxx_abi_conflicting_member layout_of P info e off' = Ret false
    ∧ (last_offset info < off → off' = off).
Proof.
  intros He Hinc Ho Hmax. pose proof (entry_reach_nonneg e He) as Hr0.
  set (Q off' := off ≤ off' ≤ Z.max off (last_offset info + inc) ∧ (inc | off' - off)
     ∧ (last_offset info < off → off' = off)).
  unfold skip_conflicts. match goal with |- context [loop ?n ?f off] =>
    destruct (loop_spec Q (λ s, Z.to_nat (last_offset info + 1 - s))
      (λ off', Q off' ∧ cxx_abi_conflicting_member layout_of P info e off' = Ret false) f)
      with (s := off) (fuel := n) as (off' & -> & HQ & Hno) end.
  - intros s (Hs & Hd & Hlast).
    destruct (conflicting_member_spec info e s He) as (r & Hrun & _ & Hbey); [lia|lia|].
    rewrite Hrun, bind_ret. destruct r; [|done].
    assert (s ≤ last_offset info) as Hsl.
    { destruct (Z.le_gt_cases s (last_offset info)) as [|Hgt]; [done|]. by discriminate (Hbey Hgt). }
    rewrite wrapu_small by lia. split; [|lia]. split_and!; [lia|lia| |].
    + replace (s + inc - off) with ((s - off) + inc) by lia. apply Z.divide_add_r; [done|apply Z.divide_refl].
    + intros Hl. specialize (Hlast Hl). lia.
  - split_and!; [lia|lia| |done]. rewrite Z.sub_diag. apply Z.divide_0_r.
  - lia.
  - destruct HQ as (? & ? & ?). eauto 10.
Qed.
End skip.

(** ** The invariant of the layout *)

(** Intervals [(o, s)] one after the other between [lo] and [hi]. *)
Fixpoint chain (lo : Z) (parts : list (Z * Z)) (hi : Z) : Prop :=
  match parts with
  | [] => lo ≤ hi
  | (o, s) :: parts' => lo ≤ o ∧ 0 ≤ s ∧ chain (o + s) parts' hi
  end.

Lemma chain_snoc lo parts hi o s hi' :
  chain lo parts hi → hi ≤ o → 0 ≤ s → o + s ≤ hi' → chain lo (parts ++ [(o, s)]) hi'.
Proof.
  revert lo. induction parts as [|[o1 s1] parts IH]; simpl; intros lo.
  - intros. lia.
  - intros (? & ? & ?) ? ? ?. split_and!; [done|done|]. by apply IH.
Qed.

Lemma chain_weaken lo parts hi hi' : chain lo parts hi → hi ≤ hi' → chain lo parts hi'.
Proof.
  revert lo. induction parts as [|[o1 s1] parts IH]; simpl; intros lo; [lia|].
  intros (? & ? & ?) ?. split_and!; [done|done|]. by apply IH.
Qed.

Lemma chain_bounds lo parts hi o s :
  chain lo parts hi → (o, s) ∈ parts → lo ≤ o ∧ 0 ≤ s ∧ o + s ≤ hi.
Proof.
  revert lo. induction parts as [|[o1 s1] parts IH]; simpl; intros lo; [by intros ? ?%not_elem_of_nil|].
  assert (∀ l ps, chain l ps hi → l ≤ hi) as Hle.
  { intros l ps. revert l. induction ps as [|[o2 s2] ps IHp]; simpl; intros l; [lia|].
    intros (? & ? & Hc). apply IHp in Hc. lia. }
  intros (Ho & Hs & Hc) [[= -> ->]|Hin]%elem_of_cons.
  - apply Hle in Hc. lia.
  - destruct (IH _ Hc Hin). lia.
Qed.

Lemma chain_disjoint lo parts hi i j o s o' s' :
  chain lo parts hi → parts !! i = Some (o, s) → parts !! j = Some (o', s') → (i < j)%nat →
  o + s ≤ o'.
Proof.
  revert lo i j. induction parts as [|[o1 s1] parts IH]; simpl; intros lo i j; [done|].
  intros (Ho & Hs & Hc) Hi Hj Hij. destruct j as [|j]; [lia|]. simpl in Hj. destruct i as [|i].
  - injection Hi as -> ->. apply list_elem_of_lookup_2 in Hj.
    destruct (chain_bounds _ _ _ _ _ Hc Hj). lia.
  - apply (IH _ i j Hc); [done|done|lia].
Qed.

(** Bytes that hold some bits. *)
Lemma round_to_upper_byte_eq b :
  0 ≤ b < 2 ^ 32 → round_to_upper_byte b = Ret (roundup b 8 / 8).
Proof.
  intros Hb. unfold round_to_upper_byte.
  pose proof (roundup_bounds 8 ltac:(lia) b) as Hr.
  destruct (loop_spec (λ s, b ≤ s ∧ roundup s 8 = roundup b 8) (λ s, Z.to_nat (roundup s 8 - s))
    (λ r, r = roundup b 8)
    (λ bit_offset, Ret (if negb (bit_offset mod 8 =? 0)
                        then inl (u64 (bit_offset + 1)) else inr bit_offset)))
    with (s := b) (fuel := 9%nat) as (r & -> & ->); [|done|lia|].
  - intros s (Hs & Hrs). pose proof (roundup_bounds 8 ltac:(lia) s).
    destruct (Z.eqb_spec (s mod 8) 0) as [Hm|Hm]; simpl.
    + rewrite <-Hrs. symmetry. apply roundup_multiple; [lia|]. apply Z.mod_divide; lia.
    + assert (roundup s 8 ≠ s) as Hne.
      { intros Heq. pose proof (roundup_divide 8 ltac:(lia) s) as Hd. rewrite Heq in Hd.
        apply Z.mod_divide in Hd; lia. }
      rewrite wrapu_small by lia. rewrite roundup_next by lia. split; [split; [lia|done]|lia].
  - rewrite bind_ret, wraps_small; [done|lia|]. split; [|apply Z.div_lt_upper_bound; lia].
    transitivity 0; [lia|]. apply Z.div_pos; lia.
Qed.

Lemma bytes_bounds b s : 0 < b ≤ s * 8 → 1 ≤ roundup b 8 / 8 ≤ s.
Proof.
  intros Hb. pose proof (roundup_bounds 8 ltac:(lia) b).
  destruct (roundup_divide 8 ltac:(lia) b) as [q Hq]. rewrite Hq, Z.div_mul by lia. lia.
Qed.

(** What has been laid out: a base class, or a data member with its size and
    its alignment. *)
Inductive item := IBase (is_virtual : bool) (base : nat) (o : Z) | IField (o s a : Z).

Definition base_key (i : item) : option (bool * nat) :=
  match i with IBase v b _ => Some (v, b) | IField _ _ _ => None end.

Definition item_field (i : item) : option (Z * Z * Z) :=
  match i with IBase _ _ _ => None | IField o s a => Some (o, s, a) end.

(** The offset of a data member that is no bit-field, with its size and its
    alignment. *)
Definition placed_field (x : data_member * (Z * Z) * placement) : option (Z * Z * Z) :=
  let '(m, (s, a), p) := x in
  match bitfield_size m with None => Some (field_offset p, s, a) | Some _ => None end.

Section layout.
Context (layout_of : nat → res class_layout) (P : class_table) (Hok : layouts_ok layout_of P).

Definition nvsize_of (b : nat) : Z :=
  match layout_of b with Ret l => non_virtual_size l | Err _ => 0 end.

Definition item_subobjects (i : item) : list (nat * Z) :=
  match i with
  | IBase _ b o => shift o (nv_subobjects layout_of P b)
  | IField _ _ _ => []
  end.

(** The bytes of an item; an empty base has none. *)
Definition item_part (i : item) : option (Z * Z) :=
  match i with
  | IBase _ b o => if class_type_is_empty P b then None else Some (o, nvsize_of b)
  | IField o s _ => Some (o, s)
  end.

Definition nvalign_of (b : nat) : Z :=
  match layout_of b with Ret l => non_virtual_align l | Err _ => 0 end.

Definition item_aligned (i : item) : Prop :=
  match i with
  | IBase _ b o => class_type_is_empty P b = false → (nvalign_of b | o)
  | IField o _ a => (a | o)
  end.

Section bases.
Context (bases : list base_class) (vptr : list (Z * Z)).

Record lay_inv (items : list item) (laid : list (data_member * (Z * Z)))
    (st : layout_info * class_offsets) : Prop := {
  li_dsize : 0 ≤ dsize st.1 ≤ size st.1;
  li_align : 0 < align st.1;
  li_wf : info_wf (offsets st.1);
  li_registered : ∀ o e, registered (offsets st.1) o e → 0 ≤ o ≤ size st.1;
  li_subobjects : ∀ c o, (c, o) ∈ flat_map item_subobjects items →
    registered (offsets st.1) o (Base c);
  li_nodup : NoDup (flat_map item_subobjects items);
  li_keys : NoDup (omap base_key items);
  li_parts : chain 0 (vptr ++ omap item_part items) (dsize st.1);
  li_aligned : Forall item_aligned items;
  li_extent : ∀ v b o, IBase v b o ∈ items → 0 ≤ o ∧ o + nvsize_of b ≤ size st.1;
  li_nonvirtual : ∀ b o, IBase false b o ∈ items →
    offset_direct_base bases (co_bases st.2) b = Ret o;
  li_length : length (co_bases st.2) = length bases;
  li_virtual : co_virtual st.2
    = omap (λ i, match i with IBase true b o => Some (b, o) | _ => None end) items;
  li_placements : length (co_placements st.2) = length laid;
  li_fields : omap item_field items = omap placed_field (zip laid (co_placements st.2)) }.

Lemma set_direct_base_spec bs os b o :
  b ∈ class_symbol <$> bs → length os = length bs →
  ∃ os', class_type_set_offset_direct_base bs os b o = Ret os' ∧ length os' = length bs
    ∧ offset_direct_base bs os' b = Ret o
    ∧ ∀ b', b' ≠ b → offset_direct_base bs os' b' = offset_direct_base bs os b'.
Proof.
  revert os. induction bs as [|b1 bs IH]; intros [|o1 os]; simpl; try done.
  - by intros ?%not_elem_of_nil.
  - intros Hb Hlen. destruct (Nat.eqb_spec (class_symbol b1) b) as [He|Hne].
    + exists (o :: os). simpl. rewrite He. split_and!; [done|done|done|].
      intros b' Hb'. by rewrite (proj2 (Nat.eqb_neq b b')) by congruence.
    + apply elem_of_cons in Hb as [->|Hb]; [done|].
      destruct (IH os Hb) as (os' & -> & Hl & Hget & Hoth); [lia|].
      exists (o1 :: os'). simpl. rewrite ?(proj2 (Nat.eqb_neq (class_symbol b1) b)) by done.
      split_and!; [done|lia|done|]. intros b' Hb'. destruct (_ =? b')%nat; auto.
Qed.

Lemma set_virtual_base_fresh vs b o :
  b ∉ vs.*1 → class_type_set_offset_virtual_base vs b o = vs ++ [(b, o)].
Proof.
  induction vs as [|[b1 o1] vs IH]; simpl; [done|]. rewrite not_elem_of_cons. intros [Hne Hb].
  rewrite (proj2 (Nat.eqb_neq _ _)) by done. by rewrite IH.
Qed.

Lemma key_of_item (items : list item) v b o : IBase v b o ∈ items → (v, b) ∈ omap base_key items.
Proof. intros H. apply list_elem_of_omap. by exists (IBase v b o). Qed.

(** The base [b] of the class goes to [off], where it has no conflict. *)
Lemma base_placed items laid li co v b off lb :
  lay_inv items laid (li, co) → (b < length P)%nat → layout_of b = Ret lb →
  (v, b) ∉ omap base_key items → (v = false → b ∈ class_symbol <$> bases) →
  0 ≤ off → off + reach layout_of P b < 2 ^ 64 → off + cl_size lb < 2 ^ 64 →
  item_aligned (IBase v b off) →
  cxx_abi_conflicting_member layout_of P (offsets li) (Base b) off = Ret false →
  ∃ co' info', set_base_offset bases co v b off = Ret co'
    ∧ cxx_abi_register_subobject_offset layout_of P (offsets li) (Base b) off = Ret info'
    ∧ ∀ d s a bits pb, 0 ≤ d ≤ s → size li ≤ s → off + non_virtual_size lb ≤ s → 0 < a →
        chain 0 (vptr ++ omap item_part (items ++ [IBase v b off])) d →
        lay_inv (items ++ [IBase v b off]) laid (LayoutInfo d s a info' false bits pb, co').
Proof.
  intros Hinv Hb Hlb Hkey Hdirect Ho Hreach Hsize Hal Hno.
  destruct (class_ok _ _ Hok b Hb) as (Pb & kb & lb' & Hatb & Hlb' & Hlob & _).
  rewrite Hlb in Hlb'. injection Hlb' as <-. destruct (lo_nvsize _ _ _ _ _ Hlob) as [Hnv0 Hnv1].
  assert (nvsize_of b = non_virtual_size lb) as Hnv by (unfold nvsize_of; by rewrite Hlb).
  destruct (register_base_extends _ _ Hok b lb off (offsets li)) as (info' & Hreg & Hext);
    [done|done|done|lia|].
  assert (∃ co', set_base_offset bases co v b off = Ret co'
    ∧ (∀ b' o', IBase false b' o' ∈ items ++ [IBase v b off] →
         offset_direct_base bases (co_bases co') b' = Ret o')
    ∧ length (co_bases co') = length bases ∧ co_placements co' = co_placements co
    ∧ co_virtual co' = omap (λ i, match i with IBase true b o => Some (b, o) | _ => None end)
                         (items ++ [IBase v b off])) as (co' & Hset & Hnvb & Hlen & Hpl & Hvirt).
  { pose proof (li_virtual _ _ _ Hinv) as Hcv. simpl in Hcv. rewrite omap_app. simpl.
    pose proof (li_length _ _ _ Hinv) as Hlen. simpl in Hlen.
    destruct v; unfold set_base_offset.
    - eexists. split; [done|]. simpl. split_and!.
      + intros b' o' [H|H]%elem_of_app; [by apply (li_nonvirtual _ _ _ Hinv)|].
        by apply list_elem_of_singleton in H.
      + done.
      + done.
      + rewrite set_virtual_base_fresh; [by rewrite Hcv|]. rewrite Hcv. intros Hin.
        apply Hkey. apply list_elem_of_fmap in Hin as ([b1 o1] & -> & Hin).
        apply list_elem_of_omap in Hin as ([[] b2 o2|] & Hin & [=]); subst. by eapply key_of_item.
    - destruct (set_direct_base_spec bases (co_bases co) b off) as (os' & -> & Hl & Hget & Hoth);
        [auto|done|]. eexists. split; [done|]. simpl. split_and!; [|done|done|by rewrite Hcv, app_nil_r].
      intros b' o' [H|H]%elem_of_app.
      + rewrite Hoth; [by apply (li_nonvirtual _ _ _ Hinv)|]. intros ->. apply Hkey. by eapply key_of_item.
      + apply list_elem_of_singleton in H as [= -> ->]. done. }
  exists co', info'. split; [done|]. split; [done|]. intros d s a bits pb Hd Hs Hend Ha Hchain.
  destruct Hext as [Hwf Hold Hsub Hnew].
  split; simpl; try done.
  - apply Hwf, Hinv.
  - intros o e [H|H]%Hnew; [pose proof (li_registered _ _ _ Hinv o e H); simpl in *; lia|lia].
  - intros c o. rewrite flat_map_app, elem_of_app. simpl. rewrite app_nil_r. intros [H|H].
    + apply Hold. by apply (li_subobjects _ _ _ Hinv).
    + by apply Hsub.
  - rewrite flat_map_app. simpl. rewrite app_nil_r. apply NoDup_app. split_and!.
    + apply Hinv.
    + intros [c o] Hin Hin2%elem_of_shift. apply (li_subobjects _ _ _ Hinv) in Hin. simpl in Hin.
      revert Hin. replace o with (off + (o - off)) by lia.
      by eapply (no_conflict_subobjects layout_of P Hok (offsets li) b off).
    + unfold shift. apply NoDup_fmap_2; [|apply Hlob]. intros [c1 o1] [c2 o2] [= -> ?]. f_equal. lia.
  - rewrite omap_app. simpl. apply NoDup_app. split_and!; [apply Hinv| |apply NoDup_singleton].
    intros x Hx Hx2%list_elem_of_singleton. by subst.
  - rewrite Forall_app. split; [apply Hinv|by constructor].
  - intros v' b' o' [H|H]%elem_of_app.
    + destruct (li_extent _ _ _ Hinv v' b' o' H) as [? ?]. simpl in *. lia.
    + apply list_elem_of_singleton in H as [= -> -> ->]. lia.
  - rewrite Hpl. apply Hinv.
  - rewrite Hpl, omap_app. simpl. rewrite app_nil_r. apply Hinv.
Qed.

(** What a base may add to the size, with the offsets the search looks at. *)
Definition base_cost (b : nat) : Z :=
  match layout_of b with
  | Ret l => non_virtual_align l + cl_size l + reach layout_of P b
  | Err _ => 0
  end.

Lemma last_offset_size items laid st :
  lay_inv items laid st → last_offset (offsets st.1) ≤ size st.1.
Proof.
  intros Hinv. apply last_offset_le; [apply Hinv|pose proof (li_dsize _ _ _ Hinv); lia|].
  intros o e H. apply (li_registered _ _ _ Hinv o e H).
Qed.

Lemma lay_base_out_spec items laid st v b :
  lay_inv items laid st → (b < length P)%nat → (v, b) ∉ omap base_key items →
  (v = false → b ∈ class_symbol <$> bases) → size st.1 + base_cost b < 2 ^ 64 →
  ∃ st' o, lay_base_out layout_of P bases b v st = Ret st'
    ∧ lay_inv (items ++ [IBase v b o]) laid st'
    ∧ size st.1 ≤ size st'.1 ≤ size st.1 + base_cost b
    ∧ align st'.1 ≤ Z.max (align st.1) (nvalign_of b)
    ∧ previous_base st'.1 = Some b.
Proof.
  intros Hinv Hb Hkey Hdirect Hroom. destruct st as [li co].
  destruct (class_ok _ _ Hok b Hb) as (Pb & kb & lb & Hatb & Hlb & Hlob & _).
  assert (nvalign_of b = non_virtual_align lb) as Hna by (unfold nvalign_of; by rewrite Hlb).
  unfold base_cost in *. rewrite Hlb in *. rewrite Hna.
  destruct (lo_nvsize _ _ _ _ _ Hlob) as [Hnv0 Hnv1]. destruct (lo_size _ _ _ _ _ Hlob) as [Hs0 _].
  destruct (lo_align _ _ _ _ _ Hlob) as [_ Ha0].
  pose proof (reach_nonneg _ _ Hok b Hb) as Hr0.
  pose proof (last_offset_size _ _ _ Hinv) as Hlast. simpl in Hlast, Hroom.
  destruct (li_dsize _ _ _ Hinv) as [Hd0 Hd1]. simpl in Hd0, Hd1.
  pose proof (li_align _ _ _ Hinv) as Hal. simpl in Hal.
  assert (entry_below P (Base b)) as Hbelow by (by intros c [= <-]).
  assert (entry_reach layout_of P (Base b) = reach layout_of P b) as Hreach by done.
  unfold lay_base_out. rewrite Hlb, bind_ret. destruct (class_type_is_empty P b) eqn:Hempty.
  - destruct (conflicting_member_spec layout_of P Hok (offsets li) (Base b) 0) as (r & Hrun & _ & _);
      [done|done|rewrite Hreach; lia|].
    rewrite Hrun, bind_ret.
    assert (∃ off, (if r then skip_conflicts layout_of P (offsets li) (Base b) (non_virtual_align lb)
                                 (dsize li) else Ret 0) = Ret off
      ∧ 0 ≤ off ≤ size li + non_virtual_align lb
      ∧ cxx_abi_conflicting_member layout_of P (offsets li) (Base b) off = Ret false)
      as (off & -> & Hoff & Hno).
    { destruct r; [|exists 0; split_and!; [done|lia|lia|done]].
      destruct (skip_conflicts_spec layout_of P Hok (offsets li) (Base b) (non_virtual_align lb)
        (dsize li)) as (off & -> & Hb1 & _ & Hno & _); [done|lia|lia|rewrite Hreach; lia|].
      exists off. split_and!; [done|lia|lia|done]. }
    destruct (base_placed items laid li co v b off lb) as (co' & info' & Hset & Hreg & Hstep);
      [done..|lia|lia|lia|simpl; congruence|done|].
    rewrite bind_ret, Hset, bind_ret, Hreg, bind_ret, wrapu_small by lia.
    eexists _, off. split; [done|]. split; [|simpl; split_and!; (lia || done)].
    apply Hstep; [lia|lia|lia|lia|]. rewrite omap_app. simpl. rewrite Hempty, app_nil_r.
    apply (li_parts _ _ _ Hinv).
  - pose proof (roundup_bounds (non_virtual_align lb) Ha0 (dsize li)) as Hru.
    rewrite next_offset_small by lia. rewrite bind_ret.
    destruct (skip_conflicts_spec layout_of P Hok (offsets li) (Base b) (non_virtual_align lb)
        (roundup (dsize li) (non_virtual_align lb))) as (off & -> & Hb1 & Hdiv & Hno & _);
      [done|lia|lia|rewrite Hreach; lia|].
    rewrite bind_ret.
    destruct (base_placed items laid li co v b off lb) as (co' & info' & Hset & Hreg & Hstep);
      [done..|lia|lia|lia| |done|].
    { intros _. rewrite Hna. replace off with (off - roundup (dsize li) (non_virtual_align lb)
        + roundup (dsize li) (non_virtual_align lb)) by lia.
      apply Z.divide_add_r; [done|by apply roundup_divide]. }
    rewrite Hset, bind_ret, Hreg, bind_ret, wrapu_small by lia.
    eexists _, off. split; [done|]. split; [|simpl; split_and!; (lia || done)].
    apply Hstep; [lia|lia|lia|lia|]. rewrite omap_app. simpl. rewrite Hempty, app_assoc.
    apply (chain_snoc _ _ (dsize li)); [apply (li_parts _ _ _ Hinv)|lia|unfold nvsize_of; rewrite Hlb; lia|].
    unfold nvsize_of. rewrite Hlb. lia.
Qed.

(** ** Data members *)
Context (env : type_environment).

(** The alignment a bit-field after a base is moved to. *)
Definition pending (li : layout_info) : Z :=
  match previous_base li with
  | Some b => match layout_of b with Ret l => cl_align l | Err _ => 0 end
  | None => 0
  end.

Lemma pending_nonneg li :
  (∀ b, previous_base li = Some b → (b < length P)%nat) → 0 ≤ pending li.
Proof.
  intros Hb. unfold pending. destruct (previous_base li) as [b|]; [|done].
  destruct (class_ok _ _ Hok b (Hb b eq_refl)) as (_ & k & l & _ & -> & Hlo & _).
  destruct (lo_align _ _ _ _ _ Hlo). lia.
Qed.

(** A bit-field of positive width, no wider than its type, moves [dsize]
    forwards. *)
Lemma place_bitfield_spec li bits s a :
  (∀ b, previous_base li = Some b → (b < length P)%nat) →
  0 < bits → 0 < a → 0 ≤ dsize li → dsize li + pending li + a < 2 ^ 64 →
  ∃ off bit, place_bitfield layout_of bits s a li = Ret (off, bit, bits)
    ∧ dsize li - 1 ≤ off ≤ dsize li + pending li + a ∧ 0 ≤ off.
Proof.
  intros Hpb Hbits Ha Hd Hroom. pose proof (pending_nonneg li Hpb) as Hp0. unfold place_bitfield.
  assert (∃ off, match previous_base li with
    | Some b => '(_, base_align) ← cxx_type_layout layout_of (TClass b);
                next_offset_with_align (dsize li) base_align
    | None => Ret (dsize li) end = Ret off ∧ dsize li ≤ off ≤ dsize li + pending li)
    as (off & -> & Hoff).
  { unfold pending in *. destruct (previous_base li) as [b|]; [|exists (dsize li); split; [done|lia]].
    destruct (class_ok _ _ Hok b (Hpb b eq_refl)) as (_ & k & l & _ & Hl & Hlo & _).
    destruct (lo_align _ _ _ _ _ Hlo) as [Hal _]. simpl. rewrite Hl in *. simpl.
    pose proof (roundup_bounds _ Hal (dsize li)). rewrite next_offset_small by lia.
    eexists. split; [done|lia]. }
  rewrite bind_ret.
  assert (∃ off' bit, (if previous_was_bitfield li then
      Ret (if 0 <? off then off - 1 else off, bit_within_bitfield li)
    else if a =? 0 then Err Undef else Ret (off, u64 ((off mod a) * 8))) = Ret (off', bit)
    ∧ off - 1 ≤ off' ≤ off ∧ 0 ≤ off') as (off' & bit & -> & Hoff').
  { rewrite (proj2 (Z.eqb_neq a 0)) by lia. destruct (previous_was_bitfield li).
    - destruct (Z.ltb_spec 0 off); eexists _, _; (split; [done|lia]).
    - eexists _, _. split; [done|lia]. }
  rewrite bind_ret, (proj2 (Z.eqb_neq bits 0)) by lia.
  pose proof (roundup_bounds a Ha off').
  destruct (u64 (s * 8 - bit) <? bits).
  - rewrite next_offset_small by lia. simpl. eexists _, _. split; [done|lia].
  - eexists _, _. split; [done|lia].
Qed.

Lemma lay_bitfield_spec m bits s a li :
  (∀ b, previous_base li = Some b → (b < length P)%nat) →
  cxx_type_layout layout_of (type_information m) = Ret (s, a) →
  0 < bits ≤ s * 8 → s * 8 < 2 ^ 32 → 0 < a → 0 ≤ dsize li →
  dsize li + pending li + a + s < 2 ^ 64 →
  ∃ d bit a' p, cxx_abi_lay_bitfield env layout_of m bits li
      = Ret (LayoutInfo d (Z.max (size li) d) a' (offsets li) true bit None, p)
    ∧ dsize li ≤ d ≤ dsize li + pending li + a + s ∧ 0 < d ∧ (a' = align li ∨ a' = Z.max (align li) a).
Proof.
  intros Hpb Hl Hbits Hs Ha Hd Hroom. pose proof (pending_nonneg li Hpb) as Hp0.
  unfold cxx_abi_lay_bitfield. rewrite Hl, bind_ret, !wrapu_small by lia.
  rewrite (proj2 (Z.leb_le bits (s * 8))) by lia.
  destruct (place_bitfield_spec li bits s a Hpb) as (off & bit & -> & Hoff & Hoff0); [lia..|].
  rewrite bind_ret, compute_bitfield_offset_eq by lia. rewrite bind_ret.
  destruct (first_last env s bit bits) as [first last]. rewrite bind_ret.
  rewrite round_to_upper_byte_eq by lia. rewrite bind_ret, Z.add_0_l.
  pose proof (bytes_bounds bits s Hbits) as Hby.
  rewrite (wrapu_small 64 (roundup bits 8 / 8)), (wrapu_small 64 (off + _)) by lia.
  eexists _, _, _, _. split; [done|]. split; [lia|]. split; [lia|].
  destruct (is_unnamed_bitfield m); auto.
Qed.

(** A data member with its size and alignment: a bit-field has a positive
    width, not wider than its type; another member may be a flexible array. *)
Definition member_ok (m : data_member) (is_last_member : bool) (sa : Z * Z) : Prop :=
  match bitfield_size m with
  | None => member_size_align layout_of m is_last_member = Ret sa ∧ 0 ≤ sa.1 ∧ entry_below P (Member m)
  | Some bits => cxx_type_layout layout_of (type_information m) = Ret sa
                 ∧ 0 < bits ≤ sa.1 * 8 ∧ sa.1 * 8 < 2 ^ 32
  end ∧ 0 < sa.2.

Definition member_cost (m : data_member) (sa : Z * Z) : Z :=
  sa.1 + sa.2 + match bitfield_size m with None => entry_reach layout_of P (Member m) | Some _ => 0 end.

Lemma member_cost_pos m last sa : member_ok m last sa → 0 < member_cost m sa.
Proof.
  unfold member_ok, member_cost. intros [Hm Ha]. destruct (bitfield_size m) as [bits|].
  - destruct Hm as (_ & ? & _). lia.
  - destruct Hm as (_ & ? & Hb). pose proof (entry_reach_nonneg _ _ Hok (Member m) Hb). lia.
Qed.

Lemma lay_data_member_spec items laid st m last sa :
  lay_inv items laid st → (∀ b, previous_base st.1 = Some b → (b < length P)%nat) →
  member_ok m last sa → size st.1 + pending st.1 + member_cost m sa < 2 ^ 64 →
  ∃ st' its, lay_data_member_out env layout_of P m last st = Ret st'
    ∧ lay_inv (items ++ its) (laid ++ [(m, sa)]) st' ∧ omap base_key its = []
    ∧ size st.1 ≤ size st'.1 ≤ size st.1 + pending st.1 + member_cost m sa
    ∧ align st'.1 ≤ Z.max (align st.1) sa.2 ∧ previous_base st'.1 = None.
Proof.
  intros Hinv Hpb Hm Hroom. destruct st as [li co], sa as [s a].
  pose proof (member_cost_pos _ _ _ Hm) as Hc0. destruct Hm as [Hm Ha].
  pose proof (pending_nonneg li Hpb) as Hp0. unfold member_cost in *. simpl in *.
  destruct (li_dsize _ _ _ Hinv) as [Hd0 Hd1]. simpl in Hd0, Hd1.
  pose proof (li_align _ _ _ Hinv) as Hal. simpl in Hal.
  unfold lay_data_member_out. destruct (bitfield_size m) as [bits|] eqn:Hbit.
  - destruct Hm as (Hl & Hbits & Hs).
    destruct (lay_bitfield_spec m bits s a li Hpb Hl Hbits Hs Ha) as (d & bit & a' & p & -> & Hd & _ & Ha');
      [lia|lia|].
    eexists _, []. split; [done|]. split; [|simpl; split_and!; (done || lia)].
    rewrite app_nil_r. destruct Hinv. split; simpl in *; try done; try lia.
    + intros o e H. specialize (li_registered0 o e H). lia.
    + eapply chain_weaken; [done|lia].
    + intros v b o H. specialize (li_extent0 v b o H). lia.
    + rewrite !length_app, li_placements0. done.
    + rewrite zip_with_app by done. rewrite omap_app. simpl. by rewrite Hbit, app_nil_r.
  - destruct Hm as (Hsa & Hs & Hbelow). rewrite Hsa, bind_ret.
    pose proof (roundup_bounds a Ha (dsize li)) as Hru.
    pose proof (entry_reach_nonneg _ _ Hok _ Hbelow) as Hr0. rewrite next_offset_small by lia.
    rewrite bind_ret. pose proof (last_offset_size _ _ _ Hinv) as Hlast. simpl in Hlast.
    destruct (skip_conflicts_spec layout_of P Hok (offsets li) (Member m) a (roundup (dsize li) a))
      as (off & -> & Hoff & Hdiv & _ & _); [done|lia|lia|lia|].
    rewrite !bind_ret. unfold cxx_abi_register_subobject_offset. rewrite wrapu_small by lia.
    eexists _, [IField off s a]. split; [done|]. split; [|simpl; split_and!; (done || lia)].
    destruct Hinv. split; simpl in *; try done; try lia.
    + by apply info_wf_entity.
    + intros o e [[-> _]|H]%registered_entity; [lia|]. specialize (li_registered0 o e H). lia.
    + intros c o. rewrite flat_map_app. simpl. rewrite app_nil_r. intros H.
      apply registered_entity. right. by apply li_subobjects0.
    + rewrite flat_map_app. simpl. by rewrite app_nil_r.
    + rewrite omap_app. simpl. by rewrite app_nil_r.
    + rewrite omap_app, app_assoc. simpl. eapply chain_snoc; [done|lia|lia|lia].
    + rewrite Forall_app. split; [done|]. constructor; [|done]. simpl.
      replace off with (off - roundup (dsize li) a + roundup (dsize li) a) by lia.
      apply Z.divide_add_r; [done|by apply roundup_divide].
    + intros v b o [H|H]%elem_of_app; [specialize (li_extent0 v b o H); lia|].
      by apply list_elem_of_singleton in H.
    + intros b o [H|H]%elem_of_app; [auto|]. by apply list_elem_of_singleton in H.
    + rewrite omap_app. simpl. by rewrite app_nil_r.
    + rewrite !length_app, li_placements0. done.
    + rewrite zip_with_app by done. rewrite !omap_app. simpl. rewrite Hbit. by f_equal.
Qed.
End bases.
End layout.
