(* ===== verification/ItaniumBases.v ===== *)
(** * The bases of a class in inheritance order, and its primary base

    What [class_type_preorder_all_bases] and
    [cxx_abi_class_type_get_primary_base_class] return. *)

From S2P Require Import Prelude SystemV CxxClass ItaniumAbi ItaniumSub.
#[local] Open Scope Z_scope.

(** The virtual bases of the list. *)
Definition virtuals (info : base_info) : list nat :=
  omap (λ '(b, v), if v : bool then Some b else None) info.

Lemma elem_of_virtuals b info : b ∈ virtuals info ↔ (b, true) ∈ info.
Proof.
  unfold virtuals. rewrite list_elem_of_omap. split.
  - intros ([b' []] & Hin & [=]); by subst.
  - intros Hin. by exists (b, true).
Qed.

(** The list grows with ancestors, and has each virtual base once. *)
Record preordered (n : nat) (info info' : base_info) : Prop := {
  po_below : ∀ e, e ∈ info' → e ∈ info ∨ (e.1 < n)%nat;
  po_old : ∀ e, e ∈ info → e ∈ info';
  po_virtual : NoDup (virtuals info) → NoDup (virtuals info') }.

Lemma preorder_body_spec (rec : nat → base_info → res base_info) k n info info' :
  Forall (λ b, class_symbol b < n)%nat (base_classes_list k) →
  (∀ b info1 info2, (b < n)%nat → rec b info1 = Ret info2 → preordered n info1 info2) →
  preorder_body rec k info = Ret info' →
  preordered n info info'
  ∧ ∀ b, b ∈ base_classes_list k → nondependent b → base_is_virtual b = true →
      (class_symbol b, true) ∈ info'.
Proof.
  intros Hbs Hrec. unfold preorder_body. case_decide as Hd; [done|].
  clear Hd. revert info. induction Hbs as [|b bs Hb _ IH]; intros info; simpl.
  - intros [= <-]. split; [by split; auto|]. by intros b ?%not_elem_of_nil.
  - assert (∀ info1, preordered n info info1 →
      (nondependent b → base_is_virtual b = true → (class_symbol b, true) ∈ info1) →
      (∀ info2, preordered n info1 info2 ∧
         (∀ b', b' ∈ bs → nondependent b' → base_is_virtual b' = true → (class_symbol b', true) ∈ info2) →
       preordered n info info2 ∧
         ∀ b', b' ∈ b :: bs → nondependent b' → base_is_virtual b' = true → (class_symbol b', true) ∈ info2))
      as Hcompose.
    { intros info1 [Hb1 Ho1 Hv1] Hself info2 [[Hb2 Ho2 Hv2] Hrest]. split.
      - split; [|auto|auto]. intros e He. destruct (Hb2 e He); auto.
      - intros b' [->|Hin]%elem_of_cons Hd Hv; [|auto]. apply Ho2. auto. }
    intros Hrun. apply bind_ret_inv in Hrun as (info1 & Hstep & Hrest).
    apply (Hcompose info1); [| |by apply IH].
    all: unfold nondependent; destruct (base_is_dependent b) eqn:Hdep; [injection Hstep as <-|].
    + by split; auto.
    + destruct (existsb _ info) eqn:Hfound; [injection Hstep as <-; by split; auto|].
      apply Hrec in Hstep as [Hb1 Ho1 Hv1]; [|done]. split.
      * intros e He. destruct (Hb1 e He) as [[Hin|Hin%list_elem_of_singleton]%elem_of_app|Hlt];
          [by left| |by right]. right. by subst.
      * intros e He. apply Ho1, elem_of_app. by left.
      * intros Hnd. apply Hv1. unfold virtuals. rewrite omap_app. apply NoDup_app.
        split_and!; [done| |simpl; destruct (base_is_virtual b); [apply NoDup_singleton|apply NoDup_nil_2]].
        intros x Hx. simpl. destruct (base_is_virtual b) eqn:Hv; [|by intros ?%not_elem_of_nil].
        intros ->%list_elem_of_singleton. apply elem_of_virtuals in Hx.
        apply not_true_iff_false in Hfound. apply Hfound, existsb_iff.
        exists (class_symbol b, true). rewrite Nat.eqb_refl. done.
    + done.
    + intros _ Hv. destruct (existsb _ info) eqn:Hfound.
      * injection Hstep as <-. apply existsb_iff in Hfound as ([e v] & Hin & He).
        apply andb_true_iff in He as [He _]. apply andb_true_iff in He as [He Hv'].
        apply Nat.eqb_eq in He. by subst.
      * apply Hrec in Hstep as [_ Ho1 _]; [|done]. apply Ho1, elem_of_app. right.
        rewrite Hv. by apply list_elem_of_singleton.
Qed.

Lemma preorder_rec_spec P b info info' :
  table_wf P → (b < length P)%nat → class_type_preorder_all_bases_rec P b info = Ret info' →
  preordered b info info'.
Proof.
  intros Hwf. revert info info'. induction (lt_wf b) as [b _ IH]. intros info info' Hb Hrun.
  destruct (class_at_is_Some P b Hb) as (P' & k & Hat).
  destruct (class_at_wf _ _ _ _ Hwf Hat) as [[Hbs _] _].
  unfold class_type_preorder_all_bases_rec in Hrun. rewrite (by_class_eq _ _ _ _ _ _ Hat) in Hrun.
  eapply (preorder_body_spec _ k b); [done| |exact Hrun].
  intros b1 info1 info2 Hb1 Hrec. rewrite (by_class_older _ _ _ _ _ _ _ Hat Hb1) in Hrec.
  apply IH in Hrec as [Hbel Hold Hv]; [|done|lia]. split; [|done|done].
  intros e He. destruct (Hbel e He); [by left|right; lia].
Qed.

Lemma preorder_spec P k info :
  table_wf P → class_below (length P) k → class_type_preorder_all_bases P k = Ret info →
  (∀ e, e ∈ info → (e.1 < length P)%nat) ∧ NoDup (virtuals info)
  ∧ ∀ b, b ∈ base_classes_list k → nondependent b → base_is_virtual b = true →
      class_symbol b ∈ virtuals info.
Proof.
  intros Hwf [Hbs _] Hrun. apply (preorder_body_spec _ _ (length P)) in Hrun as [[Hbel _ Hv] Hdir].
  - split_and!.
    + intros e He. destruct (Hbel e He) as [?%not_elem_of_nil|]; done.
    + apply Hv. simpl. apply NoDup_nil_2.
    + intros b Hb Hd Hvb. apply elem_of_virtuals. auto.
  - done.
  - intros b info1 info2 Hb Hrec. apply preorder_rec_spec in Hrec as [Hbel Hold Hv]; [|done|done].
    split; [|done|done]. intros e He. destruct (Hbel e He); [by left|right; lia].
Qed.

(** The primary base is a nonvirtual direct base or a virtual base. *)
Lemma first_nearly_empty_in P primaries first info b :
  first_nearly_empty P primaries first info = Ret (Some b) →
  first = Some b ∨ b ∈ virtuals info.
Proof.
  revert first. induction info as [|[b1 v1] info IH]; intros first;
    cbn [first_nearly_empty].
  - intros [= ->]. by left.
  - intros Hrun. apply bind_ret_inv in Hrun as (ne & Hne & Hrun).
    rewrite elem_of_virtuals, elem_of_cons, <-elem_of_virtuals. destruct ne.
    + destruct v1; [|done]. destruct (existsb _ primaries).
      * apply IH in Hrun as [H|H]; [|auto]. destruct first; [by left|]. injection H as ->. auto.
      * injection Hrun as ->. auto.
    + apply IH in Hrun as [H|H]; auto.
Qed.

Lemma primary_base_in P (rec : nat → res (option (nat * bool))) k info b v :
  class_type_preorder_all_bases P k = Ret info →
  primary_base_body P rec k = Ret (Some (b, v)) →
  if v : bool then b ∈ virtuals info
  else ∃ bc, bc ∈ base_classes_list k ∧ base_is_virtual bc = false ∧ class_symbol bc = b.
Proof.
  intros Hpre. unfold primary_base_body. rewrite Hpre, bind_ret. intros Hrun.
  apply bind_ret_inv in Hrun as (primaries & _ & Hrun).
  destruct (List.find _ _) as [bc|] eqn:Hfind.
  - injection Hrun as <- <-. apply List.find_some in Hfind as [Hin Hcond].
    apply andb_true_iff in Hcond as [Hcond _]. apply andb_true_iff in Hcond as [_ Hv].
    exists bc. split_and!; [by apply list_elem_of_In|by apply negb_true_iff|done].
  - apply bind_ret_inv in Hrun as (e & He & Hrun). destruct e as [e|]; [|done].
    injection Hrun as <- <-. by apply first_nearly_empty_in in He as [?|?].
Qed.
