(* ===== verification/ItaniumClass.v ===== *)
(** * The layout of a class, of its primary base to its virtual bases

    [cxx_abi_class_sizeof] step by step over the invariant of ItaniumLayout,
    and the layouts of a whole table of classes. *)

From S2P Require Import Prelude TypeEnviron FortranDescr SystemV CxxClass ItaniumAbi.
From S2P Require Import ItaniumSub ItaniumLayout ItaniumBases.
#[local] Open Scope Z_scope.

Definition zsum (zs : list Z) : Z := foldr Z.add 0 zs.

Lemma zsum_app xs ys : zsum (xs ++ ys) = zsum xs + zsum ys.
Proof. induction xs as [|x xs IH]; simpl; [done|]. rewrite IH. lia. Qed.

Lemma zsum_nonneg xs : Forall (λ x, 0 ≤ x) xs → 0 ≤ zsum xs.
Proof. induction 1; simpl; lia. Qed.

Lemma imap_pair_snd {A} (xs : list A) : (imap pair xs).*2 = xs.
Proof.
  apply list_eq. intros i. rewrite list_lookup_fmap, list_lookup_imap.
  by destruct (xs !! i).
Qed.

(** The bases of a class with their offsets: the nonvirtual direct ones, and
    all of them. *)
Definition nonvirtual_bases (k : class_type) (l : class_layout) : list (nat * Z) :=
  omap (λ '(b, o), if base_is_virtual b then None else Some (class_symbol b, o))
    (bases_with_offsets k l).

Definition all_bases (k : class_type) (l : class_layout) : list (nat * Z) :=
  nonvirtual_bases k l ++ virtual_base_classes_list l.

Definition item_base (i : item) : option (nat * Z) :=
  match i with IBase _ b o => Some (b, o) | IField _ _ _ => None end.

Definition item_nonvirtual (i : item) : option (nat * Z) :=
  match i with IBase false b o => Some (b, o) | _ => None end.

Definition item_virtual (i : item) : option (nat * Z) :=
  match i with IBase true b o => Some (b, o) | _ => None end.

Lemma item_base_split items :
  omap item_base items ≡ₚ omap item_nonvirtual items ++ omap item_virtual items.
Proof.
  induction items as [|[[] b o|o s a] items IH]; simpl; [done| | |done].
  - rewrite IH. apply Permutation_middle.
  - by rewrite IH.
Qed.

Lemma NoDup_omap_inj {A B} (f : A → option B) xs :
  (∀ x y z, x ∈ xs → y ∈ xs → f x = Some z → f y = Some z → x = y) →
  NoDup xs → NoDup (omap f xs).
Proof.
  intros Hinj Hnd. induction Hnd as [|x xs Hx _ IH]; simpl; [by constructor|].
  destruct (f x) as [z|] eqn:Hfx.
  - constructor; [|apply IH; intros; eapply Hinj; by eauto using list_elem_of_further].
    intros (y & Hy & Hfy)%list_elem_of_omap.
    assert (x = y) as <- by (eapply Hinj; eauto using list_elem_of_here, list_elem_of_further). done.
  - apply IH. intros. eapply Hinj; eauto using list_elem_of_further.
Qed.

Lemma NoDup_fmap_elem {A B} (f : A → B) xs x y :
  NoDup (f <$> xs) → x ∈ xs → y ∈ xs → f x = f y → x = y.
Proof.
  intros Hnd Hx Hy Hf. apply list_elem_of_lookup in Hx as [i Hi], Hy as [j Hj].
  assert (i = j) as ->; [|congruence].
  eapply NoDup_lookup; [exact Hnd| |]; rewrite list_lookup_fmap, ?Hi, ?Hj; [done|].
  simpl. by rewrite Hf.
Qed.

(** The subobjects depend on the layouts of the classes of the table only. *)
Lemma nv_subobjects_ext (lay lay' : nat → res class_layout) P c :
  (∀ c, (c < length P)%nat → lay c = lay' c) → nv_subobjects lay P c = nv_subobjects lay' P c.
Proof.
  unfold nv_subobjects. revert c. induction P as [|k P IH]; intros c Hext; simpl; [done|].
  simpl in Hext. case_decide.
  - unfold nv_subobjects_body. rewrite Hext by lia. f_equal.
    destruct (lay' (length P)) as [l|]; [|done]. apply flat_map_ext_elem. intros [b o] _.
    destruct (base_is_virtual b); [done|]. f_equal. apply IH. intros c' Hc'. apply Hext. lia.
  - apply IH. intros c' Hc'. apply Hext. lia.
Qed.

Section class.
Context (env : type_environment) (fdesc : fortran_array_descriptor) (cxx11 : bool).
Context (layout_of : nat → res class_layout) (P : class_table) (Hok : layouts_ok layout_of P).

(** ** The order of the bases *)

(** The bases to lay out, with [true] for virtual ones: the primary base, the
    other nonvirtual direct bases, and, after the data members, the other
    virtual bases. *)
Definition primary_key (primary : option (nat * bool)) : list (bool * nat) :=
  match primary with Some (b, v) => [(v, b)] | None => [] end.

Definition nonvirtual_keys (primary : option nat) (bases : list base_class) : list (bool * nat) :=
  omap (λ b, if negb (base_is_virtual b) && bool_decide (primary ≠ Some (class_symbol b))
             then Some (false, class_symbol b) else None) bases.

Definition virtual_keys (primary : option nat) (bs : list nat) : list (bool * nat) :=
  omap (λ b, if bool_decide (primary = Some b) then None else Some (true, b)) bs.

Definition first_keys (primary : option (nat * bool)) (k : class_type) : list (bool * nat) :=
  primary_key primary ++ nonvirtual_keys (fst <$> primary) (base_classes_list k).

Definition all_keys (primary : option (nat * bool)) (k : class_type) (info : base_info) :
    list (bool * nat) :=
  first_keys primary k ++ virtual_keys (fst <$> primary) (virtuals info).

(** What a base and its alignment may add. *)
Definition key_cost (key : bool * nat) : Z :=
  base_cost layout_of P key.2
  + match layout_of key.2 with Ret l => cl_align l | Err _ => 0 end.

Lemma key_cost_nonneg key : (key.2 < length P)%nat →
  0 ≤ key_cost key ∧ nvalign_of layout_of key.2 ≤ base_cost layout_of P key.2.
Proof.
  intros Hb. destruct (class_ok _ _ Hok key.2 Hb) as (P' & k & l & _ & Hl & Hlo & _).
  unfold key_cost, base_cost, nvalign_of. rewrite Hl.
  destruct (lo_align _ _ _ _ _ Hlo), (lo_size _ _ _ _ _ Hlo). pose proof (reach_nonneg _ _ Hok _ Hb).
  lia.
Qed.

Section run.
Context (bases : list base_class) (vptr : list (Z * Z)) (start : Z).

Definition weight (st : layout_info * class_offsets) : Z :=
  size st.1 + pending layout_of st.1 + align st.1.

(** The bases [keys] and the members [laid] have been laid out, as [items]. *)
Record reached (items : list item) (keys : list (bool * nat))
    (laid : list (data_member * (Z * Z))) (st : layout_info * class_offsets) : Prop := {
  re_inv : lay_inv layout_of P bases vptr items laid st;
  re_keys : omap base_key items = keys;
  re_previous : ∀ b, previous_base st.1 = Some b → (b < length P)%nat;
  re_weight : weight st ≤ start + 2 * zsum (map key_cost keys)
    + 2 * zsum (map (λ '(m, sa), member_cost layout_of P m sa) laid) }.

Lemma lay_base_reached items keys laid st v b :
  reached items keys laid st → (b < length P)%nat → (v, b) ∉ keys →
  (v = false → b ∈ class_symbol <$> bases) →
  start + 2 * zsum (map key_cost (keys ++ [(v, b)]))
    + 2 * zsum (map (λ '(m, sa), member_cost layout_of P m sa) laid) < 2 ^ 64 →
  ∃ st' o, lay_base_out layout_of P bases b v st = Ret st'
    ∧ reached (items ++ [IBase v b o]) (keys ++ [(v, b)]) laid st' ∧ size st.1 ≤ size st'.1.
Proof.
  intros [Hinv Hkeys Hpb Hw] Hb Hfresh Hdirect Hroom.
  rewrite map_app, zsum_app in Hroom. simpl in Hroom.
  destruct (key_cost_nonneg (v, b) Hb) as [Hc0 Hna]. unfold weight in Hw.
  pose proof (pending_nonneg _ _ Hok st.1 Hpb). pose proof (li_align _ _ _ _ _ _ _ Hinv).
  destruct (lay_base_out_spec _ _ Hok bases vptr items laid st v b) as
    (st' & o & Hrun & Hinv' & Hsize & Hal & Hprev); [done|done|by rewrite Hkeys|done| |].
  { unfold key_cost in *. simpl in *. destruct (class_ok _ _ Hok b Hb) as (_ & k & l & _ & Hl & Hlo & _).
    rewrite Hl in *. destruct (lo_align _ _ _ _ _ Hlo). lia. }
  exists st', o. split; [done|]. split; [|lia]. split.
  - done.
  - rewrite omap_app, Hkeys. done.
  - intros b' Hb'. rewrite Hprev in Hb'. by injection Hb' as <-.
  - unfold weight, pending. rewrite Hprev, map_app, zsum_app. simpl.
    unfold key_cost in *. simpl in *. destruct (class_ok _ _ Hok b Hb) as (_ & k & l & _ & Hl & Hlo & _).
    rewrite Hl in *. destruct (lo_align _ _ _ _ _ Hlo). lia.
Qed.

Lemma lay_member_reached items keys laid st m last sa :
  reached items keys laid st → member_ok layout_of P m last sa →
  start + 2 * zsum (map key_cost keys)
    + 2 * zsum (map (λ '(m, sa), member_cost layout_of P m sa) (laid ++ [(m, sa)])) < 2 ^ 64 →
  ∃ st' its, lay_data_member_out env layout_of P m last st = Ret st'
    ∧ reached (items ++ its) keys (laid ++ [(m, sa)]) st' ∧ size st.1 ≤ size st'.1.
Proof.
  intros [Hinv Hkeys Hpb Hw] Hm Hroom. rewrite map_app, zsum_app in Hroom. simpl in Hroom.
  unfold weight in Hw. pose proof (pending_nonneg _ _ Hok st.1 Hpb).
  pose proof (li_align _ _ _ _ _ _ _ Hinv). pose proof (member_cost_pos _ _ Hok _ _ _ Hm).
  destruct (lay_data_member_spec _ _ Hok bases vptr env items laid st m last sa) as
    (st' & its & Hrun & Hinv' & Hits & Hsize & Hal & Hprev); [done|done|done|lia|].
  exists st', its. split; [done|]. split; [|lia]. split.
  - done.
  - rewrite omap_app, Hits, app_nil_r. done.
  - intros b. by rewrite Hprev.
  - unfold weight, pending. rewrite Hprev, map_app, zsum_app. simpl.
    assert (sa.2 ≤ member_cost layout_of P m sa); [|lia].
    unfold member_cost. destruct Hm as [Hm Ha]. destruct (bitfield_size m).
    + destruct Hm as (_ & ? & _). lia.
    + destruct Hm as (_ & ? & Hb). pose proof (entry_reach_nonneg _ _ Hok (Member m) Hb). lia.
Qed.

(** ** The loops *)
Fixpoint members_ok (ms : list data_member) (sas : list (Z * Z)) : Prop :=
  match ms, sas with
  | [], [] => True
  | m :: ms', sa :: sas' =>
      member_ok layout_of P m (match ms' with [] => true | _ => false end) sa ∧ members_ok ms' sas'
  | _, _ => False
  end.

Notation member_costs laid := (zsum (map (λ '(m, sa), member_cost layout_of P m sa) laid)).

Lemma member_costs_nonneg ms sas : members_ok ms sas → 0 ≤ member_costs (zip ms sas).
Proof.
  revert sas. induction ms as [|m ms IH]; intros [|sa sas]; simpl; try done.
  intros [Hm Hms]. pose proof (member_cost_pos _ _ Hok _ _ _ Hm). specialize (IH _ Hms). lia.
Qed.

Lemma key_costs_nonneg keys :
  Forall (λ key, key.2 < length P)%nat keys → 0 ≤ zsum (map key_cost keys).
Proof.
  intros Hk. apply zsum_nonneg, Forall_map. eapply Forall_impl; [done|].
  intros key Hkey. by apply key_cost_nonneg.
Qed.

Lemma lay_members_reached items keys laid st ms sas :
  reached items keys laid st → members_ok ms sas →
  start + 2 * zsum (map key_cost keys) + 2 * member_costs (laid ++ zip ms sas) < 2 ^ 64 →
  ∃ st' its, lay_data_members_out env layout_of P ms st = Ret st'
    ∧ reached (items ++ its) keys (laid ++ zip ms sas) st' ∧ size st.1 ≤ size st'.1.
Proof.
  revert sas items laid st. induction ms as [|m ms IH]; intros [|sa sas] items laid st Hr; simpl; try done.
  - intros _ _. exists st, []. rewrite !app_nil_r. split; [done|]. split; [done|lia].
  - intros [Hm Hms] Hroom. rewrite map_app, zsum_app in Hroom. simpl in Hroom.
    pose proof (member_costs_nonneg _ _ Hms) as Hnn.
    destruct (lay_member_reached items keys laid st m _ sa Hr Hm) as (st1 & its1 & -> & Hr1 & Hs1).
    { rewrite map_app, zsum_app. simpl. lia. }
    rewrite bind_ret.
    destruct (IH sas (items ++ its1) (laid ++ [(m, sa)]) st1) as (st2 & its2 & -> & Hr2 & Hs2);
      [done|done| |].
    { rewrite <-app_assoc. simpl. rewrite map_app, zsum_app. simpl. lia. }
    exists st2, (its1 ++ its2). rewrite <-!app_assoc in Hr2. simpl in Hr2. rewrite app_assoc.
    rewrite <-app_assoc. split; [done|]. split; [done|lia].
Qed.

(** Keys to come are not among those laid out, and leave room. *)
Lemma key_in_order keys done key rest :
  NoDup keys → Forall (λ key, key.2 < length P)%nat keys → keys = done ++ key :: rest →
  key ∉ done ∧ (key.2 < length P)%nat
  ∧ zsum (map key_cost (done ++ [key])) ≤ zsum (map key_cost keys).
Proof.
  intros Hnd Hb ->. apply NoDup_app in Hnd as (_ & Hdis & _).
  rewrite Forall_app, Forall_cons in Hb. destruct Hb as (_ & Hkey & Hrest). split_and!.
  - intros Hin. apply (Hdis key Hin). by left.
  - done.
  - rewrite !map_app, !zsum_app. simpl. pose proof (key_costs_nonneg _ Hrest). lia.
Qed.

Lemma lay_nonvirtual_reached (k : class_type) primary keys0 items0 laid st :
  base_classes_list k = bases →
  reached items0 keys0 laid st →
  let keys := keys0 ++ nonvirtual_keys primary bases in
  NoDup keys → Forall (λ key, key.2 < length P)%nat keys →
  start + 2 * zsum (map key_cost keys) + 2 * member_costs laid < 2 ^ 64 →
  ∃ st' its, lay_nonvirtual_bases_out layout_of P k primary st = Ret st'
    ∧ reached (items0 ++ its) keys laid st'.
Proof.
  intros Hk Hr keys Hnd Hbelow Hroom. unfold lay_nonvirtual_bases_out. rewrite Hk.
  destruct (for_each_spec
    (λ b st, if negb (base_is_virtual b) && bool_decide (primary ≠ Some (class_symbol b))
             then lay_base_out layout_of P bases (class_symbol b) false st else Ret st)
    (λ bs st, ∃ its, reached (items0 ++ its) (keys0 ++ nonvirtual_keys primary bs) laid st) bases st)
    as (st' & -> & its & Hr').
  - exists []. by rewrite !app_nil_r.
  - intros bs b st1 (its & Hr1) (todo & Htodo).
    unfold nonvirtual_keys. rewrite omap_app. simpl.
    destruct (negb (base_is_virtual b) && bool_decide _) eqn:Hcond.
    + destruct (key_in_order keys (keys0 ++ nonvirtual_keys primary bs) (false, class_symbol b)
        (nonvirtual_keys primary todo)) as (Hfresh & Hb & Hcost); [done|done| |].
      { unfold keys, nonvirtual_keys. rewrite Htodo, omap_app. simpl. by rewrite Hcond, <-app_assoc. }
      destruct (lay_base_reached _ _ _ st1 false (class_symbol b) Hr1 Hb Hfresh) as (st2 & o & -> & Hr2 & _).
      { intros _. rewrite Htodo, fmap_app. apply elem_of_app. right. by left. }
      { simpl in *. lia. }
      exists st2. split; [done|]. exists (its ++ [IBase false (class_symbol b) o]).
      by rewrite !app_assoc.
    + exists st1. split; [done|]. exists its. by rewrite app_nil_r.
  - eauto.
Qed.

Lemma lay_virtual_reached (k : class_type) primary info keys0 items0 laid st :
  base_classes_list k = bases →
  class_type_preorder_all_bases P k = Ret info →
  class_type_get_indirect_virtual_primary_bases (cxx_abi_class_type_get_primary_base_class P) info
    = Ret [] →
  reached items0 keys0 laid st →
  let keys := keys0 ++ virtual_keys primary (virtuals info) in
  NoDup keys → Forall (λ key, key.2 < length P)%nat keys →
  start + 2 * zsum (map key_cost keys) + 2 * member_costs laid < 2 ^ 64 →
  ∃ st' its, lay_virtual_bases_out layout_of P k primary st = Ret st'
    ∧ reached (items0 ++ its) keys laid st' ∧ size st.1 ≤ size st'.1
    ∧ Forall (λ i, is_Some (base_key i)) its.
Proof.
  intros Hk Hpre Hprim Hr keys Hnd Hbelow Hroom. unfold lay_virtual_bases_out.
  rewrite Hpre, bind_ret, Hprim, bind_ret, Hk.
  match goal with |- context [for_each ?body _ _] =>
    destruct (for_each_spec body
      (λ bs st1, ∃ its, reached (items0 ++ its)
         (keys0 ++ virtual_keys primary (virtuals bs.*2)) laid st1
         ∧ size st.1 ≤ size st1.1 ∧ Forall (λ i, is_Some (base_key i)) its) (imap pair info) st)
      as (st' & -> & its & Hr' & Hs' & Hits) end.
  - exists []. rewrite !app_nil_r. split; [done|]. split; [lia|done].
  - intros bs [i [b v]] st1 (its & Hr1 & Hs1 & Hits) (todo & Htodo).
    assert (info = bs.*2 ++ (b, v) :: todo.*2) as Hinfo.
    { by rewrite <-(imap_pair_snd info), Htodo, fmap_app. }
    unfold virtuals, virtual_keys. rewrite fmap_app, !omap_app. simpl.
    destruct v; simpl; [|exists st1; split; [done|]; exists its; rewrite app_nil_r; done].
    destruct (bool_decide (primary = Some b)) eqn:Hcond; simpl.
    { exists st1. split; [done|]. exists its. rewrite app_nil_r. done. }
    destruct (key_in_order keys (keys0 ++ virtual_keys primary (virtuals bs.*2)) (true, b)
        (virtual_keys primary (virtuals todo.*2))) as (Hfresh & Hb & Hcost); [done|done| |].
    { unfold keys, virtual_keys, virtuals. rewrite Hinfo, !omap_app. simpl. by rewrite Hcond, <-app_assoc. }
    destruct (lay_base_reached _ _ _ st1 true b Hr1 Hb Hfresh) as (st2 & o & -> & Hr2 & Hs2);
      [done|simpl in *; lia|].
    exists st2. split; [done|]. exists (its ++ [IBase true b o]). rewrite !app_assoc.
    split; [done|]. split; [lia|]. rewrite Forall_app. split; [done|]. by repeat constructor.
  - exists st', its. by rewrite imap_pair_snd in Hr'.
Qed.
End run.

(** ** A class *)
Notation member_costs laid := (zsum (map (λ '(m, sa), member_cost layout_of P m sa) laid)).

(** The virtual pointer of a dynamic class without primary base. *)
Definition virtual_pointer (k : class_type) (primary : option (nat * bool)) : list (Z * Z) :=
  if dynamic_body P (class_type_is_dynamic P) k
  then match primary with None => [(0, sizeof_pointer env)] | Some _ => [] end
  else [].

(** What the theorems ask of a class [k], its bases in preorder [info], its
    primary base and the sizes [sas] of its data members: no base is dependent
    or repeated; no base has a primary base that is virtual, and no base is
    both a nonvirtual direct base and a virtual base; the data members have a
    size; and the sizes do not exceed [size_t]. *)
Record layable (k : class_type) (primary : option (nat * bool)) (info : base_info)
    (sas : list (Z * Z)) : Prop := {
  la_union : is_union k = false;
  la_nondependent : Forall nondependent (base_classes_list k);
  la_nodup : NoDup (class_symbol <$> base_classes_list k);
  la_below : class_below (length P) k;
  la_preorder : class_type_preorder_all_bases P k = Ret info;
  la_primaries : class_type_get_indirect_virtual_primary_bases
                   (cxx_abi_class_type_get_primary_base_class P) info = Ret [];
  la_primary : if dynamic_body P (class_type_is_dynamic P) k
    then primary_base_body P (cxx_abi_class_type_get_primary_base_class P) k = Ret primary
    else primary = None;
  la_distinct : Forall (λ b, base_is_virtual b = false → class_symbol b ∉ virtuals info)
    (base_classes_list k);
  la_members : members_ok (class_type_get_nonstatic_data_members k) sas;
  la_pointer : 0 < sizeof_pointer env ∧ 0 < alignof_pointer env;
  la_room : 2 * (1 + sizeof_pointer env + alignof_pointer env
    + 2 * zsum (map key_cost (all_keys primary k info))
    + 2 * member_costs (zip (class_type_get_nonstatic_data_members k) sas)) < 2 ^ 64 }.

Section layable.
Context (k : class_type) (primary : option (nat * bool)) (info : base_info) (sas : list (Z * Z)).
Context (Hla : layable k primary info sas).

Lemma primary_in b v : primary = Some (b, v) →
  if v : bool then b ∈ virtuals info
  else ∃ bc, bc ∈ base_classes_list k ∧ base_is_virtual bc = false ∧ class_symbol bc = b.
Proof.
  intros Hp. pose proof (la_primary _ _ _ _ Hla) as Hprim. rewrite Hp in Hprim.
  destruct (dynamic_body _ _ _); [|done].
  eapply primary_base_in; [apply (la_preorder _ _ _ _ Hla)|done].
Qed.

Lemma virtuals_below b : b ∈ virtuals info → (b < length P)%nat.
Proof.
  destruct (preorder_spec P k info) as (Hb & _); [apply Hok|apply Hla|apply Hla|].
  intros Hin%elem_of_virtuals. apply (Hb _ Hin).
Qed.

Lemma bases_below bc : bc ∈ base_classes_list k → (class_symbol bc < length P)%nat.
Proof. destruct (la_below _ _ _ _ Hla) as [Hb _]. rewrite Forall_forall in Hb. auto. Qed.

(** The keys are the nonvirtual direct bases and the virtual bases. *)
Lemma elem_of_all_keys v b :
  (v, b) ∈ all_keys primary k info ↔
  if v : bool then b ∈ virtuals info
  else ∃ bc, bc ∈ base_classes_list k ∧ base_is_virtual bc = false ∧ class_symbol bc = b.
Proof.
  pose proof primary_in as Hprimary. pose proof (la_distinct _ _ _ _ Hla) as Hdistinct.
  rewrite Forall_forall in Hdistinct.
  unfold all_keys, first_keys, nonvirtual_keys, virtual_keys.
  rewrite !elem_of_app, !list_elem_of_omap. split.
  - intros [[Hp|(bc & Hbc & Hcond)]|(b' & Hb' & Hcond)].
    + unfold primary_key in Hp. clear Hla.
      destruct primary as [[b' v']|]; [|by apply not_elem_of_nil in Hp].
      apply list_elem_of_singleton in Hp as [= -> ->]. by apply Hprimary.
    + destruct (base_is_virtual bc) eqn:Hv; [done|]. simpl in Hcond.
      case_bool_decide; [|done]. injection Hcond as <- <-. eauto.
    + case_bool_decide; [done|]. by injection Hcond as <- <-.
  - destruct (decide (fst <$> primary = Some b)) as [Hp|Hp].
    + intros Hb. left. left. clear Hla. destruct primary as [[b' v']|]; [|done].
      injection Hp as ->. unfold primary_key. apply list_elem_of_singleton. f_equal.
      pose proof (Hprimary b v' eq_refl) as Hin. destruct v, v'; try done; exfalso.
      * destruct Hin as (bc & Hbc & Hv & <-). by apply (Hdistinct bc).
      * destruct Hb as (bc & Hbc & Hv & <-). by apply (Hdistinct bc).
    + destruct v.
      * intros Hb. right. exists b. by rewrite bool_decide_false.
      * intros (bc & Hbc & Hv & Hs). left. right. exists bc. split; [done|].
        rewrite Hv, bool_decide_true by congruence. by rewrite Hs.
Qed.

Lemma all_keys_below : Forall (λ key, key.2 < length P)%nat (all_keys primary k info).
Proof.
  apply Forall_forall. intros [v b] Hin%elem_of_all_keys. simpl. destruct v.
  - by apply virtuals_below.
  - destruct Hin as (bc & Hbc & _ & <-). by apply bases_below.
Qed.

Lemma all_keys_nodup : NoDup (all_keys primary k info).
Proof.
  unfold all_keys, first_keys. apply NoDup_app. split_and!; [apply NoDup_app; split_and!| |].
  - unfold primary_key. clear Hla. destruct primary as [[? ?]|]; [apply NoDup_singleton|apply NoDup_nil_2].
  - intros [v b] Hp (bc & Hbc & Hcond)%list_elem_of_omap. unfold primary_key in Hp. clear Hla.
    destruct primary as [[b' v']|]; [|by apply not_elem_of_nil in Hp].
    apply list_elem_of_singleton in Hp as [= -> ->]. simpl in Hcond.
    destruct (base_is_virtual bc); simpl in Hcond; [done|]. case_bool_decide as Hne; [|done].
    congruence.
  - apply NoDup_omap_inj.
    + intros x y z Hx Hy Hfx Hfy. assert (class_symbol x = class_symbol y) as Hs.
      { destruct (negb (base_is_virtual x) && _); [|done].
        destruct (negb (base_is_virtual y) && _); [|done]. congruence. }
      eapply NoDup_fmap_elem; [apply (la_nodup _ _ _ _ Hla)|done|done|done].
    + apply (NoDup_fmap_1 class_symbol), Hla.
  - intros [v b] Hin (b' & Hb' & Hcond)%list_elem_of_omap. case_bool_decide as Hne; [done|].
    injection Hcond as <- <-. apply elem_of_app in Hin as [Hp|(bc & _ & Hcond)%list_elem_of_omap].
    + unfold primary_key in Hp. clear Hla. destruct primary as [[b2 v2]|]; [|by apply not_elem_of_nil in Hp].
      apply list_elem_of_singleton in Hp. simpl in Hne. congruence.
    + destruct (negb (base_is_virtual bc) && _); [|done]. by injection Hcond.
  - apply NoDup_omap_inj.
    + intros x y z _ _ Hx Hy. do 2 case_bool_decide; try done. congruence.
    + destruct (preorder_spec P k info) as (_ & Hnd & _); [apply Hok|apply Hla|apply Hla|done].
Qed.

(** ** The run *)
Notation start := (1 + sizeof_pointer env + alignof_pointer env).
Notation ms := (class_type_get_nonstatic_data_members k).
Notation reached' := (reached (base_classes_list k) (virtual_pointer k primary) start).

Lemma initial_inv d a vptr :
  0 ≤ d → 0 < a → chain 0 vptr d →
  lay_inv layout_of P (base_classes_list k) vptr [] []
    (LayoutInfo d d a [] false 0 None,
     ClassOffsets (map (λ _, 0) (base_classes_list k)) [] []).
Proof.
  intros Hd Ha Hv. split; simpl; try done; try lia.
  - by constructor.
  - by intros o e ?%registered_nil.
  - by intros c o ?%not_elem_of_nil.
  - apply NoDup_nil_2.
  - apply NoDup_nil_2.
  - by rewrite app_nil_r.
  - by intros v b o ?%not_elem_of_nil.
  - by intros b o ?%not_elem_of_nil.
  - by rewrite length_map.
Qed.

Lemma lay_primary_reached :
  ∃ st its, lay_primary_out env layout_of P k
      (LayoutInfo 0 0 1 [] false 0 None,
       ClassOffsets (map (λ _, 0) (base_classes_list k)) [] []) = Ret (fst <$> primary, st)
    ∧ reached' its (primary_key primary) [] st.
Proof.
  pose proof (la_primary _ _ _ _ Hla) as Hprim. destruct (la_pointer _ _ _ _ Hla) as [Hp1 Hp2].
  assert (∀ vptr d a, 0 ≤ d → 0 < a → chain 0 vptr d → d + a ≤ start →
    reached (base_classes_list k) vptr start [] [] []
      (LayoutInfo d d a [] false 0 None,
       ClassOffsets (map (λ _, 0) (base_classes_list k)) [] [])) as Hinit.
  { intros vptr d a Hd Ha Hc Hw. split; [by apply initial_inv|done|done|].
    unfold weight, pending. simpl. lia. }
  pose proof all_keys_below as Hbelow. pose proof all_keys_nodup as Hnd.
  pose proof (la_room _ _ _ _ Hla) as Hroom. pose proof (member_costs_nonneg _ _ (la_members _ _ _ _ Hla)).
  pose proof primary_in as Hpin. clear Hla.
  unfold lay_primary_out, virtual_pointer. destruct (dynamic_body _ _ _); cbn [negb].
  - rewrite Hprim, bind_ret. destruct primary as [[b v]|].
    + assert (all_keys (Some (b, v)) k info = [] ++ (v, b) :: (nonvirtual_keys (Some b) (base_classes_list k)
        ++ virtual_keys (Some b) (virtuals info))) as Hkeys.
      { done. }
      destruct (key_in_order _ _ _ _ Hnd Hbelow Hkeys) as (Hfresh & Hb & Hcost).
      destruct (lay_base_reached (base_classes_list k) [] start [] [] []
        (LayoutInfo 0 0 1 [] false 0 None,
         ClassOffsets (map (λ _, 0) (base_classes_list k)) [] []) v b) as (st & o & -> & Hr & _).
      * apply Hinit; simpl; lia.
      * done.
      * done.
      * intros ->. destruct (Hpin b false eq_refl) as (bc & Hbc & _ & <-). by apply list_elem_of_fmap_2.
      * simpl in *. lia.
      * rewrite bind_ret. eauto.
    + eexists _, []. split; [done|]. apply Hinit; simpl; lia.
  - rewrite Hprim. eexists _, []. split; [done|]. simpl. apply Hinit; simpl; lia.
Qed.

Lemma members_ok_in mem ss m :
  members_ok mem ss → m ∈ mem → ∃ last sa, member_ok layout_of P m last sa.
Proof.
  revert ss. induction mem as [|m1 mem IH]; intros [|sa ss]; simpl; try done.
  - by intros _ ?%not_elem_of_nil.
  - intros [H1 H2] [->|Hin]%elem_of_cons; eauto.
Qed.

Lemma pod_layout_returns : ∃ r, class_is_pod_layout cxx11 layout_of P k = Ret r.
Proof.
  unfold class_is_pod_layout. destruct (negb _); [eauto|].
  match goal with |- context [for_each ?body _ _] =>
    destruct (for_each_spec body (λ _ _, True) ms true I) as (r & -> & _) end; [|eauto].
  intros done m r _ (todo & Htodo). destruct (negb r); [eauto|].
  destruct (members_ok_in _ _ m (la_members _ _ _ _ Hla)) as (last & sa & Hm & _).
  { rewrite Htodo. apply elem_of_app. right. by left. }
  destruct (bitfield_size m); [|eauto]. destruct Hm as (-> & _). destruct sa. rewrite bind_ret. eauto.
Qed.

Record class_run (l : class_layout) (items its : list item) (mid st : layout_info * class_offsets) :
    Prop := {
  run_result : cxx_abi_class_sizeof env cxx11 layout_of P k = Ret l;
  run_mid : reached' items (first_keys primary k) (zip ms sas) mid;
  run_end : reached' (items ++ its) (all_keys primary k info) (zip ms sas) st;
  run_virtual : Forall (λ i, is_Some (base_key i)) its;
  run_sizes : size mid.1 ≤ size st.1;
  run_offsets : base_offsets l = co_bases st.2 ∧ virtual_base_classes_list l = co_virtual st.2
                ∧ placements l = co_placements st.2;
  run_data_size : cl_data_size l = size st.1;
  run_align : cl_align l = align st.1 ∧ non_virtual_align l = align mid.1;
  run_size : cl_size l = if roundup (size st.1) (align st.1) =? 0 then 1
                         else roundup (size st.1) (align st.1);
  run_small : roundup (size st.1) (align st.1) < 2 ^ 64;
  run_nvsize : non_virtual_size l = size mid.1 ∨ non_virtual_size l = cl_size l }.

Lemma class_runs : ∃ l items its mid st, class_run l items its mid st.
Proof.
  pose proof all_keys_below as Hbelow. pose proof all_keys_nodup as Hnd.
  pose proof (la_room _ _ _ _ Hla) as Hroom.
  pose proof (member_costs_nonneg _ _ (la_members _ _ _ _ Hla)) as Hmc.
  assert (Forall (λ key, key.2 < length P)%nat (first_keys primary k)
    ∧ NoDup (first_keys primary k)
    ∧ 0 ≤ zsum (map key_cost (first_keys primary k)) ≤ zsum (map key_cost (all_keys primary k info)))
    as (Hbelow1 & Hnd1 & Hcost).
  { unfold all_keys in *. rewrite Forall_app in Hbelow. destruct Hbelow as [Hb1 Hb2].
    apply NoDup_app in Hnd as (Hn1 & _). split_and!; [done|done|by apply key_costs_nonneg|].
    rewrite map_app, zsum_app. pose proof (key_costs_nonneg _ Hb2). lia. }
  destruct (la_pointer _ _ _ _ Hla) as [Hp1 Hp2].
  destruct lay_primary_reached as (st1 & its1 & Hrun1 & Hr1).
  destruct (lay_nonvirtual_reached _ _ start k (fst <$> primary) _ _ _ _ eq_refl Hr1)
    as (st2 & its2 & Hrun2 & Hr2); [done|done|unfold first_keys in Hcost; simpl; lia|].
  destruct (lay_members_reached _ _ _ _ _ _ _ ms sas Hr2 (la_members _ _ _ _ Hla))
    as (st3 & its3 & Hrun3 & Hr3 & _); [unfold first_keys in Hcost; simpl; lia|].
  simpl in Hr3.
  destruct (lay_virtual_reached _ _ start k (fst <$> primary) info _ _ _ _ eq_refl
    (la_preorder _ _ _ _ Hla) (la_primaries _ _ _ _ Hla) Hr3)
    as (st4 & its4 & Hrun4 & Hr4 & Hs4 & Hits4); [done|done|unfold all_keys, first_keys in *; lia|].
  destruct pod_layout_returns as [pod Hpod].
  assert (0 ≤ size st4.1 ∧ 0 < align st4.1 ∧ size st4.1 + align st4.1 ≤ weight st4) as (Hs0 & Ha0 & Hw).
  { pose proof (li_dsize _ _ _ _ _ _ _ (re_inv _ _ _ _ _ _ _ Hr4)).
    pose proof (li_align _ _ _ _ _ _ _ (re_inv _ _ _ _ _ _ _ Hr4)).
    pose proof (pending_nonneg _ _ Hok st4.1 (re_previous _ _ _ _ _ _ _ Hr4)). unfold weight. lia. }
  pose proof (re_weight _ _ _ _ _ _ _ Hr4) as Hw4. simpl in Hw4.
  pose proof (roundup_bounds (align st4.1) Ha0 (size st4.1)) as Hru.
  assert (roundup (size st4.1) (align st4.1) < 2 ^ 64) as Hsmall
    by (unfold all_keys, first_keys in *; lia).
  destruct st4 as [li co]. cbn [fst snd] in *.
  eexists _, _, its4, st3, (li, co). split; cbn [fst snd].
  - unfold cxx_abi_class_sizeof. rewrite Hrun1, bind_ret, Hrun2, bind_ret, Hrun3, bind_ret, Hrun4, bind_ret.
    rewrite next_offset_small by lia. rewrite bind_ret, Hpod, bind_ret. reflexivity.
  - exact Hr3.
  - exact Hr4.
  - done.
  - done.
  - done.
  - done.
  - done.
  - done.
  - done.
  - simpl. destruct (_ && _); auto.
Qed.

(** ** What the run gives *)
Section result.
Context (l : class_layout) (items its : list item) (mid st : layout_info * class_offsets).
Context (Hrun : class_run l items its mid st).

Notation inv_mid := (re_inv _ _ _ _ _ _ _ (run_mid _ _ _ _ _ Hrun)).
Notation inv_end := (re_inv _ _ _ _ _ _ _ (run_end _ _ _ _ _ Hrun)).

Lemma later_items_virtual v b o : IBase v b o ∈ its → v = true.
Proof.
  pose proof (re_keys _ _ _ _ _ _ _ (run_end _ _ _ _ _ Hrun)) as Hk.
  rewrite omap_app, (re_keys _ _ _ _ _ _ _ (run_mid _ _ _ _ _ Hrun)) in Hk.
  unfold all_keys in Hk. apply app_inv_head in Hk. intros Hin.
  apply key_of_item in Hin. rewrite Hk in Hin. unfold virtual_keys in Hin.
  apply list_elem_of_omap in Hin as (b' & _ & Hcond). case_bool_decide; [done|]. by injection Hcond.
Qed.

Lemma item_of_key v b : (v, b) ∈ all_keys primary k info ↔ ∃ o, IBase v b o ∈ items ++ its.
Proof.
  rewrite <-(re_keys _ _ _ _ _ _ _ (run_end _ _ _ _ _ Hrun)), list_elem_of_omap. split.
  - intros ([v' b' o|] & Hin & [=]); subst. eauto.
  - intros [o Hin]. by exists (IBase v b o).
Qed.

(** The nonvirtual bases laid out, at their offsets. *)
Lemma nonvirtual_item b o :
  IBase false b o ∈ items ++ its ↔ (b, o) ∈ nonvirtual_bases k l.
Proof.
  destruct (run_offsets _ _ _ _ _ Hrun) as (Hbo & _ & _).
  pose proof (li_length _ _ _ _ _ _ _ inv_end) as Hlen.
  assert (∀ b o, IBase false b o ∈ items ++ its →
    offset_direct_base (base_classes_list k) (base_offsets l) b = Ret o) as Hoff
    by (rewrite Hbo; apply inv_end).
  pose proof (la_nodup _ _ _ _ Hla) as Hnd.
  unfold nonvirtual_bases. rewrite list_elem_of_omap. split.
  - intros Hin. assert ((false, b) ∈ all_keys primary k info) as Hkey by (apply item_of_key; eauto).
    apply elem_of_all_keys in Hkey as (bc & Hbc & Hv & <-).
    apply list_elem_of_lookup in Hbc as [i Hi].
    destruct (lookup_lt_is_Some_2 (base_offsets l) i) as [o' Ho'].
    { rewrite Hbo, Hlen. by eapply lookup_lt_Some. }
    assert ((bc, o') ∈ bases_with_offsets k l) as Hzip.
    { apply list_elem_of_lookup. exists i. apply lookup_zip_with_Some. eauto. }
    exists (bc, o'). split; [done|]. rewrite Hv. do 2 f_equal.
    pose proof (offset_direct_base_zip _ _ _ _ Hnd Hzip). apply Hoff in Hin. congruence.
  - intros ([bc o'] & Hzip & Hcond). destruct (base_is_virtual bc) eqn:Hv; [done|].
    injection Hcond as <- <-.
    assert ((false, class_symbol bc) ∈ all_keys primary k info) as Hkey.
    { apply elem_of_all_keys. exists bc. apply elem_of_zip_l in Hzip. done. }
    apply item_of_key in Hkey as [o Hin].
    pose proof (offset_direct_base_zip _ _ _ _ Hnd Hzip). pose proof (Hoff _ _ Hin).
    assert (o = o') as -> by congruence. done.
Qed.

Lemma items_are_bases : omap item_base (items ++ its) ≡ₚ all_bases k l.
Proof.
  destruct (run_offsets _ _ _ _ _ Hrun) as (Hbo & Hvo & _).
  rewrite item_base_split. unfold all_bases. rewrite Hvo, (li_virtual _ _ _ _ _ _ _ inv_end).
  apply Permutation_app; [|done]. apply NoDup_Permutation.
  - assert (NoDup (omap (λ '(v, b), if v : bool then None else Some b)
                     (omap base_key (items ++ its)))) as Hnd.
    { apply NoDup_omap_inj; [|apply inv_end]. intros [[] ?] [[] ?]; naive_solver. }
    apply (NoDup_fmap_1 fst).
    assert ((omap item_nonvirtual (items ++ its)).*1 = omap (λ '(v, b), if v : bool then None else Some b)
      (omap base_key (items ++ its))) as ->; [|done].
    generalize (items ++ its). intros xs. induction xs as [|[[] b o|] xs IH]; simpl; try done. by f_equal.
  - unfold nonvirtual_bases. apply NoDup_omap_inj.
    + intros [b1 o1] [b2 o2] z H1 H2 Hz1 Hz2.
      destruct (base_is_virtual b1), (base_is_virtual b2); try done. simplify_eq.
      pose proof (elem_of_zip_l _ _ _ _ H1) as Hb1. pose proof (elem_of_zip_l _ _ _ _ H2) as Hb2.
      f_equal. eapply NoDup_fmap_elem; [apply (la_nodup _ _ _ _ Hla)|done|done|done].
    + apply (NoDup_fmap_1 fst). unfold bases_with_offsets. rewrite fst_zip.
      * apply (NoDup_fmap_1 class_symbol), Hla.
      * rewrite Hbo, (li_length _ _ _ _ _ _ _ inv_end). done.
  - intros [b o]. rewrite <-nonvirtual_item, list_elem_of_omap. split.
    + intros ([[] b' o'|] & Hin & [=]); by subst.
    + intros Hin. by exists (IBase false b o).
Qed.

(** Every virtual base has one offset. *)
Lemma virtual_bases_once : (virtual_base_classes_list l).*1 ≡ₚ virtuals info.
Proof.
  destruct (run_offsets _ _ _ _ _ Hrun) as (_ & Hvo & _).
  rewrite Hvo, (li_virtual _ _ _ _ _ _ _ inv_end).
  assert ((omap item_virtual (items ++ its)).*1 = omap (λ '(v, b), if v : bool then Some b else None)
      (omap base_key (items ++ its))) as He.
  { generalize (items ++ its). intros xs. induction xs as [|[[] b o|] xs IH]; simpl; try done. by f_equal. }
  change (λ i, match i with IBase true b o => Some (b, o) | _ => None end) with item_virtual.
  rewrite He, (re_keys _ _ _ _ _ _ _ (run_end _ _ _ _ _ Hrun)). apply NoDup_Permutation.
  - apply NoDup_omap_inj; [|apply all_keys_nodup]. intros [[] ?] [[] ?]; naive_solver.
  - destruct (preorder_spec P k info) as (_ & Hnd & _); [apply Hok|apply Hla|apply Hla|done].
  - intros b. rewrite list_elem_of_omap. split.
    + intros ([[] b'] & Hin & [=]); subst. by apply elem_of_all_keys in Hin.
    + intros Hin. exists (true, b). split; [|done]. by apply elem_of_all_keys.
Qed.

Lemma flat_map_items xs :
  flat_map (item_subobjects layout_of P) xs
  = flat_map (λ '(b, o), shift o (nv_subobjects layout_of P b)) (omap item_base xs).
Proof. induction xs as [|[v b o|o s a] xs IH]; simpl; [done| |done]. by rewrite IH. Qed.

(** No two base subobjects of the same class have the same offset. *)
Lemma subobjects_distinct :
  NoDup ((length P, 0) ::
         flat_map (λ '(b, o), shift o (nv_subobjects layout_of P b)) (all_bases k l)).
Proof.
  constructor.
  - rewrite elem_of_flat_map. intros ([b o] & Hin & Hs). rewrite elem_of_shift in Hs.
    assert (b < length P)%nat as Hb.
    { assert ((b, o) ∈ omap item_base (items ++ its)) as Hit by (by rewrite items_are_bases).
      apply list_elem_of_omap in Hit as ([v b' o'|] & Hit & [=]); subst.
      pose proof all_keys_below as Hbelow. rewrite Forall_forall in Hbelow.
      apply (Hbelow (v, b)), item_of_key. eauto. }
    destruct (class_ok _ _ Hok b Hb) as (_ & kb & lb & _ & Hlb & _).
    destruct (nv_subobjects_bounds _ _ Hok b lb (length P) (0 - o) Hb Hlb Hs). lia.
  - rewrite <-items_are_bases, <-flat_map_items. apply inv_end.
Qed.

(** The bytes of the nonempty bases and of the data members. *)
Definition base_part (x : nat * Z) : option (Z * Z) :=
  if class_type_is_empty P x.1 then None else Some (x.2, nvsize_of layout_of x.1).

Definition field_parts : list (Z * Z * Z) := omap placed_field (zip (zip ms sas) (placements l)).

Lemma item_part_split xs :
  omap (item_part layout_of P) xs ≡ₚ omap base_part (omap item_base xs) ++ (omap item_field xs).*1.
Proof.
  induction xs as [|[v b o|o s a] xs IH]; simpl; [done| |].
  - assert (base_part (b, o) = item_part layout_of P (IBase v b o)) as -> by done. simpl.
    destruct (class_type_is_empty P b); [done|]. simpl. by rewrite IH.
  - rewrite IH. apply Permutation_middle.
Qed.

Lemma items_are_fields : omap item_field (items ++ its) = field_parts.
Proof.
  destruct (run_offsets _ _ _ _ _ Hrun) as (_ & _ & Hp). unfold field_parts. rewrite Hp.
  apply inv_end.
Qed.

Lemma parts_disjoint :
  ∃ parts, parts ≡ₚ virtual_pointer k primary ++ omap base_part (all_bases k l) ++ field_parts.*1
    ∧ chain 0 parts (cl_data_size l).
Proof.
  exists (virtual_pointer k primary ++ omap (item_part layout_of P) (items ++ its)).
  split; [|eapply chain_weaken; [apply inv_end|]].
  - apply Permutation_app; [done|]. by rewrite item_part_split, items_are_bases, items_are_fields.
  - rewrite (run_data_size _ _ _ _ _ Hrun). apply inv_end.
Qed.

Lemma bases_aligned b o :
  (b, o) ∈ all_bases k l → class_type_is_empty P b = false → (nvalign_of layout_of b | o).
Proof.
  rewrite <-items_are_bases. intros Hin He.
  apply list_elem_of_omap in Hin as ([v b' o'|] & Hin & [=]); subst.
  pose proof (li_aligned _ _ _ _ _ _ _ inv_end) as Hal. rewrite Forall_forall in Hal.
  by apply (Hal _ Hin).
Qed.

Lemma fields_aligned o s a : (o, s, a) ∈ field_parts → (a | o).
Proof.
  rewrite <-items_are_fields. intros Hin.
  apply list_elem_of_omap in Hin as ([|o' s' a'] & Hin & [=]); subst.
  pose proof (li_aligned _ _ _ _ _ _ _ inv_end) as Hal. rewrite Forall_forall in Hal.
  by apply (Hal _ Hin).
Qed.

Lemma sizes_ok :
  0 < cl_size l < 2 ^ 64 ∧ 0 ≤ cl_data_size l ≤ cl_size l ∧ 0 ≤ non_virtual_size l ≤ cl_size l
  ∧ size mid.1 ≤ non_virtual_size l ∧ 0 < cl_align l ∧ 0 < non_virtual_align l
  ∧ ((cl_align l | cl_size l) ∨ cl_data_size l = 0).
Proof.
  destruct Hrun as [_ Hmid Hend _ Hsizes _ -> [-> ->] Hsize Hsmall Hnv].
  destruct Hmid as [[Hmd Hma] _ _ _], Hend as [[Hed Hea] _ _ _].
  pose proof (roundup_bounds _ Hea (size st.1)) as Hru.
  pose proof (roundup_divide _ Hea (size st.1)) as Hdiv.
  destruct (Z.eqb_spec (roundup (size st.1) (align st.1)) 0); rewrite Hsize in *.
  - split_and!; try lia; try (destruct Hnv as [->| ->]; lia).
  - split_and!; try lia; try (destruct Hnv as [->| ->]; lia). by left.
Qed.

Lemma field_in_mid m p :
  (m, p) ∈ zip ms (placements l) → bitfield_size m = None → 0 ≤ field_offset p ≤ size mid.1.
Proof.
  intros Hin Hbit. apply list_elem_of_lookup in Hin as [i Hi].
  apply lookup_zip_with_Some in Hi as (m' & p' & [= <- <-] & Hm & Hp).
  assert (length sas = length ms) as Hlen.
  { pose proof (la_members _ _ _ _ Hla) as Hms. revert Hms. generalize ms as mem, sas as ss.
    induction mem as [|m1 mem IH]; intros [|sa ss]; simpl; try done. intros [_ H]. by rewrite IH. }
  destruct (lookup_lt_is_Some_2 sas i) as [[s a] Hsa]; [rewrite Hlen; by eapply lookup_lt_Some|].
  assert ((field_offset p, s, a) ∈ field_parts) as Hf.
  { unfold field_parts. apply list_elem_of_omap. exists (m, (s, a), p). split; [|simpl; by rewrite Hbit].
    apply list_elem_of_lookup. exists i. apply lookup_zip_with_Some. eexists (m, (s, a)), p.
    split_and!; [done| |done]. apply lookup_zip_with_Some. eauto. }
  rewrite <-items_are_fields in Hf.
  apply list_elem_of_omap in Hf as ([|o' s' a'] & Hin & [=]); subst.
  apply elem_of_app in Hin as [Hin|Hin].
  - pose proof (li_dsize _ _ _ _ _ _ _ inv_mid). pose proof (li_parts _ _ _ _ _ _ _ inv_mid) as Hc.
    destruct (chain_bounds _ _ _ (field_offset p) s Hc) as (? & ? & ?); [|lia].
    apply elem_of_app. right. apply list_elem_of_omap. eauto.
  - pose proof (run_virtual _ _ _ _ _ Hrun) as Hv. rewrite Forall_forall in Hv.
    by destruct (Hv _ Hin).
Qed.

(** The layout extends the table. *)
Context (lay' : nat → res class_layout).
Context (Hlay' : ∀ c, (c < length P)%nat → lay' c = layout_of c) (Hl' : lay' (length P) = Ret l).

Lemma new_layout_ok : layout_ok lay' (k :: P) (length P) k l.
Proof.
  destruct sizes_ok as (Hs & Hd & Hnv & Hmid & Hal & Hnal & _).
  destruct (run_offsets _ _ _ _ _ Hrun) as (Hbo & Hvo & _).
  split; try done.
  - apply Hla.
  - apply Hla.
  - rewrite Hbo. apply inv_end.
  - intros b o lb Hin Hv Hlb.
    assert (IBase false (class_symbol b) o ∈ items ++ its) as Hitem.
    { apply nonvirtual_item, list_elem_of_omap. exists (b, o). by rewrite Hv. }
    apply elem_of_app in Hitem as [Hitem|Hitem]; [|by apply later_items_virtual in Hitem].
    destruct (li_extent _ _ _ _ _ _ _ inv_mid _ _ _ Hitem) as [Ho He].
    unfold nvsize_of in He. rewrite <-Hlay', Hlb in He; [lia|].
    apply elem_of_zip_l in Hin. by apply bases_below.
  - intros b o Hin. rewrite Hvo, (li_virtual _ _ _ _ _ _ _ inv_end) in Hin.
    apply list_elem_of_omap in Hin as ([[] b' o'|] & Hin & [=]); subst. split.
    + pose proof all_keys_below as Hbelow. rewrite Forall_forall in Hbelow.
      apply (Hbelow (true, b)), item_of_key. eauto.
    + apply (li_extent _ _ _ _ _ _ _ inv_end _ _ _ Hin).
  - intros m p Hin Hbit. pose proof (field_in_mid m p Hin Hbit). lia.
  - pose proof subobjects_distinct as Hnd. unfold all_bases in Hnd. rewrite flat_map_app in Hnd.
    assert (nv_subobjects lay' (k :: P) (length P) = (length P, 0) ::
      flat_map (λ '(b, o), shift o (nv_subobjects layout_of P b)) (nonvirtual_bases k l)) as ->.
    { unfold nv_subobjects at 1. simpl. rewrite decide_True by done. unfold nv_subobjects_body at 1.
      rewrite Hl'. f_equal. fold (nv_subobjects lay' P). unfold nonvirtual_bases.
      induction (bases_with_offsets k l) as [|[b o] xs IH]; simpl; [done|].
      destruct (base_is_virtual b); [done|]. simpl. f_equal; [|done].
      f_equal. apply nv_subobjects_ext. intros. by apply Hlay'. }
    rewrite NoDup_cons in *. destruct Hnd as [Hno Hnd]. split; [set_solver|].
    by apply NoDup_app in Hnd as [? _].
Qed.

Lemma layouts_extended : layouts_ok lay' (k :: P).
Proof.
  destruct Hok as [Hwf Hall]. split; [by split; [apply Hla|]|].
  intros c P' k' Hat. simpl in Hat. case_decide as Hc.
  - injection Hat as <- <-. subst c. exists l. split; [done|]. apply new_layout_ok.
  - destruct (Hall c P' k' Hat) as (l' & Hl1 & Hlo). destruct (class_at_lt _ _ _ _ Hat) as [Hlt HP'].
    exists l'. rewrite Hlay' by done. split; [done|].
    destruct (class_at_wf _ _ _ _ Hwf Hat) as [[Hb _] _]. rewrite Forall_forall in Hb.
    split; try apply Hlo.
    + intros b o lb Hin Hv Hlb. apply (lo_nv_bases _ _ _ _ _ Hlo b o lb Hin Hv).
      rewrite <-Hlay'; [done|]. apply elem_of_zip_l in Hin. specialize (Hb b Hin). lia.
    + assert (nv_subobjects lay' (k :: P) c = nv_subobjects layout_of P c) as ->; [|apply Hlo].
      rewrite <-(nv_subobjects_ext lay' layout_of P c) by (intros; by rewrite Hlay').
      unfold nv_subobjects. simpl. by rewrite decide_False.
Qed.
End result.
End layable.
End class.
