(* ===== verification/ItaniumProps.v ===== *)
(** * Theorems on the layout of C++ classes

    The layout of a class, from the layouts of the classes before it: it ends,
    it separates the base subobjects of one class, the parts of an object do
    not overlap, and without bases it is the layout of a C struct; and the
    cases where the code departs from the ABI it follows. *)

From S2P Require Import Prelude TypeEnviron FortranDescr SystemV CxxClass ItaniumAbi.
From S2P Require Import ItaniumSub ItaniumLayout ItaniumBases ItaniumClass.
#[local] Open Scope Z_scope.

(** ** Agreement with the C layout *)
Section agree.
Context (env : type_environment) (fdesc : fortran_array_descriptor).
Context (layout_of : nat → res class_layout) (P : class_table) (Hok : layouts_ok layout_of P).

(** The two states agree, and the offsets of the members laid out so far are
    below [dsize]. *)
Definition agree (li : layout_info) (st : layout_state) : Prop :=
  st = LayoutState (dsize li) (align li) (bit_within_bitfield li) (previous_was_bitfield li)
  ∧ size li = dsize li ∧ previous_base li = None ∧ 0 ≤ dsize li ∧ last_offset (offsets li) < dsize li
  ∧ 0 < align li.

Lemma last_offset_entity info e o :
  last_offset (cxx_abi_register_entity_offset info e o) = Z.max o (last_offset info).
Proof.
  induction info as [|[o1 subs] info IH]; simpl; [done|].
  destruct (Z.eqb_spec o1 o) as [->|Hne]; simpl; [lia|].
  destruct (o <? o1) eqn:Hlt; simpl; [done|]. unfold last_offset in *. rewrite IH. lia.
Qed.

Lemma unbounded_no_layout t e sa :
  advance_over_typedefs t = TArray e None → cxx_type_layout layout_of t ≠ Ret sa.
Proof.
  induction t as [| |e' _ n| | |t IH al] in sa |- *; simpl; try done.
  - intros [= -> ->]. unfold cxx_abi_array_sizeof.
    by destruct (cxx_type_layout layout_of e) as [[? ?]|].
  - intros Hadv Hn. apply bind_ret_inv in Hn as (sa' & Hl & _). by eapply IH.
Qed.

(** What the C layout asks of a member is what the C++ layout asks. *)
Lemma field_size_align_agrees m last sa :
  (match bitfield_size m with
   | None => member_size_align layout_of m last
   | Some _ => cxx_type_layout layout_of (type_information m)
   end) = Ret sa →
  field_size_align env fdesc (field_info_of_member layout_of m) last = Ret sa.
Proof.
  unfold field_size_align, field_info_of_member, member_size_align. simpl.
  destruct (advance_over_typedefs (type_information m)) as [| |e [n|]| | |] eqn:Hadv;
    try (by destruct (bitfield_size m)).
  pose proof (unbounded_no_layout _ _ sa Hadv).
  by destruct (bitfield_size m), last.
Qed.

Lemma bitfield_agrees m bits li st last s a :
  agree li st → bitfield_size m = Some bits →
  member_ok layout_of P m last (s, a) → dsize li + a + s < 2 ^ 64 →
  ∃ li' p, cxx_abi_lay_bitfield env layout_of m bits li = Ret (li', p)
    ∧ system_v_field_layout env fdesc (field_info_of_member layout_of m) st last
      = Ret (LayoutState (dsize li') (align li') (bit_within_bitfield li') (previous_was_bitfield li'), p)
    ∧ size li' = dsize li'.
Proof.
  intros (-> & Hsize & Hpb & Hd & _ & Hal) Hbit [Hm Ha] Hroom. simpl in Ha. rewrite Hbit in Hm.
  destruct Hm as (Hl & Hbits & Hs). simpl in Hbits, Hs.
  assert (field_size_align env fdesc (field_info_of_member layout_of m) last = Ret (s, a)) as Hfsa
    by (apply field_size_align_agrees; by rewrite Hbit).
  assert (pending layout_of li = 0) as Hp0 by (unfold pending; by rewrite Hpb).
  destruct (lay_bitfield_spec layout_of P Hok env m bits s a li) as (d & bit & a' & p & Hcxx & Hd' & _);
    [by rewrite Hpb|done|done|done|done|done|lia|].
  exists (LayoutInfo d (Z.max (size li) d) a' (offsets li) true bit None), p. split; [done|].
  split; [|simpl; lia]. revert Hcxx. simpl.
  unfold cxx_abi_lay_bitfield, system_v_field_layout. rewrite Hfsa, Hl, !bind_ret. simpl.
  rewrite Hbit, (wrapu_small 32 bits), (wrapu_small 64 (s * 8)) by lia.
  rewrite (proj2 (Z.leb_le bits (s * 8))) by lia.
  unfold place_bitfield, place_bits. rewrite Hpb, bind_ret. simpl.
  rewrite (wrapu_small 64 (s * 8)), (proj2 (Z.eqb_neq a 0)), (proj2 (Z.eqb_neq bits 0)),
    (proj2 (Z.ltb_ge (s * 8) bits)), andb_false_r by lia.
  set (off := if previous_was_bitfield li && (0 <? dsize li) then dsize li - 1 else dsize li).
  set (ib := if previous_was_bitfield li then bit_within_bitfield li else u64 ((dsize li mod a) * 8)).
  assert ((if previous_was_bitfield li then
      Ret (if 0 <? dsize li then dsize li - 1 else dsize li, bit_within_bitfield li)
    else Ret (dsize li, u64 ((dsize li mod a) * 8))) = Ret (off, ib)) as ->.
  { unfold off, ib. destruct (previous_was_bitfield li); [|done]. simpl. by destruct (0 <? dsize li). }
  rewrite bind_ret. set (no_room := u64 (s * 8 - ib) <? bits).
  assert ((if no_room then
      offset ← next_offset_with_align off a; Ret (offset, 0, bits) else Ret (off, ib, bits))
    = (offset ← (if no_room then next_offset_with_align off a else Ret off);
       Ret (offset, if no_room then 0 else ib, bits))) as -> by (by destruct no_room).
  destruct (if no_room then next_offset_with_align off a else Ret off) as [off'|e]; [|done].
  rewrite !bind_ret. destruct (compute_bitfield_offset off' a) as [bo|e]; [|done].
  rewrite !bind_ret. destruct (first_last env s (if no_room then 0 else ib) bits) as [fst lst].
  rewrite !bind_ret. pose proof (round_to_upper_byte_eq bits) as Hr. rewrite Hr by lia.
  rewrite !bind_ret, Z.add_0_l. pose proof (bytes_bounds bits s Hbits).
  rewrite (wrapu_small 64 (roundup bits 8 / 8)) by lia.
  intros [= <- _ <- <- <-]. do 4 f_equal.
  destruct (is_unnamed_bitfield m); simpl; [done|].
  destruct (Z.ltb_spec (align li) a); lia.
Qed.

(** A data member of positive size. *)
Definition member_positive (m : data_member) (sa : Z * Z) : Prop :=
  bitfield_size m = None → 0 < sa.1.

Lemma member_agrees m li co st last sa :
  agree li st → member_ok layout_of P m last sa → member_positive m sa →
  dsize li + member_cost layout_of P m sa < 2 ^ 64 →
  ∃ li' st' p, lay_data_member_out env layout_of P m last (li, co)
      = Ret (li', ClassOffsets (co_bases co) (co_virtual co) (co_placements co ++ [p]))
    ∧ system_v_field_layout env fdesc (field_info_of_member layout_of m) st last = Ret (st', p)
    ∧ agree li' st' ∧ 0 < dsize li' ≤ dsize li + member_cost layout_of P m sa
    ∧ align li' ≤ align li + member_cost layout_of P m sa.
Proof.
  intros Hag Hm Hpos Hroom. destruct sa as [s a]. unfold lay_data_member_out.
  destruct (bitfield_size m) as [bits|] eqn:Hbit.
  - unfold member_cost in *. rewrite Hbit in *. simpl in *. rewrite Z.add_0_r in *.
    destruct (bitfield_agrees m bits li st last s a Hag Hbit Hm) as (li' & p & Hcxx & Hsv & Hsize); [lia|].
    rewrite Hcxx, bind_ret. eexists li', _, p. split; [done|]. split; [exact Hsv|].
    destruct Hag as (-> & Hsz & Hpb & Hd & Hlast & Hal). destruct Hm as [Hm Ha]. rewrite Hbit in Hm.
    destruct Hm as (Hl & Hbits & Hs). simpl in *.
    assert (pending layout_of li = 0) as Hp0 by (unfold pending; by rewrite Hpb).
    destruct (lay_bitfield_spec layout_of P Hok env m bits s a li)
      as (d & bit & a' & p' & Hcxx' & Hd' & Hd0 & Ha'); [by rewrite Hpb|done|done|done|done|done|lia|].
    rewrite Hcxx in Hcxx'. injection Hcxx' as -> ->. simpl in *.
    split; [|split; [lia|destruct Ha'; lia]]. split_and!; try done; simpl; lia.
  - destruct Hag as (-> & Hsz & Hpb & Hd & Hlast & Hal). pose proof Hm as [Hm' Ha].
    rewrite Hbit in Hm'. destruct Hm' as (Hsa & Hs & Hbelow). specialize (Hpos Hbit).
    unfold member_cost in *. rewrite Hbit in Hroom |- *. simpl in *.
    pose proof (entry_reach_nonneg _ _ Hok _ Hbelow) as Hr0.
    pose proof (roundup_bounds a Ha (dsize li)) as Hru.
    rewrite Hsa, bind_ret, next_offset_small, bind_ret by lia.
    destruct (skip_conflicts_spec layout_of P Hok (offsets li) (Member m) a (roundup (dsize li) a))
      as (off & -> & _ & _ & _ & Hoff); [done|lia|lia|lia|]. rewrite Hoff by lia.
    rewrite !bind_ret. unfold cxx_abi_register_subobject_offset. rewrite wrapu_small by lia.
    eexists _, _, _. split; [done|].
    unfold system_v_field_layout. rewrite (field_size_align_agrees m last (s, a)) by (by rewrite Hbit).
    rewrite bind_ret. simpl. rewrite Hbit, next_offset_small by lia. rewrite bind_ret, wrapu_small by lia.
    split; [done|]. split; [|simpl; split; lia]. unfold agree. cbn [offsets]. rewrite last_offset_entity. simpl.
    split_and!; try done; try lia. f_equal. destruct (Z.ltb_spec (align li) a); lia.
Qed.

#[local] Arguments lay_data_member_out : simpl never.
#[local] Arguments system_v_field_layout : simpl never.

Lemma members_agree ms sas li co st :
  agree li st → members_ok layout_of P ms sas → Forall2 member_positive ms sas →
  dsize li + zsum (map (λ '(m, sa), member_cost layout_of P m sa) (zip ms sas)) < 2 ^ 64 →
  ∃ li' st' ps, lay_data_members_out env layout_of P ms (li, co)
      = Ret (li', ClassOffsets (co_bases co) (co_virtual co) (co_placements co ++ ps))
    ∧ struct_fields env fdesc (map (field_info_of_member layout_of) ms) st = Ret (st', ps)
    ∧ agree li' st' ∧ (ms = [] ∨ 0 < dsize li')
    ∧ dsize li' ≤ dsize li + zsum (map (λ '(m, sa), member_cost layout_of P m sa) (zip ms sas))
    ∧ align li' ≤ align li + zsum (map (λ '(m, sa), member_cost layout_of P m sa) (zip ms sas)).
Proof.
  intros Hag Hms Hpos. revert sas li co st Hag Hms Hpos.
  induction ms as [|m ms IH]; intros [|sa sas] li co st Hag Hms Hpos Hroom; simpl in *; try done.
  - exists li, st, []. rewrite app_nil_r. split; [by destruct co|]. split; [done|]. split; [done|].
    split; [by left|]. split; lia.
  - destruct Hms as [Hm Hms]. inversion Hpos as [|? ? ? ? Hp Hps]; subst.
    pose proof (member_costs_nonneg _ _ Hok _ _ Hms) as Hnn.
    destruct (member_agrees m li co st _ sa Hag Hm Hp) as (li1 & st1 & p & Hcxx & Hsv & Hag1 & Hd1 & Ha1); [lia|].
    destruct (IH sas li1 (ClassOffsets (co_bases co) (co_virtual co) (co_placements co ++ [p])) st1)
      as (li2 & st2 & ps & Hcxx2 & Hsv2 & Hag2 & Hd2 & Hb2 & Ha2); [done|done|done|lia|].
    exists li2, st2, (p :: ps). rewrite Hcxx, bind_ret, Hcxx2. simpl. split; [by rewrite <-app_assoc|].
    assert ((match map (field_info_of_member layout_of) ms with [] => true | _ => false end)
      = (match ms with [] => true | _ => false end)) as -> by (by destruct ms).
    rewrite Hsv, bind_ret, Hsv2, bind_ret. split; [done|]. split; [done|]. split; [|split; lia].
    right. destruct Hd2 as [->|]; [|lia]. simpl in Hcxx2. injection Hcxx2 as <- _. lia.
Qed.
End agree.

(** ** Programs *)
Lemma layout_at_older l L c : (c < length L)%nat → layout_at (l :: L) c = layout_at L c.
Proof.
  intros Hc. unfold layout_at. rewrite !(proj2 (Nat.ltb_lt _ _)) by (simpl; lia).
  change (length (l :: L)) with (S (length L)).
  by replace (S (length L) - S c)%nat with (S (length L - S c))%nat by lia.
Qed.

Lemma layout_at_last l L : layout_at (l :: L) (length L) = Ret l.
Proof.
  unfold layout_at. rewrite (proj2 (Nat.ltb_lt _ _)) by (simpl; lia).
  change (length (l :: L)) with (S (length L)). by rewrite Nat.sub_diag.
Qed.

Section program.
Context (env : type_environment) (fdesc : fortran_array_descriptor) (cxx11 : bool).

(** Every class of the table is layable over the layouts of those before it. *)
Inductive program_layable : class_table → list class_layout → Prop :=
| program_nil : program_layable [] []
| program_cons P L k l primary info sas :
    program_layable P L → layable env (layout_at L) P k primary info sas →
    layout_class env fdesc cxx11 P L k = Ret l → program_layable (k :: P) (l :: L).

Lemma layout_class_struct P L k primary info sas :
  layable env (layout_at L) P k primary info sas →
  layout_class env fdesc cxx11 P L k = cxx_abi_class_sizeof env cxx11 (layout_at L) P k.
Proof. intros Hla. unfold layout_class. by rewrite (la_union _ _ _ _ _ _ _ Hla). Qed.

Lemma program_layouts_ok P L :
  program_layable P L → length L = length P ∧ layouts_ok (layout_at L) P.
Proof.
  induction 1 as [|P L k l primary info sas _ [Hlen Hok] Hla Hl].
  - split; [done|]. split; [done|]. by intros c P' k.
  - split; [simpl; lia|]. rewrite (layout_class_struct _ _ _ _ _ _ Hla) in Hl.
    destruct (class_runs env cxx11 _ _ Hok k primary info sas Hla) as (l' & items & its & mid & st & Hrun).
    pose proof (run_result _ _ _ _ _ _ _ _ _ _ _ _ _ Hrun) as Hl'. rewrite Hl in Hl'. injection Hl' as <-.
    eapply layouts_extended; [done|exact Hla|exact Hrun| |].
    + intros c Hc. apply layout_at_older. lia.
    + rewrite <-Hlen. apply layout_at_last.
Qed.

Lemma program_layout P L : program_layable P L → layout_program env fdesc cxx11 P = Ret L.
Proof.
  induction 1 as [|P L k l primary info sas _ IH _ Hl]; simpl; [done|].
  by rewrite IH, bind_ret, Hl.
Qed.

(** The run of the layout of the next class. *)
Lemma program_class_run P L k primary info sas l :
  program_layable P L → layable env (layout_at L) P k primary info sas →
  layout_class env fdesc cxx11 P L k = Ret l →
  layouts_ok (layout_at L) P ∧
  ∃ items its mid st, class_run env cxx11 (layout_at L) P k primary info sas l items its mid st.
Proof.
  intros Hp Hla Hl. destruct (program_layouts_ok P L Hp) as [_ Hok]. split; [done|].
  destruct (class_runs env cxx11 _ _ Hok k primary info sas Hla) as (l' & items & its & mid & st & Hrun).
  pose proof (run_result _ _ _ _ _ _ _ _ _ _ _ _ _ Hrun) as Hl'.
  rewrite (layout_class_struct _ _ _ _ _ _ Hla), Hl' in Hl. injection Hl as <-. eauto 6.
Qed.
End program.

(** C18: the layout of a layable class ends: over a program whose classes are
    layable and have been laid out, [cxx_abi_class_sizeof] returns a layout for
    it, so that the program with the class is laid out again.  The loops that
    look for an offset without conflict stop after the last registered offset.
    A class is [layable] when it is no union, its bases are not dependent and not
    repeated, none of them is at once a direct nonvirtual base and a virtual
    base, no base has a virtual base for its primary base, its members have
    sizes, and the sizes stay below 2^64.  (Where a base has a virtual
    primary base the code can read an array that was not written:
    [indirect_primary_read_undefined].) *)
Theorem class_layout_total env fdesc cxx11 P L k primary info sas :
  program_layable env fdesc cxx11 P L → layable env (layout_at L) P k primary info sas →
  ∃ l, layout_class env fdesc cxx11 P L k = Ret l
    ∧ layout_program env fdesc cxx11 (k :: P) = Ret (l :: L)
    ∧ program_layable env fdesc cxx11 (k :: P) (l :: L).
Proof.
  intros Hp Hla. destruct (program_layouts_ok _ _ _ P L Hp) as [_ Hok].
  destruct (class_runs env cxx11 _ _ Hok k primary info sas Hla) as (l & items & its & mid & st & Hrun).
  pose proof (run_result _ _ _ _ _ _ _ _ _ _ _ _ _ Hrun) as Hl.
  rewrite <-(layout_class_struct env fdesc cxx11 _ _ _ _ _ _ Hla) in Hl.
  exists l. split; [done|]. split; [|by econstructor].
  simpl. by rewrite (program_layout _ _ _ _ _ Hp), bind_ret, Hl.
Qed.

(** C16: in the layout of a layable class over layable ones (no base dependent,
    repeated, both direct nonvirtual and virtual, or with a virtual primary base;
    sizes below 2^64) two base subobjects of the same class never have the same
    address: the object itself, its nonvirtual bases and its virtual bases with their own
    nonvirtual bases, each with its offset in the object, are all different,
    and every virtual base has exactly one offset.  (A virtual base that is also
    a direct nonvirtual one gets none: [virtual_base_not_laid_out].) *)
Theorem base_subobjects_distinct env fdesc cxx11 P L k primary info sas l :
  program_layable env fdesc cxx11 P L → layable env (layout_at L) P k primary info sas →
  layout_class env fdesc cxx11 P L k = Ret l →
  NoDup ((length P, 0) ::
         flat_map (λ '(b, o), shift o (nv_subobjects (layout_at L) P b)) (all_bases k l))
  ∧ (virtual_base_classes_list l).*1 ≡ₚ virtuals info.
Proof.
  intros Hp Hla Hl. destruct (program_class_run _ _ _ _ _ _ _ _ _ _ Hp Hla Hl)
    as (Hok & items & its & mid & st & Hrun).
  split; [by eapply subobjects_distinct|by eapply virtual_bases_once].
Qed.


(** C34: a class without bases and virtual functions, with members of positive
    size and bit-fields, has the size, the alignment and the placement of
    members of the C struct with the same members (with the sizes [g++] gives
    to an empty one): the C++ layout extends [system_v_struct_sizeof]. *)
Theorem plain_class_agrees_with_system_v env fdesc cxx11 P L k sas :
  program_layable env fdesc cxx11 P L → layable env (layout_at L) P k None [] sas →
  base_classes_list k = [] → dynamic_body P (class_type_is_dynamic P) k = false →
  Forall2 member_positive (class_type_get_nonstatic_data_members k) sas →
  ∃ l, layout_class env fdesc cxx11 P L k = Ret l
    ∧ system_v_struct_layout env fdesc true
        (map (field_info_of_member (layout_at L)) (class_type_get_nonstatic_data_members k))
      = Ret (cl_size l, cl_align l, placements l)
    ∧ base_offsets l = [] ∧ virtual_base_classes_list l = [].
Proof.
  intros Hp Hla Hbases Hdyn Hpos. destruct (program_layouts_ok _ _ _ P L Hp) as [_ Hok].
  destruct (class_layout_total env fdesc cxx11 P L k None [] sas Hp Hla) as (l & Hl & _).
  exists l. split; [done|]. rewrite (layout_class_struct _ _ _ _ _ _ _ _ _ Hla) in Hl. revert Hl.
  pose proof (la_room _ _ _ _ _ _ _ Hla) as Hroom. pose proof (la_pointer _ _ _ _ _ _ _ Hla) as Hptr.
  assert (all_keys None k [] = []) as Hk by (unfold all_keys, first_keys; by rewrite Hbases).
  rewrite Hk in Hroom. simpl in Hroom.
  unfold cxx_abi_class_sizeof, lay_primary_out, lay_nonvirtual_bases_out, lay_virtual_bases_out.
  rewrite Hdyn, Hbases, (la_preorder _ _ _ _ _ _ _ Hla). cbn [negb map]. rewrite !bind_ret.
  cbn [for_each]. rewrite bind_ret.
  set (li0 := LayoutInfo 0 0 1 [] false 0 None).
  destruct (members_agree env fdesc (layout_at L) P Hok (class_type_get_nonstatic_data_members k) sas
    li0 (ClassOffsets [] [] []) (LayoutState 0 1 0 false)) as
    (li & st & ps & -> & Hsv & (-> & Hsize & _ & Hd & _ & Hal) & Hempty & Hb & Ha).
  { by unfold agree. }
  { apply Hla. }
  { done. }
  { simpl. lia. }
  rewrite bind_ret. cbn [fst snd co_bases co_virtual co_placements app].
  rewrite bind_ret, (la_primaries _ _ _ _ _ _ _ Hla), bind_ret. cbn [imap for_each].
  rewrite bind_ret. unfold system_v_struct_layout. rewrite Hsv, !bind_ret, Hsize. simpl in Hb.
  cbn [ls_offset ls_align].
  destruct (next_offset_with_align (dsize li) (align li)) as [r|] eqn:Hr; [|done].
  rewrite !bind_ret.
  destruct (class_is_pod_layout cxx11 (layout_at L) P k) as [pod|]; [|done]. rewrite bind_ret.
  intros [= <-]. simpl. destruct (Z.eqb_spec r 0) as [->|Hr0]; [|done].
  destruct Hempty as [Hms|Hpos0].
  - rewrite Hms in Hsv. simpl in Hsv. injection Hsv as _ <- _ _ <-. done.
  - exfalso. rewrite next_offset_eq in Hr by lia. injection Hr as Hr.
    pose proof (roundup_bounds _ Hal (dsize li)). pose proof (member_costs_nonneg _ _ Hok _ _ (la_members _ _ _ _ _ _ _ Hla)).
    simpl in Ha. destruct (Z.ltb_spec (roundup (dsize li) (align li)) (2 ^ 64)); lia.
Qed.

(** ** Examples *)
Definition int_type : cxx_type := TScalar 0 4 4.
Definition char_type : cxx_type := TScalar 1 1 1.
Definition data (t : cxx_type) : class_member :=
  SK_VARIABLE false (DataMember t None false AS_PUBLIC false).
Definition bits (t : cxx_type) (n : Z) : class_member :=
  SK_VARIABLE false (DataMember t (Some n) false AS_PUBLIC false).
Definition virtual_function (n : nat) : class_member :=
  SK_FUNCTION (FunctionSpecs n true false true false false false false false).
Definition nonvirtual (c : nat) : base_class := BaseClass c false false.
Definition virtual (c : nat) : base_class := BaseClass c true false.
Definition class (bases : list base_class) (ms : list class_member) : class_type :=
  ClassType false bases ms None None.

(** [struct E {}; struct V { virtual void f(); char c; };
    struct A : E { int x; int b : 3; }; struct B : E, virtual V { char y; };
    struct D : A, B { A a[2]; };] with the last class first *)
Definition demo_base : class_table :=
  [ class [nonvirtual 0; virtual 1] [data char_type];
    class [nonvirtual 0] [data int_type; bits int_type 3];
    class [] [virtual_function 1; data char_type];
    class [] [] ].

Definition demo_class : class_type :=
  class [nonvirtual 2; nonvirtual 3] [data (TArray (TClass 2) (Some 2))].

Definition demo_env : type_environment := environs (final_globals false) linux_amd64.
Definition demo_desc : fortran_array_descriptor := gfortran_7_or_less_array_descriptor.

Definition demo_layouts : list class_layout :=
  Eval vm_compute in
    match layout_program demo_env demo_desc true demo_base with Ret L => L | Err _ => [] end.

Definition demo_layout : class_layout :=
  Eval vm_compute in
    match layout_class demo_env demo_desc true demo_base demo_layouts demo_class with
    | Ret l => l
    | Err _ => ClassLayout 0 0 0 0 0 [] [] []
    end.

Ltac compute_bool := apply (bool_decide_unpack _); vm_compute; exact I.

(** The conditions of [layable] on a concrete class. *)
Ltac prove_layable :=
  split;
  [ reflexivity
  | repeat constructor
  | compute_bool
  | split; repeat (constructor; simpl; try lia)
  | vm_compute; reflexivity
  | vm_compute; reflexivity
  | vm_compute; reflexivity
  | compute_bool
  | simpl; repeat (split; try (vm_compute; (reflexivity || discriminate || lia)); try done)
  | vm_compute; split; reflexivity
  | vm_compute; reflexivity ].

Lemma demo_program_layable : program_layable demo_env demo_desc true demo_base demo_layouts.
Proof.
  apply (program_cons _ _ _ _ _ _ _ None [(0%nat, false); (1%nat, true)] [(1, 1)]);
    [|prove_layable|vm_compute; reflexivity].
  apply (program_cons _ _ _ _ _ _ _ None [(0%nat, false)] [(4, 4); (4, 4)]);
    [|prove_layable|vm_compute; reflexivity].
  apply (program_cons _ _ _ _ _ _ _ None [] [(1, 1)]); [|prove_layable|vm_compute; reflexivity].
  apply (program_cons _ _ _ _ _ _ _ None [] []); [|prove_layable|vm_compute; reflexivity].
  constructor.
Qed.

Lemma demo_class_layable :
  layable demo_env (layout_at demo_layouts) demo_base demo_class (Some (3%nat, false))
    [(2%nat, false); (0%nat, false); (3%nat, false); (0%nat, false); (1%nat, true)] [(16, 4)].
Proof. prove_layable. Qed.

Lemma class_layout_total_witness :
  ∃ l, layout_class demo_env demo_desc true demo_base demo_layouts demo_class = Ret l
    ∧ layout_program demo_env demo_desc true (demo_class :: demo_base) = Ret (l :: demo_layouts).
Proof.
  destruct (class_layout_total demo_env demo_desc true demo_base demo_layouts demo_class
    (Some (3%nat, false)) [(2%nat, false); (0%nat, false); (3%nat, false); (0%nat, false); (1%nat, true)]
    [(16, 4)] demo_program_layable demo_class_layable) as (l & Hl & Hp & _).
  exists l. split; [exact Hl|exact Hp].
Defined.

Lemma base_subobjects_distinct_witness :
  flat_map (λ '(b, o), shift o (nv_subobjects (layout_at demo_layouts) demo_base b))
    (all_bases demo_class demo_layout)
  = [(2%nat, 12); (0%nat, 12); (3%nat, 0); (0%nat, 0); (1%nat, 40)]
  ∧ NoDup ((4%nat, 0) ::
      flat_map (λ '(b, o), shift o (nv_subobjects (layout_at demo_layouts) demo_base b))
        (all_bases demo_class demo_layout)).
Proof.
  split; [vm_compute; reflexivity|].
  refine (proj1 (base_subobjects_distinct demo_env demo_desc true demo_base demo_layouts demo_class
    (Some (3%nat, false)) [(2%nat, false); (0%nat, false); (3%nat, false); (0%nat, false); (1%nat, true)]
    [(16, 4)] demo_layout demo_program_layable demo_class_layable _)).
  vm_compute. reflexivity.
Defined.


Definition plain_class : class_type := class [] [data char_type; bits int_type 3; data int_type].

Lemma plain_class_agrees_with_system_v_witness :
  ∃ l, layout_class demo_env demo_desc true [] [] plain_class = Ret l
    ∧ system_v_struct_layout demo_env demo_desc true
        (map (field_info_of_member (layout_at [])) (class_type_get_nonstatic_data_members plain_class))
      = Ret (cl_size l, cl_align l, placements l).
Proof.
  destruct (plain_class_agrees_with_system_v demo_env demo_desc true [] [] plain_class
    [(1, 1); (4, 4); (4, 4)]) as (l & Hl & Hsv & _).
  - constructor.
  - prove_layable.
  - reflexivity.
  - vm_compute. reflexivity.
  - repeat constructor.
  - exists l. split; [exact Hl|exact Hsv].
Defined.

(** ** Where the code departs from the ABI *)

(** [struct A { virtual void f(); }; struct B : virtual A { }; struct C : B { };]
    The layout of [C] compares its virtual base with an entry of the array of
    indirect primary bases that was never written. *)
Lemma indirect_primary_read_undefined :
  layout_program demo_env demo_desc true
    [class [nonvirtual 1] []; class [virtual 0] []; class [] [virtual_function 1]] = Err Undef.
Proof. vm_compute. reflexivity. Qed.

(** [struct E { }; struct A { E e; }; struct B : E { A a; };]  The base [E] of
    [B] and the member [a.e] are two objects of type [E] at offset 0. *)
Lemma member_subobjects_not_separated :
  ∃ lb la le,
    layout_program demo_env demo_desc true
      [class [nonvirtual 0] [data (TClass 1)]; class [] [data (TClass 0)]; class [] []]
    = Ret [lb; la; le]
    ∧ base_offsets lb = [0] ∧ field_offset <$> placements lb = [0] ∧ field_offset <$> placements la = [0]
    ∧ cl_size lb = 1.
Proof. eexists _, _, _. split; [vm_compute; reflexivity|]. by vm_compute. Qed.

(** [struct V { virtual void f(); }; struct A : virtual V { }; struct C : V, A { };]
    The virtual base [V] of [C] is taken for its nonvirtual primary base [V]
    and gets no offset. *)
Lemma virtual_base_not_laid_out :
  ∃ lc la lv,
    layout_program demo_env demo_desc true
      [class [nonvirtual 0; nonvirtual 1] []; class [virtual 0] []; class [] [virtual_function 1]]
    = Ret [lc; la; lv]
    ∧ virtual_base_classes_list lc = [].
Proof. eexists _, _, _. split; [vm_compute; reflexivity|]. done. Qed.

(** [struct R { char& r; };]  A data member of reference type has the size of
    the type it refers to, not that of a pointer. *)
Lemma reference_member_size :
  ∃ l, layout_program demo_env demo_desc true [class [] [data (TReference false char_type)]] = Ret [l]
    ∧ cl_size l = 1.
Proof. eexists. split; [vm_compute; reflexivity|]. done. Qed.
