(* ===== verification/Trie.v ===== *)
(** * Tries with sorted children: [lib/slow_char_trie.c], [frontend/cxx-type-trie.c]

    The two tries of the compiler have the same code over different keys: the
    bytes of a string, and the addresses of the parameter types of a function
    type.  A node is an array of elements sorted by key; the element with key 0
    ends a sequence and holds its value.  The files differ in how the array
    grows, which the class [TriePolicy] abstracts; the theorems of this file
    hold for every policy that keeps the array large enough, and the modules
    [CharTrie] and [TypeTrie] give the two instances. *)

From S2P Require Import Prelude.

Inductive trie :=
| Trie (capacity : Z) (elements : list trie_element)
with trie_element :=
| TrieElement (elem : Z) (value : Z) (next : option trie).

Definition elem (e : trie_element) : Z := match e with TrieElement k _ _ => k end.
Definition value (e : trie_element) : Z := match e with TrieElement _ v _ => v end.
Definition next (e : trie_element) : option trie := match e with TrieElement _ _ n => n end.
Definition capacity (t : trie) : Z := match t with Trie c _ => c end.
Definition elements (t : trie) : list trie_element := match t with Trie _ es => es end.
Definition num_elements (t : trie) : Z := Z.of_nat (length (elements t)).

(** The capacity of a new node, and the one after [num_elements++]. *)
Class TriePolicy := {
  new_capacity : Z;
  grow : Z → Z → Z;
  cap_ok : Z → Z → Prop;
}.

Class TriePolicyOk `{TriePolicy} : Prop := {
  new_cap_ok : cap_ok new_capacity 0;
  grow_ok c n : 0 ≤ n → cap_ok c n → cap_ok (grow c (n + 1)) (n + 1) ∧ n + 1 ≤ grow c (n + 1);
}.

(** ** Binary search *)

(** [lookup_element_rec]; each call halves [upper - lower]. *)
Fixpoint lookup_element_rec (fuel : nat) (es : list trie_element) (entity lower upper : Z) :
    res (option nat) :=
  match fuel with
  | O => Err NoFuel
  | S fuel' =>
      if upper <? lower then Ret None else
      let middle := (lower + upper) / 2 in
      e ← get (es !! Z.to_nat middle);
      if entity <? elem e then lookup_element_rec fuel' es entity lower (middle - 1)
      else if elem e <? entity then lookup_element_rec fuel' es entity (middle + 1) upper
      else Ret (Some (Z.to_nat middle))
  end.

Definition lookup_element (t : trie) (entity : Z) : res (option nat) :=
  lookup_element_rec (S (length (elements t))) (elements t) entity 0 (num_elements t - 1).

(** The body of [while (lower <= upper)] of [create_elements] on [(lower,
    upper)]; meeting the key aborts. *)
Definition position_step (es : list trie_element) (i_entity : Z) (b : Z * Z) :
    res (Z * Z + Z) :=
  let '(lower, upper) := b in
  if upper <? lower then Ret (inr lower) else
  let middle := (lower + upper) / 2 in
  e ← get (es !! Z.to_nat middle);
  if i_entity <? elem e then Ret (inl (lower, middle - 1))
  else if elem e <? i_entity then Ret (inl (middle + 1, upper))
  else Err Aborted.

Definition insert_position (es : list trie_element) (i_entity : Z) : res nat :=
  lower ← loop (S (length es)) (position_step es i_entity) (0, Z.of_nat (length es) - 1);
  Ret (Z.to_nat lower).

(** ** Operations *)

Section operations.
Context `{TriePolicy}.

Definition allocate_trie : trie := Trie new_capacity [].

Fixpoint lookup_list (t : trie) (seq : list Z) : res Z :=
  match seq with
  | [] =>
      match elements t with
      | e :: _ => Ret (if elem e =? 0 then value e else 0)
      | [] => Ret 0
      end
  | x :: seq' =>
      i ← lookup_element t x;
      match i with
      | None => Ret 0
      | Some i =>
          e ← get (elements t !! i);
          t' ← get (next e);
          lookup_list t' seq'
      end
  end.

(** One more element fits when its index is below the capacity; the shift to
    the right opens the position [lower]. *)
Fixpoint create_elements (t : trie) (seq : list Z) (v : Z) : res trie :=
  let num := num_elements t + 1 in
  let cap := grow (capacity t) num in
  if cap <? num then Err Undef else
  lower ← insert_position (elements t) (match seq with [] => 0 | x :: _ => x end);
  new ← match seq with
        | [] => Ret (TrieElement 0 v None)
        | x :: seq' =>
            t' ← create_elements allocate_trie seq' v;
            Ret (TrieElement x 0 (Some t'))
        end;
  Ret (Trie cap (take lower (elements t) ++ new :: drop lower (elements t))).

(** The value that was stored, or 0 when the sequence was there already. *)
Fixpoint insert_list_rec (t : trie) (seq : list Z) (v : Z) : res (trie * Z) :=
  match seq with
  | [] =>
      if match elements t with [] => true | e :: _ => negb (elem e =? 0) end
      then t' ← create_elements t [] v; Ret (t', v)
      else Ret (t, 0)
  | x :: seq' =>
      i ← lookup_element t x;
      match i with
      | None => t' ← create_elements t seq v; Ret (t', v)
      | Some i =>
          e ← get (elements t !! i);
          t' ← get (next e);
          '(t'', r) ← insert_list_rec t' seq' v;
          Ret (Trie (capacity t)
                 (<[i := TrieElement (elem e) (value e) (Some t'')]> (elements t)), r)
      end
  end.

Definition insert_list (t : trie) (seq : list Z) (v : Z) : res (trie * Z) :=
  insert_list_rec t seq v.
End operations.

(** * Sorted nodes *)

Definition sorted (es : list trie_element) : Prop := StronglySorted (λ a b, elem a < elem b) es.

Lemma sorted_lookup es i j a b :
  sorted es → (i < j)%nat → es !! i = Some a → es !! j = Some b → elem a < elem b.
Proof.
  intros Hs. revert i j. induction Hs as [|e es Hs IH He]; intros i j Hij; [done|].
  destruct j as [|j]; [lia|]. destruct i as [|i]; simpl.
  - intros [= ->] Hb. rewrite Forall_forall in He. by apply He, list_elem_of_lookup_2 with j.
  - apply IH. lia.
Qed.

Lemma sorted_inj es i j a b :
  sorted es → es !! i = Some a → es !! j = Some b → elem a = elem b → i = j.
Proof.
  intros Hs Ha Hb Heq. destruct (Nat.lt_trichotomy i j) as [Hij|[->|Hij]]; [|done|].
  - pose proof (sorted_lookup _ _ _ _ _ Hs Hij Ha Hb). lia.
  - pose proof (sorted_lookup _ _ _ _ _ Hs Hij Hb Ha). lia.
Qed.

Lemma sorted_insert es i e a :
  sorted es → es !! i = Some a → elem e = elem a → sorted (<[i := e]> es).
Proof.
  intros Hs. revert i. induction Hs as [|b es Hs IH Hb]; intros i Ha Heq; [done|].
  destruct i as [|i]; simpl in *.
  - injection Ha as ->. constructor; [done|].
    eapply Forall_impl; [exact Hb|]. simpl. lia.
  - constructor; [by apply IH|]. rewrite Forall_forall in Hb |- *.
    intros c Hc. apply list_elem_of_lookup in Hc as [j Hj].
    destruct (decide (i = j)) as [->|Hne].
    + rewrite list_lookup_insert_eq in Hj by (by eapply lookup_lt_Some).
      injection Hj as <-. rewrite Heq. apply Hb. by eapply list_elem_of_lookup_2.
    + rewrite list_lookup_insert_ne in Hj by done. apply Hb. by eapply list_elem_of_lookup_2.
Qed.

Definition has_key (es : list trie_element) (x : Z) : Prop := ∃ i e, es !! i = Some e ∧ elem e = x.

Lemma sorted_split es n : sorted es → sorted (take n es) ∧ sorted (drop n es).
Proof.
  intros Hs. revert n. induction Hs as [|e es Hs IH He]; intros n.
  - rewrite take_nil, drop_nil. by split; constructor.
  - destruct n as [|n]; simpl; [by split; constructor|].
    destruct (IH n) as [H1 H2]. split; [|done]. constructor; [done|]. by apply Forall_take.
Qed.

Lemma middle_bounds lower upper : lower ≤ upper → lower ≤ (lower + upper) / 2 ≤ upper.
Proof. intros. split; [apply Z.div_le_lower_bound|apply Z.div_le_upper_bound]; lia. Qed.

Lemma lookup_element_rec_spec fuel es x lower upper :
  sorted es → 0 ≤ lower ≤ upper + 1 → upper < Z.of_nat (length es) →
  (∀ i e, es !! i = Some e → elem e = x → lower ≤ Z.of_nat i ≤ upper) →
  upper - lower + 1 < Z.of_nat fuel →
  ∃ r, lookup_element_rec fuel es x lower upper = Ret r
    ∧ match r with
      | Some i => ∃ e, es !! i = Some e ∧ elem e = x
      | None => ¬ has_key es x
      end.
Proof.
  intros Hs. revert lower upper.
  induction fuel as [|fuel IH]; intros lower upper Hl Hu Hin Hf; [lia|].
  simpl. destruct (Z.ltb_spec upper lower) as [Hlu|Hlu].
  { exists None. split; [done|]. intros (i & e & He & Hx). specialize (Hin i e He Hx). lia. }
  pose proof (middle_bounds lower upper Hlu) as Hm.
  set (mid := (lower + upper) / 2) in *.
  destruct (lookup_lt_is_Some_2 es (Z.to_nat mid)) as [e He]; [lia|].
  rewrite He. simpl. destruct (Z.ltb_spec x (elem e)) as [Hx|Hx].
  - apply IH; [lia|lia| |lia]. intros i e' He' Hx'. specialize (Hin i e' He' Hx').
    destruct (decide (Z.of_nat i ≤ mid - 1)); [lia|]. exfalso.
    destruct (decide (i = Z.to_nat mid)) as [->|Hne]; [rewrite He in He'; injection He' as <-; lia|].
    pose proof (sorted_lookup es (Z.to_nat mid) i e e' Hs ltac:(lia) He He'). lia.
  - destruct (Z.ltb_spec (elem e) x) as [Hx2|Hx2].
    + apply IH; [lia|lia| |lia]. intros i e' He' Hx'. specialize (Hin i e' He' Hx').
      destruct (decide (mid + 1 ≤ Z.of_nat i)); [lia|]. exfalso.
      destruct (decide (i = Z.to_nat mid)) as [->|Hne]; [rewrite He in He'; injection He' as <-; lia|].
      pose proof (sorted_lookup es i (Z.to_nat mid) e' e Hs ltac:(lia) He' He). lia.
    + exists (Some (Z.to_nat mid)). split; [done|]. exists e. split; [done|lia].
Qed.

Lemma lookup_element_spec t x :
  sorted (elements t) →
  ∃ r, lookup_element t x = Ret r
    ∧ match r with
      | Some i => ∃ e, elements t !! i = Some e ∧ elem e = x
      | None => ¬ has_key (elements t) x
      end.
Proof.
  intros Hs. apply lookup_element_rec_spec; unfold num_elements; [done|lia|lia| |lia].
  intros i e He _. apply lookup_lt_Some in He. lia.
Qed.

(** The position splits the node into smaller and larger keys. *)
Lemma insert_position_spec es x :
  sorted es → ¬ has_key es x →
  ∃ l, insert_position es x = Ret l ∧ (l ≤ length es)%nat
    ∧ sorted (take l es) ∧ sorted (drop l es)
    ∧ Forall (λ e, elem e < x) (take l es) ∧ Forall (λ e, x < elem e) (drop l es).
Proof.
  intros Hs Hn. unfold insert_position.
  destruct (loop_spec
    (λ st : Z * Z, 0 ≤ st.1 ≤ st.2 + 1 ∧ st.2 < Z.of_nat (length es)
       ∧ (∀ i e, es !! i = Some e → Z.of_nat i < st.1 → elem e < x)
       ∧ (∀ i e, es !! i = Some e → st.2 < Z.of_nat i → x < elem e))
    (λ st, Z.to_nat (st.2 - st.1 + 1))
    (λ l, 0 ≤ l ≤ Z.of_nat (length es)
       ∧ (∀ i e, es !! i = Some e → Z.of_nat i < l → elem e < x)
       ∧ (∀ i e, es !! i = Some e → l ≤ Z.of_nat i → x < elem e))
    (position_step es x))
    with (s := (0, Z.of_nat (length es) - 1)) (fuel := S (length es))
    as (l & -> & Hl & Hlt & Hgt).
  - intros [lower upper]. unfold position_step. simpl. intros (Hlu & Hu & Hlt & Hgt).
    destruct (Z.ltb_spec upper lower) as [Hc|Hc].
    { split; [lia|]. split; [done|]. intros i e He Hi. apply (Hgt i e He). lia. }
    pose proof (middle_bounds lower upper Hc) as Hm. set (mid := (lower + upper) / 2) in *.
    destruct (lookup_lt_is_Some_2 es (Z.to_nat mid)) as [e He]; [lia|].
    rewrite He. simpl. destruct (Z.ltb_spec x (elem e)) as [Hx|Hx]; simpl.
    + split; [|lia]. split; [lia|]. split; [lia|]. split; [done|].
      intros i e' He' Hi. destruct (decide (i = Z.to_nat mid)) as [->|]; [congruence|].
      pose proof (sorted_lookup es (Z.to_nat mid) i e e' Hs ltac:(lia) He He'). lia.
    + destruct (Z.ltb_spec (elem e) x) as [Hx2|Hx2]; simpl.
      * split; [|lia]. split; [lia|]. split; [lia|]. split; [|done].
        intros i e' He' Hi. destruct (decide (i = Z.to_nat mid)) as [->|]; [congruence|].
        pose proof (sorted_lookup es i (Z.to_nat mid) e' e Hs ltac:(lia) He' He). lia.
      * apply Hn. exists (Z.to_nat mid), e. split; [done|lia].
  - simpl. split; [lia|]. split; [lia|]. split; [intros; lia|].
    intros i e He%lookup_lt_Some Hi. lia.
  - simpl. lia.
  - exists (Z.to_nat l). split; [done|]. split; [lia|].
    destruct (sorted_split es (Z.to_nat l) Hs) as [? ?].
    split; [done|]. split; [done|]. split; apply Forall_lookup; intros i e He.
    + apply lookup_take_Some in He as [He Hi]. apply (Hlt i e He). lia.
    + rewrite lookup_drop in He. apply (Hgt _ e He). lia.
Qed.

Lemma sorted_middle es l x e :
  sorted (take l es) → sorted (drop l es) → elem e = x →
  Forall (λ e, elem e < x) (take l es) → Forall (λ e, x < elem e) (drop l es) →
  sorted (take l es ++ e :: drop l es).
Proof.
  intros H1 H2 He Ha Hb. induction H1 as [|a es1 H1 IH Ha1]; simpl.
  - constructor; [done|]. eapply Forall_impl; [exact Hb|]. simpl. lia.
  - apply Forall_cons in Ha as [Hax Ha]. constructor; [by apply IH|].
    apply Forall_app. split; [done|]. constructor; [lia|].
    eapply Forall_impl; [exact Hb|]. simpl. lia.
Qed.

Fixpoint find_key (es : list trie_element) (x : Z) : option trie_element :=
  match es with
  | [] => None
  | e :: es' => if decide (elem e = x) then Some e else find_key es' x
  end.

Lemma find_key_Some es x e : find_key es x = Some e → e ∈ es ∧ elem e = x.
Proof.
  induction es as [|a es IH]; simpl; [done|]. case_decide as Ha.
  - intros [= ->]. split; [left|done].
  - intros [? ?]%IH. split; [by right|done].
Qed.

Lemma find_key_lookup es i e : sorted es → es !! i = Some e → find_key es (elem e) = Some e.
Proof.
  intros Hs. revert i. induction Hs as [|a es Hs IH Ha]; intros i He; [done|]. simpl.
  destruct i as [|i]; simpl in He.
  - injection He as ->. by rewrite decide_True.
  - rewrite Forall_forall in Ha. specialize (Ha e (list_elem_of_lookup_2 _ _ _ He)).
    rewrite decide_False by lia. by eapply IH.
Qed.

Lemma find_key_None es x : ¬ has_key es x → find_key es x = None.
Proof.
  intros Hn. destruct (find_key es x) as [e|] eqn:He; [|done]. exfalso.
  apply find_key_Some in He as [[i Hi]%list_elem_of_lookup Hx]. apply Hn. by exists i, e.
Qed.

Lemma find_key_not es x : Forall (λ e, elem e ≠ x) es → find_key es x = None.
Proof. induction 1 as [|e es He _ IH]; simpl; [done|]. by rewrite decide_False. Qed.

Lemma find_key_app es1 es2 x :
  find_key (es1 ++ es2) x = match find_key es1 x with Some e => Some e | None => find_key es2 x end.
Proof. induction es1 as [|e es1 IH]; simpl; [done|]. by case_decide. Qed.

Lemma find_key_middle es l e y :
  ¬ has_key es (elem e) →
  find_key (take l es ++ e :: drop l es) y = if decide (y = elem e) then Some e else find_key es y.
Proof.
  intros Hn. rewrite find_key_app. simpl. case_decide as Hy.
  - subst y. rewrite decide_True by done.
    destruct (find_key (take l es) (elem e)) as [a|] eqn:Ha; [|done]. exfalso.
    apply find_key_Some in Ha as [[i Hi]%list_elem_of_lookup Hk].
    apply lookup_take_Some in Hi as [Hi _]. apply Hn. by exists i, a.
  - rewrite decide_False by congruence. by rewrite <-find_key_app, take_drop.
Qed.

Lemma find_key_update es i e a y :
  sorted es → es !! i = Some a → elem e = elem a →
  find_key (<[i := e]> es) y = if decide (y = elem e) then Some e else find_key es y.
Proof.
  intros Hs Ha Heq. rewrite insert_take_drop by (by eapply lookup_lt_Some).
  rewrite find_key_app. simpl.
  assert (Forall (λ b, elem b ≠ elem e) (take i es)) as Hlt.
  { apply Forall_lookup. intros j b [Hb Hj]%lookup_take_Some.
    pose proof (sorted_lookup _ _ _ _ _ Hs Hj Hb Ha). lia. }
  case_decide as Hy.
  - subst y. rewrite (find_key_not _ _ Hlt). by rewrite decide_True.
  - rewrite decide_False by congruence.
    transitivity (find_key (take i es ++ a :: drop (S i) es) y); [|by rewrite take_drop_middle].
    rewrite find_key_app. simpl. by rewrite (decide_False (P := elem a = y)) by congruence.
Qed.

Lemma find_key_zero es :
  sorted es → Forall (λ e, 0 ≤ elem e) es →
  find_key es 0 = match es with e :: _ => if elem e =? 0 then Some e else None | [] => None end.
Proof.
  intros Hs Hn. destruct Hs as [|e es Hs He]; [done|]. simpl.
  destruct (Z.eqb_spec (elem e) 0) as [H0|H0]; [by rewrite decide_True|].
  rewrite decide_False by done. apply find_key_not. apply Forall_cons in Hn as [Hn _].
  eapply Forall_impl; [exact He|]. simpl. lia.
Qed.

(** * The map a trie stands for *)

Definition keys (seq : list Z) : Prop := Forall (λ x, 0 < x) seq.

Section refinement.
Context `{TriePolicyOk}.

Inductive wf : trie → Prop :=
| wf_intro c es :
    cap_ok c (Z.of_nat (length es)) → sorted es →
    Forall (λ e, 0 ≤ elem e) es → Forall (λ e, elem e = 0 → value e ≠ 0) es →
    (∀ e, e ∈ es → elem e ≠ 0 → ∃ t, next e = Some t ∧ wf t) →
    wf (Trie c es).

(** The value of a sequence of keys, read off the elements. *)
Fixpoint binding (t : trie) (seq : list Z) : option Z :=
  match seq with
  | [] => value <$> find_key (elements t) 0
  | x :: seq' =>
      match find_key (elements t) x with
      | Some e => match next e with Some t' => binding t' seq' | None => None end
      | None => None
      end
  end.

Lemma wf_next t e : wf t → e ∈ elements t → elem e ≠ 0 → ∃ t', next e = Some t' ∧ wf t'.
Proof. intros Hw. destruct Hw as [c es _ _ _ _ Hn]. apply Hn. Qed.

Lemma wf_sorted t : wf t → sorted (elements t).
Proof. by destruct 1. Qed.

Lemma wf_nonneg t : wf t → Forall (λ e, 0 ≤ elem e) (elements t).
Proof. by destruct 1. Qed.

Lemma wf_value t seq v : wf t → keys seq → binding t seq = Some v → v ≠ 0.
Proof.
  revert t. induction seq as [|x seq IH]; intros t Hw Hk Hb; simpl in Hb.
  - apply fmap_Some in Hb as (e & He & ->). apply find_key_Some in He as [He Hx].
    destruct Hw as [c es _ _ _ Hv _]. rewrite Forall_forall in Hv. by apply Hv.
  - apply Forall_cons in Hk as [Hx Hk].
    destruct (find_key (elements t) x) as [e|] eqn:He; [|done].
    apply find_key_Some in He as [He Hex]. destruct (wf_next t e Hw He) as (t' & Hn & Hw'); [lia|].
    rewrite Hn in Hb. by apply (IH t').
Qed.

Lemma allocate_wf : wf allocate_trie.
Proof.
  constructor; [apply new_cap_ok|constructor|constructor|constructor|].
  by intros e ?%not_elem_of_nil.
Qed.

Lemma allocate_binding seq : binding allocate_trie seq = None.
Proof. by destruct seq. Qed.

Lemma lookup_list_spec t seq :
  wf t → keys seq → lookup_list t seq = Ret (default 0 (binding t seq)).
Proof.
  revert t. induction seq as [|x seq IH]; intros t Hw Hk; simpl.
  - rewrite find_key_zero by (by apply wf_sorted || by apply wf_nonneg).
    destruct (elements t) as [|e es]; [done|]. by destruct (elem e =? 0).
  - apply Forall_cons in Hk as [Hx Hk].
    destruct (lookup_element_spec t x (wf_sorted t Hw)) as ([i|] & -> & Hr); simpl.
    + destruct Hr as (e & He & Hex). rewrite He. simpl.
      assert (e ∈ elements t) as Hin by (by eapply list_elem_of_lookup_2).
      destruct (wf_next t e Hw Hin) as (t' & Hn & Hw'); [lia|].
      rewrite <-Hex, (find_key_lookup _ i e (wf_sorted t Hw) He), Hn. simpl. by apply IH.
    + by rewrite (find_key_None _ _ Hr).
Qed.

Lemma wf_add t e l :
  wf t → insert_position (elements t) (elem e) = Ret l →
  ¬ has_key (elements t) (elem e) → 0 ≤ elem e → (elem e = 0 → value e ≠ 0) →
  (elem e ≠ 0 → ∃ t', next e = Some t' ∧ wf t') →
  wf (Trie (grow (capacity t) (num_elements t + 1))
        (take l (elements t) ++ e :: drop l (elements t))).
Proof.
  intros Hw Hl Hk He Hv Hn. destruct (insert_position_spec _ _ (wf_sorted t Hw) Hk)
    as (l' & Hl' & Hle & Hs1 & Hs2 & Hlt & Hgt).
  rewrite Hl in Hl'. injection Hl' as <-.
  destruct Hw as [c es Hc Hs Hnn Hv0 Hn0]. simpl in *. constructor.
  - destruct (grow_ok c (Z.of_nat (length es))) as [Hg _]; [lia|done|].
    unfold num_elements. simpl.
    replace (Z.of_nat (length (take l es ++ e :: drop l es))) with (Z.of_nat (length es) + 1);
      [done|]. rewrite length_app. simpl. rewrite length_take, length_drop. lia.
  - by apply (sorted_middle es l (elem e)).
  - apply Forall_app. split; [by apply Forall_take|]. constructor; [done|by apply Forall_drop].
  - apply Forall_app. split; [by apply Forall_take|]. constructor; [done|by apply Forall_drop].
  - intros a Ha Hne. apply elem_of_app in Ha as [Ha|[->|Ha]%elem_of_cons].
    + apply Hn0; [|done]. by eapply subseteq_take.
    + by apply Hn.
    + apply Hn0; [|done]. by eapply subseteq_drop.
Qed.

Lemma create_elements_spec t seq v :
  wf t → keys seq → v ≠ 0 →
  ¬ has_key (elements t) (match seq with [] => 0 | x :: _ => x end) →
  ∃ t', create_elements t seq v = Ret t' ∧ wf t'
    ∧ ∀ seq', keys seq' →
        binding t' seq' = if decide (seq' = seq) then Some v else binding t seq'.
Proof.
  intros Hw Hk Hv. revert t Hw Hk.
  induction seq as [|x seq IH]; intros t Hw Hk Hn; cbn [create_elements];
    (destruct (grow_ok (capacity t) (num_elements t)) as [_ Hcap];
       [unfold num_elements; lia|by destruct Hw|]);
    rewrite (proj2 (Z.ltb_ge _ _)) by lia;
    destruct (insert_position_spec _ _ (wf_sorted t Hw) Hn) as (l & Hl & _);
    rewrite Hl, bind_ret.
  - rewrite bind_ret. eexists. split; [done|]. split.
    { by apply (wf_add t (TrieElement 0 v None) l). }
    intros seq' Hk'. destruct seq' as [|y seq']; simpl.
    + by rewrite (find_key_middle _ _ (TrieElement 0 v None)).
    + apply Forall_cons in Hk' as [Hy _].
      rewrite (find_key_middle _ _ (TrieElement 0 v None)) by done.
      by rewrite decide_False by (simpl; lia).
  - apply Forall_cons in Hk as [Hx Hk].
    destruct (IH allocate_trie allocate_wf Hk) as (t' & -> & Hw' & Hb').
    { intros (i & e & He & _). done. }
    rewrite !bind_ret. eexists. split; [done|]. split.
    { apply (wf_add t (TrieElement x 0 (Some t')) l); simpl; eauto; lia. }
    intros seq' Hk'. destruct seq' as [|y seq']; simpl.
    + rewrite (find_key_middle _ _ (TrieElement x 0 (Some t'))) by done.
      by rewrite decide_False by (simpl; lia).
    + apply Forall_cons in Hk' as [Hy Hk'].
      rewrite (find_key_middle _ _ (TrieElement x 0 (Some t'))) by done. simpl.
      destruct (decide (y = x)) as [->|Hne].
      * simpl. rewrite Hb' by done. rewrite allocate_binding, (find_key_None _ _ Hn).
        destruct (decide (seq' = seq)) as [->|?]; [by rewrite decide_True|].
        by rewrite decide_False by congruence.
      * by rewrite decide_False by congruence.
Qed.

Lemma insert_list_spec t seq v :
  wf t → keys seq → v ≠ 0 →
  ∃ t', insert_list t seq v = Ret (t', match binding t seq with Some _ => 0 | None => v end)
    ∧ wf t'
    ∧ ∀ seq', keys seq' →
        binding t' seq'
        = if decide (seq' = seq)
          then Some (match binding t seq with Some w => w | None => v end)
          else binding t seq'.
Proof.
  unfold insert_list. intros Hw Hk Hv. revert t Hw Hk.
  induction seq as [|x seq IH]; intros t Hw Hk; cbn [insert_list_rec].
  - pose proof (find_key_zero _ (wf_sorted t Hw) (wf_nonneg t Hw)) as Hz. cbn [binding].
    destruct (match elements t with [] => true | e :: _ => negb (elem e =? 0) end) eqn:He.
    + assert (find_key (elements t) 0 = None) as Hnone.
      { rewrite Hz. destruct (elements t) as [|e es]; [done|]. by destruct (elem e =? 0). }
      destruct (create_elements_spec t [] v Hw) as (t' & -> & Hw' & Hb'); [constructor|done| |].
      { intros (i & e & Hi & Hez). pose proof (find_key_lookup _ _ _ (wf_sorted t Hw) Hi). congruence. }
      rewrite Hnone. exists t'. split; [done|]. split; [done|].
      intros seq' Hk'. rewrite (Hb' seq' Hk'). by destruct (decide (seq' = [])).
    + rewrite Hz. destruct (elements t) as [|e es] eqn:Hes; [done|].
      destruct (elem e =? 0) eqn:He0; [|done]. exists t. split; [done|]. split; [done|].
      intros seq' Hk'. destruct (decide (seq' = [])) as [->|]; [|done]. simpl.
      by rewrite Hes, Hz.
  - apply Forall_cons in Hk as [Hx Hk].
    destruct (lookup_element_spec t x (wf_sorted t Hw)) as ([i|] & -> & Hr); rewrite bind_ret.
    + destruct Hr as (e & He & Hex). rewrite He. cbn [get]. rewrite bind_ret.
      assert (e ∈ elements t) as Hin by (by eapply list_elem_of_lookup_2).
      destruct (wf_next t e Hw Hin) as (t1 & Hn & Hw1); [lia|]. rewrite Hn. cbn [get].
      rewrite bind_ret. destruct (IH t1 Hw1 Hk) as (t2 & -> & Hw2 & Hb2). rewrite bind_ret.
      pose proof (find_key_lookup _ i e (wf_sorted t Hw) He) as Hf. rewrite Hex in Hf.
      cbn [binding]. rewrite Hf, Hn.
      eexists. split; [done|]. split.
      { destruct t as [c es]. inversion Hw as [? ? Hc Hs Hnn Hv0 Hn0]; subst. simpl in *. constructor.
        - by rewrite length_insert.
        - by apply (sorted_insert es i _ e).
        - apply Forall_insert; [done|]. simpl. lia.
        - apply Forall_insert; [done|]. simpl. lia.
        - intros a Ha Hne. apply list_elem_of_lookup in Ha as [j Hj].
          destruct (decide (i = j)) as [<-|Hij].
          + rewrite list_lookup_insert_eq in Hj by (by eapply lookup_lt_Some).
            injection Hj as <-. by exists t2.
          + rewrite list_lookup_insert_ne in Hj by done.
            apply Hn0; [by eapply list_elem_of_lookup_2|done]. }
      intros seq' Hk'. destruct seq' as [|y seq']; simpl.
      * rewrite (find_key_update _ _ (TrieElement (elem e) (value e) (Some t2)) e) by
          (done || by apply wf_sorted). by rewrite decide_False by (simpl; lia).
      * apply Forall_cons in Hk' as [Hy Hk'].
        rewrite (find_key_update _ _ (TrieElement (elem e) (value e) (Some t2)) e) by
          (done || by apply wf_sorted). simpl. rewrite Hex.
        destruct (decide (y = x)) as [->|Hne].
        -- simpl. rewrite (Hb2 seq' Hk'), Hf, Hn.
           destruct (decide (seq' = seq)) as [->|?]; [by rewrite decide_True|].
           by rewrite decide_False by congruence.
        -- by rewrite decide_False by congruence.
    + destruct (create_elements_spec t (x :: seq) v Hw) as (t' & -> & Hw' & Hb');
        [by constructor|done|done|]. rewrite bind_ret. cbn [binding].
      rewrite (find_key_None _ _ Hr). by exists t'.
Qed.
End refinement.

(** * The trie of function types *)

Module TypeTrie.

(** One slot at first, doubled when the new count reaches the capacity. *)
#[export] Instance type_trie_policy : TriePolicy := {
  new_capacity := 1;
  grow capacity num := if capacity =? num then capacity * 2 else capacity;
  cap_ok capacity num := num < capacity;
}.

#[export] Instance type_trie_policy_ok : TriePolicyOk.
Proof.
  split; simpl; [lia|]. intros c n Hn Hc. destruct (Z.eqb_spec c (n + 1)); lia.
Qed.

Definition allocate_type_trie : trie := allocate_trie.

Definition insert_type_trie (t : trie) (type_seq : list Z) (funct_type : Z) : res trie :=
  '(t', _) ← insert_list t type_seq funct_type;
  Ret t'.

Definition lookup_type_trie (t : trie) (type_seq : list Z) : res Z := lookup_list t type_seq.

Inductive type_trie_op :=
| Insert (type_seq : list Z) (funct_type : Z)
| Lookup (type_seq : list Z).

Fixpoint run (t : trie) (ops : list type_trie_op) : res (trie * list Z) :=
  match ops with
  | [] => Ret (t, [])
  | Insert s v :: ops' => t' ← insert_type_trie t s v; run t' ops'
  | Lookup s :: ops' =>
      v ← lookup_type_trie t s;
      '(t', vs) ← run t ops';
      Ret (t', v :: vs)
  end.

(** The first insertion of a sequence of types stays. *)
Fixpoint spec_run (m : gmap (list Z) Z) (ops : list type_trie_op) : list Z :=
  match ops with
  | [] => []
  | Insert s v :: ops' =>
      spec_run (match m !! s with Some _ => m | None => <[s := v]> m end) ops'
  | Lookup s :: ops' => default 0 (m !! s) :: spec_run m ops'
  end.

(** Types are not null. *)
Definition legal (o : type_trie_op) : Prop :=
  match o with Insert s v => keys s ∧ v ≠ 0 | Lookup s => keys s end.

Lemma type_trie_run_refines ops : ∀ t m,
  wf t → (∀ s, keys s → binding t s = m !! s) → Forall legal ops →
  ∃ t', run t ops = Ret (t', spec_run m ops) ∧ wf t'.
Proof.
  induction ops as [|[s v|s] ops IH]; intros t m Hw Hb Hl; [by exists t|..];
    apply Forall_cons in Hl as [Ho Hl]; simpl.
  - destruct Ho as [Hs Hv]. unfold insert_type_trie.
    destruct (insert_list_spec t s v Hw Hs Hv) as (t' & -> & Hw' & Hb'). rewrite !bind_ret.
    apply IH; [done| |done]. intros s' Hs'. rewrite (Hb' s' Hs'), (Hb s Hs).
    destruct (m !! s) as [w|] eqn:Hm.
    + rewrite <-(Hb s' Hs'). case_decide as Heq; [|done]. subst s'. by rewrite Hb, Hm.
    + case_decide as Heq; [subst s'; by rewrite lookup_insert_eq|].
      rewrite lookup_insert_ne by done. by apply Hb.
  - unfold lookup_type_trie. rewrite (lookup_list_spec t s Hw Ho), bind_ret, (Hb s Ho).
    destruct (IH t m Hw Hb Hl) as (t' & -> & Hw'). by exists t'.
Qed.

(** C36: the trie of function types is a finite map from sequences of types in
    which the first insertion wins: every run of insertions and lookups from
    an allocated trie succeeds, inside the capacity of every node, and its
    lookups return what the map returns. *)
Theorem type_trie_refines_map ops :
  Forall legal ops →
  ∃ t, run allocate_type_trie ops = Ret (t, spec_run ∅ ops) ∧ wf t.
Proof.
  intros Hl. apply type_trie_run_refines; [apply allocate_wf| |done].
  intros s Hs. unfold allocate_type_trie. by rewrite allocate_binding, lookup_empty.
Qed.

Lemma type_trie_refines_map_witness :
  ∃ t, run allocate_type_trie
         [Insert [5; 3; 9] 100; Insert [5; 3] 200; Insert [] 300; Insert [5; 3] 400;
          Lookup [5; 3]; Lookup [5; 3; 9]; Lookup []; Lookup [3]] = Ret (t, [200; 100; 300; 0])
    ∧ wf t.
Proof.
  destruct (type_trie_refines_map
    [Insert [5; 3; 9] 100; Insert [5; 3] 200; Insert [] 300; Insert [5; 3] 400;
     Lookup [5; 3]; Lookup [5; 3; 9]; Lookup []; Lookup [3]]) as (t & Ht & Hw).
  - repeat constructor; done.
  - exists t. split; [|exact Hw]. rewrite Ht.
    assert (spec_run ∅ [Insert [5; 3; 9] 100; Insert [5; 3] 200; Insert [] 300; Insert [5; 3] 400;
              Lookup [5; 3]; Lookup [5; 3; 9]; Lookup []; Lookup [3]] = [200; 100; 300; 0]) as <-
      by (vm_compute; reflexivity).
    reflexivity.
Defined.
End TypeTrie.
