(* ===== verification/UniqueStr.v ===== *)
(** * Unique strings: [lib/char_hash.c], [lib/slow_char_trie.c]

    [uniquestr] returns one address per string contents.  The library has two
    implementations with the same prototype: a hash table whose chains move the
    string that was found to their front, and a trie of bytes.  [Interner]
    states what they promise to the compiler, which compares the addresses of
    names; [Canonical] proves it is what a caller sees, for every
    implementation, and [CharHash] and [CharTrie] discharge it.

    Memory is a map from addresses to the bytes of the strings that [xstrdup]
    made; a new block, of a string or of a link of the hash table, gets an
    address that was not given out before.  An address is a name: nothing is
    promised of it but what [heap_ok] says, since the allocator is not part of
    the sources and the blocks of the nodes of the trie, which is a value here,
    take no addresses. *)

From S2P Require Import Prelude Trie.

(** The characters of a C string: 1 to 255. *)
Definition cstring (s : list Z) : Prop := Forall (λ c, 0 < c < 256) s.

Record heap := Heap { strings : gmap Z (list Z); next_address : Z }.

Definition empty_heap : heap := Heap ∅ 1.

Definition xstrdup (s : list Z) (h : heap) : Z * heap :=
  (next_address h, Heap (<[next_address h := s]> (strings h)) (next_address h + 1)).

(** A block that holds no string *)
Definition allocate (h : heap) : heap := Heap (strings h) (next_address h + 1).

(** ** The interface *)

(** A [const char*] argument: [None] is [NULL]. *)
Class Interner (St : Type) := {
  interner_init : St;
  uniquestr : option (list Z) → St → res (Z * St);
  interner_heap : St → heap;
}.

(** The state of a working interner: the strings are distinct, their addresses
    below the next one; a call gives the address of its string and only adds a
    string that is not there. *)
Definition heap_ok (h : heap) : Prop :=
  (∀ p s, strings h !! p = Some s → cstring s ∧ 0 < p < next_address h)
  ∧ (∀ p q s, strings h !! p = Some s → strings h !! q = Some s → p = q)
  ∧ 0 < next_address h.

Class InternerOk (St : Type) `{Interner St} := {
  interner_inv : St → Prop;
  inv_init : interner_inv interner_init ∧ interner_heap interner_init = empty_heap;
  inv_heap st : interner_inv st → heap_ok (interner_heap st);
  uniquestr_null st : uniquestr None st = Ret (0, st);
  uniquestr_spec st s :
    interner_inv st → cstring s →
    ∃ p st', uniquestr (Some s) st = Ret (p, st') ∧ interner_inv st'
      ∧ (strings (interner_heap st) !! p = Some s
           ∧ strings (interner_heap st') = strings (interner_heap st)
         ∨ (∀ q, strings (interner_heap st) !! q ≠ Some s)
           ∧ strings (interner_heap st) !! p = None
           ∧ strings (interner_heap st') = <[p := s]> (strings (interner_heap st)));
}.

Lemma empty_heap_ok : heap_ok empty_heap.
Proof.
  split; [|split; [|done]]; intros p; [intros s|intros q s]; simpl; by rewrite lookup_empty.
Qed.

Lemma xstrdup_ok s h :
  heap_ok h → cstring s → (∀ q, strings h !! q ≠ Some s) →
  heap_ok (xstrdup s h).2 ∧ strings h ⊆ strings (xstrdup s h).2
  ∧ strings (xstrdup s h).2 !! next_address h = Some s
  ∧ strings h !! next_address h = None.
Proof.
  intros (Hs & Hinj & Hn) Hc Hnew. simpl.
  assert (strings h !! next_address h = None) as Hfresh.
  { destruct (strings h !! next_address h) as [s'|] eqn:Hs'; [|done].
    destruct (Hs _ _ Hs') as [_ ?]. lia. }
  split; [|split; [by apply insert_subseteq|split; [by rewrite lookup_insert_eq|done]]].
  split; [|split; [|simpl; lia]]; simpl.
  - intros p s' [[<- <-]|[Hne Hp]]%lookup_insert_Some; [split; [done|lia]|].
    destruct (Hs p s' Hp) as [? ?]. split; [done|lia].
  - intros p q s' [[<- <-]|[Hne Hp]]%lookup_insert_Some [[<- ?]|[Hne' Hq]]%lookup_insert_Some.
    + done.
    + by destruct (Hnew q).
    + subst. by destruct (Hnew p).
    + by apply (Hinj p q s').
Qed.

Lemma allocate_ok h : heap_ok h → heap_ok (allocate h).
Proof.
  intros (Hs & Hinj & Hn). split; [|split; [done|simpl; lia]]. intros p s Hp.
  destruct (Hs p s Hp). simpl. split; [done|lia].
Qed.

(** The string that a call returns is in memory, with all those before it. *)
Lemma uniquestr_denotes {St} `{InternerOk St} st s :
  interner_inv st → cstring s →
  ∃ p st', uniquestr (Some s) st = Ret (p, st') ∧ interner_inv st'
    ∧ strings (interner_heap st') !! p = Some s
    ∧ strings (interner_heap st) ⊆ strings (interner_heap st').
Proof.
  intros Hi Hs. destruct (uniquestr_spec st s Hi Hs) as (p & st' & Hu & Hi' & Hp).
  exists p, st'. split; [done|]. split; [done|].
  destruct Hp as [[Hp ->]|(_ & Hn & ->)]; [done|].
  split; [by rewrite lookup_insert_eq|by apply insert_subseteq].
Qed.

(** * What the callers rely on *)

Module Canonical.
Section canonical.
Context {St} `{InternerOk St}.

Fixpoint run (st : St) (calls : list (option (list Z))) : res (list Z * St) :=
  match calls with
  | [] => Ret ([], st)
  | c :: calls' =>
      '(p, st') ← uniquestr c st;
      '(ps, st'') ← run st' calls';
      Ret (p :: ps, st'')
  end.

Definition argument (c : option (list Z)) : Prop :=
  match c with Some s => cstring s | None => True end.

(** The address stands for the string in memory. *)
Definition denotes (h : heap) (c : option (list Z)) (p : Z) : Prop :=
  match c with Some s => strings h !! p = Some s | None => p = 0 end.

Lemma run_spec calls : ∀ st,
  interner_inv st → Forall argument calls →
  ∃ ps st', run st calls = Ret (ps, st') ∧ interner_inv st'
    ∧ strings (interner_heap st) ⊆ strings (interner_heap st')
    ∧ Forall2 (denotes (interner_heap st')) calls ps.
Proof.
  induction calls as [|c calls IH]; intros st Hi Ha; [by exists [], st|].
  apply Forall_cons in Ha as [Hc Ha]. cbn [run]. destruct c as [s|].
  - destruct (uniquestr_denotes st s Hi Hc) as (p & st1 & -> & Hi1 & Hp1 & Hsub1). rewrite bind_ret.
    destruct (IH st1 Hi1 Ha) as (ps & st2 & -> & Hi2 & Hsub & Hps). rewrite bind_ret.
    exists (p :: ps), st2. split; [done|]. split; [done|].
    split; [by etrans|]. constructor; [|done]. simpl. by eapply lookup_weaken.
  - rewrite uniquestr_null, bind_ret.
    destruct (IH st Hi Ha) as (ps & st2 & -> & Hi2 & Hsub & Hps). rewrite bind_ret.
    exists (0 :: ps), st2. split; [done|]. split; [done|]. split; [done|]. by constructor.
Qed.

(** C2: for any implementation of the interface, in every run of [uniquestr]
    from the initial state two calls return the same address exactly when they
    were given the same string (or both [NULL]), and at the end every address
    that was returned still holds the string it was returned for. *)
Theorem uniquestr_canonical calls :
  Forall argument calls →
  ∃ ps st, run interner_init calls = Ret (ps, st)
    ∧ length ps = length calls
    ∧ (∀ i j c d p q, calls !! i = Some c → calls !! j = Some d →
         ps !! i = Some p → ps !! j = Some q → (p = q ↔ c = d))
    ∧ (∀ i s p, calls !! i = Some (Some s) → ps !! i = Some p →
         strings (interner_heap st) !! p = Some s).
Proof.
  intros Ha. destruct inv_init as [Hi _].
  destruct (run_spec calls interner_init Hi Ha) as (ps & st & Hr & Hi' & _ & Hps).
  destruct (inv_heap st Hi') as (Hs & Hinj & _).
  exists ps, st. split; [done|]. split; [by symmetry; eapply Forall2_length|].
  assert (∀ i c p, calls !! i = Some c → ps !! i = Some p → denotes (interner_heap st) c p) as Hd.
  { intros i c p Hc Hp. by eapply Forall2_lookup_lr. }
  split.
  - intros i j c d p q Hc Hdq Hp Hq. pose proof (Hd i c p Hc Hp) as H1.
    pose proof (Hd j d q Hdq Hq) as H2. destruct c as [s|], d as [t|]; simpl in H1, H2.
    + split; [intros ->; congruence|]. intros [= ->]. by apply (Hinj p q t).
    + destruct (Hs p s H1) as [_ ?]. split; [lia|done].
    + destruct (Hs q t H2) as [_ ?]. split; [lia|done].
    + by subst.
  - intros i s p Hc Hp. apply (Hd i (Some s) p Hc Hp).
Qed.
End canonical.
End Canonical.

(** * The hash table *)

Module CharHash.

Record string_link := StringLink { hash : Z; string : Z }.

Definition HASH_LENGTH : Z := 76003.

(** The size of a [string_link_t] on a 64-bit target. *)
Definition sizeof_string_link : Z := 24.

Record state := State {
  hash_table : gmap Z (list string_link); bytes_used : Z; memory : heap }.

Definition chain (st : state) (hash_index : Z) : list string_link :=
  default [] (hash_table st !! hash_index).

(** A [char] is signed; it is converted to [unsigned int] by the exclusive or. *)
Definition hash_string (s : list Z) : Z :=
  foldl (λ hash c, Z.lxor (u32 (u32 (Z.shiftl hash 5) + hash)) (u32 (s8 c))) 0 s.

(** The link that holds the string, with the links before and after it. *)
Fixpoint find_link (h : heap) (hs : Z) (s : list Z) (links : list string_link) :
    res (option (list string_link * string_link * list string_link)) :=
  match links with
  | [] => Ret None
  | p :: links' =>
      found ← (if hash p =? hs
               then s' ← get (strings h !! string p); Ret (bool_decide (s' = s))
               else Ret false);
      if found : bool then Ret (Some ([], p, links')) else
      r ← find_link h hs s links';
      Ret (match r with
           | Some (before, q, after) => Some (p :: before, q, after)
           | None => None
           end)
  end.

Definition uniquestr (c : option (list Z)) (st : state) : res (Z * state) :=
  match c with
  | None => Ret (0, st)
  | Some s =>
      let hs := hash_string s in
      let hash_index := hs mod HASH_LENGTH in
      r ← find_link (memory st) hs s (chain st hash_index);
      match r with
      | Some (before, p, after) =>
          Ret (string p,
               State (<[hash_index := p :: before ++ after]> (hash_table st))
                 (bytes_used st) (memory st))
      | None =>
          let bytes := u64 (bytes_used st + sizeof_string_link + Z.of_nat (length s) + 1) in
          let '(address, h) := xstrdup s (allocate (memory st)) in
          Ret (address,
               State (<[hash_index := StringLink hs address :: chain st hash_index]>
                        (hash_table st)) bytes h)
      end
  end.

Definition char_trie_used_memory (st : state) : Z := bytes_used st.

#[global] Instance char_hash_interner : Interner state := {
  interner_init := State ∅ 0 empty_heap;
  uniquestr := uniquestr;
  interner_heap := memory;
}.

(** The links of a chain hold strings of its bucket, with their hash, and every
    string in memory has a link. *)
Definition link_ok (h : heap) (i : Z) (p : string_link) : Prop :=
  ∃ s, strings h !! string p = Some s ∧ hash p = hash_string s ∧ i = hash_string s mod HASH_LENGTH.

Definition table_ok (st : state) : Prop :=
  (∀ i, Forall (link_ok (memory st) i) (chain st i))
  ∧ (∀ a s, strings (memory st) !! a = Some s →
       StringLink (hash_string s) a ∈ chain st (hash_string s mod HASH_LENGTH)).

Definition inv (st : state) : Prop := heap_ok (memory st) ∧ table_ok st.

Lemma find_link_spec h i s links :
  Forall (link_ok h i) links →
  ∃ r, find_link h (hash_string s) s links = Ret r
    ∧ match r with
      | Some (before, p, after) => links = before ++ p :: after ∧ strings h !! string p = Some s
      | None => ∀ p, p ∈ links → strings h !! string p ≠ Some s
      end.
Proof.
  induction 1 as [|p links (s' & Hs' & Hh & Hi) _ IH]; simpl.
  { exists None. split; [done|]. by intros p ?%not_elem_of_nil. }
  rewrite Hh, Hs'. simpl. destruct IH as (r & -> & Hr). simpl.
  destruct (decide (s' = s)) as [->|Hne].
  - rewrite Z.eqb_refl. simpl. rewrite bool_decide_true by done. by eexists.
  - exists (match r with
            | Some (before, q, after) => Some (p :: before, q, after)
            | None => None
            end).
    split.
    + destruct (_ =? _); simpl; [by rewrite bool_decide_false|done].
    + destruct r as [[[before q] after]|].
      * destruct Hr as [-> ?]. done.
      * intros q [->|Hq]%elem_of_cons; [congruence|auto].
Qed.

Lemma chain_insert table i l bytes h j :
  chain (State (<[i := l]> table) bytes h) j
  = if decide (i = j) then l else default [] (table !! j).
Proof.
  unfold chain. simpl. case_decide as Hij; [subst; by rewrite lookup_insert_eq|].
  by rewrite lookup_insert_ne.
Qed.

Lemma link_ok_weaken h h' i p : strings h ⊆ strings h' → link_ok h i p → link_ok h' i p.
Proof. intros Hsub (s & Hs & ? & ?). exists s. split; [by eapply lookup_weaken|done]. Qed.

#[global] Instance char_hash_ok : InternerOk state.
Proof.
  refine {| interner_inv := inv |}.
  - split; [|done]. split; [apply empty_heap_ok|]. split; simpl.
    + intros i. unfold chain. simpl. rewrite lookup_empty. constructor.
    + intros a s. by rewrite lookup_empty.
  - by intros st [? _].
  - done.
  - intros st s [Hh [Hlinks Hall]] Hc. simpl. unfold uniquestr.
    set (i := hash_string s mod HASH_LENGTH).
    destruct (find_link_spec (memory st) i s (chain st i) (Hlinks i)) as (r & -> & Hr).
    rewrite bind_ret. destruct r as [[[before p] after]|].
    + destruct Hr as [Hchain Hp]. eexists _, _. split; [done|]. split; [|by left].
      split; [done|]. assert (p :: before ++ after ≡ₚ chain st i) as Hperm.
      { rewrite Hchain. by rewrite Permutation_middle. }
      split; simpl.
      * intros j. rewrite chain_insert. case_decide as Hij; [|apply Hlinks].
        subst j. rewrite Hperm. apply Hlinks.
      * intros a s' Ha. rewrite chain_insert. case_decide as Hij; [|by apply Hall].
        rewrite Hperm. rewrite Hij. by apply Hall.
    + assert (∀ q, strings (memory st) !! q ≠ Some s) as Hnew.
      { intros q Hq. by apply (Hr (StringLink (hash_string s) q)); [apply Hall|]. }
      destruct (xstrdup_ok s (allocate (memory st)) (allocate_ok _ Hh) Hc Hnew) as (Hh' & Hsub & Ha & Hf).
      unfold xstrdup in *. cbn [fst snd allocate strings next_address] in *.
      eexists _, _. split; [done|]. split; [|by right]. split; [done|]. split; simpl.
      * intros j. rewrite chain_insert. case_decide as Hij.
        -- subst j. constructor; [by exists s|].
           eapply Forall_impl; [apply Hlinks|]. intros p. by apply link_ok_weaken.
        -- eapply Forall_impl; [apply Hlinks|]. intros p. by apply link_ok_weaken.
      * intros a s' [[<- <-]|[Hne Ha']]%lookup_insert_Some; rewrite chain_insert.
        -- rewrite decide_True by done. left.
        -- case_decide as Hij; [right; rewrite Hij|]; by apply Hall.
Defined.
End CharHash.

(** * The trie of bytes *)

Module CharTrie.

(** The array of a node is reallocated to its number of elements. *)
#[export] Instance char_trie_policy : TriePolicy := {
  new_capacity := 0;
  grow _ num := num;
  cap_ok capacity num := capacity = num;
}.

#[export] Instance char_trie_policy_ok : TriePolicyOk.
Proof. split; simpl; [done|]. intros c n _ _. lia. Qed.

Record state := State { global_char_trie : trie; memory : heap }.

(** [create_elements] duplicates the string when it reaches its end.  The nodes
    that it makes on the way are part of the trie, which is passed as a value. *)
Definition uniquestr (c : option (list Z)) (st : state) : res (Z * state) :=
  match c with
  | None => Ret (0, st)
  | Some s =>
      result ← lookup_list (global_char_trie st) s;
      if result =? 0 then
        let '(address, h) := xstrdup s (memory st) in
        '(t, result) ← insert_list (global_char_trie st) s address;
        Ret (result, State t (if result =? 0 then memory st else h))
      else Ret (result, st)
  end.

#[global] Instance char_trie_interner : Interner state := {
  interner_init := State allocate_trie empty_heap;
  uniquestr := uniquestr;
  interner_heap := memory;
}.

Definition inv (st : state) : Prop :=
  heap_ok (memory st) ∧ wf (global_char_trie st)
  ∧ ∀ s p, keys s → binding (global_char_trie st) s = Some p ↔ strings (memory st) !! p = Some s.

Lemma cstring_keys s : cstring s → keys s.
Proof. intros Hs. eapply Forall_impl; [exact Hs|]. simpl. lia. Qed.

#[global] Instance char_trie_ok : InternerOk state.
Proof.
  refine {| interner_inv := inv |}.
  - split; [|done]. split; [apply empty_heap_ok|]. split; [apply allocate_wf|].
    intros s p _. simpl. by rewrite allocate_binding, lookup_empty.
  - by intros st [? _].
  - done.
  - intros st s (Hh & Hw & Hb) Hc. pose proof (cstring_keys s Hc) as Hk. simpl. unfold uniquestr.
    rewrite (lookup_list_spec _ _ Hw Hk), bind_ret.
    destruct (binding (global_char_trie st) s) as [p|] eqn:Hp; simpl.
    + rewrite (proj2 (Z.eqb_neq p 0)) by (by eapply wf_value).
      exists p, st. split; [done|]. split; [done|]. left. split; [by apply Hb|done].
    + assert (∀ q, strings (memory st) !! q ≠ Some s) as Hnew.
      { intros q Hq. apply Hb in Hq; [congruence|done]. }
      destruct (xstrdup_ok s (memory st) Hh Hc Hnew) as (Hh' & Hsub & Ha & Hf).
      pose proof Hh as (Hs & _ & Hn).
      destruct (insert_list_spec (global_char_trie st) s (next_address (memory st)) Hw Hk)
        as (t & -> & Hw' & Hb'); [lia|].
      rewrite Hp, bind_ret, (proj2 (Z.eqb_neq _ 0)) by lia.
      eexists _, _. split; [done|]. split; [|by right].
      split; [done|]. split; [done|]. intros s' q Hk'. simpl. rewrite (Hb' s' Hk'), Hp.
      case_decide as Heq.
      * subst s'. split; [intros [= <-]; by rewrite lookup_insert_eq|].
        intros [[<- _]|[_ Hq]]%lookup_insert_Some; [done|by destruct (Hnew q)].
      * rewrite (Hb s' q Hk'). split.
        -- intros Hq. rewrite lookup_insert_ne; [done|].
           destruct (Hs q s' Hq) as [_ ?]. lia.
        -- by intros [[_ ?]|[_ ?]]%lookup_insert_Some.
Defined.
End CharTrie.

(** "mintaka", "mercurium", "mint", "mintaka" and a null pointer. *)
Definition sample_calls : list (option (list Z)) :=
  [Some (bytes "mintaka"); Some (bytes "mercurium"); Some (bytes "mint"); Some (bytes "mintaka");
   None; Some []].

Lemma sample_calls_ok : Forall Canonical.argument sample_calls.
Proof. repeat constructor. Qed.

Lemma uniquestr_canonical_witness :
  ∃ ps st, Canonical.run (St := CharHash.state) interner_init sample_calls = Ret (ps, st)
    ∧ ps = [2; 4; 6; 2; 0; 8]
    ∧ (∀ i j c d p q, sample_calls !! i = Some c → sample_calls !! j = Some d →
         ps !! i = Some p → ps !! j = Some q → (p = q ↔ c = d)).
Proof.
  destruct (Canonical.uniquestr_canonical (St := CharHash.state) sample_calls sample_calls_ok)
    as (ps & st & Hr & _ & Hpq & _).
  exists ps, st. split; [exact Hr|]. split; [|exact Hpq].
  assert (fst <$> Canonical.run (St := CharHash.state) interner_init sample_calls
          = Ret [2; 4; 6; 2; 0; 8]) as Hps by (vm_compute; reflexivity).
  rewrite Hr in Hps. by injection Hps.
Defined.
