(* ===== verification/StringUtils.v ===== *)
(** * String utilities: [lib/string_utils.c]

    Concatenation, string builders, splitting, prefixes, case and the in-place
    merge sort of string arrays.  A string is the list of its bytes; functions
    that end with [uniquestr] are stated over the interface [Interner], so they
    return an address and the new state of the string table. *)

From S2P Require Import Prelude UniqueStr.

Abbreviation cstr := (list Z).

(** ** Concatenation *)

Section concatenation.
Context {St} `{Interner St}.

(** [int total = strlen(orig) + strlen(appended) + 1; char append_tmp[total];] *)
Definition strappend (orig appended : option cstr) (st : St) : res (Z * St) :=
  match orig, appended with
  | Some o, Some a =>
      if 2 ^ 31 <=? Z.of_nat (length o) + Z.of_nat (length a) + 1 then Err Undef
      else uniquestr (Some (o ++ a)) st
  | _, _ => Err Undef
  end.

Definition strprepend (orig prepended : option cstr) (st : St) : res (Z * St) :=
  strappend prepended orig st.

(** The concatenation of the strings that are not [NULL]. *)
Definition concat_strings (c : list (option cstr)) : cstr := concat (default [] <$> c).

(** An argument is an address and, unless it is [NULL], its string.  The last
    assignment ends the result one byte before its end. *)
Definition strconcat_n (c : list (Z * option cstr)) (st : St) : res (Z * St) :=
  match c with
  | [] => Ret (0, st)
  | [(address, _)] => Ret (address, st)
  | [(_, c0); (_, c1)] => strappend c0 c1 st
  | _ =>
      let result := concat_strings (snd <$> c) in
      let size := Z.of_nat (length result) in
      if 2 ^ 32 <=? size then Err Undef else
      if size =? 0 then Ret (0, st)
      else uniquestr (Some (take (Z.to_nat (size - 1)) result)) st
  end.

(** [snprintf(result, 14, "$.anon%05d", num_var)]: at most 13 characters. *)
Definition digit (n k : Z) : Z := 48 + n / 10 ^ k mod 10.

Definition anon_name (num_var : Z) : cstr :=
  take 13 (bytes "$.anon" ++ (digit num_var <$> [4; 3; 2; 1; 0])).

(** [static int num_var = 100;] is read and never assigned. *)
Definition get_unique_name (st : St) : res (Z * St) := uniquestr (Some (anon_name 100)) st.
End concatenation.

(** ** String builders *)

Record strbuilder := StrBuilder { str : cstr; capacity : Z; position : Z }.

Definition strbuilder_new : strbuilder := StrBuilder [] 8 0.

Definition strbuilder_str (strb : strbuilder) : cstr := str strb.

(** [while ((position + len) >= capacity) capacity *= 2;]: 32 doublings reach
    any [unsigned int]. *)
Definition grow_capacity (position len capacity : Z) : res Z :=
  loop 33 (λ capacity, Ret (if capacity <=? u32 (position + len)
                            then inl (u32 (capacity * 2)) else inr capacity)) capacity.

(** [strcat] writes the string and its end into the buffer. *)
Definition strbuilder_append (strb : strbuilder) (s : cstr) : res strbuilder :=
  let len := u32 (Z.of_nat (length s)) in
  cap ← grow_capacity (position strb) len (capacity strb);
  if cap <? Z.of_nat (length (str strb)) + Z.of_nat (length s) + 1 then Err Undef
  else Ret (StrBuilder (str strb ++ s) cap (u32 (position strb + len))).

Fixpoint append_strings (strb : strbuilder) (l : list cstr) : res strbuilder :=
  match l with
  | [] => Ret strb
  | s :: l' => strb' ← strbuilder_append strb s; append_strings strb' l'
  end.

(** ** Splitting *)

(** The tokens of [strtok]: the maximal runs of bytes that are no delimiter;
    [current] is the token being read, reversed. *)
Fixpoint strtok_all (delim : list Z) (current : cstr) (s : cstr) : list cstr :=
  match s with
  | [] => match current with [] => [] | _ => [rev current] end
  | c :: s' =>
      if decide (c ∈ delim)
      then match current with
           | [] => strtok_all delim [] s'
           | _ => rev current :: strtok_all delim [] s'
           end
      else strtok_all delim (c :: current) s'
  end.

Definition tokens (delim : list Z) (value : option cstr) : list cstr :=
  match value with Some v => strtok_all delim [] v | None => [] end.

(** [P_LIST_ADD(result, *num_elems, uniquestr(current))] for each token; the
    array ends with a [NULL] that [num_elems] does not count. *)
Definition comma_separate_values {St} `{Interner St} (value : option cstr) (st : St) :
    res (list Z * Z * St) :=
  '(result, st') ← Canonical.run st (Some <$> tokens [44] value);
  Ret (result ++ [0], Z.of_nat (length result), st').

(** Here every token is a new copy. *)
Fixpoint xstrdup_all (l : list cstr) (h : heap) : list Z * heap :=
  match l with
  | [] => ([], h)
  | s :: l' =>
      let '(p, h) := xstrdup s h in
      let '(ps, h) := xstrdup_all l' h in
      (p :: ps, h)
  end.

Definition blank_separate_values (value : option cstr) (h : heap) : list Z * Z * heap :=
  let '(result, h') := xstrdup_all (tokens [32; 9] value) h in
  (result ++ [0], Z.of_nat (length result), h').

(** ** Characters *)

Definition is_blank (c : Z) : bool := (c =? 32) || (c =? 9).

(** [while (result && ( *c != '\0'))] *)
Fixpoint is_blank_string (c : cstr) : bool :=
  match c with
  | [] => true
  | x :: c' => if is_blank x then is_blank_string c' else false
  end.

(** [toupper] and [tolower] of the C locale; a byte above 127 is a negative
    [char], which they do not accept. *)
Definition toupper (c : Z) : res Z :=
  if 128 <=? c then Err Undef else
  Ret (if (97 <=? c) && (c <=? 122) then c - 32 else c).

Definition tolower (c : Z) : res Z :=
  if 128 <=? c then Err Undef else
  Ret (if (65 <=? c) && (c <=? 90) then c + 32 else c).

Definition strtoupper {St} `{Interner St} (c : option cstr) (st : St) : res (Z * St) :=
  match c with
  | Some s => result ← mapM toupper s; uniquestr (Some result) st
  | None => Ret (0, st)
  end.

Definition strtolower {St} `{Interner St} (c : option cstr) (st : St) : res (Z * St) :=
  match c with
  | Some s => result ← mapM tolower s; uniquestr (Some result) st
  | None => Ret (0, st)
  end.

(** [strncmp(a, b, n)]: the difference of the first bytes that differ, the end
    of a string counting as 0. *)
Fixpoint strncmp (n : nat) (a b : cstr) : Z :=
  match n with
  | O => 0
  | S n' =>
      match a, b with
      | [], [] => 0
      | x :: _, [] => x
      | [], y :: _ => - y
      | x :: a', y :: b' => if x =? y then strncmp n' a' b' else x - y
      end
  end.

(** The suffix [str + strlen(prefix)]. *)
Definition has_prefix (prefix str : cstr) : option cstr :=
  if strncmp (length prefix) prefix str =? 0
  then Some (drop (length prefix) str) else None.

Definition contain_prefix_number (c : cstr) : bool :=
  match c with
  | [] => false
  | c0 :: _ => (48 <=? c0) && (c0 <=? 57)
  end.

Definition simple_hash_str (s : cstr) : Z :=
  let h := foldl (λ h p, u32 (u32 (33 * h) + p)) 0 s in
  u32 (h + Z.shiftr h 5).

(** ** Sorting *)

(** The condition that takes the element from the right end. *)
Definition take_right (ascending_order : bool) (ai aj : cstr) : bool :=
  let min := if (length ai <? length aj)%nat then length ai else length aj in
  let r := strncmp min ai aj in
  if ascending_order
  then (0 <? r) || ((r =? 0) && (length aj <? length ai)%nat)
  else (r <? 0) || ((r =? 0) && (length ai <? length aj)%nat).

(** [for (k = ind_lower; k <= ind_upper; ++k)], with [n] steps left. *)
Fixpoint fusion_loop (n : nat) (ascending_order : bool) (aux_list : list cstr)
    (k i j : Z) (l : list cstr) : res (list cstr) :=
  match n with
  | O => Ret l
  | S n' =>
      ai ← get (aux_list !! Z.to_nat i);
      aj ← (if j <? 0 then Err Undef else get (aux_list !! Z.to_nat j));
      if take_right ascending_order ai aj
      then fusion_loop n' ascending_order aux_list (k + 1) i (j - 1) (<[Z.to_nat k := aj]> l)
      else fusion_loop n' ascending_order aux_list (k + 1) (i + 1) j (<[Z.to_nat k := ai]> l)
  end.

(** The second half is copied backwards. *)
Definition private_fusion (l : list cstr) (ind_lower ind_upper : Z) (ascending_order : bool) :
    res (list cstr) :=
  let middle := ind_lower + (ind_upper - ind_lower) / 2 in
  aux1 ← mapM (λ i, get (l !! Z.to_nat i)) (seqZ ind_lower (middle - ind_lower + 1));
  aux2 ← mapM (λ j, get (l !! Z.to_nat (ind_upper - j + middle + 1)))
           (seqZ (middle + 1) (ind_upper - middle));
  fusion_loop (Z.to_nat (ind_upper - ind_lower + 1)) ascending_order (aux1 ++ aux2)
    ind_lower 0 (ind_upper - ind_lower) l.

Fixpoint private_merge_sort_str (fuel : nat) (l : list cstr) (ind_lower ind_upper : Z)
    (ascending_order : bool) : res (list cstr) :=
  match fuel with
  | O => Err NoFuel
  | S fuel' =>
      if 0 <? ind_upper - ind_lower then
        let middle := ind_lower + (ind_upper - ind_lower) / 2 in
        l ← private_merge_sort_str fuel' l ind_lower middle ascending_order;
        l ← private_merge_sort_str fuel' l (middle + 1) ind_upper ascending_order;
        private_fusion l ind_lower ind_upper ascending_order
      else Ret l
  end.

Definition merge_sort_list_str (l : list cstr) (size : Z) (ascending_order : bool) :
    res (list cstr) :=
  private_merge_sort_str (S (Z.to_nat size)) l 0 (size - 1) ascending_order.

(** * Lexicographic order *)

Fixpoint lex_le (a b : cstr) : bool :=
  match a, b with
  | [], _ => true
  | _ :: _, [] => false
  | x :: a', y :: b' => if x =? y then lex_le a' b' else x <? y
  end.

(** The order of the result: lexicographic or its converse. *)
Definition in_order (ascending_order : bool) (a b : cstr) : Prop :=
  if ascending_order then lex_le a b = true else lex_le b a = true.

Lemma lex_le_total a b : lex_le a b = true ∨ lex_le b a = true.
Proof.
  revert b. induction a as [|x a IH]; intros [|y b]; simpl; auto.
  destruct (Z.eqb_spec x y) as [->|Hne]; [by rewrite Z.eqb_refl|].
  rewrite (proj2 (Z.eqb_neq y x)) by done.
  destruct (Z.ltb_spec x y); [by left|]. right. apply Z.ltb_lt. lia.
Qed.

Lemma lex_le_trans a b c : lex_le a b = true → lex_le b c = true → lex_le a c = true.
Proof.
  revert b c. induction a as [|x a IH]; intros [|y b] [|z c]; simpl; try done.
  destruct (Z.eqb_spec x y) as [->|H1], (Z.eqb_spec y z) as [->|H2].
  - apply IH.
  - done.
  - by rewrite (proj2 (Z.eqb_neq x z)).
  - intros ?%Z.ltb_lt ?%Z.ltb_lt. rewrite (proj2 (Z.eqb_neq x z)) by lia. apply Z.ltb_lt. lia.
Qed.

#[export] Instance in_order_total o : Total (in_order o).
Proof. intros a b. destruct o; simpl; [apply lex_le_total|]. apply lex_le_total. Qed.

#[export] Instance in_order_trans o : Transitive (in_order o).
Proof. intros a b c. destruct o; simpl; [|intros H1 H2]; by eauto using lex_le_trans. Qed.

Lemma in_order_refl o a : in_order o a a.
Proof. by destruct (in_order_total o a a). Qed.

(** The comparison of the code, on the common length and then on the lengths. *)
Lemma compare_lex a b :
  let r := strncmp (if (length a <? length b)%nat then length a else length b) a b in
  (0 <? r) || ((r =? 0) && (length b <? length a)%nat) = negb (lex_le a b)
  ∧ (r <? 0) || ((r =? 0) && (length a <? length b)%nat) = negb (lex_le b a).
Proof.
  revert b. induction a as [|x a IH]; intros [|y b]; [done..|].
  assert ((if (length (x :: a) <? length (y :: b))%nat then length (x :: a) else length (y :: b))
          = S (if (length a <? length b)%nat then length a else length b)) as ->.
  { simpl. change (S (length a) <? S (length b))%nat with (length a <? length b)%nat.
    by destruct (_ <? _)%nat. }
  cbn [strncmp lex_le length]. rewrite (Z.eqb_sym y x).
  change (S (length a) <? S (length b))%nat with (length a <? length b)%nat.
  change (S (length b) <? S (length a))%nat with (length b <? length a)%nat.
  destruct (Z.eqb_spec x y) as [->|Hne]; [apply IH|].
  rewrite (proj2 (Z.eqb_neq (x - y) 0)) by lia. cbv zeta. rewrite !andb_false_l, !orb_false_r.
  destruct (Z.ltb_spec x y), (Z.ltb_spec y x), (Z.ltb_spec 0 (x - y)), (Z.ltb_spec (x - y) 0);
    simpl; split; done || lia.
Qed.

Lemma take_right_order o ai aj : take_right o ai aj = true ↔ ¬ in_order o ai aj.
Proof.
  unfold take_right. destruct (compare_lex ai aj) as [H1 H2].
  destruct o; [rewrite H1|rewrite H2]; simpl;
    by rewrite negb_true_iff, not_true_iff_false.
Qed.

Lemma take_left_order o ai aj : take_right o ai aj = false → in_order o ai aj.
Proof.
  unfold take_right. destruct (compare_lex ai aj) as [H1 H2].
  destruct o; [rewrite H1|rewrite H2]; simpl; apply negb_false_iff.
Qed.

(** * Merging a bitonic list *)

Section merge.
Context (o : bool).

Definition bitonic (w : list cstr) : Prop :=
  ∃ a b, w = a ++ rev b ∧ StronglySorted (in_order o) a ∧ StronglySorted (in_order o) b.

Lemma elem_of_rev (l : list cstr) z : z ∈ rev l ↔ z ∈ l.
Proof. rewrite !list_elem_of_In. symmetry. apply in_rev. Qed.

Lemma sorted_snoc_inv a y :
  StronglySorted (in_order o) (a ++ [y]) →
  StronglySorted (in_order o) a ∧ ∀ z, z ∈ a → in_order o z y.
Proof.
  induction a as [|x a IH]; simpl; intros Hs.
  - split; [constructor|]. by intros z ?%not_elem_of_nil.
  - apply StronglySorted_inv in Hs as [Hs Hx]. destruct (IH Hs) as [Ha Hz].
    apply Forall_app in Hx as [Hx1 [Hx2 _]%Forall_cons].
    split; [by constructor|]. intros z [->|Hz']%elem_of_cons; auto.
Qed.

Lemma sorted_head b h z : StronglySorted (in_order o) (h :: b) → z ∈ h :: b → in_order o h z.
Proof.
  intros [_ Hh]%StronglySorted_inv [->|Hz]%elem_of_cons; [apply in_order_refl|].
  rewrite Forall_forall in Hh. auto.
Qed.

Lemma bitonic_left x w y :
  bitonic (x :: w) → last (x :: w) = Some y → in_order o x y →
  bitonic w ∧ ∀ z, z ∈ w → in_order o x z.
Proof.
  intros (a & b & Hw & Ha & Hb) Hy Hxy. destruct a as [|x' a].
  - simpl in Hw. destruct b as [|h b]; [done|]. simpl in Hw.
    assert (y = h) as -> by (rewrite Hw, last_snoc in Hy; congruence).
    assert (h :: b = rev w ++ [x]) as Hrev.
    { rewrite <-(rev_involutive (h :: b)). simpl. by rewrite <-Hw. }
    assert (∀ z, z ∈ w → z ∈ h :: b) as Hin.
    { intros z Hz. rewrite Hrev. apply elem_of_app. left. by apply elem_of_rev. }
    split.
    + rewrite Hrev in Hb. apply sorted_snoc_inv in Hb as [Hb _].
      exists [], (rev w). rewrite rev_involutive. split; [done|]. split; [constructor|done].
    + intros z Hz. transitivity h; [done|]. by eapply sorted_head; [|apply Hin].
  - injection Hw as <- ->. split; [exists a, b; split; [done|]; split; [|done]|].
    { by apply StronglySorted_inv in Ha as [? _]. }
    intros z [Hz|Hz]%elem_of_app; [eapply sorted_head; [exact Ha|by right]|].
    destruct b as [|h b]; [by apply not_elem_of_nil in Hz|].
    cbn [rev] in Hy. rewrite app_comm_cons, app_assoc, last_snoc in Hy.
    injection Hy as ->. transitivity y; [done|]. eapply sorted_head; [exact Hb|].
    by rewrite elem_of_rev in Hz.
Qed.

Lemma bitonic_right x w y :
  bitonic (w ++ [y]) → head (w ++ [y]) = Some x → ¬ in_order o x y →
  bitonic w ∧ ∀ z, z ∈ w → in_order o y z.
Proof.
  intros (a & b & Hw & Ha & Hb) Hx Hxy. destruct b as [|h b].
  - simpl in Hw. rewrite app_nil_r in Hw. subst a.
    destruct w as [|x' w]; simpl in Hx; injection Hx as ->; [by destruct Hxy; apply in_order_refl|].
    destruct Hxy. apply (sorted_head (w ++ [y])); [exact Ha|]. right. apply elem_of_app. right. left.
  - simpl in Hw. rewrite app_assoc in Hw. apply app_inj_tail in Hw as [-> ->].
    split.
    { exists a, b. split; [done|]. split; [done|]. by apply StronglySorted_inv in Hb as [? _]. }
    intros z [Hz|Hz]%elem_of_app.
    + destruct a as [|x' a]; [by apply not_elem_of_nil in Hz|].
      simpl in Hx. injection Hx as ->. destruct (in_order_total o x h) as [?|?]; [done|].
      transitivity x; [done|]. by eapply sorted_head.
    + eapply sorted_head; [exact Hb|]. right. by rewrite elem_of_rev in Hz.
Qed.

(** The loop moves the window [w] of the auxiliary list to the positions [k],
    [k + 1], ... in order. *)
Lemma fusion_loop_spec aux n : ∀ i j w rest pre mid post,
  bitonic w → drop i aux = w ++ rest → length w = n → j = Z.of_nat i + Z.of_nat n - 1 →
  length mid = n →
  ∃ out, fusion_loop n o aux (Z.of_nat (length pre)) (Z.of_nat i) j (pre ++ mid ++ post)
           = Ret (pre ++ out ++ post)
    ∧ out ≡ₚ w ∧ StronglySorted (in_order o) out.
Proof.
  induction n as [|n IH]; intros i j w rest pre mid post Hw Hd Hl Hj Hm.
  { apply nil_length_inv in Hl as ->. apply nil_length_inv in Hm as ->.
    exists []. split; [done|]. split; [done|constructor]. }
  destruct w as [|x w'] eqn:Hweq; [done|]. rewrite <-Hweq in *.
  destruct mid as [|m0 mid]; [done|]. simpl in Hm. injection Hm as Hm.
  assert (aux !! i = Some x) as Hx.
  { transitivity (drop i aux !! 0%nat); [rewrite lookup_drop; f_equal; lia|]. by rewrite Hd, Hweq. }
  destruct (last w) as [y|] eqn:Hlast; [|by rewrite Hweq in Hlast; apply last_None in Hlast].
  assert (aux !! (i + n)%nat = Some y) as Hy.
  { rewrite <-lookup_drop, Hd, lookup_app_l by lia. rewrite last_lookup, Hl in Hlast. done. }
  cbn [fusion_loop]. rewrite (Nat2Z.id i), Hx. cbn [get]. rewrite bind_ret.
  rewrite (proj2 (Z.ltb_ge j 0)) by lia. replace (Z.to_nat j) with (i + n)%nat by lia.
  rewrite Hy. cbn [get]. rewrite bind_ret.
  assert (∀ v, <[Z.to_nat (Z.of_nat (length pre)) := v]> (pre ++ (m0 :: mid) ++ post)
               = (pre ++ [v]) ++ mid ++ post) as Hins.
  { intros v. rewrite Nat2Z.id, insert_app_r_alt, Nat.sub_diag by lia. simpl.
    by rewrite <-app_assoc. }
  destruct (take_right o x y) eqn:Hr.
  - apply take_right_order in Hr. apply last_Some in Hlast as [w2 Hw2]. rewrite Hw2 in Hw, Hd, Hl.
    assert (head (w2 ++ [y]) = Some x) as Hh by (by rewrite <-Hw2, Hweq).
    destruct (bitonic_right x w2 y Hw Hh Hr) as [Hb Hmin].
    rewrite length_app in Hl. simpl in Hl. rewrite Hins.
    destruct (IH i (j - 1) w2 (y :: rest) (pre ++ [y]) mid post) as (out & Hout & Hp & Hs);
      [done|by rewrite Hd, <-app_assoc|lia|lia|done|].
    exists (y :: out). split; [|split].
    + replace (Z.of_nat (length pre) + 1) with (Z.of_nat (length (pre ++ [y])))
        by (rewrite length_app; simpl; lia).
      rewrite Hout. by rewrite <-app_assoc.
    + rewrite Hw2, Hp. by rewrite Permutation_app_comm.
    + constructor; [done|]. rewrite Forall_forall. intros z Hz. apply Hmin. by rewrite <-Hp.
  - apply take_left_order in Hr as Hxy.
    rewrite Hweq in Hlast, Hw. destruct (bitonic_left x w' y Hw Hlast Hxy) as [Hb Hmin].
    rewrite Hins. rewrite Hweq in Hd, Hl. simpl in Hl.
    destruct (IH (S i) j w' rest (pre ++ [x]) mid post) as (out & Hout & Hp & Hs);
      [done| |lia|lia|done|].
    { rewrite <-(Nat.add_1_r i), <-drop_drop, Hd. done. }
    exists (x :: out). split; [|split].
    + replace (Z.of_nat (length pre) + 1) with (Z.of_nat (length (pre ++ [x])))
        by (rewrite length_app; simpl; lia).
      replace (Z.of_nat i + 1) with (Z.of_nat (S i)) by lia.
      rewrite Hout. by rewrite <-app_assoc.
    + by rewrite Hweq, Hp.
    + constructor; [done|]. rewrite Forall_forall. intros z Hz. apply Hmin. by rewrite <-Hp.
Qed.
End merge.

(** * The merge sort *)

Lemma mapM_get {A} (g : Z → option A) js ys :
  length js = length ys → (∀ k j, js !! k = Some j → g j = ys !! k) →
  mapM (λ j, get (g j)) js = Ret ys.
Proof.
  revert ys. induction js as [|j js IH]; intros [|y ys] Hl Hg; try done. simpl.
  rewrite (Hg 0%nat j eq_refl). simpl. rewrite (IH ys); [done| |].
  - by injection Hl.
  - intros k j' Hk. apply (Hg (S k) j' Hk).
Qed.

Lemma middle_half m : 0 ≤ m → m / 2 < m + 1 ∧ 0 ≤ m / 2 ∧ (0 < m → m / 2 < m).
Proof. intros. split; [|split]; [|apply Z.div_pos; lia|]; intros; apply Z.div_lt_upper_bound; lia. Qed.

(** The auxiliary list is the first half and the second half backwards. *)
Lemma private_fusion_spec o pre m1 m2 post :
  (length m2 ≤ length m1 ≤ S (length m2))%nat → (0 < length m2)%nat →
  StronglySorted (in_order o) m1 → StronglySorted (in_order o) m2 →
  let upper := Z.of_nat (length pre) + Z.of_nat (length m1) + Z.of_nat (length m2) - 1 in
  ∃ out, private_fusion (pre ++ (m1 ++ m2) ++ post) (Z.of_nat (length pre)) upper o
           = Ret (pre ++ out ++ post)
    ∧ out ≡ₚ m1 ++ m2 ∧ StronglySorted (in_order o) out.
Proof.
  intros Hlen Hpos Hs1 Hs2 upper. unfold private_fusion.
  set (lower := Z.of_nat (length pre)) in *.
  assert (lower + (upper - lower) / 2 = lower + Z.of_nat (length m1) - 1) as ->.
  { unfold upper. enough ((lower + Z.of_nat (length m1) + Z.of_nat (length m2) - 1 - lower) / 2
      = Z.of_nat (length m1) - 1) by lia.
    symmetry. eapply (Z.div_unique_pos _ _ _
      (Z.of_nat (length m2) - Z.of_nat (length m1) + 1)); lia. }
  set (l := pre ++ (m1 ++ m2) ++ post).
  rewrite (mapM_get (λ i, l !! Z.to_nat i) _ m1).
  2: { rewrite length_seqZ. lia. }
  2: { intros k i Hk. apply lookup_seqZ in Hk as [-> Hk]. unfold l.
       rewrite lookup_app_r by lia. replace (Z.to_nat (lower + Z.of_nat k) - length pre)%nat with k by lia.
       rewrite !lookup_app_l; [done|lia|rewrite length_app; lia]. }
  rewrite bind_ret.
  rewrite (mapM_get (λ j, l !! Z.to_nat (upper - j + (lower + Z.of_nat (length m1) - 1) + 1)) _ (rev m2)).
  2: { rewrite length_seqZ, length_rev. lia. }
  2: { intros k j Hk. apply lookup_seqZ in Hk as [-> Hk]. unfold l.
       rewrite lookup_app_r by lia. rewrite lookup_app_l by (rewrite length_app; lia).
       rewrite lookup_app_r by lia. rewrite rev_alt. change (rev_append m2 []) with (reverse m2).
       rewrite reverse_lookup by lia. f_equal. lia. }
  rewrite bind_ret.
  destruct (fusion_loop_spec o (m1 ++ rev m2) (length m1 + length m2) 0 (upper - lower)
    (m1 ++ rev m2) [] pre (m1 ++ m2) post) as (out & Hout & Hp & Hs).
  - by exists m1, m2.
  - by rewrite drop_0, app_nil_r.
  - by rewrite length_app, length_rev.
  - lia.
  - by rewrite length_app.
  - exists out. split; [|split; [|done]].
    + unfold l. rewrite <-Hout. f_equal. lia.
    + rewrite Hp. apply Permutation_app_head. symmetry. apply Permutation_rev.
Qed.

Lemma private_merge_sort_spec o fuel : ∀ pre m post,
  (length m < fuel)%nat →
  ∃ out, private_merge_sort_str fuel (pre ++ m ++ post) (Z.of_nat (length pre))
           (Z.of_nat (length pre) + Z.of_nat (length m) - 1) o = Ret (pre ++ out ++ post)
    ∧ out ≡ₚ m ∧ StronglySorted (in_order o) out.
Proof.
  induction fuel as [|fuel IH]; intros pre m post Hf; [lia|]. cbn [private_merge_sort_str].
  destruct (Z.ltb_spec 0 (Z.of_nat (length pre) + Z.of_nat (length m) - 1 - Z.of_nat (length pre)))
    as [Hlt|Hge].
  - set (h := (Z.to_nat ((Z.of_nat (length m) - 1) / 2) + 1)%nat).
    destruct (middle_half (Z.of_nat (length m) - 1)) as (Hh1 & Hh2 & Hh3); [lia|].
    pose proof (Z.div_mod (Z.of_nat (length m) - 1) 2 ltac:(lia)) as Hdm.
    pose proof (Z.mod_pos_bound (Z.of_nat (length m) - 1) 2 ltac:(lia)) as Hmod.
    assert (length (take h m) = h) as Hl1 by (rewrite length_take; lia).
    assert (length (drop h m) = (length m - h)%nat) as Hl2 by apply length_drop.
    assert (Z.of_nat (length pre)
            + (Z.of_nat (length pre) + Z.of_nat (length m) - 1 - Z.of_nat (length pre)) / 2
            = Z.of_nat (length pre) + Z.of_nat h - 1) as ->.
    { replace (Z.of_nat (length pre) + Z.of_nat (length m) - 1 - Z.of_nat (length pre))
        with (Z.of_nat (length m) - 1) by lia. lia. }
    destruct (IH pre (take h m) (drop h m ++ post)) as (m1 & Hm1 & Hp1 & Hs1); [lia|].
    rewrite Hl1 in Hm1. rewrite (app_assoc (take h m)), take_drop in Hm1. rewrite Hm1, bind_ret.
    destruct (IH (pre ++ m1) (drop h m) post) as (m2 & Hm2 & Hp2 & Hs2); [lia|].
    assert (length m1 = h) as Hlm1 by (by rewrite Hp1).
    assert (length m2 = (length m - h)%nat) as Hlm2 by (by rewrite Hp2).
    rewrite length_app, Hlm1, Hl2, <-app_assoc in Hm2.
    replace (Z.of_nat (length pre) + Z.of_nat h - 1 + 1) with (Z.of_nat (length pre + h)) by lia.
    replace (Z.of_nat (length pre) + Z.of_nat (length m) - 1)
      with (Z.of_nat (length pre + h) + Z.of_nat (length m - h) - 1) by lia.
    rewrite Hm2, bind_ret.
    destruct (private_fusion_spec o pre m1 m2 post) as (out & Hout & Hp & Hs); [lia|lia|done|done|].
    exists out. split; [|split; [|done]].
    + rewrite <-Hout. rewrite <-!app_assoc. f_equal. lia.
    + by rewrite Hp, Hp1, Hp2, take_drop.
  - exists m. split; [done|]. split; [done|].
    destruct m as [|x [|y m]]; [constructor|repeat constructor|simpl in Hge; lia].
Qed.

(** C32: the in-place merge sort of an array of [size] strings terminates within
    the array and leaves a permutation of it, in lexicographic order of the
    bytes or, when [ascending_order] is 0, in the converse order. *)
Theorem merge_sort_list_str_sorts l ascending_order :
  ∃ l', merge_sort_list_str l (Z.of_nat (length l)) ascending_order = Ret l'
    ∧ l' ≡ₚ l ∧ StronglySorted (in_order ascending_order) l'.
Proof.
  destruct (private_merge_sort_spec ascending_order (S (Z.to_nat (Z.of_nat (length l)))) [] l [])
    as (out & Hout & Hp & Hs); [lia|].
  exists out. rewrite !app_nil_r in Hout. split; [exact Hout|done].
Qed.

(** * String builders *)

Lemma grow_capacity_spec n c :
  0 ≤ n < 2 ^ 31 → 8 ≤ c < 2 ^ 32 →
  ∀ position len, u32 (position + len) = n →
  ∃ c', grow_capacity position len c = Ret c' ∧ n < c' ∧ 8 ≤ c' < 2 ^ 32.
Proof.
  intros Hn Hc position len Hpl. unfold grow_capacity. rewrite Hpl.
  apply (loop_spec (λ c, 8 ≤ c < 2 ^ 32) (λ c, Z.to_nat (32 - Z.log2 c))
           (λ c, n < c ∧ 8 ≤ c < 2 ^ 32)); [|done|].
  - intros c' Hc'. destruct (Z.leb_spec c' n) as [Hle|Hlt]; [|done].
    unfold wrapu. rewrite Z.mod_small by lia. split; [lia|].
    rewrite Z.mul_comm, Z.log2_double by lia.
    pose proof (Z.log2_nonneg c'). assert (Z.log2 c' < 31) by (apply Z.log2_lt_pow2; lia). lia.
  - pose proof (Z.log2_nonneg c). lia.
Qed.

Definition builder_ok (strb : strbuilder) : Prop :=
  position strb = Z.of_nat (length (str strb)) ∧ position strb < capacity strb
  ∧ 8 ≤ capacity strb < 2 ^ 32.

Lemma append_strings_spec l : ∀ strb,
  builder_ok strb → position strb + Z.of_nat (length (concat l)) < 2 ^ 31 →
  ∃ strb', append_strings strb l = Ret strb' ∧ builder_ok strb'
    ∧ str strb' = str strb ++ concat l.
Proof.
  induction l as [|s l IH]; intros strb Hok Hl.
  { exists strb. by rewrite app_nil_r. }
  cbn [append_strings concat] in *. destruct Hok as (Hp & Hpc & Hc). rewrite length_app in Hl.
  unfold strbuilder_append.
  assert (u32 (Z.of_nat (length s)) = Z.of_nat (length s)) as -> by (apply wrapu_small; lia).
  assert (u32 (position strb + Z.of_nat (length s)) = position strb + Z.of_nat (length s)) as Hu
    by (apply wrapu_small; lia).
  destruct (grow_capacity_spec (position strb + Z.of_nat (length s)) (capacity strb))
    with (position := position strb) (len := Z.of_nat (length s)) as (c & -> & Hlt & Hc');
    [lia|done|done|]. rewrite bind_ret, (proj2 (Z.ltb_ge _ _)) by lia. rewrite bind_ret, Hu.
  destruct (IH (StrBuilder (str strb ++ s) c (position strb + Z.of_nat (length s))))
    as (strb' & -> & Hok' & Hstr).
  - split; [simpl; rewrite length_app; lia|]. done.
  - simpl. lia.
  - exists strb'. split; [done|]. split; [done|]. simpl in Hstr. by rewrite Hstr, <-app_assoc.
Qed.

(** A string builder holds the concatenation of the strings appended to it,
    for any number of appends of less than 2 GiB in total: [position] is its
    length, every [strcat] stays inside the buffer and the doubling of the
    capacity neither wraps nor loops. *)
Theorem strbuilder_concatenates l :
  Z.of_nat (length (concat l)) < 2 ^ 31 →
  ∃ strb, append_strings strbuilder_new l = Ret strb
    ∧ strbuilder_str strb = concat l
    ∧ position strb = Z.of_nat (length (concat l)) ∧ position strb < capacity strb.
Proof.
  intros Hl. destruct (append_strings_spec l strbuilder_new) as (strb & Hr & (Hp & Hc & _) & Hs);
    [unfold builder_ok; simpl; lia|simpl; lia|].
  exists strb. simpl in Hs. rewrite <-Hs. done.
Qed.

Lemma strbuilder_concatenates_witness :
  ∃ strb, append_strings strbuilder_new [bytes "struct "; bytes "nanos_"; []; bytes "args"] = Ret strb
    ∧ strbuilder_str strb = bytes "struct nanos_args"
    ∧ position strb = 17 ∧ position strb < capacity strb.
Proof.
  apply (strbuilder_concatenates [bytes "struct "; bytes "nanos_"; []; bytes "args"]).
  vm_compute. reflexivity.
Defined.

(** * Splitting *)

Lemma strtok_all_spec delim s : ∀ current,
  Forall (λ c, c ∉ delim) current →
  Forall (λ t, t ≠ [] ∧ Forall (λ c, c ∉ delim) t) (strtok_all delim current s)
  ∧ concat (strtok_all delim current s) = rev current ++ filter (λ c, c ∉ delim) s.
Proof.
  induction s as [|c s IH]; intros current Hcur; simpl.
  - rewrite app_nil_r. destruct current as [|x current]; [done|].
    split; [|simpl; by rewrite app_nil_r]. constructor; [|done].
    split; [simpl; by destruct (rev current)|].
    rewrite Forall_forall in Hcur |- *. intros z Hz. apply Hcur.
    rewrite list_elem_of_In in *. by apply in_rev.
  - rewrite filter_cons. destruct (decide (c ∈ delim)) as [Hc|Hc].
    + rewrite decide_False by tauto. destruct current as [|x current]; [by apply IH|].
      destruct (IH [] (Forall_nil_2 _)) as [H1 H2].
      split; [|by rewrite concat_cons, H2].
      constructor; [|done]. split; [simpl; by destruct (rev current)|].
      rewrite Forall_forall in Hcur |- *. intros z Hz. apply Hcur.
      rewrite list_elem_of_In in *. by apply in_rev.
    + rewrite decide_True by done. destruct (IH (c :: current)) as [H1 H2]; [by constructor|].
      split; [done|]. rewrite H2. simpl. by rewrite <-app_assoc.
Qed.

Lemma tokens_spec delim value :
  Forall (λ t, t ≠ [] ∧ Forall (λ c, c ∉ delim) t) (tokens delim value)
  ∧ concat (tokens delim value) = filter (λ c, c ∉ delim) (default [] value).
Proof.
  destruct value as [v|]; [|done]. apply (strtok_all_spec delim v []), Forall_nil_2.
Qed.

(** No string lies at or above the next address. *)
Definition heap_fresh (h : heap) : Prop :=
  ∀ p s, strings h !! p = Some s → p < next_address h.

Lemma xstrdup_all_spec l : ∀ h,
  heap_fresh h →
  ∃ ps h', xstrdup_all l h = (ps, h') ∧ heap_fresh h' ∧ strings h ⊆ strings h'
    ∧ next_address h' = next_address h + Z.of_nat (length l)
    ∧ ps = seqZ (next_address h) (Z.of_nat (length l))
    ∧ Forall2 (λ p s, strings h' !! p = Some s) ps l.
Proof.
  induction l as [|s l IH]; intros h Hh; cbn [xstrdup_all length].
  - exists [], h. simpl. split_and!; [done..|lia|done|constructor].
  - unfold xstrdup. set (h1 := Heap _ _).
    assert (strings h !! next_address h = None) as Hn.
    { destruct (strings h !! next_address h) as [s'|] eqn:Hs; [|done].
      specialize (Hh _ _ Hs). lia. }
    destruct (IH h1) as (ps & h' & -> & Hh' & Hsub & Hnext & Hps & Hall).
    { intros p s' Hp'. unfold h1 in Hp' |- *. simpl in *.
      apply lookup_insert_Some in Hp' as [[<- _]|[_ Hp]]; [lia|]. specialize (Hh _ _ Hp). lia. }
    assert (strings h ⊆ strings h1) as Hsub1 by by apply insert_subseteq.
    exists (next_address h :: ps), h'. simpl in Hnext.
    split_and!; [done|done|by etrans|lia| |].
    + rewrite (seqZ_cons _ (Z.of_nat (S (length l)))), Hps by lia.
      by replace (Z.pred (Z.of_nat (S (length l)))) with (Z.of_nat (length l)) by lia.
    + constructor; [|done]. eapply lookup_weaken; [|done]. by apply lookup_insert_eq.
Qed.

(** [blank_separate_values] returns an array of as many new strings as it
    reports, ended by [NULL]: the tokens are not empty, contain no blank, and
    their concatenation is the text without its blanks; [NULL] has no token. *)
Theorem blank_separate_values_tokens value h :
  heap_fresh h →
  ∃ ps l h', blank_separate_values value h = (ps ++ [0], Z.of_nat (length l), h')
    ∧ ps = seqZ (next_address h) (Z.of_nat (length l))
    ∧ strings h ⊆ strings h' ∧ Forall2 (λ p s, strings h' !! p = Some s) ps l
    ∧ Forall (λ t, t ≠ [] ∧ 32 ∉ t ∧ 9 ∉ t) l
    ∧ concat l = filter (λ c, c ∉ [32; 9]) (default [] value).
Proof.
  intros Hh. destruct (tokens_spec [32; 9] value) as [H1 H2]. unfold blank_separate_values.
  destruct (xstrdup_all_spec (tokens [32; 9] value) h Hh)
    as (ps & h' & -> & _ & Hsub & _ & Hps & Hall).
  exists ps, (tokens [32; 9] value), h'.
  split_and!; [by rewrite (Forall2_length _ _ _ Hall)|done..| |done].
  eapply Forall_impl; [exact H1|]. intros t [Hne Ht]. rewrite Forall_forall in Ht.
  split_and!; [done|intros Hc; apply (Ht _ Hc); by left|].
  intros Hc; apply (Ht _ Hc). right. by left.
Qed.

Lemma blank_separate_values_tokens_witness :
  ∃ ps l h', blank_separate_values (Some (bytes " -O2  -g ")) empty_heap
      = (ps ++ [0], Z.of_nat (length l), h')
    ∧ ps = seqZ 1 (Z.of_nat (length l))
    ∧ strings empty_heap ⊆ strings h' ∧ Forall2 (λ p s, strings h' !! p = Some s) ps l
    ∧ Forall (λ t, t ≠ [] ∧ 32 ∉ t ∧ 9 ∉ t) l
    ∧ concat l = filter (λ c, c ∉ [32; 9]) (bytes " -O2  -g ").
Proof.
  apply (blank_separate_values_tokens (Some (bytes " -O2  -g ")) empty_heap).
  intros p s Hp. simpl in Hp. by rewrite lookup_empty in Hp.
Defined.

(** The text that lists the strings separated by a character. *)
Fixpoint join (d : Z) (l : list cstr) : cstr :=
  match l with
  | [] => []
  | [s] => s
  | s :: l' => s ++ d :: join d l'
  end.

Lemma strtok_all_token delim t s : ∀ current,
  Forall (λ c, c ∉ delim) t →
  strtok_all delim current (t ++ s) = strtok_all delim (rev t ++ current) s.
Proof.
  induction t as [|c t IH]; intros current Ht; [done|].
  apply Forall_cons in Ht as [Hc Ht]. simpl. rewrite decide_False by done.
  rewrite IH by done. by rewrite <-app_assoc.
Qed.

Lemma rev_nonempty (t : cstr) : t ≠ [] → ∃ c r, rev t = c :: r.
Proof.
  destruct t as [|c t]; [done|]. intros _. simpl.
  destruct (rev t) as [|c' r]; simpl; eauto.
Qed.

Lemma strtok_all_join d l :
  Forall (λ t, t ≠ [] ∧ d ∉ t) l → strtok_all [d] [] (join d l) = l.
Proof.
  induction 1 as [|t l [Hne Ht] Hl IH]; [done|].
  assert (Forall (λ c, c ∉ [d]) t) as Ht'.
  { rewrite Forall_forall. intros c Hc Hin%list_elem_of_singleton. by subst c. }
  assert (∀ s, strtok_all [d] [] (t ++ d :: s) = t :: strtok_all [d] [] s) as Hd.
  { intros s. rewrite strtok_all_token, app_nil_r by done. simpl.
    rewrite decide_True by (by apply list_elem_of_singleton).
    destruct (rev_nonempty t Hne) as (c & r & Hr). rewrite Hr, <-Hr. by rewrite rev_involutive. }
  destruct l as [|t2 l].
  - simpl. rewrite <-(app_nil_r t) at 1. rewrite strtok_all_token, app_nil_r by done. simpl.
    destruct (rev_nonempty t Hne) as (c & r & Hr). rewrite Hr, <-Hr. by rewrite rev_involutive.
  - change (join d (t :: t2 :: l)) with (t ++ d :: join d (t2 :: l)). by rewrite Hd, IH.
Qed.

(** Splitting a comma-separated list of non-empty values without commas
    gives the unique strings of the values back, in order and counted. *)
Theorem comma_separate_values_roundtrip {St} `{InternerOk St} (st : St) l :
  interner_inv st → Forall (λ t, t ≠ [] ∧ 44 ∉ t) l → Forall cstring l →
  ∃ ps st', comma_separate_values (Some (join 44 l)) st
      = Ret (ps ++ [0], Z.of_nat (length l), st')
    ∧ interner_inv st'
    ∧ Forall2 (λ p s, strings (interner_heap st') !! p = Some s) ps l.
Proof.
  intros Hi Hl Hs. unfold comma_separate_values, tokens. rewrite strtok_all_join by done.
  destruct (Canonical.run_spec (Some <$> l) st Hi) as (ps & st' & -> & Hi' & _ & Hps).
  { by apply Forall_fmap. }
  rewrite bind_ret. apply Forall2_flip in Hps.
  assert (Forall2 (λ p s, strings (interner_heap st') !! p = Some s) ps l) as Hall.
  { clear -Hps. remember (Some <$> l) as m eqn:Hm. revert l Hm.
    induction Hps as [|p c ps m Hp _ IH]; intros [|s l] [=]; subst; constructor; auto. }
  exists ps, st'. split_and!; [by rewrite (Forall2_length _ _ _ Hall)|done|done].
Qed.

Lemma comma_separate_values_roundtrip_witness :
  ∃ ps st', comma_separate_values (St := CharHash.state) (Some (bytes "gcc,g++,gfortran"))
      interner_init = Ret (ps ++ [0], 3, st')
    ∧ interner_inv st'
    ∧ Forall2 (λ p s, strings (interner_heap st') !! p = Some s) ps
        [bytes "gcc"; bytes "g++"; bytes "gfortran"].
Proof.
  apply (comma_separate_values_roundtrip (St := CharHash.state) interner_init
           [bytes "gcc"; bytes "g++"; bytes "gfortran"]).
  - exact (proj1 inv_init).
  - apply (bool_decide_unpack _). vm_compute. exact I.
  - repeat constructor.
Defined.

(** * Prefixes *)

Lemma strncmp_prefix p s :
  Forall (λ c, 0 < c) p → strncmp (length p) p s = 0 ↔ ∃ r, s = p ++ r.
Proof.
  intros Hp. revert s. induction Hp as [|x p Hx _ IH]; intros s; simpl.
  - split; [by exists s|done].
  - destruct s as [|y s]; [split; [lia|by intros [r ?]]|].
    destruct (Z.eqb_spec x y) as [->|Hne].
    + rewrite IH. split; intros [r Hr]; exists r; congruence.
    + split; [lia|]. intros [r Hr]. congruence.
Qed.

(** [has_prefix] gives the rest of a string exactly when the string starts
    with the prefix. *)
Theorem has_prefix_spec prefix s r :
  Forall (λ c, 0 < c) prefix → has_prefix prefix s = Some r ↔ s = prefix ++ r.
Proof.
  intros Hp. unfold has_prefix. pose proof (strncmp_prefix prefix s Hp) as Hs.
  destruct (Z.eqb_spec (strncmp (length prefix) prefix s) 0) as [H0|H0].
  - apply Hs in H0 as [r' ->]. rewrite drop_app_length. split; [by intros [= ->]|].
    intros Heq%app_inv_head. by subst.
  - split; [done|]. intros ->. destruct H0. apply Hs. by exists r.
Qed.

Lemma has_prefix_spec_witness :
  has_prefix (bytes "nanos_") (bytes "nanos_malloc") = Some (bytes "malloc").
Proof.
  apply (has_prefix_spec (bytes "nanos_") (bytes "nanos_malloc") (bytes "malloc")).
  - repeat constructor.
  - reflexivity.
Defined.

(** * Concatenation through the table of unique strings *)

Section unique.
Context {St} `{InternerOk St}.

Lemma cstring_app o a : cstring o → cstring a → cstring (o ++ a).
Proof. intros. by apply Forall_app. Qed.

Lemma concat_strings_cstring c :
  Forall Canonical.argument c → cstring (concat_strings c).
Proof.
  unfold concat_strings. induction 1 as [|[s|] c Hs _ IH]; simpl; [constructor| |done].
  by apply cstring_app.
Qed.

(** [strappend] and [strprepend] return the unique address of the
    concatenation, so equal concatenations have the same address; a null
    argument is undefined. *)
Theorem strappend_unique st o a o' a' :
  interner_inv st → cstring o → cstring a → cstring o' → cstring a' →
  Z.of_nat (length o) + Z.of_nat (length a) + 1 < 2 ^ 31 →
  Z.of_nat (length o') + Z.of_nat (length a') + 1 < 2 ^ 31 →
  ∃ p st1 q st2, strappend (Some o) (Some a) st = Ret (p, st1)
    ∧ strprepend (Some a') (Some o') st1 = Ret (q, st2)
    ∧ strings (interner_heap st2) !! p = Some (o ++ a)
    ∧ strings (interner_heap st2) !! q = Some (o' ++ a')
    ∧ (p = q ↔ o ++ a = o' ++ a').
Proof.
  intros Hi Ho Ha Ho' Ha' Hl Hl'. unfold strprepend, strappend.
  rewrite !(proj2 (Z.leb_gt _ _)) by done.
  destruct (uniquestr_denotes st (o ++ a) Hi (cstring_app _ _ Ho Ha))
    as (p & st1 & -> & Hi1 & Hp & _).
  destruct (uniquestr_denotes st1 (o' ++ a') Hi1 (cstring_app _ _ Ho' Ha'))
    as (q & st2 & Hq2 & Hi2 & Hq & Hsub).
  assert (strings (interner_heap st2) !! p = Some (o ++ a)) as Hp2 by (by eapply lookup_weaken).
  exists p, st1, q, st2. repeat (split; [done|]).
  destruct (inv_heap st2 Hi2) as (_ & Hinj & _).
  split; [intros ->; congruence|]. intros Heq. rewrite Heq in Hp2. by apply (Hinj p q (o' ++ a')).
Qed.

(** [strconcat_n] of three strings or more returns the concatenation
    without its last byte. *)
Theorem strconcat_n_drops_last_byte st c s :
  interner_inv st → (3 ≤ length c)%nat → Forall Canonical.argument (snd <$> c) →
  concat_strings (snd <$> c) = s → 0 < Z.of_nat (length s) < 2 ^ 32 →
  ∃ p st', strconcat_n c st = Ret (p, st')
    ∧ strings (interner_heap st') !! p = Some (take (length s - 1) s).
Proof.
  intros Hi Hc Ha Hs Hl.
  assert (cstring (take (length s - 1) s)) as Hcs.
  { apply Forall_take. rewrite <-Hs. by apply concat_strings_cstring. }
  destruct (uniquestr_denotes st _ Hi Hcs) as (p & st' & Hu & _ & Hp & _).
  exists p, st'. split; [|done].
  destruct c as [|[a0 c0] [|[a1 c1] [|x2 c]]]; simpl in Hc; try lia.
  unfold strconcat_n. rewrite Hs, (proj2 (Z.leb_gt _ _)), (proj2 (Z.eqb_neq _ 0)) by lia.
  by replace (Z.to_nat (Z.of_nat (length s) - 1)) with (length s - 1)%nat by lia.
Qed.

(** [get_unique_name] gives the same name at every call. *)
Theorem get_unique_name_repeats st :
  interner_inv st →
  ∃ p st1 st2, get_unique_name st = Ret (p, st1) ∧ get_unique_name st1 = Ret (p, st2)
    ∧ strings (interner_heap st2) !! p = Some (bytes "$.anon00100").
Proof.
  intros Hi. assert (anon_name 100 = bytes "$.anon00100") as Hn by reflexivity.
  assert (cstring (bytes "$.anon00100")) as Hc by (repeat constructor).
  unfold get_unique_name. rewrite Hn.
  destruct (uniquestr_denotes st _ Hi Hc) as (p & st1 & -> & Hi1 & Hp & _).
  destruct (uniquestr_denotes st1 _ Hi1 Hc) as (q & st2 & Hq2 & Hi2 & Hq & Hsub).
  destruct (inv_heap st2 Hi2) as (_ & Hinj & _).
  assert (p = q) as -> by (eapply Hinj; [by eapply lookup_weaken|done]).
  by exists q, st1, st2.
Qed.
End unique.

Lemma strappend_unique_witness :
  ∃ p st1 q st2,
    strappend (St := CharHash.state) (Some (bytes "ab")) (Some (bytes "c")) interner_init = Ret (p, st1)
    ∧ strprepend (Some (bytes "bc")) (Some (bytes "a")) st1 = Ret (q, st2)
    ∧ strings (interner_heap st2) !! p = Some (bytes "ab" ++ bytes "c")
    ∧ strings (interner_heap st2) !! q = Some (bytes "a" ++ bytes "bc")
    ∧ (p = q ↔ bytes "ab" ++ bytes "c" = bytes "a" ++ bytes "bc").
Proof.
  apply (strappend_unique (St := CharHash.state) interner_init
           (bytes "ab") (bytes "c") (bytes "a") (bytes "bc")).
  - exact (proj1 inv_init).
  - repeat constructor.
  - repeat constructor.
  - repeat constructor.
  - repeat constructor.
  - reflexivity.
  - reflexivity.
Defined.

Lemma strconcat_n_drops_last_byte_witness :
  ∃ p st', strconcat_n (St := CharHash.state)
      [(1, Some (bytes "a")); (2, Some (bytes "b")); (3, Some (bytes "cd"))] interner_init
      = Ret (p, st')
    ∧ strings (interner_heap st') !! p = Some (bytes "abc").
Proof.
  apply (strconcat_n_drops_last_byte (St := CharHash.state) interner_init
           [(1, Some (bytes "a")); (2, Some (bytes "b")); (3, Some (bytes "cd"))] (bytes "abcd")).
  - exact (proj1 inv_init).
  - simpl. lia.
  - repeat constructor.
  - reflexivity.
  - simpl. lia.
Defined.

Lemma get_unique_name_repeats_witness :
  ∃ p st1 st2, get_unique_name (St := CharHash.state) interner_init = Ret (p, st1)
    ∧ get_unique_name st1 = Ret (p, st2)
    ∧ strings (interner_heap st2) !! p = Some (bytes "$.anon00100").
Proof.
  apply (get_unique_name_repeats (St := CharHash.state) interner_init).
  exact (proj1 inv_init).
Defined.
