(* ===== verification/Heap.v ===== *)
(** * Memory with structures that point to each other

    A store from addresses to structures, the state-and-error monad of the code
    that loads, stores, allocates and frees them, and a total-correctness
    separation logic for it: [wp] over Iris's ghost maps, whose points-to
    assertions say that distinct structures do not alias.  [wp_adequacy] turns
    a proof in the logic into a statement about the run of the code. *)

From iris.proofmode Require Export proofmode environments.
From iris.base_logic.lib Require Export ghost_map.
From S2P Require Import Prelude.

(** ** The monad *)

Definition M (V A : Type) : Type := gmap Z V → res (A * gmap Z V).

#[export] Instance M_ret {V} : MRet (M V) := λ A a m, Ret (a, m).
#[export] Instance M_bind {V} : MBind (M V) := λ A B f c m, '(a, m') ← c m; f a m'.

(** [p->f] *)
Definition ld {V A} (f : V → A) (p : Z) : M V A := λ m, v ← get (m !! p); Ret (f v, m).

(** [p->f = e], as an update of the structure at [p] *)
Definition st {V} (f : V → V) (p : Z) : M V unit :=
  λ m, v ← get (m !! p); Ret (tt, <[p := f v]> m).

(** [NEW(type)]: the first address above all those in use, which is not null. *)
Definition fresh_address {V} (m : gmap Z V) : Z :=
  map_fold (λ p _ a, Z.max (p + 1) a) 1 m.

Definition new {V} (v : V) : M V Z :=
  λ m, Ret (fresh_address m, <[fresh_address m := v]> m).

(** [xfree(p)] *)
Definition xfree {V} (p : Z) : M V unit := λ m, _ ← get (m !! p); Ret (tt, delete p m).

Definition no_fuel {V A} : M V A := λ m, Err NoFuel.

Lemma fresh_address_above {V} (m : gmap Z V) :
  0 < fresh_address m ∧ ∀ p, is_Some (m !! p) → p < fresh_address m.
Proof.
  unfold fresh_address. apply (map_fold_weak_ind
    (λ a (m : gmap Z V), 0 < a ∧ ∀ p, is_Some (m !! p) → p < a)).
  - split; [done|]. intros p Hp. rewrite lookup_empty in Hp. by destruct Hp.
  - intros i v m' a Hi [Ha Hm]. split; [lia|]. intros p Hp.
    destruct (decide (i = p)) as [->|Hne]; [lia|].
    rewrite ->lookup_insert_ne in Hp by done. specialize (Hm p Hp). lia.
Qed.

Lemma fresh_address_fresh {V} (m : gmap Z V) : m !! fresh_address m = None.
Proof.
  destruct (fresh_address_above m) as [_ H]. apply eq_None_not_Some. intros Hs.
  specialize (H _ Hs). lia.
Qed.

(** ** The logic *)

Section logic.
Context {V : Type} `{!ghost_mapG Σ Z V} (γ : gname).

Definition wp {A} (c : M V A) (Φ : A → iProp Σ) : iProp Σ :=
  ∀ m, ghost_map_auth γ 1 m ==∗
    ∃ a m', ⌜c m = Ret (a, m')⌝ ∗ ghost_map_auth γ 1 m' ∗ Φ a.

Lemma wp_ret {A} (a : A) Φ : Φ a ⊢ wp (mret a) Φ.
Proof. iIntros "H" (m) "Hm !>". iExists a, m. by iFrame. Qed.

Lemma wp_bind {A B} (c : M V A) (k : A → M V B) Φ :
  wp c (λ a, wp (k a) Φ) ⊢ wp (c ≫= k) Φ.
Proof.
  iIntros "H" (m) "Hm". iMod ("H" with "Hm") as (a m1) "(%H1 & Hm & H)".
  iMod ("H" with "Hm") as (b m2) "(%H2 & Hm & H)". iModIntro.
  iExists b, m2. iFrame. iPureIntro. unfold mbind, M_bind. by rewrite H1.
Qed.

Lemma wp_wand {A} (c : M V A) Φ Ψ : wp c Φ -∗ (∀ a, Φ a -∗ Ψ a) -∗ wp c Ψ.
Proof.
  iIntros "H HΦ" (m) "Hm". iMod ("H" with "Hm") as (a m') "(%H & Hm & H)".
  iModIntro. iExists a, m'. iFrame. iSplit; [done|]. by iApply "HΦ".
Qed.

Lemma wp_ld {A} (f : V → A) p v Φ : p ↪[γ] v -∗ (p ↪[γ] v -∗ Φ (f v)) -∗ wp (ld f p) Φ.
Proof.
  iIntros "Hp H" (m) "Hm". iDestruct (ghost_map_lookup with "Hm Hp") as %Hl.
  iModIntro. iExists (f v), m. iFrame. iSplit; [|by iApply "H"].
  iPureIntro. unfold ld. by rewrite Hl.
Qed.

Lemma wp_st (f : V → V) p v Φ : p ↪[γ] v -∗ (p ↪[γ] f v -∗ Φ tt) -∗ wp (st f p) Φ.
Proof.
  iIntros "Hp H" (m) "Hm". iDestruct (ghost_map_lookup with "Hm Hp") as %Hl.
  iMod (ghost_map_update (f v) with "Hm Hp") as "[Hm Hp]". iModIntro.
  iExists tt, (<[p := f v]> m). iFrame. iSplit; [|by iApply "H"].
  iPureIntro. unfold st. by rewrite Hl.
Qed.

Lemma wp_new v Φ : (∀ p, ⌜0 < p⌝ -∗ p ↪[γ] v -∗ Φ p) -∗ wp (new v) Φ.
Proof.
  iIntros "H" (m) "Hm".
  iMod (ghost_map_insert (fresh_address m) v with "Hm") as "[Hm Hp]";
    [apply fresh_address_fresh|].
  iModIntro. iExists (fresh_address m), _. iFrame "Hm". iSplit; [done|].
  iApply ("H" with "[%] Hp"). exact (proj1 (fresh_address_above m)).
Qed.

Lemma wp_xfree p v Φ : p ↪[γ] v -∗ Φ tt -∗ wp (xfree p) Φ.
Proof.
  iIntros "Hp H" (m) "Hm". iDestruct (ghost_map_lookup with "Hm Hp") as %Hl.
  iMod (ghost_map_delete with "Hm Hp") as "Hm". iModIntro.
  iExists tt, (delete p m). iFrame. iPureIntro. unfold xfree. by rewrite Hl.
Qed.

Lemma wp_ld_bind {A B} (f : V → A) p v (k : A → M V B) Φ :
  p ↪[γ] v -∗ (p ↪[γ] v -∗ wp (k (f v)) Φ) -∗ wp (ld f p ≫= k) Φ.
Proof. iIntros "Hp H". iApply wp_bind. iApply (wp_ld with "Hp"). iExact "H". Qed.

Lemma wp_st_bind {B} (f : V → V) p v (k : unit → M V B) Φ :
  p ↪[γ] v -∗ (p ↪[γ] f v -∗ wp (k tt) Φ) -∗ wp (st f p ≫= k) Φ.
Proof. iIntros "Hp H". iApply wp_bind. iApply (wp_st with "Hp"). iExact "H". Qed.

Lemma wp_ret_bind {A B} (a : A) (k : A → M V B) Φ : wp (k a) Φ ⊢ wp (mret a ≫= k) Φ.
Proof. iIntros "H". iApply wp_bind. by iApply wp_ret. Qed.

Lemma wp_bind_assoc {A B C} (c : M V A) (k : A → M V B) (k' : B → M V C) Φ :
  wp (c ≫= λ a, k a ≫= k') Φ ⊢ wp ((c ≫= k) ≫= k') Φ.
Proof.
  iIntros "H" (m) "Hm". iMod ("H" with "Hm") as (a m') "(%H & Hm & H)".
  iModIntro. iExists a, m'. iFrame. iPureIntro. rewrite <-H.
  unfold mbind, M_bind, res_bind. by destruct (c m) as [[? ?]|].
Qed.

Lemma points_to_ne p q v w : p ↪[γ] v -∗ q ↪[γ] w -∗ ⌜p ≠ q⌝.
Proof. iIntros "Hp Hq". iApply (ghost_map_elem_ne with "Hp Hq"). Qed.
End logic.

(** A proof in the logic from an empty memory is a terminating run without
    undefined behaviour; what its postcondition says of the memory holds at the
    end. *)
Lemma wp_adequacy_mem {V A} (c : M V A) (φ : A → gmap Z V → Prop) :
  (∀ Σ `{!ghost_mapG Σ Z V} γ,
     ⊢ wp (Σ := Σ) γ c (λ a, ∀ m, ghost_map_auth γ 1 m -∗ ⌜φ a m⌝)) →
  ∃ a m, c ∅ = Ret (a, m) ∧ φ a m.
Proof.
  intros H. apply (pure_soundness (PROP := iProp #[ghost_mapΣ Z V])).
  iMod (ghost_map_alloc_empty (K := Z) (V := V)) as (γ) "Hm".
  iMod (H #[ghost_mapΣ Z V] _ γ with "Hm") as (a m) "(%Hc & Hm & Ha)".
  iDestruct ("Ha" with "Hm") as %Ha. iPureIntro. by exists a, m.
Qed.

Lemma wp_adequacy {V A} (c : M V A) (φ : A → Prop) :
  (∀ Σ `{!ghost_mapG Σ Z V} γ, ⊢ wp (Σ := Σ) γ c (λ a, ⌜φ a⌝)) →
  ∃ a m, c ∅ = Ret (a, m) ∧ φ a.
Proof.
  intros H. apply (wp_adequacy_mem c (λ a _, φ a)). iIntros (Σ HΣ γ).
  iApply wp_wand; [iApply (H Σ HΣ γ)|]. by iIntros (a) "% %m _".
Qed.

(** ** Tactics

    One step of the code at the head of the goal: loads and stores find the
    points-to assertion of their address in the context. *)
Ltac points_to_hyp p tac :=
  match goal with
  | |- context [Esnoc _ ?H (ghost_map_elem _ p _ _)] => tac H
  end.

Ltac wstep :=
  lazymatch goal with
  | |- envs_entails _ (wp _ ((_ ≫= _) ≫= _) _) => iApply wp_bind_assoc
  | |- envs_entails _ (wp _ (mret _ ≫= _) _) => iApply wp_ret_bind
  | |- envs_entails _ (wp _ (ld _ ?p ≫= _) _) =>
      points_to_hyp p ltac:(fun H => iApply (wp_ld_bind with H); iIntros H)
  | |- envs_entails _ (wp _ (st _ ?p ≫= _) _) =>
      points_to_hyp p ltac:(fun H => iApply (wp_st_bind with H); iIntros H)
  | |- envs_entails _ (wp _ (ld _ ?p) _) =>
      points_to_hyp p ltac:(fun H => iApply (wp_ld with H); iIntros H)
  | |- envs_entails _ (wp _ (st _ ?p) _) =>
      points_to_hyp p ltac:(fun H => iApply (wp_st with H); iIntros H)
  | |- envs_entails _ (wp _ (mret _) _) => iApply wp_ret
  end; cbn beta iota.

Ltac wsteps := repeat wstep.
