(* ===== verification/RbTree.v ===== *)
(** * Red-black trees: [lib/red_black_tree.c]

    The trees of the compiler's symbol maps: nodes with parent pointers in a
    memory, two sentinels ([root], whose left child is the tree, and [nil]), the
    rotations, insertion and deletion with their rebalancing, the search, the
    walk in order and the release of the nodes.  The functions follow the code
    store by store in the monad of [Heap].  A loop takes the number of its
    iterations as fuel; the theorems show that a logarithm of the number of
    nodes is enough.  [red] is 0 or 1 in the code, a boolean here.  The
    comparison function of a tree is the class [KeyOrder]. *)

From S2P Require Import Prelude Heap.
#[local] Open Scope Z_scope.

Record rb_node := RbNode {
  key : Z; info : Z; red : bool; left : Z; right : Z; parent : Z }.

Definition set_key v n := RbNode v (info n) (red n) (left n) (right n) (parent n).
Definition set_info v n := RbNode (key n) v (red n) (left n) (right n) (parent n).
Definition set_red v n := RbNode (key n) (info n) v (left n) (right n) (parent n).
Definition set_left v n := RbNode (key n) (info n) (red n) v (right n) (parent n).
Definition set_right v n := RbNode (key n) (info n) (red n) (left n) v (parent n).
Definition set_parent v n := RbNode (key n) (info n) (red n) (left n) (right n) v.

(** The functions of the tree are those of [KeyOrder]; the fields [root] and
    [nil] do not change after the creation. *)
Record rb_tree := RbTree { root : Z; nil : Z }.

Class KeyOrder := { comp_func : Z → Z → Z }.

(** The calls of [key_dtor_func] and [info_dtor_func]. *)
Inductive dtor_call := KeyDtor (key : Z) | InfoDtor (info : Z).

Section code.
Context `{KeyOrder}.
Notation M := (Heap.M rb_node).

(** The contents of the memory that [malloc] returns. *)
Context (junk : rb_node).

Definition rb_tree_create : M rb_tree :=
  nil ← new junk;
  st (set_right nil) nil;; st (set_left nil) nil;; st (set_parent nil) nil;;
  st (set_red false) nil;; st (set_key 0) nil;;
  root ← new junk;
  st (set_right nil) root;; st (set_left nil) root;; st (set_parent nil) root;;
  st (set_key 0) root;; st (set_red false) root;;
  mret (RbTree root nil).

Context (tree : rb_tree).

(** [if (x == x->parent->left) x->parent->left = y; else x->parent->right = y;] *)
Definition replace_child (x y : Z) : M unit :=
  p ← ld parent x; pl ← ld left p;
  if decide (x = pl)
  then p ← ld parent x; st (set_left y) p
  else p ← ld parent x; st (set_right y) p.

Definition LeftRotate (x : Z) : M unit :=
  y ← ld right x;
  yl ← ld left y; st (set_right yl) x;;
  yl ← ld left y;
  (if decide (yl = nil tree) then mret tt
   else yl ← ld left y; st (set_parent x) yl);;
  xp ← ld parent x; st (set_parent xp) y;;
  replace_child x y;;
  st (set_left x) y;;
  st (set_parent y) x.

Definition RightRotate (y : Z) : M unit :=
  x ← ld left y;
  xr ← ld right x; st (set_left xr) y;;
  xr ← ld right x;
  (if decide (nil tree = xr) then mret tt
   else xr ← ld right x; st (set_parent y) xr);;
  yp ← ld parent y; st (set_parent yp) x;;
  replace_child y x;;
  st (set_right y) x;;
  st (set_parent x) y.

(** ** Search *)

Fixpoint query_loop (fuel : nat) (q x compVal : Z) : M Z :=
  match fuel with
  | O => no_fuel
  | S fuel' =>
      if compVal =? 0 then mret x else
      x ← (if 0 <? compVal then ld left x else ld right x);
      if decide (x = nil tree) then mret 0
      else kx ← ld key x; query_loop fuel' q x (comp_func kx q)
  end.

Definition rb_tree_query (fuel : nat) (q : Z) : M Z :=
  x ← ld left (root tree);
  if decide (x = nil tree) then mret 0
  else kx ← ld key x; query_loop fuel q x (comp_func kx q).

(** ** Insertion *)

Fixpoint insert_descend (fuel : nat) (z y x : Z) : M Z :=
  match fuel with
  | O => no_fuel
  | S fuel' =>
      if decide (x = nil tree) then mret y else
      kx ← ld key x; kz ← ld key z;
      if 0 <? comp_func kx kz
      then xl ← ld left x; insert_descend fuel' z x xl
      else xr ← ld right x; insert_descend fuel' z x xr
  end.

Definition TreeInsertHelp (fuel : nat) (z : Z) : M unit :=
  st (set_right (nil tree)) z;; st (set_left (nil tree)) z;;
  x ← ld left (root tree);
  y ← insert_descend fuel z (root tree) x;
  st (set_parent y) z;;
  at_left ← (if decide (y = root tree) then mret true
             else ky ← ld key y; kz ← ld key z; mret (0 <? comp_func ky kz));
  if (at_left : bool) then st (set_left z) y else st (set_right z) y.

Definition grandparent (x : Z) : M Z := p ← ld parent x; ld parent p.

(** The body of the loop of [rb_tree_add]; the result is the next [x]. *)
Definition insert_step (x : Z) : M Z :=
  p ← ld parent x; g ← grandparent x; gl ← ld left g;
  if decide (p = gl) then
    g ← grandparent x; y ← ld right g;
    yred ← ld red y;
    if (yred : bool) then
      p ← ld parent x; st (set_red false) p;;
      st (set_red false) y;;
      g ← grandparent x; st (set_red true) g;;
      grandparent x
    else
      p ← ld parent x; pr ← ld right p;
      x ← (if decide (x = pr) then x ← ld parent x; LeftRotate x;; mret x else mret x);
      p ← ld parent x; st (set_red false) p;;
      g ← grandparent x; st (set_red true) g;;
      g ← grandparent x; RightRotate g;;
      mret x
  else
    g ← grandparent x; y ← ld left g;
    yred ← ld red y;
    if (yred : bool) then
      p ← ld parent x; st (set_red false) p;;
      st (set_red false) y;;
      g ← grandparent x; st (set_red true) g;;
      grandparent x
    else
      p ← ld parent x; pl ← ld left p;
      x ← (if decide (x = pl) then x ← ld parent x; RightRotate x;; mret x else mret x);
      p ← ld parent x; st (set_red false) p;;
      g ← grandparent x; st (set_red true) g;;
      g ← grandparent x; LeftRotate g;;
      mret x.

Fixpoint insert_loop (fuel : nat) (x : Z) : M unit :=
  match fuel with
  | O => no_fuel
  | S fuel' =>
      p ← ld parent x; pred ← ld red p;
      if (pred : bool) then x ← insert_step x; insert_loop fuel' x else mret tt
  end.

Definition rb_tree_add (fuel : nat) (k i : Z) : M Z :=
  x ← new junk;
  st (set_key k) x;; st (set_info i) x;;
  TreeInsertHelp fuel x;;
  st (set_red true) x;;
  insert_loop fuel x;;
  rl ← ld left (root tree); st (set_red false) rl;;
  mret x.

Definition rb_tree_insert (fuel : nat) (k i : Z) : M Z :=
  node ← rb_tree_query fuel k;
  if negb (node =? 0) then st (set_info i) node;; mret node
  else rb_tree_add fuel k i.

(** ** Deletion *)

Fixpoint leftmost (fuel : nat) (y : Z) : M Z :=
  match fuel with
  | O => no_fuel
  | S fuel' =>
      yl ← ld left y;
      if decide (yl = nil tree) then mret y else yl ← ld left y; leftmost fuel' yl
  end.

Fixpoint climb (fuel : nat) (x y : Z) : M Z :=
  match fuel with
  | O => no_fuel
  | S fuel' =>
      yr ← ld right y;
      if decide (x = yr) then y' ← ld parent y; climb fuel' y y' else mret y
  end.

Definition rb_tree_successor (fuel : nat) (x : Z) : M Z :=
  y ← ld right x;
  if decide (nil tree = y)
  then
    y ← ld parent x; y ← climb fuel x y;
    mret (if decide (y = root tree) then nil tree else y)
  else leftmost fuel y.

(** [x] is a left child: the sibling is made black, ... *)
Definition delete_sibling_left (x : Z) : M Z :=
  p ← ld parent x; w ← ld right p;
  wred ← ld red w;
  if (wred : bool) then
    st (set_red false) w;;
    p ← ld parent x; st (set_red true) p;;
    p ← ld parent x; LeftRotate p;;
    p ← ld parent x; ld right p
  else mret w.

(** ... its outer child red, ... *)
Definition delete_outer_left (x w : Z) : M Z :=
  wr ← ld right w; outer ← ld red wr;
  if negb outer then
    wl ← ld left w; st (set_red false) wl;;
    st (set_red true) w;;
    RightRotate w;;
    p ← ld parent x; ld right p
  else mret w.

(** ... and the rotation of the parent ends the loop. *)
Definition delete_turn_left (root x w : Z) : M Z :=
  p ← ld parent x; pred ← ld red p; st (set_red pred) w;;
  p ← ld parent x; st (set_red false) p;;
  wr ← ld right w; st (set_red false) wr;;
  p ← ld parent x; LeftRotate p;;
  mret root.

(** [x] is a right child: the sibling is made black, ... *)
Definition delete_sibling_right (x : Z) : M Z :=
  p ← ld parent x; w ← ld left p;
  wred ← ld red w;
  if (wred : bool) then
    st (set_red false) w;;
    p ← ld parent x; st (set_red true) p;;
    p ← ld parent x; RightRotate p;;
    p ← ld parent x; ld left p
  else mret w.

(** ... its outer child red, ... *)
Definition delete_outer_right (x w : Z) : M Z :=
  wl ← ld left w; outer ← ld red wl;
  if negb outer then
    wr ← ld right w; st (set_red false) wr;;
    st (set_red true) w;;
    LeftRotate w;;
    p ← ld parent x; ld left p
  else mret w.

(** ... and the rotation of the parent ends the loop. *)
Definition delete_turn_right (root x w : Z) : M Z :=
  p ← ld parent x; pred ← ld red p; st (set_red pred) w;;
  p ← ld parent x; st (set_red false) p;;
  wl ← ld left w; st (set_red false) wl;;
  p ← ld parent x; RightRotate p;;
  mret root.

(** [(!w->right->red) && (!w->left->red)] *)
Definition both_black (w : Z) : M bool :=
  wr ← ld right w; wrred ← ld red wr;
  if negb wrred then wl ← ld left w; wlred ← ld red wl; mret (negb wlred)
  else mret false.

(** The body of the loop of [RBDeleteFixUp], where [root] is the tree's root at
    its start; the result is the next [x]. *)
Definition delete_step (root x : Z) : M Z :=
  p ← ld parent x; pl ← ld left p;
  if decide (x = pl) then
    w ← delete_sibling_left x;
    both ← both_black w;
    if (both : bool) then st (set_red true) w;; ld parent x
    else w ← delete_outer_left x w; delete_turn_left root x w
  else
    w ← delete_sibling_right x;
    both ← both_black w;
    if (both : bool) then st (set_red true) w;; ld parent x
    else w ← delete_outer_right x w; delete_turn_right root x w.

Fixpoint delete_loop (fuel : nat) (root x : Z) : M Z :=
  match fuel with
  | O => no_fuel
  | S fuel' =>
      xred ← ld red x;
      if negb xred && bool_decide (root ≠ x)
      then x ← delete_step root x; delete_loop fuel' root x
      else mret x
  end.

Definition RBDeleteFixUp (fuel : nat) (x : Z) : M unit :=
  root ← ld left (root tree);
  x ← delete_loop fuel root x;
  st (set_red false) x.

(** [x->parent = y->parent] and the link from the parent of [y] to [x]. *)
Definition splice_out (y x : Z) : M unit :=
  yp ← ld parent y; st (set_parent yp) x;;
  if decide (root tree = yp) then st (set_left x) (root tree) else replace_child y x.

(** [y] takes the place of [z], which is released. *)
Definition replace_node (z y : Z) : M (list dtor_call) :=
  k ← ld key z; i ← ld info z;
  zl ← ld left z; st (set_left zl) y;;
  zr ← ld right z; st (set_right zr) y;;
  zp ← ld parent z; st (set_parent zp) y;;
  zred ← ld red z; st (set_red zred) y;;
  zr ← ld right z; st (set_parent y) zr;;
  zl ← ld left z; st (set_parent y) zl;;
  replace_child z y;;
  xfree z;;
  mret [KeyDtor k; InfoDtor i].

(** The result lists the calls of the destructors. *)
Definition rb_tree_delete (fuel : nat) (z : Z) : M (list dtor_call) :=
  zl ← ld left z; zr ← ld right z;
  y ← (if decide (zl = nil tree) then mret z
       else if decide (zr = nil tree) then mret z else rb_tree_successor fuel z);
  yl ← ld left y;
  x ← (if decide (yl = nil tree) then ld right y else ld left y);
  splice_out y x;;
  if decide (y = z) then
    k ← ld key y; i ← ld info y;
    yred ← ld red y;
    (if negb yred then RBDeleteFixUp fuel x else mret tt);;
    xfree y;;
    mret [KeyDtor k; InfoDtor i]
  else
    yred ← ld red y;
    (if negb yred then RBDeleteFixUp fuel x else mret tt);;
    replace_node z y.

(** ** Traversals *)

Fixpoint TreeDestHelper (fuel : nat) (x : Z) : M (list dtor_call) :=
  match fuel with
  | O => no_fuel
  | S fuel' =>
      if decide (x = nil tree) then mret [] else
      xl ← ld left x; calls1 ← TreeDestHelper fuel' xl;
      xr ← ld right x; calls2 ← TreeDestHelper fuel' xr;
      k ← ld key x; i ← ld info x;
      xfree x;;
      mret (calls1 ++ calls2 ++ [KeyDtor k; InfoDtor i])
  end.

Definition rb_tree_destroy (fuel : nat) : M (list dtor_call) :=
  x ← ld left (root tree);
  calls ← TreeDestHelper fuel x;
  xfree (root tree);; xfree (nil tree);;
  mret calls.

(** [walk_func] acts on [data] and does not touch the tree. *)
Fixpoint InorderTreeWalk {D} (fuel : nat) (walk_func : Z → Z → D → D) (x : Z) (data : D) : M D :=
  match fuel with
  | O => no_fuel
  | S fuel' =>
      if decide (x = nil tree) then mret data else
      xl ← ld left x; data ← InorderTreeWalk fuel' walk_func xl data;
      k ← ld key x; i ← ld info x;
      let data := walk_func k i data in
      xr ← ld right x; InorderTreeWalk fuel' walk_func xr data
  end.

Definition rb_tree_walk {D} (fuel : nat) (walk_func : Z → Z → D → D) (data : D) : M D :=
  x ← ld left (root tree); InorderTreeWalk fuel walk_func x data.

Definition rb_node_get_key (n : Z) : M Z := ld key n.
Definition rb_node_get_info (n : Z) : M Z := ld info n.
End code.

