(* ===== verification/RbShape.v ===== *)
(** * Shapes of red-black trees

    The mathematics behind [RbTree]: binary trees whose nodes carry their
    address, a colour, a key and an info; paths from a node up to the root; the
    colour and height invariant of a tree ([rb]) and of a path that waits for a
    subtree ([rbp]); sequences of entries in key order. *)

From S2P Require Import Prelude RbTree.
#[local] Open Scope Z_scope.

Inductive rbt := Leaf | Node (a : Z) (c : bool) (k v : Z) (l r : rbt).

Inductive dir := Lft | Rgt.

#[export] Instance rbt_eq_dec : EqDecision rbt.
Proof. solve_decision. Defined.

#[export] Instance dir_eq_dec : EqDecision dir.
Proof. solve_decision. Defined.

(** One step of a path: the parent, with the subtree on its other side. *)
Inductive frame := Frame (d : dir) (a : Z) (c : bool) (k v : Z) (s : rbt).

Definition plug1 (t : rbt) (f : frame) : rbt :=
  match f with
  | Frame Lft a c k v s => Node a c k v t s
  | Frame Rgt a c k v s => Node a c k v s t
  end.

(** The whole tree, from the subtree up. *)
Definition plug (π : list frame) (t : rbt) : rbt := foldl plug1 t π.

(** ** Entries in order *)

Definition entry : Type := Z * Z * Z.
Definition e_addr (e : entry) : Z := e.1.1.
Definition e_key (e : entry) : Z := e.1.2.
Definition e_info (e : entry) : Z := e.2.

Fixpoint inorder (t : rbt) : list entry :=
  match t with Leaf => [] | Node a _ k v l r => inorder l ++ (a, k, v) :: inorder r end.

Fixpoint before (π : list frame) : list entry :=
  match π with
  | [] => []
  | Frame Lft _ _ _ _ _ :: π' => before π'
  | Frame Rgt a _ k v s :: π' => before π' ++ inorder s ++ [(a, k, v)]
  end.

Fixpoint after (π : list frame) : list entry :=
  match π with
  | [] => []
  | Frame Lft a _ k v s :: π' => (a, k, v) :: inorder s ++ after π'
  | Frame Rgt _ _ _ _ _ :: π' => after π'
  end.

Lemma inorder_plug π : ∀ t, inorder (plug π t) = before π ++ inorder t ++ after π.
Proof.
  induction π as [|[[] a c k v s] π IH]; intros t; simpl.
  - by rewrite app_nil_r.
  - unfold plug in *. simpl. rewrite IH. simpl. by rewrite <-!app_assoc.
  - unfold plug in *. simpl. rewrite IH. simpl. by rewrite <-!app_assoc.
Qed.

Definition colour (t : rbt) : bool := match t with Leaf => false | Node _ c _ _ _ _ => c end.

Definition paint (c : bool) (t : rbt) : rbt :=
  match t with Leaf => Leaf | Node a _ k v l r => Node a c k v l r end.

Lemma inorder_paint c t : inorder (paint c t) = inorder t.
Proof. by destruct t. Qed.

(** ** The red-black invariant *)

(** No red node has a red child and every path down crosses [n] black nodes. *)
Inductive rb : rbt → bool → nat → Prop :=
| rb_leaf : rb Leaf false 0
| rb_black a k v l r cl cr n :
    rb l cl n → rb r cr n → rb (Node a false k v l r) false (S n)
| rb_red a k v l r n :
    rb l false n → rb r false n → rb (Node a true k v l r) true n.

(** The path completes any tree of [n] black nodes, red only if [c], to a
    red-black tree with a black root. *)
Inductive rbp : list frame → bool → nat → Prop :=
| rbp_nil n : rbp [] false n
| rbp_black d a k v s cs π c n :
    rb s cs n → rbp π false (S n) → rbp (Frame d a false k v s :: π) c n
| rbp_red d a k v s π n :
    rb s false n → rbp π true n → rbp (Frame d a true k v s :: π) false n.

Lemma rb_colour t c n : rb t c n → colour t = c.
Proof. by destruct 1. Qed.

Lemma rbp_weaken π c n : rbp π c n → rbp π false n.
Proof. destruct 1; econstructor; eauto. Qed.

Lemma rb_plug π c n : rbp π c n → ∀ t, rb t c n → ∃ m, rb (plug π t) false m.
Proof.
  induction 1 as [n|d a k v s cs π c n Hs Hp IH|d a k v s π n Hs Hp IH]; intros t Ht;
    [eauto|..].
  - apply (IH (plug1 t (Frame d a false k v s))). destruct d; econstructor; eauto.
  - apply (IH (plug1 t (Frame d a true k v s))). destruct d; by constructor.
Qed.

Lemma rb_plug_black π c n t ct : rbp π c n → rb t ct n → (ct = true → c = true) →
  ∃ m, rb (plug π t) false m.
Proof.
  intros Hp Ht Hc. destruct ct.
  - rewrite Hc in Hp by done. by eapply rb_plug.
  - eapply rb_plug; [by eapply rbp_weaken|done].
Qed.

Lemma rb_blacken t n : rb t true n → rb (paint false t) false (S n).
Proof. inversion 1; subst. by econstructor. Qed.

Lemma rb_paint_root t c n : rb t c n → ∃ m, rb (paint false t) false m.
Proof. destruct 1; simpl; eauto using rb. Qed.

(** ** Height *)

Fixpoint height (t : rbt) : nat :=
  match t with Leaf => 0 | Node _ _ _ _ l r => S (height l `max` height r) end.

Lemma rb_height t c n : rb t c n → (height t ≤ 2 * n + (if c then 1 else 0))%nat.
Proof. induction 1 as [|????? [] [] n|]; simpl in *; lia. Qed.

Lemma rb_size t c n : rb t c n → 2 ^ Z.of_nat n ≤ Z.of_nat (length (inorder t)) + 1.
Proof.
  induction 1 as [|a k v l r cl cr n Hl IHl Hr IHr|a k v l r n Hl IHl Hr IHr];
    cbn [inorder]; [done|..]; rewrite length_app; cbn [length].
  - rewrite Nat2Z.inj_succ, Z.pow_succ_r; lia.
  - lia.
Qed.

(** A logarithmic bound on the height. *)
Lemma rb_height_log t n : rb t false n →
  Z.of_nat (height t) ≤ 2 * Z.log2 (Z.of_nat (length (inorder t)) + 1).
Proof.
  intros Ht. pose proof (rb_height _ _ _ Ht) as Hh. pose proof (rb_size _ _ _ Ht) as Hs.
  apply Z.log2_le_mono in Hs. rewrite Z.log2_pow2 in Hs by lia. simpl in Hh. lia.
Qed.

Lemma height_plug π : ∀ t, (height t + length π ≤ height (plug π t))%nat.
Proof.
  induction π as [|[d a c k v s] π IH]; intros t; simpl; [lia|].
  specialize (IH (plug1 t (Frame d a c k v s))). unfold plug in *. simpl.
  destruct d; simpl in *; lia.
Qed.

(** ** A node of the tree *)

Lemma find_node t a k v :
  (a, k, v) ∈ inorder t → ∃ π c l r, t = plug π (Node a c k v l r).
Proof.
  induction t as [|a' c' k' v' l IHl r IHr]; simpl; [by intros ?%not_elem_of_nil|].
  rewrite elem_of_app, elem_of_cons. intros [Hl|[[= -> -> ->]|Hr]].
  - destruct (IHl Hl) as (π & c & l' & r' & ->).
    exists (π ++ [Frame Lft a' c' k' v' r]), c, l', r'. unfold plug. by rewrite foldl_app.
  - by exists [], c', l, r.
  - destruct (IHr Hr) as (π & c & l' & r' & ->).
    exists (π ++ [Frame Rgt a' c' k' v' l]), c, l', r'. unfold plug. by rewrite foldl_app.
Qed.

(** ** Order *)

(** What the code asks of a comparison function: the sign is that of a total
    order on the keys, up to the equivalence [comp_func a b = 0]. *)
Class KeyOrderOk `{KeyOrder} : Prop := {
  comp_antisym a b : 0 < comp_func a b ↔ comp_func b a < 0;
  comp_trans a b c : comp_func a b ≤ 0 → comp_func b c ≤ 0 → comp_func a c ≤ 0;
}.

Section order.
Context `{KeyOrderOk}.

Definition e_lt (e f : entry) : Prop := comp_func (e_key e) (e_key f) < 0.

Definition sorted (l : list entry) : Prop := StronglySorted e_lt l.

Lemma comp_refl a : comp_func a a = 0.
Proof. pose proof (comp_antisym a a). lia. Qed.

Lemma comp_sym a b : comp_func a b = 0 ↔ comp_func b a = 0.
Proof. pose proof (comp_antisym a b). pose proof (comp_antisym b a). lia. Qed.

Lemma comp_lt_le a b c : comp_func a b < 0 → comp_func b c ≤ 0 → comp_func a c < 0.
Proof.
  intros Hab Hbc. pose proof (comp_trans a b c). pose proof (comp_trans b c a).
  pose proof (comp_antisym a c). pose proof (comp_antisym c a). pose proof (comp_antisym b a). lia.
Qed.

Lemma comp_le_lt a b c : comp_func a b ≤ 0 → comp_func b c < 0 → comp_func a c < 0.
Proof.
  intros Hab Hbc. pose proof (comp_trans a b c). pose proof (comp_trans c a b).
  pose proof (comp_antisym a c). pose proof (comp_antisym c a). pose proof (comp_antisym c b). lia.
Qed.

(** The first entry with the key. *)
Fixpoint entry_find (q : Z) (l : list entry) : option entry :=
  match l with
  | [] => None
  | e :: l' => if comp_func (e_key e) q =? 0 then Some e else entry_find q l'
  end.

Fixpoint entry_insert (e : entry) (l : list entry) : list entry :=
  match l with
  | [] => [e]
  | f :: l' => if 0 <? comp_func (e_key f) (e_key e) then e :: f :: l' else f :: entry_insert e l'
  end.

(** Replace the info of the entry with the key. *)
Definition entry_set (q v : Z) (l : list entry) : list entry :=
  (λ e, if comp_func (e_key e) q =? 0 then (e_addr e, e_key e, v) else e) <$> l.

Definition entry_remove (q : Z) (l : list entry) : list entry :=
  filter (λ e, comp_func (e_key e) q ≠ 0) l.

(** *** Search *)

Lemma entry_find_app q l1 l2 :
  entry_find q (l1 ++ l2) = match entry_find q l1 with Some e => Some e | None => entry_find q l2 end.
Proof. induction l1 as [|e l1 IH]; simpl; [done|]. by destruct (_ =? _). Qed.

Lemma entry_find_None q l : entry_find q l = None ↔ ∀ e, e ∈ l → comp_func (e_key e) q ≠ 0.
Proof.
  induction l as [|e l IH]; simpl.
  - split; [|done]. by intros _ e ?%not_elem_of_nil.
  - destruct (Z.eqb_spec (comp_func (e_key e) q) 0) as [He|He].
    + split; [done|]. intros Hl. destruct (Hl e); [by left|done].
    + rewrite IH. split; intros Hl e' He'.
      * apply elem_of_cons in He' as [->|He']; auto.
      * apply Hl. by right.
Qed.

Lemma entry_find_Some q l e : entry_find q l = Some e → e ∈ l ∧ comp_func (e_key e) q = 0.
Proof.
  induction l as [|e' l IH]; simpl; [done|].
  destruct (Z.eqb_spec (comp_func (e_key e') q) 0) as [He|He].
  - intros [= <-]. split; [by left|done].
  - intros Hl. destruct (IH Hl). split; [by right|done].
Qed.

Lemma sorted_mid l e r : sorted (l ++ e :: r) ↔
  sorted l ∧ sorted r ∧ (∀ x, x ∈ l → e_lt x e) ∧ (∀ x, x ∈ r → e_lt e x)
  ∧ (∀ x y, x ∈ l → y ∈ r → e_lt x y).
Proof.
  unfold sorted. rewrite StronglySorted_app. split.
  - intros (Hlr & Hl & Hr). apply StronglySorted_inv in Hr as [Hr He].
    rewrite Forall_forall in He. split_and!; auto.
    + intros x Hx. apply Hlr; [done|by left].
    + intros x y Hx Hy. apply Hlr; [done|by right].
  - intros (Hl & Hr & Hle & Her & Hlr). split_and!; [|done|].
    + intros x y Hx [->|Hy]%elem_of_cons; auto.
    + constructor; [done|]. by apply Forall_forall.
Qed.

(** Everything on one side of an entry is excluded by a comparison with it. *)
Lemma entry_find_right q l e r :
  sorted (l ++ e :: r) → comp_func (e_key e) q < 0 → entry_find q (l ++ e :: r) = entry_find q r.
Proof.
  intros (_ & _ & Hle & _)%sorted_mid Hq. rewrite entry_find_app. simpl.
  rewrite (proj2 (entry_find_None q l)).
  - by rewrite (proj2 (Z.eqb_neq _ _)) by lia.
  - intros x Hx. specialize (Hle x Hx). unfold e_lt in Hle.
    pose proof (comp_lt_le (e_key x) (e_key e) q). lia.
Qed.

Lemma entry_find_left q l e r :
  sorted (l ++ e :: r) → 0 < comp_func (e_key e) q → entry_find q (l ++ e :: r) = entry_find q l.
Proof.
  intros (_ & _ & _ & Her & _)%sorted_mid Hq. rewrite entry_find_app. simpl.
  rewrite (proj2 (Z.eqb_neq _ _)) by lia.
  rewrite (proj2 (entry_find_None q r)); [by destruct (entry_find q l)|].
  intros x Hx. specialize (Her x Hx). unfold e_lt in Her. apply comp_antisym in Hq.
  pose proof (comp_lt_le q (e_key e) (e_key x)). rewrite comp_sym. lia.
Qed.

Lemma entry_find_here q l e r :
  sorted (l ++ e :: r) → comp_func (e_key e) q = 0 → entry_find q (l ++ e :: r) = Some e.
Proof.
  intros (_ & _ & Hle & _)%sorted_mid Hq. rewrite entry_find_app. simpl.
  rewrite (proj2 (entry_find_None q l)); [by rewrite Hq|].
  intros x Hx. specialize (Hle x Hx). unfold e_lt in Hle.
  pose proof (comp_lt_le (e_key x) (e_key e) q). lia.
Qed.

(** *** Insertion *)

Lemma entry_insert_split e l r :
  (∀ x, x ∈ l → comp_func (e_key x) (e_key e) < 0) →
  (∀ x, x ∈ r → 0 < comp_func (e_key x) (e_key e)) →
  entry_insert e (l ++ r) = l ++ e :: r.
Proof.
  intros Hl Hr. induction l as [|f l IH]; simpl.
  - destruct r as [|f r]; simpl; [done|].
    by rewrite (proj2 (Z.ltb_lt _ _)) by (apply Hr; left).
  - rewrite (proj2 (Z.ltb_ge _ _)) by (specialize (Hl f ltac:(left)); lia).
    rewrite IH; [done|]. intros x Hx. apply Hl. by right.
Qed.

Lemma sorted_entry_insert e l : sorted l → entry_find (e_key e) l = None → sorted (entry_insert e l).
Proof.
  intros Hs. rewrite entry_find_None.
  induction Hs as [|f l Hs IH Hf]; intros Hn; simpl; [by repeat constructor|].
  assert (comp_func (e_key f) (e_key e) ≠ 0) as Hne by (apply Hn; by left).
  destruct (Z.ltb_spec 0 (comp_func (e_key f) (e_key e))) as [Hlt|Hge].
  - constructor; [by constructor|]. apply comp_antisym in Hlt. constructor; [done|].
    eapply Forall_impl; [exact Hf|]. intros x Hx. unfold e_lt in *.
    eapply comp_lt_le; [done|lia].
  - constructor; [apply IH; intros x Hx; apply Hn; by right|].
    clear IH Hs Hn. induction Hf as [|x l Hx Hf IH]; simpl.
    + repeat constructor. unfold e_lt. lia.
    + destruct (_ <? _); repeat constructor; try done; unfold e_lt; lia.
Qed.

Lemma elem_of_entry_insert e l : ∀ f, f ∈ entry_insert e l ↔ f = e ∨ f ∈ l.
Proof.
  intros f. induction l as [|g l IH]; simpl.
  - rewrite list_elem_of_singleton. set_solver.
  - destruct (_ <? _); rewrite ?elem_of_cons, ?IH; tauto.
Qed.

Lemma sorted_set q v l : sorted l → sorted (entry_set q v l).
Proof.
  intros Hs. unfold sorted, entry_set.
  induction Hs as [|f l Hs IH Hf]; simpl; [constructor|]. constructor; [done|].
  apply Forall_fmap. eapply Forall_impl; [exact Hf|]. intros x Hx.
  unfold e_lt, compose, e_key in *. by destruct (_ =? _), (_ =? _).
Qed.

Lemma sorted_remove q l : sorted l → sorted (entry_remove q l).
Proof.
  intros Hs. unfold sorted, entry_remove.
  induction Hs as [|f l Hs IH Hf]; simpl; [constructor|]. rewrite filter_cons.
  destruct (decide _); [|done]. constructor; [done|].
  rewrite Forall_forall in Hf |- *. intros x [_ Hx]%list_elem_of_filter. auto.
Qed.

(** The neighbours of an entry have other keys. *)
Lemma sorted_others l e r :
  sorted (l ++ e :: r) →
  (∀ x, x ∈ l → comp_func (e_key x) (e_key e) ≠ 0)
  ∧ (∀ x, x ∈ r → comp_func (e_key x) (e_key e) ≠ 0).
Proof.
  intros (_ & _ & Hl & Hr & _)%sorted_mid. split; intros x Hx.
  - specialize (Hl x Hx). unfold e_lt in Hl. lia.
  - specialize (Hr x Hx). unfold e_lt in Hr. rewrite comp_sym. lia.
Qed.

Lemma entry_set_ne q v l : (∀ x, x ∈ l → comp_func (e_key x) q ≠ 0) → entry_set q v l = l.
Proof.
  unfold entry_set. induction l as [|e l IH]; intros Hl; simpl; [done|].
  rewrite (proj2 (Z.eqb_neq _ _)) by (apply Hl; by left).
  f_equal. apply IH. intros x Hx. apply Hl. by right.
Qed.

Lemma entry_remove_ne q l : (∀ x, x ∈ l → comp_func (e_key x) q ≠ 0) → entry_remove q l = l.
Proof.
  unfold entry_remove. induction l as [|e l IH]; intros Hl; simpl; [done|].
  rewrite filter_cons, decide_True by (apply Hl; by left).
  f_equal. apply IH. intros x Hx. apply Hl. by right.
Qed.

Lemma others_key l e r q :
  sorted (l ++ e :: r) → comp_func (e_key e) q = 0 →
  (∀ x, x ∈ l → comp_func (e_key x) q ≠ 0) ∧ (∀ x, x ∈ r → comp_func (e_key x) q ≠ 0).
Proof.
  intros (_ & _ & Hl & Hr & _)%sorted_mid Hq. split; intros x Hx.
  - specialize (Hl x Hx). unfold e_lt in Hl.
    pose proof (comp_lt_le (e_key x) (e_key e) q). lia.
  - specialize (Hr x Hx). unfold e_lt in Hr. rewrite comp_sym.
    apply comp_sym in Hq. pose proof (comp_le_lt q (e_key e) (e_key x)). lia.
Qed.

Lemma entry_set_mid l e r q v :
  sorted (l ++ e :: r) → comp_func (e_key e) q = 0 →
  entry_set q v (l ++ e :: r) = l ++ (e_addr e, e_key e, v) :: r.
Proof.
  intros Hs Hq. destruct (others_key _ _ _ _ Hs Hq) as [Hl Hr].
  assert (entry_set q v (l ++ e :: r) = entry_set q v l ++ entry_set q v (e :: r)) as ->
    by apply fmap_app.
  cbn [entry_set fmap list_fmap]. rewrite (entry_set_ne q v l), Hq by done. f_equal. f_equal.
  by apply entry_set_ne.
Qed.

Lemma entry_remove_mid l e r q :
  sorted (l ++ e :: r) → comp_func (e_key e) q = 0 → entry_remove q (l ++ e :: r) = l ++ r.
Proof.
  intros Hs Hq. destruct (others_key _ _ _ _ Hs Hq) as [Hl Hr].
  assert (entry_remove q (l ++ e :: r) = entry_remove q l ++ entry_remove q (e :: r)) as ->
    by apply filter_app.
  assert (entry_remove q (e :: r) = entry_remove q r) as ->.
  { unfold entry_remove. rewrite filter_cons, decide_False; auto. }
  by rewrite !entry_remove_ne.
Qed.

Lemma entry_remove_equiv q q' l :
  comp_func q q' = 0 → entry_remove q l = entry_remove q' l.
Proof.
  intros Hq. unfold entry_remove. apply list_filter_iff. intros e.
  pose proof (comp_trans (e_key e) q q'). pose proof (comp_trans (e_key e) q' q).
  pose proof (comp_lt_le (e_key e) q q'). pose proof (comp_lt_le (e_key e) q' q).
  pose proof (proj1 (comp_sym q q') Hq). lia.
Qed.

(** *** Search in the tree *)

Fixpoint rb_find (q : Z) (t : rbt) : option entry :=
  match t with
  | Leaf => None
  | Node a _ k v l r =>
      if comp_func k q =? 0 then Some (a, k, v)
      else if 0 <? comp_func k q then rb_find q l else rb_find q r
  end.

Lemma rb_find_spec q t : sorted (inorder t) → rb_find q t = entry_find q (inorder t).
Proof.
  induction t as [|a c k v l IHl r IHr]; simpl; intros Hs; [done|].
  pose proof (proj1 (sorted_mid _ _ _) Hs) as (Hl & Hr & _).
  destruct (Z.eqb_spec (comp_func k q) 0) as [Hq|Hq]; [by rewrite entry_find_here|].
  destruct (Z.ltb_spec 0 (comp_func k q)).
  - by rewrite IHl, entry_find_left.
  - rewrite IHr by done. symmetry. apply entry_find_right; [done|]. simpl. unfold e_key. simpl. lia.
Qed.

(** *** The place of a new key *)

(** The path turns left exactly at the greater keys. *)
Definition follows (q : Z) (π : list frame) : Prop :=
  Forall (λ '(Frame d _ _ k _ _), d = Lft ↔ 0 < comp_func k q) π.

Lemma sorted_drop_mid l m r : sorted (l ++ m ++ r) → sorted (l ++ r).
Proof.
  unfold sorted. rewrite !StronglySorted_app. intros (H1 & H2 & H3 & H4 & H5).
  split_and!; try done. intros x y Hx Hy. apply H1; [done|]. apply elem_of_app. by right.
Qed.

Lemma follows_between q π :
  follows q π → sorted (before π ++ after π) → entry_find q (before π ++ after π) = None →
  (∀ x, x ∈ before π → comp_func (e_key x) q < 0)
  ∧ (∀ x, x ∈ after π → 0 < comp_func (e_key x) q).
Proof.
  rewrite entry_find_None.
  induction π as [|[[] a c k v s] π IH]; intros Hf Hs Hn; simpl in *.
  - split; by intros x ?%not_elem_of_nil.
  - apply Forall_cons in Hf as [Hd Hf].
    destruct IH as [IHl IHr]; [done| | |].
    { by apply (sorted_drop_mid _ ((a, k, v) :: inorder s)). }
    { intros e He. apply Hn. rewrite elem_of_app, elem_of_cons, elem_of_app in *. tauto. }
    split; [done|]. apply sorted_mid in Hs as (_ & _ & _ & Hs & _).
    assert (0 < comp_func k q) as Hk by (by apply Hd).
    intros x [->|Hx]%elem_of_cons; [done|]. specialize (Hs x Hx).
    apply comp_antisym in Hk. apply comp_antisym.
    eapply comp_lt_le; [exact Hk|]. unfold e_lt, e_key in *. simpl in *. lia.
  - apply Forall_cons in Hf as [Hd Hf].
    assert (before π ++ inorder s ++ [(a, k, v)] = (before π ++ inorder s) ++ [(a, k, v)])
      as Heq by by rewrite (assoc_L (++)).
    destruct IH as [IHl IHr]; [done| | |].
    { apply (sorted_drop_mid _ (inorder s ++ [(a, k, v)])). by rewrite <-!app_assoc in *. }
    { intros e He. apply Hn. rewrite !elem_of_app in *. tauto. }
    split; [|done]. rewrite Heq in *. rewrite <-!(assoc_L (++)) in Hs. simpl in Hs.
    rewrite (assoc_L (++)) in Hs. apply sorted_mid in Hs as (_ & _ & Hs & _).
    assert (comp_func k q < 0) as Hk.
    { assert (comp_func k q ≠ 0).
      { apply (Hn (a, k, v)). rewrite !elem_of_app, list_elem_of_singleton. tauto. }
      destruct (Z.ltb_spec 0 (comp_func k q)) as [Hk|]; [|lia]. by apply Hd in Hk. }
    intros x [Hx|Hx]%elem_of_app.
    + specialize (Hs x Hx). eapply comp_lt_le; [exact Hs|]. unfold e_key. simpl. lia.
    + apply list_elem_of_singleton in Hx as ->. done.
Qed.

Lemma follows_insert π e :
  follows (e_key e) π → sorted (before π ++ after π) →
  entry_find (e_key e) (before π ++ after π) = None →
  before π ++ e :: after π = entry_insert e (before π ++ after π).
Proof.
  intros Hf Hs Hn. destruct (follows_between _ _ Hf Hs Hn). by rewrite entry_insert_split.
Qed.
End order.

(** The parts of a red-black tree. *)
Lemma rb_unplug π : ∀ t m, rb (plug π t) false m → ∃ c n, rb t c n ∧ rbp π c n.
Proof.
  induction π as [|[d a c k v s] π IH]; intros t m Ht.
  - exists false, m. split; [done|constructor].
  - destruct (IH _ _ Ht) as (c' & n & Ht' & Hp).
    destruct d; simpl in Ht'; inversion Ht'; subst; eauto using rbp.
Qed.

(** A path whose first sibling is a black node. *)
Lemma rbp_sibling d p c kp vp w kw vw wl wr π n :
  rbp (Frame d p c kp vp (Node w false kw vw wl wr) :: π) false (S n) ↔
  ∃ cl cr, rb wl cl n ∧ rb wr cr n ∧ rbp π c (if c then S n else S (S n)).
Proof.
  split.
  - inversion 1 as [|? ? ? ? ? ? ? ? ? Hs Hp|? ? ? ? ? ? ? Hs Hp]; subst; inversion Hs; subst; eauto.
  - intros (cl & cr & Hl & Hr & Hp). destruct c; econstructor; eauto using rb.
Qed.

Lemma paint_same t : paint (colour t) t = t.
Proof. by destruct t. Qed.

Lemma plug_app π1 π2 t : plug (π1 ++ π2) t = plug π2 (plug π1 t).
Proof. unfold plug. by rewrite foldl_app. Qed.

(** A node with an empty subtree is replaced by the other one. *)
Definition only_child (u l r : rbt) : Prop := l = Leaf ∧ u = r ∨ r = Leaf ∧ u = l.

Lemma rb_only_child u l r cl cr n :
  only_child u l r → rb l cl n → rb r cr n → ∃ c, rb u c n.
Proof. intros [[-> ->]|[-> ->]]; eauto. Qed.

Lemma inorder_only_child u l r : only_child u l r → inorder l ++ inorder r = inorder u.
Proof. intros [[-> ->]|[-> ->]]; simpl; [done|]. by rewrite app_nil_r. Qed.

(** The node at a position of the sequence of entries. *)
Lemma find_node_at t : ∀ l1 l2 a k v,
  inorder t = l1 ++ (a, k, v) :: l2 →
  ∃ π c l r, t = plug π (Node a c k v l r)
    ∧ before π ++ inorder l = l1 ∧ inorder r ++ after π = l2.
Proof.
  induction t as [|a' c' k' v' l IHl r IHr]; intros l1 l2 a k v Ht; simpl in Ht.
  { by destruct l1. }
  apply app_eq_inv in Ht as [(m & Hm & Ht)|(m & -> & Ht)].
  - destruct m as [|e m]; simpl in *.
    + injection Ht as -> -> -> ->. exists [], c', l, r. simpl. by rewrite Hm, !app_nil_r.
    + injection Ht as <- ->.
      destruct (IHl l1 m a k v Hm) as (π & c & l' & r' & -> & <- & <-).
      exists (π ++ [Frame Lft a' c' k' v' r]), c, l', r'. rewrite plug_app. split; [done|].
      assert (∀ π, before (π ++ [Frame Lft a' c' k' v' r]) = before π
        ∧ after (π ++ [Frame Lft a' c' k' v' r]) = after π ++ (a', k', v') :: inorder r) as Hπ.
      { clear. induction π as [|[[] ????? ] π [IH1 IH2]]; simpl; rewrite ?app_nil_r; [done|..];
          rewrite IH1, IH2, <-?app_assoc; done. }
      destruct (Hπ π) as [-> ->]. by rewrite <-app_assoc.
  - destruct m as [|e m]; simpl in *.
    + injection Ht as <- <- <- <-. exists [], c', l, r. simpl. by rewrite !app_nil_r.
    + injection Ht as <- Hm.
      destruct (IHr m l2 a k v Hm) as (π & c & l' & r' & -> & <- & <-).
      exists (π ++ [Frame Rgt a' c' k' v' l]), c, l', r'. rewrite plug_app. split; [done|].
      assert (∀ π, before (π ++ [Frame Rgt a' c' k' v' l]) = inorder l ++ (a', k', v') :: before π
        ∧ after (π ++ [Frame Rgt a' c' k' v' l]) = after π) as Hπ.
      { clear. induction π as [|[[] ????? ] π [IH1 IH2]]; simpl; rewrite ?app_nil_r; [done|..];
          rewrite IH1, IH2, <-?app_assoc; done. }
      destruct (Hπ π) as [-> ->]. by rewrite <-!app_assoc.
Qed.

(** The path to the leftmost node has no entry before it. *)
Definition all_left (π : list frame) : Prop := before π = [].

Lemma before_app π1 π2 : before (π1 ++ π2) = before π2 ++ before π1.
Proof.
  induction π1 as [|[[] ?????] π1 IH]; simpl; [by rewrite app_nil_r|done|].
  by rewrite IH, <-!app_assoc.
Qed.

Lemma after_app π1 π2 : after (π1 ++ π2) = after π1 ++ after π2.
Proof.
  induction π1 as [|[[] ?????] π1 IH]; simpl; [done| |done]. by rewrite IH, <-app_assoc.
Qed.
