(* ===== verification/RbRep.v ===== *)
(** * Red-black trees in memory

    Assertions that say which nodes a subtree, a path and the sentinels own, and
    the specifications of the rotations, of the accesses to a root that may be
    the sentinel, and of the search. *)

From S2P Require Import Prelude Heap RbTree RbShape.
#[local] Open Scope Z_scope.

Definition addr (tree : rb_tree) (t : rbt) : Z := match t with Leaf => nil tree | Node a _ _ _ _ _ => a end.

Definition paddr (tree : rb_tree) (π : list frame) : Z :=
  match π with [] => root tree | Frame _ a _ _ _ _ :: _ => a end.

Definition node_in (d : dir) (k v : Z) (c : bool) (x s p : Z) : rb_node :=
  match d with Lft => RbNode k v c x s p | Rgt => RbNode k v c s x p end.

Lemma red_node_in d k v c x s p : red (node_in d k v c x s p) = c.
Proof. by destruct d. Qed.

Lemma parent_node_in d k v c x s p : parent (node_in d k v c x s p) = p.
Proof. by destruct d. Qed.

Lemma key_node_in d k v c x s p : key (node_in d k v c x s p) = k.
Proof. by destruct d. Qed.

Ltac rbsimpl :=
  cbn [key info red left right parent set_key set_info set_red set_left set_right set_parent
       addr paddr node_in].
Ltac rbstep := wstep; rbsimpl.
Ltac rbsteps := repeat rbstep.

Ltac solve_inorder :=
  repeat match goal with x := _ |- _ => subst x end;
  rewrite !inorder_plug; cbn [before after inorder];
  repeat first [rewrite inorder_paint | rewrite -app_assoc
               | progress cbn [app inorder before after paint]]; done.

Section reps.
Context `{!ghost_mapG Σ Z rb_node} (γ : gname) (tree : rb_tree).
#[local] Notation addr := (addr tree).
#[local] Notation paddr := (paddr tree).

(** The nodes of a subtree whose parent is [p]. *)
Fixpoint tree_rep (p : Z) (t : rbt) : iProp Σ :=
  match t with
  | Leaf => True
  | Node a c k v l r =>
      ⌜0 < a⌝ ∗ a ↪[γ] RbNode k v c (addr l) (addr r) p ∗ tree_rep a l ∗ tree_rep a r
  end%I.

(** The sentinel: black; rotations do not change its parent. *)
Definition nil_rep (p : Z) : iProp Σ := ∃ k v l r, nil tree ↪[γ] RbNode k v false l r p.

(** The path above a child at address [x]. *)
Fixpoint path_rep (x : Z) (π : list frame) : iProp Σ :=
  match π with
  | [] => ∃ k v, root tree ↪[γ] RbNode k v false x (nil tree) (nil tree)
  | Frame d a c k v s :: π' =>
      ⌜0 < a⌝ ∗ a ↪[γ] node_in d k v c x (addr s) (paddr π') ∗ tree_rep a s ∗ path_rep a π'
  end%I.


Context `{KeyOrderOk}.

(** The tree holds the entries [l], in key order. *)
Definition rb_rep (l : list entry) : iProp Σ :=
  ∃ t q, ⌜inorder t = l ∧ sorted l ∧ ∃ m, rb t false m⌝
    ∗ tree_rep (root tree) t ∗ path_rep (addr t) [] ∗ nil_rep q.
End reps.

#[global] Typeclasses Opaque tree_rep path_rep nil_rep.

Section lemmas.
Context `{!ghost_mapG Σ Z rb_node} {γ : gname} {tree : rb_tree}.
#[local] Notation addr := (addr tree).
#[local] Notation paddr := (paddr tree).
#[local] Notation nil_rep := (nil_rep γ tree).
#[local] Notation tree_rep := (tree_rep γ tree).
#[local] Notation path_rep := (path_rep γ tree).

Lemma tree_rep_Node p a c k v l r :
  tree_rep p (Node a c k v l r) ⊣⊢
  ⌜0 < a⌝ ∗ a ↪[γ] RbNode k v c (addr l) (addr r) p ∗ tree_rep a l ∗ tree_rep a r.
Proof. done. Qed.

Lemma path_rep_Frame x d a c k v s π :
  path_rep x (Frame d a c k v s :: π) ⊣⊢
  ⌜0 < a⌝ ∗ a ↪[γ] node_in d k v c x (addr s) (paddr π) ∗ tree_rep a s ∗ path_rep a π.
Proof. done. Qed.

Lemma tree_open p a c k v l r :
  tree_rep p (Node a c k v l r) -∗
  ⌜0 < a⌝ ∗ a ↪[γ] RbNode k v c (addr l) (addr r) p ∗ tree_rep a l ∗ tree_rep a r.
Proof. by rewrite tree_rep_Node; iIntros. Qed.

Lemma path_open x d a c k v s π :
  path_rep x (Frame d a c k v s :: π) -∗
  ⌜0 < a⌝ ∗ a ↪[γ] node_in d k v c x (addr s) (paddr π) ∗ tree_rep a s ∗ path_rep a π.
Proof. by rewrite path_rep_Frame; iIntros. Qed.

Lemma addr_ne x n p t q : x ↪[γ] n -∗ tree_rep p t -∗ nil_rep q -∗ ⌜x ≠ addr t⌝.
Proof.
  iIntros "Hx Ht Hn". unfold nil_rep. iDestruct "Hn" as (k v l r) "Hn".
  destruct t as [|a c k' v' tl tr]; simpl.
  - iApply (points_to_ne with "Hx Hn").
  - iDestruct (tree_open with "Ht") as "(_ & Ha & _)". iApply (points_to_ne with "Hx Ha").
Qed.

Lemma nil_ne x n q : x ↪[γ] n -∗ nil_rep q -∗ ⌜x ≠ nil tree⌝.
Proof. iIntros "Hx Hn". iApply (addr_ne _ _ 0 Leaf with "Hx [] Hn"). by unfold tree_rep. Qed.

(** The frame right above [x], opened for a new child. *)
Lemma path_rep_open x n π q :
  x ↪[γ] n -∗ path_rep x π -∗ nil_rep q -∗
  ∃ d k v c s p, paddr π ↪[γ] node_in d k v c x s p ∗ ⌜d = Rgt → x ≠ s⌝
    ∗ x ↪[γ] n ∗ nil_rep q
    ∗ (∀ y, paddr π ↪[γ] node_in d k v c y s p -∗ path_rep y π).
Proof.
  iIntros "Hx Hp Hn". destruct π as [|[d a c k v s] π]; rbsimpl.
  - unfold path_rep. iDestruct "Hp" as (k v) "Hp". iExists Lft, k, v, false, _, _. iFrame "Hp Hx Hn".
    iSplit; [done|]. iIntros (y) "Hp". iExists k, v. iFrame.
  - iDestruct (path_open with "Hp") as "(%Ha & Hp & Hs & Hπ)".
    iDestruct (addr_ne with "Hx Hs Hn") as %Hne.
    iExists d, k, v, c, _, _. iFrame "Hp Hx Hn". iSplit; [done|].
    iIntros (y) "Hp". rewrite path_rep_Frame. iFrame. done.
Qed.

Lemma wp_replace_child x n π q y Φ :
  parent n = paddr π →
  x ↪[γ] n -∗ path_rep x π -∗ nil_rep q -∗
  (x ↪[γ] n -∗ path_rep y π -∗ nil_rep q -∗ Φ tt) -∗
  wp γ (replace_child x y) Φ.
Proof.
  iIntros (Hn) "Hx Hp Hq HΦ".
  iDestruct (path_rep_open with "Hx Hp Hq") as (d k v c s p) "(Hp & %Hd & Hx & Hq & Hclose)".
  unfold replace_child. rewrite -Hn. wsteps.
  destruct d; simpl.
  - rewrite decide_True //. wsteps. iApply ("HΦ" with "[$] [-Hq] Hq").
    iApply "Hclose". rewrite Hn. iFrame.
  - rewrite decide_False; [|auto]. wsteps. iApply ("HΦ" with "[$] [-Hq] Hq").
    iApply "Hclose". rewrite Hn. iFrame.
Qed.

(** ** Rotations *)

Lemma wp_LeftRotate π x cx kx vx tl y cy ky vy tb tr q Φ :
  tree_rep (paddr π) (Node x cx kx vx tl (Node y cy ky vy tb tr)) -∗
  path_rep x π -∗ nil_rep q -∗
  (tree_rep (paddr π) (Node y cy ky vy (Node x cx kx vx tl tb) tr) -∗
   path_rep y π -∗ nil_rep q -∗ Φ tt) -∗
  wp γ (LeftRotate tree x) Φ.
Proof.
  iIntros "Ht Hp Hq HΦ". unfold LeftRotate.
  iDestruct (tree_open with "Ht") as "(%Hx & Hx & Htl & Ht)".
  iDestruct (tree_open with "Ht") as "(%Hy & Hy & Htb & Htr)". cbn [addr].
  do 4 rbstep.
  iApply wp_bind. iApply (wp_wand _ _ (λ _, x ↪[γ] RbNode kx vx cx (addr tl) (addr tb) (paddr π)
    ∗ y ↪[γ] RbNode ky vy cy (addr tb) (addr tr) x ∗ nil_rep q ∗ tree_rep x tb)%I
    with "[Hx Hy Hq Htb]").
  { destruct tb as [|b cb kb vb bl br]; rbsimpl.
    - rewrite decide_True //. rbsteps. iFrame.
    - iDestruct (tree_open with "Htb") as "(%Hb & Hb & Hbl & Hbr)". iDestruct (nil_ne with "Hb Hq") as %Hne.
      rewrite decide_False //. rbsteps. rewrite tree_rep_Node. iFrame. done. }
  iIntros (_) "(Hx & Hy & Hq & Htb)". rbsteps.
  iApply wp_bind. iApply (wp_replace_child with "Hx Hp Hq"); [done|].
  iIntros "Hx Hp Hq". rbsteps. iApply ("HΦ" with "[-Hp Hq] Hp Hq").
  rewrite !tree_rep_Node. iFrame. done.
Qed.

Lemma wp_RightRotate π y cy ky vy x cx kx vx tl tb tr q Φ :
  tree_rep (paddr π) (Node y cy ky vy (Node x cx kx vx tl tb) tr) -∗
  path_rep y π -∗ nil_rep q -∗
  (tree_rep (paddr π) (Node x cx kx vx tl (Node y cy ky vy tb tr)) -∗
   path_rep x π -∗ nil_rep q -∗ Φ tt) -∗
  wp γ (RightRotate tree y) Φ.
Proof.
  iIntros "Ht Hp Hq HΦ". unfold RightRotate.
  iDestruct (tree_open with "Ht") as "(%Hy & Hy & Ht & Htr)".
  iDestruct (tree_open with "Ht") as "(%Hx & Hx & Htl & Htb)". cbn [addr].
  do 4 rbstep.
  iApply wp_bind. iApply (wp_wand _ _ (λ _, y ↪[γ] RbNode ky vy cy (addr tb) (addr tr) (paddr π)
    ∗ x ↪[γ] RbNode kx vx cx (addr tl) (addr tb) y ∗ nil_rep q ∗ tree_rep y tb)%I
    with "[Hx Hy Hq Htb]").
  { destruct tb as [|b cb kb vb bl br]; rbsimpl.
    - rewrite decide_True //. rbsteps. iFrame.
    - iDestruct (tree_open with "Htb") as "(%Hb & Hb & Hbl & Hbr)". iDestruct (nil_ne with "Hb Hq") as %Hne.
      rewrite decide_False //. rbsteps. rewrite tree_rep_Node. iFrame. done. }
  iIntros (_) "(Hy & Hx & Hq & Htb)". rbsteps.
  iApply wp_bind. iApply (wp_replace_child with "Hy Hp Hq"); [done|].
  iIntros "Hy Hp Hq". rbsteps. iApply ("HΦ" with "[-Hp Hq] Hp Hq").
  rewrite !tree_rep_Node. iFrame. done.
Qed.

(** ** Access to the root of a subtree, which may be the sentinel *)

Lemma wp_ld_red p t q {B} (k : bool → Heap.M rb_node B) Φ :
  tree_rep p t -∗ nil_rep q -∗
  (tree_rep p t -∗ nil_rep q -∗ wp γ (k (colour t)) Φ) -∗
  wp γ (ld red (addr t) ≫= k) Φ.
Proof.
  iIntros "Ht Hq HΦ". destruct t as [|a c k' v l r]; rbsimpl.
  - unfold nil_rep. iDestruct "Hq" as (k' v l r) "Hq". rbstep.
    iApply ("HΦ" with "Ht"). iExists k', v, l, r. iFrame.
  - iDestruct (tree_open with "Ht") as "(%Ha & Ha & Hl & Hr)". rbstep.
    iApply ("HΦ" with "[-Hq] Hq"). rewrite tree_rep_Node. iFrame. done.
Qed.

Lemma wp_ld_parent' p t q Φ :
  (t = Leaf → q = p) →
  tree_rep p t -∗ nil_rep q -∗ (tree_rep p t -∗ nil_rep q -∗ Φ p) -∗
  wp γ (ld parent (addr t)) Φ.
Proof.
  iIntros (Hq) "Ht Hq HΦ". destruct t as [|a c k' v l r]; rbsimpl.
  - rewrite Hq //. unfold nil_rep. iDestruct "Hq" as (k' v l r) "Hq". rbstep.
    iApply ("HΦ" with "Ht"). iExists k', v, l, r. iFrame.
  - iDestruct (tree_open with "Ht") as "(%Ha & Ha & Hl & Hr)". rbstep.
    iApply ("HΦ" with "[-Hq] Hq"). rewrite tree_rep_Node. iFrame. done.
Qed.

Lemma wp_ld_parent p t q {B} (k : Z → Heap.M rb_node B) Φ :
  (t = Leaf → q = p) →
  tree_rep p t -∗ nil_rep q -∗
  (tree_rep p t -∗ nil_rep q -∗ wp γ (k p) Φ) -∗
  wp γ (ld parent (addr t) ≫= k) Φ.
Proof.
  iIntros (Hq) "Ht Hq HΦ". iApply wp_bind. by iApply (wp_ld_parent' with "Ht Hq").
Qed.

Lemma wp_st_red c p t q Φ :
  (t = Leaf → c = false) →
  tree_rep p t -∗ nil_rep q -∗ (tree_rep p (paint c t) -∗ nil_rep q -∗ Φ tt) -∗
  wp γ (st (set_red c) (addr t)) Φ.
Proof.
  iIntros (Hc) "Ht Hq HΦ". destruct t as [|a c' k' v l r]; rbsimpl.
  - rewrite Hc //. unfold nil_rep. iDestruct "Hq" as (k' v l r) "Hq". rbstep.
    iApply ("HΦ" with "Ht"). iExists k', v, l, r. iFrame.
  - iDestruct (tree_open with "Ht") as "(%Ha & Ha & Hl & Hr)". rbstep.
    iApply ("HΦ" with "[-Hq] Hq"). cbn [paint]. rewrite tree_rep_Node. iFrame. done.
Qed.

(** The whole tree, below the root sentinel. *)
Lemma plug_rep π : ∀ t,
  tree_rep (paddr π) t -∗ path_rep (addr t) π -∗
  tree_rep (root tree) (plug π t) ∗ path_rep (addr (plug π t)) [].
Proof.
  induction π as [|[d a c k v s] π IH]; iIntros (t) "Ht Hp"; [by iFrame|].
  iDestruct (path_open with "Hp") as "(%Ha & Ha & Hs & Hp)".
  iApply (IH (plug1 t (Frame d a c k v s)) with "[-Hp] [Hp]"); destruct d; cbn [plug1 addr];
    rewrite ?tree_rep_Node; iFrame; done.
Qed.

(** ** The whole tree *)

Context `{KeyOrderOk}.

#[local] Notation rb_rep := (rb_rep γ tree).

(** The fuel that the operations on [l] need. *)
Definition enough (fuel : nat) (l : list entry) : Prop :=
  2 * Z.log2 (Z.of_nat (length l) + 1) + 1 < Z.of_nat fuel.

Lemma enough_height fuel t m :
  rb t false m → enough fuel (inorder t) → (S (height t) < fuel)%nat.
Proof. intros Ht Hf. pose proof (rb_height_log t m Ht). unfold enough in Hf. lia. Qed.

Lemma addr_nil p t q : tree_rep p t -∗ nil_rep q -∗ ⌜addr t = nil tree ↔ t = Leaf⌝.
Proof.
  iIntros "Ht Hq". destruct t as [|a c k v l r]; rbsimpl; [done|].
  iDestruct (tree_open with "Ht") as "(%Ha & Ha & _)".
  iDestruct (nil_ne with "Ha Hq") as %Hne. iPureIntro. by split.
Qed.

(** The path ends at the root sentinel. *)
Lemma path_root x π : path_rep x π -∗ ∃ n, root tree ↪[γ] n ∗ (root tree ↪[γ] n -∗ path_rep x π).
Proof.
  revert x. induction π as [|[d a c k v s] π IH]; iIntros (x) "Hp".
  - unfold path_rep. iDestruct "Hp" as (k v) "Hp". iExists _. iFrame "Hp". iIntros "Hp".
    iExists k, v. iFrame.
  - iDestruct (path_open with "Hp") as "(%Ha & Ha & Hs & Hp)".
    iDestruct (IH with "Hp") as (n) "[Hr Hp]". iExists n. iFrame "Hr". iIntros "Hr".
    rewrite path_rep_Frame. iFrame. iSplit; [done|]. by iApply "Hp".
Qed.

Lemma root_ne a n x π : a ↪[γ] n -∗ path_rep x π -∗ ⌜a ≠ root tree⌝.
Proof.
  iIntros "Ha Hp". iDestruct (path_root with "Hp") as (n') "[Hr _]".
  iApply (points_to_ne with "Ha Hr").
Qed.

Lemma unplug_rep π : ∀ t,
  tree_rep (root tree) (plug π t) -∗ path_rep (addr (plug π t)) [] -∗
  tree_rep (paddr π) t ∗ path_rep (addr t) π.
Proof.
  induction π as [|[d a c k v s] π IH]; iIntros (t) "Ht Hp"; [by iFrame|].
  iDestruct (IH (plug1 t (Frame d a c k v s)) with "Ht Hp") as "[Ht Hp]".
  destruct d; iDestruct (tree_open with "Ht") as "(%Ha & Ha & Hl & Hr)";
    rewrite path_rep_Frame; iFrame; done.
Qed.

(** ** Search *)

Definition entry_or_null (e : option entry) : Z := match e with Some e => e_addr e | None => 0 end.

Lemma wp_query_loop fuel q : ∀ a c k v l r p qn Φ,
  let t := Node a c k v l r in
  (height t ≤ fuel)%nat →
  tree_rep p t -∗ nil_rep qn -∗
  (tree_rep p t -∗ nil_rep qn -∗ Φ (entry_or_null (rb_find q t))) -∗
  wp γ (query_loop tree fuel q a (comp_func k q)) Φ.
Proof.
  induction fuel as [|fuel IH]; intros a c k v l r p qn Φ t Hf; subst t;
    [simpl in Hf; lia|].
  iIntros "Ht Hq HΦ". cbn [query_loop].
  destruct (Z.eqb_spec (comp_func k q) 0) as [Hk|Hk].
  { iApply wp_ret. cbn [rb_find]. rewrite Hk. cbn. iApply ("HΦ" with "Ht Hq"). }
  iDestruct (tree_open with "Ht") as "(%Ha & Ha & Hl & Hr)".
  cbn [rb_find]. rewrite (proj2 (Z.eqb_neq _ _) Hk).
  cbn [height] in Hf.
  destruct (0 <? comp_func k q); rbsteps.
  - iDestruct (addr_nil with "Hl Hq") as %Hn.
    destruct l as [|a' c' k' v' l' r']; cbn [addr].
    + rewrite decide_True //. iApply wp_ret. iApply ("HΦ" with "[-Hq] Hq").
      rewrite tree_rep_Node. iFrame. done.
    + rewrite decide_False; [|by rewrite Hn].
      iDestruct (tree_open with "Hl") as "(%Ha' & Ha' & Hl)". rbsteps.
      iApply (IH a' c' k' v' l' r' with "[Ha' Hl] Hq"); [cbn [height] in *; lia| |]. 
      { rewrite tree_rep_Node. iFrame. done. }
      iIntros "Hl Hq". iApply ("HΦ" with "[-Hq] Hq"). rewrite (tree_rep_Node p). iFrame. done.
  - iDestruct (addr_nil with "Hr Hq") as %Hn.
    destruct r as [|a' c' k' v' l' r']; cbn [addr].
    + rewrite decide_True //. iApply wp_ret. iApply ("HΦ" with "[-Hq] Hq").
      rewrite tree_rep_Node. iFrame. done.
    + rewrite decide_False; [|by rewrite Hn].
      iDestruct (tree_open with "Hr") as "(%Ha' & Ha' & Hr)". rbsteps.
      iApply (IH a' c' k' v' l' r' with "[Ha' Hr] Hq"); [cbn [height] in *; lia| |].
      { rewrite tree_rep_Node. iFrame. done. }
      iIntros "Hr Hq". iApply ("HΦ" with "[-Hq] Hq"). rewrite (tree_rep_Node p). iFrame. done.
Qed.

Lemma wp_rb_tree_query fuel q l Φ :
  enough fuel l →
  rb_rep l -∗ (rb_rep l -∗ Φ (entry_or_null (entry_find q l))) -∗
  wp γ (rb_tree_query tree fuel q) Φ.
Proof.
  iIntros (Hf) "Hl HΦ". iDestruct "Hl" as (t qn (<- & Hs & m & Ht)) "(Ht & Hp & Hq)".
  pose proof (enough_height _ _ _ Ht Hf) as Hh.
  rewrite -rb_find_spec //. unfold rb_tree_query.
  unfold path_rep. iDestruct "Hp" as (kr vr) "Hp". rbsteps.
  iDestruct (addr_nil with "Ht Hq") as %Hn.
  destruct t as [|a c k v l r]; cbn [addr].
  - rewrite decide_True //. iApply wp_ret. iApply "HΦ". iExists Leaf, qn. iFrame.
    iSplit; [by eauto|]. iExists kr, vr. iFrame.
  - rewrite decide_False; [|by rewrite Hn].
    iDestruct (tree_open with "Ht") as "(%Ha & Ha & Hlr)". rbsteps.
    iApply (wp_query_loop _ _ a c k v l r with "[Ha Hlr] Hq"); [lia| |].
    { rewrite tree_rep_Node. iFrame. done. }
    iIntros "Ht Hq". iApply "HΦ". iExists _, qn. iFrame "Ht Hq".
    iSplit; [by eauto|]. iExists kr, vr. iFrame.
Qed.

End lemmas.
