(* ===== verification/RbInsert.v ===== *)
(** * Insertion in red-black trees

    One step of the rebalancing loop for each side, the loop, the descent to the
    place of the key, and the specifications of [rb_tree_add] and
    [rb_tree_insert]. *)

From S2P Require Import Prelude Heap RbTree RbShape RbRep.
#[local] Open Scope Z_scope.

(** The loop of the insertion is at a red node [t] below [π]. *)
Definition insert_state (l : list entry) (len : nat) (t : rbt) (π : list frame) : Prop :=
  ∃ n, rb t true n ∧ rbp π false n ∧ inorder (plug π t) = l ∧ (length π ≤ len)%nat.

Section insertion.
Context `{!ghost_mapG Σ Z rb_node} {γ : gname} {tree : rb_tree}.
#[local] Notation addr := (addr tree).
#[local] Notation paddr := (paddr tree).
#[local] Notation nil_rep := (nil_rep γ tree).
#[local] Notation tree_rep := (tree_rep γ tree).
#[local] Notation path_rep := (path_rep γ tree).
#[local] Notation rb_rep := (rb_rep γ tree).

(** ** Rebalancing after an insertion *)

Lemma wp_insert_turn_right x kx vx lx rx p kp vp s1 g kg vg s2 π q Φ :
  tree_rep p (Node x true kx vx lx rx) -∗
  path_rep x (Frame Lft p true kp vp s1 :: Frame Lft g false kg vg s2 :: π) -∗ nil_rep q -∗
  (tree_rep p (Node x true kx vx lx rx) -∗
   path_rep x (Frame Lft p false kp vp (Node g true kg vg s1 s2) :: π) -∗ nil_rep q -∗ Φ x) -∗
  wp γ (p ← ld parent x; st (set_red false) p;;
        g ← grandparent x; st (set_red true) g;;
        g ← grandparent x; RightRotate tree g;;
        mret x) Φ.
Proof.
  iIntros "Ht Hp Hq HΦ". unfold grandparent.
  iDestruct (tree_open with "Ht") as "(%Hx & Hx & Hlx & Hrx)".
  iDestruct (path_open with "Hp") as "(%Hp & Hp & Hs1 & Hg)".
  iDestruct (path_open with "Hg") as "(%Hg & Hg & Hs2 & Hπ)". rbsimpl. rbsteps.
  iApply wp_bind.
  iApply (wp_RightRotate π g true kg vg p false kp vp (Node x true kx vx lx rx) s1 s2
    with "[-Hπ Hq HΦ] Hπ Hq").
  { rewrite !tree_rep_Node. iFrame. done. }
  iIntros "Ht Hπ Hq".
  iDestruct (tree_open with "Ht") as "(_ & Hp & Hx & Hg)".
  iApply wp_ret. iApply ("HΦ" with "Hx [-Hq] Hq"). rewrite path_rep_Frame. iFrame. done.
Qed.

Lemma wp_insert_turn_left x kx vx lx rx p kp vp s1 g kg vg s2 π q Φ :
  tree_rep p (Node x true kx vx lx rx) -∗
  path_rep x (Frame Rgt p true kp vp s1 :: Frame Rgt g false kg vg s2 :: π) -∗ nil_rep q -∗
  (tree_rep p (Node x true kx vx lx rx) -∗
   path_rep x (Frame Rgt p false kp vp (Node g true kg vg s2 s1) :: π) -∗ nil_rep q -∗ Φ x) -∗
  wp γ (p ← ld parent x; st (set_red false) p;;
        g ← grandparent x; st (set_red true) g;;
        g ← grandparent x; LeftRotate tree g;;
        mret x) Φ.
Proof.
  iIntros "Ht Hp Hq HΦ". unfold grandparent.
  iDestruct (tree_open with "Ht") as "(%Hx & Hx & Hlx & Hrx)".
  iDestruct (path_open with "Hp") as "(%Hp & Hp & Hs1 & Hg)".
  iDestruct (path_open with "Hg") as "(%Hg & Hg & Hs2 & Hπ)". rbsimpl. rbsteps.
  iApply wp_bind.
  iApply (wp_LeftRotate π g true kg vg s2 p false kp vp s1 (Node x true kx vx lx rx)
    with "[-Hπ Hq HΦ] Hπ Hq").
  { rewrite !tree_rep_Node. iFrame. done. }
  iIntros "Ht Hπ Hq".
  iDestruct (tree_open with "Ht") as "(_ & Hp & Hg & Hx)".
  iApply wp_ret. iApply ("HΦ" with "Hx [-Hq] Hq"). rewrite path_rep_Frame. iFrame. done.
Qed.

Lemma wp_insert_step_left x kx vx lx rx d1 p kp vp s1 g kg vg s2 π q n cs2 Φ :
  rb lx false n → rb rx false n → rb s1 false n → rb s2 cs2 n → rbp π false (S n) →
  let t := Node x true kx vx lx rx in
  let π' := Frame d1 p true kp vp s1 :: Frame Lft g false kg vg s2 :: π in
  tree_rep p t -∗ path_rep x π' -∗ nil_rep q -∗
  (∀ t'' π'', ⌜insert_state (inorder (plug π' t)) (S (length π)) t'' π''⌝ -∗
     tree_rep (paddr π'') t'' -∗ path_rep (addr t'') π'' -∗ nil_rep q -∗ Φ (addr t'')) -∗
  wp γ (insert_step tree x) Φ.
Proof.
  iIntros (Hlx Hrx Hs1 Hs2 Hπ t π') "Ht Hp Hq HΦ". unfold insert_step, grandparent.
  iDestruct (tree_open with "Ht") as "(%Hx & Hx & Hlx & Hrx)".
  iDestruct (path_open with "Hp") as "(%Hp & Hp & Hs1 & Hg)".
  iDestruct (addr_ne with "Hx Hs1 Hq") as %Hxs1.
  iDestruct (path_open with "Hg") as "(%Hg & Hg & Hs2 & Hπ)". rbsimpl.
  destruct (colour s2) eqn:Hc.
  - destruct s2 as [|y cy ky vy ly ry]; [done|]. cbn in Hc. subst cy. inversion Hs2; subst.
    destruct d1; rbsimpl; rbsteps; rewrite decide_True //; rbsteps;
      iApply (wp_ld_red with "Hs2 Hq"); iIntros "Hs2 Hq"; cbn [colour]; rbsteps;
      iApply wp_bind; (iApply (wp_st_red false with "Hs2 Hq"); [by intros|]);
      iIntros "Hs2 Hq"; cbn [paint]; rbsteps.
    + iApply ("HΦ" $! (Node g true kg vg (Node p false kp vp t s1) (Node y false ky vy ly ry)) π
        with "[%] [-Hπ Hq] Hπ Hq"); [|rewrite !tree_rep_Node; iFrame; done].
      exists (S n). split_and!; [|done|solve_inorder|lia].
      repeat (done || econstructor).
    + iApply ("HΦ" $! (Node g true kg vg (Node p false kp vp s1 t) (Node y false ky vy ly ry)) π
        with "[%] [-Hπ Hq] Hπ Hq"); [|rewrite !tree_rep_Node; iFrame; done].
      exists (S n). split_and!; [|done|solve_inorder|lia].
      repeat (done || econstructor).
  - pose proof (rb_colour _ _ _ Hs2). assert (cs2 = false) as -> by congruence.
    destruct d1; rbsimpl; rbsteps; rewrite decide_True //; rbsteps;
      iApply (wp_ld_red with "Hs2 Hq"); iIntros "Hs2 Hq"; rewrite Hc; rbsteps.
    + rewrite decide_False //. iApply wp_ret_bind.
      iApply (wp_insert_turn_right x kx vx lx rx p kp vp s1 g kg vg s2 π with "[Hx Hlx Hrx] [Hp Hs1 Hg Hs2 Hπ] Hq").
      { rewrite tree_rep_Node. iFrame. done. }
      { rewrite !path_rep_Frame. iFrame. done. }
      iIntros "Ht Hp Hq". iApply ("HΦ" $! t (Frame Lft p false kp vp (Node g true kg vg s1 s2) :: π)
        with "[%] Ht Hp Hq").
      exists n. split_and!; [by constructor| |solve_inorder|done].
      repeat (done || econstructor).
    + rewrite decide_True //. rbsteps. iApply wp_bind.
      iApply (wp_LeftRotate (Frame Lft g false kg vg s2 :: π) p true kp vp s1 x true kx vx lx rx
        with "[Hp Hs1 Hx Hlx Hrx] [Hg Hs2 Hπ] Hq").
      { rewrite !tree_rep_Node. iFrame. done. }
      { rewrite !path_rep_Frame. iFrame. done. }
      iIntros "Ht Hg Hq". iApply wp_ret_bind.
      iDestruct (tree_open with "Ht") as "(_ & Hx & Hp & Hrx)".
      iApply (wp_insert_turn_right p kp vp s1 lx x kx vx rx g kg vg s2 π with "Hp [Hx Hrx Hg] Hq").
      { rewrite !(path_rep_Frame _ Lft x). iFrame. done. }
      iIntros "Ht Hp Hq". iApply ("HΦ" $! (Node p true kp vp s1 lx)
        (Frame Lft x false kx vx (Node g true kg vg rx s2) :: π) with "[%] Ht Hp Hq").
      exists n. split_and!; [by constructor| |solve_inorder|done].
      repeat (done || econstructor).
Qed.

Lemma wp_insert_step_right x kx vx lx rx d1 p kp vp s1 g kg vg s2 π q n cs2 Φ :
  rb lx false n → rb rx false n → rb s1 false n → rb s2 cs2 n → rbp π false (S n) →
  let t := Node x true kx vx lx rx in
  let π' := Frame d1 p true kp vp s1 :: Frame Rgt g false kg vg s2 :: π in
  tree_rep p t -∗ path_rep x π' -∗ nil_rep q -∗
  (∀ t'' π'', ⌜insert_state (inorder (plug π' t)) (S (length π)) t'' π''⌝ -∗
     tree_rep (paddr π'') t'' -∗ path_rep (addr t'') π'' -∗ nil_rep q -∗ Φ (addr t'')) -∗
  wp γ (insert_step tree x) Φ.
Proof.
  iIntros (Hlx Hrx Hs1 Hs2 Hπ t π') "Ht Hp Hq HΦ". unfold insert_step, grandparent.
  iDestruct (tree_open with "Ht") as "(%Hx & Hx & Hlx & Hrx)".
  iDestruct (path_open with "Hp") as "(%Hp & Hp & Hs1 & Hg)".
  iDestruct (addr_ne with "Hx Hs1 Hq") as %Hxs1.
  iDestruct (path_open with "Hg") as "(%Hg & Hg & Hs2 & Hπ)".
  iDestruct (addr_ne with "Hp Hs2 Hq") as %Hps2. rbsimpl.
  destruct (colour s2) eqn:Hc.
  - destruct s2 as [|y cy ky vy ly ry]; [done|]. cbn in Hc. subst cy. inversion Hs2; subst.
    destruct d1; rbsimpl; rbsteps; rewrite decide_False //; rbsteps;
      iApply (wp_ld_red with "Hs2 Hq"); iIntros "Hs2 Hq"; cbn [colour]; rbsteps;
      iApply wp_bind; (iApply (wp_st_red false with "Hs2 Hq"); [by intros|]);
      iIntros "Hs2 Hq"; cbn [paint]; rbsteps.
    + iApply ("HΦ" $! (Node g true kg vg (Node y false ky vy ly ry) (Node p false kp vp t s1)) π
        with "[%] [-Hπ Hq] Hπ Hq"); [|rewrite !tree_rep_Node; iFrame; done].
      exists (S n). split_and!; [|done|solve_inorder|lia].
      repeat (done || econstructor).
    + iApply ("HΦ" $! (Node g true kg vg (Node y false ky vy ly ry) (Node p false kp vp s1 t)) π
        with "[%] [-Hπ Hq] Hπ Hq"); [|rewrite !tree_rep_Node; iFrame; done].
      exists (S n). split_and!; [|done|solve_inorder|lia].
      repeat (done || econstructor).
  - pose proof (rb_colour _ _ _ Hs2). assert (cs2 = false) as -> by congruence.
    destruct d1; rbsimpl; rbsteps; rewrite decide_False //; rbsteps;
      iApply (wp_ld_red with "Hs2 Hq"); iIntros "Hs2 Hq"; rewrite Hc; rbsteps.
    + rewrite decide_True //. rbsteps. iApply wp_bind.
      iApply (wp_RightRotate (Frame Rgt g false kg vg s2 :: π) p true kp vp x true kx vx lx rx s1
        with "[Hp Hs1 Hx Hlx Hrx] [Hg Hs2 Hπ] Hq").
      { rewrite !tree_rep_Node. iFrame. done. }
      { rewrite !path_rep_Frame. iFrame. done. }
      iIntros "Ht Hg Hq". iApply wp_ret_bind.
      iDestruct (tree_open with "Ht") as "(_ & Hx & Hlx & Hp)".
      iApply (wp_insert_turn_left p kp vp rx s1 x kx vx lx g kg vg s2 π with "Hp [Hx Hlx Hg] Hq").
      { rewrite !(path_rep_Frame _ Rgt x). iFrame. done. }
      iIntros "Ht Hp Hq". iApply ("HΦ" $! (Node p true kp vp rx s1)
        (Frame Rgt x false kx vx (Node g true kg vg s2 lx) :: π) with "[%] Ht Hp Hq").
      exists n. split_and!; [by constructor| |solve_inorder|done].
      repeat (done || econstructor).
    + rewrite decide_False //. iApply wp_ret_bind.
      iApply (wp_insert_turn_left x kx vx lx rx p kp vp s1 g kg vg s2 π
        with "[Hx Hlx Hrx] [Hp Hs1 Hg Hs2 Hπ] Hq").
      { rewrite tree_rep_Node. iFrame. done. }
      { rewrite !path_rep_Frame. iFrame. done. }
      iIntros "Ht Hp Hq".
      iApply ("HΦ" $! t (Frame Rgt p false kp vp (Node g true kg vg s2 s1) :: π)
        with "[%] Ht Hp Hq").
      exists n. split_and!; [by constructor| |solve_inorder|done].
      repeat (done || econstructor).
Qed.

Lemma wp_insert_loop fuel : ∀ l t π q Φ,
  insert_state l (length π) t π → (length π < fuel)%nat →
  tree_rep (paddr π) t -∗ path_rep (addr t) π -∗ nil_rep q -∗
  (∀ t', ⌜inorder t' = l ∧ ∃ m, rb (paint false t') false m⌝ -∗
     tree_rep (root tree) t' -∗ path_rep (addr t') [] -∗ nil_rep q -∗ Φ tt) -∗
  wp γ (insert_loop tree fuel (addr t)) Φ.
Proof.
  induction fuel as [|fuel IH]; [lia|].
  iIntros (l t π q Φ (n & Ht & Hπ & Hl & _) Hf) "Ht Hp Hq HΦ". cbn [insert_loop].
  inversion Ht as [| |x kx vx lx rx n' Hlx Hrx]; subst. rbsimpl.
  iDestruct (tree_open with "Ht") as "(%Hx & Hx & Hlx & Hrx)".
  destruct π as [|[d1 p [] kp vp s1] π].
  - unfold path_rep. iDestruct "Hp" as (kr vr) "Hp". rbsimpl. rbsteps.
    iApply ("HΦ" $! (Node x true kx vx lx rx) with "[%] [-Hp Hq] [Hp] Hq").
    + split; [done|]. exists (S n). by econstructor.
    + rewrite tree_rep_Node. iFrame. done.
    + iExists kr, vr. iFrame.
  - inversion Hπ as [| |? ? ? ? ? ? ? Hs1 Hπ1]; subst.
    inversion Hπ1 as [|d2 g kg vg s2 cs2 π2 ? ? Hs2 Hπ2|]; subst.
    iDestruct (path_open with "Hp") as "(%Hp & Hp & Hs1 & Hg)". rbsimpl. rbsteps.
    rewrite red_node_in. iApply wp_bind.
    destruct d2.
    + iApply (wp_insert_step_left x kx vx lx rx d1 p kp vp s1 g kg vg s2 π2
        with "[Hx Hlx Hrx] [Hp Hs1 Hg] Hq"); try done.
      { rewrite tree_rep_Node. iFrame. done. }
      { rewrite (path_rep_Frame _ d1). iFrame. done. }
      iIntros (t'' π'' (n2 & Ht2 & Hp2 & Hl2 & Hlen)) "Ht Hp Hq".
      iApply (IH with "Ht Hp Hq [HΦ]"); [by exists n2|simpl in Hf; lia|done].
    + iApply (wp_insert_step_right x kx vx lx rx d1 p kp vp s1 g kg vg s2 π2
        with "[Hx Hlx Hrx] [Hp Hs1 Hg] Hq"); try done.
      { rewrite tree_rep_Node. iFrame. done. }
      { rewrite (path_rep_Frame _ d1). iFrame. done. }
      iIntros (t'' π'' (n2 & Ht2 & Hp2 & Hl2 & Hlen)) "Ht Hp Hq".
      iApply (IH with "Ht Hp Hq [HΦ]"); [by exists n2|simpl in Hf; lia|done].
  - iDestruct (path_open with "Hp") as "(%Hp & Hp & Hs1 & Hπ)". rbsimpl. rbsteps.
    rewrite red_node_in. rbsteps.
    iDestruct (plug_rep (Frame d1 p false kp vp s1 :: π) (Node x true kx vx lx rx)
      with "[Hx Hlx Hrx] [Hp Hs1 Hπ]") as "[Ht Hp]".
    { rewrite tree_rep_Node. iFrame. done. }
    { rewrite path_rep_Frame. iFrame. done. }
    iApply ("HΦ" with "[%] Ht Hp Hq"). split; [done|].
    inversion Hπ; subst.
    destruct (rb_plug (Frame d1 p false kp vp s1 :: π) true n) with (t := Node x true kx vx lx rx)
      as (m & Hm); [by econstructor|done|]. by eapply rb_paint_root.
Qed.


Context `{KeyOrderOk}.

(** ** Insertion *)

Lemma wp_insert_descend fuel z nz : ∀ t π q Φ,
  (height t < fuel)%nat → follows (key nz) π →
  z ↪[γ] nz -∗ tree_rep (paddr π) t -∗ path_rep (addr t) π -∗ nil_rep q -∗
  (∀ π', ⌜plug π' Leaf = plug π t ∧ follows (key nz) π'⌝ -∗
     z ↪[γ] nz -∗ path_rep (nil tree) π' -∗ nil_rep q -∗ Φ (paddr π')) -∗
  wp γ (insert_descend tree fuel z (paddr π) (addr t)) Φ.
Proof.
  induction fuel as [|fuel IH]; intros t π q Φ Hf Hfo; [lia|].
  iIntros "Hz Ht Hp Hq HΦ". cbn [insert_descend].
  iDestruct (addr_nil with "Ht Hq") as %Hn. destruct t as [|a c k v l r]; cbn [addr].
  - rewrite decide_True //. iApply wp_ret. by iApply ("HΦ" with "[] Hz Hp Hq").
  - rewrite decide_False; [|by rewrite Hn].
    iDestruct (tree_open with "Ht") as "(%Ha & Ha & Hl & Hr)". rbsteps.
    cbn [height] in Hf. destruct (Z.ltb_spec 0 (comp_func k (key nz))) as [Hk|Hk]; rbsteps.
    + iApply (IH l (Frame Lft a c k v r :: π) with "Hz Hl [Ha Hr Hp] Hq"); [lia| | |done].
      { constructor; [by split|done]. }
      rewrite path_rep_Frame. iFrame. done.
    + iApply (IH r (Frame Rgt a c k v l :: π) with "Hz Hr [Ha Hl Hp] Hq"); [lia| | |done].
      { constructor; [split; [done|lia]|done]. }
      rewrite path_rep_Frame. iFrame. done.
Qed.

Lemma wp_TreeInsertHelp fuel z nz t q Φ :
  (height t < fuel)%nat →
  z ↪[γ] nz -∗ tree_rep (root tree) t -∗ path_rep (addr t) [] -∗ nil_rep q -∗
  (∀ π, ⌜plug π Leaf = t ∧ follows (key nz) π⌝ -∗
     z ↪[γ] RbNode (key nz) (info nz) (red nz) (nil tree) (nil tree) (paddr π) -∗
     path_rep z π -∗ nil_rep q -∗ Φ tt) -∗
  wp γ (TreeInsertHelp tree fuel z) Φ.
Proof.
  iIntros (Hf) "Hz Ht Hp Hq HΦ". unfold TreeInsertHelp. rbsteps.
  unfold path_rep at 1. iDestruct "Hp" as (kr vr) "Hp". rbsteps. iApply wp_bind.
  iApply (wp_insert_descend fuel z _ t [] with "Hz Ht [Hp] Hq"); [done|by constructor| |].
  { iExists kr, vr. iFrame. }
  iIntros (π (Hπ & Hfo)) "Hz Hp Hq". cbn [key set_left set_right] in *. rbsteps.
  destruct π as [|[d a c k v s] π]; rbsimpl.
  - rewrite decide_True //. unfold path_rep. iDestruct "Hp" as (kr' vr') "Hp". rbsteps.
    iApply ("HΦ" $! [] with "[%] Hz [Hp] Hq"); [done|]. iExists kr', vr'. iFrame.
  - iDestruct (path_open with "Hp") as "(%Ha & Ha & Hs & Hp)".
    iDestruct (root_ne with "Ha Hp") as %Hne. rewrite decide_False //. rbsteps.
    rewrite key_node_in. apply Forall_cons in Hfo as Hfo'. destruct Hfo' as [Hd _].
    destruct (Z.ltb_spec 0 (comp_func k (key nz))) as [Hk|Hk].
    + assert (d = Lft) as -> by (by apply Hd). rbsteps.
      iApply ("HΦ" $! (Frame Lft a c k v s :: π) with "[%] Hz [-Hq] Hq"); [done|].
      rewrite path_rep_Frame. iFrame. done.
    + assert (d = Rgt) as -> by (destruct d; [|done]; destruct Hd as [Hd _]; specialize (Hd eq_refl); lia).
      rbsteps.
      iApply ("HΦ" $! (Frame Rgt a c k v s :: π) with "[%] Hz [-Hq] Hq"); [done|].
      rewrite path_rep_Frame. iFrame. done.
Qed.

Lemma tree_addresses a n p t : a ↪[γ] n -∗ tree_rep p t -∗ ⌜a ∉ e_addr <$> inorder t⌝.
Proof.
  revert p. induction t as [|b c k v l IHl r IHr]; iIntros (p) "Ha Ht".
  - iPureIntro. apply not_elem_of_nil.
  - iDestruct (tree_open with "Ht") as "(%Hb & Hb & Hl & Hr)".
    iDestruct (points_to_ne with "Ha Hb") as %Hab.
    iDestruct (IHl with "Ha Hl") as %Hl. iDestruct (IHr with "Ha Hr") as %Hr.
    iPureIntro. simpl. rewrite fmap_app fmap_cons elem_of_app elem_of_cons. naive_solver.
Qed.

Lemma wp_rb_tree_add junk fuel k v l Φ :
  enough fuel l → entry_find k l = None →
  rb_rep l -∗
  (∀ a, ⌜0 < a ∧ a ∉ e_addr <$> l⌝ -∗ rb_rep (entry_insert (a, k, v) l) -∗ Φ a) -∗
  wp γ (rb_tree_add junk tree fuel k v) Φ.
Proof.
  iIntros (Hf Hn) "Hl HΦ". iDestruct "Hl" as (t q (<- & Hs & m & Ht)) "(Ht & Hp & Hq)".
  pose proof (enough_height _ _ _ Ht Hf) as Hh.
  unfold rb_tree_add. iApply wp_bind. iApply wp_new. iIntros (z) "%Hz Hz".
  iDestruct (tree_addresses with "Hz Ht") as %Hfresh. rbsteps.
  iApply wp_bind. iApply (wp_TreeInsertHelp with "Hz Ht Hp Hq"); [lia|].
  iIntros (π (Hπ & Hfo)) "Hz Hp Hq". cbn [key info red set_key set_info] in *. rbsteps.
  iApply wp_bind.
  rewrite -Hπ in Ht Hh Hs Hn Hfresh |- *. rewrite !inorder_plug in Hs Hn |- *. cbn [inorder app] in *.
  destruct (rb_unplug _ _ _ Ht) as (c & n & HL & Hrb). inversion HL; subst.
  pose proof (height_plug π Leaf) as Hlen. cbn [height] in Hlen.
  iApply (wp_insert_loop fuel (before π ++ (z, k, v) :: after π) (Node z true k v Leaf Leaf) π
    with "[Hz] Hp Hq"); [|lia| |].
  { exists 0%nat. split_and!; [by repeat constructor|done|by rewrite inorder_plug|done]. }
  { rewrite tree_rep_Node. iFrame. unfold tree_rep. done. }
  iIntros (t' (Ht' & m' & Hm')) "Ht Hp Hq". unfold path_rep. iDestruct "Hp" as (kr vr) "Hp". rbsteps.
  iApply wp_bind. iApply (wp_st_red false with "Ht Hq"); [done|]. iIntros "Ht Hq". rbsteps.
  iApply ("HΦ" with "[%]"); [by rewrite inorder_plug in Hfresh|].
  pose proof (follows_insert π (z, k, v) Hfo Hs Hn) as Hins.
  iExists (paint false t'), q. iFrame "Ht Hq". iSplit.
  - iPureIntro. rewrite inorder_paint Ht'. split_and!; [done|by apply sorted_entry_insert|eauto].
  - iExists kr, vr. by destruct t'.
Qed.

Lemma wp_rb_tree_insert junk fuel k v l Φ :
  enough fuel l →
  rb_rep l -∗
  (∀ a l', ⌜match entry_find k l with
            | Some e => a = e_addr e ∧ l' = entry_set k v l
            | None => 0 < a ∧ a ∉ e_addr <$> l ∧ l' = entry_insert (a, k, v) l
            end⌝ -∗ rb_rep l' -∗ Φ a) -∗
  wp γ (rb_tree_insert junk tree fuel k v) Φ.
Proof.
  iIntros (Hf) "Hl HΦ". unfold rb_tree_insert. iApply wp_bind.
  iApply (wp_rb_tree_query with "Hl"); [done|]. iIntros "Hl".
  destruct (entry_find k l) as [[[a k0] v0]|] eqn:He; cbn [entry_or_null].
  - apply entry_find_Some in He as [Hin Hk].
    iDestruct "Hl" as (t q (<- & Hs & m & Ht)) "(Ht & Hp & Hq)".
    destruct (find_node _ _ _ _ Hin) as (π & c & l & r & ->).
    iDestruct (unplug_rep with "Ht Hp") as "[Ht Hp]".
    iDestruct (tree_open with "Ht") as "(%Ha & Ha & Hl & Hr)".
    unfold e_addr. cbn [fst snd]. rewrite (proj2 (Z.eqb_neq a 0)); [|lia]. cbn [negb]. rbsteps.
    rewrite inorder_plug in Hs |- *. cbn [inorder] in *. rewrite -!app_assoc /= in Hs |- *.
    rewrite (app_assoc (before π)) in Hs |- *.
    iApply ("HΦ" $! a (entry_set k v _) with "[%]"); [done|].
    iDestruct (plug_rep π (Node a c k0 v l r) with "[Ha Hl Hr] Hp") as "[Ht Hp]".
    { rewrite tree_rep_Node. iFrame. done. }
    iExists _, q. iFrame. iPureIntro. split_and!.
    + rewrite inorder_plug entry_set_mid //=. by rewrite -!app_assoc.
    + by apply sorted_set.
    + destruct (rb_unplug _ _ _ Ht) as (c' & n & Hn & Hrb).
      apply (rb_plug _ _ _ Hrb). inversion Hn; subst; by econstructor.
  - cbn. iApply (wp_rb_tree_add with "Hl"); [done..|]. iIntros (a [Ha Hfresh]) "Hl".
    by iApply ("HΦ" with "[%] Hl").
Qed.

End insertion.
