(* ===== verification/RbDelete.v ===== *)
(** * Deletion from red-black trees

    The states of the rebalancing loop, its steps for each side, and the
    specification of [rb_tree_delete]. *)

From S2P Require Import Prelude Heap RbTree RbShape RbRep.
#[local] Open Scope Z_scope.

Section deletion.
Context `{!ghost_mapG Σ Z rb_node} {γ : gname} {tree : rb_tree}.
#[local] Notation addr := (addr tree).
#[local] Notation paddr := (paddr tree).
#[local] Notation nil_rep := (nil_rep γ tree).
#[local] Notation tree_rep := (tree_rep γ tree).
#[local] Notation path_rep := (path_rep γ tree).
#[local] Notation rb_rep := (rb_rep γ tree).

(** *** Rebalancing after a deletion *)

Lemma wp_both_black w kw vw cw wl wr p q Φ :
  tree_rep p (Node w cw kw vw wl wr) -∗ nil_rep q -∗
  (tree_rep p (Node w cw kw vw wl wr) -∗ nil_rep q -∗
   Φ (negb (colour wr) && negb (colour wl))) -∗
  wp γ (both_black w) Φ.
Proof.
  iIntros "Hs Hq HΦ". iDestruct (tree_open with "Hs") as "(%Hw & Hw & Hl & Hr)".
  unfold both_black. rbsteps. iApply (wp_ld_red with "Hr Hq"). iIntros "Hr Hq".
  destruct (colour wr); cbn [negb andb].
  - rbsteps. iApply ("HΦ" with "[-Hq] Hq"). rewrite tree_rep_Node. iFrame. done.
  - rbsteps. iApply (wp_ld_red with "Hl Hq"). iIntros "Hl Hq". rbsteps.
    iApply ("HΦ" with "[-Hq] Hq"). rewrite tree_rep_Node. iFrame. done.
Qed.

(** The loop of the deletion is at [t], which lacks a black node on every path
    down if it is black, below [π]; [r] is the root of the tree. *)
Definition delete_state (l : list entry) (len : nat) (r : Z) (t : rbt) (π : list frame) : Prop :=
  ∃ n, (colour t = true ∧ rb (paint false t) false (S n)
        ∨ rb t false n ∧ addr (plug π t) = r ∧ (length π ≤ len)%nat)
    ∧ rbp π false (S n) ∧ inorder (plug π t) = l.

(** The sibling [s] of [t] is black. *)
Definition turn_state (l : list entry) (len : nat) (r : Z) (d : dir) (t : rbt)
    (p : Z) (c : bool) (kp vp : Z) (s : rbt) (π : list frame) : Prop :=
  ∃ n w kw vw wl wr, s = Node w false kw vw wl wr ∧ rb t false n
    ∧ rbp (Frame d p c kp vp s :: π) false (S n)
    ∧ inorder (plug (Frame d p c kp vp s :: π) t) = l
    ∧ (c = false → (length π ≤ len)%nat ∧ ∀ u v, addr (plug π (Node p false kp vp u v)) = r)
    ∧ (p = r ∨ π ≠ [] ∧ ∀ u, addr (plug π u) = r).

(** The tree is red-black again and [r], its former root, is black. *)
Definition done_state (l : list entry) (r : Z) (t : rbt) : Prop :=
  inorder t = l ∧ (∃ m, rb t false m) ∧ ∃ π k v a b, t = plug π (Node r false k v a b).

Lemma plug_root_addr f π t u : addr (plug (f :: π) t) = addr (plug (f :: π) u).
Proof.
  revert f t u. induction π as [|g π IH]; intros f t u.
  - by destruct f as [[] ? ? ? ? ?].
  - change (addr (plug (g :: π) (plug1 t f)) = addr (plug (g :: π) (plug1 u f))). apply IH.
Qed.

Lemma done_above l r π t m :
  inorder (plug π t) = l → rb (plug π t) false m → (π ≠ [] ∧ ∀ u, addr (plug π u) = r) →
  done_state l r (plug π t).
Proof.
  intros Hl Hm [Hne Hr]. split; [done|]. split; [eauto|].
  destruct (plug π t) as [|a c k v x y] eqn:Ht.
  - destruct π as [|f π]; [done|]. specialize (Hr t). rewrite Ht in Hr.
    assert (∀ π t, t ≠ Leaf → plug π t ≠ Leaf) as Hp.
    { clear. induction π as [|[[] ? ? ? ? ?] π IH]; intros t Ht; [done|by apply IH..]. }
    by destruct (Hp π (plug1 t f)); [destruct f as [[] ? ? ? ? ?]|].
  - specialize (Hr t). rewrite Ht in Hr. simpl in Hr. subst a.
    inversion Hm; subst. by exists [], k, v, x, y.
Qed.

Lemma wp_delete_sibling_left t p c kp vp s π n q r Φ :
  rb t false n → rbp (Frame Lft p c kp vp s :: π) false (S n) → (t = Leaf → q = p) →
  addr (plug (Frame Lft p c kp vp s :: π) t) = r →
  tree_rep p t -∗ path_rep (addr t) (Frame Lft p c kp vp s :: π) -∗ nil_rep q -∗
  (∀ c' s' π',
     ⌜turn_state (inorder (plug (Frame Lft p c kp vp s :: π) t)) (length π) r Lft t p c' kp vp s' π'⌝ -∗
     tree_rep p t -∗ path_rep (addr t) (Frame Lft p c' kp vp s' :: π') -∗ nil_rep q -∗
     Φ (addr s')) -∗
  wp γ (delete_sibling_left tree (addr t)) Φ.
Proof.
  iIntros (Ht Hπ Hqp Hr) "Ht Hp Hq HΦ". unfold delete_sibling_left.
  iApply (wp_ld_parent with "Ht Hq"); [done|]. iIntros "Ht Hq".
  iDestruct (path_open with "Hp") as "(%Hp & Hp & Hs & Hπ)". rbsteps.
  iApply (wp_ld_red with "Hs Hq"). iIntros "Hs Hq".
  assert (p = r ∨ π ≠ [] ∧ ∀ u, addr (plug π u) = r) as Htop.
  { destruct π as [|f π]; [by left|right]. split; [done|]. intros u. rewrite -Hr.
    apply (plug_root_addr f π). }
  destruct s as [|w [] kw vw wl wr]; cbn [colour].
  - exfalso. inversion Hπ as [|? ? ? ? ? ? ? ? ? Hs ?|? ? ? ? ? ? ? Hs ?]; inversion Hs.
  - inversion Hπ as [|? ? ? ? ? ? ? ? ? Hs Hπ'|? ? ? ? ? ? ? Hs ?]; subst; inversion Hs as [| |? ? ? ? ? ? Hwl Hwr]; subst.
    rbsimpl. iDestruct (tree_open with "Hs") as "(%Hw & Hw & Hwl & Hwr)". rbsteps.
    iApply (wp_ld_parent with "Ht Hq"); [done|]. iIntros "Ht Hq". rbsteps.
    iApply (wp_ld_parent with "Ht Hq"); [done|]. iIntros "Ht Hq". iApply wp_bind.
    iApply (wp_LeftRotate π p true kp vp t w false kw vw wl wr
      with "[Hp Hw Ht Hwl Hwr] Hπ Hq").
    { rewrite !tree_rep_Node. iFrame. done. }
    iIntros "Hw Hπ Hq". iDestruct (tree_open with "Hw") as "(_ & Hw & Hp & Hwr)".
    iDestruct (tree_open with "Hp") as "(_ & Hp & Ht & Hwl)".
    iApply (wp_ld_parent with "Ht Hq"); [done|]. iIntros "Ht Hq". rbsteps.
    iApply ("HΦ" $! true wl (Frame Lft w false kw vw wr :: π) with "[%] Ht [-Hq] Hq");
      [|rewrite !path_rep_Frame; iFrame; done].
    inversion Hwl as [|z kz vz zl zr ? ? ? Hzl Hzr|]; subst. exists n, z, kz, vz, zl, zr.
    split_and!; [done..| |solve_inorder|done|].
    + econstructor; [done|]. by econstructor.
    + destruct Htop as [Htop|[Hne Htop]]; [by left|]. right. split; [done|]. intros u.
      by apply (Htop (Node w false kw vw u wr)).
  - iApply wp_ret. iApply ("HΦ" $! c (Node w false kw vw wl wr) π with "[%] Ht [-Hq] Hq");
      [|rewrite !path_rep_Frame; iFrame; done].
    exists n, w, kw, vw, wl, wr. split_and!; try done. intros Hc. split; [done|].
    intros u v. destruct Htop as [Htop|[_ Htop]]; [|done]. subst p.
    destruct π as [|f π]; [done|]. rewrite -Hr. apply (plug_root_addr f π).
Qed.

Lemma wp_delete_outer_left l len r t p c kp vp w kw vw wl wr π q Φ :
  let s := Node w false kw vw wl wr in
  turn_state l len r Lft t p c kp vp s π → negb (colour wr) && negb (colour wl) = false →
  (t = Leaf → q = p) →
  tree_rep p t -∗ path_rep (addr t) (Frame Lft p c kp vp s :: π) -∗ nil_rep q -∗
  (∀ w' kw' vw' wl' wr',
     let s' := Node w' false kw' vw' wl' wr' in
     ⌜turn_state l len r Lft t p c kp vp s' π ∧ colour wr' = true⌝ -∗
     tree_rep p t -∗ path_rep (addr t) (Frame Lft p c kp vp s' :: π) -∗ nil_rep q -∗ Φ w') -∗
  wp γ (delete_outer_left tree (addr t) w) Φ.
Proof.
  iIntros (s Hs Hb Hqp) "Ht Hp Hq HΦ". unfold delete_outer_left. subst s.
  iDestruct (path_open with "Hp") as "(%Hp & Hp & Hs & Hπ)".
  iDestruct (tree_open with "Hs") as "(%Hw & Hw & Hwl & Hwr)". rbsteps.
  iApply (wp_ld_red with "Hwr Hq"). iIntros "Hwr Hq".
  destruct (colour wr) eqn:Hcr; cbn [negb].
  - iApply wp_ret. iApply ("HΦ" $! w kw vw wl wr with "[%] Ht [-Hq] Hq"); [done|].
    rewrite path_rep_Frame tree_rep_Node. iFrame. done.
  - destruct wl as [|z [] kz vz zl zr]; [done| |done]. rbsteps. iApply wp_bind.
    iApply (wp_st_red false with "Hwl Hq"); [done|]. iIntros "Hwl Hq". cbn [paint]. rbsteps.
    iApply wp_bind.
    iApply (wp_RightRotate (Frame Rgt p c kp vp t :: π) w true kw vw z false kz vz zl zr wr
      with "[Hw Hwl Hwr] [Hp Hπ Ht] Hq").
    { rewrite (tree_rep_Node _ w). iFrame. done. }
    { rewrite path_rep_Frame. iFrame. done. }
    iIntros "Hs Hp Hq". iDestruct (path_open with "Hp") as "(_ & Hp & Ht & Hπ)".
    iApply (wp_ld_parent with "Ht Hq"); [done|]. iIntros "Ht Hq". rbsteps.
    iApply ("HΦ" $! z kz vz zl (Node w true kw vw zr wr) with "[%] Ht [-Hq] Hq");
      [|rewrite path_rep_Frame; iFrame; done].
    split; [|done]. destruct Hs as (n & w' & kw' & vw' & wl' & wr' & [= <- <- <- <- <-] & Ht & Hπ & Hl & Htop).
    exists n, z, kz, vz, zl, (Node w true kw vw zr wr). split_and!; try done.
    + apply rbp_sibling in Hπ as (cl & cr & Hl' & Hr' & Hπ). apply rbp_sibling.
      pose proof (rb_colour _ _ _ Hr'). assert (cr = false) as -> by congruence.
      inversion Hl'; subst. exists false, true. split_and!; [done|by constructor|done].
    + rewrite -Hl. solve_inorder.
    + apply Htop.
    + apply Htop.
Qed.

Lemma wp_delete_turn_left l len r t p c kp vp w kw vw wl wr π q Φ :
  let s := Node w false kw vw wl wr in
  turn_state l len r Lft t p c kp vp s π → colour wr = true → (t = Leaf → q = p) →
  tree_rep p t -∗ path_rep (addr t) (Frame Lft p c kp vp s :: π) -∗ nil_rep q -∗
  (∀ t', ⌜done_state l r t'⌝ -∗ tree_rep (root tree) t' -∗ path_rep (addr t') [] -∗
     nil_rep q -∗ Φ r) -∗
  wp γ (delete_turn_left tree r (addr t) w) Φ.
Proof.
  iIntros (s Hs Hcr Hqp) "Ht Hp Hq HΦ". unfold delete_turn_left. subst s.
  iDestruct (path_open with "Hp") as "(%Hp & Hp & Hs & Hπ)".
  iDestruct (tree_open with "Hs") as "(%Hw & Hw & Hwl & Hwr)". rbsimpl.
  iApply (wp_ld_parent with "Ht Hq"); [done|]. iIntros "Ht Hq". rbsteps.
  iApply (wp_ld_parent with "Ht Hq"); [done|]. iIntros "Ht Hq". rbsteps. iApply wp_bind.
  iApply (wp_st_red false with "Hwr Hq"); [done|]. iIntros "Hwr Hq".
  iApply (wp_ld_parent with "Ht Hq"); [done|]. iIntros "Ht Hq". iApply wp_bind.
  iApply (wp_LeftRotate π p false kp vp t w c kw vw wl (paint false wr)
    with "[Hp Hw Ht Hwl Hwr] Hπ Hq").
  { rewrite !tree_rep_Node. destruct wr; iFrame; done. }
  iIntros "Hw Hπ Hq". iApply wp_ret.
  iDestruct (plug_rep π with "Hw Hπ") as "[Hw Hπ]". iApply ("HΦ" with "[%] Hw Hπ Hq").
  destruct Hs as (n & w' & kw' & vw' & wl' & wr' & [= <- <- <- <- <-] & Ht & Hπ & Hl & _ & Htop).
  apply rbp_sibling in Hπ as (cl & cr & Hwl & Hwr & Hπ).
  pose proof (rb_colour _ _ _ Hwr). assert (cr = true) as -> by congruence.
  apply rb_blacken in Hwr.
  assert (rb (Node w c kw vw (Node p false kp vp t wl) (paint false wr)) c (if c then S n else S (S n)))
    as Hrb by (destruct c; repeat (done || econstructor)).
  destruct (rb_plug _ _ _ Hπ _ Hrb) as (m & Hm).
  assert (inorder (plug π (Node w c kw vw (Node p false kp vp t wl) (paint false wr))) = l) as Hl'
    by (rewrite -Hl; solve_inorder).
  destruct Htop as [->|Htop]; [|by eapply done_above].
  split; [done|]. split; [eauto|].
  by exists (Frame Lft w c kw vw (paint false wr) :: π), kp, vp, t, wl.
Qed.

Lemma wp_delete_sibling_right t p c kp vp s π n q r Φ :
  rb t false n → rbp (Frame Rgt p c kp vp s :: π) false (S n) → (t = Leaf → q = p) →
  addr (plug (Frame Rgt p c kp vp s :: π) t) = r →
  tree_rep p t -∗ path_rep (addr t) (Frame Rgt p c kp vp s :: π) -∗ nil_rep q -∗
  (∀ c' s' π',
     ⌜turn_state (inorder (plug (Frame Rgt p c kp vp s :: π) t)) (length π) r Rgt t p c' kp vp s' π'⌝ -∗
     tree_rep p t -∗ path_rep (addr t) (Frame Rgt p c' kp vp s' :: π') -∗ nil_rep q -∗
     Φ (addr s')) -∗
  wp γ (delete_sibling_right tree (addr t)) Φ.
Proof.
  iIntros (Ht Hπ Hqp Hr) "Ht Hp Hq HΦ". unfold delete_sibling_right.
  iApply (wp_ld_parent with "Ht Hq"); [done|]. iIntros "Ht Hq".
  iDestruct (path_open with "Hp") as "(%Hp & Hp & Hs & Hπ)". rbsteps.
  iApply (wp_ld_red with "Hs Hq"). iIntros "Hs Hq".
  assert (p = r ∨ π ≠ [] ∧ ∀ u, addr (plug π u) = r) as Htop.
  { destruct π as [|f π]; [by left|right]. split; [done|]. intros u. rewrite -Hr.
    apply (plug_root_addr f π). }
  destruct s as [|w [] kw vw wl wr]; cbn [colour].
  - exfalso. inversion Hπ as [|? ? ? ? ? ? ? ? ? Hs ?|? ? ? ? ? ? ? Hs ?]; inversion Hs.
  - inversion Hπ as [|? ? ? ? ? ? ? ? ? Hs Hπ'|? ? ? ? ? ? ? Hs ?]; subst; inversion Hs as [| |? ? ? ? ? ? Hwl Hwr]; subst.
    rbsimpl. iDestruct (tree_open with "Hs") as "(%Hw & Hw & Hwl & Hwr)". rbsteps.
    iApply (wp_ld_parent with "Ht Hq"); [done|]. iIntros "Ht Hq". rbsteps.
    iApply (wp_ld_parent with "Ht Hq"); [done|]. iIntros "Ht Hq". iApply wp_bind.
    iApply (wp_RightRotate π p true kp vp w false kw vw wl wr t
      with "[Hp Hw Ht Hwl Hwr] Hπ Hq").
    { rewrite !tree_rep_Node. iFrame. done. }
    iIntros "Hw Hπ Hq". iDestruct (tree_open with "Hw") as "(_ & Hw & Hwl & Hp)".
    iDestruct (tree_open with "Hp") as "(_ & Hp & Hwr & Ht)".
    iApply (wp_ld_parent with "Ht Hq"); [done|]. iIntros "Ht Hq". rbsteps.
    iApply ("HΦ" $! true wr (Frame Rgt w false kw vw wl :: π) with "[%] Ht [-Hq] Hq");
      [|rewrite !path_rep_Frame; iFrame; done].
    inversion Hwr as [|z kz vz zl zr ? ? ? Hzl Hzr|]; subst. exists n, z, kz, vz, zl, zr.
    split_and!; [done..| |solve_inorder|done|].
    + econstructor; [done|]. by econstructor.
    + destruct Htop as [Htop|[Hne Htop]]; [by left|]. right. split; [done|]. intros u.
      by apply (Htop (Node w false kw vw wl u)).
  - iApply wp_ret. iApply ("HΦ" $! c (Node w false kw vw wl wr) π with "[%] Ht [-Hq] Hq");
      [|rewrite !path_rep_Frame; iFrame; done].
    exists n, w, kw, vw, wl, wr. split_and!; try done. intros Hc. split; [done|].
    intros u v. destruct Htop as [Htop|[_ Htop]]; [|done]. subst p.
    destruct π as [|f π]; [done|]. rewrite -Hr. apply (plug_root_addr f π).
Qed.

Lemma wp_delete_outer_right l len r t p c kp vp w kw vw wl wr π q Φ :
  let s := Node w false kw vw wl wr in
  turn_state l len r Rgt t p c kp vp s π → negb (colour wr) && negb (colour wl) = false →
  (t = Leaf → q = p) →
  tree_rep p t -∗ path_rep (addr t) (Frame Rgt p c kp vp s :: π) -∗ nil_rep q -∗
  (∀ w' kw' vw' wl' wr',
     let s' := Node w' false kw' vw' wl' wr' in
     ⌜turn_state l len r Rgt t p c kp vp s' π ∧ colour wl' = true⌝ -∗
     tree_rep p t -∗ path_rep (addr t) (Frame Rgt p c kp vp s' :: π) -∗ nil_rep q -∗ Φ w') -∗
  wp γ (delete_outer_right tree (addr t) w) Φ.
Proof.
  iIntros (s Hs Hb Hqp) "Ht Hp Hq HΦ". unfold delete_outer_right. subst s.
  iDestruct (path_open with "Hp") as "(%Hp & Hp & Hs & Hπ)".
  iDestruct (tree_open with "Hs") as "(%Hw & Hw & Hwl & Hwr)". rbsteps.
  iApply (wp_ld_red with "Hwl Hq"). iIntros "Hwl Hq".
  destruct (colour wl) eqn:Hcl; cbn [negb].
  - iApply wp_ret. iApply ("HΦ" $! w kw vw wl wr with "[%] Ht [-Hq] Hq"); [done|].
    rewrite path_rep_Frame tree_rep_Node. iFrame. done.
  - destruct wr as [|z [] kz vz zl zr]; [done| |done]. rbsteps. iApply wp_bind.
    iApply (wp_st_red false with "Hwr Hq"); [done|]. iIntros "Hwr Hq". cbn [paint]. rbsteps.
    iApply wp_bind.
    iApply (wp_LeftRotate (Frame Lft p c kp vp t :: π) w true kw vw wl z false kz vz zl zr
      with "[Hw Hwl Hwr] [Hp Hπ Ht] Hq").
    { rewrite (tree_rep_Node _ w). iFrame. done. }
    { rewrite path_rep_Frame. iFrame. done. }
    iIntros "Hs Hp Hq". iDestruct (path_open with "Hp") as "(_ & Hp & Ht & Hπ)".
    iApply (wp_ld_parent with "Ht Hq"); [done|]. iIntros "Ht Hq". rbsteps.
    iApply ("HΦ" $! z kz vz (Node w true kw vw wl zl) zr with "[%] Ht [-Hq] Hq");
      [|rewrite path_rep_Frame; iFrame; done].
    split; [|done]. destruct Hs as (n & w' & kw' & vw' & wl' & wr' & [= <- <- <- <- <-] & Ht & Hπ & Hl & Htop).
    exists n, z, kz, vz, (Node w true kw vw wl zl), zr. split_and!; try done.
    + apply rbp_sibling in Hπ as (cl & cr & Hl' & Hr' & Hπ). apply rbp_sibling.
      pose proof (rb_colour _ _ _ Hl'). assert (cl = false) as -> by congruence.
      inversion Hr'; subst. exists true, false. split_and!; [by constructor|done|done].
    + rewrite -Hl. solve_inorder.
    + apply Htop.
    + apply Htop.
Qed.

Lemma wp_delete_turn_right l len r t p c kp vp w kw vw wl wr π q Φ :
  let s := Node w false kw vw wl wr in
  turn_state l len r Rgt t p c kp vp s π → colour wl = true → (t = Leaf → q = p) →
  tree_rep p t -∗ path_rep (addr t) (Frame Rgt p c kp vp s :: π) -∗ nil_rep q -∗
  (∀ t', ⌜done_state l r t'⌝ -∗ tree_rep (root tree) t' -∗ path_rep (addr t') [] -∗
     nil_rep q -∗ Φ r) -∗
  wp γ (delete_turn_right tree r (addr t) w) Φ.
Proof.
  iIntros (s Hs Hcl Hqp) "Ht Hp Hq HΦ". unfold delete_turn_right. subst s.
  iDestruct (path_open with "Hp") as "(%Hp & Hp & Hs & Hπ)".
  iDestruct (tree_open with "Hs") as "(%Hw & Hw & Hwl & Hwr)". rbsimpl.
  iApply (wp_ld_parent with "Ht Hq"); [done|]. iIntros "Ht Hq". rbsteps.
  iApply (wp_ld_parent with "Ht Hq"); [done|]. iIntros "Ht Hq". rbsteps. iApply wp_bind.
  iApply (wp_st_red false with "Hwl Hq"); [done|]. iIntros "Hwl Hq".
  iApply (wp_ld_parent with "Ht Hq"); [done|]. iIntros "Ht Hq". iApply wp_bind.
  iApply (wp_RightRotate π p false kp vp w c kw vw (paint false wl) wr t
    with "[Hp Hw Ht Hwl Hwr] Hπ Hq").
  { rewrite !tree_rep_Node. destruct wl; iFrame; done. }
  iIntros "Hw Hπ Hq". iApply wp_ret.
  iDestruct (plug_rep π with "Hw Hπ") as "[Hw Hπ]". iApply ("HΦ" with "[%] Hw Hπ Hq").
  destruct Hs as (n & w' & kw' & vw' & wl' & wr' & [= <- <- <- <- <-] & Ht & Hπ & Hl & _ & Htop).
  apply rbp_sibling in Hπ as (cl & cr & Hwl & Hwr & Hπ).
  pose proof (rb_colour _ _ _ Hwl). assert (cl = true) as -> by congruence.
  apply rb_blacken in Hwl.
  assert (rb (Node w c kw vw (paint false wl) (Node p false kp vp wr t)) c (if c then S n else S (S n)))
    as Hrb by (destruct c; repeat (done || econstructor)).
  destruct (rb_plug _ _ _ Hπ _ Hrb) as (m & Hm).
  assert (inorder (plug π (Node w c kw vw (paint false wl) (Node p false kp vp wr t))) = l) as Hl'
    by (rewrite -Hl; solve_inorder).
  destruct Htop as [->|Htop]; [|by eapply done_above].
  split; [done|]. split; [eauto|].
  by exists (Frame Rgt w c kw vw (paint false wl) :: π), kp, vp, wr, t.
Qed.

(** The next state of the loop: a shorter path, or the end. *)
Definition delete_next (l : list entry) (len : nat) (r q : Z) (Φ : Z → iProp Σ) : iProp Σ :=
  ((∀ t π, ⌜delete_state l len r t π ∧ t ≠ Leaf⌝ -∗
      tree_rep (paddr π) t -∗ path_rep (addr t) π -∗ nil_rep q -∗ Φ (addr t))
   ∧ (∀ t, ⌜done_state l r t⌝ -∗
      tree_rep (root tree) t -∗ path_rep (addr t) [] -∗ nil_rep q -∗ Φ r))%I.

(** Both children of the sibling are black: the parent lacks a black node. *)
Lemma delete_state_up l len r d t p c kp vp w kw vw wl wr π :
  turn_state l len r d t p c kp vp (Node w false kw vw wl wr) π →
  colour wl = false → colour wr = false →
  delete_state l len r (plug1 t (Frame d p c kp vp (Node w true kw vw wl wr))) π.
Proof.
  intros (n & w' & kw' & vw' & wl' & wr' & [= <- <- <- <- <-] & Ht & Hπ & Hl & Htop & _) Hcl Hcr.
  apply rbp_sibling in Hπ as (cl & cr & Hwl & Hwr & Hπ).
  pose proof (rb_colour _ _ _ Hwl). assert (cl = false) as -> by congruence.
  pose proof (rb_colour _ _ _ Hwr). assert (cr = false) as -> by congruence.
  destruct c.
  - exists n. split_and!; [left|by eapply rbp_weaken|].
    + destruct d; split; try done; repeat (done || econstructor).
    + rewrite -Hl. destruct d; cbn [plug1]; solve_inorder.
  - exists (S n). destruct Htop as [Hlen Htop]; [done|]. split_and!; [right|done|].
    + destruct d; (split_and!; [repeat (done || econstructor)|apply Htop|done]).
    + rewrite -Hl. destruct d; cbn [plug1]; solve_inorder.
Qed.

(** The step of the loop after the sibling is black. *)
Lemma wp_delete_black_left l len r t p c kp vp w kw vw wl wr π q Φ :
  let s := Node w false kw vw wl wr in
  turn_state l len r Lft t p c kp vp s π → (t = Leaf → q = p) →
  tree_rep p t -∗ path_rep (addr t) (Frame Lft p c kp vp s :: π) -∗ nil_rep q -∗
  delete_next l len r q Φ -∗
  wp γ (both ← both_black w;
        if (both : bool) then st (set_red true) w;; ld parent (addr t)
        else w ← delete_outer_left tree (addr t) w; delete_turn_left tree r (addr t) w) Φ.
Proof.
  iIntros (s Hs Hqp) "Ht Hp Hq HΦ". subst s. iApply wp_bind.
  iDestruct (path_open with "Hp") as "(%Hp & Hp & Hs & Hπ)".
  iApply (wp_both_black with "Hs Hq"). iIntros "Hs Hq".
  destruct (negb (colour wr) && negb (colour wl)) eqn:Hb.
  - apply andb_true_iff in Hb as [Hcr%negb_true_iff Hcl%negb_true_iff].
    iDestruct (tree_open with "Hs") as "(%Hw & Hw & Hwl & Hwr)". rbsteps.
    iApply (wp_ld_parent' with "Ht Hq"); [done|]. iIntros "Ht Hq".
    unfold delete_next. iDestruct "HΦ" as "[HΦ _]".
    iApply ("HΦ" $! (Node p c kp vp t (Node w true kw vw wl wr)) π with "[%] [-Hπ Hq] Hπ Hq").
    + split; [|done]. by apply (delete_state_up _ _ _ Lft).
    + rewrite !tree_rep_Node. iFrame. done.
  - iApply wp_bind. iApply (wp_delete_outer_left with "Ht [Hp Hs Hπ] Hq"); [done..| |].
    { rewrite path_rep_Frame. iFrame. done. }
    iIntros (w' kw' vw' wl' wr' [Hs' Hc']) "Ht Hp Hq".
    iApply (wp_delete_turn_left with "Ht Hp Hq"); [done..|].
    unfold delete_next. iDestruct "HΦ" as "[_ $]".
Qed.

Lemma wp_delete_black_right l len r t p c kp vp w kw vw wl wr π q Φ :
  let s := Node w false kw vw wl wr in
  turn_state l len r Rgt t p c kp vp s π → (t = Leaf → q = p) →
  tree_rep p t -∗ path_rep (addr t) (Frame Rgt p c kp vp s :: π) -∗ nil_rep q -∗
  delete_next l len r q Φ -∗
  wp γ (both ← both_black w;
        if (both : bool) then st (set_red true) w;; ld parent (addr t)
        else w ← delete_outer_right tree (addr t) w; delete_turn_right tree r (addr t) w) Φ.
Proof.
  iIntros (s Hs Hqp) "Ht Hp Hq HΦ". subst s. iApply wp_bind.
  iDestruct (path_open with "Hp") as "(%Hp & Hp & Hs & Hπ)".
  iApply (wp_both_black with "Hs Hq"). iIntros "Hs Hq".
  destruct (negb (colour wr) && negb (colour wl)) eqn:Hb.
  - apply andb_true_iff in Hb as [Hcr%negb_true_iff Hcl%negb_true_iff].
    iDestruct (tree_open with "Hs") as "(%Hw & Hw & Hwl & Hwr)". rbsteps.
    iApply (wp_ld_parent' with "Ht Hq"); [done|]. iIntros "Ht Hq".
    unfold delete_next. iDestruct "HΦ" as "[HΦ _]".
    iApply ("HΦ" $! (Node p c kp vp (Node w true kw vw wl wr) t) π with "[%] [-Hπ Hq] Hπ Hq").
    + split; [|done]. by apply (delete_state_up _ _ _ Rgt).
    + rewrite !tree_rep_Node. iFrame. done.
  - iApply wp_bind. iApply (wp_delete_outer_right with "Ht [Hp Hs Hπ] Hq"); [done..| |].
    { rewrite path_rep_Frame. iFrame. done. }
    iIntros (w' kw' vw' wl' wr' [Hs' Hc']) "Ht Hp Hq".
    iApply (wp_delete_turn_right with "Ht Hp Hq"); [done..|].
    unfold delete_next. iDestruct "HΦ" as "[_ $]".
Qed.

Lemma wp_delete_step d t p c kp vp s π n q r Φ :
  rb t false n → rbp (Frame d p c kp vp s :: π) false (S n) → (t = Leaf → q = p) →
  addr (plug (Frame d p c kp vp s :: π) t) = r →
  tree_rep p t -∗ path_rep (addr t) (Frame d p c kp vp s :: π) -∗ nil_rep q -∗
  delete_next (inorder (plug (Frame d p c kp vp s :: π) t)) (length π) r q Φ -∗
  wp γ (delete_step tree r (addr t)) Φ.
Proof.
  iIntros (Ht Hπ Hqp Hr) "Ht Hp Hq HΦ". unfold delete_step.
  iApply (wp_ld_parent with "Ht Hq"); [done|]. iIntros "Ht Hq".
  iDestruct (path_open with "Hp") as "(%Hp & Hp & Hs & Hπ)". rbsteps.
  destruct d; rbsimpl.
  - rewrite decide_True //. iApply wp_bind.
    iApply (wp_delete_sibling_left with "Ht [Hp Hs Hπ] Hq"); [done..| |].
    { rewrite path_rep_Frame. iFrame. done. }
    iIntros (c' s' π' Hs') "Ht Hp Hq".
    destruct Hs' as (n' & w & kw & vw & wl & wr & -> & Hs'). rbsimpl.
    iApply (wp_delete_black_left with "Ht Hp Hq HΦ"); [|done].
    exists n', w, kw, vw, wl, wr. done.
  - destruct s as [|w cs kw vw wl wr]; rbsimpl.
    { exfalso. inversion Hπ as [|? ? ? ? ? ? ? ? ? Hs ?|? ? ? ? ? ? ? Hs ?]; inversion Hs. }
    iDestruct (tree_open with "Hs") as "(%Hw & Hw & Hwlr)".
    iDestruct (addr_ne with "Hw Ht Hq") as %Hne. rewrite decide_False //. iApply wp_bind.
    iApply (wp_delete_sibling_right with "Ht [Hp Hw Hwlr Hπ] Hq"); [done..| |].
    { rewrite path_rep_Frame tree_rep_Node. iFrame. done. }
    iIntros (c' s' π' Hs') "Ht Hp Hq".
    destruct Hs' as (n' & w' & kw' & vw' & wl' & wr' & -> & Hs'). rbsimpl.
    iApply (wp_delete_black_right with "Ht Hp Hq HΦ"); [|done].
    exists n', w', kw', vw', wl', wr'. done.
Qed.

(** *** The loop *)

Lemma path_top x f π t :
  path_rep x (f :: π) -∗ ∃ n, addr (plug (f :: π) t) ↪[γ] n ∗ True.
Proof.
  revert x f t. induction π as [|g π IH]; iIntros (x [d a c k v s] t) "Hp".
  - iDestruct (path_open with "Hp") as "(_ & Ha & _)". destruct d; iExists _; iFrame.
  - iDestruct (path_open with "Hp") as "(_ & Ha & _ & Hp)".
    iApply (IH a g (plug1 t (Frame d a c k v s)) with "Hp").
Qed.

Lemma wp_delete_exit l r fuel t q Φ :
  done_state l r t → (0 < fuel)%nat →
  tree_rep (root tree) t -∗ path_rep (addr t) [] -∗ nil_rep q -∗
  (∀ t', ⌜inorder t' = l ∧ ∃ m, rb t' false m⌝ -∗
     tree_rep (root tree) t' -∗ path_rep (addr t') [] -∗ nil_rep q -∗ Φ tt) -∗
  wp γ (x ← delete_loop tree fuel r r; st (set_red false) x) Φ.
Proof.
  iIntros ((Hl & Hm & π & k & v & a & b & ->) Hf) "Ht Hp Hq HΦ".
  destruct fuel as [|fuel]; [lia|]. cbn [delete_loop].
  iDestruct (unplug_rep with "Ht Hp") as "[Ht Hp]".
  iDestruct (tree_open with "Ht") as "(%Hr & Hr & Ha & Hb)". rbsteps.
  rewrite bool_decide_false; [|by intros []]. cbn [andb negb]. rbsteps.
  iDestruct (plug_rep π (Node r false k v a b) with "[Hr Ha Hb] Hp") as "[Ht Hp]".
  { rewrite tree_rep_Node. iFrame. done. }
  by iApply ("HΦ" with "[%] Ht Hp Hq").
Qed.

Lemma wp_delete_loop fuel : ∀ l len t π r q Φ,
  delete_state l len r t π → (len < fuel)%nat → (t = Leaf → q = paddr π) →
  tree_rep (paddr π) t -∗ path_rep (addr t) π -∗ nil_rep q -∗
  (∀ t', ⌜inorder t' = l ∧ ∃ m, rb t' false m⌝ -∗
     tree_rep (root tree) t' -∗ path_rep (addr t') [] -∗ nil_rep q -∗ Φ tt) -∗
  wp γ (x ← delete_loop tree fuel r (addr t); st (set_red false) x) Φ.
Proof.
  induction fuel as [|fuel IH]; intros l len t π r q Φ (n & Ht & Hπ & Hl) Hf Hqp; [lia|].
  iIntros "Ht Hp Hq HΦ". cbn [delete_loop]. iApply wp_bind_assoc.
  iApply (wp_ld_red with "Ht Hq"). iIntros "Ht Hq".
  assert (rb (paint false t) false (S n) ∨ rb (paint false t) false n ∧ colour t = false)
    as Hpaint.
  { destruct Ht as [[_ Ht]|[Ht _]]; [by left|]. right.
    pose proof (rb_colour _ _ _ Ht) as Hc. split; [|done]. rewrite -Hc paint_same Hc //. }
  destruct (negb (colour t) && bool_decide (r ≠ addr t)) eqn:Hgo.
  - apply andb_true_iff in Hgo as [Hc%negb_true_iff Hne%bool_decide_eq_true].
    destruct Ht as [[? _]|(Ht & Hr & Hlen)]; [congruence|].
    destruct π as [|[d p c kp vp s] π]; [by destruct Hne|].
    iApply wp_bind_assoc. iApply wp_bind.
    iApply (wp_delete_step with "Ht Hp Hq"); [done..|]. rewrite Hl.
    iSplit.
    + iIntros (t' π' [Ht' Hleaf]) "Ht Hp Hq".
      iApply (IH with "Ht Hp Hq HΦ"); [done|simpl in Hlen; lia|done].
    + iIntros (t' Ht') "Ht Hp Hq".
      iApply (wp_delete_exit with "Ht Hp Hq HΦ"); [done|simpl in Hlen; lia].
  - iAssert ⌜colour t = true ∨ π = []⌝%I as %Hend.
    { destruct (colour t) eqn:Hc; [by iLeft|]. iRight.
      destruct Ht as [[? _]|(_ & Hr & _)]; [done|].
      cbn [negb andb] in Hgo. apply bool_decide_eq_false in Hgo.
      destruct π as [|f π]; [done|]. iDestruct (path_top _ _ _ t with "Hp") as (m) "[Htop _]".
      iDestruct (addr_ne with "Htop Ht Hq") as %Hne. destruct Hgo. by rewrite -Hr. }
    iApply wp_ret_bind. iApply (wp_st_red false with "Ht Hq"); [done|]. iIntros "Ht Hq".
    iDestruct (plug_rep π (paint false t) with "Ht [Hp]") as "[Ht Hp]"; [by destruct t|].
    iApply ("HΦ" with "[%] Ht Hp Hq"). split.
    + rewrite -Hl !inorder_plug inorder_paint //.
    + destruct Hpaint as [Hpaint|[Hpaint Hc]]; [by eapply rb_plug|].
      destruct Hend as [? | ->]; [congruence|]. by exists n.
Qed.

(** The sentinel leads to the root of the whole tree. *)
Lemma path_root_left π : ∀ t,
  path_rep (addr t) π -∗
  ∃ n, ⌜left n = addr (plug π t)⌝ ∗ root tree ↪[γ] n ∗ (root tree ↪[γ] n -∗ path_rep (addr t) π).
Proof.
  induction π as [|[d a c k v s] π IH]; iIntros (t) "Hp".
  - unfold path_rep at 1. iDestruct "Hp" as (k v) "Hp". iExists _. iFrame "Hp".
    iSplit; [done|]. iIntros "Hp". iExists k, v. iFrame.
  - iDestruct (path_open with "Hp") as "(%Ha & Ha & Hs & Hp)".
    iDestruct (IH (plug1 t (Frame d a c k v s)) with "[Hp]") as (n Hn) "[Hr Hp]"; [by destruct d|].
    iExists n. iFrame "Hr". iSplit; [done|]. iIntros "Hr".
    iSpecialize ("Hp" with "Hr"). rewrite path_rep_Frame. iFrame.
    iSplit; [done|]. by destruct d.
Qed.

(** After a node of colour [c] has been spliced out: [t] is in its place. *)
Lemma wp_after_splice fuel (c : bool) t π q n ct Φ :
  rb t ct n → rbp π false (if c then n else S n) → (c = true → ct = false) →
  (length π < fuel)%nat → (t = Leaf → q = paddr π) →
  tree_rep (paddr π) t -∗ path_rep (addr t) π -∗ nil_rep q -∗
  (∀ t', ⌜inorder t' = inorder (plug π t) ∧ ∃ m, rb t' false m⌝ -∗
     tree_rep (root tree) t' -∗ path_rep (addr t') [] -∗ nil_rep q -∗ Φ tt) -∗
  wp γ (if negb c then RBDeleteFixUp tree fuel (addr t) else mret tt) Φ.
Proof.
  iIntros (Ht Hπ Hc Hf Hqp) "Ht Hp Hq HΦ". destruct c; cbn [negb].
  - iApply wp_ret. rewrite Hc // in Ht.
    iDestruct (plug_rep with "Ht Hp") as "[Ht Hp]". iApply ("HΦ" with "[%] Ht Hp Hq").
    split; [done|]. by eapply rb_plug.
  - unfold RBDeleteFixUp. iDestruct (path_root_left with "Hp") as (m Hm) "[Hr Hp]".
    rbstep. rewrite Hm. iSpecialize ("Hp" with "Hr").
    iApply (wp_delete_loop with "Ht Hp Hq HΦ"); [|done|done].
    exists n. split_and!; [|done|done]. destruct ct; [left|by right].
    split; [by eapply rb_colour|by apply rb_blacken].
Qed.

(** *** The deletion of a node *)

Lemma wp_st_parent v p t q Φ :
  tree_rep p t -∗ nil_rep q -∗
  (∀ q', ⌜t = Leaf → q' = v⌝ -∗ tree_rep v t -∗ nil_rep q' -∗ Φ tt) -∗
  wp γ (st (set_parent v) (addr t)) Φ.
Proof.
  iIntros "Ht Hq HΦ". destruct t as [|a c k i l r]; rbsimpl.
  - unfold nil_rep. iDestruct "Hq" as (k i l r) "Hq". rbstep.
    iApply ("HΦ" $! v with "[//] [Ht]"); [by unfold tree_rep|]. iExists k, i, l, r. iFrame.
  - iDestruct (tree_open with "Ht") as "(%Ha & Ha & Hl & Hr)". rbstep.
    iApply ("HΦ" $! q with "[//] [-Hq] Hq"). rewrite tree_rep_Node. iFrame. done.
Qed.

Lemma wp_splice_out y cy ky vy l r u π q Φ :
  let n := RbNode ky vy cy (addr l) (addr r) (paddr π) in
  y ↪[γ] n -∗ tree_rep y u -∗ path_rep y π -∗ nil_rep q -∗
  (∀ q', ⌜u = Leaf → q' = paddr π⌝ -∗
     y ↪[γ] n -∗ tree_rep (paddr π) u -∗ path_rep (addr u) π -∗ nil_rep q' -∗ Φ tt) -∗
  wp γ (splice_out tree y (addr u)) Φ.
Proof.
  iIntros (n) "Hy Hu Hp Hq HΦ". unfold splice_out, n. rbsteps. iApply wp_bind.
  iApply (wp_st_parent with "Hu Hq"). iIntros (q' Hq') "Hu Hq".
  destruct π as [|[d a c k v s] π]; cbn [RbRep.paddr].
  - rewrite decide_True //. unfold path_rep. iDestruct "Hp" as (k v) "Hp". rbstep.
    iApply ("HΦ" with "[//] Hy Hu [Hp] Hq"). iExists k, v. iFrame.
  - iDestruct (path_open with "Hp") as "(%Ha & Ha & Hs & Hp)".
    iDestruct (root_ne with "Ha Hp") as %Hne. rewrite decide_False; [|done].
    iApply (wp_replace_child y _ (Frame d a c k v s :: π) with "Hy [Ha Hs Hp] Hq"); [done| |].
    { rewrite path_rep_Frame. iFrame. done. }
    iIntros "Hy Hp Hq". by iApply ("HΦ" with "[//] Hy Hu Hp Hq").
Qed.

Lemma wp_leftmost fuel : ∀ t π q Φ,
  t ≠ Leaf → (height t ≤ fuel)%nat →
  tree_rep (paddr π) t -∗ path_rep (addr t) π -∗ nil_rep q -∗
  (∀ πs y c k v r, ⌜plug πs (Node y c k v Leaf r) = t ∧ before πs = []⌝ -∗
     tree_rep (paddr (πs ++ π)) (Node y c k v Leaf r) -∗ path_rep y (πs ++ π) -∗ nil_rep q -∗
     Φ y) -∗
  wp γ (leftmost tree fuel (addr t)) Φ.
Proof.
  induction fuel as [|fuel IH]; intros t π q Φ Ht Hf;
    (destruct t as [|y c k v l r]; [done|]); cbn [height] in Hf; [lia|].
  iIntros "Ht Hp Hq HΦ". rbsimpl. cbn [leftmost].
  iDestruct (tree_open with "Ht") as "(%Hy & Hy & Hl & Hr)". rbsteps.
  iDestruct (addr_nil with "Hl Hq") as %Hn. destruct (decide (l = Leaf)) as [->|Hl].
  - rewrite decide_True //. iApply wp_ret.
    iApply ("HΦ" $! [] with "[//] [-Hp Hq] Hp Hq"). rewrite tree_rep_Node. iFrame. done.
  - rewrite decide_False; [|by rewrite Hn]. rbsteps.
    iApply (IH l (Frame Lft y c k v r :: π) with "Hl [Hy Hr Hp] Hq"); [done|lia| |].
    { rewrite path_rep_Frame. iFrame. done. }
    iIntros (πs y' c' k' v' r' [<- Hb]) "Ht Hp Hq".
    iApply ("HΦ" $! (πs ++ [Frame Lft y c k v r]) with "[%] [Ht] [Hp] Hq");
      [|by rewrite -app_assoc..].
    rewrite plug_app before_app Hb. done.
Qed.

Lemma path_addr_ne y n x π1 d z c k v s π2 :
  y ↪[γ] n -∗ path_rep x (π1 ++ Frame d z c k v s :: π2) -∗ ⌜y ≠ z⌝.
Proof.
  revert x. induction π1 as [|[d' a c' k' v' s'] π1 IH]; iIntros (x) "Hy Hp";
    iDestruct (path_open with "Hp") as "(_ & Ha & _ & Hp)".
  - iApply (points_to_ne with "Hy Ha").
  - iApply (IH with "Hy Hp").
Qed.

(** The released node [z] and [y], which replaces it. *)
Lemma wp_replace_node z c k v tl tr π y ny q Φ :
  0 < y →
  tree_rep (paddr π) (Node z c k v tl tr) -∗ path_rep z π -∗ nil_rep q -∗ y ↪[γ] ny -∗
  (∀ q', tree_rep (paddr π) (Node y c (key ny) (info ny) tl tr) -∗ path_rep y π -∗
     nil_rep q' -∗ Φ [KeyDtor k; InfoDtor v]) -∗
  wp γ (replace_node z y) Φ.
Proof.
  iIntros (Hy) "Ht Hp Hq Hy HΦ". unfold replace_node.
  iDestruct (tree_open with "Ht") as "(%Hz & Hz & Hl & Hr)". rbsteps. iApply wp_bind.
  iApply (wp_st_parent with "Hr Hq"). iIntros (q1 _) "Hr Hq". rbsteps. iApply wp_bind.
  iApply (wp_st_parent with "Hl Hq"). iIntros (q2 _) "Hl Hq". iApply wp_bind.
  iApply (wp_replace_child with "Hz Hp Hq"); [done|]. iIntros "Hz Hp Hq". iApply wp_bind.
  iApply (wp_xfree with "Hz"). iApply wp_ret. iApply ("HΦ" with "[-Hp Hq] Hp Hq").
  rewrite tree_rep_Node. iFrame. done.
Qed.

Context `{KeyOrderOk}.

(** A tree of the entries [l] without the one of key [k]. *)
Lemma rb_rep_intro l t q m :
  inorder t = l → sorted l → rb t false m →
  tree_rep (root tree) t -∗ path_rep (addr t) [] -∗ nil_rep q -∗ rb_rep l.
Proof. iIntros (Ht Hs Hm) "Ht Hp Hq". iExists t, q. iFrame. by eauto. Qed.

(** The node [z] has at most one child, [u]. *)
Lemma wp_delete_one fuel z c k v tl tr u π q Φ :
  only_child u tl tr → (length π < fuel)%nat →
  (∃ m, rb (plug π (Node z c k v tl tr)) false m) →
  z ↪[γ] RbNode k v c (addr tl) (addr tr) (paddr π) -∗
  tree_rep z u -∗ path_rep z π -∗ nil_rep q -∗
  (∀ t' q', ⌜inorder t' = before π ++ inorder u ++ after π ∧ ∃ m, rb t' false m⌝ -∗
     tree_rep (root tree) t' -∗ path_rep (addr t') [] -∗ nil_rep q' -∗
     Φ [KeyDtor k; InfoDtor v]) -∗
  wp γ (splice_out tree z (addr u);;
        if decide (z = z) then
          k ← ld key z; i ← ld info z;
          yred ← ld red z;
          (if negb yred then RBDeleteFixUp tree fuel (addr u) else mret tt);;
          xfree z;;
          mret [KeyDtor k; InfoDtor i]
        else
          yred ← ld red z;
          (if negb yred then RBDeleteFixUp tree fuel (addr u) else mret tt);;
          replace_node z z) Φ.
Proof.
  iIntros (Hu Hf [m Hm]) "Hz Hu Hp Hq HΦ". iApply wp_bind.
  iApply (wp_splice_out with "Hz Hu Hp Hq"). iIntros (q' Hq') "Hz Hu Hp Hq".
  rewrite decide_True //. rbsteps. iApply wp_bind.
  destruct (rb_unplug _ _ _ Hm) as (cz & n & Hz & Hπ).
  assert (∃ n' cu, rb u cu n' ∧ rbp π false (if c then n' else S n') ∧ (c = true → cu = false))
    as (n' & cu & Hrb & Hπ' & Hc).
  { destruct Hu as [[-> ->]|[-> ->]]; inversion Hz; subst;
      (eexists _, _; split_and!; [done|by eapply rbp_weaken|done]). }
  iApply (wp_after_splice fuel c u π q' n' cu with "Hu Hp Hq"); [done..|].
  iIntros (t' [Ht' Hm']) "Ht Hp Hq". iApply wp_bind. iApply (wp_xfree with "Hz"). iApply wp_ret.
  iApply ("HΦ" with "[%] Ht Hp Hq"). split; [|done]. by rewrite Ht' inorder_plug.
Qed.

(** The node [z] has two children: [y] is its successor. *)
Lemma wp_delete_two fuel z c k v tl π q πs y cy ky vy yr Φ :
  let Π := πs ++ Frame Rgt z c k v tl :: π in
  before πs = [] → (length Π < fuel)%nat → (∃ m, rb (plug Π (Node y cy ky vy Leaf yr)) false m) →
  tree_rep (paddr Π) (Node y cy ky vy Leaf yr) -∗ path_rep y Π -∗ nil_rep q -∗
  (∀ t' q',
     ⌜inorder t' = before π ++ inorder tl ++ (y, ky, vy) :: inorder yr ++ after πs ++ after π
      ∧ ∃ m, rb t' false m⌝ -∗
     tree_rep (root tree) t' -∗ path_rep (addr t') [] -∗ nil_rep q' -∗
     Φ [KeyDtor k; InfoDtor v]) -∗
  wp γ (splice_out tree y (addr yr);;
        if decide (y = z) then
          k ← ld key y; i ← ld info y;
          yred ← ld red y;
          (if negb yred then RBDeleteFixUp tree fuel (addr yr) else mret tt);;
          xfree y;;
          mret [KeyDtor k; InfoDtor i]
        else
          yred ← ld red y;
          (if negb yred then RBDeleteFixUp tree fuel (addr yr) else mret tt);;
          replace_node z y) Φ.
Proof.
  iIntros (Π Hb Hf [m Hm]) "Ht Hp Hq HΦ".
  iDestruct (tree_open with "Ht") as "(%Hy & Hy & _ & Hyr)". iApply wp_bind.
  iApply (wp_splice_out y cy ky vy Leaf yr yr with "Hy Hyr Hp Hq").
  iIntros (q' Hq') "Hy Hyr Hp Hq". iDestruct (path_addr_ne with "Hy Hp") as %Hyz.
  rewrite decide_False //. rbsteps. iApply wp_bind.
  destruct (rb_unplug _ _ _ Hm) as (cy' & n & HY & HΠ).
  assert (∃ n' cu, rb yr cu n' ∧ rbp Π false (if cy then n' else S n') ∧ (cy = true → cu = false))
    as (n' & cu & Hrb & HΠ' & Hc).
  { inversion HY; subst; (eexists _, _; split_and!; [done|by eapply rbp_weaken|done]). }
  iApply (wp_after_splice fuel cy yr Π q' n' cu with "Hyr Hp Hq"); [done..|].
  iIntros (t' [Ht' Hm']) "Ht Hp Hq".
  assert (inorder t' = (before π ++ inorder tl) ++ (z, k, v) :: inorder yr ++ after πs ++ after π)
    as Hin.
  { rewrite Ht' inorder_plug before_app after_app Hb. cbn [before after].
    by rewrite -!app_assoc /= ?app_nil_r. }
  destruct (find_node_at _ _ _ _ _ _ Hin) as (π2 & c2 & l2 & r2 & -> & Hl2 & Hr2).
  iDestruct (unplug_rep with "Ht Hp") as "[Ht Hp]".
  iApply (wp_replace_node with "Ht Hp Hq Hy"); [done|]. iIntros (q2) "Ht Hp Hq". cbn [key info].
  iDestruct (plug_rep π2 (Node y c2 ky vy l2 r2) with "Ht Hp") as "[Ht Hp]".
  iApply ("HΦ" with "[%] Ht Hp Hq"). split.
  - rewrite inorder_plug. cbn [inorder]. rewrite -app_assoc /= (app_assoc (before π2)) Hl2 Hr2.
    by rewrite -!app_assoc.
  - destruct Hm' as [m' Hm']. destruct (rb_unplug _ _ _ Hm') as (cz & n2 & Hz & Hπ2).
    apply (rb_plug _ _ _ Hπ2). inversion Hz; subst; by econstructor.
Qed.

Lemma wp_rb_tree_delete fuel z k v l Φ :
  enough fuel l → (z, k, v) ∈ l →
  rb_rep l -∗ (rb_rep (entry_remove k l) -∗ Φ [KeyDtor k; InfoDtor v]) -∗
  wp γ (rb_tree_delete tree fuel z) Φ.
Proof.
  iIntros (Hf Hin) "Hl HΦ". iDestruct "Hl" as (t q (<- & Hs & m & Ht)) "(Ht & Hp & Hq)".
  pose proof (enough_height _ _ _ Ht Hf) as Hh.
  destruct (find_node _ _ _ _ Hin) as (π & c & tl & tr & ->).
  pose proof (height_plug π (Node z c k v tl tr)) as Hlen. cbn [height] in Hlen.
  assert (entry_remove k (inorder (plug π (Node z c k v tl tr)))
          = before π ++ (inorder tl ++ inorder tr) ++ after π) as Hrem.
  { rewrite inorder_plug in Hs |- *. cbn [inorder] in *. rewrite -!app_assoc /= in Hs |- *.
    rewrite (app_assoc (before π)) in Hs |- *.
    rewrite entry_remove_mid //; [by rewrite -!app_assoc|apply comp_refl]. }
  assert (sorted (entry_remove k (inorder (plug π (Node z c k v tl tr))))) as Hs'
    by by apply sorted_remove.
  iDestruct (unplug_rep with "Ht Hp") as "[Ht Hp]".
  iDestruct (tree_open with "Ht") as "(%Hz & Hz & Hl & Hr)". unfold rb_tree_delete. rbsteps.
  iDestruct (addr_nil with "Hl Hq") as %Hnl. iDestruct (addr_nil with "Hr Hq") as %Hnr.
  destruct (decide (tl = Leaf)) as [->|Hl]; [|destruct (decide (tr = Leaf)) as [->|Hr]].
  - rewrite decide_True //. rbsteps. rewrite decide_True //. rbsteps.
    iApply (wp_delete_one _ z c k v Leaf tr tr π with "Hz Hr Hp Hq"); [by left|lia|by eauto|].
    iIntros (t' q' [Ht' [m' Hm']]) "Ht Hp Hq". iApply "HΦ".
    iApply (rb_rep_intro with "Ht Hp Hq"); [by rewrite Hrem|done..].
  - rewrite (decide_False (P := addr tl = _)); [|by rewrite Hnl].
    rewrite decide_True //. rbsteps.
    rewrite decide_False; [|by rewrite Hnl]. rbsteps.
    iApply (wp_delete_one _ z c k v tl Leaf tl π with "Hz Hl Hp Hq"); [by right|lia|by eauto|].
    iIntros (t' q' [Ht' [m' Hm']]) "Ht Hp Hq". iApply "HΦ".
    iApply (rb_rep_intro with "Ht Hp Hq"); [|done..]. by rewrite Hrem Ht' app_nil_r.
  - rewrite (decide_False (P := addr tl = _)); [|by rewrite Hnl].
    rewrite (decide_False (P := addr tr = _)); [|by rewrite Hnr].
    unfold rb_tree_successor. rbsteps.
    rewrite decide_False; [|by intros Heq; apply Hr, Hnr]. iApply wp_bind.
    iApply (wp_leftmost fuel tr (Frame Rgt z c k v tl :: π) with "Hr [Hz Hl Hp] Hq");
      [done|lia| |].
    { rewrite path_rep_Frame. iFrame. done. }
    iIntros (πs y cy ky vy yr [<- Hb]) "Ht Hp Hq".
    iDestruct (tree_open with "Ht") as "(%Hy & Hy & HL & Hyr)". rbsteps.
    rewrite decide_True //. rbsteps.
    iApply (wp_delete_two fuel z c k v tl π q πs y cy ky vy yr
      with "[Hy HL Hyr] Hp Hq"); [done| |by rewrite plug_app; eauto| |].
    { pose proof (height_plug πs (Node y cy ky vy Leaf yr)). cbn [height] in *.
      rewrite length_app /=. lia. }
    { rewrite tree_rep_Node. iFrame. done. }
    iIntros (t' q' [Ht' [m' Hm']]) "Ht Hp Hq". iApply "HΦ".
    iApply (rb_rep_intro with "Ht Hp Hq"); [|done..].
    rewrite Hrem Ht' inorder_plug Hb. cbn [inorder app]. by rewrite -!app_assoc /= -app_assoc.
Qed.
End deletion.
