(* ===== verification/RbMap.v ===== *)
(** * Red-black trees as ordered maps

    Creation, walk and release, runs of operations, and the properties of the
    component: every run behaves like a sorted sequence of entries, keeps the
    memory a balanced search tree, and its release calls every destructor.  The
    comparison functions that the compiler passes to its trees are instances. *)

From S2P Require Import Prelude Heap RbTree RbShape RbRep RbInsert RbDelete.
#[local] Open Scope Z_scope.

(** ** Runs *)

Inductive rb_op := Insert (k i : Z) | Find (k : Z) | Delete (k : Z) | Walk.

Inductive rb_result :=
| RNode (a : Z) | RInfo (i : option Z) | RCalls (l : list dtor_call) | REntries (l : list (Z * Z)).

Section runs.
Context `{KeyOrder} (junk : rb_node).
Notation M := (Heap.M rb_node).

(** A caller looks a key up before it uses or deletes its node. *)
Definition rb_step (tree : rb_tree) (fuel : nat) (o : rb_op) : M rb_result :=
  match o with
  | Insert k i => a ← rb_tree_insert junk tree fuel k i; mret (RNode a)
  | Find k =>
      n ← rb_tree_query tree fuel k;
      if n =? 0 then mret (RInfo None) else i ← rb_node_get_info n; mret (RInfo (Some i))
  | Delete k =>
      n ← rb_tree_query tree fuel k;
      if n =? 0 then mret (RCalls []) else calls ← rb_tree_delete tree fuel n; mret (RCalls calls)
  | Walk => l ← rb_tree_walk tree fuel (λ k i l, l ++ [(k, i)]) []; mret (REntries l)
  end.

Fixpoint rb_run (tree : rb_tree) (fuel : nat) (ops : list rb_op) : M (list rb_result) :=
  match ops with
  | [] => mret []
  | o :: ops' => r ← rb_step tree fuel o; rs ← rb_run tree fuel ops'; mret (r :: rs)
  end.

Definition rb_session (fuel : nat) (ops : list rb_op) : M (rb_tree * list rb_result) :=
  tree ← rb_tree_create junk; rs ← rb_run tree fuel ops; mret (tree, rs).

Definition rb_life (fuel : nat) (ops : list rb_op) : M (list rb_result * list dtor_call) :=
  tree ← rb_tree_create junk; rs ← rb_run tree fuel ops;
  calls ← rb_tree_destroy tree fuel; mret (rs, calls).
End runs.

(** ** The specification: a sorted sequence of entries *)

Section spec.
Context `{KeyOrder}.

Definition e_pair (e : entry) : Z * Z := (e_key e, e_info e).
Definition e_dtors (e : entry) : list dtor_call := [KeyDtor (e_key e); InfoDtor (e_info e)].

(** An insertion returns the node of an equivalent key or a new one; a deletion
    destroys the entry it removes; nodes keep their address until then. *)
Inductive spec_step (l : list entry) : rb_op → rb_result → list entry → Prop :=
| spec_update k i e :
    entry_find k l = Some e → spec_step l (Insert k i) (RNode (e_addr e)) (entry_set k i l)
| spec_add k i a :
    entry_find k l = None → 0 < a → a ∉ e_addr <$> l →
    spec_step l (Insert k i) (RNode a) (entry_insert (a, k, i) l)
| spec_find k : spec_step l (Find k) (RInfo (e_info <$> entry_find k l)) l
| spec_delete k e :
    entry_find k l = Some e → spec_step l (Delete k) (RCalls (e_dtors e)) (entry_remove k l)
| spec_delete_absent k :
    entry_find k l = None → spec_step l (Delete k) (RCalls []) l
| spec_walk : spec_step l Walk (REntries (e_pair <$> l)) l.

Inductive spec_run (l : list entry) : list rb_op → list rb_result → list entry → Prop :=
| spec_nil : spec_run l [] [] l
| spec_cons o r l' ops rs l'' :
    spec_step l o r l' → spec_run l' ops rs l'' → spec_run l (o :: ops) (r :: rs) l''.

Lemma length_entry_insert e l : length (entry_insert e l) = S (length l).
Proof. induction l as [|f l IH]; simpl; [done|]. destruct (_ <? _); simpl; by rewrite ?IH. Qed.

Lemma spec_step_length l o r l' : spec_step l o r l' → (length l' ≤ S (length l))%nat.
Proof.
  inversion 1; subst; try lia.
  - unfold entry_set. rewrite length_fmap. lia.
  - rewrite length_entry_insert. lia.
  - unfold entry_remove. pose proof (length_filter (λ e, comp_func (e_key e) k ≠ 0) l). lia.
Qed.
End spec.

(** ** Creation and traversals *)

Section traversals.
Context `{!ghost_mapG Σ Z rb_node} {γ : gname} `{KeyOrderOk}.

Lemma wp_rb_tree_create junk Φ :
  (∀ tree, rb_rep γ tree [] -∗ Φ tree) -∗ wp γ (rb_tree_create junk) Φ.
Proof.
  iIntros "HΦ". unfold rb_tree_create. iApply wp_bind. iApply wp_new. iIntros (n) "%Hn Hn".
  rbsteps. iApply wp_bind. iApply wp_new. iIntros (r) "%Hr Hr". rbsteps.
  iApply "HΦ". iExists Leaf, n. iSplit.
  { iPureIntro. split_and!; [done|constructor|exists 0%nat; constructor]. }
  iSplitR; [by unfold tree_rep|]. unfold path_rep, nil_rep. iSplitL "Hr"; iExists _, _; iFrame.
Qed.

Context {tree : rb_tree}.

Lemma wp_InorderTreeWalk {D} (f : Z → Z → D → D) fuel : ∀ t p q d Φ,
  (height t < fuel)%nat →
  tree_rep γ tree p t -∗ nil_rep γ tree q -∗
  (tree_rep γ tree p t -∗ nil_rep γ tree q -∗
   Φ (foldl (λ d e, f (e_key e) (e_info e) d) d (inorder t))) -∗
  wp γ (InorderTreeWalk tree fuel f (addr tree t) d) Φ.
Proof.
  induction fuel as [|fuel IH]; intros t p q d Φ Hf; [lia|].
  iIntros "Ht Hq HΦ". cbn [InorderTreeWalk]. iDestruct (addr_nil with "Ht Hq") as %Hn.
  destruct t as [|a c k v l r]; cbn [addr] in *.
  - rewrite decide_True //. iApply wp_ret. iApply ("HΦ" with "Ht Hq").
  - rewrite decide_False; [|by rewrite Hn]. cbn [height] in Hf.
    iDestruct (tree_open with "Ht") as "(%Ha & Ha & Hl & Hr)". rbsteps. iApply wp_bind.
    iApply (IH l with "Hl Hq"); [lia|]. iIntros "Hl Hq". rbsteps.
    iApply (IH r with "Hr Hq"); [lia|]. iIntros "Hr Hq".
    cbn [inorder]. rewrite foldl_app /=. iApply ("HΦ" with "[-Hq] Hq").
    rewrite ?tree_rep_Node. iFrame. done.
Qed.

Lemma wp_rb_tree_walk {D} (f : Z → Z → D → D) fuel l d Φ :
  enough fuel l →
  rb_rep γ tree l -∗
  (rb_rep γ tree l -∗ Φ (foldl (λ d e, f (e_key e) (e_info e) d) d l)) -∗
  wp γ (rb_tree_walk tree fuel f d) Φ.
Proof.
  iIntros (Hf) "Hl HΦ". iDestruct "Hl" as (t q (<- & Hs & m & Ht)) "(Ht & Hp & Hq)".
  pose proof (enough_height _ _ _ Ht Hf) as Hh. unfold rb_tree_walk, path_rep.
  iDestruct "Hp" as (k v) "Hp". rbsteps.
  iApply (wp_InorderTreeWalk with "Ht Hq"); [lia|]. iIntros "Ht Hq". iApply "HΦ".
  iExists t, q. iFrame. iSplit; [by eauto|]. iExists k, v. iFrame.
Qed.

Lemma wp_TreeDestHelper fuel : ∀ t p q Φ,
  (height t < fuel)%nat →
  tree_rep γ tree p t -∗ nil_rep γ tree q -∗
  (∀ calls, ⌜calls ≡ₚ concat (e_dtors <$> inorder t)⌝ -∗ nil_rep γ tree q -∗ Φ calls) -∗
  wp γ (TreeDestHelper tree fuel (addr tree t)) Φ.
Proof.
  induction fuel as [|fuel IH]; intros t p q Φ Hf; [lia|].
  iIntros "Ht Hq HΦ". cbn [TreeDestHelper]. iDestruct (addr_nil with "Ht Hq") as %Hn.
  destruct t as [|a c k v l r]; cbn [addr] in *.
  - rewrite decide_True //. iApply wp_ret. by iApply ("HΦ" with "[] Hq").
  - rewrite decide_False; [|by rewrite Hn]. cbn [height] in Hf.
    iDestruct (tree_open with "Ht") as "(%Ha & Ha & Hl & Hr)". rbsteps. iApply wp_bind.
    iApply (IH l with "Hl Hq"); [lia|]. iIntros (c1 Hc1) "Hq". rbsteps. iApply wp_bind.
    iApply (IH r with "Hr Hq"); [lia|]. iIntros (c2 Hc2) "Hq". rbsteps.
    iApply wp_bind. iApply (wp_xfree with "Ha"). iApply wp_ret. iApply ("HΦ" with "[%] Hq").
    cbn [inorder]. rewrite fmap_app concat_app /= -Hc1 -Hc2.
    by rewrite (Permutation_app_comm c2).
Qed.

Lemma wp_rb_tree_destroy fuel l Φ :
  enough fuel l →
  rb_rep γ tree l -∗
  (∀ calls, ⌜calls ≡ₚ concat (e_dtors <$> l)⌝ -∗ Φ calls) -∗
  wp γ (rb_tree_destroy tree fuel) Φ.
Proof.
  iIntros (Hf) "Hl HΦ". iDestruct "Hl" as (t q (<- & Hs & m & Ht)) "(Ht & Hp & Hq)".
  pose proof (enough_height _ _ _ Ht Hf) as Hh. unfold rb_tree_destroy, path_rep.
  iDestruct "Hp" as (k v) "Hp". rbsteps. iApply wp_bind.
  iApply (wp_TreeDestHelper with "Ht Hq"); [lia|]. iIntros (calls Hc) "Hq".
  iApply wp_bind. iApply (wp_xfree with "Hp"). iApply wp_bind. unfold nil_rep.
  iDestruct "Hq" as (k' v' l r) "Hq". iApply (wp_xfree with "Hq"). iApply wp_ret.
  by iApply "HΦ".
Qed.

(** ** Runs refine the specification *)

Lemma rb_rep_entry l e :
  e ∈ l →
  rb_rep γ tree l -∗
  ⌜0 < e_addr e⌝ ∗ ∃ n, ⌜key n = e_key e ∧ info n = e_info e⌝ ∗ e_addr e ↪[γ] n
    ∗ (e_addr e ↪[γ] n -∗ rb_rep γ tree l).
Proof.
  destruct e as [[a k] v]. iIntros (Hin) "Hl".
  iDestruct "Hl" as (t q (<- & Hs & m & Ht)) "(Ht & Hp & Hq)".
  destruct (find_node _ _ _ _ Hin) as (π & c & l & r & ->).
  iDestruct (unplug_rep with "Ht Hp") as "[Ht Hp]".
  iDestruct (tree_open with "Ht") as "(%Ha & Ha & Hl & Hr)". iSplit; [done|].
  iExists _. iFrame "Ha". iSplit; [done|]. iIntros "Ha".
  iDestruct (plug_rep π (Node a c k v l r) with "[Ha Hl Hr] Hp") as "[Ht Hp]".
  { rewrite tree_rep_Node. iFrame. done. }
  iExists _, q. iFrame. by eauto.
Qed.

Lemma wp_rb_step junk fuel o l Φ :
  enough fuel l →
  rb_rep γ tree l -∗ (∀ r l', ⌜spec_step l o r l'⌝ -∗ rb_rep γ tree l' -∗ Φ r) -∗
  wp γ (rb_step junk tree fuel o) Φ.
Proof.
  iIntros (Hf) "Hl HΦ". destruct o as [k i|k|k|]; cbn [rb_step]; iApply wp_bind.
  - iApply (wp_rb_tree_insert with "Hl"); [done|]. iIntros (a l' Ha) "Hl".
    iApply wp_ret. iApply ("HΦ" with "[%] Hl").
    destruct (entry_find k l) as [e|] eqn:He.
    + destruct Ha as [-> ->]. by constructor.
    + destruct Ha as (? & ? & ->). by constructor.
  - iApply (wp_rb_tree_query with "Hl"); [done|]. iIntros "Hl".
    pose proof (spec_find l k) as Hspec.
    destruct (entry_find k l) as [e|] eqn:He; cbn [entry_or_null]; cbn in Hspec.
    + iDestruct (rb_rep_entry l e with "Hl") as "(%Ha & %n & [%Hk %Hi] & He & Hl)";
        [by apply entry_find_Some in He as [? _]|].
      rewrite (proj2 (Z.eqb_neq _ 0)); [|lia]. unfold rb_node_get_info. wsteps. rewrite Hi.
      iApply ("HΦ" with "[%] [-]"); [done|]. by iApply "Hl".
    + cbn. iApply wp_ret. by iApply ("HΦ" with "[%] Hl").
  - iApply (wp_rb_tree_query with "Hl"); [done|]. iIntros "Hl".
    destruct (entry_find k l) as [[[a k'] v]|] eqn:He; cbn [entry_or_null].
    + pose proof (entry_find_Some _ _ _ He) as [Hin Hk].
      iDestruct (rb_rep_entry l _ Hin with "Hl") as "(%Ha & %n & %Hn & He & Hl)".
      iSpecialize ("Hl" with "He").
      rewrite (proj2 (Z.eqb_neq _ 0)); [|lia]. iApply wp_bind.
      iApply (wp_rb_tree_delete with "Hl"); [done..|]. iIntros "Hl". iApply wp_ret.
      rewrite (entry_remove_equiv k' k) //.
      iApply ("HΦ" with "[%] Hl"). by apply (spec_delete l k (a, k', v)).
    + cbn. iApply wp_ret. iApply ("HΦ" with "[%] Hl"). by constructor.
  - iApply (wp_rb_tree_walk with "Hl"); [done|]. iIntros "Hl". iApply wp_ret.
    iApply ("HΦ" with "[%] Hl").
    assert (∀ l acc, foldl (λ d e, d ++ [(e_key e, e_info e)]) acc l = acc ++ (e_pair <$> l)) as ->.
    { clear. induction l as [|e l IH]; intros acc; simpl; [by rewrite app_nil_r|].
      by rewrite IH -app_assoc. }
    constructor.
Qed.

Lemma wp_rb_run junk fuel ops : ∀ l Φ,
  2 * Z.log2 (Z.of_nat (length l + length ops) + 1) + 1 < Z.of_nat fuel →
  rb_rep γ tree l -∗
  (∀ rs l', ⌜spec_run l ops rs l' ∧ (length l' ≤ length l + length ops)%nat⌝ -∗
     rb_rep γ tree l' -∗ Φ rs) -∗
  wp γ (rb_run junk tree fuel ops) Φ.
Proof.
  induction ops as [|o ops IH]; intros l Φ Hf; cbn [rb_run]; iIntros "Hl HΦ".
  - iApply wp_ret. iApply ("HΦ" with "[%] Hl"). split; [constructor|lia].
  - iApply wp_bind. iApply (wp_rb_step with "Hl").
    { unfold enough.
      pose proof (Z.log2_le_mono (Z.of_nat (length l) + 1) (Z.of_nat (length l + length (o :: ops)) + 1)
        ltac:(lia)). lia. }
    iIntros (r l' Hr) "Hl". iApply wp_bind. pose proof (spec_step_length _ _ _ _ Hr) as Hlen.
    cbn [length] in Hf.
    iApply (IH l' with "Hl").
    { pose proof (Z.log2_le_mono (Z.of_nat (length l' + length ops) + 1)
        (Z.of_nat (length l + S (length ops)) + 1) ltac:(lia)). lia. }
    iIntros (rs l'' [Hrs Hlen']) "Hl". iApply wp_ret. iApply ("HΦ" with "[%] Hl").
    split; [by econstructor|simpl; lia].
Qed.
End traversals.

(** ** The memory at the end of a run *)

(** The nodes of [t], with parent [p], are in memory. *)
Fixpoint in_memory (m : gmap Z rb_node) (tree : rb_tree) (p : Z) (t : rbt) : Prop :=
  match t with
  | Leaf => True
  | Node a c k v l r =>
      m !! a = Some (RbNode k v c (addr tree l) (addr tree r) p)
      ∧ in_memory m tree a l ∧ in_memory m tree a r
  end.

(** The memory holds the tree [t]: [root->left] is its root and [nil] is black. *)
Definition memory_tree (m : gmap Z rb_node) (tree : rb_tree) (t : rbt) : Prop :=
  in_memory m tree (root tree) t
  ∧ (∃ n, m !! root tree = Some n ∧ red n = false ∧ left n = addr tree t)
  ∧ (∃ n, m !! nil tree = Some n ∧ red n = false).

Section memory.
Context `{!ghost_mapG Σ Z rb_node} {γ : gname} {tree : rb_tree}.

Lemma tree_rep_in_memory m : ∀ t p,
  ghost_map_auth γ 1 m -∗ tree_rep γ tree p t -∗ ⌜in_memory m tree p t⌝.
Proof.
  induction t as [|a c k v l IHl r IHr]; iIntros (p) "Hm Ht"; [done|].
  iDestruct (tree_open with "Ht") as "(%Ha & Ha & Hl & Hr)".
  iDestruct (ghost_map_lookup with "Hm Ha") as %Hla.
  iDestruct (IHl with "Hm Hl") as %Hl. iDestruct (IHr with "Hm Hr") as %Hr. done.
Qed.

Lemma rb_rep_memory `{KeyOrderOk} m l :
  ghost_map_auth γ 1 m -∗ rb_rep γ tree l -∗
  ⌜∃ t, memory_tree m tree t ∧ inorder t = l ∧ sorted l ∧ ∃ n, rb t false n⌝.
Proof.
  iIntros "Hm Hl". iDestruct "Hl" as (t q (Ht & Hs & Hrb)) "(Ht & Hp & Hq)".
  iExists t. iDestruct (tree_rep_in_memory with "Hm Ht") as %Hmem.
  unfold path_rep, nil_rep. iDestruct "Hp" as (k v) "Hp". iDestruct "Hq" as (k' v' l' r') "Hq".
  iDestruct (ghost_map_lookup with "Hm Hp") as %Hr.
  iDestruct (ghost_map_lookup with "Hm Hq") as %Hn.
  iPureIntro. split_and!; [|done..]. split_and!; [done|by eexists|by eexists].
Qed.
End memory.

(** The number of iterations that bounds every loop of a run. *)
Definition run_fuel (ops : list rb_op) : Z := 2 * Z.log2 (Z.of_nat (length ops) + 1) + 1.

Section properties.
Context `{KeyOrderOk} (junk : rb_node).

(** C5: every run of insertions, searches, deletions and walks on a new tree
    terminates without undefined behaviour, each loop within twice the
    logarithm of the number of operations, and returns what the sorted sequence
    of entries says: nodes keep their address while their key is in the tree. *)
Theorem rb_tree_refines_sorted_entries fuel ops :
  run_fuel ops < Z.of_nat fuel →
  ∃ tree rs m l, rb_session junk fuel ops ∅ = Ret (tree, rs, m) ∧ spec_run [] ops rs l.
Proof.
  intros Hf. destruct (wp_adequacy (rb_session junk fuel ops) (λ r, ∃ l, spec_run [] ops r.2 l))
    as ([tree rs] & m & Hr & l & Hl); [|by exists tree, rs, m, l].
  iIntros (Σ HΣ γ). unfold rb_session. iApply wp_bind. iApply wp_rb_tree_create.
  iIntros (tree) "Hl". iApply wp_bind. iApply (wp_rb_run with "Hl"); [done|].
  iIntros (rs l [Hrs _]) "Hl". iApply wp_ret. by iExists l.
Qed.

(** C6: at the end of every such run the memory holds a binary search tree, its
    keys strictly increasing, that satisfies the red-black invariant and whose
    height is at most twice the logarithm of its number of nodes. *)
Theorem rb_tree_stays_balanced fuel ops :
  run_fuel ops < Z.of_nat fuel →
  ∃ tree rs m t, rb_session junk fuel ops ∅ = Ret (tree, rs, m)
    ∧ memory_tree m tree t ∧ sorted (inorder t) ∧ (∃ n, rb t false n)
    ∧ Z.of_nat (height t) ≤ 2 * Z.log2 (Z.of_nat (length (inorder t)) + 1).
Proof.
  intros Hf. destruct (wp_adequacy_mem (rb_session junk fuel ops)
    (λ r m, ∃ t, memory_tree m r.1 t ∧ sorted (inorder t) ∧ ∃ n, rb t false n))
    as ([tree rs] & m & Hr & t & Hm & Hs & n & Hn).
  { iIntros (Σ HΣ γ). unfold rb_session. iApply wp_bind. iApply wp_rb_tree_create.
    iIntros (tree) "Hl". iApply wp_bind. iApply (wp_rb_run with "Hl"); [done|].
    iIntros (rs l _) "Hl". iApply wp_ret. iIntros (m) "Hm".
    iDestruct (rb_rep_memory with "Hm Hl") as %(t & Hm & <- & Hs & Hn).
    iPureIntro. by exists t. }
  exists tree, rs, m, t. split_and!; [done..|by exists n|by eapply rb_height_log].
Qed.

(** Releasing the tree after a run calls the destructors of the key and of
    the info of every entry left exactly once. *)
Theorem rb_tree_destroy_calls_destructors fuel ops :
  run_fuel ops < Z.of_nat fuel →
  ∃ rs calls m l, rb_life junk fuel ops ∅ = Ret (rs, calls, m)
    ∧ spec_run [] ops rs l ∧ calls ≡ₚ concat (e_dtors <$> l).
Proof.
  intros Hf. destruct (wp_adequacy (rb_life junk fuel ops)
    (λ r, ∃ l, spec_run [] ops r.1 l ∧ r.2 ≡ₚ concat (e_dtors <$> l)))
    as ([rs calls] & m & Hr & l & Hl & Hc); [|by exists rs, calls, m, l].
  iIntros (Σ HΣ γ). unfold rb_life. iApply wp_bind. iApply wp_rb_tree_create.
  iIntros (tree) "Hl". iApply wp_bind. iApply (wp_rb_run with "Hl"); [done|].
  iIntros (rs l [Hrs Hlen]) "Hl". iApply wp_bind. iApply (wp_rb_tree_destroy with "Hl").
  { unfold enough, run_fuel in *.
    pose proof (Z.log2_le_mono (Z.of_nat (length l) + 1) (Z.of_nat (length ops) + 1)). simpl in *. lia. }
  iIntros (calls Hc). iApply wp_ret. by iExists l.
Qed.
End properties.

(** ** The comparison functions of the compiler *)

(** [intptr_t_comp] of [cxx-typeutils.c] and [cxx-instantiation.c]. *)
Definition intptr_t_comp (v1 v2 : Z) : Z :=
  let p1 := wraps 64 v1 in
  let p2 := wraps 64 v2 in
  if p1 <? p2 then -1 else if p2 <? p1 then 1 else 0.

(** [comp_vptr] of [cxx-graphviz.c] and [cxx-printscope.c]. *)
Definition comp_vptr (v1 v2 : Z) : Z := if v1 <? v2 then -1 else if v2 <? v1 then 1 else 0.

Section comparisons.
(** The integers that the keys point to. *)
Context (deref : Z → Z).

(** [uint_comp] of [cxx-typeutils.c]. *)
Definition uint_comp (v1 v2 : Z) : Z :=
  let p1 := u32 (deref v1) in
  let p2 := u32 (deref v2) in
  if p1 <? p2 then -1 else if p2 <? p1 then 1 else 0.

(** [int64cmp_vptr] of [fortran03-modules.c]. *)
Definition int64cmp_vptr (ptr1 ptr2 : Z) : Z :=
  let u1 := u64 (deref ptr1) in
  let u2 := u64 (deref ptr2) in
  if u1 <? u2 then -1 else if u2 <? u1 then 1 else 0.
End comparisons.

Lemma three_way_ok (f : Z → Z) :
  @KeyOrderOk {| comp_func := λ a b, if f a <? f b then -1 else if f b <? f a then 1 else 0 |}.
Proof.
  split; simpl; intros a b; [|intros c];
    repeat match goal with |- context [?x <? ?y] => destruct (Z.ltb_spec x y) end; lia.
Qed.

Lemma intptr_t_comp_ok : @KeyOrderOk {| comp_func := intptr_t_comp |}.
Proof. exact (three_way_ok (wraps 64)). Qed.

Lemma comp_vptr_ok : @KeyOrderOk {| comp_func := comp_vptr |}.
Proof. exact (three_way_ok id). Qed.

Lemma uint_comp_ok deref : @KeyOrderOk {| comp_func := uint_comp deref |}.
Proof. exact (three_way_ok (λ v, u32 (deref v))). Qed.

Lemma int64cmp_vptr_ok deref : @KeyOrderOk {| comp_func := int64cmp_vptr deref |}.
Proof. exact (three_way_ok (λ v, u64 (deref v))). Qed.

(** ** A concrete run *)

#[local] Instance vptr_order : KeyOrder := {| comp_func := comp_vptr |}.
#[local] Existing Instance comp_vptr_ok.

Definition sample_junk : rb_node := RbNode 7 7 true 7 7 7.
Definition sample_ops : list rb_op :=
  [Insert 5 50; Insert 3 30; Insert 8 80; Insert 1 10; Find 3; Insert 3 33; Delete 5; Find 5;
   Delete 9; Walk].

Lemma rb_tree_refines_sorted_entries_witness :
  ∃ tree rs m l, rb_session sample_junk 8 sample_ops ∅ = Ret (tree, rs, m)
    ∧ spec_run [] sample_ops rs l.
Proof. apply (rb_tree_refines_sorted_entries sample_junk 8 sample_ops). reflexivity. Defined.

Lemma rb_tree_stays_balanced_witness :
  ∃ tree rs m t, rb_session sample_junk 8 sample_ops ∅ = Ret (tree, rs, m)
    ∧ memory_tree m tree t ∧ sorted (inorder t) ∧ (∃ n, rb t false n)
    ∧ Z.of_nat (height t) ≤ 2 * Z.log2 (Z.of_nat (length (inorder t)) + 1).
Proof. apply (rb_tree_stays_balanced sample_junk 8 sample_ops). reflexivity. Defined.

Lemma rb_tree_destroy_calls_destructors_witness :
  ∃ rs calls m l, rb_life sample_junk 8 sample_ops ∅ = Ret (rs, calls, m)
    ∧ spec_run [] sample_ops rs l ∧ calls ≡ₚ concat (e_dtors <$> l).
Proof. apply (rb_tree_destroy_calls_destructors sample_junk 8 sample_ops). reflexivity. Defined.

(** The results of the run, and the memory after its release. *)
Example sample_run :
  (λ r, match r with Ret (_, rs, _) => rs | Err _ => [] end)
    (rb_session sample_junk 8 sample_ops ∅)
  = [RNode 3; RNode 4; RNode 5; RNode 6; RInfo (Some 30); RNode 4;
     RCalls [KeyDtor 5; InfoDtor 50]; RInfo None; RCalls []; REntries [(1, 10); (3, 33); (8, 80)]]
  ∧ match rb_life sample_junk 8 sample_ops ∅ with Ret (_, m) => m = ∅ | Err _ => False end.
Proof. split; vm_compute; reflexivity. Qed.
