(* ===== verification/ConstValue.v ===== *)
(** * Constant values: [frontend/cxx-cexpr.c]

    The values that the compiler computes at compile time: integers of a given
    size and sign, floating values, complex, array, vector, string and range
    values, addresses and named objects.  Every constant is looked up in a pool
    ([const_value_return_unique]) before it is used, so the code compares the
    addresses of constants; a constant does not change after it is made, so a
    pointer to one is modelled by its contents and the pool by the contents it
    holds.  [ConstPool] refines the pool to the red-black tree of the code, with
    addresses, and adds the lookups that a comparison makes itself, which are not
    here: the comparison of a C string with a list of elements looks the
    characters up, [const_value_get_integer], while the pool is being searched.

    Structures ([CVK_STRUCT]), whose comparison needs the equivalence of types,
    are left out, and so is the optional 128-bit floating type. *)

From stdpp Require Import functions.
From Stdlib Require Export SpecFloat.
From S2P Require Import Prelude.

(** ** Integers of the host

    [cvalue_uint_t] is [unsigned __int128] where the host has it and [uint64_t]
    otherwise.  Its values are integers in [0, 2^W). *)
Class CvalueWidth := { HAVE_INT128 : bool }.

Definition MCXX_MAX_BYTES_INTEGER : Z := 16.

(** ** Data *)

(** [CVK_FLOAT], [CVK_DOUBLE], [CVK_LONG_DOUBLE] *)
Inductive fkind := KFloat | KDouble | KLongDouble.

(** [CVK_COMPLEX], [CVK_ARRAY], [CVK_VECTOR], [CVK_STRING], [CVK_RANGE] *)
Inductive mkind := MComplex | MArray | MVector | MString | MRange.

Inductive accessor_kind := SUBOBJ_ELEMENT | SUBOBJ_MEMBER.

(** A floating value of the host is a [spec_float] of its format.  The string
    of [CCString] is the list of its characters, as [unsigned char]; its number
    of elements counts a terminating null when [add_null] is set. *)
Inductive const :=
| CInteger (sign : bool) (num_bytes : Z) (i : Z)
| CFloating (k : fkind) (f : spec_float)
| CElements (k : mkind) (elements : list const)
| CCString (c_str : list Z) (add_null : bool)
| CUnknown
| CAddress (addr : const)
| CObject (base : Z) (accessors : list (accessor_kind * const)).

#[export] Instance fkind_eq_dec : EqDecision fkind.
Proof. solve_decision. Defined.
#[export] Instance mkind_eq_dec : EqDecision mkind.
Proof. solve_decision. Defined.

(** The numbers of [const_value_kind_t]. *)
Definition fkind_num (k : fkind) : Z :=
  match k with KFloat => 2 | KDouble => 3 | KLongDouble => 4 end.

Definition mkind_num (k : mkind) : Z :=
  match k with MComplex => 6 | MArray => 7 | MVector => 9 | MString => 10 | MRange => 11 end.

Definition const_kind (v : const) : Z :=
  match v with
  | CInteger _ _ _ => 1
  | CFloating k _ => fkind_num k
  | CElements k _ => mkind_num k
  | CCString _ _ => mkind_num MString
  | CUnknown => 13
  | CAddress _ => 14
  | CObject _ _ => 15
  end.

(** [sign] is a one-bit field of type [char]: where [char] is signed, as here,
    it reads as -1 when it is set. *)
Definition const_sign (v : const) : bool :=
  match v with CInteger sign _ _ => sign | CFloating _ _ => true | _ => false end.

Definition sign_field (sign : bool) : Z := if sign then -1 else 0.

Definition const_num_bytes (v : const) : Z :=
  match v with CInteger _ num_bytes _ => num_bytes | _ => 0 end.

Definition IS_MULTIVALUE (v : const) : bool :=
  match v with CElements _ _ | CCString _ _ => true | _ => false end.

(** The value of a [char] whose [unsigned char] is [c]. *)
Definition schar (c : Z) : Z := wraps 8 c.

Definition num_elements (v : const) : Z :=
  match v with
  | CElements _ elements => Z.of_nat (length elements)
  | CCString c_str add_null => Z.of_nat (length c_str) + (if add_null then 1 else 0)
  | _ => 0
  end.

(** ** Arithmetic of the host *)

Section width.
Context `{CvalueWidth}.

Definition W : Z := if HAVE_INT128 then 128 else 64.

(** Conversions to [cvalue_uint_t] and [cvalue_int_t]: the fields [value.i] and
    [value.si] of the union. *)
Definition ucast (z : Z) : Z := wrapu W z.
Definition scast (z : Z) : Z := wraps W z.

(** [~x] and [x << n] on [cvalue_uint_t], for a shift count below [W] *)
Definition unot (x : Z) : Z := ucast (Z.lnot x).
Definition ushl (x n : Z) : Z := ucast (Z.shiftl x n).

(** The integer [const_value_get_integer] makes, before the lookup in the pool. *)
Definition integer_contents (value num_bytes : Z) (sign : bool) : const :=
  let value :=
    if negb sign && (num_bytes <? W / 8)
    then let mask := ushl (unot 0) (8 * num_bytes) in Z.land value (unot mask)
    else value in
  CInteger sign num_bytes value.

(** ** The order of the constants *)

(** [if (a != b) return a > b ? 1 : -1;] *)
Definition three_way (a b : Z) : Z := if a =? b then 0 else if b <? a then 1 else -1.

(** [if (k != 0) return k;] and go on *)
Definition or_else (k next : Z) : Z := if k =? 0 then next else k.

Definition compare_headers (v1 v2 : const) : Z :=
  or_else (three_way (const_kind v1) (const_kind v2))
  (or_else (three_way (sign_field (const_sign v1)) (sign_field (const_sign v2)))
           (three_way (const_num_bytes v1) (const_num_bytes v2))).

Definition compare_integers (sign : bool) (i1 i2 : Z) : Z :=
  if sign then three_way (scast i1) (scast i2) else three_way i1 i2.

(** The number of bits of the mantissa. *)
Definition float_prec (k : fkind) : Z :=
  match k with KFloat => 24 | KDouble => 53 | KLongDouble => 64 end.
Definition float_emax (k : fkind) : Z :=
  match k with KFloat => 128 | KDouble => 1024 | KLongDouble => 16384 end.

(** [FP_NAN], [FP_INFINITE], [FP_ZERO], [FP_SUBNORMAL], [FP_NORMAL] *)
Definition fpclassify (k : fkind) (f : spec_float) : Z :=
  match f with
  | S754_nan => 0
  | S754_infinity _ => 1
  | S754_zero _ => 2
  | S754_finite _ m _ => if Z.pos (digits2_pos m) <? float_prec k then 3 else 4
  end.

Definition isnan (f : spec_float) : bool := match f with S754_nan => true | _ => false end.

(** [COMPARE_FLOATS] *)
Definition compare_floats (k : fkind) (f1 f2 : spec_float) : Z :=
  or_else (three_way (fpclassify k f1) (fpclassify k f2))
    (if isnan f1 && isnan f2 then 0
     else if SFeqb f1 f2 then 0 else if SFltb f2 f1 then 1 else -1).

(** [strcmp], reduced to its sign *)
Fixpoint strcmp_sign (s1 s2 : list Z) : Z :=
  match s1, s2 with
  | [], [] => 0
  | [], _ :: _ => -1
  | _ :: _, [] => 1
  | c1 :: s1', c2 :: s2' => or_else (three_way c1 c2) (strcmp_sign s1' s2')
  end.

(** [m->c_str[i]] for each element, as the constant the comparison makes of it *)
Definition c_str_elements (c_str : list Z) (add_null : bool) : list const :=
  (λ c, integer_contents (ucast (schar c)) 1 false) <$> (c_str ++ if add_null then [0] else []).

(** An integer against any constant. *)
Definition compare_integer_const (sign : bool) (num_bytes i : Z) (v2 : const) : Z :=
  or_else (compare_headers (CInteger sign num_bytes i) v2)
    match v2 with CInteger _ _ i2 => compare_integers sign i i2 | _ => 0 end.

Definition compare_char_const (c v2 : const) : Z :=
  match c with CInteger sign num_bytes i => compare_integer_const sign num_bytes i v2 | _ => 0 end.

(** The loop over the elements of two values with the same number of them. *)
Definition compare_lists {A B} (compare : A → B → Z) : list A → list B → Z :=
  fix loop l1 l2 :=
    match l1, l2 with
    | a :: l1', b :: l2' => or_else (compare a b) (loop l1' l2')
    | _, _ => 0
    end.

Definition accessor_num (k : accessor_kind) : Z :=
  match k with SUBOBJ_ELEMENT => 1 | SUBOBJ_MEMBER => 2 end.

(** The value of the comparison.  The lookups of characters that it makes in the
    pool are in [ConstPool.const_value_compare_by], whose value this is
    when the characters are in the pool.  The last branch is not reached: the
    kinds of the constants are equal. *)
Fixpoint const_value_compare_ (val1 val2 : const) {struct val1} : Z :=
  or_else (compare_headers val1 val2)
    match val1, val2 with
    | CInteger sign _ i1, CInteger _ _ i2 => compare_integers sign i1 i2
    | CFloating k f1, CFloating _ f2 => compare_floats k f1 f2
    | CElements _ l1, CElements _ l2 =>
        or_else (three_way (num_elements val1) (num_elements val2))
                (compare_lists const_value_compare_ l1 l2)
    | CElements _ l1, CCString s2 n2 =>
        or_else (three_way (num_elements val1) (num_elements val2))
                (compare_lists const_value_compare_ l1 (c_str_elements s2 n2))
    | CCString s1 n1, CElements _ l2 =>
        or_else (three_way (num_elements val1) (num_elements val2))
                (compare_lists compare_char_const (c_str_elements s1 n1) l2)
    | CCString s1 _, CCString s2 _ =>
        or_else (three_way (num_elements val1) (num_elements val2)) (strcmp_sign s1 s2)
    | CUnknown, CUnknown => 0
    | CAddress a1, CAddress a2 => const_value_compare_ a1 a2
    | CObject b1 acc1, CObject b2 acc2 =>
        or_else (three_way b1 b2)
        (or_else (three_way (Z.of_nat (length acc1)) (Z.of_nat (length acc2)))
           (compare_lists
              (λ a1 a2, or_else (three_way (accessor_num a1.1) (accessor_num a2.1))
                                (const_value_compare_ a1.2 a2.2)) acc1 acc2))
    | _, _ => 0
    end.

(** ** The pool

    The pool as the list of the constants it holds, no two of them equal in the
    order; the monad threads it through the functions that make constants. *)
Definition CM (A : Type) : Type := list const → res (A * list const).

#[export] Instance CM_ret : MRet CM := λ A a p, Ret (a, p).
#[export] Instance CM_bind : MBind CM := λ A B f c p, '(a, p') ← c p; f a p'.

Definition cfail {A} (e : cerr) : CM A := λ p, Err e.
Definition lift {A} (r : res A) : CM A := λ p, a ← r; Ret (a, p).

Definition pool_query (v : const) (p : list const) : option const :=
  head (filter (λ c, const_value_compare_ c v = 0) p).

(** One call, by contents: the search does not change the pool.  The addresses,
    the tree and the searches that insert are in [ConstPool.return_unique]. *)
Definition const_value_return_unique (v : const) : CM const := λ p,
  match pool_query v p with
  | None => Ret (v, v :: p)
  | Some result => Ret (result, p)
  end.

Definition const_value_get_integer (value num_bytes : Z) (sign : bool) : CM const :=
  if (MCXX_MAX_BYTES_INTEGER <? num_bytes) || (num_bytes <? 0) then cfail Aborted
  else const_value_return_unique (integer_contents value num_bytes sign).

(** [const_value_get_float], [const_value_get_double], [const_value_get_long_double] *)
Definition const_value_get_floating (k : fkind) (f : spec_float) : CM const :=
  const_value_return_unique (CFloating k f).

Definition const_value_get_zero (num_bytes : Z) (sign : bool) : CM const :=
  const_value_get_integer 0 num_bytes sign.
Definition const_value_get_one (num_bytes : Z) (sign : bool) : CM const :=
  const_value_get_integer 1 num_bytes sign.
Definition const_value_get_minus_one (num_bytes : Z) (sign : bool) : CM const :=
  const_value_get_integer (ucast (-1)) num_bytes sign.

Definition const_value_make_address (val : const) : CM const :=
  const_value_return_unique (CAddress val).
Definition const_value_make_object (base : Z) (accessors : list (accessor_kind * const)) :
    CM const :=
  const_value_return_unique (CObject base accessors).

(** A new constant on every call. *)
Definition const_value_get_unknown : CM const := mret CUnknown.

Definition const_value_is_address (v : const) : bool :=
  match v with CAddress _ => true | _ => false end.

Definition const_value_address_dereference (v : const) : CM const :=
  match v with CAddress a => mret a | _ => cfail Aborted end.

(** ** Values of several elements *)

(** Pointers to constants that can be null are options. *)
Definition make_multival (k : mkind) (elements : list (option const)) : CM const :=
  match mapM id elements with
  | Some elements => mret (CElements k elements)
  | None => cfail Aborted
  end.

(** [element] is not negative in the code that calls this. *)
Definition multival_get_element_num (v : const) (element : Z) : CM const :=
  if num_elements v <=? element then cfail Aborted else
  match v with
  | CElements _ elements => lift (get (elements !! Z.to_nat element))
  | CCString c_str add_null =>
      let len := Z.of_nat (length c_str) in
      if negb add_null then
        c ← lift (get (c_str !! Z.to_nat element));
        const_value_get_integer (ucast (schar c)) 1 false
      else if element =? len then const_value_get_zero 1 false
      else
        c ← lift (get (c_str !! Z.to_nat element));
        const_value_get_integer (ucast (schar c)) 1 false
  | _ => cfail Undef
  end.

Definition const_value_get_num_elements (v : const) : CM Z :=
  if IS_MULTIVALUE v then mret (num_elements v) else cfail Aborted.

Definition const_value_get_element_num (v : const) (num : Z) : CM const :=
  if IS_MULTIVALUE v then multival_get_element_num v num else cfail Aborted.

(** [for (i = 0; i < num_elements; i++) result_arr[i] = fun(i);] *)
Fixpoint map_elements {A} (f : Z → CM A) (i : Z) (n : nat) : CM (list A) :=
  match n with
  | O => mret []
  | S n' => a ← f i; l ← map_elements f (i + 1) n'; mret (a :: l)
  end.

Definition multival_kind (v : const) : mkind :=
  match v with CElements k _ => k | _ => MString end.

Definition map_multival {A} (f : Z → CM (option A)) (v : const) : CM (list (option A)) :=
  map_elements f 0 (Z.to_nat (num_elements v)).

Definition map_unary_to_structured_value (f : const → CM (option const)) (m1 : const) :
    CM (option const) :=
  if negb (IS_MULTIVALUE m1) then cfail Aborted else
  result_arr ← map_multival (λ i, e ← multival_get_element_num m1 i; f e) m1;
  mval ← make_multival (multival_kind m1) result_arr;
  mret (Some mval).

Definition map_binary_to_structured_value (f : const → const → CM (option const))
    (m1 m2 : const) : CM (option const) :=
  if negb (IS_MULTIVALUE m1) || negb (IS_MULTIVALUE m2) then cfail Aborted else
  if negb (num_elements m1 =? num_elements m2) then cfail Aborted else
  result_arr ← map_multival
    (λ i, e1 ← multival_get_element_num m1 i; e2 ← multival_get_element_num m2 i; f e1 e2) m1;
  mval ← make_multival (multival_kind m1) result_arr;
  mret (Some mval).

Definition extend_first_operand_to_structured_value (f : const → const → CM (option const))
    (m1 m2 : const) : CM (option const) :=
  if negb (IS_MULTIVALUE m1) then cfail Aborted else
  if IS_MULTIVALUE m2 then cfail Aborted else
  result_arr ← map_multival (λ i, e ← multival_get_element_num m1 i; f e m2) m1;
  mval ← make_multival (multival_kind m1) result_arr;
  mret (Some mval).

Definition extend_second_operand_to_structured_value (f : const → const → CM (option const))
    (m1 m2 : const) : CM (option const) :=
  if IS_MULTIVALUE m1 then cfail Aborted else
  if negb (IS_MULTIVALUE m2) then cfail Aborted else
  result_arr ← map_multival (λ i, e ← multival_get_element_num m2 i; f m1 e) m2;
  mval ← make_multival (multival_kind m2) result_arr;
  mret (Some mval).

Definition const_value_make_multival (k : mkind) (elements : list (option const)) : CM const :=
  result ← make_multival k elements; const_value_return_unique result.

Definition const_value_make_array := const_value_make_multival MArray.
Definition const_value_make_vector := const_value_make_multival MVector.
Definition const_value_make_string_from_values := const_value_make_multival MString.

Definition const_value_make_multival_from_scalar (k : mkind) (num_elements : nat) (value : const) :
    CM const :=
  const_value_make_multival k (replicate num_elements (Some value)).

(** Complex constants are made of parts of the same kind. *)
Definition const_value_make_complex (real_part imag_part : const) : CM const :=
  if negb (const_kind real_part =? const_kind imag_part) then cfail Aborted
  else const_value_make_multival MComplex [Some real_part; Some imag_part].

Definition const_value_make_range (lower upper stride : const) : CM const :=
  const_value_make_multival MRange [Some lower; Some upper; Some stride].

(** String literals; [literal] holds the [num_elements] characters. *)
Definition has_embedded_null (literal : list Z) : bool := existsb (Z.eqb 0) literal.

Definition const_value_make_string_using_values (literal : list Z) (add_null : bool) : CM const :=
  elements ← map_elements
    (λ i, c ← lift (get (literal !! Z.to_nat i)); const_value_get_integer (ucast (schar c)) 1 false)
    0 (length literal);
  elements ← (if add_null then z ← const_value_get_integer 0 1 false; mret (elements ++ [z])
              else mret elements);
  const_value_make_string_from_values (Some <$> elements).

Definition const_value_make_string_using_cstring (literal : list Z) (add_null : bool) : CM const :=
  const_value_return_unique (CCString literal add_null).

Definition const_value_make_string_internal (literal : list Z) (add_null : bool) : CM const :=
  if negb (has_embedded_null literal)
  then const_value_make_string_using_cstring literal add_null
  else const_value_make_string_using_values literal add_null.

Definition const_value_complex_get_real_part (v : const) : CM const :=
  match v with CElements MComplex _ => multival_get_element_num v 0 | _ => cfail Aborted end.
Definition const_value_complex_get_imag_part (v : const) : CM const :=
  match v with CElements MComplex _ => multival_get_element_num v 1 | _ => cfail Aborted end.

Definition const_value_real_to_complex (v : const) : CM const :=
  match v with
  | CInteger sign num_bytes _ =>
      zero ← const_value_get_zero num_bytes sign; const_value_make_complex v zero
  | CFloating k _ =>
      zero ← const_value_get_floating k (S754_zero false); const_value_make_complex v zero
  | _ => cfail Aborted
  end.

(** [const_value_string_concat] *)
Definition is_string (v : const) : bool :=
  match v with CElements MString _ | CCString _ _ => true | _ => false end.

Definition const_value_string_concat (v1 v2 : const) : CM const :=
  if negb (is_string v1) || negb (is_string v2) then cfail Aborted else
  l1 ← map_elements (const_value_get_element_num v1) 0 (Z.to_nat (num_elements v1));
  l2 ← map_elements (const_value_get_element_num v2) 0 (Z.to_nat (num_elements v2));
  const_value_make_string_from_values (Some <$> (l1 ++ l2)).

(** ** Predicates *)

Definition float_nonzero (f : spec_float) : bool := negb (SFeqb f (S754_zero false)).

Definition integer_nonzero (v : const) : bool :=
  match v with CInteger _ _ i => negb (i =? 0) | _ => false end.

(** A loop over elements that stops at the first one for which [f] holds. *)
Fixpoint any_element {A} (f : A → CM bool) (l : list A) : CM bool :=
  match l with
  | [] => mret false
  | a :: l' => b ← f a; if (b : bool) then mret true else any_element f l'
  end.

(** The elements of a C string are integers. *)
Fixpoint const_value_is_nonzero (v : const) : CM bool :=
  match v with
  | CElements _ elements =>
      (fix loop l := match l with
       | [] => mret false
       | e :: l' => b ← const_value_is_nonzero e; if (b : bool) then mret true else loop l'
       end) elements
  | CCString _ _ =>
      any_element (λ i, e ← multival_get_element_num v (Z.of_nat i); mret (integer_nonzero e))
        (seq 0 (Z.to_nat (num_elements v)))
  | CInteger _ _ i => mret (negb (i =? 0))
  | CFloating _ f => mret (float_nonzero f)
  | _ => cfail Aborted
  end.

Definition const_value_is_zero (v : const) : CM bool :=
  b ← const_value_is_nonzero v; mret (negb b).

(** The value 1 in a floating format. *)
Definition float_one (k : fkind) : spec_float :=
  binary_normalize (float_prec k) (float_emax k) 1 0 false.

(** The elements of a C string are read as pointers. *)
Fixpoint const_value_is_one (v : const) : CM bool :=
  match v with
  | CElements _ elements =>
      (fix loop l := match l with
       | [] => mret true
       | e :: l' => b ← const_value_is_one e; if negb b then mret false else loop l'
       end) elements
  | CCString _ _ => if num_elements v =? 0 then mret true else cfail Undef
  | CInteger _ _ i => mret (i =? 1)
  | CFloating k f => mret (SFeqb f (float_one k))
  | _ => cfail Aborted
  end.

Fixpoint const_value_is_minus_one (v : const) : CM bool :=
  match v with
  | CInteger _ _ i => mret (scast i =? -1)
  | CFloating k f => mret (SFeqb f (SFopp (float_one k)))
  | CElements MComplex (re :: parts) =>
      b ← const_value_is_minus_one re;
      if negb b then mret false else
      match parts with im :: _ => const_value_is_zero im | [] => cfail Aborted end
  | _ => cfail Aborted
  end.

Definition const_value_is_positive (v : const) : CM bool :=
  match v with
  | CInteger sign _ i => mret (if negb sign then 0 <? i else 0 <? scast i)
  | CFloating _ f => mret (SFltb (S754_zero false) f)
  | _ => cfail Aborted
  end.

Definition const_value_is_negative (v : const) : CM bool :=
  match v with
  | CInteger sign _ i => mret (if negb sign then false else scast i <? 0)
  | CFloating _ f => mret (SFltb f (S754_zero false))
  | _ => cfail Aborted
  end.

(** [const_value_is_signed] and [const_value_get_bytes] read the fields. *)
Definition const_value_is_signed (v : const) : bool := const_sign v.
Definition const_value_get_bytes (v : const) : Z := const_num_bytes v.

(** ** Casts *)

(** The integer part of a floating value. *)
Definition float_trunc (f : spec_float) : option Z :=
  match f with
  | S754_zero _ => Some 0
  | S754_finite s m e =>
      let z := if 0 <=? e then Z.pos m * 2 ^ e else Z.pos m / 2 ^ (- e) in
      Some (if s then - z else z)
  | _ => None
  end.

(** The conversion of a floating value to an integer type is undefined when the
    integer part is not a value of the type. *)
Definition float_to_integer (bits : Z) (sign : bool) (f : spec_float) : res Z :=
  z ← get (float_trunc f);
  let lo := if sign then - 2 ^ (bits - 1) else 0 in
  let hi := if sign then 2 ^ (bits - 1) else 2 ^ bits in
  if (lo <=? z) && (z <? hi) then Ret z else Err Undef.

(** [const_value_cast_to_1] to [const_value_cast_to_16] and the casts to the
    signed types: [bits] and [sign] of the type returned. *)
Definition const_value_cast_to (bits : Z) (sign : bool) (v : const) : res Z :=
  match v with
  | CInteger _ _ i => Ret (if sign then wraps bits i else wrapu bits i)
  | CFloating _ f => float_to_integer bits sign f
  | _ => Err Aborted
  end.

Definition const_value_cast_to_cvalue_uint (v : const) : res Z :=
  if HAVE_INT128 then const_value_cast_to 128 false v else const_value_cast_to 64 false v.
Definition const_value_cast_to_cvalue_int (v : const) : res Z :=
  z ← const_value_cast_to_cvalue_uint v; Ret (scast z).

(** [CAST_FLOAT_POINT_TO_INT] *)
Definition cast_float_to_int (f : spec_float) (num_bytes : Z) (sign : bool) : CM const :=
  let bits := num_bytes * 8 in
  if (bits =? 8) || (bits =? 16) || (bits =? 32) || (bits =? 64)
     || (HAVE_INT128 && (bits =? 128))
  then z ← lift (float_to_integer bits sign f); const_value_get_integer (ucast z) num_bytes sign
  else cfail Aborted.

Definition cast_integer_to_bytes (v : const) (num_bytes : Z) (sign : bool) : CM const :=
  match v with
  | CInteger _ _ i => const_value_get_integer i num_bytes sign
  | _ => cfail Aborted
  end.

(** With [map_cast_to_bytes_to_structured_value], whose result is not looked up
    in the pool. *)
Fixpoint const_value_cast_to_bytes (val : const) (num_bytes : Z) (sign : bool) : CM const :=
  match val with
  | CInteger _ _ i => const_value_get_integer i num_bytes sign
  | CFloating _ f => cast_float_to_int f num_bytes sign
  | CElements k elements =>
      result_arr ← (fix loop l := match l with
        | [] => mret []
        | e :: l' =>
            r ← const_value_cast_to_bytes e num_bytes sign; rs ← loop l'; mret (r :: rs)
        end) elements;
      make_multival k (Some <$> result_arr)
  | CCString _ _ =>
      result_arr ← map_elements
        (λ i, e ← multival_get_element_num val i; cast_integer_to_bytes e num_bytes sign)
        0 (Z.to_nat (num_elements val));
      make_multival MString (Some <$> result_arr)
  | _ => cfail Aborted
  end.

(** ** The type of the result of an operation on two constants *)

Definition common_bytes (v1 v2 : const) : Z * bool :=
  let n1 := const_num_bytes v1 in
  let n2 := const_num_bytes v2 in
  let s1 := const_sign v1 in
  let s2 := const_sign v2 in
  if (n1 =? n2) && eqb s1 s2 then (n1, s1)
  else
    let num_bytes := if n2 <? n1 then n1 else n2 in
    if negb (eqb s1 s2) then
      if n1 =? n2 then (num_bytes, false)
      else if n2 <? n1 then (num_bytes, s1)
      else (num_bytes, s2)
    else (num_bytes, s1).
End width.

(** ** Lemmas on the arithmetic of the host *)

Section arithmetic.
Context `{CvalueWidth}.

Lemma W_cases : W = 128 ∨ W = 64.
Proof. unfold W. destruct HAVE_INT128; auto. Qed.

Lemma W_bytes : 8 * (W / 8) = W.
Proof. by destruct W_cases as [->| ->]. Qed.

Lemma pow2_split n : 0 < n → 2 ^ n = 2 * 2 ^ (n - 1).
Proof. intros Hn. rewrite <-Z.pow_succ_r by lia. f_equal. lia. Qed.

Lemma pow2_W : 2 ^ W = 2 * 2 ^ (W - 1).
Proof. apply pow2_split. destruct W_cases; lia. Qed.

Lemma ucast_range z : 0 ≤ ucast z < 2 ^ W.
Proof. apply wrapu_range. destruct W_cases; lia. Qed.

Lemma ucast_small z : 0 ≤ z < 2 ^ W → ucast z = z.
Proof. apply wrapu_small. Qed.

Lemma scast_range z : - 2 ^ (W - 1) ≤ scast z < 2 ^ (W - 1).
Proof. apply wraps_range. destruct W_cases; lia. Qed.

Lemma scast_small z : - 2 ^ (W - 1) ≤ z < 2 ^ (W - 1) → scast z = z.
Proof. apply wraps_small. destruct W_cases; lia. Qed.

Lemma ucast_ucast z : ucast (ucast z) = ucast z.
Proof. apply ucast_small, ucast_range. Qed.

(** Casts to one type forget those to the other. *)
Lemma scast_ucast z : scast (ucast z) = scast z.
Proof.
  unfold scast, wraps, ucast, wrapu. f_equal. rewrite Zplus_mod_idemp_l. done.
Qed.

Lemma ucast_scast z : ucast (scast z) = ucast z.
Proof.
  unfold scast, wraps, ucast, wrapu. rewrite Zminus_mod_idemp_l. f_equal. lia.
Qed.

Lemma scast_inj i j : 0 ≤ i < 2 ^ W → 0 ≤ j < 2 ^ W → scast i = scast j → i = j.
Proof.
  intros Hi Hj Hij. rewrite <-(ucast_small i), <-(ucast_small j) by done.
  rewrite <-(ucast_scast i), <-(ucast_scast j). by rewrite Hij.
Qed.

(** Masking keeps the low bits. *)
Lemma mask_low value n :
  0 ≤ value < 2 ^ W → 0 ≤ n < W → Z.land value (unot (ushl (unot 0) n)) = value mod 2 ^ n.
Proof.
  intros Hv Hn. rewrite <-Z.land_ones by lia. apply Z.bits_inj'. intros k Hk.
  unfold unot, ushl, ucast, wrapu. rewrite <-!Z.land_ones by lia.
  rewrite !Z.land_spec, Z.lnot_spec, !Z.land_spec, Z.shiftl_spec, !Z.testbit_ones_nonneg by lia.
  destruct (Z.ltb_spec k W) as [Hk'|Hk'].
  - destruct (Z.ltb_spec k n) as [Hkn|Hkn].
    + rewrite (Z.testbit_neg_r _ (k - n)) by lia. by destruct (Z.testbit value k).
    + rewrite Z.land_spec, Z.lnot_spec, Z.testbit_0_l, Z.testbit_ones_nonneg by lia.
      rewrite (proj2 (Z.ltb_lt (k - n) W)) by lia. simpl. by rewrite andb_false_r.
  - rewrite (Z.bits_above_log2 value k); [done|lia|].
    destruct (decide (value = 0)) as [->|Hne]; [simpl; lia|].
    apply Z.log2_lt_pow2; [lia|]. eapply Z.lt_le_trans; [apply Hv|].
    apply Z.pow_le_mono_r; lia.
Qed.

(** The value that [const_value_get_integer] keeps. *)
Definition masked (value num_bytes : Z) (sign : bool) : Z :=
  if negb sign && (num_bytes <? W / 8) then value mod 2 ^ (8 * num_bytes) else value.

Lemma integer_contents_masked value num_bytes sign :
  0 ≤ value < 2 ^ W → 0 ≤ num_bytes →
  integer_contents value num_bytes sign = CInteger sign num_bytes (masked value num_bytes sign).
Proof.
  intros Hv Hn. unfold integer_contents, masked. destruct sign; simpl; [done|].
  destruct (Z.ltb_spec num_bytes (W / 8)) as [Hlt|]; [|done]. f_equal. apply mask_low; [done|].
  pose proof W_bytes. lia.
Qed.

Lemma masked_range value num_bytes sign :
  0 ≤ value < 2 ^ W → 0 ≤ num_bytes → 0 ≤ masked value num_bytes sign < 2 ^ W.
Proof.
  intros Hv Hn. unfold masked. destruct (_ && _) eqn:Hb; [|done]. zbool.
  pose proof (Z.mod_pos_bound value (2 ^ (8 * num_bytes)) ltac:(lia)).
  assert (2 ^ (8 * num_bytes) ≤ 2 ^ W); [|lia].
  apply Z.pow_le_mono_r; [lia|]. pose proof W_bytes. lia.
Qed.
End arithmetic.

(** ** Well-formed constants *)

Section const_ind.
Variable P : const → Prop.
Hypothesis Pint : ∀ s n i, P (CInteger s n i).
Hypothesis Pflt : ∀ k f, P (CFloating k f).
Hypothesis Pelt : ∀ k l, Forall P l → P (CElements k l).
Hypothesis Pstr : ∀ s n, P (CCString s n).
Hypothesis Punk : P CUnknown.
Hypothesis Padr : ∀ a, P a → P (CAddress a).
Hypothesis Pobj : ∀ b acc, Forall (λ a : accessor_kind * const, P a.2) acc → P (CObject b acc).

(** Induction with hypotheses on the elements. *)
Fixpoint const_ind' (v : const) : P v :=
  match v with
  | CInteger s n i => Pint s n i
  | CFloating k f => Pflt k f
  | CElements k l =>
      Pelt k l ((fix all l : Forall P l := match l with
        | [] => @List.Forall_nil _ _
        | e :: l' => @List.Forall_cons _ _ e l' (const_ind' e) (all l')
        end) l)
  | CCString s n => Pstr s n
  | CUnknown => Punk
  | CAddress a => Padr a (const_ind' a)
  | CObject b acc =>
      Pobj b acc ((fix all l : Forall (λ a : accessor_kind * const, P a.2) l := match l with
        | [] => @List.Forall_nil _ _
        | e :: l' => @List.Forall_cons _ _ e l' (const_ind' e.2) (all l')
        end) acc)
  end.
End const_ind.

(** Every constant of the program is [const_ok]: its integers are values of
    [cvalue_uint_t], below [2^(8n)] when they are unsigned of [n] bytes, and the
    characters of its C strings are not null. *)
Inductive const_ok `{CvalueWidth} : const → Prop :=
| ok_integer sign num_bytes i :
    0 ≤ num_bytes ≤ MCXX_MAX_BYTES_INTEGER → 0 ≤ i < 2 ^ W →
    (sign = false → num_bytes < W / 8 → i < 2 ^ (8 * num_bytes)) →
    const_ok (CInteger sign num_bytes i)
| ok_floating k f : const_ok (CFloating k f)
| ok_elements k l : Forall const_ok l → const_ok (CElements k l)
| ok_cstring s n : Forall (λ c, 0 < c < 256) s → const_ok (CCString s n)
| ok_unknown : const_ok CUnknown
| ok_address a : const_ok a → const_ok (CAddress a)
| ok_object b acc : Forall (λ a, const_ok a.2) acc → const_ok (CObject b acc).

Definition pool_ok `{CvalueWidth} (p : list const) : Prop := Forall const_ok p.
