(* ===== verification/ConstOrder.v ===== *)
(** * The order of the constants and the contents of the pool

    [const_value_compare_] is the lexicographic comparison of an encoding of the
    constants as lists of integers, in which a C string has the encoding of the
    list of its characters; so it is a total preorder, the condition under which
    the pool's red-black tree works, and on integers it is equality.  The rest
    of the file is the rule by which the functions on constants are verified:
    [returns m v], the code [m] terminates with the constant [v] in every pool. *)

From S2P Require Import Prelude ConstValue.

(** ** Lexicographic comparison *)

Lemma or_else_0 k : or_else 0 k = k.
Proof. done. Qed.

Lemma or_else_assoc a b c : or_else (or_else a b) c = or_else a (or_else b c).
Proof. unfold or_else. destruct (Z.eqb_spec a 0) as [->|]; [done|]. by destruct (a =? 0) eqn:?; zbool. Qed.

Lemma three_way_refl a : three_way a a = 0.
Proof. unfold three_way. by rewrite Z.eqb_refl. Qed.

Lemma three_way_eq a b : three_way a b = 0 ↔ a = b.
Proof. unfold three_way. repeat split_if; lia. Qed.

Lemma three_way_antisym a b : three_way b a = - three_way a b.
Proof. unfold three_way. repeat split_if; lia. Qed.

Lemma three_way_le a b : three_way a b ≤ 0 ↔ a ≤ b.
Proof. unfold three_way. repeat split_if; lia. Qed.

Lemma three_way_lt a b : a < b → three_way a b = -1.
Proof. unfold three_way. repeat split_if; lia. Qed.

Lemma three_way_gt a b : b < a → three_way a b = 1.
Proof. unfold three_way. repeat split_if; lia. Qed.

Lemma three_way_compare a b :
  three_way a b = match a ?= b with Eq => 0 | Lt => -1 | Gt => 1 end.
Proof. unfold three_way. destruct (Z.compare_spec a b); repeat split_if; lia. Qed.

Lemma or_else_ne a b k : a ≠ b → or_else (three_way a b) k = three_way a b.
Proof. intros Hne. unfold or_else. rewrite (proj2 (Z.eqb_neq _ _)); [done|]. by rewrite three_way_eq. Qed.

Lemma strcmp_sign_refl s : strcmp_sign s s = 0.
Proof. induction s as [|c s IH]; simpl; [done|]. by rewrite three_way_refl, or_else_0. Qed.

Lemma strcmp_sign_antisym s1 s2 : strcmp_sign s2 s1 = - strcmp_sign s1 s2.
Proof.
  revert s2. induction s1 as [|c s1 IH]; intros [|d s2]; simpl; [done..|].
  rewrite three_way_antisym, IH. unfold or_else. repeat split_if; lia.
Qed.

Lemma strcmp_sign_trans s1 s2 s3 :
  strcmp_sign s1 s2 ≤ 0 → strcmp_sign s2 s3 ≤ 0 → strcmp_sign s1 s3 ≤ 0.
Proof.
  revert s2 s3. induction s1 as [|c s1 IH]; intros [|d s2] [|e s3]; simpl; try lia.
  specialize (IH s2 s3). pose proof (three_way_le c d). pose proof (three_way_le d e).
  pose proof (three_way_le c e). pose proof (three_way_eq c d). pose proof (three_way_eq d e).
  pose proof (three_way_eq c e). unfold or_else. repeat split_if; lia.
Qed.

Lemma strcmp_sign_eq s1 s2 : strcmp_sign s1 s2 = 0 → s1 = s2.
Proof.
  revert s2. induction s1 as [|c s1 IH]; intros [|d s2]; simpl; [done..|].
  unfold or_else. split_if; [|lia]. intros Hs. apply three_way_eq in Heqb as ->.
  f_equal. by apply IH.
Qed.

(** ** The encoding *)

Section order.
Context `{CvalueWidth}.

Definition integer_code (sign : bool) (num_bytes i : Z) : list Z :=
  [1; sign_field sign; num_bytes; if sign then scast i else i].

Definition char_code (c : Z) : list Z := integer_code false 1 c.

Definition float_code (k : fkind) (f : spec_float) : list Z :=
  fpclassify k f ::
  match f with
  | S754_nan | S754_zero _ => []
  | S754_infinity s => [if s then 0 else 1]
  | S754_finite s m e => if s then [0; - e; Z.neg m] else [1; e; Z.pos m]
  end.

Fixpoint code (v : const) : list Z :=
  const_kind v :: sign_field (const_sign v) :: const_num_bytes v ::
  match v with
  | CInteger sign _ i => [if sign then scast i else i]
  | CFloating k f => float_code k f
  | CElements _ l => num_elements v :: concat (map code l)
  | CCString s n => num_elements v :: concat (map char_code (s ++ if n then [0] else []))
  | CUnknown => []
  | CAddress a => code a
  | CObject b acc =>
      b :: Z.of_nat (length acc) :: concat (map (λ a, accessor_num a.1 :: code a.2) acc)
  end.

Lemma lex_cons a b r s : strcmp_sign (a :: r) (b :: s) = or_else (three_way a b) (strcmp_sign r s).
Proof. done. Qed.

Lemma compare_headers_code v1 v2 r s :
  or_else (compare_headers v1 v2) (strcmp_sign r s)
  = strcmp_sign (const_kind v1 :: sign_field (const_sign v1) :: const_num_bytes v1 :: r)
      (const_kind v2 :: sign_field (const_sign v2) :: const_num_bytes v2 :: s).
Proof. unfold compare_headers. by rewrite !or_else_assoc, !lex_cons. Qed.

(** Only constants with the same header are compared further. *)
Lemma or_else_same h x y : (h = 0 → x = y) → or_else h x = or_else h y.
Proof. intros Hxy. unfold or_else. destruct (Z.eqb_spec h 0); auto. Qed.

Lemma compare_headers_eq v1 v2 :
  compare_headers v1 v2 = 0 →
  const_kind v1 = const_kind v2 ∧ sign_field (const_sign v1) = sign_field (const_sign v2)
  ∧ const_num_bytes v1 = const_num_bytes v2.
Proof.
  unfold compare_headers, or_else.
  destruct (Z.eqb_spec (three_way (const_kind v1) (const_kind v2)) 0) as [Hk|]; [|done].
  destruct (Z.eqb_spec (three_way (sign_field (const_sign v1)) (sign_field (const_sign v2))) 0)
    as [Hs|]; [|done].
  intros Hn. by rewrite !three_way_eq in Hk, Hs, Hn.
Qed.

Lemma compare_bodies v1 v2 x r s :
  (const_kind v1 = const_kind v2 → sign_field (const_sign v1) = sign_field (const_sign v2) →
   const_num_bytes v1 = const_num_bytes v2 → x = strcmp_sign r s) →
  or_else (compare_headers v1 v2) x
  = strcmp_sign (const_kind v1 :: sign_field (const_sign v1) :: const_num_bytes v1 :: r)
      (const_kind v2 :: sign_field (const_sign v2) :: const_num_bytes v2 :: s).
Proof.
  intros Hx. rewrite <-compare_headers_code. apply or_else_same.
  intros (? & ? & ?)%compare_headers_eq. auto.
Qed.

(** The loop over lists of the same length compares the concatenated codes. *)
Lemma compare_lists_code {A B} (cmp : A → B → Z) (f : A → list Z) (g : B → list Z) l1 l2 r s :
  Forall2 (λ a b, ∀ r s, or_else (cmp a b) (strcmp_sign r s) = strcmp_sign (f a ++ r) (g b ++ s))
    l1 l2 →
  or_else (compare_lists cmp l1 l2) (strcmp_sign r s)
  = strcmp_sign (concat (map f l1) ++ r) (concat (map g l2) ++ s).
Proof.
  induction 1 as [|a b l1 l2 Hab _ IH]; simpl; [by rewrite or_else_0|].
  by rewrite or_else_assoc, IH, Hab, <-!app_assoc.
Qed.

(** ... and the number of elements is compared first. *)
Lemma compare_elements_code {A B} (cmp : A → B → Z) (f : A → list Z) (g : B → list Z) l1 l2 n1 n2 r s :
  n1 = Z.of_nat (length l1) → n2 = Z.of_nat (length l2) →
  (length l1 = length l2 →
   Forall2 (λ a b, ∀ r s, or_else (cmp a b) (strcmp_sign r s) = strcmp_sign (f a ++ r) (g b ++ s))
     l1 l2) →
  or_else (or_else (three_way n1 n2) (compare_lists cmp l1 l2)) (strcmp_sign r s)
  = strcmp_sign (n1 :: concat (map f l1) ++ r) (n2 :: concat (map g l2) ++ s).
Proof.
  intros -> -> Hl. rewrite or_else_assoc, lex_cons. apply or_else_same.
  rewrite three_way_eq. intros Hn. apply compare_lists_code, Hl. lia.
Qed.

Lemma compare_finite s1 m1 e1 s2 m2 e2 :
  (if SFeqb (S754_finite s1 m1 e1) (S754_finite s2 m2 e2) then 0
   else if SFltb (S754_finite s2 m2 e2) (S754_finite s1 m1 e1) then 1 else -1)
  = strcmp_sign (if s1 then [0; - e1; Z.neg m1] else [1; e1; Z.pos m1])
      (if s2 then [0; - e2; Z.neg m2] else [1; e2; Z.pos m2]).
Proof.
  unfold SFeqb, SFltb, SFcompare. change (Pos.compare_cont Eq) with Pos.compare.
  rewrite (Z.compare_antisym e1 e2), (Pos.compare_antisym m1 m2).
  destruct s1, s2; [|done..|]; simpl; rewrite !three_way_compare, ?Z.compare_opp;
    rewrite ?(Z.compare_antisym e1 e2); simpl; rewrite ?(Pos.compare_antisym m1 m2);
    by destruct (e1 ?= e2), (m1 ?= m2)%positive.
Qed.

Lemma compare_infinite s1 s2 :
  (if SFeqb (S754_infinity s1) (S754_infinity s2) then 0
   else if SFltb (S754_infinity s2) (S754_infinity s1) then 1 else -1)
  = strcmp_sign [if s1 then 0 else 1] [if s2 then 0 else 1].
Proof. by destruct s1, s2. Qed.

Lemma strcmp_sign_app a b r s :
  length a = length b →
  strcmp_sign (a ++ r) (b ++ s) = or_else (strcmp_sign a b) (strcmp_sign r s).
Proof.
  revert b. induction a as [|x a IH]; intros [|y b] Hl; simplify_eq/=; [done|].
  by rewrite or_else_assoc, IH.
Qed.

Lemma compare_floats_code k f1 f2 r s :
  or_else (compare_floats k f1 f2) (strcmp_sign r s)
  = strcmp_sign (float_code k f1 ++ r) (float_code k f2 ++ s).
Proof.
  unfold compare_floats, float_code. rewrite or_else_assoc. cbn [app]. rewrite lex_cons.
  apply or_else_same. rewrite three_way_eq. intros Hk.
  destruct f1 as [s1|s1| |s1 m1 e1], f2 as [s2|s2| |s2 m2 e2]; simpl in Hk;
    try (exfalso; repeat case_match; lia); try done; cbn [isnan andb].
  all: rewrite strcmp_sign_app by (by destruct s1, s2).
  all: by rewrite ?compare_infinite, ?compare_finite.
Qed.

(** *** C strings *)

Lemma schar_byte c : 0 ≤ c < 256 → ucast (schar c) mod 2 ^ 8 = c.
Proof.
  intros Hc. unfold schar, ucast, wraps, wrapu.
  assert (0 < 2 ^ W) by (apply Z.pow_pos_nonneg; destruct W_cases; lia).
  rewrite <-Znumtheory.Zmod_div_mod; [|lia|lia|].
  - rewrite Zminus_mod_idemp_l. rewrite Z.mod_small; [lia|]. simpl. lia.
  - exists (2 ^ (W - 8)). rewrite <-Z.pow_add_r by (destruct W_cases; lia). f_equal. lia.
Qed.

Lemma char_contents c : 0 ≤ c < 256 → integer_contents (ucast (schar c)) 1 false = CInteger false 1 c.
Proof.
  intros Hc. rewrite integer_contents_masked by (lia || apply ucast_range). f_equal.
  unfold masked. rewrite (proj2 (Z.ltb_lt 1 (W / 8))); [by apply schar_byte|].
  by destruct W_cases as [->| ->].
Qed.

Definition string_chars (s : list Z) (add_null : bool) : list Z := s ++ if add_null then [0] else [].

Lemma string_chars_range s n c :
  Forall (λ c, 0 < c < 256) s → c ∈ string_chars s n → 0 ≤ c < 256.
Proof.
  rewrite Forall_forall. intros Hs. unfold string_chars. rewrite elem_of_app.
  intros [Hc|Hc]; [specialize (Hs c Hc); lia|]. destruct n; set_solver by lia.
Qed.

Lemma c_str_elements_chars s n :
  Forall (λ c, 0 < c < 256) s → c_str_elements s n = CInteger false 1 <$> string_chars s n.
Proof.
  intros Hs. unfold c_str_elements. fold (string_chars s n).
  apply list_fmap_ext. intros i c Hi. apply char_contents.
  eapply string_chars_range; [done|]. by eapply list_elem_of_lookup_2.
Qed.

Lemma num_elements_cstring s n : num_elements (CCString s n) = Z.of_nat (length (string_chars s n)).
Proof. unfold string_chars. simpl. rewrite length_app. destruct n; simpl; lia. Qed.

Lemma strcmp_code s1 s2 n1 n2 r s :
  Forall (λ c, 0 < c < 256) s1 → Forall (λ c, 0 < c < 256) s2 →
  length (string_chars s1 n1) = length (string_chars s2 n2) →
  or_else (strcmp_sign s1 s2) (strcmp_sign r s)
  = strcmp_sign (concat (map char_code (string_chars s1 n1)) ++ r)
      (concat (map char_code (string_chars s2 n2)) ++ s).
Proof.
  unfold string_chars. intros Hs1. revert s2.
  induction Hs1 as [|c s1 Hc Hs1 IH]; intros s2 Hs2 Hl; destruct Hs2 as [|d s2 Hd Hs2].
  - by destruct n1, n2.
  - rewrite length_app in Hl. simpl in *. destruct n1, n2, s2; simpl in *; try lia.
    by rewrite !three_way_refl, !or_else_0, three_way_lt by lia.
  - rewrite length_app in Hl. simpl in *. destruct n1, n2, s1; simpl in *; try lia.
    by rewrite !three_way_refl, !or_else_0, three_way_gt by lia.
  - simpl in *. rewrite or_else_assoc, !three_way_refl, !or_else_0. f_equal. apply IH; [done|lia].
Qed.

(** *** All the constants *)

Lemma char_const_code c v r s :
  const_ok v →
  or_else (compare_char_const (CInteger false 1 c) v) (strcmp_sign r s)
  = strcmp_sign (char_code c ++ r) (code v ++ s).
Proof.
  intros Hv. unfold compare_char_const, compare_integer_const. rewrite or_else_assoc.
  etrans; [apply (compare_bodies (CInteger false 1 c) v _ (c :: r) (drop 3 (code v) ++ s))|by destruct v].
  intros Hk Hs Hn. destruct Hv as [[] n i|k f|k l|? ?| | |]; try done; by destruct k.
Qed.

(** The hypotheses of [compare_elements_code], element by element. *)
Lemma Forall2_by_lookup {A B} (P : A → B → Prop) (Q : A → Prop) (R : B → Prop) l1 l2 :
  Forall Q l1 → Forall R l2 → (∀ a b, a ∈ l1 → Q a → R b → P a b) →
  length l1 = length l2 → Forall2 P l1 l2.
Proof.
  intros HQ HR HP Hl. apply Forall2_same_length_lookup. split; [done|]. intros i a b Ha Hb.
  apply HP; [by eapply list_elem_of_lookup_2|by eapply Forall_lookup_1..].
Qed.

Lemma chars_codes s n :
  map char_code (string_chars s n) = map code (CInteger false 1 <$> string_chars s n).
Proof. by rewrite map_map. Qed.

Lemma chars_ok s n : Forall (λ c, 0 < c < 256) s → Forall const_ok (CInteger false 1 <$> string_chars s n).
Proof.
  intros Hs. apply Forall_fmap, Forall_forall. intros c Hc.
  pose proof (string_chars_range s n c Hs Hc) as Hr. constructor; [by vm_compute| |simpl; lia].
  assert (2 ^ 8 ≤ 2 ^ W) by (apply Z.pow_le_mono_r; destruct W_cases; lia). lia.
Qed.

Lemma const_value_compare_code a : ∀ b r s,
  const_ok a → const_ok b →
  or_else (const_value_compare_ a b) (strcmp_sign r s) = strcmp_sign (code a ++ r) (code b ++ s).
Proof.
  induction a as [s1 n1 i1|k1 f1|k1 l1 IH|s1 z1| |a1 IH|b1 acc1 IH] using const_ind';
    intros b r s Ha Hb; destruct b as [s2 n2 i2|k2 f2|k2 l2|s2 z2| |a2|b2 acc2];
    cbn [const_value_compare_]; rewrite or_else_assoc; apply compare_bodies;
    cbn [const_kind const_sign const_num_bytes]; intros Hk Hs Hn;
    try (exfalso; repeat match goal with k : fkind |- _ => destruct k | k : mkind |- _ => destruct k end;
         done).
  - destruct s1, s2; done.
  - assert (k1 = k2) as -> by (by destruct k1, k2). apply compare_floats_code.
  - inversion Ha; inversion Hb; subst. apply compare_elements_code; [done..|].
    apply (Forall2_by_lookup _ const_ok const_ok); [done..|]. intros a b Hin Ha' Hb' r' s'.
    rewrite Forall_forall in IH. by apply IH.
  - inversion Ha; inversion Hb; subst. fold (string_chars s2 z2).
    rewrite c_str_elements_chars, chars_codes by done.
    apply compare_elements_code; [done|by rewrite num_elements_cstring, length_fmap|].
    apply (Forall2_by_lookup _ const_ok const_ok); [done|by apply chars_ok|].
    intros a b Hin Ha' Hb' r' s'. rewrite Forall_forall in IH. by apply IH.
  - inversion Ha; inversion Hb; subst. fold (string_chars s1 z1).
    rewrite c_str_elements_chars, chars_codes by done.
    apply compare_elements_code; [by rewrite num_elements_cstring, length_fmap|done|].
    apply (Forall2_by_lookup _ const_ok const_ok); [by apply chars_ok|done|].
    intros a b (c & -> & Hc)%list_elem_of_fmap _ Hb' r' s'. by apply char_const_code.
  - inversion Ha; inversion Hb; subst. rewrite !num_elements_cstring, or_else_assoc.
    apply (or_else_same (three_way _ _) _ (strcmp_sign (_ ++ r) (_ ++ s))).
    rewrite three_way_eq. intros Hl. apply strcmp_code; [done..|]. lia.
  - done.
  - inversion Ha; inversion Hb; subst. by apply IH.
  - inversion Ha; inversion Hb; subst. rewrite or_else_assoc.
    apply (or_else_same (three_way _ _) _ (strcmp_sign (_ :: _ ++ r) (_ :: _ ++ s))). intros _.
    apply compare_elements_code; [done..|].
    apply (Forall2_by_lookup _ (λ a, const_ok a.2) (λ a, const_ok a.2)); [done..|].
    intros a b Hin Ha' Hb' r' s'. rewrite or_else_assoc.
    apply (or_else_same (three_way _ _) _ (strcmp_sign (code a.2 ++ r') (code b.2 ++ s'))).
    intros _. rewrite Forall_forall in IH. by apply IH.
Qed.

Lemma const_value_compare_lex a b :
  const_ok a → const_ok b → const_value_compare_ a b = strcmp_sign (code a) (code b).
Proof.
  intros Ha Hb. pose proof (const_value_compare_code a b [] [] Ha Hb) as Hc.
  rewrite !app_nil_r in Hc. rewrite <-Hc. unfold or_else. simpl. by split_if.
Qed.

(** An integer is equal to no other constant. *)
Lemma code_integer_inj v sign num_bytes i :
  const_ok v → const_ok (CInteger sign num_bytes i) →
  code v = code (CInteger sign num_bytes i) → v = CInteger sign num_bytes i.
Proof.
  intros Hv Hi Hc. destruct Hv as [s n j Hn Hj Hm|[]|[]| | | |]; try discriminate Hc.
  inversion Hi; subst. simpl in Hc. destruct s, sign; simplify_eq/=; f_equal.
  by apply scast_inj.
Qed.

Lemma compare_integer_eq v sign num_bytes i :
  const_ok v → const_ok (CInteger sign num_bytes i) →
  const_value_compare_ v (CInteger sign num_bytes i) = 0 → v = CInteger sign num_bytes i.
Proof.
  intros Hv Hi. rewrite const_value_compare_lex by done. intros Hc%strcmp_sign_eq.
  by apply code_integer_inj.
Qed.

(** ** The rule of the functions on constants *)

Definition returns {A} (m : CM A) (a : A) : Prop :=
  ∀ p, pool_ok p → ∃ p', m p = Ret (a, p') ∧ pool_ok p'.

Lemma returns_ret {A} (a : A) : returns (mret a) a.
Proof. intros p Hp. by exists p. Qed.

Lemma returns_bind {A B} (m : CM A) (f : A → CM B) a b :
  returns m a → returns (f a) b → returns (m ≫= f) b.
Proof.
  intros Hm Hf p Hp. destruct (Hm p Hp) as (p1 & Hm1 & Hp1).
  destruct (Hf p1 Hp1) as (p2 & Hf2 & Hp2). exists p2. split; [|done].
  unfold mbind, CM_bind. by rewrite Hm1.
Qed.

Lemma returns_lift {A} (r : res A) a : r = Ret a → returns (lift r) a.
Proof. intros -> p Hp. by exists p. Qed.

Lemma returns_eq {A} (m : CM A) a b : returns m a → a = b → returns m b.
Proof. by intros ? <-. Qed.

(** A constant whose equals are itself is returned as it is. *)
Lemma returns_unique v :
  const_ok v → (∀ c, const_ok c → const_value_compare_ c v = 0 → c = v) →
  returns (const_value_return_unique v) v.
Proof.
  intros Hv Heq p Hp. unfold const_value_return_unique.
  destruct (pool_query v p) as [c|] eqn:Hq; [|by exists (v :: p); split; [|by constructor]].
  apply head_Some in Hq as [p' Hp'].
  assert (c ∈ filter (λ c, const_value_compare_ c v = 0) p) as Hc by (rewrite Hp'; set_solver).
  apply list_elem_of_filter in Hc as [Hc Hin]. unfold pool_ok in Hp. rewrite Forall_forall in Hp.
  rewrite (Heq c) by auto. exists p. split; [done|]. by apply Forall_forall.
Qed.

Lemma integer_ok value num_bytes sign :
  0 ≤ value < 2 ^ W → 0 ≤ num_bytes ≤ MCXX_MAX_BYTES_INTEGER →
  const_ok (CInteger sign num_bytes (masked value num_bytes sign)).
Proof.
  intros Hv Hn. constructor; [done|apply masked_range; [done|lia]|].
  intros -> Hlt. unfold masked. rewrite (proj2 (Z.ltb_lt _ _) Hlt). simpl.
  apply Z.mod_pos_bound. lia.
Qed.

Lemma returns_get_integer value num_bytes sign :
  0 ≤ value < 2 ^ W → 0 ≤ num_bytes ≤ MCXX_MAX_BYTES_INTEGER →
  returns (const_value_get_integer value num_bytes sign)
    (CInteger sign num_bytes (masked value num_bytes sign)).
Proof.
  intros Hv Hn. unfold const_value_get_integer.
  rewrite (proj2 (Z.ltb_ge MCXX_MAX_BYTES_INTEGER num_bytes)), (proj2 (Z.ltb_ge num_bytes 0)) by lia.
  simpl. rewrite integer_contents_masked by lia. pose proof (integer_ok value num_bytes sign Hv Hn).
  apply returns_unique; [done|]. intros c Hc. by apply compare_integer_eq.
Qed.
End order.
