(* ===== verification/ConstFold.v ===== *)
(** * Operations on constants: the operators of [frontend/cxx-cexpr.c]

    The functions that the macros [BINOP_FUN], [BINOP_FUN_I], [BINOP_FUN_REL],
    [UNOP_FUN], [UNOP_FUN_I] and [UNOP_FUN_I_OR_F] define, the shift to the
    left, powers of integers, and the comparisons of values of several elements.
    The integers of the host keep their width: an overflow of [cvalue_int_t], a
    division by zero and a shift count out of range are undefined behaviour.  A
    function calls itself on the elements of its operands, so it takes the depth
    of the recursion as fuel. *)

From S2P Require Import Prelude TypeEnviron ConstValue ConstOrder.

(** ** Operators *)

(** [+ - * / && ||], the operators of [BINOP_FUN] *)
Inductive arith_op := OpAdd | OpSub | OpMul | OpDiv | OpAnd | OpOr.
(** [% >> & | ^], the operators of [BINOP_FUN_I] *)
Inductive int_op := OpMod | OpShr | OpBitand | OpBitor | OpBitxor.
(** [< <= > >= == !=] *)
Inductive rel_op := OpLt | OpLte | OpGt | OpGte | OpEq | OpNeq.
#[export] Instance rel_op_eq_dec : EqDecision rel_op.
Proof. solve_decision. Defined.

Inductive un_op := OpPlus | OpNeg | OpBitnot | OpNot.

Section fold.
Context `{CvalueWidth} (e : type_environment).

(** *** On [cvalue_int_t] and [cvalue_uint_t] *)

Definition in_cvalue_int (z : Z) : bool := (- 2 ^ (W - 1) <=? z) && (z <? 2 ^ (W - 1)).

Definition checked (z : Z) : res Z := if in_cvalue_int z then Ret z else Err Undef.

Definition signed_arith (op : arith_op) (x y : Z) : res Z :=
  match op with
  | OpAdd => checked (x + y)
  | OpSub => checked (x - y)
  | OpMul => checked (x * y)
  | OpDiv => if y =? 0 then Err Undef else checked (Z.quot x y)
  | OpAnd => Ret (Z.b2z (negb (x =? 0) && negb (y =? 0)))
  | OpOr => Ret (Z.b2z (negb (x =? 0) || negb (y =? 0)))
  end.

Definition unsigned_arith (op : arith_op) (x y : Z) : res Z :=
  match op with
  | OpAdd => Ret (ucast (x + y))
  | OpSub => Ret (ucast (x - y))
  | OpMul => Ret (ucast (x * y))
  | OpDiv => if y =? 0 then Err Undef else Ret (x / y)
  | OpAnd => Ret (Z.b2z (negb (x =? 0) && negb (y =? 0)))
  | OpOr => Ret (Z.b2z (negb (x =? 0) || negb (y =? 0)))
  end.

Definition shift_count_ok (y : Z) : bool := (0 <=? y) && (y <? W).

Definition signed_int_op (op : int_op) (x y : Z) : res Z :=
  match op with
  | OpMod => if y =? 0 then Err Undef else if in_cvalue_int (Z.quot x y) then Ret (Z.rem x y) else Err Undef
  | OpShr => if shift_count_ok y then Ret (Z.shiftr x y) else Err Undef
  | OpBitand => Ret (Z.land x y)
  | OpBitor => Ret (Z.lor x y)
  | OpBitxor => Ret (Z.lxor x y)
  end.

Definition unsigned_int_op (op : int_op) (x y : Z) : res Z :=
  match op with
  | OpMod => if y =? 0 then Err Undef else Ret (x mod y)
  | OpShr => if shift_count_ok y then Ret (Z.shiftr x y) else Err Undef
  | OpBitand => Ret (Z.land x y)
  | OpBitor => Ret (Z.lor x y)
  | OpBitxor => Ret (Z.lxor x y)
  end.

Definition int_rel (op : rel_op) (x y : Z) : bool :=
  match op with
  | OpLt => x <? y | OpLte => x <=? y | OpGt => y <? x | OpGte => y <=? x
  | OpEq => x =? y | OpNeq => negb (x =? y)
  end.

(** *** On the floating types of the host *)

Definition float_normal (k : fkind) (m : Z) (ex : Z) (s : bool) : spec_float :=
  binary_normalize (float_prec k) (float_emax k) m ex s.

(** The conversion of an integer, rounded to nearest. *)
Definition float_of_int (k : fkind) (z : Z) : spec_float := float_normal k z 0 false.

(** The conversion of a value of kind [k'] to a kind at least as wide. *)
Definition float_widen (k' k : fkind) (f : spec_float) : spec_float :=
  if decide (k' = k) then f else
  match f with
  | S754_finite s m ex => float_normal k (if s then Z.neg m else Z.pos m) ex s
  | _ => f
  end.

Definition float_arith (op : arith_op) (k : fkind) (f g : spec_float) : spec_float :=
  let prec := float_prec k in
  let emax := float_emax k in
  match op with
  | OpAdd => SFadd prec emax f g
  | OpSub => SFsub prec emax f g
  | OpMul => SFmul prec emax f g
  | OpDiv => SFdiv prec emax f g
  | OpAnd => float_of_int k (Z.b2z (float_nonzero f && float_nonzero g))
  | OpOr => float_of_int k (Z.b2z (float_nonzero f || float_nonzero g))
  end.

Definition float_rel (op : rel_op) (f g : spec_float) : bool :=
  match op with
  | OpLt => SFltb f g | OpLte => SFleb f g | OpGt => SFltb g f | OpGte => SFleb g f
  | OpEq => SFeqb f g | OpNeq => negb (SFeqb f g)
  end.

Definition larger_kind (k1 k2 : fkind) : fkind := if fkind_num k1 <? fkind_num k2 then k2 else k1.

(** ** Integer operands *)

Definition value_field (sign : bool) (i : Z) : Z := if sign then scast i else i.

(** The two branches of the macros on [sign], and the constant they make. *)
Definition integer_binop (signed_fun unsigned_fun : Z → Z → res Z) (v1 v2 : const) (i1 i2 : Z) :
    CM const :=
  let '(num_bytes, sign) := common_bytes v1 v2 in
  value ← lift (if (sign : bool)
                then r ← signed_fun (scast i1) (scast i2); Ret (ucast r)
                else unsigned_fun i1 i2);
  const_value_get_integer value num_bytes sign.

(** [BINOP_FUN_I]: [const_value_mod], [shr], [bitand], [bitor], [bitxor] *)
Definition const_value_int_op (op : int_op) (v1 v2 : const) : CM (option const) :=
  match v1, v2 with
  | CInteger _ _ i1, CInteger _ _ i2 =>
      v ← integer_binop (signed_int_op op) (unsigned_int_op op) v1 v2 i1 i2; mret (Some v)
  | _, _ => mret None
  end.

(** The operand is shifted as an unsigned integer, whatever the sign. *)
Definition const_value_bitshl (v1 v2 : const) : CM (option const) :=
  match v1, v2 with
  | CInteger _ _ i1, CInteger _ _ i2 =>
      let '(num_bytes, sign) := common_bytes v1 v2 in
      value ← lift (let n := if (sign : bool) then scast i2 else i2 in
                    if shift_count_ok n then Ret (ushl i1 n) else Err Undef);
      v ← const_value_get_integer value num_bytes sign;
      mret (Some v)
  | _, _ => mret None
  end.

(** ** Arithmetic: [BINOP_FUN] *)

Definition deref_const (v : option const) : CM const :=
  match v with Some v => mret v | None => cfail Undef end.

Definition is_complex (v : const) : bool :=
  match v with CElements MComplex _ => true | _ => false end.

(** [complex_add], [complex_sub], [complex_mul], [complex_div]; the logical
    operators make no sense.  [fold] is the operation on the parts. *)
Definition complex_arith (fold : arith_op → const → const → CM (option const)) (op : arith_op)
    (v1 v2 : const) : CM const :=
  let f op x y := r ← fold op x y; deref_const r in
  let parts := a ← const_value_complex_get_real_part v1; b ← const_value_complex_get_imag_part v1;
               c ← const_value_complex_get_real_part v2; d ← const_value_complex_get_imag_part v2;
               mret (a, b, c, d) in
  match op with
  | OpAdd | OpSub =>
      '(a, b, c, d) ← parts;
      re ← f op a c; im ← f op b d; const_value_make_complex re im
  | OpMul =>
      '(a, b, c, d) ← parts;
      ac ← f OpMul a c; bd ← f OpMul b d; re ← f OpSub ac bd;
      ad ← f OpMul a d; bc ← f OpMul b c; im ← f OpAdd ad bc;
      const_value_make_complex re im
  | OpDiv =>
      '(a, b, c, d) ← parts;
      cc ← f OpMul c c; dd ← f OpMul d d; K ← f OpAdd cc dd;
      ac ← f OpMul a c; bd ← f OpMul b d; T1 ← f OpAdd ac bd;
      bc ← f OpMul b c; ad ← f OpMul a d; T2 ← f OpSub bc ad;
      re ← f OpDiv T1 K; im ← f OpDiv T2 K; const_value_make_complex re im
  | OpAnd | OpOr => cfail Aborted
  end.

(** The branches of the macros on operands that are not numbers: [fold] is the
    function itself, [on_complex] the operation on complex constants and
    [reduce] the one on two values with the same number of elements. *)
Definition structured_binop (fold : const → const → CM (option const))
    (on_complex : const → const → CM const)
    (reduce : (const → const → CM (option const)) → const → const → CM (option const))
    (v1 v2 : const) : CM (option const) :=
  if is_complex v1 && is_complex v2 then v ← on_complex v1 v2; mret (Some v)
  else if is_complex v1 then v2 ← const_value_real_to_complex v2; fold v1 v2
  else if is_complex v2 then v1 ← const_value_real_to_complex v1; fold v1 v2
  else if IS_MULTIVALUE v1 && IS_MULTIVALUE v2 && (num_elements v1 =? num_elements v2)
  then reduce fold v1 v2
  else if IS_MULTIVALUE v1 then extend_first_operand_to_structured_value fold v1 v2
  else if IS_MULTIVALUE v2 then extend_second_operand_to_structured_value fold v1 v2
  else cfail Aborted.

(** [const_value_add], [sub], [mul], [div], [and], [or] *)
Fixpoint const_value_arith (fuel : nat) (op : arith_op) (v1 v2 : const) : CM (option const) :=
  match fuel with
  | O => cfail NoFuel
  | S fuel' =>
      match v1, v2 with
      | CInteger _ _ i1, CInteger _ _ i2 =>
          v ← integer_binop (signed_arith op) (unsigned_arith op) v1 v2 i1 i2; mret (Some v)
      | CFloating k f, CInteger sign _ i =>
          v ← const_value_get_floating k (float_arith op k f (float_of_int k (value_field sign i)));
          mret (Some v)
      | CInteger sign _ i, CFloating k f =>
          v ← const_value_get_floating k (float_arith op k (float_of_int k (value_field sign i)) f);
          mret (Some v)
      | CFloating k1 f1, CFloating k2 f2 =>
          let k := larger_kind k1 k2 in
          v ← const_value_get_floating k (float_arith op k (float_widen k1 k f1) (float_widen k2 k f2));
          mret (Some v)
      | _, _ =>
          structured_binop (const_value_arith fuel' op) (complex_arith (const_value_arith fuel') op)
            map_binary_to_structured_value v1 v2
      end
  end.

(** [const_value_get_signed_int] *)
Definition const_value_get_signed_int (value : Z) : CM const :=
  const_value_get_integer (ucast value) (sizeof_signed_int e) true.

(** ** Unary operators: [UNOP_FUN], [UNOP_FUN_I], [UNOP_FUN_I_OR_F] *)

Definition integer_unop (op : un_op) (sign : bool) (i : Z) : res Z :=
  match op with
  | OpPlus => Ret (ucast (value_field sign i))
  | OpNeg => if sign then r ← checked (- scast i); Ret (ucast r) else Ret (ucast (- i))
  | OpBitnot => if sign then Ret (ucast (Z.lnot (scast i))) else Ret (unot i)
  | OpNot => Ret (Z.b2z (value_field sign i =? 0))
  end.

Definition floating_unop (op : un_op) (k : fkind) (f : spec_float) : CM (option const) :=
  match op with
  | OpPlus => v ← const_value_get_floating k f; mret (Some v)
  | OpNeg => v ← const_value_get_floating k (SFopp f); mret (Some v)
  | OpBitnot => mret None
  | OpNot => v ← const_value_get_signed_int (Z.b2z (negb (float_nonzero f))); mret (Some v)
  end.

(** [const_value_plus], [neg], [bitnot], [not] *)
Fixpoint const_value_unop (fuel : nat) (op : un_op) (v1 : const) : CM (option const) :=
  match fuel with
  | O => cfail NoFuel
  | S fuel' =>
      match v1 with
      | CInteger sign num_bytes i =>
          value ← lift (integer_unop op sign i);
          v ← const_value_get_integer value num_bytes sign; mret (Some v)
      | CFloating k f => floating_unop op k f
      | CElements _ _ | CCString _ _ => map_unary_to_structured_value (const_value_unop fuel' op) v1
      | _ => mret None
      end
  end.

(** ** Relational operators: [BINOP_FUN_REL] *)

(** The loops of [reduce_lexicographic_lt], [gt], [lte] and [gte], which differ
    in the comparison of the lengths: the result is [first] when [fold] on the
    elements [i] is zero and [second] when it is zero with the elements swapped. *)
Fixpoint reduce_loop (fold : const → const → CM (option const)) (lhs rhs : const)
    (last : bool) (i : Z) (n : nat) : CM const :=
  match n with
  | O => const_value_get_signed_int (Z.b2z last)
  | S n' =>
      l ← const_value_get_element_num lhs i; r ← const_value_get_element_num rhs i;
      c ← fold l r; c ← deref_const c; z ← const_value_is_zero c;
      if (z : bool) then const_value_get_signed_int 1 else
      r ← const_value_get_element_num rhs i; l ← const_value_get_element_num lhs i;
      c ← fold r l; c ← deref_const c; z ← const_value_is_zero c;
      if (z : bool) then const_value_get_signed_int 0
      else reduce_loop fold lhs rhs last (i + 1) n'
  end.

Definition reduce_lexicographic (lengths : Z → Z → bool)
    (fold : const → const → CM (option const)) (lhs rhs : const) : CM (option const) :=
  n_lhs ← const_value_get_num_elements lhs; n_rhs ← const_value_get_num_elements rhs;
  let n_min := if n_lhs <? n_rhs then n_lhs else n_rhs in
  v ← reduce_loop fold lhs rhs (lengths n_lhs n_rhs) 0 (Z.to_nat n_min);
  mret (Some v).

(** [reduce_equal_values_and_length] and [reduce_different_values_or_length]:
    the loop leaves with [found] at the first comparison that is [stop]. *)
Fixpoint reduce_equality_loop (fold : const → const → CM (option const)) (lhs rhs : const)
    (stop : bool) (found : Z) (i : Z) (n : nat) : CM const :=
  match n with
  | O => const_value_get_signed_int (1 - found)
  | S n' =>
      l ← const_value_get_element_num lhs i; r ← const_value_get_element_num rhs i;
      c ← fold l r; c ← deref_const c; nz ← const_value_is_nonzero c;
      if eqb nz stop then const_value_get_signed_int found
      else reduce_equality_loop fold lhs rhs stop found (i + 1) n'
  end.

Definition reduce_equality (stop : bool) (found : Z)
    (fold : const → const → CM (option const)) (lhs rhs : const) : CM (option const) :=
  n_lhs ← const_value_get_num_elements lhs; n_rhs ← const_value_get_num_elements rhs;
  if negb (n_lhs =? n_rhs)
  then v ← const_value_get_signed_int found; mret (Some v)
  else v ← reduce_equality_loop fold lhs rhs stop found 0 (Z.to_nat n_lhs); mret (Some v).

Definition reduce_multival (op : rel_op) :
    (const → const → CM (option const)) → const → const → CM (option const) :=
  match op with
  | OpLt => reduce_lexicographic Z.ltb
  | OpLte => reduce_lexicographic Z.leb
  | OpGt => reduce_lexicographic (λ a b, b <? a)
  | OpGte => reduce_lexicographic (λ a b, b <=? a)
  | OpEq => reduce_equality false 0
  | OpNeq => reduce_equality true 1
  end.

(** [complex_eq] and [complex_neq], where [fold] is [const_value_eq]; the others
    make no sense. *)
Definition complex_rel (fuel : nat) (fold : const → const → CM (option const)) (op : rel_op)
    (v1 v2 : const) : CM const :=
  match op with
  | OpEq | OpNeq =>
      a ← const_value_complex_get_real_part v1; c ← const_value_complex_get_real_part v2;
      eq_real ← fold a c; eq_real ← deref_const eq_real;
      b ← const_value_complex_get_imag_part v1; d ← const_value_complex_get_imag_part v2;
      eq_imag ← fold b d; eq_imag ← deref_const eq_imag;
      r ← const_value_arith fuel OpAnd eq_real eq_imag; r ← deref_const r;
      if decide (op = OpNeq)
      then n ← const_value_unop fuel OpNot r; deref_const n
      else mret r
  | _ => cfail Aborted
  end.

(** [const_value_lt], [lte], [gt], [gte], [eq], [neq] *)
Fixpoint const_value_rel (fuel : nat) (op : rel_op) (v1 v2 : const) : CM (option const) :=
  match fuel with
  | O => cfail NoFuel
  | S fuel' =>
      let result b := v ← const_value_get_signed_int (Z.b2z b); mret (Some v) in
      match v1, v2 with
      | CInteger _ _ i1, CInteger _ _ i2 =>
          let '(_, sign) := common_bytes v1 v2 in
          result (int_rel op (value_field sign i1) (value_field sign i2))
      | CFloating k f, CInteger sign _ i =>
          result (float_rel op f (float_of_int k (value_field sign i)))
      | CInteger sign _ i, CFloating k f =>
          result (float_rel op (float_of_int k (value_field sign i)) f)
      | CFloating k1 f1, CFloating k2 f2 =>
          let k := larger_kind k1 k2 in
          result (float_rel op (float_widen k1 k f1) (float_widen k2 k f2))
      | _, _ =>
          structured_binop (const_value_rel fuel' op)
            (complex_rel fuel' (const_value_rel fuel' OpEq) op) (reduce_multival op) v1 v2
      end
  end.

(** ** Powers of integers *)

Fixpoint arith_powu (fuel : nat) (a b : Z) : res Z :=
  match fuel with
  | O => Err NoFuel
  | S fuel' =>
      if b =? 0 then Ret 1
      else if Z.land b 1 =? 1 then
        k ← arith_powu fuel' a (Z.shiftr (ucast (b - 1)) 1);
        Ret (ucast (ucast (a * k) * k))
      else
        k ← arith_powu fuel' a (Z.shiftr b 1);
        Ret (ucast (k * k))
  end.

(** The calls of [arith_powu] convert the operands to unsigned and the result
    back; a negative exponent makes one recursive call. *)
Fixpoint arith_pows (fuel : nat) (a b : Z) : res Z :=
  match fuel with
  | O => Err NoFuel
  | S fuel' =>
      if b =? 0 then Ret 1
      else if b <? 0 then
        b' ← checked (- b);
        p ← arith_pows fuel' a b';
        if p =? 0 then Err Undef else checked (Z.quot 1 p)
      else if Z.land b 1 =? 1 then
        k ← arith_powu fuel' (ucast a) (ucast (Z.shiftr (b - 1) 1));
        ak ← checked (a * scast k); checked (ak * scast k)
      else
        k ← arith_powu fuel' (ucast a) (ucast (Z.shiftr b 1));
        checked (scast k * scast k)
  end.

(** A power of exponent [b] halves it until it is zero: at most [W] times, after
    the change of sign. *)
Definition pow_fuel : nat := Z.to_nat (W + 2).

(** The branch of [const_value_pow] ([BINOP_FUN_CALL]) on integers. *)
Definition const_value_pow_integers (v1 v2 : const) (i1 i2 : Z) : CM const :=
  integer_binop (arith_pows pow_fuel) (arith_powu pow_fuel) v1 v2 i1 i2.
End fold.
