(* ===== verification/ConstFoldProps.v ===== *)
(** * Constant folding agrees with C

    The operators on constants against the meaning that C gives to them on the
    operands, two's complement for the signed types and modulo a power of two
    for the unsigned ones, where [None] is an operation that C leaves undefined.
    The operands have the same type, as the compiler converts them first. *)

From Stdlib Require Import Btauto Zpow_facts.
From S2P Require Import Prelude TypeEnviron ConstValue ConstOrder ConstFold.

(** ** The meaning of the operators in C *)

(** The values of the integer type of [n] bytes. *)
Definition in_type (sign : bool) (n z : Z) : bool :=
  if sign then (- 2 ^ (8 * n - 1) <=? z) && (z <? 2 ^ (8 * n - 1))
  else (0 <=? z) && (z <? 2 ^ (8 * n)).

(** The result of an arithmetic operation whose mathematical result is [z]. *)
Definition c_value (sign : bool) (n z : Z) : option Z :=
  if sign then if in_type sign n z then Some z else None else Some (z mod 2 ^ (8 * n)).

Inductive c_binop := CArith (op : arith_op) | CIntOp (op : int_op) | CShl.

Definition c_result (op : c_binop) (sign : bool) (n x y : Z) : option Z :=
  match op with
  | CArith OpAdd => c_value sign n (x + y)
  | CArith OpSub => c_value sign n (x - y)
  | CArith OpMul => c_value sign n (x * y)
  | CArith OpDiv => if y =? 0 then None else c_value sign n (Z.quot x y)
  | CArith OpAnd => Some (Z.b2z (negb (x =? 0) && negb (y =? 0)))
  | CArith OpOr => Some (Z.b2z (negb (x =? 0) || negb (y =? 0)))
  | CIntOp OpMod =>
      if y =? 0 then None
      else match c_value sign n (Z.quot x y) with Some _ => Some (Z.rem x y) | None => None end
  | CIntOp OpShr => if (0 <=? y) && (y <? 8 * n) then Some (x / 2 ^ y) else None
  | CIntOp OpBitand => Some (Z.land x y)
  | CIntOp OpBitor => Some (Z.lor x y)
  | CIntOp OpBitxor => Some (Z.lxor x y)
  | CShl => if (0 <=? y) && (y <? 8 * n) && (0 <=? x) then c_value sign n (x * 2 ^ y) else None
  end.

(** ** Bit operations stay in range *)

Lemma low_bits_eq z k : 0 ≤ k → 0 ≤ z < 2 ^ k ↔ Z.land z (Z.ones k) = z.
Proof.
  intros Hk. rewrite Z.land_ones by done. split; [apply Z.mod_small|]. intros <-.
  apply Z.mod_pos_bound. lia.
Qed.

Lemma land_range x y k : 0 ≤ k → 0 ≤ x < 2 ^ k → 0 ≤ y < 2 ^ k → 0 ≤ Z.land x y < 2 ^ k.
Proof. intros Hk. rewrite !low_bits_eq by done. intros _ Hy. by rewrite <-Z.land_assoc, Hy. Qed.

Lemma lor_range x y k : 0 ≤ k → 0 ≤ x < 2 ^ k → 0 ≤ y < 2 ^ k → 0 ≤ Z.lor x y < 2 ^ k.
Proof. intros Hk. rewrite !low_bits_eq by done. intros Hx Hy. by rewrite Z.land_lor_distr_l, Hx, Hy. Qed.

Lemma lxor_range x y k : 0 ≤ k → 0 ≤ x < 2 ^ k → 0 ≤ y < 2 ^ k → 0 ≤ Z.lxor x y < 2 ^ k.
Proof.
  intros Hk. rewrite !low_bits_eq by done. intros Hx Hy. rewrite <-Hx, <-Hy at 2.
  apply Z.bits_inj'. intros i Hi. rewrite !Z.land_spec, !Z.lxor_spec, !Z.land_spec. btauto.
Qed.

Section props.
Context `{CvalueWidth} (e : type_environment).

(** The constant of value [z] of an integer type. *)
Definition typed (sign : bool) (n z : Z) : const := CInteger sign n (ucast z).

Definition fold_binop (fuel : nat) (op : c_binop) (v1 v2 : const) : CM (option const) :=
  match op with
  | CArith op => const_value_arith fuel op v1 v2
  | CIntOp op => const_value_int_op op v1 v2
  | CShl => const_value_bitshl v1 v2
  end.

(** ** Typed constants *)

Section typed.
Context (sign : bool) (n : Z) (Hn : 0 < n ≤ W / 8).

Lemma bits_le_W : 8 * n ≤ W.
Proof. pose proof W_bytes. lia. Qed.

Lemma bytes_le_max : 0 ≤ n ≤ MCXX_MAX_BYTES_INTEGER.
Proof. pose proof W_bytes. unfold MCXX_MAX_BYTES_INTEGER. destruct W_cases; lia. Qed.

Lemma pow_bits_le : 2 ^ (8 * n) ≤ 2 ^ W ∧ 2 ^ (8 * n - 1) ≤ 2 ^ (W - 1).
Proof. pose proof bits_le_W. split; apply Z.pow_le_mono_r; lia. Qed.

Lemma in_type_scast z : in_type true n z = true → scast (ucast z) = z.
Proof.
  unfold in_type. intros Hz. zbool. pose proof pow_bits_le. rewrite scast_ucast.
  apply scast_small. lia.
Qed.

Lemma in_type_ucast z : in_type false n z = true → ucast z = z.
Proof. unfold in_type. intros Hz. zbool. pose proof pow_bits_le. apply ucast_small. lia. Qed.

Lemma in_type_checked z : in_type true n z = true → checked z = Ret z.
Proof.
  unfold in_type, checked, in_cvalue_int. intros Hz. zbool. pose proof pow_bits_le.
  rewrite (proj2 (Z.leb_le _ _)), (proj2 (Z.ltb_lt _ _)) by lia. done.
Qed.

Lemma common_bytes_typed x y : common_bytes (typed sign n x) (typed sign n y) = (n, sign).
Proof. unfold common_bytes, typed. simpl. by rewrite Z.eqb_refl, eqb_reflx. Qed.

Lemma mod_W_mod_bits z : (z mod 2 ^ W) mod 2 ^ (8 * n) = z mod 2 ^ (8 * n).
Proof.
  pose proof bits_le_W. symmetry. apply Znumtheory.Zmod_div_mod; [lia|lia|].
  exists (2 ^ (W - 8 * n)). rewrite <-Z.pow_add_r by lia. f_equal. lia.
Qed.

(** The constant that [const_value_get_integer] makes of the result [z]. *)
Lemma get_typed z :
  returns (const_value_get_integer (ucast z) n sign)
    (typed sign n (if sign then z else z mod 2 ^ (8 * n))).
Proof.
  eapply returns_eq; [apply returns_get_integer; [apply ucast_range|apply bytes_le_max]|].
  unfold typed, masked. destruct sign; simpl; [done|]. f_equal. pose proof pow_bits_le.
  destruct (Z.ltb_spec n (W / 8)) as [Hlt|Hle].
  - unfold ucast at 1. unfold wrapu. rewrite mod_W_mod_bits. symmetry. apply ucast_small.
    pose proof (Z.mod_pos_bound z (2 ^ (8 * n)) ltac:(lia)). lia.
  - assert (8 * n = W) as -> by (pose proof W_bytes; lia). by rewrite <-ucast_ucast.
Qed.

Lemma get_typed_in_range z :
  in_type sign n z = true → returns (const_value_get_integer (ucast z) n sign) (typed sign n z).
Proof.
  intros Hz. eapply returns_eq; [apply get_typed|]. unfold in_type in Hz.
  destruct sign; [done|]. zbool. by rewrite Z.mod_small.
Qed.

Lemma integer_binop_typed (sf uf : Z → Z → res Z) x y z w :
  in_type sign n x = true → in_type sign n y = true →
  (sign = true → sf x y = Ret z) →
  (sign = false → uf x y = Ret (ucast w) ∧ z = w mod 2 ^ (8 * n)) →
  returns (integer_binop sf uf (typed sign n x) (typed sign n y) (ucast x) (ucast y))
    (typed sign n z).
Proof.
  intros Hx Hy Hs Hu. unfold integer_binop. rewrite common_bytes_typed. destruct sign eqn:Hsign.
  - eapply returns_bind; [apply returns_lift|].
    + rewrite !in_type_scast, Hs by done. reflexivity.
    + rewrite <-Hsign. eapply returns_eq; [apply get_typed|]. by rewrite Hsign.
  - destruct (Hu eq_refl) as [Hw ->]. eapply returns_bind; [apply returns_lift|].
    + rewrite !in_type_ucast by done. exact Hw.
    + rewrite <-Hsign. eapply returns_eq; [apply get_typed|]. by rewrite Hsign.
Qed.

(** A result of the unsigned type. *)
Lemma unsigned_in_range (r z : Z) (u : res Z) :
  u = Ret r → in_type false n r = true → z = r →
  u = Ret (ucast r) ∧ z = r mod 2 ^ (8 * n).
Proof.
  intros -> Hr ->. split; [by rewrite in_type_ucast|]. unfold in_type in Hr. zbool.
  by rewrite Z.mod_small.
Qed.

Lemma b2z_in_type b : in_type sign n (Z.b2z b) = true.
Proof.
  assert (2 ^ 1 ≤ 2 ^ (8 * n - 1)) by (apply Z.pow_le_mono_r; lia).
  assert (2 ^ 1 ≤ 2 ^ (8 * n)) by (apply Z.pow_le_mono_r; lia).
  assert (0 ≤ Z.b2z b ≤ 1) by (destruct b; simpl; lia).
  unfold in_type. destruct sign; apply andb_true_iff; split; rewrite ?Z.leb_le, ?Z.ltb_lt; lia.
Qed.

Lemma c_value_some z r :
  c_value sign n z = Some r →
  (sign = true → in_type true n z = true ∧ r = z) ∧ (sign = false → r = z mod 2 ^ (8 * n)).
Proof. unfold c_value. destruct sign; [destruct (in_type true n z)|]; intros [= <-]; done. Qed.

Lemma arith_typed op x y z :
  in_type sign n x = true → in_type sign n y = true →
  c_result (CArith op) sign n x y = Some z →
  returns (integer_binop (signed_arith op) (unsigned_arith op) (typed sign n x) (typed sign n y)
    (ucast x) (ucast y)) (typed sign n z).
Proof.
  intros Hx Hy Hc.
  assert (∃ w, (sign = true → signed_arith op x y = Ret z)
    ∧ (sign = false → unsigned_arith op x y = Ret (ucast w) ∧ z = w mod 2 ^ (8 * n)))
    as (w & Hs & Hu); [|by apply (integer_binop_typed _ _ x y z w)].
  destruct op; simpl in Hc.
  1-3: eexists; split; intros Hsign; apply c_value_some in Hc as [Hs Hu];
    [destruct (Hs Hsign) as [Hz ->]; by apply in_type_checked|by rewrite Hu].
  - destruct (y =? 0) eqn:Hy0; [done|]. zbool. apply c_value_some in Hc as [Hs Hu].
    exists (Z.quot x y). split; intros Hsign; simpl; rewrite (proj2 (Z.eqb_neq y 0)) by done.
    + destruct (Hs Hsign) as [Hz ->]. by apply in_type_checked.
    + rewrite Hu by done. split; [|done]. unfold in_type in Hx, Hy. rewrite Hsign in Hx, Hy. zbool.
      rewrite Z.quot_div_nonneg by lia. f_equal. symmetry. apply ucast_small.
      pose proof pow_bits_le. pose proof (Z.div_le_upper_bound x y x ltac:(lia) ltac:(nia)).
      pose proof (Z.div_pos x y). lia.
  - exists z. injection Hc as <-. split; intros Hsign; [done|].
    apply unsigned_in_range; [done| |done]. rewrite <-Hsign. apply b2z_in_type.
  - exists z. injection Hc as <-. split; intros Hsign; [done|].
    apply unsigned_in_range; [done| |done]. rewrite <-Hsign. apply b2z_in_type.
Qed.

Lemma shift_count y : (0 <=? y) && (y <? 8 * n) = true → shift_count_ok y = true ∧ 0 ≤ y < 8 * n.
Proof.
  intros Hy. zbool. pose proof bits_le_W. unfold shift_count_ok.
  by rewrite (proj2 (Z.leb_le 0 y)), (proj2 (Z.ltb_lt y W)) by lia.
Qed.

Lemma unsigned_of_range z : 0 ≤ z < 2 ^ (8 * n) → in_type false n z = true.
Proof. unfold in_type. intros Hz. apply andb_true_iff. rewrite Z.leb_le, Z.ltb_lt. lia. Qed.

Lemma in_type_range z : sign = false → in_type sign n z = true → 0 ≤ z < 2 ^ (8 * n).
Proof. intros ->. unfold in_type. intros Hz. zbool. lia. Qed.

Lemma int_op_typed op x y z :
  in_type sign n x = true → in_type sign n y = true →
  c_result (CIntOp op) sign n x y = Some z →
  returns (integer_binop (signed_int_op op) (unsigned_int_op op) (typed sign n x) (typed sign n y)
    (ucast x) (ucast y)) (typed sign n z).
Proof.
  intros Hx Hy Hc. apply (integer_binop_typed _ _ x y z z); [done..| |];
    intros Hsign; destruct op; simpl in Hc |- *.
  all: try (pose proof (in_type_range _ Hsign Hx) as Hx'; pose proof (in_type_range _ Hsign Hy) as Hy').
  - destruct (y =? 0) eqn:Hy0; [done|]. destruct (c_value _ _ _) as [q|] eqn:Hq; [|done].
    apply c_value_some in Hq as [Hq _]. destruct (Hq Hsign) as [Hr _].
    apply in_type_checked in Hr. unfold checked in Hr. injection Hc as <-.
    by destruct (in_cvalue_int _).
  - destruct (_ && _) eqn:Hcount; [|done]. apply shift_count in Hcount as [-> Hcount].
    injection Hc as <-. by rewrite Z.shiftr_div_pow2 by lia.
  - congruence.
  - congruence.
  - congruence.
  - destruct (y =? 0) eqn:Hy0; [done|]. zbool. destruct (c_value _ _ _) as [q|]; [|done].
    injection Hc as <-. pose proof (Z.mod_pos_bound x y ltac:(lia)).
    rewrite Z.rem_mod_nonneg by lia. apply (unsigned_in_range (x mod y)); [done| |done].
    apply unsigned_of_range. lia.
  - destruct (_ && _) eqn:Hcount; [|done]. apply shift_count in Hcount as [-> Hcount].
    injection Hc as <-. rewrite Z.shiftr_div_pow2 by lia.
    apply (unsigned_in_range (x / 2 ^ y)); [done| |done]. apply unsigned_of_range.
    pose proof (Z.div_pos x (2 ^ y)). pose proof (Z.div_le_upper_bound x (2 ^ y) x ltac:(lia) ltac:(nia)). lia.
  - injection Hc as <-. apply (unsigned_in_range (Z.land x y)); [done| |done].
    apply unsigned_of_range, land_range; lia.
  - injection Hc as <-. apply (unsigned_in_range (Z.lor x y)); [done| |done].
    apply unsigned_of_range, lor_range; lia.
  - injection Hc as <-. apply (unsigned_in_range (Z.lxor x y)); [done| |done].
    apply unsigned_of_range, lxor_range; lia.
Qed.

Lemma shl_typed x y z :
  in_type sign n x = true → in_type sign n y = true →
  c_result CShl sign n x y = Some z →
  returns (const_value_bitshl (typed sign n x) (typed sign n y)) (Some (typed sign n z)).
Proof.
  intros Hx Hy Hc. simpl in Hc. destruct (_ && _) eqn:Hcount; [|done].
  apply andb_true_iff in Hcount as [Hcount Hx0]. apply shift_count in Hcount as [Hok Hcount].
  apply Z.leb_le in Hx0. unfold const_value_bitshl, typed. fold (typed sign n x) (typed sign n y).
  rewrite common_bytes_typed.
  assert ((if sign then scast (ucast y) else ucast y) = y) as ->.
  { destruct sign; [by apply in_type_scast|by apply in_type_ucast]. }
  rewrite Hok. eapply returns_bind; [by apply returns_lift|].
  eapply returns_bind; [|apply returns_ret].
  assert (ushl (ucast x) y = ucast (x * 2 ^ y)) as ->.
  { unfold ushl, ucast, wrapu. rewrite Z.shiftl_mul_pow2 by lia. by rewrite Zmult_mod_idemp_l. }
  eapply returns_eq; [apply get_typed|]. apply c_value_some in Hc as [Hs Hu].
  destruct sign; [by destruct (Hs eq_refl) as [_ ->]|by rewrite Hu].
Qed.
End typed.

(** C22: where C defines the result of an operator on two values of an integer
    type, folding the constants of these values gives the constant of the
    result, in every state of the pool and for both widths of the host's
    integers. *)
Theorem constant_folding_agrees_with_c fuel op sign n x y z :
  0 < n ≤ W / 8 → in_type sign n x = true → in_type sign n y = true →
  c_result op sign n x y = Some z →
  returns (fold_binop (S fuel) op (typed sign n x) (typed sign n y)) (Some (typed sign n z)).
Proof.
  intros Hn Hx Hy Hc. destruct op as [op|op|]; simpl.
  - eapply returns_bind; [by apply arith_typed|apply returns_ret].
  - eapply returns_bind; [by apply int_op_typed|apply returns_ret].
  - by apply shl_typed.
Qed.

(** ** Conversions *)

(** The conversion of a value to an integer type in C: modulo the size of the
    type, implementation-defined and here two's complement when it is signed. *)
Definition c_convert (sign : bool) (n z : Z) : Z :=
  if sign then wraps (8 * n) z else z mod 2 ^ (8 * n).

(** A conversion to a signed type leaves the value as it is. *)
Lemma cast_to_bytes_typed s n x s' n' :
  0 < n' ≤ W / 8 →
  returns (const_value_cast_to_bytes (typed s n x) n' s')
    (typed s' n' (if s' then x else x mod 2 ^ (8 * n'))).
Proof. intros Hn. by apply get_typed. Qed.

(** The conversion of a constant to an unsigned type, or to a signed type
    that has the value, is the conversion of C. *)
Theorem integer_conversion_agrees_with_c s n x s' n' :
  0 < n' ≤ W / 8 → (s' = true → in_type true n' x = true) →
  returns (const_value_cast_to_bytes (typed s n x) n' s') (typed s' n' (c_convert s' n' x)).
Proof.
  intros Hn Hx. eapply returns_eq; [by apply cast_to_bytes_typed|]. unfold c_convert.
  destruct s'; [|done]. specialize (Hx eq_refl). unfold in_type in Hx. zbool.
  by rewrite wraps_small by lia.
Qed.

(** ** Comparisons *)

Definition const_bool (b : bool) : const := typed true (sizeof_signed_int e) (Z.b2z b).

Lemma get_const_bool b :
  0 ≤ sizeof_signed_int e ≤ MCXX_MAX_BYTES_INTEGER →
  returns (const_value_get_signed_int e (Z.b2z b)) (const_bool b).
Proof.
  intros He. unfold const_value_get_signed_int. eapply returns_eq.
  - apply returns_get_integer; [apply ucast_range|done].
  - done.
Qed.

Lemma rel_typed fuel op sign n x y :
  0 ≤ sizeof_signed_int e ≤ MCXX_MAX_BYTES_INTEGER →
  0 < n ≤ W / 8 → in_type sign n x = true → in_type sign n y = true →
  returns (const_value_rel e (S fuel) op (typed sign n x) (typed sign n y))
    (Some (const_bool (int_rel op x y))).
Proof.
  intros He Hn Hx Hy. cbn [const_value_rel typed]. fold (typed sign n x) (typed sign n y).
  rewrite common_bytes_typed.
  assert (∀ z, in_type sign n z = true → value_field sign (ucast z) = z) as Hv.
  { intros z Hz. unfold value_field. destruct sign; [by apply (in_type_scast n)|by apply (in_type_ucast n)]. }
  rewrite !Hv by done. eapply returns_bind; [by apply get_const_bool|apply returns_ret].
Qed.

(** ** Powers *)

Lemma halves b : 0 < b →
  (Z.land b 1 =? 1) = Z.odd b ∧ b = 2 * (b / 2) + Z.b2z (Z.odd b) ∧ 0 ≤ b / 2 < b.
Proof.
  intros Hb. change (Z.land b 1) with (Z.land b (Z.ones 1)). rewrite Z.land_ones by lia.
  change (2 ^ 1) with 2. rewrite Zmod_odd. pose proof (Zdiv2_odd_eqn b) as Hd.
  rewrite Z.div2_div in Hd. split; [by destruct (Z.odd b)|].
  destruct (Z.odd b); simpl in *; lia.
Qed.

Lemma pow_halves a b : 0 < b →
  a ^ b = (if Z.odd b then a else 1) * (a ^ (b / 2) * a ^ (b / 2)).
Proof.
  intros Hb. destruct (halves b Hb) as (_ & Hd & Hr). rewrite Hd at 1.
  rewrite Z.pow_add_r, Z.mul_comm, Z.mul_comm with (n := 2), Z.pow_mul_r by (destruct (Z.odd b); simpl; lia).
  destruct (Z.odd b); simpl Z.b2z; rewrite ?Z.pow_1_r, ?Z.pow_0_r, (Z.pow_2_r (a ^ (b / 2))); lia.
Qed.

Lemma one_small : 0 ≤ 1 < 2 ^ (W - 1).
Proof.
  assert (2 ^ 1 ≤ 2 ^ (W - 1)) by (apply Z.pow_le_mono_r; destruct W_cases; lia). lia.
Qed.

Lemma shiftr_1 z : Z.shiftr z 1 = z / 2.
Proof. by rewrite Z.shiftr_div_pow2. Qed.

Lemma odd_half b : Z.odd b = true → (b - 1) / 2 = b / 2.
Proof.
  intros Ho. pose proof (Zdiv2_odd_eqn b) as Hd. rewrite Z.div2_div, Ho in Hd. simpl in Hd.
  assert (b - 1 = b / 2 * 2) as -> by lia. by rewrite Z.div_mul.
Qed.

Lemma arith_powu_ok fuel : ∀ a b,
  0 ≤ b < 2 ^ Z.of_nat fuel → b < 2 ^ W → arith_powu (S fuel) a b = Ret (ucast (a ^ b)).
Proof.
  pose proof one_small. pose proof pow2_W.
  induction fuel as [|fuel IH]; intros a b Hb HbW.
  - assert (b = 0) as -> by (simpl in Hb; lia). simpl. by rewrite ucast_small by lia.
  - set (f := S fuel) in *. cbn [arith_powu]. destruct (Z.eqb_spec b 0) as [->|Hne].
    { by rewrite Z.pow_0_r, ucast_small by lia. }
    destruct (halves b) as (-> & Hd & Hr); [lia|]. subst f.
    rewrite Nat2Z.inj_succ, Z.pow_succ_r in Hb by lia.
    assert (arith_powu (S fuel) a (b / 2) = Ret (ucast (a ^ (b / 2)))) as Hk.
    { apply IH; [|lia]. pose proof (Z.div_lt_upper_bound b 2 (2 ^ Z.of_nat fuel)). lia. }
    rewrite pow_halves with (b := b) by lia. rewrite !shiftr_1. destruct (Z.odd b) eqn:Ho.
    + rewrite (ucast_small (b - 1)), odd_half, Hk by (done || lia). rewrite bind_ret.
      unfold ucast, wrapu. rewrite Z.mul_mod_idemp_l, Z.mul_mod_idemp_r by lia.
      rewrite Z.mul_assoc, <-Z.mul_mod_idemp_l, (Z.mul_mod_idemp_r a), Z.mul_mod_idemp_l by lia.
      done.
    + rewrite Hk, bind_ret. unfold ucast, wrapu.
      by rewrite Z.mul_1_l, Z.mul_mod_idemp_l, Z.mul_mod_idemp_r by lia.
Qed.

(** The square of a power is computed only when it is in range. *)
Lemma checked_ok z : in_cvalue_int z = true → checked z = Ret z.
Proof. intros Hz. unfold checked. by rewrite Hz. Qed.

Lemma abs_in_cvalue_int z z' : Z.abs z' ≤ Z.abs z → Z.abs z < 2 ^ (W - 1) → in_cvalue_int z' = true.
Proof.
  intros Hz Hr. unfold in_cvalue_int. apply andb_true_iff. rewrite Z.leb_le, Z.ltb_lt. lia.
Qed.

(** The factors of the product that a power is computed with are in range. *)
Lemma power_factors a b h c :
  0 < b → h = a ^ (b / 2) → c = (if Z.odd b then a else 1) → a ^ b = c * h * h
  ∧ Z.abs h ≤ Z.max 1 (Z.abs (a ^ b)) ∧ Z.abs (c * h) ≤ Z.abs (a ^ b).
Proof.
  intros Hb Hh Hc. pose proof (pow_halves a b Hb) as Heq. rewrite <-Hh, <-Hc, Z.mul_assoc in Heq.
  split; [done|]. rewrite Heq, !Z.abs_mul. pose proof (Z.abs_nonneg c).
  assert (h = 0 ∨ 1 ≤ Z.abs h) as [->|Hh1] by lia; [simpl; lia|].
  split; [|nia]. assert (c = 0 ∨ 1 ≤ Z.abs c) as [Hc0|Hc1] by lia; [|nia].
  assert (a = 0) as -> by (destruct (Z.odd b); lia). rewrite Hh.
  assert (b / 2 = 0 ∨ 0 < b / 2) as [->|Hb0] by (pose proof (halves b Hb); lia); [simpl; lia|].
  rewrite Z.pow_0_l by lia. lia.
Qed.

Lemma arith_pows_ok fuel a b :
  0 ≤ b < 2 ^ Z.of_nat fuel → b < 2 ^ (W - 1) → Z.abs (a ^ b) < 2 ^ (W - 1) →
  arith_pows (S (S fuel)) a b = Ret (a ^ b).
Proof.
  intros Hb HbW Hp. pose proof one_small. pose proof pow2_W. set (f := S fuel). cbn [arith_pows].
  destruct (Z.eqb_spec b 0) as [->|Hne]; [by rewrite Z.pow_0_r|].
  rewrite (proj2 (Z.ltb_ge b 0)) by lia.
  destruct (halves b) as (-> & Hd & Hr); [lia|].
  destruct (power_factors a b (a ^ (b / 2)) (if Z.odd b then a else 1)) as (Heq & Hh & Hc); [lia|done..|].
  set (h := a ^ (b / 2)) in *.
  assert (arith_powu f (ucast a) (ucast (b / 2)) = Ret (ucast h)) as Hk.
  { subst f. rewrite (ucast_small (b / 2)), arith_powu_ok by lia. f_equal. unfold ucast, wrapu, h.
    symmetry. apply Zpower_mod. lia. }
  assert (scast (ucast h) = h) as Hsc by (rewrite scast_ucast; apply scast_small; lia).
  assert (∀ z, Z.abs z ≤ Z.abs (a ^ b) → checked z = Ret z) as Hck.
  { intros z Hz. by apply checked_ok, (abs_in_cvalue_int (a ^ b)). }
  rewrite !shiftr_1. destruct (Z.odd b) eqn:Ho.
  - rewrite odd_half, Hk, bind_ret, Hsc, Hck, bind_ret, Heq by (done || lia). apply Hck. lia.
  - rewrite Hk, bind_ret, Hsc, Hck by (rewrite Heq; lia). by rewrite Heq, Z.mul_1_l.
Qed.

(** C38: a power with a natural exponent terminates and gives the power of the
    values, when it is a value of the signed type of the operands (other than the
    least integer of the host), or modulo the size of the unsigned type. *)
Theorem integer_power_correct sign n x y :
  0 < n ≤ W / 8 → in_type sign n x = true → in_type sign n y = true → 0 ≤ y →
  (sign = true → in_type true n (x ^ y) = true ∧ x ^ y ≠ - 2 ^ (W - 1)) →
  returns (const_value_pow_integers (typed sign n x) (typed sign n y) (ucast x) (ucast y))
    (typed sign n (if sign then x ^ y else (x ^ y) mod 2 ^ (8 * n))).
Proof.
  intros Hn Hx Hy Hy0 Hp. pose proof (pow_bits_le n Hn). pose proof pow2_W.
  assert (0 < W) by (destruct W_cases; lia).
  apply (integer_binop_typed _ _ Hn _ _ x y _ (x ^ y)); [done..| |]; intros ->; unfold pow_fuel.
  - replace (Z.to_nat (W + 2)) with (S (S (Z.to_nat W))) by lia.
    destruct (Hp eq_refl) as [Hr Hmin]. unfold in_type in Hy, Hr. zbool.
    apply arith_pows_ok; [rewrite Z2Nat.id by lia; lia|lia|lia].
  - replace (Z.to_nat (W + 2)) with (S (Z.to_nat (W + 1))) by lia.
    unfold in_type in Hy. zbool. split; [|done]. apply arith_powu_ok; [|lia].
    rewrite Z2Nat.id, Z.pow_add_r by lia. lia.
Qed.
End props.

(** ** Concrete operands *)

Section samples.
#[local] Instance host128 : CvalueWidth := {| HAVE_INT128 := true |}.

Lemma constant_folding_agrees_with_c_witness :
  returns (fold_binop 1 (CArith OpDiv) (typed true 4 (-7)) (typed true 4 2)) (Some (typed true 4 (-3)))
  ∧ returns (fold_binop 1 (CArith OpSub) (typed false 4 3) (typed false 4 5))
      (Some (typed false 4 4294967294)).
Proof.
  split.
  - apply (constant_folding_agrees_with_c 0 (CArith OpDiv) true 4 (-7) 2 (-3)); vm_compute; done.
  - apply (constant_folding_agrees_with_c 0 (CArith OpSub) false 4 3 5 4294967294); vm_compute; done.
Defined.

Lemma integer_conversion_agrees_with_c_witness :
  returns (const_value_cast_to_bytes (typed true 4 (-1)) 2 false) (typed false 2 65535).
Proof.
  apply (integer_conversion_agrees_with_c true 4 (-1) false 2); [by vm_compute|done].
Defined.

Lemma integer_power_correct_witness :
  returns (const_value_pow_integers (typed true 4 (-3)) (typed true 4 5) (ucast (-3)) (ucast 5))
    (typed true 4 (-243)).
Proof.
  apply (integer_power_correct true 4 (-3) 5); [by vm_compute..|]. intros _.
  split; [by vm_compute|by vm_compute].
Defined.

(** A conversion to a signed type that has not the value does not reduce it:
    [(signed char)300] is 300 and so differs from 44. *)
Lemma signed_conversion_not_reduced :
  const_value_cast_to_bytes (typed true 4 300) 1 true [] = Ret (typed true 1 300, [typed true 1 300])
  ∧ c_convert true 1 300 = 44.
Proof. by vm_compute. Qed.

(** [2 ** (-128)]: the power of the opposite exponent overflows. *)
Lemma negative_power_undefined p :
  const_value_pow_integers (typed true 4 2) (typed true 4 (-128)) (ucast 2) (ucast (-128)) p = Err Undef
  ∧ const_value_pow_integers (typed true 4 0) (typed true 4 (-1)) (ucast 0) (ucast (-1)) p = Err Undef.
Proof. by vm_compute. Qed.
End samples.
