(* ===== verification/ConstElements.v ===== *)
(** * Constants of several elements: vectors, arrays and strings

    The operators of [frontend/cxx-cexpr.c] on values of several elements, and
    the comparisons of character constants of the Fortran front end
    ([frontend/fortran/fortran03-exprtype.c]). *)

From S2P Require Import Prelude TypeEnviron ConstValue ConstOrder ConstFold ConstFoldProps.

(** ** Fortran strings *)

Section strings.
Context `{CvalueWidth} (e : type_environment).

(** [fortran_get_default_integer_type_kind] is the size of the default integer
    type, which an option of the compiler sets. *)
Context (default_integer_kind : Z) (fuel : nat).

Definition fortran_bool (b : bool) : CM const :=
  if b then const_value_get_one default_integer_kind true
  else const_value_get_zero default_integer_kind true.

(** [const_value_is_zero] of a comparison of the elements [i]. *)
Definition elements_differ (op : rel_op) (v1 v2 : const) (i : Z) : CM bool :=
  a ← const_value_get_element_num v1 i; b ← const_value_get_element_num v2 i;
  c ← const_value_rel e fuel op a b; c ← deref_const c; const_value_is_zero c.

Fixpoint str_eq_loop (v1 v2 : const) (i : Z) (n : nat) : CM const :=
  match n with
  | O => fortran_bool true
  | S n' =>
      z ← elements_differ OpEq v1 v2 i;
      if (z : bool) then fortran_bool false else str_eq_loop v1 v2 (i + 1) n'
  end.

Definition fortran_str_const_value_eq (v1 v2 : const) : CM const :=
  N1 ← const_value_get_num_elements v1; N2 ← const_value_get_num_elements v2;
  if negb (N1 =? N2) then fortran_bool false else str_eq_loop v1 v2 0 (Z.to_nat N1).

Definition fortran_str_const_value_neq (v1 v2 : const) : CM const :=
  eq ← fortran_str_const_value_eq v1 v2; z ← const_value_is_zero eq; fortran_bool z.

Fixpoint str_lt_loop (v1 v2 : const) (last : bool) (i : Z) (n : nat) : CM const :=
  match n with
  | O => fortran_bool last
  | S n' =>
      z ← elements_differ OpEq v1 v2 i;
      if (z : bool) then
        z ← elements_differ OpLt v1 v2 i; fortran_bool (negb z)
      else str_lt_loop v1 v2 last (i + 1) n'
  end.

Definition fortran_str_const_value_lt (v1 v2 : const) : CM const :=
  N1 ← const_value_get_num_elements v1; N2 ← const_value_get_num_elements v2;
  let min := if N1 <? N2 then N1 else N2 in
  str_lt_loop v1 v2 (negb (N1 =? N2)) 0 (Z.to_nat min).

Definition fortran_str_const_value_lte (v1 v2 : const) : CM const :=
  result ← fortran_str_const_value_lt v1 v2; z ← const_value_is_zero result;
  if (z : bool) then fortran_str_const_value_eq v1 v2 else mret result.

Definition fortran_str_const_value_gt (v1 v2 : const) : CM const :=
  lte ← fortran_str_const_value_lte v1 v2; z ← const_value_is_zero lte; fortran_bool z.

Definition fortran_str_const_value_gte (v1 v2 : const) : CM const :=
  lt ← fortran_str_const_value_lt v1 v2; z ← const_value_is_zero lt; fortran_bool z.

(** [NODECL_FORTRAN_RELATIONAL]: strings are compared as such. *)
Definition fortran_str_rel (op : rel_op) : const → const → CM const :=
  match op with
  | OpEq => fortran_str_const_value_eq | OpNeq => fortran_str_const_value_neq
  | OpLt => fortran_str_const_value_lt | OpLte => fortran_str_const_value_lte
  | OpGt => fortran_str_const_value_gt | OpGte => fortran_str_const_value_gte
  end.

Definition fortran_const_value_rel (op : rel_op) (v1 v2 : const) : CM (option const) :=
  if is_string v1 && is_string v2 then v ← fortran_str_rel op v1 v2; mret (Some v)
  else const_value_rel e fuel op v1 v2.
End strings.

(** ** Elements *)

Section elements.
Context `{CvalueWidth}.

(** The elements of a value, as [multival_get_element_num] returns them. *)
Definition elements_of (v : const) : list const :=
  match v with
  | CElements _ l => l
  | CCString s n => CInteger false 1 <$> string_chars s n
  | _ => []
  end.

Lemma num_elements_of v : num_elements v = Z.of_nat (length (elements_of v)).
Proof. destruct v; try done. by rewrite num_elements_cstring; simpl; rewrite length_fmap. Qed.

Lemma get_char c : 0 ≤ c < 256 →
  returns (const_value_get_integer (ucast (schar c)) 1 false) (CInteger false 1 c).
Proof.
  intros Hc. eapply returns_eq; [by apply returns_get_integer; [apply ucast_range|vm_compute]|].
  f_equal. unfold masked. rewrite (proj2 (Z.ltb_lt 1 (W / 8))); [by apply schar_byte|].
  by destruct W_cases as [->| ->].
Qed.

Lemma get_element v i a :
  const_ok v → elements_of v !! i = Some a →
  returns (multival_get_element_num v (Z.of_nat i)) a.
Proof.
  intros Hv Hi. unfold multival_get_element_num. rewrite num_elements_of.
  pose proof (lookup_lt_Some _ _ _ Hi) as Hlt. rewrite (proj2 (Z.leb_gt _ _)) by lia.
  destruct Hv as [| |k l Hl|s n Hs| | |]; try done; simpl in Hi.
  - apply returns_lift. rewrite Nat2Z.id. by rewrite Hi.
  - rewrite list_lookup_fmap in Hi. destruct (string_chars s n !! i) as [c|] eqn:Hc; [|done].
    injection Hi as <-.
    assert (0 ≤ c < 256) as Hr.
    { apply (string_chars_range s n c Hs). by eapply list_elem_of_lookup_2. }
    unfold string_chars in Hc. apply lookup_app_Some in Hc as [Hc|[Hge Hc]].
    + pose proof (lookup_lt_Some _ _ _ Hc).
      destruct n; cbn [negb]; [rewrite (proj2 (Z.eqb_neq _ _)) by lia|];
        (eapply returns_bind; [apply returns_lift; rewrite Nat2Z.id, Hc; done|by apply get_char]).
    + destruct n; [|done]. cbn [negb]. destruct (i - length s)%nat as [|j] eqn:Hj; [|done].
      injection Hc as <-. rewrite (proj2 (Z.eqb_eq _ _)) by lia.
      unfold const_value_get_zero. change 0 with (ucast (schar 0)). by apply get_char.
Qed.

Lemma returns_map_elements {A} (f : Z → CM A) l : ∀ i : nat,
  (∀ j a, l !! j = Some a → returns (f (Z.of_nat (i + j))) a) →
  returns (map_elements f (Z.of_nat i) (length l)) l.
Proof.
  induction l as [|a l IH]; intros i Hl; simpl; [apply returns_ret|].
  eapply returns_bind; [rewrite <-(Nat.add_0_r i); by apply (Hl 0%nat)|].
  eapply returns_bind; [|apply returns_ret].
  replace (Z.of_nat i + 1) with (Z.of_nat (S i)) by lia. apply IH. intros j b Hj.
  replace (S i + j)%nat with (i + S j)%nat by lia. by apply (Hl (S j)).
Qed.

Lemma make_multival_some k l : returns (make_multival k (Some <$> l)) (CElements k l).
Proof.
  unfold make_multival. assert (mapM id (Some <$> l) = Some l) as ->; [|apply returns_ret].
  apply mapM_Some. induction l; constructor; done.
Qed.

(** ** Element by element *)

(** The rule of [map_binary_to_structured_value]. *)
Lemma map_binary_returns f v1 v2 l :
  const_ok v1 → const_ok v2 → IS_MULTIVALUE v1 = true → IS_MULTIVALUE v2 = true →
  length (elements_of v1) = length l → length (elements_of v2) = length l →
  (∀ i a b c, elements_of v1 !! i = Some a → elements_of v2 !! i = Some b → l !! i = Some c →
     returns (f a b) (Some c)) →
  returns (map_binary_to_structured_value f v1 v2) (Some (CElements (multival_kind v1) l)).
Proof.
  intros Hv1 Hv2 Hm1 Hm2 Hl1 Hl2 Hf. unfold map_binary_to_structured_value.
  rewrite Hm1, Hm2, !num_elements_of, Hl1, Hl2, Z.eqb_refl. simpl.
  eapply returns_bind; [|eapply returns_bind; [apply make_multival_some|apply returns_ret]].
  unfold map_multival. rewrite num_elements_of, Nat2Z.id, Hl1, <-(length_fmap Some).
  change 0 with (Z.of_nat 0). apply returns_map_elements. intros j oc Hoc. simpl.
  rewrite list_lookup_fmap in Hoc. destruct (l !! j) as [c|] eqn:Hc; [|done]. injection Hoc as <-.
  pose proof (lookup_lt_Some _ _ _ Hc) as Hlt.
  destruct (lookup_lt_is_Some_2 (elements_of v1) j) as [a Ha]; [lia|].
  destruct (lookup_lt_is_Some_2 (elements_of v2) j) as [b Hb]; [lia|].
  eapply returns_bind; [by apply get_element|]. eapply returns_bind; [by apply get_element|].
  by apply (Hf j).
Qed.

Lemma typed_ok sign n x :
  0 < n ≤ W / 8 → in_type sign n x = true → const_ok (typed sign n x).
Proof.
  intros Hn Hx. constructor; [by apply bytes_le_max|apply ucast_range|]. intros -> _.
  rewrite (in_type_ucast n) by done. unfold in_type in Hx. zbool. lia.
Qed.

Lemma typed_elements_ok k sign n xs :
  0 < n ≤ W / 8 → Forall (λ x, in_type sign n x = true) xs →
  const_ok (CElements k (typed sign n <$> xs)).
Proof.
  intros Hn Hxs. constructor. apply Forall_fmap. eapply Forall_impl; [done|].
  intros x. by apply typed_ok.
Qed.

(** An arithmetic operator on two vectors or arrays of the same length
    terminates and folds each pair of elements as C defines. *)
Theorem vector_folding_elementwise k1 k2 op sign n xs ys zs fuel :
  k1 ≠ MComplex → k2 ≠ MComplex → 0 < n ≤ W / 8 →
  Forall (λ x, in_type sign n x = true) xs → Forall (λ y, in_type sign n y = true) ys →
  length xs = length zs → length ys = length zs →
  (∀ i x y z, xs !! i = Some x → ys !! i = Some y → zs !! i = Some z →
     c_result (CArith op) sign n x y = Some z) →
  returns (const_value_arith (S (S fuel)) op (CElements k1 (typed sign n <$> xs))
             (CElements k2 (typed sign n <$> ys)))
    (Some (CElements k1 (typed sign n <$> zs))).
Proof.
  intros Hk1 Hk2 Hn Hxs Hys Hl1 Hl2 Hz. remember (S fuel) as fuel' eqn:Hf.
  cbn [const_value_arith]. unfold structured_binop.
  assert (∀ k l, k ≠ MComplex → is_complex (CElements k l) = false) as Hc by (by intros []).
  rewrite !Hc by done. cbn [andb IS_MULTIVALUE num_elements].
  rewrite !length_fmap, Hl1, Hl2, Z.eqb_refl.
  apply (map_binary_returns _ (CElements k1 _) (CElements k2 _) (typed sign n <$> zs));
    [by apply typed_elements_ok|by apply typed_elements_ok|done|done|simpl; by rewrite !length_fmap..|].
  intros i a b c Ha Hb Hc'. simpl in Ha, Hb. rewrite list_lookup_fmap in Ha, Hb, Hc'.
  destruct (xs !! i) as [x|] eqn:Hx, (ys !! i) as [y|] eqn:Hy, (zs !! i) as [z|] eqn:Hzi;
    simpl in Ha, Hb, Hc'; simplify_eq.
  rewrite Forall_lookup in Hxs, Hys. specialize (Hxs i x Hx). specialize (Hys i y Hy).
  eapply returns_bind; [apply arith_typed; by eauto|apply returns_ret].
Qed.
End elements.

(** ** Comparisons of strings *)

Section compare.
Context `{CvalueWidth} (e : type_environment).
Context (He : 0 ≤ sizeof_signed_int e ≤ MCXX_MAX_BYTES_INTEGER).

(** The elements of [v] from [i] on are the integers [l] of one type. *)
Definition elements_from (sign : bool) (n : Z) (v : const) (i : nat) (l : list Z) : Prop :=
  drop i (elements_of v) = typed sign n <$> l ∧ Forall (λ x, in_type sign n x = true) l.

Lemma elements_from_cons sign n v i x l :
  const_ok v → IS_MULTIVALUE v = true → elements_from sign n v i (x :: l) →
  returns (const_value_get_element_num v (Z.of_nat i)) (typed sign n x)
  ∧ in_type sign n x = true ∧ elements_from sign n v (S i) l.
Proof.
  intros Hv Hm [Hd Hl]. apply Forall_cons in Hl as [Hx Hl]. split_and!; [|done|].
  - unfold const_value_get_element_num. rewrite Hm. apply get_element; [done|].
    by rewrite <-(Nat.add_0_r i), <-lookup_drop, Hd.
  - split; [|done]. by rewrite <-Nat.add_1_r, <-drop_drop, Hd.
Qed.

Lemma ucast_b2z b : ucast (Z.b2z b) = Z.b2z b.
Proof. pose proof one_small. pose proof pow2_W. apply ucast_small. destruct b; simpl; lia. Qed.

Lemma is_zero_bool n b : returns (const_value_is_zero (typed true n (Z.b2z b))) (negb b).
Proof.
  unfold const_value_is_zero. eapply returns_bind; [|apply returns_ret]. simpl.
  rewrite ucast_b2z. eapply returns_eq; [apply returns_ret|by destruct b].
Qed.

(** *** Fortran *)

Section fortran.
Context (kind : Z) (Hkind : 0 ≤ kind ≤ MCXX_MAX_BYTES_INTEGER) (fuel : nat).

Definition fortran_const (b : bool) : const := typed true kind (Z.b2z b).

Lemma fortran_bool_returns b : returns (fortran_bool kind b) (fortran_const b).
Proof.
  unfold fortran_bool, fortran_const, typed. rewrite ucast_b2z.
  pose proof (ucast_range (Z.b2z b)) as Hr. rewrite ucast_b2z in Hr.
  destruct b; (eapply returns_eq; [by apply returns_get_integer|done]).
Qed.

Lemma elements_differ_returns op v1 v2 i x y l1 l2 sign n :
  const_ok v1 → const_ok v2 → IS_MULTIVALUE v1 = true → IS_MULTIVALUE v2 = true →
  0 < n ≤ W / 8 → elements_from sign n v1 i (x :: l1) → elements_from sign n v2 i (y :: l2) →
  returns (elements_differ e (S fuel) op v1 v2 (Z.of_nat i)) (negb (int_rel op x y)).
Proof.
  intros Hv1 Hv2 Hm1 Hm2 Hn H1 H2.
  destruct (elements_from_cons _ _ _ _ _ _ Hv1 Hm1 H1) as (Hg1 & Hx & _).
  destruct (elements_from_cons _ _ _ _ _ _ Hv2 Hm2 H2) as (Hg2 & Hy & _).
  unfold elements_differ. eapply returns_bind; [done|]. eapply returns_bind; [done|].
  eapply returns_bind; [by apply rel_typed|].
  eapply returns_bind; [apply returns_ret|]. apply is_zero_bool.
Qed.

Section two_strings.
Context (v1 v2 : const) (Hv1 : const_ok v1) (Hv2 : const_ok v2).
Context (Hm1 : IS_MULTIVALUE v1 = true) (Hm2 : IS_MULTIVALUE v2 = true).
Context (sign : bool) (n : Z) (Hn : 0 < n ≤ W / 8).

Lemma str_eq_loop_returns l1 : ∀ l2 i,
  elements_from sign n v1 i l1 → elements_from sign n v2 i l2 → length l1 = length l2 →
  returns (str_eq_loop e kind (S fuel) v1 v2 (Z.of_nat i) (length l1))
    (fortran_const (strcmp_sign l1 l2 =? 0)).
Proof.
  induction l1 as [|x l1 IH]; intros [|y l2] i H1 H2 Hl; try done.
  - apply (fortran_bool_returns true).
  - cbn [str_eq_loop length strcmp_sign].
    eapply returns_bind; [by eapply elements_differ_returns|].
    destruct (elements_from_cons _ _ _ _ _ _ Hv1 Hm1 H1) as (_ & _ & H1').
    destruct (elements_from_cons _ _ _ _ _ _ Hv2 Hm2 H2) as (_ & _ & H2').
    cbn [int_rel]. destruct (Z.eqb_spec x y) as [->|Hne]; cbn [negb].
    + rewrite three_way_refl, or_else_0. replace (Z.of_nat i + 1) with (Z.of_nat (S i)) by lia.
      apply IH; [done|done|]. by injection Hl.
    + rewrite or_else_ne by done. rewrite (proj2 (Z.eqb_neq _ _)) by (by rewrite three_way_eq).
      apply (fortran_bool_returns false).
Qed.

Lemma str_lt_loop_returns l1 : ∀ l2 i,
  elements_from sign n v1 i l1 → elements_from sign n v2 i l2 → length l1 = length l2 →
  returns (str_lt_loop e kind (S fuel) v1 v2 false (Z.of_nat i) (length l1))
    (fortran_const (strcmp_sign l1 l2 <? 0)).
Proof.
  induction l1 as [|x l1 IH]; intros [|y l2] i H1 H2 Hl; try done.
  - apply (fortran_bool_returns false).
  - cbn [str_lt_loop length strcmp_sign].
    eapply returns_bind; [by eapply elements_differ_returns|].
    destruct (elements_from_cons _ _ _ _ _ _ Hv1 Hm1 H1) as (_ & _ & H1').
    destruct (elements_from_cons _ _ _ _ _ _ Hv2 Hm2 H2) as (_ & _ & H2').
    cbn [int_rel]. destruct (Z.eqb_spec x y) as [->|Hne]; cbn [negb].
    + rewrite three_way_refl, or_else_0. replace (Z.of_nat i + 1) with (Z.of_nat (S i)) by lia.
      apply IH; [done|done|]. by injection Hl.
    + rewrite or_else_ne by done. eapply returns_bind; [by eapply elements_differ_returns|].
      cbn [int_rel]. rewrite negb_involutive. eapply returns_eq; [apply fortran_bool_returns|].
      f_equal. unfold three_way. repeat split_if; lia.
Qed.
End two_strings.

(** [v] is a value of the elements [l], integers of one type. *)
Definition elements_are (sign : bool) (n : Z) (v : const) (l : list Z) : Prop :=
  const_ok v ∧ IS_MULTIVALUE v = true ∧ elements_from sign n v 0 l.

Lemma num_elements_are sign n v l : elements_are sign n v l → num_elements v = Z.of_nat (length l).
Proof.
  intros (_ & _ & Hd & _). rewrite num_elements_of. rewrite drop_0 in Hd. by rewrite Hd, length_fmap.
Qed.

Lemma get_num_elements sign n v l :
  elements_are sign n v l → returns (const_value_get_num_elements v) (Z.of_nat (length l)).
Proof.
  intros Hv. unfold const_value_get_num_elements. rewrite <-(num_elements_are _ _ _ _ Hv).
  destruct Hv as (_ & -> & _). apply returns_ret.
Qed.

Lemma str_eq_returns v1 v2 l1 l2 sign n :
  0 < n ≤ W / 8 → elements_are sign n v1 l1 → elements_are sign n v2 l2 → length l1 = length l2 →
  returns (fortran_str_const_value_eq e kind (S fuel) v1 v2) (fortran_const (strcmp_sign l1 l2 =? 0)).
Proof.
  intros Hn H1 H2 Hl. eapply returns_bind; [by eapply get_num_elements|].
  eapply returns_bind; [by eapply get_num_elements|]. rewrite Hl, Z.eqb_refl, Nat2Z.id, <-Hl.
  destruct H1 as (? & ? & ?), H2 as (? & ? & ?). by apply (str_eq_loop_returns v1 v2) with (i := 0%nat) (sign := sign) (n := n).
Qed.

Lemma str_lt_returns v1 v2 l1 l2 sign n :
  0 < n ≤ W / 8 → elements_are sign n v1 l1 → elements_are sign n v2 l2 → length l1 = length l2 →
  returns (fortran_str_const_value_lt e kind (S fuel) v1 v2) (fortran_const (strcmp_sign l1 l2 <? 0)).
Proof.
  intros Hn H1 H2 Hl. eapply returns_bind; [by eapply get_num_elements|].
  eapply returns_bind; [by eapply get_num_elements|]. cbv zeta. rewrite Hl, Z.eqb_refl, Z.ltb_irrefl, Nat2Z.id, <-Hl.
  destruct H1 as (? & ? & ?), H2 as (? & ? & ?). by apply (str_lt_loop_returns v1 v2) with (i := 0%nat) (sign := sign) (n := n).
Qed.

(** The other comparisons negate these two. *)
Lemma fortran_not m b c :
  returns m (fortran_const b) → c = negb b →
  returns (r ← m; z ← const_value_is_zero r; fortran_bool kind z) (fortran_const c).
Proof.
  intros Hm ->. eapply returns_bind; [done|]. eapply returns_bind; [apply is_zero_bool|].
  apply fortran_bool_returns.
Qed.

Lemma str_lte_returns v1 v2 l1 l2 sign n :
  0 < n ≤ W / 8 → elements_are sign n v1 l1 → elements_are sign n v2 l2 → length l1 = length l2 →
  returns (fortran_str_const_value_lte e kind (S fuel) v1 v2) (fortran_const (strcmp_sign l1 l2 <=? 0)).
Proof.
  intros Hn H1 H2 Hl. eapply returns_bind; [by eapply str_lt_returns|].
  eapply returns_bind; [apply is_zero_bool|]. destruct (Z.ltb_spec (strcmp_sign l1 l2) 0); cbn [negb].
  - eapply returns_eq; [apply returns_ret|]. f_equal. symmetry. apply Z.leb_le. lia.
  - eapply returns_eq; [by eapply str_eq_returns|]. f_equal.
    destruct (Z.eqb_spec (strcmp_sign l1 l2) 0), (Z.leb_spec (strcmp_sign l1 l2) 0); lia || done.
Qed.

(** The Fortran comparisons of two strings of the same length terminate and
    give 1 or 0, of the default integer kind, as the strings compare in
    lexicographic order. *)
Theorem fortran_string_comparison op v1 v2 l1 l2 sign n :
  0 < n ≤ W / 8 → elements_are sign n v1 l1 → elements_are sign n v2 l2 → length l1 = length l2 →
  returns (fortran_str_rel e kind (S fuel) op v1 v2)
    (fortran_const (int_rel op (strcmp_sign l1 l2) 0)).
Proof.
  intros Hn H1 H2 Hl. destruct op; simpl.
  - by eapply str_lt_returns.
  - by eapply str_lte_returns.
  - eapply fortran_not; [by eapply str_lte_returns|]. by rewrite Z.ltb_antisym.
  - eapply fortran_not; [by eapply str_lt_returns|]. by rewrite Z.leb_antisym.
  - by eapply str_eq_returns.
  - eapply fortran_not; [by eapply str_eq_returns|]. done.
Qed.
End fortran.

Lemma cstring_elements s :
  Forall (λ c, 0 < c < 256) s → elements_are false 1 (CCString s false) s.
Proof.
  intros Hs. pose proof (pow_bits_le 1) as Hp. assert (0 < 1 ≤ W / 8) as H1.
  { by destruct W_cases as [->| ->]. }
  assert (Forall (λ x, in_type false 1 x = true) s) as Ht.
  { eapply Forall_impl; [done|]. intros c Hc. simpl in Hc. apply (unsigned_of_range 1). simpl. lia. }
  split_and!; [by constructor|done|]. split; [|done]. rewrite drop_0. simpl. unfold string_chars.
  rewrite app_nil_r. apply list_fmap_ext. intros i c Hc. unfold typed. f_equal. symmetry.
  apply (in_type_ucast 1 H1). rewrite Forall_lookup in Ht. by eapply Ht.
Qed.

(** *** Lexicographic comparisons *)

(** The comparison of two values with [const_value_lt] stops at the first
    element and gives the opposite of what it finds: 1 when the first element is
    not lower. *)
Lemma multivalue_lt_inverted v1 v2 x y l1 l2 sign n fuel :
  0 < n ≤ W / 8 → elements_are sign n v1 (x :: l1) → elements_are sign n v2 (y :: l2) →
  returns (reduce_multival e OpLt (const_value_rel e (S fuel) OpLt) v1 v2)
    (Some (const_bool e (negb (x <? y)))).
Proof.
  intros Hn H1 H2. unfold reduce_multival, reduce_lexicographic.
  eapply returns_bind; [by eapply get_num_elements|].
  eapply returns_bind; [by eapply get_num_elements|].
  eapply returns_bind; [|apply returns_ret].
  assert (∃ m, Z.to_nat (if Z.of_nat (length (x :: l1)) <? Z.of_nat (length (y :: l2))
    then Z.of_nat (length (x :: l1)) else Z.of_nat (length (y :: l2))) = S m) as [m ->].
  { destruct (_ <? _); rewrite Nat2Z.id; eexists; reflexivity. }
  destruct H1 as (Hv1 & Hm1 & H1), H2 as (Hv2 & Hm2 & H2).
  destruct (elements_from_cons _ _ _ _ _ _ Hv1 Hm1 H1) as (Hg1 & Hx & _).
  destruct (elements_from_cons _ _ _ _ _ _ Hv2 Hm2 H2) as (Hg2 & Hy & _).
  cbn [reduce_loop]. change 0 with (Z.of_nat 0).
  eapply returns_bind; [done|]. eapply returns_bind; [done|].
  eapply returns_bind; [by apply rel_typed|].
  eapply returns_bind; [apply returns_ret|]. eapply returns_bind; [apply is_zero_bool|].
  cbn [int_rel]. destruct (Z.ltb_spec x y); cbn [negb]; [|by apply (get_const_bool e true)].
  eapply returns_bind; [done|]. eapply returns_bind; [done|].
  eapply returns_bind; [by apply rel_typed|].
  eapply returns_bind; [apply returns_ret|]. eapply returns_bind; [apply is_zero_bool|].
  cbn [int_rel]. rewrite (proj2 (Z.ltb_ge y x)) by lia. by apply (get_const_bool e false).
Qed.
End compare.

(** ** Concrete strings *)

Section samples.
#[local] Instance host128 : CvalueWidth := {| HAVE_INT128 := true |}.

Definition amd64 : type_environment := environs (final_globals false) linux_amd64.

(** ['ab'], ['ac'] and ['abc'], as the literals make them. *)
Definition ab : const := CCString [97; 98] false.
Definition ac : const := CCString [97; 99] false.
Definition abc : const := CCString [97; 98; 99] false.

Lemma fortran_string_comparison_witness :
  returns (fortran_str_rel amd64 4 1 OpLt ab ac) (typed true 4 1).
Proof.
  apply (fortran_string_comparison amd64 ltac:(by vm_compute) 4 ltac:(by vm_compute) 0 OpLt ab ac
           [97; 98] [97; 99] false 1);
    [by vm_compute|apply cstring_elements; repeat constructor..|done].
Defined.

Lemma vector_folding_elementwise_witness :
  returns (const_value_arith 2 OpMul (CElements MVector [typed true 4 3; typed true 4 (-5)])
             (CElements MVector [typed true 4 7; typed true 4 4]))
    (Some (CElements MVector [typed true 4 21; typed true 4 (-20)])).
Proof.
  apply (vector_folding_elementwise MVector MVector OpMul true 4 [3; -5] [7; 4] [21; -20] 0);
    try done; [repeat constructor..|].
  intros [|[|i]] x y z; intros [= <-] [= <-] [= <-]; by vm_compute.
Defined.

(** Strings of different lengths with a common prefix are each lower than the
    other. *)
Lemma fortran_prefix_lower_both_ways :
  fst <$> fortran_str_rel amd64 4 1 OpLt ab abc [] = Ret (typed true 4 1)
  ∧ fst <$> fortran_str_rel amd64 4 1 OpLt abc ab [] = Ret (typed true 4 1).
Proof. by vm_compute. Qed.

(** [const_value_is_one] takes the characters of a C string for pointers. *)
Lemma is_one_of_string_undefined p : const_value_is_one ab p = Err Undef.
Proof. done. Qed.
End samples.
