(* ===== verification/PoolTree.v ===== *)
(** * Red-black trees whose comparison function acts on the tree
    ([lib/red_black_tree.c])

    The search and the insertion of [RbTree], for a comparison function that is
    code itself and may search the tree and insert into it before it answers, as
    that of the constants does.  Where the function only computes, they are the
    operations of [RbTree]; where it happens to leave the memory alone on the
    keys of the tree, they have the same runs. *)

From S2P Require Import Prelude Heap RbTree RbShape RbRep.
#[local] Open Scope Z_scope.
#[local] Unset SsrRewrite.

(** ** The code *)

Section code.
Notation M := (Heap.M rb_node).
Context (comp : Z → Z → M Z) (junk : rb_node) (tree : rb_tree).

Fixpoint query_loop_by (fuel : nat) (q x compVal : Z) : M Z :=
  match fuel with
  | O => no_fuel
  | S fuel' =>
      if compVal =? 0 then mret x else
      x ← (if 0 <? compVal then ld left x else ld right x);
      if decide (x = nil tree) then mret 0
      else kx ← ld key x; compVal ← comp kx q; query_loop_by fuel' q x compVal
  end.

Definition rb_tree_query_by (fuel : nat) (q : Z) : M Z :=
  x ← ld left (root tree);
  if decide (x = nil tree) then mret 0
  else kx ← ld key x; compVal ← comp kx q; query_loop_by fuel q x compVal.

Fixpoint insert_descend_by (fuel : nat) (z y x : Z) : M Z :=
  match fuel with
  | O => no_fuel
  | S fuel' =>
      if decide (x = nil tree) then mret y else
      kx ← ld key x; kz ← ld key z; c ← comp kx kz;
      if 0 <? c
      then xl ← ld left x; insert_descend_by fuel' z x xl
      else xr ← ld right x; insert_descend_by fuel' z x xr
  end.

Definition TreeInsertHelp_by (fuel : nat) (z : Z) : M unit :=
  st (set_right (nil tree)) z;; st (set_left (nil tree)) z;;
  x ← ld left (root tree);
  y ← insert_descend_by fuel z (root tree) x;
  st (set_parent y) z;;
  at_left ← (if decide (y = root tree) then mret true
             else ky ← ld key y; kz ← ld key z; c ← comp ky kz; mret (0 <? c));
  if (at_left : bool) then st (set_left z) y else st (set_right z) y.

Definition rb_tree_add_by (fuel : nat) (k i : Z) : M Z :=
  x ← new junk;
  st (set_key k) x;; st (set_info i) x;;
  TreeInsertHelp_by fuel x;;
  st (set_red true) x;;
  insert_loop tree fuel x;;
  rl ← ld left (root tree); st (set_red false) rl;;
  mret x.

Definition rb_tree_insert_by (fuel : nat) (k i : Z) : M Z :=
  node ← rb_tree_query_by fuel k;
  if negb (node =? 0) then st (set_info i) node;; mret node
  else rb_tree_add_by fuel k i.
End code.

(** ** A comparison that only computes *)

Lemma bind_same {V A B} (c c' : Heap.M V A) (f f' : A → Heap.M V B) m :
  c m = c' m → (∀ a m', c' m = Ret (a, m') → f a m' = f' a m') → (c ≫= f) m = (c' ≫= f') m.
Proof.
  intros Hc Hf. unfold mbind, M_bind. rewrite Hc. destruct (c' m) as [[a m']|e]; [|done]. simpl. by apply Hf.
Qed.

Lemma bind_run {V A B} (c : Heap.M V A) (f : A → Heap.M V B) a m m' :
  c m = Ret (a, m') → (c ≫= f) m = f a m'.
Proof. intros Hc. unfold mbind, M_bind. by rewrite Hc. Qed.

Section pure.
Context `{KeyOrder} (tree : rb_tree).
Notation computed := (λ a b, mret (M := Heap.M rb_node) (comp_func a b)).

Lemma query_loop_computed fuel q : ∀ x c m,
  query_loop tree fuel q x c m = query_loop_by computed tree fuel q x c m.
Proof.
  induction fuel as [|fuel IH]; intros x c m; [done|]. cbn [query_loop query_loop_by].
  destruct (c =? 0); [done|]. apply bind_same; [done|]. intros y m' _. destruct (decide _); [done|].
  apply bind_same; [done|]. intros k m'' _. apply IH.
Qed.

Lemma rb_tree_query_computed fuel q m : rb_tree_query tree fuel q m = rb_tree_query_by computed tree fuel q m.
Proof.
  apply bind_same; [done|]. intros y m' _. destruct (decide _); [done|].
  apply bind_same; [done|]. intros k m'' _. apply query_loop_computed.
Qed.
End pure.

(** ** Memories that hold a tree *)

Section memory.
Context (tree : rb_tree).

Fixpoint tree_in (m : gmap Z rb_node) (t : rbt) : Prop :=
  match t with
  | Leaf => True
  | Node a c k v l r =>
      0 < a ∧ a ≠ nil tree ∧ (∃ p, m !! a = Some (RbNode k v c (addr tree l) (addr tree r) p))
      ∧ tree_in m l ∧ tree_in m r
  end.

Definition pool_memory (m : gmap Z rb_node) (t : rbt) : Prop :=
  tree_in m t ∧ ∃ n, m !! root tree = Some n ∧ left n = addr tree t.

Lemma tree_in_insert m t z (n : rb_node) : m !! z = None → tree_in m t → tree_in (<[z := n]> m) t.
Proof.
  intros Hz. induction t as [|a c k v l IHl r IHr]; [done|]. cbn [tree_in].
  intros (? & ? & (p & Ha) & ? & ?). split_and!; [done..| |auto|auto]. exists p.
  rewrite lookup_insert_ne; [done|congruence].
Qed.

Lemma pool_memory_insert m t z (n : rb_node) : m !! z = None → pool_memory m t → pool_memory (<[z := n]> m) t.
Proof.
  intros Hz [Ht (r & Hr & Hl)]. split; [by apply tree_in_insert|]. exists r.
  rewrite lookup_insert_ne; [done|congruence].
Qed.

Lemma ld_run {A} (f : rb_node → A) p n m : m !! p = Some n → ld f p m = Ret (f n, m).
Proof. intros Hp. unfold ld. by rewrite Hp. Qed.

Lemma st_run (f : rb_node → rb_node) p n (m : gmap Z rb_node) : m !! p = Some n → st f p m = Ret (tt, <[p := f n]> m).
Proof. intros Hp. unfold st. by rewrite Hp. Qed.

Section run.
Context `{KeyOrderOk} (comp : Z → Z → Heap.M rb_node Z).

(** [comp] answers for the keys of [t] without touching the memory. *)
Definition answers_on (m : gmap Z rb_node) (t : rbt) (q : Z) : Prop :=
  ∀ e, e ∈ inorder t → comp (e_key e) q m = Ret (comp_func (e_key e) q, m).

Lemma answers_on_sub m t t' q : inorder t' ⊆ inorder t → answers_on m t q → answers_on m t' q.
Proof. intros Hs Ha e He. by apply Ha, Hs. Qed.

Lemma inorder_left a c k v l r : inorder l ⊆ inorder (Node a c k v l r).
Proof. intros e He. cbn [inorder]. apply elem_of_app. by left. Qed.
Lemma inorder_right a c k v l r : inorder r ⊆ inorder (Node a c k v l r).
Proof. intros e He. cbn [inorder]. apply elem_of_app. right. by right. Qed.
Lemma inorder_root a c k v l r : (a, k, v) ∈ inorder (Node a c k v l r).
Proof. cbn [inorder]. apply elem_of_app. right. by left. Qed.

Lemma query_loop_by_run fuel q m : ∀ a c k v l r,
  let t := Node a c k v l r in
  tree_in m t → answers_on m t q → (height t ≤ fuel)%nat →
  query_loop_by comp tree fuel q a (comp_func k q) m = Ret (entry_or_null (rb_find q t), m).
Proof.
  induction fuel as [|fuel IH]; intros a c k v l r t Ht Ha Hf; subst t; [simpl in Hf; lia|].
  cbn [query_loop_by rb_find]. destruct (Z.eqb_spec (comp_func k q) 0) as [Hk|Hk]; [done|].
  destruct Ht as (_ & Hn & (p & Hm) & Hl & Hr). cbn [height] in Hf.
  destruct (0 <? comp_func k q); (erewrite bind_run by (by apply (ld_run _ a))); cbn [left right].
  - destruct l as [|a' c' k' v' l' r']; cbn [addr]; [by rewrite decide_True|].
    pose proof Hl as (_ & Hn' & (p' & Hm') & _). rewrite decide_False by done.
    erewrite bind_run by (by apply (ld_run _ a')). cbn [key].
    pose proof (answers_on_sub _ _ _ _ (inorder_left a c k v _ r) Ha) as Hal.
    erewrite bind_run by (apply (Hal (a', k', v')), inorder_root).
    apply IH; [done..|lia].
  - destruct r as [|a' c' k' v' l' r']; cbn [addr]; [by rewrite decide_True|].
    pose proof Hr as (_ & Hn' & (p' & Hm') & _). rewrite decide_False by done.
    erewrite bind_run by (by apply (ld_run _ a')). cbn [key].
    pose proof (answers_on_sub _ _ _ _ (inorder_right a c k v l _) Ha) as Har.
    erewrite bind_run by (apply (Har (a', k', v')), inorder_root).
    apply IH; [done..|lia].
Qed.

Lemma rb_tree_query_by_run fuel q m t :
  pool_memory m t → answers_on m t q → (height t ≤ fuel)%nat →
  rb_tree_query_by comp tree fuel q m = Ret (entry_or_null (rb_find q t), m).
Proof.
  intros [Ht (n & Hn & Hl)] Ha Hf. unfold rb_tree_query_by. erewrite bind_run by (by apply ld_run). rewrite Hl.
  destruct t as [|a c k v l r]; cbn [addr]; [by rewrite decide_True|].
  pose proof Ht as (_ & Hne & (p & Hm) & _). rewrite decide_False by done.
  erewrite bind_run by (by apply (ld_run _ a)). cbn [key].
  erewrite bind_run by (apply (Ha (a, k, v)), inorder_root). by apply query_loop_by_run.
Qed.

(** The node that the descent ends at is [y] or a node of the tree. *)
Lemma insert_descend_by_run fuel z nz m : m !! z = Some nz → ∀ t y,
  tree_in m t → answers_on m t (key nz) →
  insert_descend_by comp tree fuel z y (addr tree t) m = insert_descend tree fuel z y (addr tree t) m
  ∧ ∀ y' m', insert_descend tree fuel z y (addr tree t) m = Ret (y', m') →
      m' = m ∧ (y' = y ∨ ∃ e n, e ∈ inorder t ∧ y' = e_addr e ∧ m !! y' = Some n ∧ key n = e_key e).
Proof.
  intros Hz. induction fuel as [|fuel IH]; intros t y Ht Ha; [done|].
  cbn [insert_descend_by insert_descend]. destruct t as [|a c k v l r]; cbn [addr].
  { rewrite !decide_True by done. split; [done|]. intros y' m' E. injection E as <- <-. auto. }
  destruct Ht as (_ & Hn & (p & Hm) & Hl & Hr). rewrite !decide_False by done.
  erewrite !(bind_run (ld key a) _ _ m m) by (by apply (ld_run _ a)).
  erewrite !(bind_run (ld key z) _ _ m m) by (by apply (ld_run _ z)). cbn [key].
  erewrite (bind_run (comp _ _) _ _ m m) by (apply (Ha (a, k, v)), inorder_root).
  change (e_key (a, k, v)) with k.
  assert (Hstep : ∀ t', tree_in m t' → inorder t' ⊆ inorder (Node a c k v l r) →
    insert_descend_by comp tree fuel z a (addr tree t') m = insert_descend tree fuel z a (addr tree t') m
    ∧ ∀ y' m', insert_descend tree fuel z a (addr tree t') m = Ret (y', m') →
        m' = m ∧ (y' = y ∨ ∃ e n, e ∈ inorder (Node a c k v l r) ∧ y' = e_addr e ∧ m !! y' = Some n ∧ key n = e_key e)).
  { intros t' Ht' Hsub. destruct (IH t' a Ht' (answers_on_sub _ _ _ _ Hsub Ha)) as [He Hy]. split; [done|].
    intros y' m' E. destruct (Hy y' m' E) as [-> [->|(e & n & He' & ? & ? & ?)]]; (split; [done|]); right.
    - exists (a, k, v), (RbNode k v c (addr tree l) (addr tree r) p). split; [apply inorder_root|done].
    - exists e, n. split; [by apply Hsub|done]. }
  destruct (0 <? comp_func k (key nz)).
  - erewrite !(bind_run (ld left a) _ _ m m) by (by apply (ld_run _ a)). apply (Hstep l Hl), inorder_left.
  - erewrite !(bind_run (ld right a) _ _ m m) by (by apply (ld_run _ a)). apply (Hstep r Hr), inorder_right.
Qed.

(** [comp] answers also while a new node is being linked. *)
Lemma TreeInsertHelp_by_run fuel z nz m t :
  m !! z = None → pool_memory m t → (∀ n : rb_node, answers_on (<[z := n]> m) t (key nz)) →
  TreeInsertHelp_by comp tree fuel z (<[z := nz]> m) = TreeInsertHelp tree fuel z (<[z := nz]> m).
Proof.
  intros Hz Ht Ha. unfold TreeInsertHelp_by, TreeInsertHelp.
  erewrite !(bind_run (st (set_right (nil tree)) z)) by (apply st_run, lookup_insert_eq). rewrite insert_insert_eq.
  erewrite !(bind_run (st (set_left (nil tree)) z)) by (apply st_run, lookup_insert_eq). rewrite insert_insert_eq.
  set (n1 := set_left _ _). destruct (pool_memory_insert m t z n1 Hz Ht) as [Ht1 (nr & Hr & Hl)].
  erewrite !(bind_run (ld left (root tree))) by (by apply ld_run). rewrite Hl.
  destruct (insert_descend_by_run fuel z n1 (<[z := n1]> m)) with (t := t) (y := root tree) as [E Hy];
    [apply lookup_insert_eq|done|apply Ha|].
  apply bind_same; [done|]. intros y m' Hrun. apply Hy in Hrun as [-> Hy'].
  erewrite !(bind_run (st (set_parent y) z)) by (apply st_run, lookup_insert_eq). rewrite insert_insert_eq.
  apply bind_same; [|done]. case_decide as Hroot; [done|].
  destruct Hy' as [->|(e & n & He & Hye & Hn & Hkey)]; [done|].
  assert (Hyz : y ≠ z).
  { intros ->. assert (Hadr : ∀ t, tree_in m t → ∀ e, e ∈ inorder t → m !! e_addr e ≠ None).
    { clear. induction t as [|a c k v l IHl r IHr]; [by intros _ e ?%not_elem_of_nil|].
      intros (_ & _ & (p & Hp) & Hl & Hr) e. cbn [inorder]. rewrite elem_of_app, elem_of_cons.
      intros [He|[->|He]]; [by apply IHl|unfold e_addr; simpl; by rewrite Hp|by apply IHr]. }
    apply (Hadr t (proj1 Ht) e He). by rewrite <-Hye. }
  rewrite lookup_insert_ne in Hn by done.
  assert (Hn' : ∀ w : rb_node, <[z := w]> m !! y = Some n) by (intros; by rewrite lookup_insert_ne).
  erewrite !(bind_run (ld key y)) by (by apply ld_run).
  erewrite !(bind_run (ld key z)) by (apply ld_run, lookup_insert_eq). cbn [set_parent key].
  rewrite Hkey. erewrite bind_run by (by apply Ha). done.
Qed.

Lemma rb_tree_add_by_run junk fuel k i m t :
  pool_memory m t → (∀ z (n : rb_node), m !! z = None → answers_on (<[z := n]> m) t k) →
  rb_tree_add_by comp junk tree fuel k i m = rb_tree_add junk tree fuel k i m.
Proof.
  intros Ht Ha. unfold rb_tree_add_by, rb_tree_add. pose proof (fresh_address_fresh m) as Hz.
  set (z := fresh_address m) in *. erewrite !(bind_run (new junk) _ z m) by done.
  erewrite !(bind_run (st (set_key k) z)) by (apply st_run, lookup_insert_eq). rewrite insert_insert_eq.
  erewrite !(bind_run (st (set_info i) z)) by (apply st_run, lookup_insert_eq). rewrite insert_insert_eq.
  apply bind_same; [|done]. apply (TreeInsertHelp_by_run _ _ _ _ t); [done..|]. intros n. by apply Ha.
Qed.
End run.
End memory.

(** The memory of a tree in the logic *)
Section logic.
Context `{!ghost_mapG Σ Z rb_node} {γ : gname} {tree : rb_tree} `{KeyOrderOk}.

Lemma tree_rep_tree_in m q : ∀ t p,
  ghost_map_auth γ 1 m -∗ nil_rep γ tree q -∗ tree_rep γ tree p t -∗ ⌜tree_in tree m t⌝.
Proof.
  induction t as [|a c k v l IHl r IHr]; iIntros (p) "Hm Hn Ht"; [done|].
  iDestruct (tree_open with "Ht") as "(%Ha & Ha & Hl & Hr)".
  iDestruct (nil_ne with "Ha Hn") as %Hne. iDestruct (ghost_map_lookup with "Hm Ha") as %Hla.
  iDestruct (IHl with "Hm Hn Hl") as %Hl. iDestruct (IHr with "Hm Hn Hr") as %Hr. iPureIntro. cbn. eauto 10.
Qed.

Lemma rb_rep_pool_memory m l :
  ghost_map_auth γ 1 m -∗ rb_rep γ tree l -∗
  ⌜∃ t, pool_memory tree m t ∧ inorder t = l ∧ sorted l ∧ ∃ n, rb t false n⌝.
Proof.
  iIntros "Hm Hl". iDestruct "Hl" as (t q (Ht & Hs & Hrb)) "(Ht & Hp & Hq)".
  iExists t. iDestruct (tree_rep_tree_in with "Hm Hq Ht") as %Hmem.
  unfold path_rep. iDestruct "Hp" as (k v) "Hp". iDestruct (ghost_map_lookup with "Hm Hp") as %Hr.
  iPureIntro. split_and!; [|done..]. split; [done|by eexists].
Qed.

(** Code that runs as [c'] does, wherever the memory holds the tree *)
Lemma wp_same {A} (c c' : Heap.M rb_node A) l Φ :
  (∀ m t, pool_memory tree m t → inorder t = l → sorted l → (∃ n, rb t false n) → c m = c' m) →
  rb_rep γ tree l -∗ (rb_rep γ tree l -∗ wp γ c' Φ) -∗ wp γ c Φ.
Proof.
  iIntros (Hsame) "Hl Hc". iIntros (m) "Hm".
  iDestruct (rb_rep_pool_memory with "Hm Hl") as %(t & Ht & Hl & Hs & Hrb).
  rewrite (Hsame m t Ht Hl Hs Hrb). by iApply ("Hc" with "Hl").
Qed.
End logic.
