(* ===== verification/ConstPool.v ===== *)
(** * The pool of constants: [const_value_return_unique] on its red-black tree

    The constants are in memory: [deref] gives the contents of the constant at
    an address, which do not change, and a new constant gets an address of its
    own.  The pool is the tree of [RbTree] with [const_value_compare_] for its
    comparison function.

    The comparison of a C string with a list of constants calls
    [const_value_get_integer] for the characters of the string: it looks them up
    in the pool while the pool is being searched, and inserts those that are not
    there.  [const_value_compare_by] is the comparison with these calls, and
    [return_unique] the lookup that they and the clients make, on the trees of
    [PoolTree] whose comparison function may change the tree.  When the
    characters that a comparison looks up are in the pool already, the
    comparison only reads, its value is that of [ConstValue], and the runs of
    the pool return one address for all the constants that compare equal, with
    the contents that the pool of [ConstValue] returns. *)

From S2P Require Import Prelude Heap RbTree RbShape RbRep RbInsert RbDelete RbMap PoolTree.
From S2P Require Import ConstValue ConstOrder.
#[local] Open Scope Z_scope.

(** ** The code *)

(** [if (k != 0) return k;] and go on *)
Definition or_else_by (k : Z) (next : Heap.M rb_node Z) : Heap.M rb_node Z := if k =? 0 then next else mret k.

Definition compare_lists_by {A B} (compare : A → B → Heap.M rb_node Z) : list A → list B → Heap.M rb_node Z :=
  fix loop l1 l2 :=
    match l1, l2 with
    | a :: l1', b :: l2' => k ← compare a b; or_else_by k (loop l1' l2')
    | _, _ => mret 0
    end.

Section compare.
Context `{CvalueWidth}.
Notation M := (Heap.M rb_node).

(** The constant that [const_value_get_integer(c, 1, 0)] returns *)
Context (get_char : Z → M const).

Fixpoint const_value_compare_by (val1 val2 : const) {struct val1} : M Z :=
  or_else_by (compare_headers val1 val2)
    match val1, val2 with
    | CInteger sign _ i1, CInteger _ _ i2 => mret (compare_integers sign i1 i2)
    | CFloating k f1, CFloating _ f2 => mret (compare_floats k f1 f2)
    | CElements _ l1, CElements _ l2 =>
        or_else_by (three_way (num_elements val1) (num_elements val2))
          (compare_lists_by const_value_compare_by l1 l2)
    | CElements _ l1, CCString s2 n2 =>
        or_else_by (three_way (num_elements val1) (num_elements val2))
          (compare_lists_by (λ e c, i ← get_char c; const_value_compare_by e i) l1 (string_chars s2 n2))
    | CCString s1 n1, CElements _ l2 =>
        or_else_by (three_way (num_elements val1) (num_elements val2))
          (compare_lists_by (λ c e, i ← get_char c; mret (compare_char_const i e)) (string_chars s1 n1) l2)
    | CCString s1 _, CCString s2 _ =>
        or_else_by (three_way (num_elements val1) (num_elements val2)) (mret (strcmp_sign s1 s2))
    | CUnknown, CUnknown => mret 0
    | CAddress a1, CAddress a2 => const_value_compare_by a1 a2
    | CObject b1 acc1, CObject b2 acc2 =>
        or_else_by (three_way b1 b2)
          (or_else_by (three_way (Z.of_nat (length acc1)) (Z.of_nat (length acc2)))
             (compare_lists_by
                (λ a1 a2, or_else_by (three_way (accessor_num a1.1) (accessor_num a2.1))
                            (const_value_compare_by a1.2 a2.2)) acc1 acc2))
    | _, _ => mret 0
    end.
End compare.

Section code.
Context `{CvalueWidth} (deref : Z → const).

(** The address of the constant that [const_value_get_integer(c, 1, 0)] makes
    for the lookup: it stays there when there is no such constant yet. *)
Context (char_const : Z → Z) (junk : rb_node).
Notation M := (Heap.M rb_node).

(** A lookup compares constants, which may look up characters; these lookups
    compare integers and need no others. *)
Fixpoint return_unique (nesting : nat) (tree : rb_tree) (fuel : nat) (v : Z) : M Z :=
  match nesting with
  | O => no_fuel
  | S nesting' =>
      let get_char c := r ← return_unique nesting' tree fuel (char_const c); mret (deref r) in
      let compare v1 v2 := const_value_compare_by get_char (deref v1) (deref v2) in
      n ← rb_tree_query_by compare tree fuel v;
      if n =? 0 then rb_tree_insert_by compare junk tree fuel v v;; mret v
      else rb_node_get_info n
  end.

Fixpoint return_unique_all (nesting : nat) (tree : rb_tree) (fuel : nat) (vs : list Z) : M (list Z) :=
  match vs with
  | [] => mret []
  | v :: vs' =>
      r ← return_unique nesting tree fuel v;
      rs ← return_unique_all nesting tree fuel vs'; mret (r :: rs)
  end.

(** The first call of [const_value_return_unique] makes the tree. *)
Definition pool_session (nesting fuel : nat) (vs : list Z) : M (list Z) :=
  match vs with
  | [] => mret []
  | _ => tree ← rb_tree_create junk; return_unique_all nesting tree fuel vs
  end.

(** The same calls on the pool of contents. *)
Fixpoint unique_contents (vs : list const) : CM (list const) :=
  match vs with
  | [] => mret []
  | v :: vs' => r ← const_value_return_unique v; rs ← unique_contents vs'; mret (r :: rs)
  end.
End code.

(** ** The characters that a comparison looks up *)

Definition lookups_in {A B} (lookups : A → B → list Z) : list A → list B → list Z :=
  fix loop l1 l2 :=
    match l1, l2 with
    | a :: l1', b :: l2' => lookups a b ++ loop l1' l2'
    | _, _ => []
    end.

(** ... when it does not end before it reaches them *)
Fixpoint lookups (val1 val2 : const) {struct val1} : list Z :=
  match val1, val2 with
  | CElements _ l1, CElements _ l2 => lookups_in lookups l1 l2
  | CElements k _, CCString s n | CCString s n, CElements k _ =>
      if bool_decide (k = MString) && (num_elements val1 =? num_elements val2) then string_chars s n else []
  | CAddress a1, CAddress a2 => lookups a1 a2
  | CObject _ acc1, CObject _ acc2 => lookups_in (λ a1 a2, lookups a1.2 a2.2) acc1 acc2
  | _, _ => []
  end.

Section values.
Context `{CvalueWidth}.
Notation M := (Heap.M rb_node).

Definition char_contents_of (c : Z) : const := integer_contents (ucast (schar c)) 1 false.

Lemma or_else_by_run k next n m :
  (k = 0 → next m = Ret (n, m)) → or_else_by k next m = Ret (or_else k n, m).
Proof. intros Hn. unfold or_else_by, or_else. destruct (Z.eqb_spec k 0); [auto|done]. Qed.

Lemma compare_lists_by_run {A B} (by_ : A → B → M Z) (cmp : A → B → Z) m l1 : ∀ l2,
  (∀ i a b, l1 !! i = Some a → l2 !! i = Some b → by_ a b m = Ret (cmp a b, m)) →
  compare_lists_by by_ l1 l2 m = Ret (compare_lists cmp l1 l2, m).
Proof.
  induction l1 as [|a l1 IH]; intros [|b l2] Hc; [done..|]. simpl.
  rewrite (bind_run _ _ _ _ _ (Hc 0%nat a b eq_refl eq_refl)). apply or_else_by_run. intros _.
  apply IH. intros i. apply (Hc (S i)).
Qed.

Lemma lookups_in_elem {A B} (f : A → B → list Z) l1 : ∀ l2 i a b c,
  l1 !! i = Some a → l2 !! i = Some b → c ∈ f a b → c ∈ lookups_in f l1 l2.
Proof.
  induction l1 as [|x l1 IH]; intros [|y l2] [|i] a b c Ha Hb Hc; simplify_eq/=; apply elem_of_app; eauto.
Qed.

(** A comparison with an integer makes no lookup. *)
Lemma compare_by_integer get_char v sign n i m :
  const_value_compare_by get_char v (CInteger sign n i) m = Ret (const_value_compare_ v (CInteger sign n i), m).
Proof. destruct v; apply or_else_by_run; done. Qed.

Lemma compare_by_run get_char m val1 : ∀ val2,
  (∀ c, c ∈ lookups val1 val2 → get_char c m = Ret (char_contents_of c, m)) →
  const_value_compare_by get_char val1 val2 m = Ret (const_value_compare_ val1 val2, m).
Proof.
  induction val1 as [s1 n1 i1|k1 f1|k1 l1 IH|s1 z1| |a1 IH|b1 acc1 IH] using const_ind';
    intros val2 Hc; destruct val2 as [s2 n2 i2|k2 f2|k2 l2|s2 z2| |a2|b2 acc2];
    cbn [const_value_compare_by const_value_compare_]; apply or_else_by_run; intros Hh; try done.
  - apply or_else_by_run. intros _. apply compare_lists_by_run. intros i a b Ha Hb.
    rewrite Forall_forall in IH. apply (IH a); [by eapply list_elem_of_lookup_2|].
    intros c Hin. apply Hc. simpl. by eapply lookups_in_elem.
  - apply or_else_by_run. intros Hn. rewrite ->three_way_eq in Hn. unfold c_str_elements. fold (string_chars s2 z2).
    assert (k1 = MString) as -> by (by destruct k1).
    assert (E : ∀ l (cs : list Z), (∀ e, e ∈ l → e ∈ l1) → (∀ c, c ∈ cs → c ∈ string_chars s2 z2) →
      compare_lists_by (λ e c, i ← get_char c; const_value_compare_by get_char e i) l cs m
      = Ret (compare_lists const_value_compare_ l (char_contents_of <$> cs), m)).
    { induction l as [|e l IHl]; intros [|c cs] Hl Hcs; [done..|]. simpl.
      erewrite bind_run.
      2: { erewrite bind_run; [|apply Hc; cbn [lookups]; rewrite Hn Z.eqb_refl; apply Hcs; by left].
           apply compare_by_integer. }
      apply or_else_by_run. intros _. apply IHl; set_solver. }
    by apply E.
  - apply or_else_by_run. intros Hn. rewrite ->three_way_eq in Hn. unfold c_str_elements. fold (string_chars s1 z1).
    assert (k2 = MString) as -> by (by destruct k2).
    assert (E : ∀ (cs : list Z) l, (∀ c, c ∈ cs → c ∈ string_chars s1 z1) →
      compare_lists_by (λ c e, i ← get_char c; mret (compare_char_const i e)) cs l m
      = Ret (compare_lists compare_char_const (char_contents_of <$> cs) l, m)).
    { induction cs as [|c cs IHl]; intros [|e l] Hcs; [done..|]. simpl.
      erewrite bind_run.
      2: { erewrite bind_run; [|apply Hc; cbn [lookups]; rewrite Hn Z.eqb_refl; apply Hcs; by left]. done. }
      apply or_else_by_run. intros _. apply IHl; set_solver. }
    by apply E.
  - by apply or_else_by_run.
  - by apply IH.
  - apply or_else_by_run. intros _. apply or_else_by_run. intros _. apply compare_lists_by_run. intros i a b Ha Hb.
    apply or_else_by_run. intros _. rewrite Forall_forall in IH. apply (IH a); [by eapply list_elem_of_lookup_2|].
    intros c Hin. apply Hc. simpl. by eapply (lookups_in_elem (λ a1 a2, lookups a1.2 a2.2)).
Qed.
End values.

(** The characters that the lookup of [v] can look up in the pool of the
    constants [before] are among these, as constants. *)
Definition characters_ready `{CvalueWidth} (deref : Z → const) (before : list Z) (v : Z) : Prop :=
  ∀ w c, w ∈ before → c ∈ lookups (deref w) (deref v) →
  ∃ u, u ∈ before ∧ deref u = char_contents_of c.

Fixpoint characters_first `{CvalueWidth} (deref : Z → const) (before vs : list Z) : Prop :=
  match vs with
  | [] => True
  | v :: vs' => characters_ready deref before v ∧ characters_first deref (before ++ [v]) vs'
  end.

(** ** The order *)

Section proofs.
Context `{CvalueWidth} (deref : Z → const) (deref_ok : ∀ a, const_ok (deref a)).
(** The order of the pool, by the values of the comparisons *)
#[local] Instance pool_order : KeyOrder :=
  {| comp_func := λ v1 v2, const_value_compare_ (deref v1) (deref v2) |}.

#[local] Instance const_order_ok : KeyOrderOk.
Proof.
  split; unfold comp_func, pool_order.
  - intros a b. rewrite !const_value_compare_lex ?deref_ok //.
    rewrite (strcmp_sign_antisym (code (deref b))). lia.
  - intros a b c. rewrite !const_value_compare_lex ?deref_ok //. apply strcmp_sign_trans.
Qed.

(** Every entry of the pool is its own info. *)
Definition pool_entries (l : list entry) : Prop := ∀ e, e ∈ l → e_info e = e_key e.

Definition contents (l : list entry) : list const := (λ e, deref (e_key e)) <$> l.

(** The result [r] for [v] is an entry equal to [v]. *)
Definition answers (l : list entry) (v r : Z) : Prop :=
  ∃ e, e ∈ l ∧ e_key e = r ∧ comp_func r v = 0.

Lemma answers_mono l l' v r : l ⊆ l' → answers l v r → answers l' v r.
Proof. intros Hl (e & He & ? & ?). exists e. split; [by apply Hl|done]. Qed.

(** Equal keys of a sorted pool are one entry. *)
Lemma sorted_equal l e f :
  sorted l → e ∈ l → f ∈ l → comp_func (e_key e) (e_key f) = 0 → e = f.
Proof.
  intros Hs He Hf Hef. apply list_elem_of_split in He as (l1 & l2 & ->).
  apply sorted_others in Hs as [H1 H2].
  apply elem_of_app in Hf as [Hf|[->|Hf]%elem_of_cons]; [|done|]; exfalso.
  - by apply (H1 f Hf), comp_sym.
  - by apply (H2 f Hf), comp_sym.
Qed.

Lemma comp_eq_trans a b c : comp_func a b = 0 → comp_func b c = 0 → comp_func a c = 0.
Proof.
  intros Hab Hbc. pose proof (comp_trans a b c). pose proof (comp_trans c b a).
  rewrite ->comp_sym in Hab, Hbc. pose proof (comp_antisym a c). pose proof (comp_antisym c a).
  pose proof (comp_sym a b). pose proof (comp_sym b c). lia.
Qed.

Lemma answers_unique l v w r s :
  sorted l → answers l v r → answers l w s → comp_func v w = 0 ↔ r = s.
Proof.
  intros Hs (e & He & <- & Hv) (f & Hf & <- & Hw). split.
  - intros Hvw. f_equal. apply (sorted_equal l); [done..|].
    apply (comp_eq_trans _ v); [done|]. apply (comp_eq_trans _ w); [done|]. by apply comp_sym.
  - intros Hk. rewrite <-Hk in Hw. apply (comp_eq_trans _ (e_key e)); [by apply comp_sym|done].
Qed.

(** *** The tree and the list of contents *)

Lemma filter_equal_contents l v :
  filter (λ c, const_value_compare_ c (deref v) = 0) (contents l)
  = contents (filter (λ e, comp_func (e_key e) v = 0) l).
Proof.
  unfold contents. induction l as [|e l IH]; [done|]. rewrite fmap_cons !filter_cons IH.
  by repeat case_decide.
Qed.

Lemma pool_query_tree l p v :
  sorted l → p ≡ₚ contents l →
  pool_query (deref v) p = (λ e, deref (e_key e)) <$> entry_find v l.
Proof.
  intros Hs Hp. unfold pool_query.
  assert (filter (λ c, const_value_compare_ c (deref v) = 0) p
    ≡ₚ contents (filter (λ e, comp_func (e_key e) v = 0) l)) as Hf.
  { by rewrite <-filter_equal_contents, Hp. }
  destruct (entry_find v l) as [e|] eqn:He.
  - apply entry_find_Some in He as [Hin He]. apply list_elem_of_split in Hin as (l1 & l2 & ->).
    assert (filter (λ e, comp_func (e_key e) v = 0) (l1 ++ e :: l2) = [e]) as Hl.
    { destruct (sorted_others _ _ _ Hs) as [H1 H2].
      rewrite filter_app filter_cons_True //.
      assert (∀ l, (∀ x, x ∈ l → comp_func (e_key x) (e_key e) ≠ 0) →
        filter (λ e, comp_func (e_key e) v = 0) l = []) as Hnil.
      { intros l' Hl'. induction l' as [|x l' IH]; [done|].
        rewrite filter_cons_False; [apply IH; intros y Hy; apply Hl'; by right|].
        intros Hx. apply (Hl' x); [by left|]. apply (comp_eq_trans _ v); [done|by apply comp_sym]. }
      by rewrite !Hnil. }
    rewrite Hl in Hf. apply Permutation_singleton_r in Hf. by rewrite Hf.
  - rewrite entry_find_None in He.
    assert (filter (λ e, comp_func (e_key e) v = 0) l = []) as Hl.
    { clear -He. induction l as [|x l IH]; [done|]. rewrite filter_cons_False; [|apply He; by left].
      apply IH. intros y Hy. apply He. by right. }
    rewrite Hl in Hf. apply Permutation_nil_r in Hf. by rewrite Hf.
Qed.

Lemma entry_insert_perm e l : entry_insert e l ≡ₚ e :: l.
Proof.
  induction l as [|f l IH]; simpl; [done|]. destruct (_ <? _); [done|]. by rewrite IH Permutation_swap.
Qed.

(** ** One call *)

Definition pool_step (l : list entry) (v r : Z) (l' : list entry) : Prop :=
  pool_entries l' ∧ l ⊆ l' ∧ (length l' ≤ S (length l))%nat ∧ answers l' v r
  ∧ (∀ e, e ∈ l' → e ∈ l ∨ e_key e = v)
  ∧ ∀ p, p ≡ₚ contents l →
      ∃ p', const_value_return_unique (deref v) p = Ret (deref r, p') ∧ p' ≡ₚ contents l'.

Lemma pool_step_found l v e :
  sorted l → pool_entries l → entry_find v l = Some e → pool_step l v (e_info e) l.
Proof.
  intros Hs Hl He. pose proof (entry_find_Some _ _ _ He) as [Hin Hc]. rewrite Hl //.
  split_and!; [done|done|lia|by exists e|auto|]. intros p Hp. exists p. split; [|done].
  unfold const_value_return_unique. by rewrite (pool_query_tree l) // He.
Qed.

Lemma pool_step_new l v a :
  sorted l → pool_entries l → entry_find v l = None →
  pool_step l v v (entry_insert (a, v, v) l).
Proof.
  intros Hs Hl Hn. split_and!.
  - intros e [->|He]%elem_of_entry_insert; [done|by apply Hl].
  - intros e He. apply elem_of_entry_insert. by right.
  - by rewrite length_entry_insert.
  - exists (a, v, v). split_and!; [apply elem_of_entry_insert; by left|done|apply comp_refl].
  - intros e [->|He]%elem_of_entry_insert; auto.
  - intros p Hp. exists (deref v :: p). split.
    + unfold const_value_return_unique. by rewrite (pool_query_tree l) // Hn.
    + unfold contents. by rewrite entry_insert_perm Hp.
Qed.

(** ** Lookups of characters that are in the pool *)

Context (char_const : Z → Z) (char_const_ok : ∀ c, deref (char_const c) = char_contents_of c).

(** A lookup whose comparisons only compute *)
Definition quiet_return_unique (junk : rb_node) (tree : rb_tree) (fuel : nat) (v : Z) : Heap.M rb_node Z :=
  n ← rb_tree_query tree fuel v;
  if n =? 0 then rb_tree_insert junk tree fuel v v;; mret v
  else rb_node_get_info n.

Section memory.
Context (junk : rb_node) (tree : rb_tree) (fuel : nat).
Notation unique := (return_unique deref char_const junk).

Lemma tree_in_entry m t e : tree_in tree m t → e ∈ inorder t →
  0 < e_addr e ∧ ∃ n, m !! e_addr e = Some n ∧ key n = e_key e ∧ info n = e_info e.
Proof.
  induction t as [|a c k v l IHl r IHr]; [by intros _ ?%not_elem_of_nil|].
  intros (Ha & _ & (p & Hp) & Hl & Hr). cbn [inorder]. rewrite elem_of_app elem_of_cons.
  intros [He|[->|He]]; [by apply IHl| |by apply IHr]. split; [done|]. by eexists.
Qed.

(** A character that is in the pool is found there, and nothing changes. *)
Lemma char_found nesting m t c f :
  pool_memory tree m t → sorted (inorder t) → pool_entries (inorder t) → (height t ≤ fuel)%nat →
  f ∈ inorder t → deref (e_key f) = char_contents_of c →
  ∃ r, unique (S nesting) tree fuel (char_const c) m = Ret (r, m) ∧ deref r = char_contents_of c.
Proof.
  intros Ht Hs Hp Hf Hin Hc. cbn [return_unique]. set (cmp := λ v1 v2, const_value_compare_by _ _ _).
  erewrite bind_run; [|apply (rb_tree_query_by_run tree cmp fuel _ m t); [done| |done]].
  2: { intros e _. unfold cmp, comp_func, pool_order. rewrite char_const_ok. apply compare_by_integer. }
  rewrite rb_find_spec //. destruct (entry_find (char_const c) (inorder t)) as [e|] eqn:He.
  - apply entry_find_Some in He as [Hein Heq]. destruct (tree_in_entry m t e (proj1 Ht) Hein) as (Hpos & n & Hn & _ & Hi).
    cbn [entry_or_null]. rewrite (proj2 (Z.eqb_neq _ 0)); [|lia]. exists (e_info e).
    split; [unfold rb_node_get_info; by rewrite (ld_run _ _ _ _ Hn) Hi|]. rewrite Hp //.
    assert (e = f) as ->; [|done]. apply (sorted_equal (inorder t)); [done..|].
    unfold comp_func, pool_order in *. by rewrite Hc -char_const_ok.
  - rewrite entry_find_None in He. exfalso. apply (He f Hin). unfold comp_func, pool_order.
    rewrite Hc char_const_ok const_value_compare_lex; [apply strcmp_sign_refl|rewrite -char_const_ok; apply deref_ok..].
Qed.

(** All the characters that comparisons with [v] look up are in the pool. *)
Definition ready (l : list entry) (v : Z) : Prop :=
  ∀ e c, e ∈ l → c ∈ lookups (deref (e_key e)) (deref v) →
  ∃ f, f ∈ l ∧ deref (e_key f) = char_contents_of c.

Lemma ready_answers nesting m t v :
  pool_memory tree m t → sorted (inorder t) → pool_entries (inorder t) → (height t ≤ fuel)%nat →
  ready (inorder t) v →
  answers_on (λ v1 v2, const_value_compare_by
    (λ c, r ← unique (S nesting) tree fuel (char_const c); mret (deref r)) (deref v1) (deref v2)) m t v.
Proof.
  intros Ht Hs Hp Hf Hr e He. apply compare_by_run. intros c Hc.
  destruct (Hr e c He Hc) as (f & Hin & Hfc).
  destruct (char_found nesting m t c f Ht Hs Hp Hf Hin Hfc) as (r & Hrun & <-).
  by rewrite (bind_run _ _ _ _ _ Hrun).
Qed.

Lemma return_unique_quiet nesting m t v :
  pool_memory tree m t → sorted (inorder t) → pool_entries (inorder t) → (height t ≤ fuel)%nat →
  ready (inorder t) v →
  unique (S (S nesting)) tree fuel v m = quiet_return_unique junk tree fuel v m.
Proof.
  intros Ht Hs Hp Hf Hr. cbn [return_unique]. unfold quiet_return_unique.
  set (cmp := λ v1 v2, const_value_compare_by _ _ _).
  assert (Ha : ∀ m', pool_memory tree m' t → answers_on cmp m' t v) by (intros; by apply ready_answers).
  assert (Hq : rb_tree_query_by cmp tree fuel v m = Ret (entry_or_null (rb_find v t), m))
    by (apply rb_tree_query_by_run; auto).
  assert (Hq' : rb_tree_query tree fuel v m = Ret (entry_or_null (rb_find v t), m)).
  { rewrite rb_tree_query_computed. by apply rb_tree_query_by_run. }
  rewrite (bind_run _ _ _ _ _ Hq) (bind_run _ _ _ _ _ Hq').
  destruct (_ =? 0) eqn:Hz; [|done]. apply bind_same; [|done].
  unfold rb_tree_insert_by, rb_tree_insert. rewrite (bind_run _ _ _ _ _ Hq) (bind_run _ _ _ _ _ Hq') Hz. cbn [negb].
  apply (rb_tree_add_by_run _ _ _ _ _ _ _ t); [done|]. intros z n Hn. by apply Ha, pool_memory_insert.
Qed.
End memory.

Section wp.
Context `{!ghost_mapG Σ Z rb_node} {γ : gname} {tree : rb_tree} (junk : rb_node).

Lemma rb_rep_sorted l : rb_rep γ tree l -∗ ⌜sorted l⌝.
Proof. iIntros "Hl". by iDestruct "Hl" as (t q (_ & Hs & _)) "_". Qed.

Lemma wp_quiet_return_unique fuel v l Φ :
  enough fuel l → pool_entries l →
  rb_rep γ tree l -∗ (∀ r l', ⌜pool_step l v r l'⌝ -∗ rb_rep γ tree l' -∗ Φ r) -∗
  wp γ (quiet_return_unique junk tree fuel v) Φ.
Proof.
  iIntros (Hf Hl) "Hl HΦ". iDestruct (rb_rep_sorted with "Hl") as %Hs. unfold quiet_return_unique.
  iApply wp_bind. iApply (wp_rb_tree_query with "Hl"); [done|]. iIntros "Hl".
  destruct (entry_find v l) as [e|] eqn:He; cbn [entry_or_null].
  - iDestruct (rb_rep_entry l e with "Hl") as "(%Ha & %n & [%Hk %Hi] & He & Hl)";
      [by apply entry_find_Some in He as [? _]|].
    rewrite (proj2 (Z.eqb_neq _ 0)); [|lia]. unfold rb_node_get_info. wsteps. rewrite Hi.
    iApply ("HΦ" with "[%] [-]"); [by apply pool_step_found|]. by iApply "Hl".
  - cbn. iApply wp_bind. iApply (wp_rb_tree_insert with "Hl"); [done|]. iIntros (a l' Ha) "Hl".
    rewrite He in Ha. destruct Ha as (_ & _ & ->). iApply wp_ret.
    iApply ("HΦ" with "[%] Hl"). by apply pool_step_new.
Qed.

Lemma wp_return_unique nesting fuel v l Φ :
  enough fuel l → pool_entries l → ready l v →
  rb_rep γ tree l -∗ (∀ r l', ⌜pool_step l v r l'⌝ -∗ rb_rep γ tree l' -∗ Φ r) -∗
  wp γ (return_unique deref char_const junk (S (S nesting)) tree fuel v) Φ.
Proof.
  iIntros (Hf Hl Hr) "Hl HΦ". iApply (wp_same with "Hl [HΦ]").
  - intros m t Ht <- Hs [n Hrb]. pose proof (enough_height _ _ _ Hrb Hf).
    apply (return_unique_quiet _ _ _ _ _ t); [done..|lia|done].
  - iIntros "Hl". by iApply (wp_quiet_return_unique with "Hl").
Qed.

(** ** Runs *)

(** The pool after the lookups of [before] *)
Definition pool_of (before : list Z) (l : list entry) : Prop :=
  (∀ e, e ∈ l → e_key e ∈ before) ∧ ∀ u, u ∈ before → ∃ e, e ∈ l ∧ comp_func (e_key e) u = 0.

Lemma pool_of_step before l v r l' : pool_of before l → pool_step l v r l' → pool_of (before ++ [v]) l'.
Proof.
  intros [Hk Hf] (_ & Hsub & _ & (f & Hin & <- & Hc) & Hnew & _). split.
  - intros e He. apply elem_of_app. destruct (Hnew e He) as [Hold|Hnew2]; [left; auto|right; rewrite Hnew2; by left].
  - intros u [Hu|Hu]%elem_of_app.
    + destruct (Hf u Hu) as (e & He & ?). exists e. auto.
    + apply list_elem_of_singleton in Hu as ->. by exists f.
Qed.

Lemma pool_of_ready before l v : pool_of before l → characters_ready deref before v → ready l v.
Proof.
  intros [Hk Hf] Hr e c He Hc. destruct (Hr (e_key e) c (Hk e He) Hc) as (u & Hu & Huc).
  destruct (Hf u Hu) as (f & Hin & Hfu). exists f. split; [done|].
  rewrite -Huc. unfold comp_func, pool_order in Hfu. pose proof (deref_ok u) as Hok.
  rewrite Huc in Hok Hfu |- *. unfold char_contents_of, integer_contents in *.
  by apply compare_integer_eq.
Qed.

Lemma wp_return_unique_all nesting fuel vs : ∀ before l Φ,
  2 * Z.log2 (Z.of_nat (length l + length vs) + 1) + 1 < Z.of_nat fuel → pool_entries l →
  pool_of before l → characters_first deref before vs →
  rb_rep γ tree l -∗
  (∀ rs l', ⌜sorted l' ∧ l ⊆ l' ∧ Forall2 (answers l') vs rs
     ∧ ∀ p, p ≡ₚ contents l →
         ∃ p', unique_contents (deref <$> vs) p = Ret (deref <$> rs, p')⌝ -∗ Φ rs) -∗
  wp γ (return_unique_all deref char_const junk (S (S nesting)) tree fuel vs) Φ.
Proof.
  induction vs as [|v vs IH]; intros before l Φ Hf Hl Hb Hr; cbn [return_unique_all]; iIntros "Hl HΦ".
  - iDestruct (rb_rep_sorted with "Hl") as %Hs. iApply wp_ret. iApply ("HΦ" $! [] l with "[%]").
    split_and!; [done|done|constructor|]. intros p _. by exists p.
  - destruct Hr as [Hr Hrs]. iApply wp_bind. iApply (wp_return_unique with "Hl"); [|done|by eapply pool_of_ready|].
    { unfold enough. pose proof (Z.log2_le_mono (Z.of_nat (length l) + 1)
        (Z.of_nat (length l + length (v :: vs)) + 1) ltac:(lia)). lia. }
    iIntros (r l' Hstep) "Hl". pose proof (pool_of_step _ _ _ _ _ Hb Hstep) as Hb'.
    destruct Hstep as (Hl' & Hsub & Hlen & Hans & _ & Hp). iApply wp_bind. cbn [length] in Hf.
    iApply (IH (before ++ [v]) l' with "Hl"); [|done..|].
    { pose proof (Z.log2_le_mono (Z.of_nat (length l' + length vs) + 1)
        (Z.of_nat (length l + S (length vs)) + 1) ltac:(lia)). lia. }
    iIntros (rs l'' (Hs & Hsub' & Hall & Hps)). iApply wp_ret. iApply ("HΦ" $! (r :: rs) l'' with "[%]").
    split_and!; [done|by etrans|constructor; [by eapply answers_mono|done]|].
    intros p Hperm. destruct (Hp p Hperm) as (p1 & Hp1 & Hperm1). destruct (Hps p1 Hperm1) as (p2 & Hp2).
    exists p2. cbn [fmap list_fmap unique_contents]. unfold mbind, CM_bind. rewrite Hp1.
    cbn. rewrite /fmap in Hp2. by rewrite Hp2.
Qed.
End wp.

Context (junk : rb_node).

(** C7: a run of lookups in the pool, in which the characters that a comparison
    of a C string with a list looks up are in the pool already (as in every run
    that compares no C string with a list), terminates, each loop within twice
    the logarithm of their number, and does what the pool of contents does; two
    constants get the same address exactly when they compare equal, so for
    integers when their size, sign and value are the same.  (A comparison that
    inserts a character into the pool that is being searched can make a second
    copy of a constant: [inserted_character_loses_constant].) *)
Theorem constants_are_unique nesting fuel vs :
  2 * Z.log2 (Z.of_nat (length vs) + 1) + 1 < Z.of_nat fuel → characters_first deref [] vs →
  ∃ rs m p, pool_session deref char_const junk (S (S nesting)) fuel vs ∅ = Ret (rs, m)
    ∧ unique_contents (deref <$> vs) [] = Ret (deref <$> rs, p)
    ∧ (∀ i j v w r s, vs !! i = Some v → vs !! j = Some w → rs !! i = Some r → rs !! j = Some s →
         (const_value_compare_ (deref v) (deref w) = 0 ↔ r = s)
         ∧ (∀ sign n z, deref v = CInteger sign n z → deref w = deref v ↔ r = s)).
Proof.
  intros Hf Hfirst. destruct (wp_adequacy (pool_session deref char_const junk (S (S nesting)) fuel vs) (λ rs, ∃ l p,
    sorted l ∧ Forall2 (answers l) vs rs ∧ unique_contents (deref <$> vs) [] = Ret (deref <$> rs, p)))
    as (rs & m & Hr & l & p & Hs & Hall & Hp).
  { iIntros (Σ HΣ γ). unfold pool_session. destruct vs as [|v vs'] eqn:Hvs.
    { iApply wp_ret. iPureIntro. exists [], []. split_and!; [constructor|constructor|done]. }
    iApply wp_bind. iApply wp_rb_tree_create. iIntros (tree) "Hl".
    iApply (wp_return_unique_all with "Hl"); [done|by intros e ?%not_elem_of_nil| |exact Hfirst|].
    { split; [by intros e ?%not_elem_of_nil|by intros u ?%not_elem_of_nil]. }
    iIntros (rs l (Hs & _ & Hall & Hp)). destruct (Hp []) as (p & Hp'); [done|].
    iPureIntro. by exists l, p. }
  exists rs, m, p. split_and!; [done..|]. intros i j v w r s Hv Hw Hrv Hrw.
  pose proof (Forall2_lookup_lr _ _ _ _ _ _ Hall Hv Hrv) as Hav.
  pose proof (Forall2_lookup_lr _ _ _ _ _ _ Hall Hw Hrw) as Haw.
  pose proof (answers_unique l v w r s Hs Hav Haw) as Hu. split; [done|].
  intros sign n z Hint. rewrite <-Hu. unfold comp_func, pool_order. split.
  - intros ->. rewrite const_value_compare_lex ?deref_ok //. apply strcmp_sign_refl.
  - intros Hc. pose proof (deref_ok v) as Hok. rewrite Hint in Hok Hc |- *.
    apply compare_integer_eq; [apply deref_ok|done|].
    rewrite const_value_compare_lex ?deref_ok // in Hc. rewrite const_value_compare_lex ?deref_ok //.
    rewrite strcmp_sign_antisym Hc //.
Qed.
End proofs.

(** ** A concrete pool *)

Section samples.
#[local] Instance host128 : CvalueWidth := {| HAVE_INT128 := true |}.

(** Two constants 5 and one 6, of type [int], the addresses of a string and of
    the list of its characters, of two other strings and of a list, and at 1000
    and above the characters. *)
Definition char_const (c : Z) : Z := 1000 + c mod 256.

Definition sample_constants (a : Z) : const :=
  if 1000 <=? a then char_contents_of (a - 1000)
  else if a =? 10 then CInteger true 4 5 else if a =? 11 then CInteger true 4 6
  else if a =? 12 then CInteger true 4 5 else if a =? 13 then CAddress (CCString [97; 98] false)
  else if a =? 14 then CAddress (CElements MString [CInteger false 1 97; CInteger false 1 98])
  else if a =? 15 then CAddress (CCString [102] false) else if a =? 16 then CAddress (CCString [101] false)
  else if a =? 17 then CAddress (CElements MString [CInteger false 1 101])
  else CUnknown.

Lemma schar_mod c : schar (c mod 256) = schar c.
Proof. unfold schar, wraps. f_equal. change (2 ^ 8) with 256. by rewrite Zplus_mod_idemp_l. Qed.

Lemma char_const_ok c : sample_constants (char_const c) = char_contents_of c.
Proof.
  unfold sample_constants, char_const. pose proof (Z.mod_pos_bound c 256 ltac:(lia)).
  rewrite (proj2 (Z.leb_le _ _)); [|lia]. replace (1000 + c mod 256 - 1000) with (c mod 256) by lia.
  unfold char_contents_of. by rewrite schar_mod.
Qed.

Lemma char_contents_ok c : const_ok (char_contents_of c).
Proof.
  unfold char_contents_of. rewrite <-schar_mod. pose proof (Z.mod_pos_bound c 256 ltac:(lia)).
  rewrite char_contents; [|lia]. constructor; [by vm_compute| |simpl; lia].
  assert (2 ^ 8 ≤ 2 ^ W) by (apply Z.pow_le_mono_r; destruct W_cases; lia). lia.
Qed.

Lemma sample_constants_ok a : const_ok (sample_constants a).
Proof.
  assert (Hint : ∀ s n i, 0 ≤ n ≤ 16 → 0 ≤ i < 256 → (s = false → i < 2 ^ (8 * n)) → const_ok (CInteger s n i)).
  { intros s n i Hn Hi Hs. apply ok_integer; [done| |auto]. assert (2 ^ 8 ≤ 2 ^ W) by (by vm_compute). lia. }
  unfold sample_constants. destruct (1000 <=? a); [apply char_contents_ok|].
  repeat case_match; repeat first [lia | done | apply Hint | constructor].
Qed.

(** The characters come before the address of the string. *)
Definition sample_lookups : list Z := [10; 11; 12; 1097; 1098; 13; 14].

Lemma no_lookups before v :
  Forall (λ w, lookups (sample_constants w) (sample_constants v) = []) before →
  characters_ready sample_constants before v.
Proof.
  intros Hl w c Hw Hc. rewrite Forall_forall in Hl. rewrite (Hl w Hw) in Hc. by apply not_elem_of_nil in Hc.
Qed.

Lemma sample_lookups_first : characters_first sample_constants [] sample_lookups.
Proof.
  unfold sample_lookups. cbn [characters_first app].
  do 6 (split; [apply no_lookups; repeat (apply Forall_cons_2; [vm_compute; reflexivity|]); apply Forall_nil_2|]).
  split; [|exact I]. intros w c Hw Hc. destruct (decide (w = 13)) as [->|Hne].
  - assert (lookups (sample_constants 13) (sample_constants 14) = [97; 98]) as E by (vm_compute; reflexivity).
    rewrite E in Hc. rewrite !elem_of_cons elem_of_nil in Hc. destruct Hc as [->|[->|[]]].
    + exists 1097. split; [apply (bool_decide_unpack _); vm_compute; exact I|vm_compute; reflexivity].
    + exists 1098. split; [apply (bool_decide_unpack _); vm_compute; exact I|vm_compute; reflexivity].
  - assert (Hnil : Forall (λ w, w = 13 ∨ lookups (sample_constants w) (sample_constants 14) = []) [10; 11; 12; 1097; 1098; 13]).
    { repeat (apply Forall_cons_2; [first [left; reflexivity | right; vm_compute; reflexivity]|]). apply Forall_nil_2. }
    rewrite Forall_forall in Hnil. destruct (Hnil w Hw) as [?|E]; [done|]. rewrite E in Hc. by apply not_elem_of_nil in Hc.
Qed.

Lemma constants_are_unique_witness :
  ∃ rs m p, pool_session sample_constants char_const sample_junk 2 8 sample_lookups ∅ = Ret (rs, m)
    ∧ unique_contents (sample_constants <$> sample_lookups) [] = Ret (sample_constants <$> rs, p)
    ∧ (∀ i j v w r s, sample_lookups !! i = Some v → sample_lookups !! j = Some w →
         rs !! i = Some r → rs !! j = Some s →
         (const_value_compare_ (sample_constants v) (sample_constants w) = 0 ↔ r = s)
         ∧ (∀ sign n z, sample_constants v = CInteger sign n z →
              sample_constants w = sample_constants v ↔ r = s)).
Proof.
  apply (constants_are_unique sample_constants sample_constants_ok char_const char_const_ok sample_junk 0 8);
    [done|exact sample_lookups_first].
Defined.

Example sample_pool :
  fst <$> pool_session sample_constants char_const sample_junk 2 8 sample_lookups ∅
  = Ret [10; 11; 10; 1097; 1098; 13; 13].
Proof. by vm_compute. Qed.

(** ['e'] and ['d'] are in the pool, and the addresses of ["f"] and of ["e"];
    the search for the address of the list of ['e'] compares it with the address
    of ["f"] first, which inserts ['f'] and rotates the tree under the search:
    the address of ["e"] is not found, and there are two addresses for it. *)
Example inserted_character_loses_constant :
  fst <$> pool_session sample_constants char_const sample_junk 2 20 [15; 1101; 1100; 16; 17] ∅
  = Ret [15; 1101; 1100; 16; 17]
  ∧ const_value_compare_ (sample_constants 16) (sample_constants 17) = 0
  ∧ fst <$> pool_session sample_constants char_const sample_junk 2 20 [1102; 15; 1101; 1100; 16; 17] ∅
  = Ret [1102; 15; 1101; 1100; 16; 16].
Proof. by vm_compute. Qed.

(** A negative zero is the positive zero of the pool. *)
Example negative_zero_lost :
  fst <$> unique_contents [CFloating KDouble (S754_zero false); CFloating KDouble (S754_zero true)] []
  = Ret [CFloating KDouble (S754_zero false); CFloating KDouble (S754_zero false)].
Proof. by vm_compute. Qed.
End samples.
