(* ===== verification/ConstEnum.v ===== *)
(** * Integer types by their values: limits, minimal types and enumerations

    The limits of the integer types and the smallest type of a value
    ([frontend/cxx-cexpr.c]), and the values and the underlying type that
    [gather_type_spec_from_enum_specifier] gives to an enumeration
    ([frontend/cxx-buildscope.c]). *)

From S2P Require Import Prelude TypeEnviron ConstValue ConstOrder ConstFold ConstFoldProps ConstElements.

(** ** Predicates of [frontend/cxx-typeutils.c] on the built-in types *)

Definition is_char_type (t : builtin_type) : bool :=
  match builtin t with BT_CHAR => negb (is_signed t) && negb (is_unsigned t) | _ => false end.

Definition is_signed_char_type (t : builtin_type) : bool :=
  match builtin t with BT_CHAR => is_signed t && negb (is_unsigned t) | _ => false end.

Definition is_unsigned_char_type (t : builtin_type) : bool :=
  match builtin t with BT_CHAR => negb (is_signed t) && is_unsigned t | _ => false end.

(** In C++; in C the type is the integer type itself. *)
Definition is_wchar_t_type (t : builtin_type) : bool :=
  match builtin t with BT_WCHAR => true | _ => false end.

(** [is_signed_int_type] and so on: the sign, [is_short] and [is_long] of the
    type. *)
Definition is_int_type (sign short : bool) (long : Z) (t : builtin_type) : bool :=
  match builtin t with
  | BT_INT =>
      (if sign then is_signed t && negb (is_unsigned t) else negb (is_signed t) && is_unsigned t)
      && (is_long t =? long) && eqb (is_short t) short
  | _ => false
  end.

Definition is_signed_short_int_type := is_int_type true true 0.
Definition is_signed_int_type := is_int_type true false 0.
Definition is_signed_long_int_type := is_int_type true false 1.
Definition is_signed_long_long_int_type := is_int_type true false 2.
Definition is_signed_int128_type := is_int_type true false 3.
Definition is_unsigned_short_int_type := is_int_type false true 0.
Definition is_unsigned_int_type := is_int_type false false 0.
Definition is_unsigned_long_int_type := is_int_type false false 1.
Definition is_unsigned_long_long_int_type := is_int_type false false 2.
Definition is_unsigned_int128_type := is_int_type false false 3.

(** Types other than [wchar_t] of C++. *)
Definition is_signed_integral_type (t : builtin_type) : bool :=
  is_signed_char_type t || is_signed_short_int_type t || is_signed_int_type t
  || is_signed_long_int_type t || is_signed_long_long_int_type t || is_signed_int128_type t.

Definition is_unsigned_integral_type (t : builtin_type) : bool :=
  is_unsigned_char_type t || is_unsigned_short_int_type t || is_unsigned_int_type t
  || is_unsigned_long_int_type t || is_unsigned_long_long_int_type t || is_unsigned_int128_type t.

Section types.
Context `{CvalueWidth} (e : type_environment).

(** ** Limits *)

(** A plain [char] or a [wchar_t] stands for an integer type. *)
Definition underlying_integer (t : builtin_type) : res builtin_type :=
  if is_char_type t then f ← get (char_type e); Ret (call_type_function e f)
  else if is_wchar_t_type t then f ← get (int_type_of_wchar_t e); Ret (call_type_function e f)
  else Ret t.

(** [mask >>= 8*(sizeof(cvalue_uint_t) - type_get_size(t)) + 1] *)
Definition signed_mask (t : builtin_type) : Z :=
  Z.shiftr (unot 0) (8 * (W / 8 - bt_size t) + 1).

Definition integer_type_get_minimum (t : builtin_type) : CM const :=
  t ← lift (underlying_integer t);
  if is_unsigned_char_type t || is_unsigned_short_int_type t || is_unsigned_long_int_type t
     || is_unsigned_long_long_int_type t || is_unsigned_int_type t
  then const_value_get_zero (bt_size t) false
  else if is_signed_char_type t || is_signed_short_int_type t || is_signed_long_int_type t
     || is_signed_long_long_int_type t || is_signed_int_type t
  then const_value_get_integer (unot (signed_mask t)) (bt_size t) true
  else cfail Aborted.

Definition integer_type_get_maximum (t : builtin_type) : CM const :=
  t ← lift (underlying_integer t);
  if is_unsigned_integral_type t then
    let mask := unot 0 in
    let mask := if bt_size t <? 8 then Z.land mask (unot (ushl (unot 0) (bt_size t * 8))) else mask in
    const_value_get_integer mask (bt_size t) false
  else if is_signed_integral_type t then
    const_value_get_integer (signed_mask t) (bt_size t) true
  else cfail Aborted.

(** ** The smallest type of a value *)

Definition safe_compute_bitmask (is_signed : bool) (size_in_bytes : Z) : Z :=
  let shift := 8 * size_in_bytes - (if is_signed then 1 else 0) in
  if shift =? W then 0
  else if shift <? W then ushl (unot 0) shift else 0.

(** A list of types with the masks of the bits that their values have not. *)
Definition type_masks (is_signed : bool) (types : list builtin_type) : list (builtin_type * Z) :=
  (λ t, (t, safe_compute_bitmask is_signed (bt_size t))) <$> types.

Definition find_type (fits : Z → bool) (masks : list (builtin_type * Z)) : option builtin_type :=
  fst <$> List.find (λ tm, fits tm.2) masks.

Definition get_minimal_integer_for_value_ (is_signed : bool) (value : Z)
    (unsigned_type_mask signed_type_mask : list (builtin_type * Z)) : option builtin_type :=
  if negb is_signed then find_type (λ mask, Z.land value mask =? 0) unsigned_type_mask
  else
    let is_negative := Z.shiftr (Z.land value (ushl 1 (W - 1))) (W - 1) in
    if is_negative =? 0 then find_type (λ mask, Z.land value mask =? 0) signed_type_mask
    else find_type (λ mask, Z.land (unot value) (ushl mask 1) =? 0) signed_type_mask.

Definition int128_types (t : builtin_type) : list builtin_type := if HAVE_INT128 then [t] else [].

Definition unsigned_types_from_int : list builtin_type :=
  [get_unsigned_int_type e; get_unsigned_long_int_type e; get_unsigned_long_long_int_type e]
  ++ int128_types get_unsigned_int128_type.
Definition signed_types_from_int : list builtin_type :=
  [get_signed_int_type e; get_signed_long_int_type e; get_signed_long_long_int_type e]
  ++ int128_types get_signed_int128_type.
Definition unsigned_types : list builtin_type :=
  [get_unsigned_char_type; get_unsigned_short_int_type e] ++ unsigned_types_from_int.
Definition signed_types : list builtin_type :=
  [get_signed_char_type; get_signed_short_int_type e] ++ signed_types_from_int.

Definition get_minimal_integer_for_value_at_least_signed_int (is_signed : bool) (value : Z) :
    option builtin_type :=
  get_minimal_integer_for_value_ is_signed value
    (type_masks false unsigned_types_from_int) (type_masks true signed_types_from_int).

Definition get_minimal_integer_for_value (is_signed : bool) (value : Z) : option builtin_type :=
  get_minimal_integer_for_value_ is_signed value
    (type_masks false unsigned_types) (type_masks true signed_types).

(** The field of the integer is read whatever the kind of the constant is. *)
Definition const_value_get_minimal_integer_type (val : const) : res (option builtin_type) :=
  match val with CInteger sign _ i => Ret (get_minimal_integer_for_value sign i) | _ => Err Undef end.

Definition const_value_get_minimal_integer_for_value_at_least_signed_int (val : const) :
    res (option builtin_type) :=
  match val with
  | CInteger sign _ i => Ret (get_minimal_integer_for_value_at_least_signed_int sign i)
  | _ => Err Undef
  end.

(** The types are tried one by one. *)
Fixpoint minimal_integer_type_from_list (value : Z) (types : list builtin_type) :
    option builtin_type :=
  match types with
  | [] => None
  | t :: types' =>
      let masks := type_masks (is_signed_integral_type t) [t] in
      match get_minimal_integer_for_value_ (is_signed_integral_type t) value masks masks with
      | Some result => Some result
      | None => minimal_integer_type_from_list value types'
      end
  end.

Definition const_value_get_minimal_integer_type_from_list_of_types (value : Z)
    (types : list builtin_type) : res (option builtin_type) :=
  match types with [] => Err Aborted | _ => Ret (minimal_integer_type_from_list value types) end.

(** ** Enumerations *)

(** [B_(const_value_lte(a, b))] and [B_(const_value_lt(a, b))] *)
Definition rel_holds (op : rel_op) (a b : const) : CM bool :=
  c ← const_value_rel e 1 op a b; c ← deref_const c; const_value_is_nonzero c.

(** [checked_types]: pairs of a signed and an unsigned type; a flag of the
    compiler starts the search at [char]. *)
Definition checked_types (short_enums : bool) : list (builtin_type * builtin_type) :=
  (if short_enums
   then [(get_signed_char_type, get_unsigned_char_type);
         (get_signed_short_int_type e, get_unsigned_short_int_type e)]
   else [])
  ++ [(get_signed_int_type e, get_unsigned_int_type e);
      (get_signed_long_int_type e, get_unsigned_long_int_type e);
      (get_signed_long_long_int_type e, get_unsigned_long_long_int_type e)].

Definition type_holds_range (t : builtin_type) (min_value max_value : const) : CM bool :=
  min_int ← integer_type_get_minimum t; max_int ← integer_type_get_maximum t;
  b ← rel_holds OpLte min_int min_value;
  if (b : bool) then rel_holds OpLte max_value max_int else mret false.

Fixpoint underlying_type_loop (min_value max_value : const)
    (types : list (builtin_type * builtin_type)) : CM builtin_type :=
  match types with
  | [] => cfail Aborted
  | (signed_type, unsigned_type) :: types' =>
      b ← type_holds_range signed_type min_value max_value;
      if (b : bool) then mret signed_type else
      b ← type_holds_range unsigned_type min_value max_value;
      if (b : bool) then mret unsigned_type else underlying_type_loop min_value max_value types'
  end.

Definition compute_underlying_type_enum (min_value max_value : const) (short_enums : bool) :
    CM builtin_type :=
  underlying_type_loop min_value max_value (checked_types short_enums).

(** The state of the loop over the enumerators: the last enumerator with a
    value of its own, the distance to it, the extreme values so far, and the
    underlying type. *)
Record enum_state := EnumState {
  base_enumerator : option const; delta : Z; min_value : option const; max_value : option const;
  underlying_type : builtin_type }.

(** An enumerator with the constant of its expression, or without expression.
    (Expressions that are erroneous or depend on template parameters, and
    enumerations with a fixed underlying type, are left out.) *)
Definition enumerator_value (st : enum_state) (expr : option const) : CM (const * option const * Z) :=
  match expr with
  | Some c => mret (c, Some c, 1)
  | None =>
      match base_enumerator st with
      | None => zero ← const_value_get_signed_int e 0; mret (zero, Some zero, 1)
      | Some base_const =>
          d ← const_value_get_signed_int e (delta st);
          sum ← const_value_arith 1 OpAdd base_const d; sum ← deref_const sum;
          val_plus_one ← const_value_cast_to_bytes sum (const_num_bytes base_const)
            (const_sign base_const);
          mret (val_plus_one, Some base_const, delta st + 1)
      end
  end.

(** [if (m == NULL || B_(const_value_lt(a, b))) m = current;] where one of [a]
    and [b] is [m] *)
Definition update_extreme (lower : bool) (m : option const) (current : const) : CM const :=
  match m with
  | None => mret current
  | Some m =>
      b ← (if lower then rel_holds OpLt current m else rel_holds OpLt m current);
      mret (if (b : bool) then current else m)
  end.

Definition enumerator_step (short_enums : bool) (st : enum_state) (expr : option const) :
    CM (const * enum_state) :=
  '(value, base, delta) ← enumerator_value st expr;
  min ← update_extreme true (min_value st) value;
  max ← update_extreme false (max_value st) value;
  t ← compute_underlying_type_enum min max short_enums;
  mret (value, EnumState base delta (Some min) (Some max) t).

Fixpoint enumerators_loop (short_enums : bool) (st : enum_state) (exprs : list (option const)) :
    CM (list const * enum_state) :=
  match exprs with
  | [] => mret ([], st)
  | expr :: exprs' =>
      '(v, st) ← enumerator_step short_enums st expr;
      '(vs, st) ← enumerators_loop short_enums st exprs';
      mret (v :: vs, st)
  end.

(** The values of the enumerators and the underlying type, which is
    [int] before the first one. *)
Definition gather_enumerators (short_enums : bool) (exprs : list (option const)) :
    CM (list const * builtin_type) :=
  '(vs, st) ← enumerators_loop short_enums
    (EnumState None 0 None None (get_signed_int_type e)) exprs;
  mret (vs, underlying_type st).
End types.
