(* ===== verification/ConstEnumProps.v ===== *)
(** * Limits, minimal types and enumerations: properties *)

From S2P Require Import Prelude TypeEnviron ConstValue ConstOrder ConstFold ConstFoldProps.
From S2P Require Import ConstElements ConstEnum.

(** ** Masks *)

Section masks.
Context `{CvalueWidth}.

Lemma W_pos : 0 < W.
Proof. destruct W_cases; lia. Qed.

Lemma unot_0 : unot 0 = Z.ones W.
Proof.
  pose proof W_pos. unfold unot, ucast, wrapu. change (Z.lnot 0) with (-1).
  rewrite Z.ones_equiv. rewrite <-(Z.mod_add (-1) 1) by lia.
  rewrite Z.mod_small by lia. lia.
Qed.

Lemma unot_ucast z : unot (ucast z) = ucast (- z - 1).
Proof.
  unfold unot, ucast, wrapu.
  replace (Z.lnot (z mod 2 ^ W)) with (-1 - z mod 2 ^ W) by (unfold Z.lnot; lia).
  rewrite Zminus_mod_idemp_r. f_equal. lia.
Qed.

(** The mask of the limits of a signed type of [n] bytes. *)
Lemma signed_mask_ones t : 0 < bt_size t ≤ W / 8 → signed_mask t = 2 ^ (8 * bt_size t - 1) - 1.
Proof.
  intros Hn. pose proof W_bytes. unfold signed_mask. rewrite unot_0.
  rewrite Z.shiftr_div_pow2 by lia.
  rewrite Z.ones_div_pow2 by lia. rewrite Z.ones_equiv, Z.sub_1_r. do 2 f_equal. lia.
Qed.

(** The masks of [safe_compute_bitmask] are the high bits. *)
Lemma high_bits value k :
  0 ≤ k < W → 0 ≤ value < 2 ^ W →
  Z.land value (ushl (unot 0) k) = Z.shiftl (Z.shiftr value k) k.
Proof.
  intros Hk Hv. pose proof W_pos as HW. apply (low_bits_eq value W) in Hv; [|lia].
  rewrite unot_0. unfold ushl, ucast, wrapu. rewrite <-Z.land_ones by lia.
  apply Z.bits_inj'. intros i Hi. rewrite !Z.land_spec, !Z.shiftl_spec by lia.
  assert (Z.testbit value i = Z.testbit value i && (i <? W)) as Hb.
  { rewrite <-(Z.testbit_ones_nonneg W i), <-Z.land_spec, Hv by lia. done. }
  destruct (Z.lt_ge_cases i k) as [Hik|Hik].
  - rewrite !(Z.testbit_neg_r _ (i - k)) by lia. simpl. by rewrite andb_false_r.
  - rewrite Z.shiftr_spec, !Z.testbit_ones_nonneg by lia. replace (i - k + k) with i by lia.
    rewrite Hb at 2. destruct (Z.testbit value i); [|done]. destruct (Z.ltb_spec i W); [|by rewrite andb_false_r].
    by rewrite (proj2 (Z.ltb_lt (i - k) W)) by lia.
Qed.

Lemma high_bits_zero value k :
  0 ≤ k < W → 0 ≤ value < 2 ^ W → (Z.land value (ushl (unot 0) k) =? 0) = (value <? 2 ^ k).
Proof.
  intros Hk Hv. rewrite high_bits, Z.shiftl_mul_pow2, Z.shiftr_div_pow2 by lia.
  assert (0 < 2 ^ k) by (apply Z.pow_pos_nonneg; lia).
  destruct (Z.ltb_spec value (2 ^ k)) as [Hlt|Hge].
  - by rewrite Z.div_small by lia.
  - apply Z.eqb_neq. pose proof (Z.div_le_lower_bound value (2 ^ k) 1). nia.
Qed.
End masks.

(** ** Limits *)

Definition type_min (sign : bool) (n : Z) : Z := if sign then - 2 ^ (8 * n - 1) else 0.
Definition type_max (sign : bool) (n : Z) : Z := if sign then 2 ^ (8 * n - 1) - 1 else 2 ^ (8 * n) - 1.

(** The integer types from [char] to [long long]. *)
Definition standard_type (sign : bool) (t : builtin_type) : bool :=
  if sign
  then is_signed_char_type t || is_signed_short_int_type t || is_signed_long_int_type t
       || is_signed_long_long_int_type t || is_signed_int_type t
  else is_unsigned_char_type t || is_unsigned_short_int_type t || is_unsigned_long_int_type t
       || is_unsigned_long_long_int_type t || is_unsigned_int_type t.

Section limits.
Context `{CvalueWidth} (e : type_environment).

Lemma standard_sign t : standard_type true t = true → standard_type false t = false ∧ is_unsigned_integral_type t = false.
Proof.
  unfold standard_type, is_unsigned_integral_type, is_signed_char_type, is_unsigned_char_type,
    is_signed_short_int_type, is_signed_long_int_type, is_signed_long_long_int_type,
    is_signed_int_type, is_unsigned_short_int_type, is_unsigned_long_int_type,
    is_unsigned_long_long_int_type, is_unsigned_int_type, is_unsigned_int128_type, is_int_type.
  by destruct (builtin t), (is_signed t), (is_unsigned t).
Qed.

Lemma standard_integral sign t :
  standard_type sign t = true →
  (if sign then is_signed_integral_type t else is_unsigned_integral_type t) = true.
Proof.
  unfold standard_type, is_signed_integral_type, is_unsigned_integral_type.
  destruct sign; rewrite !orb_true_iff; tauto.
Qed.

Lemma get_integer_of n value sign z :
  0 < n ≤ W / 8 → value = ucast z →
  returns (const_value_get_integer value n sign) (typed sign n (if sign then z else z mod 2 ^ (8 * n))).
Proof. intros Hn ->. by apply get_typed. Qed.

Lemma limits_typed sign t t' :
  underlying_integer e t = Ret t' → standard_type sign t' = true → 0 < bt_size t' ≤ W / 8 →
  returns (integer_type_get_minimum e t) (typed sign (bt_size t') (type_min sign (bt_size t')))
  ∧ returns (integer_type_get_maximum e t) (typed sign (bt_size t') (type_max sign (bt_size t'))).
Proof.
  intros Ht Hstd Hn. pose proof (standard_integral _ _ Hstd) as Hint. pose proof W_bytes.
  pose proof (pow_bits_le _ Hn). pose proof pow2_W.
  assert (0 < 2 ^ (8 * bt_size t' - 1)) by (apply Z.pow_pos_nonneg; lia).
  assert (0 < 2 ^ (8 * bt_size t')) by (apply Z.pow_pos_nonneg; lia).
  split; (eapply returns_bind; [by apply returns_lift|]); destruct sign.
  - fold (standard_type false t') (standard_type true t').
    rewrite (proj1 (standard_sign _ Hstd)), Hstd.
    apply (get_integer_of _ _ true); [done|]. rewrite signed_mask_ones by done.
    rewrite <-(ucast_small (2 ^ _ - 1)), unot_ucast by lia. f_equal. unfold type_min. lia.
  - fold (standard_type false t'). rewrite Hstd. unfold const_value_get_zero.
    eapply returns_eq; [apply (get_integer_of _ 0 false 0); [done|]|].
    + symmetry. apply ucast_small. lia.
    + unfold type_min. by rewrite Z.mod_0_l by lia.
  - rewrite (proj2 (standard_sign _ Hstd)), Hint.
    apply (get_integer_of _ _ true); [done|]. rewrite signed_mask_ones by done.
    symmetry. apply ucast_small. unfold type_max. lia.
  - rewrite Hint, unot_0. unfold type_max.
    replace (2 ^ (8 * bt_size t') - 1) with (Z.ones (8 * bt_size t')) by (rewrite Z.ones_equiv; lia).
    assert (0 ≤ Z.ones W < 2 ^ W) as Hones by (rewrite Z.ones_equiv; lia).
    destruct (Z.ltb_spec (bt_size t') 8) as [Hlt|Hge].
    + rewrite <-unot_0, Z.mul_comm, mask_low by (rewrite ?unot_0; destruct W_cases; lia).
      rewrite unot_0, Z.ones_mod_pow2 by lia.
      eapply returns_eq; [apply (get_integer_of _ _ false (Z.ones (8 * bt_size t'))); [done|]|].
      * symmetry. apply ucast_small. rewrite Z.ones_equiv. lia.
      * rewrite Z.mod_small; [done|]. rewrite Z.ones_equiv. lia.
    + eapply returns_eq; [apply (get_integer_of _ _ false (Z.ones W)); [done|]|].
      * symmetry. by apply ucast_small.
      * by rewrite Z.ones_mod_pow2 by lia.
Qed.

(** The constants that the compiler takes for the limits of an integer type
    are the least and the greatest value of the type, in the type; a plain
    [char] or [wchar_t] has the limits of its integer type. *)
Theorem integer_type_limits sign t t' :
  underlying_integer e t = Ret t' → standard_type sign t' = true → 0 < bt_size t' ≤ W / 8 →
  returns (integer_type_get_minimum e t) (typed sign (bt_size t') (type_min sign (bt_size t')))
  ∧ returns (integer_type_get_maximum e t) (typed sign (bt_size t') (type_max sign (bt_size t'))).
Proof. apply limits_typed. Qed.
End limits.

(** ** Minimal types *)

Section minimal.
Context `{CvalueWidth}.

Lemma find_type_masks fits sign types (p : builtin_type → bool) :
  (∀ t, t ∈ types → fits (safe_compute_bitmask sign (bt_size t)) = p t) →
  find_type fits (type_masks sign types) = List.find p types.
Proof.
  induction types as [|t types IH]; intros Hp; [done|]. unfold find_type in *. simpl.
  rewrite (Hp t) by left. destruct (p t); [done|]. apply IH. intros t' Ht. apply Hp. by right.
Qed.

(** A mask of the bits from [k] on, as [safe_compute_bitmask] makes it. *)
Lemma bitmask_fits sign n value :
  0 < n → 0 ≤ value < 2 ^ W →
  (Z.land value (safe_compute_bitmask sign n) =? 0)
  = (value <? 2 ^ (8 * n - (if sign then 1 else 0))).
Proof.
  intros Hn Hv. unfold safe_compute_bitmask.
  assert (0 ≤ 8 * n - (if sign then 1 else 0)) as Hk by (destruct sign; lia).
  generalize dependent (8 * n - (if sign then 1 else 0)). intros k Hk. cbv zeta.
  destruct (Z.eqb_spec k W) as [->|Hne]; [|destruct (Z.ltb_spec k W) as [Hlt|Hge]].
  - rewrite Z.land_0_r. symmetry. apply Z.ltb_lt. lia.
  - by apply high_bits_zero.
  - rewrite Z.land_0_r. symmetry. apply Z.ltb_lt. eapply Z.lt_le_trans; [apply Hv|].
    apply Z.pow_le_mono_r; lia.
Qed.

(** ... shifted to the left. *)
Lemma shifted_bitmask_fits n value :
  0 < n → 0 ≤ value < 2 ^ W →
  (Z.land value (ushl (safe_compute_bitmask true n) 1) =? 0) = (value <? 2 ^ (8 * n)).
Proof.
  intros Hn Hv. pose proof W_pos. pose proof W_bytes. unfold safe_compute_bitmask.
  assert (∀ a, 2 ^ W ≤ 2 ^ a → (Z.land value (ushl 0 1) =? 0) = (value <? 2 ^ a)) as Hzero.
  { intros a Ha. unfold ushl, ucast, wrapu. rewrite Z.shiftl_0_l, Z.mod_0_l, Z.land_0_r by lia.
    symmetry. apply Z.ltb_lt. lia. }
  destruct (Z.eqb_spec (8 * n - 1) W) as [Heq|Hne].
  { apply Hzero, Z.pow_le_mono_r; lia. }
  destruct (Z.ltb_spec (8 * n - 1) W) as [Hlt|Hge].
  - assert (ushl (ushl (unot 0) (8 * n - 1)) 1 = ushl (unot 0) (8 * n)) as ->.
    { unfold ushl, ucast, wrapu. rewrite !Z.shiftl_mul_pow2, Z.mul_mod_idemp_l by lia.
      f_equal. rewrite <-Z.mul_assoc, <-Z.pow_add_r by lia. do 2 f_equal. lia. }
    destruct (Z.lt_ge_cases (8 * n) W) as [Hlt'|Hge']; [by apply high_bits_zero; [lia|]|].
    replace (8 * n) with W by lia. unfold ushl, ucast, wrapu.
    rewrite Z.shiftl_mul_pow2, Z.mod_mul, Z.land_0_r by lia. symmetry. apply Z.ltb_lt. lia.
  - apply Hzero, Z.pow_le_mono_r; lia.
Qed.

Lemma scast_cases value :
  0 ≤ value < 2 ^ W →
  scast value = if value <? 2 ^ (W - 1) then value else value - 2 ^ W.
Proof.
  intros Hv. pose proof pow2_W. pose proof one_small. destruct (Z.ltb_spec value (2 ^ (W - 1))).
  - apply scast_small. lia.
  - unfold scast, wraps.
    replace (value + 2 ^ (W - 1)) with (value - 2 ^ (W - 1) + 1 * 2 ^ W) by lia.
    rewrite Z.mod_add, Z.mod_small by lia. lia.
Qed.

Lemma sign_bit value :
  0 ≤ value < 2 ^ W →
  (Z.shiftr (Z.land value (ushl 1 (W - 1))) (W - 1) =? 0) = (0 <=? scast value).
Proof.
  intros Hv. pose proof W_pos. pose proof pow2_W as HW2. pose proof one_small as H1.
  assert (0 ≤ W - 1) by lia.
  assert (ushl 1 (W - 1) = 2 ^ (W - 1)) as ->.
  { unfold ushl. rewrite Z.shiftl_1_l. apply ucast_small. lia. }
  rewrite Z.shiftr_land, !Z.shiftr_div_pow2, (Z.div_same (2 ^ (W - 1))) by lia.
  pose proof (Z.land_ones (value / 2 ^ (W - 1)) 1 ltac:(lia)) as Hland.
  change (Z.ones 1) with 1 in Hland. change (2 ^ 1) with 2 in Hland. rewrite Hland.
  rewrite scast_cases by done. destruct (Z.ltb_spec value (2 ^ (W - 1))) as [Hlt|Hge].
  - rewrite Z.div_small by lia. symmetry. apply Z.leb_le. lia.
  - assert (value / 2 ^ (W - 1) = 1) as ->.
    { symmetry. apply (Z.div_unique _ _ _ (value - 2 ^ (W - 1))); lia. }
    symmetry. apply Z.leb_gt. lia.
Qed.

Definition sizes_positive (types : list builtin_type) : Prop := ∀ t, t ∈ types → 0 < bt_size t.

(** The minimal type of a value is the first of the list that has the value;
    but a negative value is looked for with one bit too many, so the first type
    of [n] bytes with [-2^(8n)] not above the value is taken. *)
Theorem minimal_integer_type is_signed value ts us :
  0 ≤ value < 2 ^ W → sizes_positive ts → sizes_positive us →
  let z := value_field is_signed value in
  get_minimal_integer_for_value_ is_signed value (type_masks false us) (type_masks true ts)
  = if 0 <=? z
    then List.find (λ t, in_type is_signed (bt_size t) z) (if is_signed then ts else us)
    else List.find (λ t, - 2 ^ (8 * bt_size t) <=? z) ts.
Proof.
  intros Hv Hts Hus. pose proof pow2_W. unfold get_minimal_integer_for_value_, value_field. simpl.
  destruct is_signed; cbn [negb].
  - rewrite sign_bit by done. destruct (Z.leb_spec 0 (scast value)) as [Hz|Hz].
    + assert (scast value = value) as ->.
      { rewrite scast_cases in * by done. destruct (_ <? _); lia. }
      apply find_type_masks. intros t Ht. specialize (Hts t Ht).
      rewrite bitmask_fits by done. unfold in_type.
      assert (0 < 2 ^ (8 * bt_size t - 1)) by (apply Z.pow_pos_nonneg; lia).
      by rewrite (proj2 (Z.leb_le (- 2 ^ (8 * bt_size t - 1)) value)) by lia.
    + apply find_type_masks. intros t Ht. specialize (Hts t Ht). pose proof (scast_range value).
      assert (unot value = - scast value - 1) as Hnot.
      { rewrite <-(ucast_small value) at 1 by done. rewrite unot_ucast.
        rewrite <-(ucast_small (- scast value - 1)) by lia. rewrite scast_cases in * by done.
        destruct (_ <? _); [lia|]. unfold ucast, wrapu.
        rewrite <-(Z.mod_add (- value - 1) 1) by lia. f_equal. lia. }
      rewrite Hnot, shifted_bitmask_fits by lia.
      destruct (Z.leb_spec (- 2 ^ (8 * bt_size t)) (scast value)); [apply Z.ltb_lt|apply Z.ltb_ge]; lia.
  - rewrite (proj2 (Z.leb_le 0 value)) by lia. apply find_type_masks. intros t Ht. specialize (Hus t Ht).
    rewrite bitmask_fits, Z.sub_0_r by done. unfold in_type.
    by rewrite (proj2 (Z.leb_le 0 value)) by lia.
Qed.
End minimal.
