(* ===== verification/ConstEnumSpec.v ===== *)
(** * Enumerations of [int] constants

    The values and the underlying type of an enumeration whose constants are of
    type [int], against the rules of C: an enumerator without constant is one
    more than the one before, and the underlying type is the first of the
    compiler's list that has all the values.  The rest of the file are the
    enumerations of constants of several types, for which the comparisons of the
    compiler go wrong. *)

From S2P Require Import Prelude TypeEnviron ConstValue ConstOrder ConstFold ConstFoldProps.
From S2P Require Import ConstElements ConstEnum ConstEnumProps.

(** ** The rules of C *)

Fixpoint c_enumerators (next : Z) (exprs : list (option Z)) : list Z :=
  match exprs with
  | [] => []
  | expr :: exprs' => let v := default next expr in v :: c_enumerators (v + 1) exprs'
  end.

(** The type has the value. *)
Definition type_has (t : builtin_type) (z : Z) : bool := in_type (is_signed t) (bt_size t) z.

Definition candidates (types : list (builtin_type * builtin_type)) : list builtin_type :=
  concat (map (λ su, [su.1; su.2]) types).

Definition first_type (types : list (builtin_type * builtin_type)) (zs : list Z) : option builtin_type :=
  List.find (λ t, forallb (type_has t) zs) (candidates types).

Section enum.
Context `{CvalueWidth} (e : type_environment).
Context (Hint : 0 ≤ sizeof_signed_int e ≤ MCXX_MAX_BYTES_INTEGER).

(** ** Comparisons of constants of different sizes *)

Lemma is_nonzero_bool n b : returns (const_value_is_nonzero (typed true n (Z.b2z b))) b.
Proof. simpl. rewrite ucast_b2z. eapply returns_eq; [apply returns_ret|by destruct b]. Qed.

Lemma rel_holds_signed op s1 n1 x s2 n2 y :
  (common_bytes (typed s1 n1 x) (typed s2 n2 y)).2 = true →
  - 2 ^ (W - 1) ≤ x < 2 ^ (W - 1) → - 2 ^ (W - 1) ≤ y < 2 ^ (W - 1) →
  returns (rel_holds e op (typed s1 n1 x) (typed s2 n2 y)) (int_rel op x y).
Proof.
  intros Hc Hx Hy. unfold rel_holds. eapply (returns_bind _ _ (Some (const_bool e (int_rel op x y)))).
  - cbn [const_value_rel typed]. fold (typed s1 n1 x) (typed s2 n2 y).
    destruct (common_bytes _ _) as [m s]. simpl in Hc. subst s. cbn [value_field].
    rewrite !scast_ucast, !scast_small by done.
    eapply returns_bind; [by apply get_const_bool|apply returns_ret].
  - eapply returns_bind; [apply returns_ret|apply is_nonzero_bool].
Qed.

(** The common type of a constant of a signed type of [n] bytes and one of a
    smaller type, or of a signed type, is signed. *)
Lemma common_sign s m x n y :
  s = true ∨ m < n → (common_bytes (typed s m x) (typed true n y)).2 = true
  ∧ (common_bytes (typed true n y) (typed s m x)).2 = true.
Proof.
  intros Hs. unfold common_bytes, typed. simpl.
  destruct (Z.eqb_spec m n), (Z.eqb_spec n m), (Z.ltb_spec n m), (Z.ltb_spec m n), s; simpl; try done;
    exfalso; destruct Hs; (done || lia).
Qed.

Lemma type_limits_range s n :
  0 < n ≤ W / 8 → (s = true ∨ n < W / 8) →
  - 2 ^ (W - 1) ≤ type_min s n ∧ type_max s n < 2 ^ (W - 1)
  ∧ type_min s n ≤ 0 ≤ type_max s n.
Proof.
  intros Hn Hs. pose proof (pow_bits_le n Hn) as [_ Hp]. pose proof one_small.
  assert (0 < 2 ^ (8 * n - 1)) by (apply Z.pow_pos_nonneg; lia).
  assert (0 < 2 ^ (8 * n)) by (apply Z.pow_pos_nonneg; lia).
  unfold type_min, type_max. destruct s; [lia|].
  assert (2 ^ (8 * n) ≤ 2 ^ (W - 1)); [|lia]. apply Z.pow_le_mono_r; [lia|].
  pose proof W_bytes. destruct Hs; [done|lia].
Qed.

Lemma in_type_limits s n z : in_type s n z = (type_min s n <=? z) && (z <=? type_max s n).
Proof.
  unfold in_type, type_min, type_max. destruct s; f_equal.
  - by destruct (Z.ltb_spec z (2 ^ (8 * n - 1))), (Z.leb_spec z (2 ^ (8 * n - 1) - 1)); try lia.
  - by destruct (Z.ltb_spec z (2 ^ (8 * n))), (Z.leb_spec z (2 ^ (8 * n) - 1)); try lia.
Qed.

(** A type is tried against the extreme values [lo] and [hi] of a signed type of
    [n] bytes. *)
Lemma type_holds_range_returns t s lo hi n :
  underlying_integer e t = Ret t → standard_type s t = true → is_signed t = s →
  0 < bt_size t ≤ W / 8 → 0 < n ≤ W / 8 → s = true ∨ bt_size t < n →
  in_type true n lo = true → in_type true n hi = true → lo ≤ hi →
  returns (type_holds_range e t (typed true n lo) (typed true n hi)) (type_has t lo && type_has t hi).
Proof.
  intros Hu Hstd Hsign Ht Hn Hs Hlo Hhi Hle.
  destruct (limits_typed e s t t Hu Hstd Ht) as [Hmin Hmax].
  destruct (type_limits_range s (bt_size t) Ht) as (Hr1 & Hr2 & Hr3); [destruct Hs; [by left|right; lia]|].
  pose proof (pow_bits_le n Hn) as [_ Hp]. unfold in_type in Hlo, Hhi. zbool.
  unfold type_holds_range. eapply returns_bind; [done|]. eapply returns_bind; [done|].
  eapply returns_bind; [apply rel_holds_signed; [by apply common_sign|lia|lia]|].
  unfold type_has. rewrite Hsign, !in_type_limits. cbn [int_rel].
  destruct (Z.leb_spec (type_min s (bt_size t)) lo) as [Hmlo|Hmlo]; cbn [andb].
  - eapply returns_eq; [apply rel_holds_signed; [by apply common_sign|lia|lia]|]. cbn [int_rel].
    rewrite (proj2 (Z.leb_le (type_min s (bt_size t)) hi)) by lia. cbn [andb].
    destruct (Z.leb_spec hi (type_max s (bt_size t))) as [Hh|Hh]; [|by rewrite andb_false_r].
    by rewrite (proj2 (Z.leb_le lo _)) by lia.
  - apply returns_ret.
Qed.

(** ** The underlying type of an interval *)

Definition type_ok (sign : bool) (t : builtin_type) : Prop :=
  underlying_integer e t = Ret t ∧ standard_type sign t = true ∧ is_signed t = sign
  ∧ 0 < bt_size t ≤ W / 8.

Definition pair_ok (su : builtin_type * builtin_type) : Prop :=
  type_ok true su.1 ∧ type_ok false su.2 ∧ bt_size su.1 = bt_size su.2.

Lemma first_type_cons s u types zs :
  first_type ((s, u) :: types) zs =
  if forallb (type_has s) zs then Some s
  else if forallb (type_has u) zs then Some u else first_type types zs.
Proof. done. Qed.

(** The search ends at the signed type of [n] bytes at the latest. *)
Lemma underlying_type_loop_first s u post lo hi n pre :
  0 < n ≤ W / 8 → Forall pair_ok (pre ++ (s, u) :: post) →
  Forall (λ su, bt_size su.1 ≤ n) pre → bt_size s = n →
  in_type true n lo = true → in_type true n hi = true → lo ≤ hi →
  ∃ t, first_type (pre ++ (s, u) :: post) [lo; hi] = Some t
    ∧ returns (underlying_type_loop e (typed true n lo) (typed true n hi) (pre ++ (s, u) :: post)) t.
Proof.
  intros Hn Hok Hpre Hs Hlo Hhi Hle. induction pre as [|[s' u'] pre IH]; simpl in Hok |- *.
  - apply Forall_cons in Hok as [[(Hu & Hstd & Hsign & Ht) _] _]. cbn [fst snd] in *.
    rewrite first_type_cons. exists s. unfold forallb, type_has. rewrite Hsign, Hs, Hlo, Hhi. split; [done|].
    eapply returns_bind; [apply (type_holds_range_returns s true lo hi n); by auto|].
    unfold type_has. rewrite Hsign, Hs, Hlo, Hhi. apply returns_ret.
  - apply Forall_cons in Hok as [[(Hu & Hstd & Hsign & Ht) [(Hu' & Hstd' & Hsign' & Ht') Hsize]] Hok].
    apply Forall_cons in Hpre as [Hle' Hpre]. cbn [fst snd] in *. rewrite first_type_cons. cbn [forallb].
    rewrite !andb_true_r.
    assert (returns (type_holds_range e s' (typed true n lo) (typed true n hi))
      (type_has s' lo && type_has s' hi)) as Hb
      by (apply (type_holds_range_returns s' true); by auto).
    destruct (type_has s' lo && type_has s' hi) eqn:Hs'.
    { exists s'. split; [done|]. eapply returns_bind; [done|apply returns_ret]. }
    assert (bt_size s' ≠ n) as Hne.
    { intros Heq. unfold type_has in Hs'. by rewrite Hsign, Heq, Hlo, Hhi in Hs'. }
    assert (returns (type_holds_range e u' (typed true n lo) (typed true n hi))
      (type_has u' lo && type_has u' hi)) as Hb'.
    { apply (type_holds_range_returns u' false); auto. right. lia. }
    destruct (type_has u' lo && type_has u' hi) eqn:Hu''.
    { exists u'. split; [done|]. eapply returns_bind; [done|].
      eapply returns_bind; [done|apply returns_ret]. }
    destruct (IH Hok Hpre) as (t & Ht1 & Ht2). exists t. split; [done|].
    eapply returns_bind; [done|]. by eapply returns_bind; [done|].
Qed.

(** ** Values and extremes *)

(** An interval of values is in a type when its ends are. *)
Lemma first_type_interval types zs lo hi :
  lo ∈ zs → hi ∈ zs → Forall (λ z, lo ≤ z ≤ hi) zs → first_type types zs = first_type types [lo; hi].
Proof.
  intros Hlo Hhi Hzs. unfold first_type.
  assert (∀ t, forallb (type_has t) zs = forallb (type_has t) [lo; hi]) as Heq.
  { intros t. apply eq_bool_prop_intro. rewrite !Is_true_true, !forallb_forall. split.
    - intros Hall z [<-|[<-|[]]]; apply Hall; by apply list_elem_of_In.
    - intros Hall z Hz%list_elem_of_In. rewrite Forall_forall in Hzs. specialize (Hzs z Hz).
      pose proof (Hall lo ltac:(by left)) as H1. pose proof (Hall hi ltac:(by right; left)) as H2.
      unfold type_has in *. rewrite in_type_limits in *. zbool.
      apply andb_true_iff. rewrite !Z.leb_le. lia. }
  induction (candidates types) as [|t ts IH]; [done|]. simpl find. by rewrite Heq, IH.
Qed.

Lemma update_extreme_returns lower n m z :
  0 < n ≤ W / 8 → in_type true n m = true → in_type true n z = true →
  returns (update_extreme e lower (Some (typed true n m)) (typed true n z))
    (typed true n (if lower then Z.min m z else Z.max m z)).
Proof.
  intros Hn Hm Hz. pose proof (pow_bits_le n Hn) as [_ Hp]. unfold in_type in Hm, Hz. zbool.
  unfold update_extreme. eapply (returns_bind _ _ (if lower then z <? m else m <? z)).
  - destruct lower; (eapply returns_eq; [apply rel_holds_signed; [apply common_sign; by left|lia|lia]|done]).
  - eapply returns_eq; [apply returns_ret|]. destruct lower; split_if; f_equal; lia.
Qed.
End enum.

(** ** The loop over the enumerators *)

Section loop.
Context `{CvalueWidth} (e : type_environment) (short_enums : bool).
Notation n := (sizeof_signed_int e).
Context (Hord : integers_ordered e = true) (Hmax : sizeof_signed_long_long e ≤ W / 8).

Lemma int_size : 0 < n ≤ W / 8 ∧ 0 ≤ n ≤ MCXX_MAX_BYTES_INTEGER.
Proof.
  unfold integers_ordered in Hord. zbool. assert (0 < n ≤ W / 8) by lia.
  split; [done|]. by apply bytes_le_max.
Qed.

(** The list of types around [int] and [unsigned int]. *)
Definition types_below : list (builtin_type * builtin_type) :=
  if short_enums
  then [(get_signed_char_type, get_unsigned_char_type);
        (get_signed_short_int_type e, get_unsigned_short_int_type e)]
  else [].
Definition types_above : list (builtin_type * builtin_type) :=
  [(get_signed_long_int_type e, get_unsigned_long_int_type e);
   (get_signed_long_long_int_type e, get_unsigned_long_long_int_type e)].

Lemma checked_types_ok :
  Forall (pair_ok e) (types_below ++ (get_signed_int_type e, get_unsigned_int_type e) :: types_above)
  ∧ Forall (λ su, bt_size su.1 ≤ n) types_below.
Proof.
  unfold integers_ordered in Hord. zbool. unfold types_below, types_above.
  destruct short_enums; simpl; repeat constructor; simpl; try done; lia.
Qed.

Lemma underlying_returns lo hi zs :
  in_type true n lo = true → in_type true n hi = true → lo ≤ hi →
  lo ∈ zs → hi ∈ zs → Forall (λ z, lo ≤ z ≤ hi) zs →
  ∃ t, first_type (checked_types e short_enums) zs = Some t
    ∧ returns (compute_underlying_type_enum e (typed true n lo) (typed true n hi) short_enums) t.
Proof.
  intros Hlo Hhi Hle Hloin Hhiin Hzs. destruct int_size as [Hn He].
  destruct checked_types_ok as [Hok Hpre].
  rewrite (first_type_interval _ zs lo hi) by done.
  apply (underlying_type_loop_first e He (get_signed_int_type e) (get_unsigned_int_type e)
    types_above lo hi n types_below); done.
Qed.

(** The state after the enumerators [seen], when the next value is [next]. *)
Definition state_ok (seen : list Z) (next : Z) (st : enum_state) : Prop :=
  match seen with
  | [] => next = 0 ∧ base_enumerator st = None ∧ min_value st = None ∧ max_value st = None
  | _ => ∃ b lo hi,
      base_enumerator st = Some (typed true n b) ∧ in_type true n b = true
      ∧ 1 ≤ delta st ≤ Z.of_nat (length seen) ∧ b + delta st = next
      ∧ min_value st = Some (typed true n lo) ∧ max_value st = Some (typed true n hi)
      ∧ in_type true n lo = true ∧ in_type true n hi = true
      ∧ lo ∈ seen ∧ hi ∈ seen ∧ Forall (λ z, lo ≤ z ≤ hi) seen
      ∧ first_type (checked_types e short_enums) seen = Some (underlying_type st)
  end.

Definition typed_expr (z : option Z) : option const := typed true n <$> z.

Lemma get_signed_int_typed z : returns (const_value_get_signed_int e z) (typed true n z).
Proof.
  destruct int_size as [Hn _]. unfold const_value_get_signed_int.
  eapply returns_eq; [by apply get_typed|done].
Qed.

(** The value of an enumerator, the base and the distance to it. *)
Lemma enumerator_value_returns seen next st expr :
  state_ok seen next st → Z.of_nat (length seen) < 2 ^ (8 * n - 1) →
  in_type true n (default next expr) = true →
  ∃ b d, returns (enumerator_value e st (typed_expr expr))
      (typed true n (default next expr), Some (typed true n b), d)
    ∧ in_type true n b = true ∧ 1 ≤ d ≤ Z.of_nat (S (length seen)) ∧ b + d = default next expr + 1.
Proof.
  intros Hst Hlen Hv. destruct int_size as [Hn _]. destruct expr as [z|]; simpl in Hv |- *.
  { exists z, 1. split_and!; [apply returns_ret|done|lia|lia|lia]. }
  assert (0 < 2 ^ (8 * n - 1)) by (apply Z.pow_pos_nonneg; lia).
  destruct seen as [|s seen]; unfold state_ok in Hst.
  - destruct Hst as (-> & Hbase & _). exists 0, 1. unfold enumerator_value. rewrite Hbase.
    split_and!; [|done|lia|simpl; lia|lia]. eapply returns_bind; [apply get_signed_int_typed|apply returns_ret].
  - destruct Hst as (b & lo & hi & Hbase & Hb & Hd & <- & _). exists b, (delta st + 1).
    unfold enumerator_value. rewrite Hbase. split_and!; [|done|lia|simpl in *; lia|lia].
    assert (in_type true n (delta st) = true) as Hdt.
    { unfold in_type. apply andb_true_iff. rewrite Z.leb_le, Z.ltb_lt. lia. }
    eapply returns_bind; [apply get_signed_int_typed|].
    eapply returns_bind.
    { eapply returns_bind; [|apply returns_ret].
      apply (arith_typed true n Hn OpAdd b (delta st) (b + delta st)); [done..|].
      simpl. unfold c_value. by rewrite Hv. }
    eapply returns_bind; [apply returns_ret|].
    eapply returns_bind; [|apply returns_ret]. simpl.
    eapply returns_eq; [by apply get_typed|done].
Qed.

(** The extreme values after one more enumerator. *)
Lemma extremes_returns seen next st v :
  state_ok seen next st → in_type true n v = true →
  ∃ lo hi, returns (update_extreme e true (min_value st) (typed true n v)) (typed true n lo)
    ∧ returns (update_extreme e false (max_value st) (typed true n v)) (typed true n hi)
    ∧ in_type true n lo = true ∧ in_type true n hi = true
    ∧ lo ∈ seen ++ [v] ∧ hi ∈ seen ++ [v] ∧ Forall (λ z, lo ≤ z ≤ hi) (seen ++ [v]).
Proof.
  intros Hst Hv. destruct int_size as [Hn He]. destruct seen as [|s seen].
  - destruct Hst as (_ & _ & -> & ->). exists v, v. split_and!; try done; try by left.
    + apply returns_ret.
    + apply returns_ret.
    + repeat constructor; lia.
  - destruct Hst as (b & lo & hi & _ & _ & _ & _ & -> & -> & Hlo & Hhi & Hloin & Hhiin & Hall & _).
    exists (Z.min lo v), (Z.max hi v).
    split_and!; try (apply update_extreme_returns; by auto).
    + destruct (Z.min_spec lo v) as [[_ ->]|[_ ->]]; done.
    + destruct (Z.max_spec hi v) as [[_ ->]|[_ ->]]; done.
    + apply elem_of_app. destruct (Z.min_spec lo v) as [[_ ->]|[_ ->]]; [by left|right; by left].
    + apply elem_of_app. destruct (Z.max_spec hi v) as [[_ ->]|[_ ->]]; [right; by left|by left].
    + apply Forall_app. split; [|repeat constructor; lia].
      eapply Forall_impl; [done|]. simpl. lia.
Qed.

Lemma enumerator_step_returns seen next st expr :
  state_ok seen next st → Z.of_nat (length seen) < 2 ^ (8 * n - 1) →
  in_type true n (default next expr) = true →
  ∃ st', returns (enumerator_step e short_enums st (typed_expr expr))
      (typed true n (default next expr), st')
    ∧ state_ok (seen ++ [default next expr]) (default next expr + 1) st'.
Proof.
  intros Hst Hlen Hv. set (v := default next expr) in *.
  destruct (enumerator_value_returns seen next st expr) as (b & d & Hval & Hb & Hd & Hbd); [done..|].
  destruct (extremes_returns seen next st v) as (lo & hi & Hmin & Hmax' & Hlo & Hhi & Hloin & Hhiin & Hall);
    [done..|].
  destruct (underlying_returns lo hi (seen ++ [v])) as (t & Ht & Hret); [done|done| |done..|].
  { rewrite Forall_forall in Hall. specialize (Hall lo Hloin). lia. }
  eexists. split.
  - unfold enumerator_step. eapply returns_bind; [exact Hval|]. cbv beta iota.
    eapply returns_bind; [exact Hmin|]. eapply returns_bind; [exact Hmax'|].
    eapply returns_bind; [exact Hret|]. apply returns_ret.
  - unfold state_ok. destruct (seen ++ [v]) as [|x l] eqn:Hl; [by destruct seen|]. rewrite <-Hl in *.
    exists b, lo, hi. simpl. split_and!; try done; [lia|]. rewrite length_app. simpl. lia.
Qed.

Lemma enumerators_loop_returns exprs : ∀ seen next st,
  state_ok seen next st → Z.of_nat (length seen + length exprs) ≤ 2 ^ (8 * n - 1) →
  Forall (λ z, in_type true n z = true) (c_enumerators next exprs) →
  ∃ st', returns (enumerators_loop e short_enums st (typed_expr <$> exprs))
      (typed true n <$> c_enumerators next exprs, st')
    ∧ ∃ next', state_ok (seen ++ c_enumerators next exprs) next' st'.
Proof.
  induction exprs as [|expr exprs IH]; intros seen next st Hst Hlen Hall.
  - exists st. split; [apply returns_ret|]. exists next. by rewrite app_nil_r.
  - cbn [c_enumerators] in *. apply Forall_cons in Hall as [Hv Hall]. simpl in Hlen.
    destruct (enumerator_step_returns seen next st expr) as (st1 & Hstep & Hst1); [done|lia|done|].
    destruct (IH _ _ st1 Hst1) as (st2 & Hloop & next' & Hst2); [rewrite length_app; simpl; lia|done|].
    exists st2. split.
    + cbn [fmap list_fmap enumerators_loop]. eapply returns_bind; [exact Hstep|]. cbv beta iota.
      eapply returns_bind; [exact Hloop|]. apply returns_ret.
    + exists next'. by rewrite <-app_assoc in Hst2.
Qed.

(** C25: an enumeration whose values are of type [int] terminates without error,
    gives every enumerator the value of C and takes for its underlying type the
    first type of the list ([int] before [unsigned int], then the longer ones,
    with the shorter ones before when enumerations are short) that has all the
    values. *)
Theorem enumeration_of_int_constants exprs :
  exprs ≠ [] → Z.of_nat (length exprs) ≤ 2 ^ (8 * n - 1) →
  Forall (λ z, in_type true n z = true) (c_enumerators 0 exprs) →
  ∃ t, first_type (checked_types e short_enums) (c_enumerators 0 exprs) = Some t
    ∧ returns (gather_enumerators e short_enums (typed_expr <$> exprs))
        (typed true n <$> c_enumerators 0 exprs, t).
Proof.
  intros Hne Hlen Hall.
  destruct (enumerators_loop_returns exprs [] 0 (EnumState None 0 None None (get_signed_int_type e)))
    as (st & Hloop & next & Hst); [done|done|done|]. simpl in Hst.
  destruct exprs as [|expr exprs]; [done|]. simpl in Hst.
  destruct Hst as (b & lo & hi & _ & _ & _ & _ & _ & _ & _ & _ & _ & _ & _ & Ht).
  exists (underlying_type st). split; [done|]. unfold gather_enumerators.
  eapply returns_bind; [exact Hloop|]. apply returns_ret.
Qed.
End loop.

(** ** Concrete enumerations *)

Section samples.
#[local] Instance host128 : CvalueWidth := {| HAVE_INT128 := true |}.

(** [enum { A, B = -2, C, D = 300 }], with short enumerations *)
Lemma enumeration_of_int_constants_witness :
  ∃ t, first_type (checked_types amd64 true) [0; -2; -1; 300] = Some t
    ∧ returns (gather_enumerators amd64 true (typed_expr amd64 <$> [None; Some (-2); None; Some 300]))
        (typed true 4 <$> [0; -2; -1; 300], t).
Proof.
  apply (enumeration_of_int_constants amd64 true ltac:(by vm_compute) ltac:(by vm_compute)
    [None; Some (-2); None; Some 300]); [done|by vm_compute|repeat constructor].
Defined.

Lemma integer_type_limits_witness :
  returns (integer_type_get_minimum amd64 (get_signed_short_int_type amd64)) (typed true 2 (-32768))
  ∧ returns (integer_type_get_maximum amd64 (get_signed_short_int_type amd64)) (typed true 2 32767).
Proof.
  apply (integer_type_limits amd64 true (get_signed_short_int_type amd64) (get_signed_short_int_type amd64));
    by vm_compute.
Defined.

Lemma minimal_integer_type_witness :
  get_minimal_integer_for_value_ true 200 (type_masks false (unsigned_types amd64))
    (type_masks true (signed_types amd64)) = Some (get_signed_short_int_type amd64).
Proof.
  rewrite (minimal_integer_type true 200 (signed_types amd64) (unsigned_types amd64));
    [by vm_compute|by vm_compute| |].
  - intros t Ht. repeat (apply elem_of_cons in Ht as [->|Ht]; [by vm_compute|]). by apply not_elem_of_nil in Ht.
  - intros t Ht. repeat (apply elem_of_cons in Ht as [->|Ht]; [by vm_compute|]). by apply not_elem_of_nil in Ht.
Defined.

(** -200 is given the type [signed char]. *)
Lemma minimal_type_of_negative :
  const_value_get_minimal_integer_type amd64 (typed true 4 (-200)) = Ret (Some get_signed_char_type).
Proof. by vm_compute. Qed.

Definition underlying_of (consts : list const) : res builtin_type :=
  p ← gather_enumerators amd64 false (Some <$> consts) []; Ret p.1.2.

(** [enum { A = -1, B = 3000000000 }] is given [unsigned int], [enum { A = -1,
    B = 5u }] is given [long], and [enum { A = -1, B = 5ul }] is an internal
    error. *)
Lemma mixed_enumerations :
  underlying_of [typed true 4 (-1); typed true 8 3000000000] = Ret (get_unsigned_int_type amd64)
  ∧ underlying_of [typed true 4 (-1); typed false 4 5] = Ret (get_signed_long_int_type amd64)
  ∧ underlying_of [typed true 4 (-1); typed false 8 5] = Err Aborted.
Proof. by vm_compute. Qed.
End samples.
