(* ===== verification/RefCount.v ===== *)
(** * Reference counts with collection of cycles: [lib/mcxx_refcount.c]

    Counted objects and the synchronous cycle collector of Bacon and Rajan.
    An object is its header and the pointers that the [walk] function of its
    descriptor visits; an address is an integer and [NULL] is 0.  The globals of
    the file (the buffer of roots and the set of objects to free) and the memory
    make the state.  [walk] and [dealloc] are functions of the clients of the
    library: the model takes the list of pointers that [walk] passes to its
    argument, and records the objects that are given to [dealloc] and freed;
    [dealloc] is taken not to use the library.

    The functions that walk objects call each other along the pointers, and so
    take the depth of the calls as fuel. *)

From S2P Require Import Prelude.
#[local] Open Scope Z_scope.

(** ** State *)

Inductive colour := BLACK | GRAY | WHITE | PURPLE.

#[export] Instance colour_eq_dec : EqDecision colour.
Proof. solve_decision. Defined.

Record object := Object {
  children : list Z; count : Z; buffered : bool; colour_of : colour }.

#[export] Instance object_eq_dec : EqDecision object.
Proof. solve_decision. Defined.

(** [deallocated] lists the objects that were freed, in order. *)
Record rc_state := RcState {
  objects : gmap Z object; roots : list Z; free_set : list Z; deallocated : list Z }.

Definition MCXX_MAX_ROOTS : Z := 1024.

(** Assignments to the fields of a header. *)
Definition with_count (n : Z) (o : object) : object :=
  Object (children o) n (buffered o) (colour_of o).
Definition with_buffered (b : bool) (o : object) : object :=
  Object (children o) (count o) b (colour_of o).
Definition with_colour (c : colour) (o : object) : object :=
  Object (children o) (count o) (buffered o) c.

Definition put (p : Z) (o : object) (s : rc_state) : rc_state :=
  RcState (<[p := o]> (objects s)) (roots s) (free_set s) (deallocated s).
Definition with_roots (l : list Z) (s : rc_state) : rc_state :=
  RcState (objects s) l (free_set s) (deallocated s).
Definition with_free_set (l : list Z) (s : rc_state) : rc_state :=
  RcState (objects s) (roots s) l (deallocated s).

(** [GET_REFCOUNT_OBJ]: the header of an object that has been freed cannot be
    read. *)
Definition header (p : Z) (s : rc_state) : res object := get (objects s !! p).

(** [refp->count++] and [refp->count--] on an [int] *)
Definition add_count (d : Z) (o : object) : res object :=
  if (- 2 ^ 31 <=? count o + d) && (count o + d <? 2 ^ 31)
  then Ret (with_count (count o + d) o) else Err Undef.

Fixpoint walk (f : Z → rc_state → res rc_state) (ps : list Z) (s : rc_state) : res rc_state :=
  match ps with
  | [] => Ret s
  | p :: ps' => s' ← f p s; walk f ps' s'
  end.

(** ** The set of objects to free *)

Definition mcxx_add_to_free_set (p : Z) (s : rc_state) : rc_state :=
  if decide (p ∈ free_set s) then s else with_free_set (free_set s ++ [p]) s.

(** [dealloc], then [xfree] of the header and its object *)
Definition release_object (p : Z) (s : rc_state) : res rc_state :=
  _ ← header p s;
  Ret (RcState (delete p (objects s)) (roots s) (free_set s) (deallocated s ++ [p])).

Definition mcxx_release_free_set (s : rc_state) : res rc_state :=
  s ← walk release_object (free_set s) s; Ret (with_free_set [] s).

(** ** Collection of cycles *)

Definition mcxx_markgray_aux (markgray : Z → rc_state → res rc_state) (p : Z) (s : rc_state) :
    res rc_state :=
  if p =? 0 then Ret s else
  o ← header p s; o ← add_count (-1) o; markgray p (put p o s).

Fixpoint mcxx_markgray (fuel : nat) (p : Z) (s : rc_state) : res rc_state :=
  match fuel with
  | O => Err NoFuel
  | S fuel' =>
      if p =? 0 then Ret s else
      o ← header p s;
      if decide (colour_of o = GRAY) then Ret s
      else walk (mcxx_markgray_aux (mcxx_markgray fuel')) (children o) (put p (with_colour GRAY o) s)
  end.

Definition mcxx_scanblack_aux (scanblack : Z → rc_state → res rc_state) (p : Z) (s : rc_state) :
    res rc_state :=
  if p =? 0 then Ret s else
  o ← header p s; o ← add_count 1 o;
  let s := put p o s in
  if decide (colour_of o = BLACK) then Ret s else scanblack p s.

Fixpoint mcxx_scanblack (fuel : nat) (p : Z) (s : rc_state) : res rc_state :=
  match fuel with
  | O => Err NoFuel
  | S fuel' =>
      if p =? 0 then Ret s else
      o ← header p s;
      walk (mcxx_scanblack_aux (mcxx_scanblack fuel')) (children o) (put p (with_colour BLACK o) s)
  end.

Fixpoint mcxx_scan (fuel : nat) (p : Z) (s : rc_state) : res rc_state :=
  match fuel with
  | O => Err NoFuel
  | S fuel' =>
      if p =? 0 then Ret s else
      o ← header p s;
      if decide (colour_of o = GRAY) then
        if 0 <? count o then mcxx_scanblack fuel' p s
        else walk (mcxx_scan fuel') (children o) (put p (with_colour WHITE o) s)
      else Ret s
  end.

Fixpoint mcxx_collectwhite (fuel : nat) (p : Z) (s : rc_state) : res rc_state :=
  match fuel with
  | O => Err NoFuel
  | S fuel' =>
      if p =? 0 then Ret s else
      o ← header p s;
      if decide (colour_of o = WHITE ∧ buffered o = false) then
        s ← walk (mcxx_collectwhite fuel') (children o) (put p (with_colour BLACK o) s);
        Ret (mcxx_add_to_free_set p s)
      else Ret s
  end.

(** The first occurrence of [p] is removed. *)
Fixpoint remove_root (p : Z) (l : list Z) : list Z :=
  match l with
  | [] => []
  | q :: l' => if decide (q = p) then l' else q :: remove_root p l'
  end.

Definition mcxx_remove_from_roots (p : Z) (s : rc_state) : rc_state :=
  with_roots (remove_root p (roots s)) s.

(** The body of the loop of [mcxx_markroots], which goes over a copy of the
    roots. *)
Definition mark_root (fuel : nat) (p : Z) (s : rc_state) : res rc_state :=
  o ← header p s;
  if decide (colour_of o = PURPLE) then mcxx_markgray fuel p s
  else
    let o := with_buffered false o in
    let s := mcxx_remove_from_roots p (put p o s) in
    Ret (if decide (colour_of o = BLACK ∧ count o = 0) then mcxx_add_to_free_set p s else s).

Definition mcxx_markroots (fuel : nat) (s : rc_state) : res rc_state :=
  walk (mark_root fuel) (roots s) s.

Definition mcxx_scanroots (fuel : nat) (s : rc_state) : res rc_state :=
  walk (mcxx_scan fuel) (roots s) s.

Definition collect_root (fuel : nat) (p : Z) (s : rc_state) : res rc_state :=
  o ← header p s; mcxx_collectwhite fuel p (put p (with_buffered false o) s).

Definition mcxx_collectroots (fuel : nat) (s : rc_state) : res rc_state :=
  s ← walk (collect_root fuel) (roots s) s; Ret (with_roots [] s).

Definition mcxx_collectcycles (fuel : nat) (s : rc_state) : res rc_state :=
  s ← mcxx_markroots fuel s;
  s ← mcxx_scanroots fuel s;
  s ← mcxx_collectroots fuel s;
  mcxx_release_free_set s.

(** ** Counts *)

Definition mcxx_increment (p : Z) (s : rc_state) : res rc_state :=
  if p =? 0 then Ret s else
  o ← header p s; o ← add_count 1 o; Ret (put p (with_colour BLACK o) s).

(** A write behind the array of the roots is undefined. *)
Definition mcxx_append_to_roots (fuel : nat) (p : Z) (s : rc_state) : res rc_state :=
  if MCXX_MAX_ROOTS <=? Z.of_nat (length (roots s)) then Err Undef else
  let s := with_roots (roots s ++ [p]) s in
  if Z.of_nat (length (roots s)) =? MCXX_MAX_ROOTS then mcxx_collectcycles fuel s else Ret s.

Definition mcxx_possible_root (fuel : nat) (p : Z) (s : rc_state) : res rc_state :=
  o ← header p s;
  if decide (colour_of o = PURPLE) then Ret s else
  let o := with_colour PURPLE o in
  if buffered o then Ret (put p o s)
  else mcxx_append_to_roots fuel p (put p (with_buffered true o) s).

Definition mcxx_release (decrement : Z → rc_state → res rc_state) (p : Z) (s : rc_state) :
    res rc_state :=
  o ← header p s;
  s ← walk decrement (children o) s;
  o ← header p s;
  let s := put p (with_colour BLACK o) s in
  Ret (if buffered o then s else mcxx_add_to_free_set p s).

Fixpoint mcxx_decrement (fuel : nat) (p : Z) (s : rc_state) : res rc_state :=
  match fuel with
  | O => Err NoFuel
  | S fuel' =>
      if p =? 0 then Ret s else
      o ← header p s; o ← add_count (-1) o;
      let s := put p o s in
      s ← (if count o =? 0 then mcxx_release (mcxx_decrement fuel') p s
           else if count o <? 0 then Err Aborted
           else mcxx_possible_root fuel' p s);
      mcxx_release_free_set s
  end.

(** ** The macros for clients: [lib/mcxx_refcount.h] *)

(** [REF_NEW0] of a type with [n] pointers; [p] is the address that the
    allocation returns.  The colour is that of zeroed memory. *)
Definition REF_NEW0 (p : Z) (n : nat) (s : rc_state) : res rc_state :=
  mcxx_increment p (put p (Object (replicate n 0) 0 false BLACK) s).

(** [REF_SET(a, b)] where [a] is the pointer [i] of the object [q]: the old
    pointer is released after the new one has been stored. *)
Definition REF_SET (fuel : nat) (q : Z) (i : nat) (b : Z) (s : rc_state) : res rc_state :=
  o ← header q s;
  tmp ← get (children o !! i);
  s ← mcxx_increment b s;
  o ← header q s;
  mcxx_decrement fuel tmp
    (put q (Object (<[i := b]> (children o)) (count o) (buffered o) (colour_of o)) s).
