(* ===== verification/RefGraph.v ===== *)
(** * Sums over objects, and the traversals that change counts

    The two traversals of the cycle collector that take references away
    ([mcxx_markgray]) and give them back ([mcxx_scanblack]) are one traversal
    [visit] with a colour and a sign.  What a traversal does is a relation
    [marks] between states that composes along a list of pointers. *)

From S2P Require Import Prelude RefCount.
#[local] Open Scope Z_scope.

(** ** Sums over a map *)

Definition msum {A} (f : Z → A → Z) (h : gmap Z A) : Z := map_fold (λ k x acc, f k x + acc) 0 h.

Section msum.
Context {A : Type}.
Implicit Types (f g : Z → A → Z) (h : gmap Z A).

Lemma msum_insert f h k x : h !! k = None → msum f (<[k:=x]> h) = f k x + msum f h.
Proof.
  intros Hk. unfold msum. rewrite (map_fold_insert_L (λ k x acc, f k x + acc)); [done| |done].
  intros. lia.
Qed.

Lemma msum_delete f h k x : h !! k = Some x → msum f h = f k x + msum f (delete k h).
Proof.
  intros Hk. unfold msum. rewrite (map_fold_delete_L (λ k x acc, f k x + acc) 0 k x); [done| |done].
  intros. lia.
Qed.

Lemma msum_update f h k x y :
  h !! k = Some x → msum f (<[k:=y]> h) = msum f h - f k x + f k y.
Proof.
  intros Hk. rewrite (msum_delete f h k x Hk), <-insert_delete_eq, msum_insert; [lia|].
  apply lookup_delete_eq.
Qed.

Lemma msum_nonneg f h : (∀ k x, h !! k = Some x → 0 ≤ f k x) → 0 ≤ msum f h.
Proof.
  induction h as [|k x h Hk IH] using map_ind; intros Hpos; [done|].
  rewrite msum_insert by done. specialize (Hpos k x) as H1. rewrite lookup_insert_eq in H1.
  specialize (H1 eq_refl). enough (0 ≤ msum f h) by lia. apply IH. intros k' y' Hk'.
  apply Hpos. rewrite lookup_insert_ne; [done|]. intros ->. congruence.
Qed.

Lemma msum_ge f h k x :
  (∀ k x, h !! k = Some x → 0 ≤ f k x) → h !! k = Some x → f k x ≤ msum f h.
Proof.
  intros Hpos Hk. rewrite (msum_delete f h k x Hk). enough (0 ≤ msum f (delete k h)) by lia.
  apply msum_nonneg. intros k' x'. rewrite lookup_delete_Some. intros [_ ?]. eauto.
Qed.

Lemma msum_pos f h : 0 < msum f h → ∃ k x, h !! k = Some x ∧ 0 < f k x.
Proof.
  induction h as [|k x h Hk IH] using map_ind; [done|]. rewrite msum_insert by done. intros Hpos.
  destruct (decide (0 < f k x)); [exists k, x; by rewrite lookup_insert_eq|].
  destruct IH as (k' & x' & Hk' & ?); [lia|]. exists k', x'. rewrite lookup_insert_ne; [done|].
  intros ->. congruence.
Qed.
End msum.

(** Objects of the first map that count are in the second and count as much. *)
Lemma msum_le {A B} (f : Z → A → Z) (g : Z → B → Z) (h : gmap Z A) : ∀ h' : gmap Z B,
  (∀ k x, h !! k = Some x → f k x ≤ 0 ∨ ∃ y, h' !! k = Some y ∧ f k x ≤ g k y) →
  (∀ k y, h' !! k = Some y → 0 ≤ g k y) → msum f h ≤ msum g h'.
Proof.
  induction h as [|k x h Hk IH] using map_ind; intros h' Hle Hpos; [by apply msum_nonneg|].
  rewrite msum_insert by done.
  assert (Hrest : ∀ h'', (∀ k' y, h'' !! k' = Some y → 0 ≤ g k' y) →
    (∀ k' y, k' ≠ k → h' !! k' = Some y → h'' !! k' = Some y) → msum f h ≤ msum g h'').
  { intros h'' Hp Hsub. apply IH; [|done]. intros k' x' Hk'.
    assert (k' ≠ k) as Hne by congruence.
    destruct (Hle k' x') as [?|(y & Hy & ?)]; [by rewrite lookup_insert_ne|by left|].
    right. exists y. split; [|done]. by apply Hsub. }
  destruct (Hle k x) as [Hx|(y & Hy & Hxy)]; [by rewrite lookup_insert_eq| |].
  - specialize (Hrest h' Hpos (λ _ _ _ H, H)). lia.
  - rewrite (msum_delete g h' k y Hy). enough (msum f h ≤ msum g (delete k h')) by lia.
    apply Hrest.
    + intros k' y'. rewrite lookup_delete_Some. intros [_ H]. by apply Hpos.
    + intros k' y' Hne. rewrite lookup_delete_Some. done.
Qed.

Lemma msum_eq {A B} (f : Z → A → Z) (g : Z → B → Z) (h : gmap Z A) (h' : gmap Z B) :
  (∀ k x, h !! k = Some x → 0 ≤ f k x) → (∀ k y, h' !! k = Some y → 0 ≤ g k y) →
  (∀ k x, h !! k = Some x → f k x = 0 ∨ ∃ y, h' !! k = Some y ∧ f k x = g k y) →
  (∀ k y, h' !! k = Some y → g k y = 0 ∨ ∃ x, h !! k = Some x ∧ g k y = f k x) →
  msum f h = msum g h'.
Proof.
  intros Hf Hg H1 H2. apply Z.le_antisymm.
  - apply msum_le; [|done]. intros k x Hk. destruct (H1 k x Hk) as [->|(y & ? & ->)]; eauto with lia.
  - apply msum_le; [|done]. intros k y Hk. destruct (H2 k y Hk) as [->|(x & ? & ->)]; eauto with lia.
Qed.

(** Occurrences in a list of pointers *)
Definition occ (q : Z) (l : list Z) : Z := Z.of_nat (count_occ Z.eq_dec l q).

Lemma occ_nil q : occ q [] = 0.
Proof. done. Qed.
Lemma occ_cons q p l : occ q (p :: l) = (if decide (p = q) then 1 else 0) + occ q l.
Proof. unfold occ. simpl. repeat case_decide; destruct (Z.eq_dec p q); lia. Qed.
Lemma occ_nonneg q l : 0 ≤ occ q l.
Proof. unfold occ. lia. Qed.
Lemma occ_pos q l : 0 < occ q l ↔ q ∈ l.
Proof. unfold occ. rewrite list_elem_of_In, (count_occ_In Z.eq_dec). lia. Qed.
Lemma occ_app q l l' : occ q (l ++ l') = occ q l + occ q l'.
Proof. unfold occ. rewrite count_occ_app. lia. Qed.

(** ** What a state holds *)

Definition graph_of (s : rc_state) : gmap Z (list Z) := children <$> objects s.
Definition flags_of (s : rc_state) : gmap Z bool := buffered <$> objects s.
Definition coloured (c : colour) (s : rc_state) (x : Z) : Prop :=
  colour_of <$> objects s !! x = Some c.
Definition cnt (s : rc_state) (q : Z) : Z := default 0 (count <$> objects s !! q).

(** Objects whose references have been taken away. *)
Definition in_debt (c : colour) : bool := match c with GRAY | WHITE => true | _ => false end.

Definition debt (s : rc_state) (q : Z) : Z :=
  msum (λ _ o, if in_debt (colour_of o) then occ q (children o) else 0) (objects s).

(** The references to [q] as they were before. *)
Definition total (s : rc_state) (q : Z) : Z := cnt s q + debt s q.

(** The number of objects with a property of the colour. *)
Definition number (f : colour → bool) (s : rc_state) : Z :=
  msum (λ _ o, if f (colour_of o) then 1 else 0) (objects s).

#[global] Instance coloured_dec c s x : Decision (coloured c s x).
Proof. unfold coloured. apply _. Defined.

Lemma coloured_inv c s x : coloured c s x ↔ ∃ o, objects s !! x = Some o ∧ colour_of o = c.
Proof.
  unfold coloured. destruct (objects s !! x) as [o|]; simpl.
  - split; [intros [= <-]; eauto | by intros (? & [= ->] & ->)].
  - split; [done | by intros (? & ? & _)].
Qed.

Lemma coloured_fun c c' s x : coloured c s x → coloured c' s x → c = c'.
Proof. unfold coloured. congruence. Qed.

Lemma debt_nonneg s q : 0 ≤ debt s q.
Proof. apply msum_nonneg. intros k o _. destruct (in_debt _); [apply occ_nonneg|done]. Qed.

Lemma number_nonneg f s : 0 ≤ number f s.
Proof. apply msum_nonneg. intros k o _. by destruct (f _). Qed.

Lemma cnt_lookup s q o : objects s !! q = Some o → cnt s q = count o.
Proof. unfold cnt. by intros ->. Qed.

Lemma graph_lookup s x : graph_of s !! x = children <$> objects s !! x.
Proof. apply lookup_fmap. Qed.
Lemma flags_lookup s x : flags_of s !! x = buffered <$> objects s !! x.
Proof. apply lookup_fmap. Qed.

(** ** Writing a header *)

Section put.
Context (s : rc_state) (p : Z) (o o' : object) (Ho : objects s !! p = Some o).

Lemma graph_put : children o' = children o → graph_of (put p o' s) = graph_of s.
Proof.
  intros Hc. unfold graph_of. simpl. rewrite fmap_insert, insert_id; [done|].
  rewrite lookup_fmap, Ho. simpl. by rewrite Hc.
Qed.

Lemma flags_put : buffered o' = buffered o → flags_of (put p o' s) = flags_of s.
Proof.
  intros Hc. unfold flags_of. simpl. rewrite fmap_insert, insert_id; [done|].
  rewrite lookup_fmap, Ho. simpl. by rewrite Hc.
Qed.

Lemma cnt_put q : cnt (put p o' s) q = if decide (p = q) then count o' else cnt s q.
Proof.
  clear Ho. unfold cnt. simpl. case_decide as Hq; [subst; by rewrite lookup_insert_eq|].
  by rewrite lookup_insert_ne.
Qed.

Lemma coloured_put c x :
  coloured c (put p o' s) x ↔ if decide (p = x) then colour_of o' = c else coloured c s x.
Proof.
  clear Ho. unfold coloured. simpl. case_decide as Hx.
  - subst. rewrite lookup_insert_eq. simpl. split; congruence.
  - by rewrite lookup_insert_ne.
Qed.

Lemma debt_put q :
  debt (put p o' s) q = debt s q - (if in_debt (colour_of o) then occ q (children o) else 0)
                        + (if in_debt (colour_of o') then occ q (children o') else 0).
Proof. unfold debt. simpl. by rewrite (msum_update _ _ _ _ _ Ho). Qed.

Lemma number_put f :
  number f (put p o' s) = number f s - (if f (colour_of o) then 1 else 0)
                          + (if f (colour_of o') then 1 else 0).
Proof. unfold number. simpl. by rewrite (msum_update _ _ _ _ _ Ho). Qed.
End put.

Lemma header_lookup p s o : objects s !! p = Some o → header p s = Ret o.
Proof. unfold header. by intros ->. Qed.

Lemma add_count_ok d o :
  - 2 ^ 31 ≤ count o + d < 2 ^ 31 → add_count d o = Ret (with_count (count o + d) o).
Proof.
  intros [H1 H2]. unfold add_count. by rewrite (proj2 (Z.leb_le _ _) H1), (proj2 (Z.ltb_lt _ _) H2).
Qed.

Lemma walk_app f l l' s : walk f (l ++ l') s = (s' ← walk f l s; walk f l' s').
Proof.
  revert s. induction l as [|p l IH]; intros s; simpl; [done|].
  destruct (f p s) as [s'|e]; [apply IH|done].
Qed.
