(* ===== verification/RefMark.v ===== *)
(** * The two traversals that change counts

    [visit c d] colours with [c] the objects reachable from a pointer and adds
    [d] to the count of an object for every pointer that it follows:
    [mcxx_markgray] is [visit GRAY (-1)], and [mcxx_scanblack] on an object that
    is not black is [visit BLACK 1]. *)

From S2P Require Import Prelude RefCount RefGraph.
#[local] Open Scope Z_scope.

Definition visit_aux (d : Z) (rec : Z → rc_state → res rc_state) (p : Z) (s : rc_state) :
    res rc_state :=
  if p =? 0 then Ret s else
  o ← header p s; o ← add_count d o; rec p (put p o s).

Fixpoint visit (c : colour) (d : Z) (fuel : nat) (p : Z) (s : rc_state) : res rc_state :=
  match fuel with
  | O => Err NoFuel
  | S fuel' =>
      if p =? 0 then Ret s else
      o ← header p s;
      if decide (colour_of o = c) then Ret s
      else walk (visit_aux d (visit c d fuel')) (children o) (put p (with_colour c o) s)
  end.

Lemma markgray_visit fuel : ∀ p s, mcxx_markgray fuel p s = visit GRAY (-1) fuel p s.
Proof.
  induction fuel as [|fuel IH]; intros p s; [done|]. simpl. destruct (p =? 0); [done|].
  destruct (header p s) as [o|]; [|done]. simpl. case_decide; [done|].
  generalize (put p (with_colour GRAY o) s). induction (children o) as [|q qs IHq]; intros s'; [done|].
  simpl. assert (mcxx_markgray_aux (mcxx_markgray fuel) q s' = visit_aux (-1) (visit GRAY (-1) fuel) q s') as ->.
  { unfold mcxx_markgray_aux, visit_aux. destruct (q =? 0); [done|].
    destruct (header q s') as [o'|]; [|done]. simpl. destruct (add_count (-1) o'); [|done]. apply IH. }
  destruct (visit_aux _ _ _ _); [apply IHq|done].
Qed.

Lemma add_count_colour d o o' : add_count d o = Ret o' → colour_of o' = colour_of o.
Proof. unfold add_count. by destruct (_ && _); intros [= <-]. Qed.

Lemma scanblack_visit fuel : ∀ p s s' o,
  header p s = Ret o → colour_of o ≠ BLACK →
  visit BLACK 1 fuel p s = Ret s' → mcxx_scanblack fuel p s = Ret s'.
Proof.
  induction fuel as [|fuel IH]; intros p s s' o Ho Hc; [done|]. simpl.
  destruct (p =? 0); [done|]. rewrite Ho. simpl. rewrite decide_False by done.
  generalize (put p (with_colour BLACK o) s). induction (children o) as [|q qs IHq]; intros t; [done|].
  simpl. intros (t' & Ht' & Hrest)%bind_ret_inv.
  assert (mcxx_scanblack_aux (mcxx_scanblack fuel) q t = Ret t') as ->; [|by apply IHq].
  revert Ht'. unfold mcxx_scanblack_aux, visit_aux. destruct (q =? 0); [done|].
  intros (oq & -> & Ht')%bind_ret_inv. simpl. apply bind_ret_inv in Ht' as (oq' & -> & Ht'). simpl.
  assert (header q (put q oq' t) = Ret oq') as Hq.
  { unfold header. simpl. by rewrite lookup_insert_eq. }
  case_decide as Hb; [|by eapply IH].
  destruct fuel as [|fuel]; [done|]. simpl in Ht'. destruct (q =? 0); [done|].
  rewrite Hq in Ht'. simpl in Ht'. by rewrite decide_True in Ht'.
Qed.

(** ** What a traversal does *)

Section marks.
Context (g : gmap Z (list Z)) (A : gset Z).

(** The pointers of an object of [A]. *)
Definition edge (x y : Z) : Prop := ∃ cs, x ∈ A ∧ g !! x = Some cs ∧ y ∈ cs ∧ y ≠ 0.

(** Objects of [A] are allocated and point to objects of [A]. *)
Definition closed : Prop :=
  0 ∉ A ∧ ∀ x, x ∈ A → ∃ cs, g !! x = Some cs ∧ ∀ y, y ∈ cs → y = 0 ∨ y ∈ A.

(** The references to [q] from objects of [A]. *)
Definition refs (q : Z) : Z := msum (λ x cs, if decide (x ∈ A) then occ q cs else 0) g.

Lemma refs_nonneg q : 0 ≤ refs q.
Proof. apply msum_nonneg. intros. case_decide; [apply occ_nonneg|done]. Qed.

Context (c : colour) (d : Z).

(** From [s] to [s'] some objects reachable from [src] take the colour [c]: for
    each pointer in [l] the count of its target is changed by [d]; the counts of
    the targets of the coloured objects are too, which the total makes up for;
    nothing else changes. *)
Record marks (l src : list Z) (s s' : rc_state) : Prop := {
  marks_graph : graph_of s' = graph_of s;
  marks_flags : flags_of s' = flags_of s;
  marks_roots : roots s' = roots s;
  marks_free : free_set s' = free_set s;
  marks_log : deallocated s' = deallocated s;
  marks_same : ∀ x, coloured c s' x ∨ objects s' !! x = objects s !! x;
  marks_mono : ∀ x, coloured c s x → coloured c s' x;
  marks_total : ∀ q, q ≠ 0 → total s' q = total s q + d * occ q l;
  marks_count : ∀ q, 0 ≤ d * (cnt s' q - cnt s q);
  marks_new : ∀ x, coloured c s' x → ¬ coloured c s x →
    (∀ y, edge x y → coloured c s' y) ∧ ∃ r, r ∈ src ∧ r ≠ 0 ∧ rtc edge r x }.

Lemma marks_refl s src : marks [] src s s.
Proof.
  split; try done; [by right| |]; intros q.
  - intros _. rewrite occ_nil. lia.
  - rewrite Z.sub_diag. lia.
Qed.

Lemma marks_trans l l' src src' s s' s'' :
  marks l src s s' → marks l' src' s' s'' → marks (l ++ l') (src ++ src') s s''.
Proof.
  intros H1 H2. split.
  - by rewrite (marks_graph _ _ _ _ H2), (marks_graph _ _ _ _ H1).
  - by rewrite (marks_flags _ _ _ _ H2), (marks_flags _ _ _ _ H1).
  - by rewrite (marks_roots _ _ _ _ H2), (marks_roots _ _ _ _ H1).
  - by rewrite (marks_free _ _ _ _ H2), (marks_free _ _ _ _ H1).
  - by rewrite (marks_log _ _ _ _ H2), (marks_log _ _ _ _ H1).
  - intros x. destruct (marks_same _ _ _ _ H2 x) as [?|E2]; [by left|].
    destruct (marks_same _ _ _ _ H1 x) as [?|E1]; [|right; congruence].
    left. by apply (marks_mono _ _ _ _ H2).
  - intros x Hx. by apply (marks_mono _ _ _ _ H2), (marks_mono _ _ _ _ H1).
  - intros q Hq. rewrite (marks_total _ _ _ _ H2 q Hq), (marks_total _ _ _ _ H1 q Hq), occ_app. lia.
  - intros q. pose proof (marks_count _ _ _ _ H1 q). pose proof (marks_count _ _ _ _ H2 q). lia.
  - intros x Hx Hnx. destruct (decide (coloured c s' x)) as [Hx1|Hx1].
    + destruct (marks_new _ _ _ _ H1 x Hx1 Hnx) as [Hc (r & Hr & Hr0 & Hreach)]. split.
      * intros y Hy. by apply (marks_mono _ _ _ _ H2), Hc.
      * exists r. rewrite elem_of_app. auto.
    + destruct (marks_new _ _ _ _ H2 x Hx Hx1) as [Hc (r & Hr & Hr0 & Hreach)]. split; [done|].
      exists r. rewrite elem_of_app. auto.
Qed.

(** The traversal that takes references away keeps counts above [INT_MIN], the
    one that gives them back below [INT_MAX]. *)
Definition bounded (l : list Z) (s : rc_state) : Prop :=
  ∀ q, q ≠ 0 → if d <? 0 then refs q + occ q l ≤ total s q ∧ cnt s q < 2 ^ 31
               else 0 ≤ cnt s q ∧ total s q + occ q l < 2 ^ 31.

(** When it takes references away no object is white, and when it gives them
    back no object of [A] is purple: the objects of [A] with the other colours
    are those in debt when [d] is 1, and those not in debt when [d] is -1. *)
Record ready (s : rc_state) : Prop := {
  ready_graph : graph_of s = g;
  ready_debt : ∀ x o, objects s !! x = Some o → in_debt (colour_of o) = true → x ∈ A;
  ready_colour : ∀ x o, x ∈ A → objects s !! x = Some o → colour_of o ≠ c →
    in_debt (colour_of o) = (0 <? d) }.

Definition uncoloured : rc_state → Z := number (λ c', negb (bool_decide (c' = c))).

Context (Hclosed : closed) (Hd : d = 1 ∨ d = -1) (Hc : in_debt c = (d <? 0)).

Lemma in_A x : x ∈ A → x ≠ 0.
Proof. intros Hx ->. by destruct Hclosed. Qed.

Lemma reach_in_A r x : rtc edge r x → r ∈ A → x ∈ A.
Proof.
  induction 1 as [|r y x (cs & HrA & Hcs & Hy & Hy0) _ IH]; [done|]. intros _. apply IH.
  destruct Hclosed as [_ Hcl]. destruct (Hcl r HrA) as (cs' & Hcs' & Hall). simplify_eq.
  by destruct (Hall y Hy).
Qed.

Lemma ready_step l src s s' :
  ready s → (∀ r, r ∈ src → r = 0 ∨ r ∈ A) → marks l src s s' → ready s'.
Proof.
  intros [Hg Hdebt Hcol] Hsrc Hm. split.
  - by rewrite (marks_graph _ _ _ _ Hm).
  - intros x o Ho Hin. destruct (marks_same _ _ _ _ Hm x) as [Hx|Heq]; [|by eapply Hdebt; [rewrite <-Heq|]].
    destruct (decide (coloured c s x)) as [Hx'|Hx'].
    + apply coloured_inv in Hx' as (o1 & Ho1 & Hc1). apply coloured_inv in Hx as (o2 & Ho2 & Hc2).
      simplify_eq. apply (Hdebt x o1 Ho1). congruence.
    + destruct (marks_new _ _ _ _ Hm x Hx Hx') as [_ (r & Hr & Hr0 & Hreach)].
      eapply reach_in_A; [done|]. destruct (Hsrc r Hr); done.
  - intros x o HxA Ho Hne. destruct (marks_same _ _ _ _ Hm x) as [Hx|Heq].
    + apply coloured_inv in Hx as (o' & Ho' & ?). simplify_eq.
    + apply (Hcol x); [done|by rewrite <-Heq|done].
Qed.

Lemma uncoloured_step l src s s' : marks l src s s' → uncoloured s' ≤ uncoloured s.
Proof.
  intros Hm. apply msum_le; [|intros; by destruct (negb _)]. intros x o Ho.
  case_bool_decide as Hne; [by left|]. right. exists o. rewrite bool_decide_eq_false_2 by done.
  destruct (marks_same _ _ _ _ Hm x) as [Hx|Heq].
  - apply coloured_inv in Hx as (o' & Ho' & ?). simplify_eq.
  - split; [by rewrite <-Heq|]. done.
Qed.

Lemma debt_refs s q : ready s → debt s q ≤ refs q.
Proof.
  intros [Hg Hdebt _]. apply msum_le; [|intros; case_decide; [apply occ_nonneg|done]].
  intros x o Ho. destruct (in_debt (colour_of o)) eqn:Hin; [|by left]. right.
  exists (children o). rewrite <-Hg, graph_lookup, Ho. split; [done|].
  rewrite decide_True; [done|]. by eapply Hdebt.
Qed.

Lemma bounded_step l l' src s s' :
  ready s' → bounded (l ++ l') s → marks l src s s' → bounded l' s'.
Proof.
  intros Hr Hb Hm q Hq. pose proof (Hb q Hq) as Hbq. rewrite occ_app in Hbq.
  pose proof (marks_total _ _ _ _ Hm q Hq). pose proof (marks_count _ _ _ _ Hm q).
  destruct Hd as [-> | ->]; simpl in *; lia.
Qed.

(** ** The traversal of one object *)

Section step.
Context (fuel : nat).
Context (IH : ∀ p s, ready s → p ∈ A → bounded [] s → uncoloured s < Z.of_nat fuel →
  ∃ s', visit c d fuel p s = Ret s' ∧ marks [] [p] s s' ∧ coloured c s' p).

Lemma visit_aux_marks p l s :
  ready s → p ∈ A → bounded (p :: l) s → uncoloured s < Z.of_nat fuel →
  ∃ s', visit_aux d (visit c d fuel) p s = Ret s' ∧ marks [p] [p] s s' ∧ coloured c s' p.
Proof.
  intros Hr HpA Hb Hfuel. pose proof (in_A p HpA) as Hp0.
  destruct Hclosed as [_ Hcl]. destruct (Hcl p HpA) as (cs & Hcs & _).
  rewrite <-(ready_graph s Hr), graph_lookup in Hcs.
  destruct (objects s !! p) as [o|] eqn:Ho; [|done]. simpl in Hcs. injection Hcs as Hcs.
  unfold visit_aux. rewrite (proj2 (Z.eqb_neq p 0) Hp0), (header_lookup _ _ _ Ho), bind_ret.
  pose proof (debt_refs s p Hr) as Hdr. pose proof (debt_nonneg s p) as Hdn.
  pose proof (Hb p Hp0) as Hbp. rewrite occ_cons, decide_True in Hbp by done.
  unfold total in Hbp. rewrite (cnt_lookup _ _ _ Ho) in Hbp.
  pose proof (occ_nonneg p l). pose proof (refs_nonneg p).
  rewrite add_count_ok; [rewrite bind_ret|destruct Hd as [-> | ->]; simpl in Hbp; lia].
  set (o1 := with_count (count o + d) o). set (s1 := put p o1 s).
  assert (Hcol1 : ∀ x, coloured c s1 x ↔ coloured c s x).
  { intros x. unfold s1. rewrite coloured_put.
    case_decide; [subst|done].
    unfold coloured. rewrite Ho. simpl. split; congruence. }
  assert (Htot1 : ∀ q, total s1 q = total s q + d * occ q [p]).
  { intros q. unfold total, s1. rewrite cnt_put, (debt_put s p o o1 Ho), occ_cons, occ_nil. simpl.
    case_decide; [subst; rewrite (cnt_lookup _ _ _ Ho)|]; lia. }
  assert (Hgr1 : graph_of s1 = graph_of s) by by apply (graph_put s p o).
  destruct (IH p s1) as (s' & Hs' & Hm & Hcp).
  - split.
    + by rewrite Hgr1, (ready_graph s Hr).
    + intros x o' Ho'. simpl in Ho'. destruct (decide (p = x)) as [->|Hne]; [done|].
      rewrite lookup_insert_ne in Ho' by done. by apply (ready_debt s Hr x o').
    + intros x o' HxA Ho'. simpl in Ho'. destruct (decide (p = x)) as [->|Hne].
      * rewrite lookup_insert_eq in Ho'. injection Ho' as <-. by apply (ready_colour s Hr x o).
      * rewrite lookup_insert_ne in Ho' by done. by apply (ready_colour s Hr x o').
  - done.
  - intros q Hq. rewrite Htot1, occ_nil. pose proof (Hb q Hq) as Hbq. rewrite occ_cons in Hbq.
    rewrite occ_cons, occ_nil. pose proof (occ_nonneg q l). unfold s1. rewrite cnt_put. simpl.
    case_decide; [subst|]; destruct Hd as [-> | ->]; simpl in *; lia.
  - unfold uncoloured, s1. rewrite (number_put _ _ _ _ Ho). simpl. unfold uncoloured in Hfuel. lia.
  - exists s'. split; [done|]. split; [|done]. split.
    + by rewrite (marks_graph _ _ _ _ Hm).
    + rewrite (marks_flags _ _ _ _ Hm). by apply (flags_put s p o).
    + by rewrite (marks_roots _ _ _ _ Hm).
    + by rewrite (marks_free _ _ _ _ Hm).
    + by rewrite (marks_log _ _ _ _ Hm).
    + intros x. destruct (marks_same _ _ _ _ Hm x) as [?|Heq]; [by left|].
      destruct (decide (p = x)) as [->|Hne]; [by left|]. right. rewrite Heq. simpl.
      by rewrite lookup_insert_ne.
    + intros x Hx. apply (marks_mono _ _ _ _ Hm). by apply Hcol1.
    + intros q Hq. rewrite (marks_total _ _ _ _ Hm q Hq), Htot1, occ_nil. lia.
    + intros q. pose proof (marks_count _ _ _ _ Hm q) as Hcnt. unfold s1 in Hcnt. rewrite cnt_put in Hcnt.
      case_decide; [subst; rewrite (cnt_lookup _ _ _ Ho); simpl in Hcnt|]; destruct Hd as [-> | ->]; lia.
    + intros x Hx Hnx. apply (marks_new _ _ _ _ Hm x Hx). by rewrite Hcol1.
Qed.

Lemma visit_walk_marks l : ∀ s,
  ready s → (∀ p, p ∈ l → p = 0 ∨ p ∈ A) → bounded l s → uncoloured s < Z.of_nat fuel →
  ∃ s', walk (visit_aux d (visit c d fuel)) l s = Ret s' ∧ marks l l s s'
    ∧ ∀ p, p ∈ l → p ≠ 0 → coloured c s' p.
Proof.
  induction l as [|p l IHl]; intros s Hr HA Hb Hfuel.
  - exists s. split; [done|]. split; [apply marks_refl|]. intros p. by rewrite elem_of_nil.
  - simpl. assert (∃ s1, visit_aux d (visit c d fuel) p s = Ret s1 ∧ marks [p] [p] s s1
      ∧ (p ≠ 0 → coloured c s1 p)) as (s1 & -> & Hm1 & Hc1).
    { destruct (HA p) as [->|HpA]; [by left| |].
      - exists s. split; [done|]. split; [|done].
        destruct (marks_refl s [0]) as [? ? ? ? ? ? ? Ht ? ?]. split; try done.
        intros q Hq. rewrite occ_cons, decide_False, occ_nil by done. lia.
      - destruct (visit_aux_marks p l s Hr HpA Hb Hfuel) as (s1 & H1 & H2 & H3). by exists s1. }
    rewrite bind_ret. assert (Hr1 : ready s1).
    { eapply ready_step; [done| |exact Hm1]. intros r. rewrite list_elem_of_singleton. intros ->.
      apply HA. by left. }
    destruct (IHl s1) as (s' & -> & Hm2 & Hc2).
    + done.
    + intros q Hq. apply HA. by right.
    + by apply (bounded_step [p] l [p] s s1).
    + pose proof (uncoloured_step _ _ _ _ Hm1). lia.
    + exists s'. split; [done|]. split; [by apply (marks_trans [p] l [p] l s s1 s')|].
      intros q Hq Hq0. apply elem_of_cons in Hq as [->|Hq]; [|by apply Hc2].
      apply (marks_mono _ _ _ _ Hm2). by apply Hc1.
Qed.
End step.

Lemma visit_marks fuel : ∀ p s,
  ready s → p ∈ A → bounded [] s → uncoloured s < Z.of_nat fuel →
  ∃ s', visit c d fuel p s = Ret s' ∧ marks [] [p] s s' ∧ coloured c s' p.
Proof.
  induction fuel as [|fuel IH]; intros p s Hr HpA Hb Hfuel.
  { pose proof (number_nonneg (λ c', negb (bool_decide (c' = c))) s). unfold uncoloured in Hfuel. lia. }
  pose proof (in_A p HpA) as Hp0. destruct Hclosed as [_ Hcl]. destruct (Hcl p HpA) as (cs & Hcs & Hsub).
  pose proof Hcs as Hgcs. rewrite <-(ready_graph s Hr), graph_lookup in Hcs.
  destruct (objects s !! p) as [o|] eqn:Ho; [|done]. simpl in Hcs. injection Hcs as Hcs.
  simpl. rewrite (proj2 (Z.eqb_neq p 0) Hp0), (header_lookup _ _ _ Ho), bind_ret.
  case_decide as Hco.
  { exists s. split; [done|]. split; [apply marks_refl|]. apply coloured_inv. eauto. }
  set (o1 := with_colour c o). set (s1 := put p o1 s).
  assert (Hgr1 : graph_of s1 = graph_of s) by by apply (graph_put s p o).
  assert (Htot1 : ∀ q, total s1 q = total s q - d * occ q cs).
  { intros q. unfold total, s1. rewrite cnt_put, (debt_put s p o o1 Ho). simpl.
    rewrite (ready_colour s Hr p o HpA Ho Hco), Hc, Hcs.
    case_decide; [subst; rewrite (cnt_lookup _ _ _ Ho)|]; destruct Hd as [-> | ->]; simpl; lia. }
  assert (Hr1 : ready s1).
  { split; [by rewrite Hgr1, (ready_graph s Hr)| |].
    - intros x o' Ho'. simpl in Ho'. destruct (decide (p = x)) as [->|Hne]; [done|].
      rewrite lookup_insert_ne in Ho' by done. by apply (ready_debt s Hr x o').
    - intros x o' HxA Ho'. simpl in Ho'. destruct (decide (p = x)) as [->|Hne].
      + rewrite lookup_insert_eq in Ho'. by injection Ho' as <-.
      + rewrite lookup_insert_ne in Ho' by done. by apply (ready_colour s Hr x o'). }
  assert (Hcnt1 : ∀ q, cnt s1 q = cnt s q).
  { intros q. unfold s1. rewrite cnt_put. case_decide; [subst; by rewrite (cnt_lookup _ _ _ Ho)|done]. }
  assert (Hb1 : bounded cs s1).
  { intros q Hq. rewrite Htot1, Hcnt1. pose proof (Hb q Hq) as Hbq. rewrite occ_nil in Hbq.
    destruct Hd as [-> | ->]; simpl in *; lia. }
  destruct (visit_walk_marks fuel IH cs s1 Hr1 Hsub Hb1) as (s' & Hs' & Hm & Hcs').
  { unfold uncoloured, s1. rewrite (number_put _ _ _ _ Ho). unfold uncoloured in Hfuel. simpl.
    rewrite bool_decide_eq_false_2, bool_decide_eq_true_2 by done. simpl. lia. }
  rewrite Hcs. exists s'. split; [done|].
  assert (coloured c s' p) as Hcp.
  { apply (marks_mono _ _ _ _ Hm). unfold s1. rewrite coloured_put. by rewrite decide_True. }
  split; [|done]. split.
  - by rewrite (marks_graph _ _ _ _ Hm).
  - rewrite (marks_flags _ _ _ _ Hm). by apply (flags_put s p o).
  - by rewrite (marks_roots _ _ _ _ Hm).
  - by rewrite (marks_free _ _ _ _ Hm).
  - by rewrite (marks_log _ _ _ _ Hm).
  - intros x. destruct (marks_same _ _ _ _ Hm x) as [?|Heq]; [by left|].
    destruct (decide (p = x)) as [->|Hne]; [by left|]. right. rewrite Heq. simpl.
    by rewrite lookup_insert_ne.
  - intros x Hx. apply (marks_mono _ _ _ _ Hm). unfold s1. rewrite coloured_put. by case_decide.
  - intros q Hq. rewrite (marks_total _ _ _ _ Hm q Hq), Htot1, occ_nil. lia.
  - intros q. rewrite <-Hcnt1. apply (marks_count _ _ _ _ Hm).
  - intros x Hx Hnx. destruct (decide (p = x)) as [<-|Hne].
    + split; [|exists p; split; [by left|done]].
      intros y (cs' & _ & Hcs1 & Hy & Hy0). rewrite Hgcs in Hcs1. injection Hcs1 as <-. by apply Hcs'.
    + destruct (marks_new _ _ _ _ Hm x Hx) as [Hedge (r & Hr' & Hr0 & Hreach)].
      { unfold s1. rewrite coloured_put. by rewrite decide_False. }
      split; [done|]. exists p. split; [by left|]. split; [done|]. eapply rtc_l; [|done].
      by exists cs.
Qed.
End marks.
