(* ===== verification/RefMarkRoots.v ===== *)
(** * Counted objects, and the first phase of the collection

    The invariant of the library between calls ([counted]), and what
    [mcxx_markroots] does to a state that satisfies it: it takes away the
    references from the objects that a candidate root reaches. *)

From S2P Require Import Prelude RefCount RefGraph RefMark.
#[local] Open Scope Z_scope.

(** Objects that somebody refers to; the others wait in the buffer of roots to
    be freed. *)
Definition alive (s : rc_state) : gset Z := dom (filter (λ xo, 0 < count xo.2) (objects s)).

Lemma elem_of_alive s x : x ∈ alive s ↔ ∃ o, objects s !! x = Some o ∧ 0 < count o.
Proof.
  unfold alive. rewrite elem_of_dom. split.
  - intros [o Ho]. apply map_lookup_filter_Some in Ho as [Ho Hc]. eauto.
  - intros (o & Ho & Hc). exists o. by apply map_lookup_filter_Some.
Qed.

Notation state_edge s := (edge (graph_of s) (alive s)).
Notation state_refs s := (refs (graph_of s) (alive s)).

(** Objects that the clients reach from the references they hold. *)
Definition reachable (ext : Z → Z) (s : rc_state) (x : Z) : Prop :=
  ∃ r, 0 < ext r ∧ rtc (state_edge s) r x.

(** The state between calls of the library, where the clients hold [ext x]
    references to the object [x].  Objects in [dying] have lost their last
    reference and are about to be freed or buffered.  The last condition is the
    one of the algorithm: what the clients do not reach is reachable from a
    candidate root. *)
Record counted (ext : Z → Z) (dying : gset Z) (s : rc_state) : Prop := {
  c_free : free_set s = [];
  c_null : objects s !! 0 = None;
  c_nodup : NoDup (roots s);
  c_roots : ∀ x, x ∈ roots s ↔ ∃ o, objects s !! x = Some o ∧ buffered o = true;
  c_colour : ∀ x o, objects s !! x = Some o → colour_of o = BLACK ∨
    (colour_of o = PURPLE ∧ buffered o = true ∧ (0 < count o ∨ x ∈ dying));
  c_count : ∀ x o, objects s !! x = Some o → count o = ext x + state_refs s x;
  c_range : ∀ x o, objects s !! x = Some o → count o < 2 ^ 31;
  c_ext : ∀ x, 0 ≤ ext x;
  c_held : ∀ x, 0 < ext x → is_Some (objects s !! x);
  c_dead : ∀ x o, objects s !! x = Some o → count o = 0 →
    (buffered o = true ∧ colour_of o = BLACK) ∨ x ∈ dying;
  c_dying : ∀ x, x ∈ dying → ∃ o, objects s !! x = Some o ∧ count o = 0;
  c_pointers : ∀ x o y, objects s !! x = Some o → 0 < count o → y ∈ children o →
    y = 0 ∨ is_Some (objects s !! y);
  c_candidates : ∀ x, x ∈ alive s →
    ∃ r, r ∈ alive s ∧ (0 < ext r ∨ coloured PURPLE s r) ∧ rtc (state_edge s) r x }.

Section counted.
Context (ext : Z → Z) (dying : gset Z) (s : rc_state) (Hs : counted ext dying s).

Lemma refs_edge x y : state_edge s x y → 0 < state_refs s y.
Proof.
  intros (cs & Hx & Hcs & Hy & _). unfold refs.
  eapply Z.lt_le_trans; [|apply (msum_ge _ _ x cs); [|done]].
  - cbv beta. rewrite decide_True by done. by apply occ_pos.
  - intros. case_decide; [apply occ_nonneg|done].
Qed.

Lemma count_nonneg x o : objects s !! x = Some o → 0 ≤ count o.
Proof.
  intros Ho. rewrite (c_count _ _ _ Hs x o Ho). pose proof (c_ext _ _ _ Hs x).
  pose proof (refs_nonneg (graph_of s) (alive s) x). lia.
Qed.

Lemma held_alive x : 0 < ext x → x ∈ alive s.
Proof.
  intros Hx. destruct (c_held _ _ _ Hs x Hx) as [o Ho]. apply elem_of_alive. exists o.
  split; [done|]. rewrite (c_count _ _ _ Hs x o Ho).
  pose proof (refs_nonneg (graph_of s) (alive s) x). lia.
Qed.

Lemma counted_closed : closed (graph_of s) (alive s).
Proof.
  split.
  - intros (o & Ho & _)%elem_of_alive. by rewrite (c_null _ _ _ Hs) in Ho.
  - intros x Hx. pose proof Hx as (o & Ho & Hc)%elem_of_alive. exists (children o).
    rewrite graph_lookup, Ho. split; [done|]. intros y Hy. destruct (decide (y = 0)) as [?|Hy0]; [by left|].
    right. destruct (c_pointers _ _ _ Hs x o y Ho Hc Hy) as [?|[oy Hoy]]; [done|].
    apply elem_of_alive. exists oy. split; [done|]. rewrite (c_count _ _ _ Hs y oy Hoy).
    pose proof (c_ext _ _ _ Hs y). enough (0 < state_refs s y) by lia. apply (refs_edge x).
    exists (children o). rewrite graph_lookup, Ho. done.
Qed.

Lemma reachable_alive x : reachable ext s x → x ∈ alive s.
Proof.
  intros (r & Hr & Hreach). eapply (reach_in_A _ _ counted_closed); [done|]. by apply held_alive.
Qed.

Lemma not_in_debt x o : objects s !! x = Some o → in_debt (colour_of o) = false.
Proof. intros Ho. by destruct (c_colour _ _ _ Hs x o Ho) as [-> | [-> _]]. Qed.

Lemma debt_counted q : debt s q = 0.
Proof.
  apply Z.le_antisymm; [|apply debt_nonneg]. change 0 with (msum (λ _ (_ : object), 0) ∅).
  apply msum_le; [|done]. intros x o Ho. left. by rewrite (not_in_debt x o Ho).
Qed.

Lemma total_counted q : q ≠ 0 → q ∈ alive s → total s q = ext q + state_refs s q.
Proof.
  intros _ (o & Ho & _)%elem_of_alive. unfold total. rewrite (cnt_lookup _ _ _ Ho), debt_counted.
  rewrite (c_count _ _ _ Hs q o Ho). lia.
Qed.
End counted.

Lemma remove_root_app p K l : p ∉ K → remove_root p (K ++ p :: l) = K ++ l.
Proof.
  induction K as [|q K IH]; simpl; intros Hp.
  - by rewrite decide_True.
  - rewrite not_elem_of_cons in Hp. destruct Hp as [Hne Hp].
    rewrite decide_False by done. by rewrite IH.
Qed.

(** ** The loop over the roots *)

Section markroots.
Context (ext : Z → Z) (s0 : rc_state) (Hs0 : counted ext ∅ s0).
Notation g := (graph_of s0).
Notation A := (alive s0).
Notation edge := (edge g A).
Notation closed := (closed g A).

(** [K] are the roots that were purple when the loop came to them. *)
Record marking (done K todo : list Z) (s : rc_state) : Prop := {
  mk_ready : ready g A GRAY (-1) s;
  mk_roots : roots s = K ++ todo;
  mk_nodup : NoDup (K ++ todo);
  mk_log : deallocated s = deallocated s0;
  mk_total : ∀ q, q ≠ 0 → total s q = total s0 q;
  mk_object : ∀ x o, objects s !! x = Some o → ∃ o0, objects s0 !! x = Some o0
    ∧ (colour_of o = GRAY ∨ colour_of o = colour_of o0)
    ∧ count o ≤ count o0 ∧ (x ∉ A → count o = 0)
    ∧ (buffered o = true ↔ x ∈ K ++ todo);
  mk_closed : ∀ x y, coloured GRAY s x → edge x y → coloured GRAY s y;
  mk_gray : ∀ x, coloured GRAY s x → ∃ r, r ∈ K ∧ rtc edge r x;
  mk_kept : ∀ r, r ∈ K → r ∈ A ∧ coloured GRAY s r;
  mk_done : ∀ x, x ∈ done → ¬ coloured PURPLE s x;
  mk_free_nodup : NoDup (free_set s);
  mk_free : ∀ x, x ∈ free_set s ↔ x ∈ done ∧ x ∉ A }.

Lemma refs_le_total q : q ≠ 0 → state_refs s0 q ≤ total s0 q.
Proof.
  intros Hq. unfold total. rewrite (debt_counted _ _ _ Hs0). unfold cnt.
  destruct (objects s0 !! q) as [o|] eqn:Ho; simpl.
  - rewrite (c_count _ _ _ Hs0 q o Ho). pose proof (c_ext _ _ _ Hs0 q). lia.
  - destruct (decide (0 < state_refs s0 q)) as [Hpos|]; [|lia].
    apply msum_pos in Hpos as (x & cs & Hcs & Hx). case_decide as HxA; [|done].
    destruct (counted_closed _ _ _ Hs0) as [_ Hcl]. destruct (Hcl x HxA) as (cs' & Hcs' & Hall).
    simplify_eq. apply occ_pos in Hx. destruct (Hall q Hx) as [?|Hqa]; [done|].
    apply elem_of_alive in Hqa as (o & Ho' & _). congruence.
Qed.

Lemma number_size f s : graph_of s = g → number f s ≤ Z.of_nat (size (objects s0)).
Proof.
  intros Hg. assert (Z.of_nat (size (objects s0)) = msum (λ _ _, 1) g) as ->.
  { unfold graph_of. generalize (objects s0). intros h.
    induction h as [|k x h Hk IH] using map_ind; [done|].
    rewrite fmap_insert, msum_insert by (by rewrite lookup_fmap, Hk).
    rewrite map_size_insert_None by done. lia. }
  apply msum_le; [|done]. intros x o Ho. right. exists (children o).
  rewrite <-Hg, graph_lookup, Ho. split; [done|]. by destruct (f _).
Qed.

Lemma marking_start : marking [] [] (roots s0) s0.
Proof.
  split; try done.
  - split; [done| |]; intros x o.
    + intros Ho. by rewrite (not_in_debt _ _ _ Hs0 x o Ho).
    + intros _ Ho _. by rewrite (not_in_debt _ _ _ Hs0 x o Ho).
  - apply (c_nodup _ _ _ Hs0).
  - intros x o Ho. exists o. split; [done|]. split; [by right|]. split; [done|]. split.
    + intros Hx. pose proof (count_nonneg _ _ _ Hs0 x o Ho). destruct (decide (0 < count o)); [|lia].
      destruct Hx. apply elem_of_alive. eauto.
    + simpl. rewrite (c_roots _ _ _ Hs0 x). rewrite Ho. split; [eauto|]. by intros (o' & [= ->] & ?).
  - intros x y (o & Ho & Hc)%coloured_inv. pose proof (not_in_debt _ _ _ Hs0 x o Ho) as H. by rewrite Hc in H.
  - intros x (o & Ho & Hc)%coloured_inv. pose proof (not_in_debt _ _ _ Hs0 x o Ho) as H. by rewrite Hc in H.
  - intros r. by rewrite elem_of_nil.
  - intros x. by rewrite elem_of_nil.
  - rewrite (c_free _ _ _ Hs0). constructor.
  - intros x. rewrite (c_free _ _ _ Hs0), !elem_of_nil. tauto.
Qed.
Context (fuel : nat) (Hfuel : Z.of_nat (size (objects s0)) < Z.of_nat fuel).

Section step.
Context (done K todo : list Z) (p : Z) (s : rc_state) (o o0 : object).
Context (Hm : marking done K (p :: todo) s) (Hroots : roots s0 = done ++ p :: todo).
Context (Ho : objects s !! p = Some o) (Ho0 : objects s0 !! p = Some o0).

Lemma root_not_kept : p ∉ K.
Proof.
  pose proof (mk_nodup _ _ _ _ Hm) as H. apply NoDup_app in H as (_ & H & _).
  intros Hp. apply (H p Hp). by left.
Qed.

Lemma root_not_done : p ∉ done.
Proof.
  pose proof (c_nodup _ _ _ Hs0) as H. rewrite Hroots in H. apply NoDup_app in H as (_ & H & _).
  intros Hp. apply (H p Hp). by left.
Qed.

Lemma gray_in_A x : coloured GRAY s x → x ∈ A.
Proof.
  intros (ox & Hox & Hc)%coloured_inv. apply (ready_debt _ _ _ _ _ (mk_ready _ _ _ _ Hm) x ox Hox).
  by rewrite Hc.
Qed.

(** An object that no candidate root reaches keeps its count. *)
Lemma black_count : p ∈ A → colour_of o ≠ GRAY → 0 < count o.
Proof.
  intros HpA Hc. assert (p ≠ 0) as Hp0 by (apply (in_A _ _ (counted_closed _ _ _ Hs0) p HpA)).
  pose proof (mk_total _ _ _ _ Hm p Hp0) as Ht.
  rewrite (total_counted _ _ _ Hs0 p Hp0 HpA) in Ht. unfold total in Ht. rewrite (cnt_lookup _ _ _ Ho) in Ht.
  apply elem_of_alive in HpA as (o1 & Ho1 & Hpos). simplify_eq. rewrite (c_count _ _ _ Hs0 p o0 Ho0) in Hpos.
  assert (debt s p = 0) as Hd; [|lia]. apply Z.le_antisymm; [|apply debt_nonneg].
  destruct (decide (0 < debt s p)) as [Hlt|]; [|lia]. exfalso.
  apply msum_pos in Hlt as (x & ox & Hox & Hx). destruct (in_debt (colour_of ox)) eqn:Hin; [|done].
  pose proof (ready_debt _ _ _ _ _ (mk_ready _ _ _ _ Hm) x ox Hox Hin) as HxA.
  assert (colour_of ox = GRAY) as Hg.
  { destruct (decide (colour_of ox = GRAY)) as [?|Hne]; [done|].
    pose proof (ready_colour _ _ _ _ _ (mk_ready _ _ _ _ Hm) x ox HxA Hox Hne) as H. by rewrite H in Hin. }
  assert (coloured GRAY s p) as (o2 & Ho2 & ?)%coloured_inv; [|simplify_eq].
  apply (mk_closed _ _ _ _ Hm x p); [apply coloured_inv; eauto|].
  exists (children ox). split; [done|]. rewrite <-(ready_graph _ _ _ _ _ (mk_ready _ _ _ _ Hm)), graph_lookup, Hox.
  split; [done|]. split; [by apply occ_pos|done].
Qed.

Lemma mark_purple : colour_of o = PURPLE →
  ∃ s', mark_root fuel p s = Ret s' ∧ marking (done ++ [p]) (K ++ [p]) todo s'.
Proof.
  intros Hc. unfold mark_root. rewrite (header_lookup _ _ _ Ho), bind_ret, decide_True, markgray_visit by done.
  assert (HpA : p ∈ A).
  { destruct (mk_object _ _ _ _ Hm p o Ho) as (o1 & Ho1 & [?|Hcol] & _); [congruence|]. simplify_eq.
    apply elem_of_alive. exists o0. split; [done|].
    destruct (c_colour _ _ _ Hs0 p o0 Ho0) as [?|(_ & _ & [?|Hd])]; [congruence|done|].
    by rewrite elem_of_empty in Hd. }
  pose proof (mk_ready _ _ _ _ Hm) as Hr.
  destruct (visit_marks g A GRAY (-1) (counted_closed _ _ _ Hs0) (or_intror eq_refl) eq_refl fuel p s Hr HpA)
    as (s' & Hs' & Hmk & Hgp).
  - intros q Hq. simpl. rewrite occ_nil, (mk_total _ _ _ _ Hm q Hq). split.
    + pose proof (refs_le_total q Hq). lia.
    + unfold cnt. destruct (objects s !! q) as [oq|] eqn:Hoq; [|done]. simpl.
      destruct (mk_object _ _ _ _ Hm q oq Hoq) as (oq0 & Hoq0 & _ & Hle & _).
      pose proof (c_range _ _ _ Hs0 q oq0 Hoq0). lia.
  - eapply Z.le_lt_trans; [|exact Hfuel]. apply number_size. by apply ready_graph in Hr.
  - exists s'. split; [done|].
    assert (Hr' : ready g A GRAY (-1) s').
    { eapply ready_step; [apply (counted_closed _ _ _ Hs0)|done| |exact Hmk].
      intros r. rewrite list_elem_of_singleton. intros ->. by right. }
    split.
    + done.
    + by rewrite (marks_roots _ _ _ _ _ _ _ _ Hmk), (mk_roots _ _ _ _ Hm), <-app_assoc.
    + rewrite <-app_assoc. apply (mk_nodup _ _ _ _ Hm).
    + by rewrite (marks_log _ _ _ _ _ _ _ _ Hmk), (mk_log _ _ _ _ Hm).
    + intros q Hq. rewrite (marks_total _ _ _ _ _ _ _ _ Hmk q Hq), (mk_total _ _ _ _ Hm q Hq), occ_nil. lia.
    + intros x ox' Hox'. assert (is_Some (objects s !! x)) as [ox Hox].
      { rewrite <-(fmap_is_Some children), <-graph_lookup.
        rewrite <-(marks_graph _ _ _ _ _ _ _ _ Hmk), graph_lookup, Hox'. done. }
      destruct (mk_object _ _ _ _ Hm x ox Hox) as (ox0 & Hox0 & Hcol & Hle & Hdead & Hbuf).
      exists ox0. split; [done|].
      pose proof (marks_flags _ _ _ _ _ _ _ _ Hmk) as Hfl.
      apply (f_equal (lookup x)) in Hfl. rewrite !flags_lookup, Hox, Hox' in Hfl. injection Hfl as Hfl.
      rewrite <-app_assoc, Hfl. split; [|split; [|split; [|done]]].
      * destruct (marks_same _ _ _ _ _ _ _ _ Hmk x) as [Hx|Heq]; [|rewrite Heq in Hox'; by simplify_eq].
        apply coloured_inv in Hx as (? & ? & ?). simplify_eq. by left.
      * pose proof (marks_count _ _ _ _ _ _ _ _ Hmk x) as H.
        rewrite (cnt_lookup _ _ _ Hox), (cnt_lookup _ _ _ Hox') in H. lia.
      * intros Hx. destruct (marks_same _ _ _ _ _ _ _ _ Hmk x) as [Hgx|Heq].
        -- destruct Hx. apply coloured_inv in Hgx as (ox1 & Hox1 & Hc1).
           apply (ready_debt _ _ _ _ _ Hr' x ox1 Hox1). by rewrite Hc1.
        -- rewrite Heq in Hox'. simplify_eq. auto.
    + intros x y Hx Hxy. destruct (decide (coloured GRAY s x)) as [Hx'|Hx'].
      * apply (marks_mono _ _ _ _ _ _ _ _ Hmk). by apply (mk_closed _ _ _ _ Hm x y).
      * destruct (marks_new _ _ _ _ _ _ _ _ Hmk x Hx Hx') as [Hcl _]. by apply Hcl.
    + intros x Hx. destruct (decide (coloured GRAY s x)) as [Hx'|Hx'].
      * destruct (mk_gray _ _ _ _ Hm x Hx') as (r & Hr1 & Hreach). exists r. rewrite elem_of_app. auto.
      * destruct (marks_new _ _ _ _ _ _ _ _ Hmk x Hx Hx') as [_ (r & Hr1 & _ & Hreach)].
        exists r. rewrite elem_of_app. auto.
    + intros r [Hr1|Hr1]%elem_of_app.
      * destruct (mk_kept _ _ _ _ Hm r Hr1) as [HrA Hrg]. split; [done|]. by apply (marks_mono _ _ _ _ _ _ _ _ Hmk).
      * apply list_elem_of_singleton in Hr1 as ->. done.
    + intros x [Hx|Hx]%elem_of_app.
      * intros Hpu. destruct (marks_same _ _ _ _ _ _ _ _ Hmk x) as [Hgx|Heq].
        -- by pose proof (coloured_fun _ _ _ _ Hpu Hgx).
        -- apply (mk_done _ _ _ _ Hm x Hx). unfold coloured in *. by rewrite <-Heq.
      * apply list_elem_of_singleton in Hx as ->. intros Hpu. by pose proof (coloured_fun _ _ _ _ Hpu Hgp).
    + rewrite (marks_free _ _ _ _ _ _ _ _ Hmk). apply (mk_free_nodup _ _ _ _ Hm).
    + intros x. rewrite (marks_free _ _ _ _ _ _ _ _ Hmk), (mk_free _ _ _ _ Hm x), elem_of_app, list_elem_of_singleton.
      split; [tauto|]. intros [[?| ->] ?]; [done|contradiction].
Qed.

Lemma mark_other : colour_of o ≠ PURPLE →
  ∃ s', mark_root fuel p s = Ret s' ∧ marking (done ++ [p]) K todo s'.
Proof.
  intros Hc. unfold mark_root. rewrite (header_lookup _ _ _ Ho), bind_ret, decide_False by done.
  cbv zeta. eexists. split; [reflexivity|].
  unfold mcxx_remove_from_roots. simpl. rewrite (mk_roots _ _ _ _ Hm), (remove_root_app _ _ _ root_not_kept).
  set (o' := with_buffered false o).
  assert (∀ s', objects s' = <[p:=o']> (objects s) → roots s' = K ++ todo → deallocated s' = deallocated s →
    NoDup (free_set s') → (∀ x, x ∈ free_set s' ↔ x ∈ free_set s ∨ (x = p ∧ p ∉ A)) →
    marking (done ++ [p]) K todo s') as Hgoal.
  { intros s' Hob Hro Hlog Hnd Hfree.
    assert (Hgr : graph_of s' = graph_of s).
    { unfold graph_of at 1. rewrite Hob. by apply (graph_put s p o o' Ho). }
    assert (Hcol : ∀ c x, coloured c s' x ↔ coloured c s x).
    { intros c x. unfold coloured. rewrite Hob. destruct (decide (p = x)) as [->|Hne].
      - by rewrite lookup_insert_eq, Ho.
      - by rewrite lookup_insert_ne. }
    assert (Htot : ∀ q, total s' q = total s q).
    { intros q. transitivity (total (put p o' s) q); [unfold total, cnt, debt; by rewrite Hob|].
      unfold total. rewrite cnt_put, (debt_put s p o o' Ho). simpl.
      case_decide; [subst; rewrite (cnt_lookup _ _ _ Ho)|]; lia. }
    pose proof (mk_ready _ _ _ _ Hm) as [Hrg Hrd Hrc]. split.
    - split; [by rewrite Hgr| |]; intros x ox; rewrite Hob; destruct (decide (p = x)) as [<-|Hne].
      + rewrite lookup_insert_eq. intros [= <-]. by apply (Hrd p o).
      + rewrite lookup_insert_ne by done. apply Hrd.
      + rewrite lookup_insert_eq. intros HpA [= <-]. by apply (Hrc p o).
      + rewrite lookup_insert_ne by done. apply Hrc.
    - done.
    - eapply sublist_NoDup; [apply (mk_nodup _ _ _ _ Hm)|]. apply sublist_app; [done|]. by constructor.
    - by rewrite Hlog, (mk_log _ _ _ _ Hm).
    - intros q Hq. by rewrite Htot, (mk_total _ _ _ _ Hm q Hq).
    - intros x ox Hox. rewrite Hob in Hox. destruct (decide (p = x)) as [<-|Hne].
      + rewrite lookup_insert_eq in Hox. injection Hox as <-.
        destruct (mk_object _ _ _ _ Hm p o Ho) as (o1 & ? & ? & ? & ? & ?). exists o1.
        split; [done|]. split; [done|]. split; [done|]. split; [done|]. simpl. split; [done|].
        intros [HK|Ht]%elem_of_app; [by destruct (root_not_kept HK)|].
        pose proof (mk_nodup _ _ _ _ Hm) as (_ & _ & Hnd')%NoDup_app. by apply NoDup_cons in Hnd' as [? _].
      + rewrite lookup_insert_ne in Hox by done.
        destruct (mk_object _ _ _ _ Hm x ox Hox) as (o1 & ? & ? & ? & ? & Hb). exists o1.
        split; [done|]. split; [done|]. split; [done|]. split; [done|]. rewrite Hb, !elem_of_app, elem_of_cons.
        split; [|tauto]. intros [?|[->|?]]; [tauto|done|tauto].
    - intros x y. rewrite !Hcol. apply (mk_closed _ _ _ _ Hm).
    - intros x. rewrite Hcol. apply (mk_gray _ _ _ _ Hm).
    - intros r. rewrite Hcol. apply (mk_kept _ _ _ _ Hm).
    - intros x [Hx|Hx]%elem_of_app; rewrite Hcol; [by apply (mk_done _ _ _ _ Hm)|].
      apply list_elem_of_singleton in Hx as ->. intros (o1 & ? & ?)%coloured_inv. by simplify_eq.
    - done.
    - intros x. rewrite Hfree, (mk_free _ _ _ _ Hm x), elem_of_app, list_elem_of_singleton.
      split; [intros [?|[-> ?]]; tauto|]. intros [[?|?] ?]; [tauto|subst; tauto]. }
  assert (Hfree : p ∉ free_set s).
  { rewrite (mk_free _ _ _ _ Hm p). intros [Hp _]. by apply root_not_done. }
  case_decide as Hdead.
  - unfold mcxx_add_to_free_set. simpl. rewrite decide_False by done. apply Hgoal; try done.
    + simpl. apply NoDup_app. split; [apply (mk_free_nodup _ _ _ _ Hm)|]. split.
      * intros x Hx ->%list_elem_of_singleton. done.
      * apply NoDup_singleton.
    + intros x. simpl. rewrite elem_of_app, list_elem_of_singleton.
      assert (p ∉ A); [|tauto]. intros HpA. simpl in Hdead. destruct Hdead as [Hb Hz].
      assert (colour_of o ≠ GRAY) as Hng by congruence. pose proof (black_count HpA Hng). lia.
  - apply Hgoal; try done; [apply (mk_free_nodup _ _ _ _ Hm)|]. intros x. simpl.
    assert (p ∈ A); [|tauto]. destruct (decide (p ∈ A)) as [|HpA]; [done|]. exfalso. apply Hdead. simpl.
    destruct (mk_object _ _ _ _ Hm p o Ho) as (o1 & Ho1 & [Hg|Hcol] & _ & Hz & _).
    + destruct HpA. apply gray_in_A, coloured_inv. eauto.
    + simplify_eq. split; [|by apply Hz]. rewrite Hcol in *.
      by destruct (c_colour _ _ _ Hs0 p o0 Ho0) as [?|[? _]].
Qed.
End step.

Lemma markroots_loop todo : ∀ done K s, marking done K todo s → roots s0 = done ++ todo →
  ∃ K' s', walk (mark_root fuel) todo s = Ret s' ∧ marking (roots s0) K' [] s'.
Proof.
  induction todo as [|p todo IH]; intros done K s Hm Hroots.
  - exists K, s. split; [by simpl|]. by rewrite Hroots, app_nil_r.
  - assert (p ∈ roots s0) as (o0 & Ho0 & _)%(c_roots _ _ _ Hs0).
    { rewrite Hroots, elem_of_app. right. by left. }
    assert (is_Some (objects s !! p)) as [o Ho].
    { rewrite <-(fmap_is_Some children), <-graph_lookup, (ready_graph _ _ _ _ _ (mk_ready _ _ _ _ Hm)).
      rewrite graph_lookup, Ho0. done. }
    assert (∃ K' s', mark_root fuel p s = Ret s' ∧ marking (done ++ [p]) K' todo s') as (K' & s' & Hs' & Hm').
    { destruct (decide (colour_of o = PURPLE)) as [Hc|Hc].
      - destruct (mark_purple done K todo p s o o0 Hm Ho Ho0 Hc) as (s' & ? & ?). eauto.
      - destruct (mark_other done K todo p s o o0 Hm Hroots Ho Ho0 Hc) as (s' & ? & ?). eauto. }
    simpl. rewrite Hs', bind_ret. apply (IH (done ++ [p]) K' s' Hm'). by rewrite <-app_assoc.
Qed.

Lemma markroots_marks : ∃ K s1, mcxx_markroots fuel s0 = Ret s1 ∧ marking (roots s0) K [] s1.
Proof. by apply (markroots_loop (roots s0) [] [] s0 marking_start). Qed.
End markroots.
