(* ===== verification/RefScan.v ===== *)
(** * The second phase of the collection

    [mcxx_scanroots] gives the references back to the objects that something
    outside still refers to, and leaves the others white. *)

From S2P Require Import Prelude RefCount RefGraph RefMark RefMarkRoots.
#[local] Open Scope Z_scope.

Section msum_split.
Context {A : Type}.

Lemma msum_add (f g : Z → A → Z) (h : gmap Z A) : msum (λ k x, f k x + g k x) h = msum f h + msum g h.
Proof.
  induction h as [|k x h Hk IH] using map_ind; [done|]. rewrite !msum_insert by done. lia.
Qed.
End msum_split.

Section scan.
Context (ext : Z → Z) (s0 : rc_state) (Hs0 : counted ext ∅ s0).
Notation g := (graph_of s0).
Notation A := (alive s0).
Notation edge := (edge g A).
Context (K : list Z) (s1 : rc_state) (Hm : marking s0 (roots s0) K [] s1).

(** The references from objects that are not in debt. *)
Definition clear (s : rc_state) (q : Z) : Z :=
  msum (λ x o, if bool_decide (x ∈ A) && negb (in_debt (colour_of o)) then occ q (children o) else 0)
    (objects s).

Lemma refs_split c d s q : ready g A c d s → refs g A q = debt s q + clear s q.
Proof.
  intros Hr. unfold debt, clear. rewrite <-msum_add. symmetry. unfold refs. rewrite <-(ready_graph _ _ _ _ _ Hr).
  assert (Hnn : ∀ b q l, 0 ≤ (if b : bool then occ q l else 0)) by (intros [] ? ?; [apply occ_nonneg|done]).
  apply msum_eq.
  - intros x o _. pose proof (Hnn (in_debt (colour_of o)) q (children o)).
    pose proof (Hnn (bool_decide (x ∈ A) && negb (in_debt (colour_of o))) q (children o)). lia.
  - intros. case_decide; [apply occ_nonneg|done].
  - intros x o Ho. right. exists (children o). rewrite graph_lookup, Ho. split; [done|].
    destruct (in_debt (colour_of o)) eqn:Hin; simpl.
    + rewrite decide_True by (by eapply ready_debt). rewrite andb_false_r. lia.
    + rewrite andb_true_r. by repeat case_decide || case_bool_decide.
  - intros x cs Hcs. rewrite graph_lookup in Hcs. destruct (objects s !! x) as [o|] eqn:Ho; [|done].
    injection Hcs as <-. right. exists o. split; [done|].
    destruct (in_debt (colour_of o)) eqn:Hin; simpl.
    + rewrite decide_True by (by eapply ready_debt). rewrite andb_false_r. lia.
    + rewrite andb_true_r. by repeat case_decide || case_bool_decide.
Qed.

Record scanned (s : rc_state) : Prop := {
  sn_ready : ready g A BLACK 1 s;
  sn_flags : flags_of s = flags_of s1;
  sn_roots : roots s = K;
  sn_free : free_set s = free_set s1;
  sn_log : deallocated s = deallocated s0;
  sn_total : ∀ q, q ≠ 0 → total s q = total s0 q;
  sn_count : ∀ q, 0 ≤ cnt s q;
  sn_white : ∀ x o, objects s !! x = Some o → colour_of o = WHITE → count o ≤ 0;
  sn_black : ∀ x, x ∈ A → coloured BLACK s x → reachable ext s0 x }.

Lemma marked_colour x o : objects s1 !! x = Some o → colour_of o = GRAY ∨ colour_of o = BLACK.
Proof.
  intros Ho. destruct (mk_object _ _ _ _ _ Hm x o Ho) as (o0 & Ho0 & [?|Hc] & _); [by left|].
  destruct (c_colour _ _ _ Hs0 x o0 Ho0) as [?|(Hp & Hb & _)]; [right; congruence|]. exfalso.
  apply (mk_done _ _ _ _ _ Hm x).
  - apply (c_roots _ _ _ Hs0). eauto.
  - apply coloured_inv. exists o. split; [done|congruence].
Qed.

(** An object that the first phase did not come to is in use. *)
Lemma marked_black x : x ∈ A → coloured BLACK s1 x → reachable ext s0 x.
Proof.
  intros HxA Hx. destruct (c_candidates _ _ _ Hs0 x HxA) as (r & HrA & [?|Hr] & Hreach); [by exists r|].
  exfalso. assert (coloured GRAY s1 r) as Hg.
  { apply coloured_inv in Hr as (o0 & Ho0 & Hc).
    assert (is_Some (objects s1 !! r)) as [o Ho].
    { rewrite <-(fmap_is_Some children), <-graph_lookup, (ready_graph _ _ _ _ _ (mk_ready _ _ _ _ _ Hm)).
      rewrite graph_lookup, Ho0. done. }
    apply coloured_inv. exists o. split; [done|].
    destruct (mk_object _ _ _ _ _ Hm r o Ho) as (o0' & ? & [?|Hc'] & _); [done|]. simplify_eq.
    destruct (marked_colour r o Ho) as [?|?]; [done|congruence]. }
  assert (coloured GRAY s1 x) as Hgx.
  { clear Hx HxA Hr HrA. induction Hreach as [|r y x Hry _ IH]; [done|]. apply IH.
    by apply (mk_closed _ _ _ _ _ Hm r). }
  by pose proof (coloured_fun _ _ _ _ Hx Hgx).
Qed.

Lemma scanned_start : scanned s1.
Proof.
  pose proof (mk_ready _ _ _ _ _ Hm) as [Hg Hd Hc].
  assert (Hr : ready g A BLACK 1 s1).
  { split; [done|done|]. intros x o HxA Ho Hne. destruct (marked_colour x o Ho) as [E|E]; [by rewrite E|done]. }
  split; try done.
  - by rewrite (mk_roots _ _ _ _ _ Hm), app_nil_r.
  - apply (mk_log _ _ _ _ _ Hm).
  - apply (mk_total _ _ _ _ _ Hm).
  - intros q. destruct (decide (q = 0)) as [->|Hq].
    + unfold cnt. destruct (objects s1 !! 0) as [o|] eqn:Ho; [|done].
      destruct (mk_object _ _ _ _ _ Hm 0 o Ho) as (o0 & Ho0 & _). by rewrite (c_null _ _ _ Hs0) in Ho0.
    + pose proof (mk_total _ _ _ _ _ Hm q Hq) as Ht. unfold total at 1 in Ht.
      pose proof (debt_refs g A BLACK 1 s1 q Hr). pose proof (refs_le_total ext s0 Hs0 q Hq). lia.
  - intros x o Ho Hw. destruct (marked_colour x o Ho); congruence.
  - apply marked_black.
Qed.

(** What the phase does besides: gray objects only become fewer and black ones
    more, and an object that is gray no more points to no gray object. *)
Record scans (s s' : rc_state) : Prop := {
  sc_gray : ∀ x, coloured GRAY s' x → coloured GRAY s x;
  sc_black : ∀ x, coloured BLACK s x → coloured BLACK s' x;
  sc_closed : ∀ x y, coloured GRAY s x → ¬ coloured GRAY s' x → edge x y → ¬ coloured GRAY s' y }.

Lemma scans_refl s : scans s s.
Proof. split; naive_solver. Qed.

Lemma scans_trans s s' s'' : scans s s' → scans s' s'' → scans s s''.
Proof.
  intros [Hg1 Hb1 Hc1] [Hg2 Hb2 Hc2]. split; [auto|auto|].
  intros x y Hx Hnx Hxy Hy. destruct (decide (coloured GRAY s' x)) as [Hx'|Hx'].
  - by apply (Hc2 x y Hx' Hnx Hxy).
  - apply (Hc1 x y Hx Hx' Hxy). auto.
Qed.

(** The measure of the recursion. *)
Definition grays (c : colour) : bool := bool_decide (c = GRAY).
Definition nonblacks (c : colour) : bool := negb (bool_decide (c = BLACK)).
Definition to_scan (s : rc_state) : Z := number grays s + number nonblacks s.

Lemma number_le f s s' :
  (∀ x o, objects s' !! x = Some o → f (colour_of o) = true →
     ∃ o', objects s !! x = Some o' ∧ f (colour_of o') = true) →
  number f s' ≤ number f s.
Proof.
  intros Hf. apply msum_le; [|intros; by destruct (f _)]. intros x o Ho.
  destruct (f (colour_of o)) eqn:Hc; [|by left]. right.
  destruct (Hf x o Ho Hc) as (o' & ? & Hc'). exists o'. by rewrite Hc'.
Qed.

Lemma to_scan_le s s' : graph_of s = graph_of s' → scans s s' → to_scan s' ≤ to_scan s.
Proof.
  intros Hgr [Hg Hb _]. unfold to_scan.
  assert (number grays s' ≤ number grays s).
  { apply number_le. intros x o Ho Hc. apply bool_decide_eq_true in Hc.
    assert (coloured GRAY s x) as (o' & Ho' & Hc')%coloured_inv by (apply Hg, coloured_inv; eauto).
    exists o'. unfold grays. by rewrite Hc', bool_decide_eq_true_2. }
  assert (number nonblacks s' ≤ number nonblacks s); [|lia].
  apply number_le. intros x o Ho Hc. unfold nonblacks in *. apply negb_true_iff, bool_decide_eq_false in Hc.
  assert (is_Some (objects s !! x)) as [o' Ho'].
  { rewrite <-(fmap_is_Some children), <-graph_lookup, Hgr, graph_lookup, Ho. done. }
  exists o'. split; [done|]. rewrite negb_true_iff, bool_decide_eq_false. intros Hb'.
  assert (coloured BLACK s' x) as (o'' & ? & ?)%coloured_inv by (apply Hb, coloured_inv; eauto). simplify_eq.
Qed.
(** The count of an object is that of the references that the clients or objects
    not in debt hold. *)
Lemma scanned_count s q o : scanned s → q ∈ A → objects s !! q = Some o → count o = ext q + clear s q.
Proof.
  intros Hs HqA Ho. assert (q ≠ 0) as Hq by (apply (in_A _ _ (counted_closed _ _ _ Hs0) q HqA)).
  pose proof (sn_total _ Hs q Hq) as Ht. rewrite (total_counted _ _ _ Hs0 q Hq HqA) in Ht.
  rewrite (refs_split _ _ _ q (sn_ready _ Hs)) in Ht. unfold total in Ht.
  rewrite (cnt_lookup _ _ _ Ho) in Ht. lia.
Qed.

Lemma clear_pos s q : scanned s → q ≠ 0 → 0 < clear s q → ∃ x, x ∈ A ∧ coloured BLACK s x ∧ edge x q.
Proof.
  intros Hs Hq (x & o & Ho & Hpos)%msum_pos.
  destruct (bool_decide (x ∈ A)) eqn:HxA; [|done]. apply bool_decide_eq_true in HxA.
  destruct (in_debt (colour_of o)) eqn:Hin; [done|]. simpl in Hpos. apply occ_pos in Hpos.
  exists x. split; [done|]. split.
  - apply coloured_inv. exists o. split; [done|].
    destruct (decide (colour_of o = BLACK)) as [?|Hne]; [done|].
    pose proof (ready_colour _ _ _ _ _ (sn_ready _ Hs) x o HxA Ho Hne) as H. by rewrite H in Hin.
  - exists (children o). split; [done|]. rewrite <-(ready_graph _ _ _ _ _ (sn_ready _ Hs)), graph_lookup, Ho. done.
Qed.

Lemma counted_reachable s p o :
  scanned s → p ∈ A → objects s !! p = Some o → 0 < count o → reachable ext s0 p.
Proof.
  intros Hs HpA Ho Hpos. rewrite (scanned_count s p o Hs HpA Ho) in Hpos.
  destruct (decide (0 < ext p)) as [?|Hext]; [by exists p|].
  destruct (clear_pos s p Hs) as (x & HxA & Hb & Hxp); [apply (in_A _ _ (counted_closed _ _ _ Hs0) p HpA)|lia|].
  destruct (sn_black _ Hs x HxA Hb) as (r & Hr & Hreach). exists r. split; [done|]. by eapply rtc_r.
Qed.

Lemma blacken fuel p s o :
  scanned s → p ∈ A → objects s !! p = Some o → colour_of o = GRAY → 0 < count o →
  number nonblacks s < Z.of_nat fuel →
  ∃ s', mcxx_scanblack fuel p s = Ret s' ∧ scanned s' ∧ scans s s' ∧ coloured BLACK s' p.
Proof.
  intros Hs HpA Ho Hg Hpos Hfuel. pose proof (counted_closed _ _ _ Hs0) as Hcl.
  destruct (visit_marks g A BLACK 1 Hcl (or_introl eq_refl) eq_refl fuel p s (sn_ready _ Hs) HpA)
    as (s' & Hs' & Hmk & Hbp).
  - intros q Hq. simpl. rewrite occ_nil. split; [apply (sn_count _ Hs)|].
    rewrite (sn_total _ Hs q Hq). unfold total. rewrite (debt_counted _ _ _ Hs0). unfold cnt.
    destruct (objects s0 !! q) as [oq|] eqn:Hoq; simpl; [|lia]. pose proof (c_range _ _ _ Hs0 q oq Hoq). lia.
  - done.
  - exists s'. split; [|split; [|split]].
    + eapply scanblack_visit; [by apply header_lookup|congruence|done].
    + split.
      * eapply ready_step; [done|apply (sn_ready _ Hs)| |exact Hmk]. intros r ->%list_elem_of_singleton. by right.
      * rewrite (marks_flags _ _ _ _ _ _ _ _ Hmk). apply (sn_flags _ Hs).
      * rewrite (marks_roots _ _ _ _ _ _ _ _ Hmk). apply (sn_roots _ Hs).
      * rewrite (marks_free _ _ _ _ _ _ _ _ Hmk). apply (sn_free _ Hs).
      * rewrite (marks_log _ _ _ _ _ _ _ _ Hmk). apply (sn_log _ Hs).
      * intros q Hq. rewrite (marks_total _ _ _ _ _ _ _ _ Hmk q Hq), occ_nil, (sn_total _ Hs q Hq). lia.
      * intros q. pose proof (marks_count _ _ _ _ _ _ _ _ Hmk q). pose proof (sn_count _ Hs q). lia.
      * intros x ox Hox Hw. destruct (marks_same _ _ _ _ _ _ _ _ Hmk x) as [Hb|Heq].
        -- apply coloured_inv in Hb as (? & ? & ?). simplify_eq. congruence.
        -- rewrite Heq in Hox. by apply (sn_white _ Hs x).
      * intros x HxA Hb. destruct (decide (coloured BLACK s x)) as [Hb'|Hb']; [by apply (sn_black _ Hs)|].
        destruct (marks_new _ _ _ _ _ _ _ _ Hmk x Hb Hb') as [_ (r & ->%list_elem_of_singleton & _ & Hreach)].
        destruct (counted_reachable s p o Hs HpA Ho Hpos) as (r' & Hr' & Hreach').
        exists r'. split; [done|]. by etrans.
    + split.
      * intros x Hx. destruct (marks_same _ _ _ _ _ _ _ _ Hmk x) as [Hb|Heq].
        -- by pose proof (coloured_fun _ _ _ _ Hx Hb).
        -- unfold coloured in *. by rewrite <-Heq.
      * apply (marks_mono _ _ _ _ _ _ _ _ Hmk).
      * intros x y Hx Hnx Hxy Hy. destruct (marks_same _ _ _ _ _ _ _ _ Hmk x) as [Hb|Heq].
        -- assert (¬ coloured BLACK s x) as Hnb by (intros H; by pose proof (coloured_fun _ _ _ _ Hx H)).
           destruct (marks_new _ _ _ _ _ _ _ _ Hmk x Hb Hnb) as [Hc _].
           pose proof (Hc y Hxy) as Hby. by pose proof (coloured_fun _ _ _ _ Hy Hby).
        -- apply Hnx. unfold coloured in *. by rewrite Heq.
    + done.
Qed.

Section scan_walk.
Context (fuel : nat).
Context (IH : ∀ p s, scanned s → p = 0 ∨ p ∈ A → to_scan s < Z.of_nat fuel →
  ∃ s', mcxx_scan fuel p s = Ret s' ∧ scanned s' ∧ scans s s' ∧ ¬ coloured GRAY s' p).

Lemma scan_walk l : ∀ s, scanned s → (∀ p, p ∈ l → p = 0 ∨ p ∈ A) → to_scan s < Z.of_nat fuel →
  ∃ s', walk (mcxx_scan fuel) l s = Ret s' ∧ scanned s' ∧ scans s s'
    ∧ ∀ p, p ∈ l → ¬ coloured GRAY s' p.
Proof.
  induction l as [|p l IHl]; intros s Hs Hl Hfuel.
  - exists s. split; [done|]. split; [done|]. split; [apply scans_refl|]. intros p. by rewrite elem_of_nil.
  - simpl. destruct (IH p s Hs) as (s' & -> & Hs' & Hsc & Hp); [apply Hl; by left|done|]. rewrite bind_ret.
    assert (graph_of s = graph_of s') as Hgr.
    { by rewrite (ready_graph _ _ _ _ _ (sn_ready _ Hs)), (ready_graph _ _ _ _ _ (sn_ready _ Hs')). }
    destruct (IHl s' Hs') as (s'' & -> & Hs'' & Hsc' & Hp'); [|pose proof (to_scan_le s s' Hgr Hsc); lia|].
    + intros q Hq. apply Hl. by right.
    + exists s''. split; [done|]. split; [done|]. split; [by eapply scans_trans|].
      intros q [->|Hq]%elem_of_cons; [|by apply Hp']. intros Hg. by apply Hp, (sc_gray _ _ Hsc').
Qed.
End scan_walk.

Lemma scan_scans fuel : ∀ p s, scanned s → p = 0 ∨ p ∈ A → to_scan s < Z.of_nat fuel →
  ∃ s', mcxx_scan fuel p s = Ret s' ∧ scanned s' ∧ scans s s' ∧ ¬ coloured GRAY s' p.
Proof.
  induction fuel as [|fuel IH]; intros p s Hs Hp Hfuel.
  { unfold to_scan in Hfuel. pose proof (number_nonneg grays s). pose proof (number_nonneg nonblacks s). lia. }
  simpl. destruct (Z.eqb_spec p 0) as [->|Hp0].
  { exists s. split; [done|]. split; [done|]. split; [apply scans_refl|].
    intros (o & Ho & Hc)%coloured_inv. destruct (counted_closed _ _ _ Hs0) as [H0 _]. apply H0.
    apply (ready_debt _ _ _ _ _ (sn_ready _ Hs) 0 o Ho). by rewrite Hc. }
  destruct Hp as [?|HpA]; [done|]. pose proof (ready_graph _ _ _ _ _ (sn_ready _ Hs)) as Hgr.
  destruct (counted_closed _ _ _ Hs0) as [_ Hcl]. destruct (Hcl p HpA) as (cs & Hcs & Hsub).
  pose proof Hcs as Hgcs. rewrite <-Hgr, graph_lookup in Hcs.
  destruct (objects s !! p) as [o|] eqn:Ho; [|done]. injection Hcs as Hcs.
  rewrite (header_lookup _ _ _ Ho), bind_ret. case_decide as Hg.
  2: { exists s. split; [done|]. split; [done|]. split; [apply scans_refl|].
       intros (o' & ? & ?)%coloured_inv. by simplify_eq. }
  assert (Hmeas : 1 ≤ number grays s).
  { rewrite <-(Z.add_0_r 1). unfold number.
    eapply Z.le_trans; [|apply (msum_ge _ _ p o); [|exact Ho]]; cbv beta.
    - by rewrite Hg.
    - intros. by destruct (grays _). }
  destruct (Z.ltb_spec 0 (count o)) as [Hpos|Hpos].
  - destruct (blacken fuel p s o Hs HpA Ho Hg Hpos) as (s' & ? & ? & ? & Hb).
    + unfold to_scan in Hfuel. lia.
    + exists s'. split; [done|]. split; [done|]. split; [done|]. intros Hg'.
      by pose proof (coloured_fun _ _ _ _ Hb Hg').
  - set (o1 := with_colour WHITE o). set (t := put p o1 s).
    assert (Hgt : graph_of t = graph_of s) by by apply (graph_put s p o).
    assert (Hcol : ∀ c x, coloured c t x ↔ if decide (p = x) then WHITE = c else coloured c s x).
    { intros c x. unfold t. by rewrite coloured_put. }
    assert (Hcnt : ∀ q, cnt t q = cnt s q).
    { intros q. unfold t. rewrite cnt_put. case_decide; [subst; by rewrite (cnt_lookup _ _ _ Ho)|done]. }
    assert (Ht : scanned t).
    { split.
      - pose proof (sn_ready _ Hs) as [_ Hd Hc]. split; [by rewrite Hgt| |]; intros x ox; simpl;
          destruct (decide (p = x)) as [<-|Hne].
        + done.
        + rewrite lookup_insert_ne by done. apply Hd.
        + rewrite lookup_insert_eq. intros _ [= <-]. done.
        + rewrite lookup_insert_ne by done. apply Hc.
      - rewrite <-(sn_flags _ Hs). by apply (flags_put s p o).
      - apply (sn_roots _ Hs).
      - apply (sn_free _ Hs).
      - apply (sn_log _ Hs).
      - intros q Hq. rewrite <-(sn_total _ Hs q Hq). unfold total. rewrite Hcnt. unfold t.
        rewrite (debt_put s p o o1 Ho), Hg. simpl. lia.
      - intros q. rewrite Hcnt. apply (sn_count _ Hs).
      - intros x ox Hox Hw. simpl in Hox. destruct (decide (p = x)) as [<-|Hne].
        + rewrite lookup_insert_eq in Hox. injection Hox as <-. done.
        + rewrite lookup_insert_ne in Hox by done. by apply (sn_white _ Hs x).
      - intros x HxA. rewrite Hcol. case_decide; [done|]. by apply (sn_black _ Hs). }
    rewrite Hcs. destruct (scan_walk fuel IH cs t Ht Hsub) as (s' & Hs' & Hsn & Hsc & Hnog).
    { unfold to_scan in *. unfold t. rewrite !(number_put _ _ _ _ Ho), Hg. simpl. lia. }
    exists s'. split; [done|]. split; [done|].
    assert (Hpt : ¬ coloured GRAY t p) by (rewrite Hcol, decide_True; done).
    split; [|intros Hgp; by apply Hpt, (sc_gray _ _ Hsc)]. split.
    + intros x Hx. pose proof (sc_gray _ _ Hsc x Hx) as Hx'. rewrite Hcol in Hx'. by case_decide.
    + intros x Hx. apply (sc_black _ _ Hsc). rewrite Hcol. case_decide as E; [subst|done].
      apply coloured_inv in Hx as (? & ? & ?). simplify_eq. congruence.
    + intros x y Hx Hnx Hxy. destruct (decide (p = x)) as [<-|Hne].
      * apply Hnog. destruct Hxy as (cs' & _ & Hcs' & Hy & _). by simplify_eq.
      * apply (sc_closed _ _ Hsc x y); [|done|done]. by rewrite Hcol, decide_False.
Qed.

(** ** The whole phase *)

Context (fuel : nat) (Hfuel : 2 * Z.of_nat (size (objects s0)) < Z.of_nat fuel).

Lemma scanroots_scans : ∃ s2, mcxx_scanroots fuel s1 = Ret s2 ∧ scanned s2 ∧ scans s1 s2
  ∧ ∀ x, ¬ coloured GRAY s2 x.
Proof.
  assert (Hroots : roots s1 = K) by (by rewrite (mk_roots _ _ _ _ _ Hm), app_nil_r).
  destruct (scan_walk fuel (scan_scans fuel) (roots s1) s1 scanned_start) as (s2 & Hs2 & Hsn & Hsc & Hnog).
  - intros r Hr. rewrite Hroots in Hr. right. by apply (mk_kept _ _ _ _ _ Hm).
  - unfold to_scan. pose proof (ready_graph _ _ _ _ _ (mk_ready _ _ _ _ _ Hm)) as Hg.
    pose proof (number_size s0 grays s1 Hg). pose proof (number_size s0 nonblacks s1 Hg). lia.
  - exists s2. split; [done|]. split; [done|]. split; [done|]. intros x Hx.
    pose proof (sc_gray _ _ Hsc x Hx) as Hx1. destruct (mk_gray _ _ _ _ _ Hm x Hx1) as (r & Hr & Hreach).
    destruct (mk_kept _ _ _ _ _ Hm r Hr) as [_ Hgr]. rewrite <-Hroots in Hr. apply Hnog in Hr.
    clear Hx1. revert Hgr Hr Hx. induction Hreach as [|r y x Hry _ IH]; [done|]. intros Hgr Hr Hx.
    apply IH; [by apply (mk_closed _ _ _ _ _ Hm r)| |done]. by apply (sc_closed _ _ Hsc r y).
Qed.
End scan.
