(* ===== verification/RefCollect.v ===== *)
(** * The third phase, and the collection as a whole

    [mcxx_collectroots] gathers the white objects, which are then freed.  A
    collection frees exactly the objects that the clients do not reach. *)

From S2P Require Import Prelude RefCount RefGraph RefMark RefMarkRoots RefScan.
#[local] Open Scope Z_scope.

(** An object that [mcxx_collectwhite] takes. *)
Definition collectable (s : rc_state) (x : Z) : Prop :=
  ∃ o, objects s !! x = Some o ∧ colour_of o = WHITE ∧ buffered o = false.

Section collectwhite.
Context (g : gmap Z (list Z)) (A : gset Z) (Hclosed : closed g A).
Notation edge := (edge g A).

Record collects (s s' : rc_state) : Prop := {
  co_graph : graph_of s' = graph_of s;
  co_roots : roots s' = roots s;
  co_log : deallocated s' = deallocated s;
  co_object : ∀ x o, objects s !! x = Some o → objects s' !! x = Some o ∨
    (collectable s x ∧ objects s' !! x = Some (with_colour BLACK o));
  co_free : ∃ l, free_set s' = free_set s ++ l ∧ NoDup l
    ∧ ∀ x, x ∈ l ↔ coloured WHITE s x ∧ ¬ coloured WHITE s' x;
  co_closed : ∀ x y, coloured WHITE s x → ¬ coloured WHITE s' x → edge x y → ¬ collectable s' y }.

Record collecting (s : rc_state) : Prop := {
  ci_graph : graph_of s = g;
  ci_white : ∀ x, coloured WHITE s x → x ∈ A;
  ci_free : ∀ x, x ∈ free_set s → ¬ coloured WHITE s x }.

Lemma same_domain s s' x o' : graph_of s' = graph_of s → objects s' !! x = Some o' →
  ∃ o, objects s !! x = Some o.
Proof.
  intros Hg Ho. assert (is_Some (objects s !! x)) as [o ?]; [|eauto].
  rewrite <-(fmap_is_Some children), <-graph_lookup, <-Hg, graph_lookup, Ho. done.
Qed.

Lemma collects_white s s' x : collects s s' → coloured WHITE s' x → coloured WHITE s x.
Proof.
  intros Hc (o' & Ho' & Hw)%coloured_inv.
  destruct (same_domain s s' x o' (co_graph _ _ Hc) Ho') as [o Ho].
  destruct (co_object _ _ Hc x o Ho) as [?|[(o1 & Ho1 & Hw1 & _) _]]; apply coloured_inv.
  - exists o. split; [done|]. congruence.
  - eauto.
Qed.

Lemma collects_collectable s s' x : collects s s' → collectable s' x → collectable s x.
Proof.
  intros Hc (o' & Ho' & Hw & Hb).
  destruct (same_domain s s' x o' (co_graph _ _ Hc) Ho') as [o Ho].
  destruct (co_object _ _ Hc x o Ho) as [?|[? _]]; [|done]. exists o'. split; [congruence|done].
Qed.

Lemma collects_refl s : collects s s.
Proof.
  split; [done..|by left| |by intros x y ? ?]. exists []. rewrite app_nil_r. split; [done|].
  split; [constructor|]. intros x. rewrite elem_of_nil. tauto.
Qed.

Lemma collects_trans s s' s'' : collects s s' → collects s' s'' → collects s s''.
Proof.
  intros H1 H2. split.
  - by rewrite (co_graph _ _ H2), (co_graph _ _ H1).
  - by rewrite (co_roots _ _ H2), (co_roots _ _ H1).
  - by rewrite (co_log _ _ H2), (co_log _ _ H1).
  - intros x o Ho. destruct (co_object _ _ H1 x o Ho) as [Ho1|[Hc Ho1]].
    + destruct (co_object _ _ H2 x o Ho1) as [?|[? ?]]; [by left|]. right. split; [|done].
      by eapply collects_collectable.
    + right. split; [done|]. destruct (co_object _ _ H2 x _ Ho1) as [?|[(o2 & Ho2 & Hw & _) _]]; [done|].
      rewrite Ho1 in Ho2. by injection Ho2 as <-.
  - destruct (co_free _ _ H1) as (l & Hf & Hnd & Hl). destruct (co_free _ _ H2) as (l' & Hf' & Hnd' & Hl').
    exists (l ++ l'). rewrite Hf', Hf, app_assoc. split; [done|]. split.
    + apply NoDup_app. split; [done|]. split; [|done]. intros x Hx Hx'. apply Hl in Hx. apply Hl' in Hx'. tauto.
    + intros x. rewrite elem_of_app, Hl, Hl'. pose proof (collects_white _ _ x H1).
      pose proof (collects_white _ _ x H2). destruct (decide (coloured WHITE s' x)); tauto.
  - intros x y Hx Hnx Hxy Hy. destruct (decide (coloured WHITE s' x)) as [Hx'|Hx'].
    + by apply (co_closed _ _ H2 x y).
    + apply (co_closed _ _ H1 x y Hx Hx' Hxy). by eapply collects_collectable.
Qed.

Lemma collecting_step s s' : collecting s → collects s s' → collecting s'.
Proof.
  intros [Hg Hw Hf] Hc. split.
  - by rewrite (co_graph _ _ Hc).
  - intros x Hx. by apply Hw, (collects_white _ _ _ Hc).
  - intros x. destruct (co_free _ _ Hc) as (l & -> & _ & Hl). rewrite elem_of_app, Hl.
    intros [Hx|[_ ?]]; [|done]. intros Hx'. by apply (Hf x Hx), (collects_white _ _ _ Hc).
Qed.

Definition whites (c : colour) : bool := bool_decide (c = WHITE).

Lemma whites_le s s' : collects s s' → number whites s' ≤ number whites s.
Proof.
  intros Hc. apply number_le. intros x o' Ho' Hw. apply bool_decide_eq_true in Hw.
  assert (coloured WHITE s x) as (o & ? & ?)%coloured_inv.
  { apply (collects_white _ _ _ Hc), coloured_inv. eauto. }
  exists o. split; [done|]. by apply bool_decide_eq_true.
Qed.

Section walk_whites.
Context (fuel : nat).
Context (IH : ∀ p s, collecting s → p = 0 ∨ p ∈ A → number whites s < Z.of_nat fuel →
  ∃ s', mcxx_collectwhite fuel p s = Ret s' ∧ collects s s' ∧ (p ≠ 0 → ¬ collectable s' p)).

Lemma walk_whites l : ∀ s, collecting s → (∀ p, p ∈ l → p = 0 ∨ p ∈ A) → number whites s < Z.of_nat fuel →
  ∃ s', walk (mcxx_collectwhite fuel) l s = Ret s' ∧ collects s s'
    ∧ ∀ p, p ∈ l → p ≠ 0 → ¬ collectable s' p.
Proof.
  induction l as [|p l IHl]; intros s Hs Hl Hfuel.
  - exists s. split; [done|]. split; [apply collects_refl|]. intros p. by rewrite elem_of_nil.
  - simpl. destruct (IH p s Hs) as (s' & -> & Hc & Hp); [apply Hl; by left|done|]. rewrite bind_ret.
    destruct (IHl s') as (s'' & -> & Hc' & Hp').
    + by eapply collecting_step.
    + intros q Hq. apply Hl. by right.
    + pose proof (whites_le _ _ Hc). lia.
    + exists s''. split; [done|]. split; [by eapply collects_trans|].
      intros q [->|Hq]%elem_of_cons Hq0; [|by apply Hp']. intros Hcq. apply (Hp Hq0).
      by apply (collects_collectable _ _ _ Hc').
Qed.
End walk_whites.

Lemma collectwhite_collects fuel : ∀ p s, collecting s → p = 0 ∨ p ∈ A →
  number whites s < Z.of_nat fuel →
  ∃ s', mcxx_collectwhite fuel p s = Ret s' ∧ collects s s' ∧ (p ≠ 0 → ¬ collectable s' p).
Proof.
  induction fuel as [|fuel IH]; intros p s Hs Hp Hfuel.
  { pose proof (number_nonneg whites s). lia. }
  simpl. destruct (Z.eqb_spec p 0) as [->|Hp0].
  { exists s. split; [done|]. split; [apply collects_refl|done]. }
  destruct Hp as [?|HpA]; [done|]. destruct Hclosed as [_ Hcl]. destruct (Hcl p HpA) as (cs & Hcs & Hsub).
  pose proof Hcs as Hgcs. rewrite <-(ci_graph _ Hs), graph_lookup in Hcs.
  destruct (objects s !! p) as [o|] eqn:Ho; [|done]. injection Hcs as Hcs.
  rewrite (header_lookup _ _ _ Ho), bind_ret. case_decide as Hwb.
  2: { exists s. split; [done|]. split; [apply collects_refl|]. intros _ (o' & ? & ?). by simplify_eq. }
  destruct Hwb as [Hw Hb]. set (o1 := with_colour BLACK o). set (t := put p o1 s).
  assert (Hgt : graph_of t = graph_of s) by by apply (graph_put s p o).
  assert (Hcol : ∀ x, coloured WHITE t x ↔ p ≠ x ∧ coloured WHITE s x).
  { intros x. unfold t. rewrite coloured_put. case_decide; simpl; [|tauto]. split; [done|tauto]. }
  assert (Hcp : coloured WHITE s p) by (apply coloured_inv; eauto).
  assert (Ht : collecting t).
  { split; [by rewrite Hgt, (ci_graph _ Hs)| |].
    - intros x [_ Hx]%Hcol. by apply (ci_white _ Hs).
    - intros x Hx. rewrite Hcol. intros [_ Hx']. by apply (ci_free _ Hs x). }
  destruct (walk_whites fuel IH cs t Ht Hsub) as (s' & Hs' & Hc & Hnc).
  { unfold t. rewrite (number_put _ _ _ _ Ho), Hw. simpl. lia. }
  rewrite Hcs, Hs', bind_ret. destruct (co_free _ _ Hc) as (l & Hf & Hnd & Hl).
  assert (Hpw : ¬ coloured WHITE s' p).
  { intros Hx. apply (collects_white _ _ _ Hc) in Hx. by apply Hcol in Hx as [? _]. }
  assert (Hpl : p ∉ l) by (intros [Hx _]%Hl; by apply Hcol in Hx as [? _]).
  assert (Hpf : p ∉ free_set s').
  { rewrite Hf, elem_of_app. intros [Hx|?]; [|done]. by apply (ci_free _ Hs p). }
  unfold mcxx_add_to_free_set. rewrite decide_False by done.
  eexists. split; [reflexivity|]. split.
  - split; simpl.
    + change (graph_of s' = graph_of s). by rewrite (co_graph _ _ Hc).
    + apply (co_roots _ _ Hc).
    + apply (co_log _ _ Hc).
    + intros x ox Hox. destruct (decide (p = x)) as [<-|Hne].
      * right. split; [exists o; done|]. simplify_eq.
        destruct (co_object _ _ Hc p o1) as [?|[(o2 & Ho2 & Hw2 & _) _]]; [apply lookup_insert_eq|done|].
        simpl in Ho2. rewrite lookup_insert_eq in Ho2. by injection Ho2 as <-.
      * destruct (co_object _ _ Hc x ox) as [?|[(o2 & Ho2 & Hrest) ?]]; [by simpl; rewrite lookup_insert_ne|by left|].
        right. split; [|done]. exists o2. simpl in Ho2. by rewrite lookup_insert_ne in Ho2.
    + exists (l ++ [p]). rewrite Hf, app_assoc. split; [done|]. split.
      * apply NoDup_app. split; [done|]. split; [|apply NoDup_singleton].
        by intros x Hx ->%list_elem_of_singleton.
      * intros x. change (coloured WHITE (with_free_set _ s') x) with (coloured WHITE s' x).
        rewrite elem_of_app, Hl, Hcol, list_elem_of_singleton.
        destruct (decide (p = x)) as [<-|Hne]; [tauto|]. split; [|tauto]. intros [?| ->]; tauto.
    + intros x y Hx Hnx Hxy. change (¬ collectable s' y). change (¬ coloured WHITE s' x) in Hnx.
      destruct (decide (p = x)) as [<-|Hne].
      * destruct Hxy as (cs' & _ & Hcs' & Hy & Hy0). rewrite Hgcs in Hcs'. injection Hcs' as <-. by apply Hnc.
      * apply (co_closed _ _ Hc x y); [by apply Hcol|done|done].
  - intros _. change (¬ collectable s' p). intros (o' & ? & ? & _). apply Hpw, coloured_inv. eauto.
Qed.
End collectwhite.

(** ** The release of the objects *)

Lemma release_walk l : ∀ s, NoDup l → (∀ x, x ∈ l → is_Some (objects s !! x)) →
  ∃ s', walk release_object l s = Ret s' ∧ roots s' = roots s ∧ free_set s' = free_set s
    ∧ deallocated s' = deallocated s ++ l
    ∧ ∀ x, objects s' !! x = if decide (x ∈ l) then None else objects s !! x.
Proof.
  induction l as [|p l IH]; intros s Hnd Hl.
  - exists s. rewrite app_nil_r. split; [done|]. split; [done|]. split; [done|]. split; [done|].
    intros x. rewrite decide_False; [done|]. apply not_elem_of_nil.
  - apply NoDup_cons in Hnd as [Hp Hnd]. destruct (Hl p) as [o Ho]; [by left|].
    set (t := RcState (delete p (objects s)) (roots s) (free_set s) (deallocated s ++ [p])).
    assert (release_object p s = Ret t) as Hp' by (unfold release_object; by rewrite (header_lookup _ _ _ Ho)).
    cbn [walk]. rewrite Hp', bind_ret.
    destruct (IH t Hnd) as (s' & Hs' & Hr & Hf & Hlog & Hob).
    + intros x Hx. simpl. rewrite lookup_delete_ne; [apply Hl; by right|]. intros ->. done.
    + exists s'. split; [done|]. split; [done|]. split; [done|]. split; [by rewrite Hlog; simpl; rewrite <-app_assoc|].
      intros x. rewrite Hob. simpl. destruct (decide (x = p)) as [->|Hne].
      * rewrite decide_False by done. rewrite lookup_delete_eq, decide_True; [done|by left].
      * rewrite lookup_delete_ne by done. rewrite (decide_ext (x ∈ p :: l) (x ∈ l)); [done|].
        rewrite elem_of_cons. tauto.
Qed.
