(* ===== verification/RefCycles.v ===== *)
(** * A collection frees the garbage

    The loop of [mcxx_collectroots], and the state after
    [mcxx_collectcycles]: the objects that the clients reach, and no others. *)

From S2P Require Import Prelude RefCount RefGraph RefMark RefMarkRoots RefScan RefCollect.
#[local] Open Scope Z_scope.

Section collect.
Context (ext : Z → Z) (s0 : rc_state) (Hs0 : counted ext ∅ s0).
Notation g := (graph_of s0).
Notation A := (alive s0).
Notation edge := (edge g A).
Context (K : list Z) (s1 : rc_state) (Hm : marking s0 (roots s0) K [] s1).
Context (s2 : rc_state) (Hs2 : scanned ext s0 K s1 s2) (Hsc : scans s0 s1 s2).
Context (Hnogray : ∀ x, ¬ coloured GRAY s2 x).

Notation white := (coloured WHITE s2).

Lemma white_in_A x : white x → x ∈ A.
Proof.
  intros (o & Ho & Hw)%coloured_inv. apply (ready_debt _ _ _ _ _ (sn_ready _ _ _ _ _ Hs2) x o Ho).
  by rewrite Hw.
Qed.

Lemma black_or_white x : x ∈ A → white x ∨ coloured BLACK s2 x.
Proof.
  intros Hx. destruct (counted_closed _ _ _ Hs0) as [_ Hcl]. destruct (Hcl x Hx) as (cs & Hcs & _).
  pose proof (sn_ready _ _ _ _ _ Hs2) as [Hg _ Hc].
  rewrite <-Hg, graph_lookup in Hcs. destruct (objects s2 !! x) as [o|] eqn:Ho; [|done].
  specialize (Hc x o Hx Ho). pose proof (Hnogray x) as Hng. rewrite !coloured_inv in *.
  destruct (colour_of o) eqn:E.
  - right. eauto.
  - destruct Hng. eauto.
  - left. eauto.
  - by specialize (Hc ltac:(done)).
Qed.

Lemma clear_edge y x : edge y x → coloured BLACK s2 y → 0 < clear s0 s2 x.
Proof.
  intros (cs & HyA & Hcs & Hxcs & _) (oy & Hoy & Hb)%coloured_inv. unfold clear.
  eapply Z.lt_le_trans; [|apply (msum_ge _ _ y oy); [|exact Hoy]]; cbv beta.
  - rewrite Hb, bool_decide_eq_true_2 by done. simpl. apply occ_pos.
    rewrite <-(ready_graph _ _ _ _ _ (sn_ready _ _ _ _ _ Hs2)), graph_lookup, Hoy in Hcs. by injection Hcs as ->.
  - intros. destruct (_ && _); [apply occ_nonneg|done].
Qed.

(** Neither the clients nor an object in use refer to a white object. *)
Lemma white_unreferenced x : white x → ext x = 0 ∧ ∀ y, edge y x → white y.
Proof.
  intros Hx. pose proof (white_in_A x Hx) as HxA. pose proof Hx as (o & Ho & Hw)%coloured_inv.
  pose proof (sn_white _ _ _ _ _ Hs2 x o Ho Hw) as Hle.
  rewrite (scanned_count ext s0 Hs0 K s1 s2 x o Hs2 HxA Ho) in Hle.
  pose proof (c_ext _ _ _ Hs0 x) as He.
  assert (0 ≤ clear s0 s2 x).
  { apply msum_nonneg. intros. destruct (_ && _); [apply occ_nonneg|done]. }
  split; [lia|]. intros y Hyx. pose proof Hyx as (cs & HyA & Hcs & Hxcs & _).
  destruct (black_or_white y HyA) as [?|Hb]; [done|]. exfalso.
  apply coloured_inv in Hb as (oy & Hoy & Hb).
  pose proof (clear_edge y x Hyx ltac:(apply coloured_inv; eauto)). lia.
Qed.

Lemma white_back x y : rtc edge y x → white x → white y.
Proof.
  induction 1 as [|y z x Hyz _ IH]; [done|]. intros Hx. apply IH in Hx. by apply (white_unreferenced z Hx).
Qed.

Lemma reachable_black x : reachable ext s0 x → ¬ white x.
Proof.
  intros (r & Hr & Hreach) Hx. apply (white_back x r Hreach) in Hx.
  destruct (white_unreferenced r Hx). lia.
Qed.

Lemma white_or_reachable x : x ∈ A → white x ∨ reachable ext s0 x.
Proof.
  intros Hx. destruct (black_or_white x Hx) as [?|?]; [by left|right].
  by apply (sn_black _ _ _ _ _ Hs2).
Qed.

Lemma white_from_root x : white x → ∃ r, r ∈ K ∧ rtc edge r x.
Proof.
  intros Hx. apply (mk_gray _ _ _ _ _ Hm). pose proof (white_in_A x Hx) as HxA.
  destruct (counted_closed _ _ _ Hs0) as [_ Hcl]. destruct (Hcl x HxA) as (cs & Hcs & _).
  rewrite <-(ready_graph _ _ _ _ _ (mk_ready _ _ _ _ _ Hm)), graph_lookup in Hcs.
  destruct (objects s1 !! x) as [o|] eqn:Ho; [|done]. apply coloured_inv. exists o. split; [done|].
  destruct (marked_colour ext s0 Hs0 K s1 Hm x o Ho) as [?|Hb]; [done|]. exfalso.
  assert (coloured BLACK s2 x) as Hbx by (apply (sc_black _ _ _ Hsc), coloured_inv; eauto).
  by pose proof (coloured_fun _ _ _ _ Hx Hbx).
Qed.

(** ** The loop over the roots *)

Record gathering (todo : list Z) (s : rc_state) : Prop := {
  ga_collecting : collecting g A s;
  ga_roots : roots s = K;
  ga_log : deallocated s = deallocated s0;
  ga_object : ∀ x o2, objects s2 !! x = Some o2 → ∃ o, objects s !! x = Some o
    ∧ count o = count o2
    ∧ (colour_of o = colour_of o2 ∨ (colour_of o2 = WHITE ∧ colour_of o = BLACK))
    ∧ (buffered o = true ↔ x ∈ todo);
  ga_nodup : NoDup (free_set s);
  ga_free : ∀ x, x ∈ free_set s ↔ x ∈ free_set s1 ∨ (white x ∧ ¬ coloured WHITE s x);
  ga_closed : ∀ x y, white x → ¬ coloured WHITE s x → edge x y → ¬ collectable s y;
  ga_done : ∀ x, x ∈ K → x ∉ todo → ¬ coloured WHITE s x }.

Lemma flag_of_root x o : objects s2 !! x = Some o → buffered o = true ↔ x ∈ K.
Proof.
  intros Ho. pose proof (sn_flags _ _ _ _ _ Hs2) as Hf. apply (f_equal (lookup x)) in Hf.
  rewrite !flags_lookup, Ho in Hf. simpl in Hf. destruct (objects s1 !! x) as [o1|] eqn:Ho1; [|done].
  injection Hf as ->. destruct (mk_object _ _ _ _ _ Hm x o1 Ho1) as (_ & _ & _ & _ & _ & Hb).
  by rewrite app_nil_r in Hb.
Qed.

Lemma free_not_white x : x ∈ free_set s1 → ¬ white x.
Proof. intros [_ Hx]%(mk_free _ _ _ _ _ Hm) Hw. by apply Hx, white_in_A. Qed.

Lemma gathering_start : gathering K s2.
Proof.
  split.
  - split; [apply (ready_graph _ _ _ _ _ (sn_ready _ _ _ _ _ Hs2))|apply white_in_A|].
    intros x. rewrite (sn_free _ _ _ _ _ Hs2). apply free_not_white.
  - apply (sn_roots _ _ _ _ _ Hs2).
  - apply (sn_log _ _ _ _ _ Hs2).
  - intros x o Ho. exists o. split; [done|]. split; [done|]. split; [by left|]. by apply flag_of_root.
  - rewrite (sn_free _ _ _ _ _ Hs2). apply (mk_free_nodup _ _ _ _ _ Hm).
  - intros x. rewrite (sn_free _ _ _ _ _ Hs2). split; [by left|]. by intros [?|[? ?]].
  - done.
  - done.
Qed.

Context (fuel : nat) (Hfuel : Z.of_nat (size (objects s0)) < Z.of_nat fuel).

Lemma gathering_step p todo s : gathering (p :: todo) s → p ∈ K → p ∉ todo →
  ∃ s', collect_root fuel p s = Ret s' ∧ gathering todo s'.
Proof.
  intros Hg HpK Hpt. destruct (mk_kept _ _ _ _ _ Hm p HpK) as [HpA _].
  pose proof (counted_closed _ _ _ Hs0) as Hcl.
  assert (Hp0 : p ≠ 0) by (by apply (in_A _ _ Hcl)).
  pose proof Hcl as [_ Hcl']. destruct (Hcl' p HpA) as (cs & Hcs & _).
  rewrite <-(ready_graph _ _ _ _ _ (sn_ready _ _ _ _ _ Hs2)), graph_lookup in Hcs.
  destruct (objects s2 !! p) as [o2|] eqn:Ho2; [clear cs Hcs|done].
  destruct (ga_object _ _ Hg p o2 Ho2) as (o & Ho & _).
  unfold collect_root. rewrite (header_lookup _ _ _ Ho), bind_ret.
  set (o' := with_buffered false o). set (t := put p o' s).
  assert (Hgt : graph_of t = graph_of s) by by apply (graph_put s p o).
  assert (Hct : ∀ x, coloured WHITE t x ↔ coloured WHITE s x).
  { intros x. unfold t. rewrite coloured_put. case_decide as E; [|done]. subst.
    rewrite coloured_inv. simpl. split; [eauto|]. intros (? & ? & ?). by simplify_eq. }
  assert (Ht : collecting g A t).
  { pose proof (ga_collecting _ _ Hg) as [Hgr Hwh Hfr]. split; [by rewrite Hgt| |].
    - intros x Hx%Hct. by apply Hwh.
    - intros x Hx. rewrite Hct. by apply Hfr. }
  destruct (collectwhite_collects g A Hcl fuel p t Ht (or_intror HpA)) as (s' & Hs' & Hc & Hnc).
  { eapply Z.le_lt_trans; [|exact Hfuel]. apply number_size. by rewrite (ci_graph _ _ _ Ht). }
  exists s'. split; [done|]. specialize (Hnc Hp0).
  destruct (co_free _ _ _ _ Hc) as (l & Hf & Hnd & Hl).
  assert (Hmono : ∀ x, coloured WHITE s' x → coloured WHITE s x).
  { intros x Hx. by apply Hct, (collects_white _ _ _ _ _ Hc). }
  assert (Hobj : ∀ x o2, objects s2 !! x = Some o2 → ∃ o, objects s' !! x = Some o
    ∧ count o = count o2
    ∧ (colour_of o = colour_of o2 ∨ (colour_of o2 = WHITE ∧ colour_of o = BLACK))
    ∧ (buffered o = true ↔ x ∈ todo)).
  { intros x ox2 Hox2. destruct (ga_object _ _ Hg x ox2 Hox2) as (ox & Hox & Hcnt & Hcol & Hbuf).
    assert (∃ ot, objects t !! x = Some ot ∧ count ot = count ox ∧ colour_of ot = colour_of ox
      ∧ (buffered ot = true ↔ x ∈ todo)) as (ot & Hot & Hcnt' & Hcol' & Hbuf').
    { destruct (decide (p = x)) as [<-|Hne].
      - exists o'. simpl. rewrite lookup_insert_eq. simplify_eq. simpl. split; [done|]. split; [done|].
        split; [done|]. split; [done|]. by intros ?.
      - exists ox. simpl. rewrite lookup_insert_ne by done. split; [done|]. split; [done|]. split; [done|].
        rewrite Hbuf, elem_of_cons. split; [|tauto]. by intros [->|?]. }
    destruct (co_object _ _ _ _ Hc x ot Hot) as [?|[(ot' & Hot' & Hw & _) ?]].
    - exists ot. split; [done|]. split; [congruence|]. rewrite Hcol'. done.
    - exists (with_colour BLACK ot). split; [done|]. simpl. split; [congruence|]. split; [|done].
      right. simplify_eq. destruct Hcol as [?|[? ?]]; [split; congruence|congruence]. }
  split.
  - by eapply collecting_step.
  - rewrite (co_roots _ _ _ _ Hc). apply (ga_roots _ _ Hg).
  - rewrite (co_log _ _ _ _ Hc). apply (ga_log _ _ Hg).
  - done.
  - rewrite Hf. apply NoDup_app. split; [apply (ga_nodup _ _ Hg)|]. split; [|done].
    intros x Hx [Hx' _]%Hl. by apply (ci_free _ _ _ Ht x).
  - intros x. rewrite Hf, elem_of_app, Hl, Hct. change (free_set t) with (free_set s).
    rewrite (ga_free _ _ Hg x). pose proof (Hmono x).
    assert (coloured WHITE s x → white x).
    { intros (ox & Hox & Hw)%coloured_inv.
      destruct (same_domain s2 s x ox) as [ox2 Hox2]; [|done|].
      { by rewrite (ci_graph _ _ _ (ga_collecting _ _ Hg)), (ready_graph _ _ _ _ _ (sn_ready _ _ _ _ _ Hs2)). }
      destruct (ga_object _ _ Hg x ox2 Hox2) as (ox' & ? & _ & Hcol & _). simplify_eq.
      apply coloured_inv. exists ox2. split; [done|]. destruct Hcol as [?|[? ?]]; congruence. }
    destruct (decide (coloured WHITE s x)); tauto.
  - intros x y Hx Hnx Hxy Hy. destruct (decide (coloured WHITE s x)) as [Hx'|Hx'].
    + apply (co_closed _ _ _ _ Hc x y); [by apply Hct|done|done|done].
    + apply (ga_closed _ _ Hg x y Hx Hx' Hxy). destruct (decide (p = y)) as [<-|Hne]; [done|].
      apply (collects_collectable _ _ _ _ _ Hc) in Hy as (oy & Hoy & ?). exists oy.
      simpl in Hoy. by rewrite lookup_insert_ne in Hoy.
  - intros x HxK Hxt Hx. destruct (decide (p = x)) as [<-|Hne].
    + apply coloured_inv in Hx as (ox & Hox & Hw). apply Hnc. exists ox. split; [done|]. split; [done|].
      destruct (Hobj p o2 Ho2) as (ox' & ? & _ & _ & Hb). simplify_eq.
      destruct (buffered ox); [by destruct Hpt; apply Hb|done].
    + apply (ga_done _ _ Hg x HxK); [|by apply Hmono]. rewrite elem_of_cons. by intros [->|?].
Qed.

Lemma gathering_loop todo : ∀ s, gathering todo s → NoDup todo → (∀ p, p ∈ todo → p ∈ K) →
  ∃ s', walk (collect_root fuel) todo s = Ret s' ∧ gathering [] s'.
Proof.
  induction todo as [|p todo IH]; intros s Hg Hnd Hsub; [by exists s|].
  apply NoDup_cons in Hnd as [Hp Hnd].
  destruct (gathering_step p todo s Hg) as (s' & Hs' & Hg'); [apply Hsub; by left|done|].
  simpl. rewrite Hs', bind_ret. apply IH; [done|done|]. intros q Hq. apply Hsub. by right.
Qed.

(** When the loop is over no object is white: a white object is reachable from a
    root through white objects. *)
Lemma gathered s x : gathering [] s → ¬ coloured WHITE s x.
Proof.
  intros Hg Hx.
  assert (Hflag : ∀ y o, objects s !! y = Some o → buffered o = false).
  { intros y o Ho. destruct (same_domain s2 s y o) as [o2 Ho2]; [|done|].
    - by rewrite (ci_graph _ _ _ (ga_collecting _ _ Hg)), (ready_graph _ _ _ _ _ (sn_ready _ _ _ _ _ Hs2)).
    - destruct (ga_object _ _ Hg y o2 Ho2) as (o' & ? & _ & _ & Hb). simplify_eq.
      destruct (buffered o) eqn:E; [|done]. by apply proj1, (λ f, f eq_refl), elem_of_nil in Hb. }
  assert (Hwhite : white x).
  { pose proof Hx as (ox & Hox & Hw)%coloured_inv. destruct (same_domain s2 s x ox) as [o2 Ho2]; [|done|].
    - by rewrite (ci_graph _ _ _ (ga_collecting _ _ Hg)), (ready_graph _ _ _ _ _ (sn_ready _ _ _ _ _ Hs2)).
    - destruct (ga_object _ _ Hg x o2 Ho2) as (o' & ? & _ & Hcol & _). simplify_eq.
      apply coloured_inv. exists o2. split; [done|]. destruct Hcol as [?|[? ?]]; congruence. }
  destruct (white_from_root x Hwhite) as (r & HrK & Hreach).
  assert (Hr : ¬ coloured WHITE s r) by (apply (ga_done _ _ Hg r HrK), not_elem_of_nil).
  revert Hr Hx. clear HrK. induction Hreach as [|r y x Hry Hyx IH]; [done|]. intros Hr Hx.
  apply IH; [done| |done]. intros Hy.
  apply (ga_closed _ _ Hg r y); [|done|done|].
  - apply (white_back x r); [by eapply rtc_l|done].
  - apply coloured_inv in Hy as (oy & Hoy & Hw). exists oy. eauto.
Qed.
(** ** The state after the release *)

Lemma reachable_edge x y : reachable ext s0 x → edge x y → reachable ext s0 y.
Proof. intros (r & Hr & Hreach) Hxy. exists r. split; [done|]. by eapply rtc_r. Qed.

Lemma reachable_count x o2 : reachable ext s0 x → objects s2 !! x = Some o2 → 0 < count o2.
Proof.
  intros Hx Ho2. pose proof (reachable_alive _ _ _ Hs0 x Hx) as HxA.
  rewrite (scanned_count ext s0 Hs0 K s1 s2 x o2 Hs2 HxA Ho2).
  assert (0 ≤ clear s0 s2 x).
  { apply msum_nonneg. intros. destruct (_ && _); [apply occ_nonneg|done]. }
  pose proof (c_ext _ _ _ Hs0 x). destruct Hx as (r & Hr & Hreach).
  apply rtc_inv_r in Hreach as [->|(y & Hry & Hyx)]; [lia|].
  assert (reachable ext s0 y) as Hy by by exists r.
  pose proof (reachable_alive _ _ _ Hs0 y Hy) as HyA.
  destruct (black_or_white y HyA) as [Hw|Hb]; [exfalso; by apply (reachable_black y Hy)|].
  pose proof (clear_edge y x Hyx Hb). lia.
Qed.

(** The objects of [s4] are the reachable ones, with the counts of [s2]. *)
Definition released (s4 : rc_state) : Prop := ∀ x o4, objects s4 !! x = Some o4 ↔
  reachable ext s0 x ∧ ∃ o2, objects s2 !! x = Some o2 ∧ o4 = Object (children o2) (count o2) false BLACK.

Section released.
Context (s4 : rc_state) (H4 : released s4).

Lemma released_alive x : x ∈ alive s4 ↔ reachable ext s0 x.
Proof.
  rewrite elem_of_alive. split; [by intros (o & [? _]%H4 & _)|]. intros Hx.
  pose proof (reachable_alive _ _ _ Hs0 x Hx) as HxA.
  destruct (counted_closed _ _ _ Hs0) as [_ Hcl]. destruct (Hcl x HxA) as (cs & Hcs & _).
  rewrite <-(ready_graph _ _ _ _ _ (sn_ready _ _ _ _ _ Hs2)), graph_lookup in Hcs.
  destruct (objects s2 !! x) as [o2|] eqn:Ho2; [|done].
  exists (Object (children o2) (count o2) false BLACK). split; [|by apply (reachable_count x o2)].
  apply H4. eauto.
Qed.

Lemma released_graph x : reachable ext s0 x → graph_of s4 !! x = g !! x.
Proof.
  intros Hx. pose proof Hx as (o4 & Ho4 & _)%released_alive%elem_of_alive.
  pose proof Ho4 as [_ (o2 & Ho2 & ->)]%H4.
  by rewrite <-(ready_graph _ _ _ _ _ (sn_ready _ _ _ _ _ Hs2)), !graph_lookup, Ho4, Ho2.
Qed.

Lemma released_edge x y : reachable ext s0 x → edge x y → state_edge s4 x y.
Proof.
  intros Hx (cs & HxA & Hcs & Hy & Hy0). exists cs. rewrite released_alive, released_graph by done. done.
Qed.

Lemma released_reachable x : reachable ext s4 x ↔ reachable ext s0 x.
Proof.
  split.
  - intros (r & Hr & Hreach). assert (reachable ext s0 r) as H0 by by exists r. clear Hr.
    induction Hreach as [|r y x (cs & Hrv & Hcs & Hy & Hy0) _ IH]; [done|]. apply IH.
    apply (reachable_edge r y H0). rewrite released_graph in Hcs by done. exists cs.
    split; [by apply (reachable_alive _ _ _ Hs0)|done].
  - intros (r & Hr & Hreach). exists r. split; [done|].
    assert (reachable ext s0 r) as H0 by by exists r. clear Hr.
    induction Hreach as [|r y x Hry _ IH]; [done|]. eapply rtc_l; [by apply released_edge|].
    apply IH. by eapply reachable_edge.
Qed.

Lemma released_refs q : state_refs s4 q = clear s0 s2 q.
Proof.
  unfold refs, clear. apply msum_eq.
  - intros. case_decide; [apply occ_nonneg|done].
  - intros. destruct (_ && _); [apply occ_nonneg|done].
  - intros x cs Hcs. case_decide as Hx; [|by left]. right. pose proof Hx as (o4 & Ho4 & _)%elem_of_alive.
    rewrite graph_lookup, Ho4 in Hcs. injection Hcs as <-. pose proof Ho4 as [Hr (o2 & Ho2 & ->)]%H4.
    pose proof (reachable_alive _ _ _ Hs0 x Hr) as HxA. exists o2. split; [done|].
    rewrite bool_decide_eq_true_2 by done.
    destruct (black_or_white x HxA) as [Hw|(? & ? & Hb)%coloured_inv]; [exfalso; by apply (reachable_black x Hr)|].
    simplify_eq. by rewrite Hb.
  - intros x o2 Ho2. destruct (bool_decide (x ∈ A)) eqn:HxA; [|by left]. apply bool_decide_eq_true in HxA.
    destruct (in_debt (colour_of o2)) eqn:Hin; [by left|]. right.
    destruct (white_or_reachable x HxA) as [(? & ? & Hw)%coloured_inv|Hr]; [simplify_eq; by rewrite Hw in Hin|].
    exists (children o2). rewrite decide_True by (by apply released_alive).
    rewrite (graph_lookup s4 x), (proj2 (H4 x _)) by eauto. done.
Qed.

Lemma released_counted : roots s4 = [] → free_set s4 = [] → counted ext ∅ s4.
Proof.
  intros Hr Hf. split.
  - done.
  - destruct (objects s4 !! 0) as [o|] eqn:Ho; [|done]. apply H4 in Ho as [Hx _].
    apply (reachable_alive _ _ _ Hs0) in Hx. by destruct (counted_closed _ _ _ Hs0).
  - rewrite Hr. constructor.
  - intros x. rewrite Hr, elem_of_nil. split; [done|]. intros (o & Ho & Hb). by apply H4 in Ho as [_ (o2 & _ & ->)].
  - intros x o Ho. apply H4 in Ho as [_ (o2 & _ & ->)]. by left.
  - intros x o Ho. apply H4 in Ho as [Hx (o2 & Ho2 & ->)]. simpl. rewrite released_refs.
    apply (scanned_count ext s0 Hs0 K s1 s2 x o2 Hs2); [|done]. by apply (reachable_alive _ _ _ Hs0).
  - intros x o Ho. apply H4 in Ho as [Hx (o2 & Ho2 & ->)]. simpl.
    pose proof (reachable_alive _ _ _ Hs0 x Hx) as HxA.
    assert (x ≠ 0) as Hx0 by (by apply (in_A _ _ (counted_closed _ _ _ Hs0))).
    pose proof (sn_total _ _ _ _ _ Hs2 x Hx0) as Ht. unfold total in Ht. rewrite (cnt_lookup _ _ _ Ho2) in Ht.
    rewrite (debt_counted _ _ _ Hs0) in Ht. apply elem_of_alive in HxA as (o0 & Ho0 & _).
    rewrite (cnt_lookup _ _ _ Ho0) in Ht. pose proof (c_range _ _ _ Hs0 x o0 Ho0).
    pose proof (debt_nonneg s2 x). lia.
  - apply (c_ext _ _ _ Hs0).
  - intros x Hx. assert (reachable ext s0 x) as (o & ? & _)%released_alive%elem_of_alive by by exists x. eauto.
  - intros x o Ho Hz. apply H4 in Ho as [Hx (o2 & Ho2 & ->)]. simpl in Hz.
    pose proof (reachable_count x o2 Hx Ho2). lia.
  - intros x. by rewrite elem_of_empty.
  - intros x o y Ho _ Hy. destruct (decide (y = 0)) as [?|Hy0]; [by left|]. right.
    pose proof Ho as [Hx (o2 & Ho2 & ->)]%H4. simpl in Hy.
    assert (reachable ext s0 y) as (oy & ? & _)%released_alive%elem_of_alive; [|eauto].
    apply (reachable_edge x y Hx). exists (children o2). split; [by apply (reachable_alive _ _ _ Hs0)|].
    by rewrite <-(ready_graph _ _ _ _ _ (sn_ready _ _ _ _ _ Hs2)), graph_lookup, Ho2.
  - intros x (r & Hext & Hreach)%released_alive%released_reachable. exists r.
    split; [|split; [by left|done]]. apply released_alive. by exists r.
Qed.
End released.

(** ** What is freed *)

Lemma domain_of_s2 x : is_Some (objects s0 !! x) ↔ is_Some (objects s2 !! x).
Proof.
  rewrite <-!(fmap_is_Some children), <-!graph_lookup.
  by rewrite (ready_graph _ _ _ _ _ (sn_ready _ _ _ _ _ Hs2)).
Qed.

Lemma freed_garbage s x : gathering [] s →
  x ∈ free_set s ↔ is_Some (objects s0 !! x) ∧ ¬ reachable ext s0 x.
Proof.
  intros Hg. rewrite (ga_free _ _ Hg x). pose proof (gathered s x Hg) as Hnw. split.
  - intros [[Hx HxA]%(mk_free _ _ _ _ _ Hm)|[Hx _]].
    + apply (c_roots _ _ _ Hs0) in Hx as (o & Ho & _). split; [eauto|].
      intros Hr. by apply HxA, (reachable_alive _ _ _ Hs0).
    + pose proof (white_in_A x Hx) as (o & Ho & _)%elem_of_alive. split; [eauto|].
      intros Hr. by apply (reachable_black x Hr).
  - intros [[o Ho] Hr]. destruct (decide (x ∈ A)) as [HxA|HxA].
    + right. by destruct (white_or_reachable x HxA).
    + left. apply (mk_free _ _ _ _ _ Hm). split; [|done]. apply (c_roots _ _ _ Hs0). exists o. split; [done|].
      pose proof (count_nonneg _ _ _ Hs0 x o Ho) as Hpos. destruct (decide (0 < count o)) as [Hlt|Hz].
      { destruct HxA. apply elem_of_alive. eauto. }
      destruct (c_dead _ _ _ Hs0 x o Ho) as [[? _]|Hd]; [lia|done|]. by apply elem_of_empty in Hd.
Qed.

Lemma gathered_object s x o2 : gathering [] s → reachable ext s0 x → objects s2 !! x = Some o2 →
  objects s !! x = Some (Object (children o2) (count o2) false BLACK).
Proof.
  intros Hg Hx Ho2. destruct (ga_object _ _ Hg x o2 Ho2) as (o & Ho & Hcnt & Hcol & Hb). rewrite Ho.
  pose proof (ci_graph _ _ _ (ga_collecting _ _ Hg)) as Hgr.
  rewrite <-(ready_graph _ _ _ _ _ (sn_ready _ _ _ _ _ Hs2)) in Hgr.
  apply (f_equal (lookup x)) in Hgr. rewrite !graph_lookup, Ho, Ho2 in Hgr. injection Hgr as Hgr.
  destruct (black_or_white x (reachable_alive _ _ _ Hs0 x Hx)) as [Hw|(o2' & ? & Hbl)%coloured_inv].
  { by destruct (reachable_black x Hx). }
  destruct (buffered o) eqn:E; [by apply proj1, (λ f, f eq_refl), elem_of_nil in Hb|].
  destruct o as [cs n b c]. simpl in *. f_equal. f_equal; [done..|]. destruct Hcol as [?|[? ?]]; congruence.
Qed.

Lemma collectroots_frees : ∃ s', (s ← mcxx_collectroots fuel s2; mcxx_release_free_set s) = Ret s'
  ∧ counted ext ∅ s' ∧ roots s' = [] ∧ released s'
  ∧ ∃ l, deallocated s' = deallocated s0 ++ l ∧ NoDup l
    ∧ ∀ x, x ∈ l ↔ is_Some (objects s0 !! x) ∧ ¬ reachable ext s0 x.
Proof.
  pose proof (mk_nodup _ _ _ _ _ Hm) as HndK. rewrite app_nil_r in HndK.
  destruct (gathering_loop K s2 gathering_start HndK) as (s3 & Hs3 & Hg); [done|].
  unfold mcxx_collectroots. rewrite (sn_roots _ _ _ _ _ Hs2), Hs3, !bind_ret.
  unfold mcxx_release_free_set.
  assert (Hdom : ∀ x, is_Some (objects s0 !! x) → is_Some (objects s3 !! x)).
  { intros x [o2 Ho2]%domain_of_s2. destruct (ga_object _ _ Hg x o2 Ho2) as (o & ? & _). eauto. }
  destruct (release_walk (free_set s3) (with_roots [] s3)) as (s4 & Hs4 & Hr & Hf & Hlog & Hob).
  - apply (ga_nodup _ _ Hg).
  - intros x [Hx _]%(freed_garbage s3 x Hg). by apply Hdom.
  - simpl in *. rewrite Hs4, bind_ret. eexists. split; [reflexivity|].
    assert (H4 : released (with_free_set [] s4)).
    { intros x o4. simpl. rewrite Hob. split.
      - case_decide as Hx; [done|]. intros Ho4.
        destruct (same_domain s2 s3 x o4) as [o2 Ho2]; [|done|].
        { by rewrite (ci_graph _ _ _ (ga_collecting _ _ Hg)), (ready_graph _ _ _ _ _ (sn_ready _ _ _ _ _ Hs2)). }
        assert (reachable ext s0 x) as Hre.
        { rewrite (freed_garbage s3 x Hg) in Hx. destruct (decide (x ∈ A)) as [HxA|HxA].
          - destruct (white_or_reachable x HxA) as [Hw|?]; [|done]. destruct Hx. split.
            + apply domain_of_s2. eauto.
            + intros Hre. by apply (reachable_black x Hre).
          - destruct Hx. split; [apply domain_of_s2; eauto|]. intros Hre. by apply HxA, (reachable_alive _ _ _ Hs0). }
        split; [done|]. exists o2. split; [done|].
        rewrite (gathered_object s3 x o2 Hg Hre Ho2) in Ho4. by injection Ho4 as <-.
      - intros [Hre (o2 & Ho2 & ->)]. rewrite decide_False; [by apply gathered_object|].
        intros [_ ?]%(freed_garbage s3 x Hg). done. }
    split; [by apply released_counted|]. split; [done|]. split; [done|].
    exists (free_set s3). split; [simpl; by rewrite Hlog, (ga_log _ _ Hg)|]. split; [apply (ga_nodup _ _ Hg)|].
    intros x. by apply freed_garbage.
Qed.
End collect.

(** ** The collection *)

Record collected (ext : Z → Z) (s s' : rc_state) : Prop := {
  cl_counted : counted ext ∅ s';
  cl_roots : roots s' = [];
  cl_objects : ∀ x, is_Some (objects s' !! x) ↔ reachable ext s x;
  cl_children : ∀ x o', objects s' !! x = Some o' →
    ∃ o, objects s !! x = Some o ∧ children o' = children o;
  cl_freed : ∃ l, deallocated s' = deallocated s ++ l ∧ NoDup l
    ∧ ∀ x, x ∈ l ↔ is_Some (objects s !! x) ∧ ¬ reachable ext s x }.

Lemma collect_cycles ext fuel s : counted ext ∅ s →
  2 * Z.of_nat (size (objects s)) < Z.of_nat fuel →
  ∃ s', mcxx_collectcycles fuel s = Ret s' ∧ collected ext s s'.
Proof.
  intros Hs Hfuel. assert (Hfuel' : Z.of_nat (size (objects s)) < Z.of_nat fuel) by lia.
  destruct (markroots_marks ext s Hs fuel Hfuel') as (K & s1 & Hs1 & Hm).
  destruct (scanroots_scans ext s Hs K s1 Hm fuel Hfuel) as (s2 & Hs2 & Hsn & Hsc & Hng).
  destruct (collectroots_frees ext s Hs K s1 Hm s2 Hsn Hsc Hng fuel Hfuel')
    as (s' & Hs' & Hc & Hr & H4 & Hl).
  exists s'. unfold mcxx_collectcycles. rewrite Hs1, bind_ret, Hs2, bind_ret. split; [done|].
  split; [done..| | |done].
  - intros x. split; [by intros [o [? _]%H4]|]. intros Hx.
    pose proof (reachable_alive _ _ _ Hs x Hx) as (o & Ho & _)%elem_of_alive.
    assert (is_Some (objects s2 !! x)) as [o2 Ho2].
    { eapply (proj1 (domain_of_s2 _ _ _ _ _ Hsn x)). eauto. }
    eexists. apply H4. eauto.
  - intros x o' [_ (o2 & Ho2 & ->)]%H4.
    pose proof (ready_graph _ _ _ _ _ (sn_ready _ _ _ _ _ Hsn)) as Hg. apply (f_equal (lookup x)) in Hg.
    rewrite !graph_lookup, Ho2 in Hg. simpl in Hg. destruct (objects s !! x) as [o|]; [|done].
    injection Hg as Hg. eauto.
Qed.
