(* ===== verification/RefOps.v ===== *)
(** * What counting does to the state of the library

    [mcxx_increment], [mcxx_decrement] and the writes of the clients keep the
    invariant of [RefMarkRoots].  The proofs are for states with fewer than
    [MCXX_MAX_ROOTS] objects, where the buffer of roots never fills up. *)

From S2P Require Import Prelude RefCount RefGraph RefMark RefMarkRoots RefCollect.
#[local] Open Scope Z_scope.

(** ** The references that the clients hold *)

(** [d] more references to [p]. *)
Definition bump (d p : Z) (ext : Z → Z) (x : Z) : Z :=
  if decide (x = p ∧ p ≠ 0) then ext x + d else ext x.

(** One more reference for each pointer of a list. *)
Definition hold (l : list Z) (ext : Z → Z) (x : Z) : Z :=
  if decide (x = 0) then ext x else ext x + occ x l.

Lemma bump_hold p l ext x : bump (-1) p (hold (p :: l) ext) x = hold l ext x.
Proof.
  unfold bump, hold. rewrite occ_cons.
  destruct (decide (x = 0)) as [->|Hx0]; [by rewrite decide_False by naive_solver|].
  destruct (decide (x = p ∧ p ≠ 0)) as [[-> ?]|Hn]; [rewrite decide_True by done; lia|].
  rewrite decide_False; [lia|]. intros ->. tauto.
Qed.

Lemma hold_nil ext x : hold [] ext x = ext x.
Proof. unfold hold. rewrite occ_nil. case_decide; lia. Qed.

Lemma counted_ext ext ext' dy s : (∀ x, ext x = ext' x) → counted ext dy s → counted ext' dy s.
Proof.
  intros He [H1 H2 H3 H4 H5 H6 H7 H8 H9 H10 H11 H12 H13].
  split; try done.
  - intros x o Ho. rewrite <-He. by apply H6.
  - intros x. by rewrite <-He.
  - intros x. rewrite <-He. apply H9.
  - intros x Hx. destruct (H13 x Hx) as (r & ? & ? & ?). exists r. by rewrite <-He.
Qed.

(** ** One header is written *)

Lemma alive_insert s s' p o' : objects s' = <[p := o']> (objects s) →
  ∀ x, x ∈ alive s' ↔ if decide (x = p) then 0 < count o' else x ∈ alive s.
Proof.
  intros Hob x. rewrite !elem_of_alive, Hob. case_decide as Hx.
  - subst. rewrite lookup_insert_eq. split; [by intros (? & [= <-] & ?)|eauto].
  - by rewrite lookup_insert_ne, elem_of_alive by done.
Qed.

Section recount.
Context (ext : Z → Z) (dy : gset Z) (s s' : rc_state) (Hs : counted ext dy s).
Context (p d : Z) (o o' : object) (Ho : objects s !! p = Some o) (Hpos : 0 < count o).
Context (Hob : objects s' = <[p := o']> (objects s)) (Hfr : free_set s' = []).
Context (Hnd : NoDup (roots s')).
Context (Hro : ∀ x, x ∈ roots s' ↔ x ∈ roots s ∨ (x = p ∧ buffered o' = true)).
Context (Hbuf : buffered o = true → buffered o' = true) (Hch : children o' = children o).
Context (Hcnt : count o' = count o + d) (Hpos' : 0 < count o' < 2 ^ 31) (Hext : 0 ≤ ext p + d).
Context (Hcol : (colour_of o' = BLACK ∧ 0 < ext p + d) ∨ (colour_of o' = PURPLE ∧ buffered o' = true)).

Lemma recount_alive : alive s' = alive s.
Proof.
  apply set_eq. intros x. rewrite (alive_insert s s' p o' Hob). case_decide as Hx; [|done]. subst.
  rewrite elem_of_alive, Ho. split; [eauto|lia].
Qed.

Lemma recount_graph : graph_of s' = graph_of s.
Proof. unfold graph_of at 1. rewrite Hob. by apply (graph_put s p o o' Ho). Qed.

Lemma recount_lookup x ox : objects s' !! x = Some ox →
  (x = p ∧ ox = o') ∨ (x ≠ p ∧ objects s !! x = Some ox).
Proof.
  rewrite Hob. destruct (decide (x = p)) as [->|Hx].
  - rewrite lookup_insert_eq. intros [= <-]. by left.
  - rewrite lookup_insert_ne by done. by right.
Qed.

Lemma recount_some x : is_Some (objects s' !! x) ↔ is_Some (objects s !! x).
Proof.
  rewrite Hob. destruct (decide (x = p)) as [->|Hx].
  - rewrite lookup_insert_eq, Ho. split; eauto.
  - by rewrite lookup_insert_ne.
Qed.

Lemma recount : counted (bump d p ext) dy s'.
Proof.
  assert (p ≠ 0) as Hp0 by (intros ->; by rewrite (c_null _ _ _ Hs) in Ho).
  assert (Hb : ∀ x, bump d p ext x = if decide (x = p) then ext x + d else ext x).
  { intros x. unfold bump. apply decide_ext. tauto. }
  split.
  - done.
  - rewrite eq_None_not_Some, recount_some, (c_null _ _ _ Hs). by apply is_Some_None.
  - done.
  - intros x. rewrite Hro, (c_roots _ _ _ Hs), Hob. destruct (decide (x = p)) as [->|Hx].
    + rewrite lookup_insert_eq, Ho. split; [|naive_solver].
      intros [(? & [= <-] & ?)|[_ ?]]; eauto.
    + rewrite lookup_insert_ne by done. tauto.
  - intros x ox [[-> ->]|[Hx Hox]]%recount_lookup; [|by apply (c_colour _ _ _ Hs)].
    destruct Hcol as [[? _]|[? ?]]; [by left|right]. split; [done|]. split; [done|]. left. lia.
  - intros x ox Hox. unfold refs. rewrite recount_graph, recount_alive, Hb. fold (state_refs s x).
    apply recount_lookup in Hox as [[-> ->]|[Hx Hox]].
    + rewrite decide_True, Hcnt, (c_count _ _ _ Hs p o Ho) by done. lia.
    + rewrite decide_False by done. by apply (c_count _ _ _ Hs).
  - intros x ox [[-> ->]|[Hx Hox]]%recount_lookup; [lia|by apply (c_range _ _ _ Hs x)].
  - intros x. rewrite Hb. pose proof (c_ext _ _ _ Hs x). case_decide; subst; lia.
  - intros x. rewrite Hb, recount_some. case_decide; [subst; eauto|apply (c_held _ _ _ Hs)].
  - intros x ox [[-> ->]|[Hx Hox]]%recount_lookup; [lia|by apply (c_dead _ _ _ Hs)].
  - intros x Hx. destruct (c_dying _ _ _ Hs x Hx) as (ox & Hox & Hz). exists ox. split; [|done].
    rewrite Hob, lookup_insert_ne; [done|]. intros <-. simplify_eq. lia.
  - intros x ox y Hox Hc Hy. rewrite recount_some.
    apply recount_lookup in Hox as [[-> ->]|[Hx Hox]].
    + rewrite Hch in Hy. by apply (c_pointers _ _ _ Hs p o).
    + by apply (c_pointers _ _ _ Hs x ox).
  - intros x Hx. rewrite recount_alive in Hx. destruct (c_candidates _ _ _ Hs x Hx) as (r & HrA & Hr & Hreach).
    exists r. rewrite recount_alive, recount_graph. split; [done|]. split; [|done].
    rewrite Hb. unfold coloured in *. rewrite Hob. case_decide as Hrp.
    + subst. rewrite lookup_insert_eq. simpl. destruct Hcol as [[_ ?]|[-> _]]; [by left|by right].
    + by rewrite lookup_insert_ne.
Qed.
End recount.

Lemma increment_counted ext dy s p o : counted ext dy s → objects s !! p = Some o →
  0 < count o < 2 ^ 31 - 1 →
  mcxx_increment p s = Ret (put p (with_colour BLACK (with_count (count o + 1) o)) s)
  ∧ counted (bump 1 p ext) dy (put p (with_colour BLACK (with_count (count o + 1) o)) s).
Proof.
  intros Hs Ho Hc. split.
  - unfold mcxx_increment. assert (p ≠ 0) as Hp by (intros ->; by rewrite (c_null _ _ _ Hs) in Ho).
    rewrite (proj2 (Z.eqb_neq _ _) Hp), (header_lookup _ _ _ Ho), bind_ret, add_count_ok by lia. done.
  - pose proof (c_ext _ _ _ Hs p).
    eapply (recount ext dy s _ Hs p 1 o); try done; simpl; try lia.
    + apply (c_free _ _ _ Hs).
    + apply (c_nodup _ _ _ Hs).
    + intros x. split; [by left|]. intros [?|[-> ?]]; [done|]. apply (c_roots _ _ _ Hs). eauto.
    + left. split; [done|lia].
Qed.

(** ** An object loses its last reference *)

Lemma refs_delete g (A A' : gset Z) p cs q : g !! p = Some cs → p ∈ A →
  (∀ x, x ∈ A' ↔ x ≠ p ∧ x ∈ A) → refs g A q = refs g A' q + occ q cs.
Proof.
  intros Hg Hp HA. unfold refs. rewrite !(msum_delete _ g p cs Hg).
  rewrite (decide_True (P := p ∈ A)) by done. rewrite (decide_False (P := p ∈ A')) by naive_solver.
  enough (msum (λ x cs, if decide (x ∈ A) then occ q cs else 0) (delete p g)
    = msum (λ x cs, if decide (x ∈ A') then occ q cs else 0) (delete p g)) by lia.
  assert (Hsame : ∀ x cs, delete p g !! x = Some cs → (x ∈ A ↔ x ∈ A')).
  { intros x cs' [Hne _]%lookup_delete_Some. rewrite HA. naive_solver. }
  apply msum_eq; [intros; case_decide; [apply occ_nonneg|done]..| |];
    intros x cs' Hx; right; exists cs'; (split; [done|]); apply decide_ext; by rewrite (Hsame x cs').
Qed.

Section kill.
Context (ext : Z → Z) (dy : gset Z) (s : rc_state) (Hs : counted ext dy s).
Context (p : Z) (o : object) (Ho : objects s !! p = Some o) (Hone : count o = 1) (Hp : 0 < ext p).
Notation s' := (put p (with_count 0 o) s).
Notation ext' := (hold (children o) (bump (-1) p ext)).

Lemma kill_alive x : x ∈ alive s' ↔ x ≠ p ∧ x ∈ alive s.
Proof.
  rewrite (alive_insert s s' p (with_count 0 o) eq_refl). simpl. case_decide; [|tauto].
  subst. split; [lia|tauto].
Qed.

Lemma kill_refs q : state_refs s q = state_refs s' q + occ q (children o).
Proof.
  replace (graph_of s') with (graph_of s) by (symmetry; by apply (graph_put s p o)).
  apply (refs_delete _ _ _ p).
  - by rewrite graph_lookup, Ho.
  - apply elem_of_alive. exists o. split; [done|lia].
  - apply kill_alive.
Qed.

(** The clients held the only reference. *)
Lemma kill_unreferenced : ext p = 1 ∧ state_refs s' p = 0 ∧ occ p (children o) = 0.
Proof.
  pose proof (c_count _ _ _ Hs p o Ho). pose proof (kill_refs p).
  pose proof (refs_nonneg (graph_of s') (alive s') p). pose proof (occ_nonneg p (children o)). lia.
Qed.

Lemma kill_ext x : x ≠ 0 → ext' x = (if decide (x = p) then 0 else ext x) + occ x (children o).
Proof.
  intros Hx. unfold hold, bump. rewrite decide_False by done.
  destruct kill_unreferenced as (He & _ & _). do 2 case_decide; subst; try tauto; lia.
Qed.

Lemma kill_edge x y : state_edge s x y → x ≠ p → state_edge s' x y.
Proof.
  replace (graph_of s') with (graph_of s) by (symmetry; by apply (graph_put s p o)).
  intros (cs & Hx & Hrest) Hne. exists cs. split; [by apply kill_alive|done].
Qed.

Definition kill_candidate (x : Z) : Prop :=
  ∃ r, r ∈ alive s' ∧ (0 < ext' r ∨ coloured PURPLE s' r) ∧ rtc (state_edge s') r x.

Lemma kill_candidates r x : r ∈ alive s → 0 < ext r ∨ coloured PURPLE s r →
  rtc (state_edge s) r x → x = p ∨ kill_candidate x.
Proof.
  intros HrA Hr. pose proof (in_A _ _ (counted_closed _ _ _ Hs)) as Hnz.
  revert x. apply (rtc_ind_r (λ x, x = p ∨ kill_candidate x) r).
  - destruct (decide (r = p)) as [->|Hne]; [by left|right]. exists r.
    split; [by apply kill_alive|]. split; [|done]. destruct Hr as [Hr|Hr].
    + left. rewrite kill_ext, decide_False by auto. pose proof (occ_nonneg r (children o)). lia.
    + right. apply coloured_put. by rewrite decide_False.
  - intros y z Hry Hyz IH. destruct (decide (z = p)) as [->|Hne]; [by left|right].
    pose proof (reach_in_A _ _ (counted_closed _ _ _ Hs) r z) as HzA.
    specialize (HzA ltac:(by eapply rtc_r) HrA).
    destruct (decide (y = p)) as [->|Hyp].
    + exists z. split; [by apply kill_alive|]. split; [left|done].
      rewrite kill_ext, decide_False by auto. destruct Hyz as (cs & _ & Hcs & Hz & _).
      rewrite graph_lookup, Ho in Hcs. injection Hcs as <-. apply occ_pos in Hz.
      pose proof (c_ext _ _ _ Hs z). lia.
    + destruct IH as [?|(r' & Hr'A & Hr' & Hreach)]; [done|]. exists r'. split; [done|]. split; [done|].
      eapply rtc_r; [done|]. by apply kill_edge.
Qed.

Lemma kill_counted : counted ext' (dy ∪ {[p]}) s'.
Proof.
  assert (p ≠ 0) as Hp0 by (intros ->; by rewrite (c_null _ _ _ Hs) in Ho).
  pose proof kill_unreferenced as (He & Hr & Hocc).
  pose proof (recount_lookup s s' p (with_count 0 o) eq_refl) as Hlook.
  pose proof (recount_some s s' p o (with_count 0 o) Ho eq_refl) as Hsome.
  split.
  - apply (c_free _ _ _ Hs).
  - rewrite eq_None_not_Some, Hsome, (c_null _ _ _ Hs). by apply is_Some_None.
  - apply (c_nodup _ _ _ Hs).
  - intros x. simpl. rewrite (c_roots _ _ _ Hs). destruct (decide (x = p)) as [->|Hx].
    + rewrite lookup_insert_eq, Ho. split; intros (? & [= <-] & ?); eauto.
    + by rewrite lookup_insert_ne.
  - intros x ox [[-> ->]|[Hx Hox]]%Hlook.
    + destruct (c_colour _ _ _ Hs p o Ho) as [?|(? & ? & _)]; [by left|right]. split; [done|].
      split; [done|]. right. set_solver.
    + destruct (c_colour _ _ _ Hs x ox Hox) as [?|(? & ? & [?|?])]; [by left|right; set_solver..].
  - intros x ox Hox. assert (x ≠ 0) as Hx0 by (intros ->; by apply mk_is_Some, Hsome in Hox as [? ?]; rewrite (c_null _ _ _ Hs) in *).
    rewrite kill_ext by done. apply Hlook in Hox as [[-> ->]|[Hx Hox]].
    + rewrite decide_True, Hr, Hocc by done. done.
    + rewrite decide_False by done. rewrite (c_count _ _ _ Hs x ox Hox), kill_refs. lia.
  - intros x ox [[-> ->]|[Hx Hox]]%Hlook; [done|by apply (c_range _ _ _ Hs x)].
  - intros x. destruct (decide (x = 0)) as [->|Hx].
    + unfold hold, bump. rewrite decide_True, decide_False by naive_solver. apply (c_ext _ _ _ Hs).
    + rewrite kill_ext by done. pose proof (c_ext _ _ _ Hs x). pose proof (occ_nonneg x (children o)).
      case_decide; lia.
  - intros x. destruct (decide (x = 0)) as [->|Hx].
    + unfold hold, bump. rewrite decide_True, decide_False, Hsome by naive_solver. apply (c_held _ _ _ Hs).
    + rewrite kill_ext, Hsome by done. case_decide as Hxp; [subst; eauto|]. intros Hpos.
      destruct (decide (0 < ext x)); [by apply (c_held _ _ _ Hs)|].
      destruct (c_pointers _ _ _ Hs p o x Ho) as [?|?]; [lia| |done|done].
      apply occ_pos. pose proof (c_ext _ _ _ Hs x). lia.
  - intros x ox [[-> ->]|[Hx Hox]]%Hlook; [right; set_solver|]. intros Hz.
    destruct (c_dead _ _ _ Hs x ox Hox Hz) as [?|?]; [by left|right; set_solver].
  - intros x [Hx| ->%elem_of_singleton]%elem_of_union; simpl.
    + destruct (c_dying _ _ _ Hs x Hx) as (ox & Hox & Hz). exists ox. split; [|done].
      rewrite lookup_insert_ne; [done|]. intros <-. simplify_eq. lia.
    + exists (with_count 0 o). by rewrite lookup_insert_eq.
  - intros x ox y Hox Hc Hy. rewrite Hsome. apply Hlook in Hox as [[-> ->]|[Hx Hox]]; [done|].
    by apply (c_pointers _ _ _ Hs x ox).
  - intros x [Hxp Hx]%kill_alive. destruct (c_candidates _ _ _ Hs x Hx) as (r & HrA & Hr' & Hreach).
    by destruct (kill_candidates r x HrA Hr' Hreach).
Qed.
End kill.

(** ** A dying object is freed, or waits in the buffer of roots *)

Section bury.
Context (ext : Z → Z) (dy : gset Z) (s s' : rc_state) (p : Z) (o : object).
Context (Hs : counted ext (dy ∪ {[p]}) s) (Hp : p ∉ dy).
Context (Ho : objects s !! p = Some o) (Hz : count o = 0).
Context (Hne : ∀ x, x ≠ p → objects s' !! x = objects s !! x).
Context (Hp' : if buffered o then objects s' !! p = Some (with_colour BLACK o)
               else objects s' !! p = None).
Context (Hro : roots s' = roots s) (Hfr : free_set s' = []).

Lemma bury_lookup x ox : objects s' !! x = Some ox →
  (x = p ∧ ox = with_colour BLACK o ∧ buffered o = true) ∨ (x ≠ p ∧ objects s !! x = Some ox).
Proof.
  destruct (decide (x = p)) as [->|Hx]; [|rewrite Hne by done; by right].
  destruct (buffered o); rewrite Hp'; [|done]. intros [= <-]. by left.
Qed.

Lemma bury_alive : alive s' = alive s.
Proof.
  apply set_eq. intros x. rewrite !elem_of_alive. split.
  - intros (ox & [(-> & -> & _)|[_ ?]]%bury_lookup & Hc); [simpl in Hc; lia|eauto].
  - intros (ox & Hox & Hc). destruct (decide (x = p)) as [->|Hx]; [simplify_eq; lia|].
    exists ox. by rewrite Hne.
Qed.

Lemma bury_dead : p ∉ alive s.
Proof. intros (ox & ? & ?)%elem_of_alive. simplify_eq. lia. Qed.

Lemma bury_graph x : x ∈ alive s → graph_of s' !! x = graph_of s !! x.
Proof.
  intros Hx. rewrite !graph_lookup, Hne; [done|]. intros ->. by apply bury_dead.
Qed.

Lemma bury_refs q : state_refs s' q = state_refs s q.
Proof.
  unfold refs. rewrite bury_alive.
  apply msum_eq; [intros; case_decide; [apply occ_nonneg|done]..| |]; intros x cs Hx;
    (case_decide as HxA; [right|by left]); exists cs; (split; [|done]).
  - by rewrite <-bury_graph.
  - by rewrite bury_graph.
Qed.

Lemma bury_edge x y : state_edge s x y → state_edge s' x y.
Proof.
  intros (cs & Hx & Hcs & Hy). exists cs. rewrite bury_alive, bury_graph by done. done.
Qed.

Lemma bury_unreferenced : ext p = 0 ∧ state_refs s p = 0.
Proof.
  pose proof (c_count _ _ _ Hs p o Ho). pose proof (c_ext _ _ _ Hs p).
  pose proof (refs_nonneg (graph_of s) (alive s) p). lia.
Qed.

Lemma bury_counted : counted ext dy s'.
Proof.
  pose proof bury_unreferenced as [He Hr]. split.
  - done.
  - destruct (objects s' !! 0) as [o'|] eqn:E; [|done].
    apply bury_lookup in E as [(<- & _)|[_ E]]; by rewrite (c_null _ _ _ Hs) in *.
  - rewrite Hro. apply (c_nodup _ _ _ Hs).
  - intros x. rewrite Hro, (c_roots _ _ _ Hs). destruct (decide (x = p)) as [->|Hx].
    + rewrite Ho. split.
      * intros (o1 & [= <-] & Hb). rewrite Hb in Hp'. eexists. by split.
      * intros (o1 & [(_ & -> & ?)|[? _]]%bury_lookup & _); eauto.
    + by rewrite Hne.
  - intros x ox [(-> & -> & _)|[Hx Hox]]%bury_lookup; [by left|].
    destruct (c_colour _ _ _ Hs x ox Hox) as [?|(? & ? & ?)]; [by left|right; set_solver].
  - intros x ox [(-> & -> & _)|[Hx Hox]]%bury_lookup; rewrite bury_refs.
    + simpl. lia.
    + by apply (c_count _ _ _ Hs).
  - intros x ox [(-> & -> & _)|[Hx Hox]]%bury_lookup; [simpl; lia|by apply (c_range _ _ _ Hs x)].
  - apply (c_ext _ _ _ Hs).
  - intros x Hx. rewrite Hne; [by apply (c_held _ _ _ Hs)|]. intros ->. lia.
  - intros x ox [(-> & -> & ?)|[Hx Hox]]%bury_lookup Hc; [by left|].
    destruct (c_dead _ _ _ Hs x ox Hox Hc) as [?|?]; [by left|right; set_solver].
  - intros x Hx. rewrite Hne by set_solver. apply (c_dying _ _ _ Hs). set_solver.
  - intros x ox y [(-> & -> & ?)|[Hx Hox]]%bury_lookup Hc Hy; [simpl in Hc; lia|].
    destruct (decide (y = 0)) as [?|Hy0]; [by left|right].
    destruct (c_pointers _ _ _ Hs x ox y Hox Hc Hy) as [?|?]; [done|]. rewrite Hne; [done|]. intros ->.
    enough (0 < state_refs s p) by lia. apply (refs_edge s x). exists (children ox).
    rewrite graph_lookup, Hox, elem_of_alive. split; [eauto|done].
  - intros x Hx'. assert (x ∈ alive s) as Hx by (by rewrite <-bury_alive).
    destruct (c_candidates _ _ _ Hs x Hx) as (r & HrA & Hr' & Hreach).
    exists r. split; [by rewrite bury_alive|]. split.
    + unfold coloured in *. rewrite Hne; [done|]. intros ->. by apply bury_dead.
    + eapply rtc_subrel; [|exact Hreach]. apply bury_edge.
Qed.
End bury.

(** ** Objects only go away *)

Record shrinks (s s' : rc_state) : Prop := {
  sh_children : ∀ x o', objects s' !! x = Some o' →
    ∃ o, objects s !! x = Some o ∧ children o' = children o;
  sh_alive : alive s' ⊆ alive s;
  sh_freed : ∃ l, deallocated s' = deallocated s ++ l ∧ NoDup l
    ∧ ∀ x, x ∈ l ↔ is_Some (objects s !! x) ∧ objects s' !! x = None }.

Lemma sh_domain s s' x : shrinks s s' → is_Some (objects s' !! x) → is_Some (objects s !! x).
Proof. intros Hsh [o' Ho']. destruct (sh_children _ _ Hsh x o' Ho') as (o & ? & _). eauto. Qed.

Lemma shrinks_same s s' : (∀ x, is_Some (objects s' !! x) ↔ is_Some (objects s !! x)) →
  graph_of s' = graph_of s → alive s' ⊆ alive s → deallocated s' = deallocated s → shrinks s s'.
Proof.
  intros Hdom Hg HA Hlog. split; [|done|].
  - intros x o' Ho'. apply (f_equal (lookup x)) in Hg. rewrite !graph_lookup, Ho' in Hg.
    destruct (objects s !! x) as [o|]; [|done]. injection Hg as Hg. eauto.
  - exists []. rewrite app_nil_r. split; [done|]. split; [constructor|]. intros x.
    rewrite elem_of_nil, <-Hdom. split; [done|]. intros [[? ?] ?]. congruence.
Qed.

Lemma shrinks_refl s : shrinks s s.
Proof. by apply shrinks_same. Qed.

Lemma shrinks_trans s s' s'' : shrinks s s' → shrinks s' s'' → shrinks s s''.
Proof.
  intros H1 H2. split.
  - intros x o Ho. destruct (sh_children _ _ H2 x o Ho) as (o' & Ho' & ->). by apply (sh_children _ _ H1).
  - etrans; [apply (sh_alive _ _ H2)|apply (sh_alive _ _ H1)].
  - destruct (sh_freed _ _ H1) as (l & Hl & Hnd & Hin). destruct (sh_freed _ _ H2) as (l' & Hl' & Hnd' & Hin').
    exists (l ++ l'). rewrite Hl', Hl, app_assoc. split; [done|]. split.
    + apply NoDup_app. split; [done|]. split; [|done]. intros x [_ Hx]%Hin [[? Hx'] _]%Hin'. congruence.
    + intros x. rewrite elem_of_app, Hin, Hin'. split.
      * intros [[Hx Hx']|[Hx Hx']]; split; try done; [|by eapply sh_domain].
        destruct (objects s'' !! x) as [o|] eqn:E; [|done].
        destruct (sh_children _ _ H2 x o E) as (? & ? & _). congruence.
      * intros [Hx Hx']. destruct (objects s' !! x) eqn:E; [right|left]; eauto.
Qed.

Lemma shrinks_size s s' : shrinks s s' → (size (objects s') ≤ size (objects s))%nat.
Proof.
  intros Hsh. rewrite <-!size_dom. apply subseteq_size. intros x.
  rewrite !elem_of_dom. by apply sh_domain.
Qed.

(** ** [mcxx_possible_root] *)

Lemma roots_room ext dy s p o : counted ext dy s → objects s !! p = Some o → buffered o = false →
  (S (length (roots s)) ≤ size (objects s))%nat.
Proof.
  intros Hs Ho Hb. change (S (length (roots s))) with (length (p :: roots s)).
  rewrite <-(size_list_to_set (C := gset Z) (p :: roots s)), <-size_dom.
  - apply subseteq_size. intros x. rewrite elem_of_list_to_set, elem_of_dom, elem_of_cons.
    intros [->|(ox & ? & _)%(c_roots _ _ _ Hs)]; eauto.
  - apply NoDup_cons. split; [|apply (c_nodup _ _ _ Hs)].
    intros (ox & ? & ?)%(c_roots _ _ _ Hs). congruence.
Qed.

Lemma recount_shrinks s s' p o o' : objects s !! p = Some o → 0 < count o →
  objects s' = <[p := o']> (objects s) → children o' = children o → deallocated s' = deallocated s →
  shrinks s s'.
Proof.
  intros Ho Hpos Hob Hch Hlog. apply shrinks_same; [| | |done].
  - by apply (recount_some s s' p o o').
  - by apply (recount_graph s s' p o o').
  - intros x. rewrite (alive_insert s s' p o' Hob). case_decide; [|done]. subst. intros _.
    apply elem_of_alive. eauto.
Qed.

Lemma possible_root_counted fuel ext dy s p o : counted ext dy s → objects s !! p = Some o →
  1 < count o → 0 < ext p → Z.of_nat (size (objects s)) < MCXX_MAX_ROOTS →
  ∃ s' o', mcxx_possible_root fuel p (put p (with_count (count o - 1) o) s) = Ret s'
    ∧ objects s' = <[p := o']> (objects s) ∧ free_set s' = [] ∧ shrinks s s'
    ∧ counted (bump (-1) p ext) dy s'.
Proof.
  intros Hs Ho Hc Hp Hsize. set (o1 := with_count (count o - 1) o).
  pose proof (c_range _ _ _ Hs p o Ho) as Hrange.
  unfold mcxx_possible_root. rewrite (header_lookup p (put p o1 s) o1), bind_ret by apply lookup_insert_eq.
  assert (Hdone : ∀ s' o', objects s' = <[p := o']> (objects s) → free_set s' = [] →
    NoDup (roots s') → (∀ x, x ∈ roots s' ↔ x ∈ roots s ∨ (x = p ∧ buffered o' = true)) →
    deallocated s' = deallocated s → o' = Object (children o) (count o - 1) true PURPLE →
    shrinks s s' ∧ counted (bump (-1) p ext) dy s').
  { intros s' o' Hob Hfr Hnd Hro Hlog ->. split.
    - eapply recount_shrinks; [done| |done|done|done]. lia.
    - eapply (recount ext dy s s' Hs p (-1) o); try done; simpl; try lia. by right. }
  assert (Hroot : buffered o = true → p ∈ roots s) by (intros ?; apply (c_roots _ _ _ Hs); eauto).
  pose proof (c_free _ _ _ Hs) as Hfr. pose proof (c_nodup _ _ _ Hs) as Hnd.
  simpl. case_decide as Hcol; [|destruct (buffered o) eqn:Hb].
  - destruct (c_colour _ _ _ Hs p o Ho) as [?|(_ & Hb & _)]; [congruence|].
    exists (put p o1 s), o1. split; [done|]. split; [done|]. split; [done|]. apply (Hdone _ o1); try done.
    + simpl. naive_solver.
    + destruct o. simpl in *. by subst.
  - exists (put p (with_colour PURPLE o1) s), (with_colour PURPLE o1).
    split; [unfold put; simpl; by rewrite insert_insert_eq|]. split; [done|]. split; [done|].
    apply (Hdone _ (with_colour PURPLE o1)); try done; simpl; [naive_solver|unfold with_colour; simpl; by rewrite Hb].
  - pose proof (roots_room _ _ _ _ _ Hs Ho Hb) as Hroom. unfold mcxx_append_to_roots. simpl.
    rewrite (proj2 (Z.leb_gt _ _)) by lia. rewrite length_app. simpl.
    rewrite (proj2 (Z.eqb_neq _ _)) by lia.
    set (o2 := Object (children o) (count o - 1) true PURPLE).
    exists (with_roots (roots s ++ [p]) (put p o2 s)), o2.
    split; [unfold put, with_roots; simpl; by rewrite insert_insert_eq|]. split; [done|]. split; [done|].
    apply (Hdone _ o2); try done; simpl.
    + apply NoDup_app. split; [done|]. split; [|apply NoDup_singleton].
      intros x Hx ->%list_elem_of_singleton. apply (c_roots _ _ _ Hs) in Hx as (? & ? & ?). congruence.
    + intros x. rewrite elem_of_app, list_elem_of_singleton. naive_solver.
Qed.

(** ** [mcxx_decrement] *)

(** What a call may do to a state where the objects of [dy] are dying. *)
Record drops (ext : Z → Z) (dy : gset Z) (s s' : rc_state) : Prop := {
  dr_counted : counted ext dy s';
  dr_shrinks : shrinks s s';
  dr_dying : ∀ x, x ∈ dy → objects s' !! x = objects s !! x }.

Definition decrements (fuel : nat) : Prop := ∀ p s ext dy,
  counted ext dy s → p = 0 ∨ 0 < ext p → (size (alive s) < fuel)%nat →
  Z.of_nat (size (objects s)) < MCXX_MAX_ROOTS →
  ∃ s', mcxx_decrement fuel p s = Ret s' ∧ drops (bump (-1) p ext) dy s s'.

Lemma walk_decrements fuel ext dy l : decrements fuel → (∀ x, 0 ≤ ext x) → ∀ s,
  counted (hold l ext) dy s → (size (alive s) < fuel)%nat →
  Z.of_nat (size (objects s)) < MCXX_MAX_ROOTS →
  ∃ s', walk (mcxx_decrement fuel) l s = Ret s' ∧ drops ext dy s s'.
Proof.
  intros Hdec Hext. induction l as [|p l IH]; intros s Hs Hfuel Hsize.
  - exists s. split; [done|]. split; [|apply shrinks_refl|done].
    eapply counted_ext; [|exact Hs]. apply hold_nil.
  - destruct (Hdec p s _ dy Hs) as (s1 & Hs1 & [Hc Hsh Hd]); [|done|done|].
    { destruct (decide (p = 0)) as [?|Hp]; [by left|right]. unfold hold. rewrite decide_False by done.
      pose proof (Hext p). pose proof (occ_nonneg p l). rewrite occ_cons, decide_True by done. lia. }
    apply (counted_ext _ (hold l ext)) in Hc; [|apply bump_hold].
    destruct (IH s1 Hc) as (s2 & Hs2 & [Hc2 Hsh2 Hd2]).
    + pose proof (subseteq_size _ _ (sh_alive _ _ Hsh)). lia.
    + pose proof (shrinks_size _ _ Hsh). lia.
    + exists s2. cbn [walk]. rewrite Hs1, bind_ret. split; [done|]. split; [done|by eapply shrinks_trans|].
      intros x Hx. by rewrite (Hd2 x Hx), (Hd x Hx).
Qed.

(** The object was the last of its references, and its own pointers are gone. *)
Lemma release_last ext dy s s1 p o : counted ext (dy ∪ {[p]}) s1 → p ∉ dy →
  objects s1 !! p = Some o → count o = 0 → shrinks s s1 → (∀ x, x ∈ dy → objects s1 !! x = objects s !! x) →
  ∃ s', (o ← header p s1;
         let t := put p (with_colour BLACK o) s1 in
         s ← Ret (if buffered o then t else mcxx_add_to_free_set p t);
         mcxx_release_free_set s) = Ret s' ∧ drops ext dy s s'.
Proof.
  intros Hs1 Hp Ho Hz Hsh Hdy. rewrite (header_lookup _ _ _ Ho), !bind_ret. cbv zeta.
  pose proof (c_free _ _ _ Hs1) as Hfr.
  assert (Hdone : ∀ s', roots s' = roots s1 → free_set s' = [] →
    (∀ x, x ≠ p → objects s' !! x = objects s1 !! x) →
    (if buffered o then objects s' !! p = Some (with_colour BLACK o) ∧ deallocated s' = deallocated s1
     else objects s' !! p = None ∧ deallocated s' = deallocated s1 ++ [p]) → drops ext dy s s').
  { intros s' Hro Hfr' Hne Hp'.
    assert (if buffered o then objects s' !! p = Some (with_colour BLACK o) else objects s' !! p = None)
      as Hp1 by (by destruct (buffered o), Hp').
    split.
    - by apply (bury_counted ext dy s1 s' p o).
    - eapply shrinks_trans; [exact Hsh|]. split.
      + intros x ox [(-> & -> & _)|[_ ?]]%(bury_lookup s1 s' p o Hne Hp1); eauto.
      + by rewrite (bury_alive s1 s' p o Ho Hz Hne Hp1).
      + destruct (buffered o).
        * exists []. rewrite app_nil_r. split; [apply Hp'|]. split; [constructor|]. intros x.
          rewrite elem_of_nil. split; [done|]. intros [[ox ?] Hx].
          destruct (decide (x = p)) as [->|Hxp]; [|rewrite Hne in Hx by done]; congruence.
        * exists [p]. split; [apply Hp'|]. split; [apply NoDup_singleton|]. intros x.
          rewrite list_elem_of_singleton. split; [intros ->; eauto|]. intros [[ox ?] Hx].
          destruct (decide (x = p)) as [->|Hxp]; [done|]. rewrite Hne in Hx by done. congruence.
    - intros x Hx. rewrite Hne by set_solver. by apply Hdy. }
  destruct (buffered o) eqn:Hb.
  - eexists. split; [unfold mcxx_release_free_set; simpl; rewrite Hfr; reflexivity|].
    apply Hdone; simpl; try done; [intros; by rewrite lookup_insert_ne|by rewrite lookup_insert_eq].
  - eexists. split.
    { unfold mcxx_release_free_set, mcxx_add_to_free_set. simpl. rewrite Hfr. simpl.
      unfold release_object, header. simpl. rewrite lookup_insert_eq. reflexivity. }
    apply Hdone; simpl; try done; [|by rewrite lookup_delete_eq].
    intros. by rewrite lookup_delete_ne, lookup_insert_ne.
Qed.

Lemma decrement_counted fuel : decrements fuel.
Proof.
  induction fuel as [|fuel IH]; intros p s ext dy Hs Hp Hfuel Hsize; [lia|]. cbn [mcxx_decrement].
  destruct (Z.eqb_spec p 0) as [->|Hp0].
  { exists s. split; [done|]. split; [|apply shrinks_refl|done].
    eapply counted_ext; [|exact Hs]. intros x. unfold bump. by rewrite decide_False by tauto. }
  destruct Hp as [?|Hp]; [done|]. destruct (c_held _ _ _ Hs p Hp) as [o Ho].
  pose proof (c_count _ _ _ Hs p o Ho). pose proof (refs_nonneg (graph_of s) (alive s) p).
  pose proof (c_range _ _ _ Hs p o Ho).
  rewrite (header_lookup _ _ _ Ho), bind_ret, add_count_ok, bind_ret by lia. cbv zeta. simpl.
  destruct (Z.eqb_spec (count o + -1) 0) as [Hone|Hmore].
  - replace (count o + -1) with 0 by lia. assert (count o = 1) as Hone' by lia.
    pose proof (kill_counted ext dy s Hs p o Ho Hone' Hp) as Hk. set (s1 := put p (with_count 0 o) s) in *.
    assert (Hp1 : objects s1 !! p = Some (with_count 0 o)) by apply lookup_insert_eq.
    assert (Hpa : p ∈ alive s) by (apply elem_of_alive; exists o; split; [done|lia]).
    assert (Hdy : p ∉ dy) by (intros (? & ? & ?)%(c_dying _ _ _ Hs); simplify_eq; lia).
    assert (Hsz : size (objects s1) = size (objects s)).
    { unfold s1. simpl. by rewrite map_size_insert_Some by eauto. }
    assert (Hsh1 : shrinks s s1) by (eapply recount_shrinks; done || lia).
    destruct (walk_decrements fuel (bump (-1) p ext) (dy ∪ {[p]}) (children o) IH) with (s := s1)
      as (s2 & Hs2 & [Hc2 Hsh2 Hd2]); [|done| |by rewrite Hsz|].
    + intros x. unfold bump. pose proof (c_ext _ _ _ Hs x). case_decide as E; [destruct E; subst|]; lia.
    + assert (alive s1 ⊂ alive s) as Hsub%subset_size; [|lia].
      split; [apply (sh_alive _ _ Hsh1)|]. intros Hsub. apply Hsub in Hpa.
      apply (kill_alive s p o) in Hpa. tauto.
    + assert (objects s2 !! p = Some (with_count 0 o)) as Ho2 by (rewrite Hd2; [done|set_solver]).
      destruct (release_last (bump (-1) p ext) dy s s2 p _ Hc2 Hdy Ho2) as (s' & Hs' & Hd').
      * done.
      * by eapply shrinks_trans.
      * intros x Hx. rewrite Hd2 by set_solver. unfold s1. simpl. rewrite lookup_insert_ne; [done|].
        by intros ->.
      * exists s'. split; [|done]. rewrite <-Hs'. unfold mcxx_release.
        rewrite (header_lookup _ _ _ Hp1), bind_ret. simpl. rewrite Hs2, bind_ret.
        by rewrite (header_lookup _ _ _ Ho2), !bind_ret.
  - rewrite (proj2 (Z.ltb_ge _ _)) by lia. replace (count o + -1) with (count o - 1) by lia.
    destruct (possible_root_counted fuel ext dy s p o Hs Ho) as (s' & o' & -> & Hob & Hfr & Hsh & Hc);
      [lia|done|done|].
    rewrite bind_ret. unfold mcxx_release_free_set. rewrite Hfr. simpl.
    exists (with_free_set [] s'). split; [done|].
    replace (with_free_set [] s') with s' by (destruct s'; simpl in *; by subst).
    split; [done|done|]. intros x Hx. rewrite Hob, lookup_insert_ne; [done|]. intros ->.
    apply (c_dying _ _ _ Hs) in Hx as (? & ? & ?). simplify_eq. lia.
Qed.
