(* ===== verification/RefClient.v ===== *)
(** * Clients of the reference counts

    A client holds references to objects, and creates, shares, links and drops
    them with the macros of [lib/mcxx_refcount.h].  The reference is a heap
    where nothing is ever freed: the library is correct when a client that only
    uses what it reaches cannot tell the difference. *)

From S2P Require Import Prelude RefCount RefGraph RefMark RefMarkRoots RefCollect RefCycles RefOps.
#[local] Open Scope Z_scope.

(** ** The calls of a client *)

Inductive op := New (p : Z) (n : nat) | Ref (p : Z) | Unref (p : Z)
  | Assign (q : Z) (i : nat) (b : Z) | Collect.

Definition execute (fuel : nat) (c : op) (s : rc_state) : res rc_state :=
  match c with
  | New p n => REF_NEW0 p n s
  | Ref p => mcxx_increment p s
  | Unref p => mcxx_decrement fuel p s
  | Assign q i b => REF_SET fuel q i b s
  | Collect => mcxx_collectcycles fuel s
  end.

Fixpoint run (fuel : nat) (l : list op) (s : rc_state) : res rc_state :=
  match l with
  | [] => Ret s
  | c :: l' => s' ← execute fuel c s; run fuel l' s'
  end.

(** ** The reference: a heap where nothing is freed *)

Record world := World { held : Z → Z; heap : gmap Z (list Z) }.

Definition write (q : Z) (i : nat) (b : Z) (h : gmap Z (list Z)) : gmap Z (list Z) :=
  match h !! q with Some cs => <[q := <[i := b]> cs]> h | None => h end.

Definition perform (c : op) (w : world) : world :=
  match c with
  | New p n => World (bump 1 p (held w)) (<[p := replicate n 0]> (heap w))
  | Ref p => World (bump 1 p (held w)) (heap w)
  | Unref p => World (bump (-1) p (held w)) (heap w)
  | Assign q i b => World (held w) (write q i b (heap w))
  | Collect => w
  end.

(** What a client reaches from the references it holds *)
Definition heap_edge (h : gmap Z (list Z)) (x y : Z) : Prop :=
  ∃ cs, h !! x = Some cs ∧ y ∈ cs ∧ y ≠ 0.
Definition live (w : world) (x : Z) : Prop := ∃ r, 0 < held w r ∧ rtc (heap_edge (heap w)) r x.

Definition can_count (p : Z) (s : rc_state) : Prop :=
  match objects s !! p with Some o => count o < 2 ^ 31 - 1 | None => True end.

(** A client only names what it reaches, and drops a reference it holds.  The
    allocation returns an address that is not in use. *)
Definition permitted (c : op) (w : world) (s : rc_state) : Prop :=
  match c with
  | New p _ => p ≠ 0 ∧ objects s !! p = None ∧ Z.of_nat (S (size (objects s))) < MCXX_MAX_ROOTS
  | Ref p => (p = 0 ∨ live w p) ∧ can_count p s
  | Unref p => p = 0 ∨ 0 < held w p
  | Assign q i b => live w q ∧ (∃ cs, heap w !! q = Some cs ∧ (i < length cs)%nat)
      ∧ (b = 0 ∨ live w b) ∧ can_count b s
  | Collect => True
  end.

Fixpoint permitted_run (fuel : nat) (l : list op) (w : world) (s : rc_state) : Prop :=
  match l with
  | [] => True
  | c :: l' => permitted c w s ∧
      match execute fuel c s with
      | Ret s' => permitted_run fuel l' (perform c w) s'
      | Err _ => True
      end
  end.

Definition performs (l : list op) (w : world) : world := fold_left (λ w c, perform c w) l w.

(** ** The invariant *)

Record represents (w : world) (s : rc_state) : Prop := {
  rp_counted : counted (held w) ∅ s;
  rp_heap : ∀ x o, objects s !! x = Some o → heap w !! x = Some (children o);
  rp_size : Z.of_nat (size (objects s)) < MCXX_MAX_ROOTS }.

Lemma live_reachable w s x : represents w s → live w x ↔ reachable (held w) s x.
Proof.
  intros [Hs Hh _]. split; intros (r & Hr & Hreach); exists r; (split; [done|]).
  - pose proof (held_alive _ _ _ Hs r Hr) as HrA. clear Hr.
    induction Hreach as [|r y x (cs & Hcs & Hy & Hy0) _ IH]; [done|].
    pose proof HrA as (o & Ho & _)%elem_of_alive. pose proof (Hh r o Ho). simplify_eq.
    assert (state_edge s r y) as Hry by (exists (children o); by rewrite graph_lookup, Ho).
    eapply rtc_l; [exact Hry|]. apply IH.
    apply (reach_in_A _ _ (counted_closed _ _ _ Hs) r); [by apply rtc_once|done].
  - eapply rtc_subrel; [|exact Hreach]. intros y z (cs & _ & Hcs & Hz). exists cs.
    rewrite graph_lookup in Hcs. destruct (objects s !! y) as [o|] eqn:Ho; [|done].
    injection Hcs as <-. by rewrite (Hh y o Ho).
Qed.

Lemma live_alive w s x : represents w s → live w x → x ∈ alive s.
Proof.
  intros Hr Hx. apply (reachable_alive (held w) ∅ s); [by destruct Hr|]. by apply live_reachable.
Qed.

(** ** A new object *)

Lemma occ_replicate x n : x ≠ 0 → occ x (replicate n 0) = 0.
Proof.
  intros Hx. pose proof (occ_nonneg x (replicate n 0)). destruct (decide (0 < occ x (replicate n 0))) as [Hp|]; [|lia].
  apply occ_pos in Hp. by apply elem_of_replicate_inv in Hp.
Qed.

Section fresh.
Context (ext : Z → Z) (s : rc_state) (Hs : counted ext ∅ s) (p : Z) (n : nat).
Context (Hp0 : p ≠ 0) (Hp : objects s !! p = None).
Definition new_object := Object (replicate n 0) 1 false BLACK.
Notation s' := (put p new_object s).

Lemma new_alive x : x ∈ alive s' ↔ x = p ∨ x ∈ alive s.
Proof.
  rewrite (alive_insert s s' p new_object eq_refl). case_decide; [|tauto]. simpl. split; [by left|lia].
Qed.

Lemma new_lookup x o : objects s' !! x = Some o → (x = p ∧ o = new_object) ∨ (x ≠ p ∧ objects s !! x = Some o).
Proof.
  simpl. destruct (decide (x = p)) as [->|Hx].
  - rewrite lookup_insert_eq. intros [= <-]. by left.
  - rewrite lookup_insert_ne by done. by right.
Qed.

Lemma new_old x : x ≠ p → objects s' !! x = objects s !! x.
Proof. intros ?. simpl. by rewrite lookup_insert_ne. Qed.

Lemma new_refs x : x ≠ 0 → state_refs s' x = state_refs s x.
Proof.
  intros Hx. unfold refs.
  apply msum_eq; [intros; case_decide; [apply occ_nonneg|done]..| |]; intros y cs; rewrite graph_lookup.
  - destruct (objects s' !! y) as [o|] eqn:Ho; [|done]. intros [= <-].
    apply new_lookup in Ho as [[-> ->]|[Hy Ho]].
    + left. rewrite decide_True by (apply new_alive; by left). by apply occ_replicate.
    + right. exists (children o). rewrite graph_lookup, Ho. split; [done|].
      apply decide_ext. rewrite new_alive. tauto.
  - destruct (objects s !! y) as [o|] eqn:Ho; [|done]. intros [= <-]. right. exists (children o).
    assert (y ≠ p) by congruence. rewrite graph_lookup, new_old, Ho by done. split; [done|].
    apply decide_ext. rewrite new_alive. tauto.
Qed.

Lemma new_unknown : ext p = 0 ∧ state_refs s p = 0.
Proof.
  split.
  - pose proof (c_ext _ _ _ Hs p). destruct (decide (0 < ext p)) as [Hlt|]; [|lia].
    apply (c_held _ _ _ Hs) in Hlt as [? ?]. congruence.
  - pose proof (refs_nonneg (graph_of s) (alive s) p).
    destruct (decide (0 < state_refs s p)) as [Hlt|]; [|lia].
    apply msum_pos in Hlt as (x & cs & Hcs & Hlt). case_decide as Hx; [|done]. apply occ_pos in Hlt.
    apply elem_of_alive in Hx as (o & Ho & Hc). rewrite graph_lookup, Ho in Hcs. injection Hcs as <-.
    destruct (c_pointers _ _ _ Hs x o p Ho Hc Hlt) as [?|[? ?]]; congruence.
Qed.

Lemma new_counted : REF_NEW0 p n s = Ret s' ∧ counted (bump 1 p ext) ∅ s'.
Proof.
  assert (Hb : ∀ x, bump 1 p ext x = if decide (x = p) then ext x + 1 else ext x).
  { intros x. unfold bump. apply decide_ext. tauto. }
  pose proof new_unknown as [He Hr]. split.
  { unfold REF_NEW0, mcxx_increment, header. rewrite (proj2 (Z.eqb_neq _ _) Hp0). simpl.
    rewrite lookup_insert_eq. simpl. unfold put. simpl. by rewrite insert_insert_eq. }
  split.
  - apply (c_free _ _ _ Hs).
  - rewrite new_old by done. apply (c_null _ _ _ Hs).
  - apply (c_nodup _ _ _ Hs).
  - intros x. change (roots s') with (roots s). rewrite (c_roots _ _ _ Hs). split.
    + intros (o & Ho & ?). exists o. rewrite new_old by congruence. done.
    + intros (o & [[-> ->]|[_ ?]]%new_lookup & ?); [done|eauto].
  - intros x o [[-> ->]|[_ ?]]%new_lookup; [by left|by apply (c_colour _ _ _ Hs)].
  - intros x o Ho. rewrite Hb. apply new_lookup in Ho as [[-> ->]|[Hx Ho]].
    + rewrite decide_True, new_refs, Hr, He by done. done.
    + rewrite decide_False, new_refs by (congruence || (intros ->; by rewrite (c_null _ _ _ Hs) in Ho)).
      by apply (c_count _ _ _ Hs).
  - intros x o [[-> ->]|[_ ?]]%new_lookup; [done|by apply (c_range _ _ _ Hs x)].
  - intros x. rewrite Hb. pose proof (c_ext _ _ _ Hs x). case_decide; lia.
  - intros x. rewrite Hb. case_decide as Hx; [subst; simpl; rewrite lookup_insert_eq; eauto|].
    rewrite new_old by done. apply (c_held _ _ _ Hs).
  - intros x o [[-> ->]|[_ ?]]%new_lookup; [done|by apply (c_dead _ _ _ Hs)].
  - intros x. by rewrite elem_of_empty.
  - intros x o y [[-> ->]|[_ Ho]]%new_lookup Hc Hy.
    + left. simpl in Hy. by apply elem_of_replicate_inv in Hy.
    + destruct (c_pointers _ _ _ Hs x o y Ho Hc Hy) as [?|[? ?]]; [by left|right].
      rewrite new_old by congruence. eauto.
  - intros x [->|Hx]%new_alive.
    + exists p. split; [apply new_alive; by left|]. split; [left|done]. rewrite Hb, decide_True by done. lia.
    + destruct (c_candidates _ _ _ Hs x Hx) as (r & HrA & Hr' & Hreach). exists r.
      assert (r ≠ p) as Hrp by (intros ->; apply elem_of_alive in HrA as (? & ? & _); congruence).
      split; [apply new_alive; by right|]. split.
      * rewrite Hb, decide_False by done. unfold coloured in *. by rewrite new_old.
      * eapply rtc_subrel; [|exact Hreach]. intros y z (cs & Hy & Hcs & Hz). exists cs.
        split; [apply new_alive; by right|]. rewrite graph_lookup in *. rewrite new_old; [done|].
        intros ->. apply elem_of_alive in Hy as (? & ? & _). congruence.
Qed.
End fresh.

(** ** A pointer is written *)

Lemma bump_nonzero d p ext x : x ≠ 0 → bump d p ext x = ext x + (if decide (p = x) then d else 0).
Proof.
  intros Hx. unfold bump. destruct (decide (p = x)) as [->|Hne]; [by rewrite decide_True|].
  rewrite decide_False by (intros [-> ?]; done). lia.
Qed.

Lemma occ_insert (l : list Z) i t b x : l !! i = Some t →
  occ x (<[i := b]> l) = occ x l - (if decide (t = x) then 1 else 0) + (if decide (b = x) then 1 else 0).
Proof.
  intros Hi. pose proof (lookup_lt_Some _ _ _ Hi).
  rewrite insert_take_drop by done. rewrite <-(take_drop_middle l i t Hi) at 3.
  rewrite !occ_app, !occ_cons. lia.
Qed.

Section write.
Context (ext : Z → Z) (dy : gset Z) (s : rc_state) (q b t : Z) (i : nat) (o : object).
Context (Hs : counted (bump 1 b ext) dy s) (Hext : ∀ x, 0 ≤ ext x).
Context (Hq : reachable ext s q) (Ho : objects s !! q = Some o) (Hi : children o !! i = Some t).
Definition written := Object (<[i := b]> (children o)) (count o) (buffered o) (colour_of o).
Notation s' := (put q written s).

Lemma written_alive : alive s' = alive s.
Proof.
  apply set_eq. intros x. rewrite (alive_insert s s' q written eq_refl). case_decide as Hx; [|done]. subst.
  rewrite elem_of_alive, Ho. simpl. split; [eauto|]. by intros (? & [= <-] & ?).
Qed.

Lemma written_lookup x ox : objects s' !! x = Some ox → ∃ o1, objects s !! x = Some o1
  ∧ count ox = count o1 ∧ buffered ox = buffered o1 ∧ colour_of ox = colour_of o1
  ∧ if decide (x = q) then ox = written else ox = o1.
Proof.
  simpl. case_decide as Hx.
  - subst. rewrite lookup_insert_eq. intros [= <-]. exists o. done.
  - rewrite lookup_insert_ne by done. eauto 6.
Qed.

Lemma written_domain x : is_Some (objects s' !! x) ↔ is_Some (objects s !! x).
Proof. by apply (recount_some s s' q o written). Qed.

Lemma writer_alive : q ∈ alive s.
Proof.
  apply (reachable_alive _ _ _ Hs). destruct Hq as (r & Hr & Hreach). exists r. split; [|done].
  unfold bump. case_decide; lia.
Qed.

Lemma written_refs x : state_refs s' x
  = state_refs s x - (if decide (t = x) then 1 else 0) + (if decide (b = x) then 1 else 0).
Proof.
  unfold refs. rewrite written_alive.
  assert (graph_of s' = <[q := <[i := b]> (children o)]> (graph_of s)) as ->.
  { unfold graph_of. simpl. by rewrite fmap_insert. }
  rewrite (msum_update _ _ q (children o)) by by rewrite graph_lookup, Ho.
  rewrite !(decide_True (P := q ∈ alive s)) by apply writer_alive. rewrite (occ_insert _ _ _ _ _ Hi). lia.
Qed.

Lemma written_edge y z : state_edge s y z → y ≠ q ∨ z ≠ t → state_edge s' y z.
Proof.
  intros (cs & Hy & Hcs & Hz & Hz0) Hne. rewrite graph_lookup in Hcs.
  destruct (decide (y = q)) as [->|Hyq].
  - exists (<[i := b]> (children o)). rewrite written_alive, graph_lookup. simpl. rewrite lookup_insert_eq.
    split; [done|]. split; [done|]. split; [|done]. rewrite Ho in Hcs. injection Hcs as <-.
    apply list_elem_of_lookup in Hz as [j Hj]. apply list_elem_of_lookup. exists j.
    rewrite list_lookup_insert_ne; [done|]. intros ->. destruct Hne; congruence.
  - exists cs. rewrite written_alive, graph_lookup. simpl. rewrite lookup_insert_ne by done. done.
Qed.

(** An object that a candidate reaches in the new state *)
Definition candidate (x : Z) : Prop := ∃ r, r ∈ alive s' ∧
  (0 < bump 1 t ext r ∨ coloured PURPLE s' r) ∧ rtc (state_edge s') r x.

Lemma candidate_edge y z : candidate y → state_edge s y z → candidate z.
Proof.
  intros Hy Hyz. destruct (decide (y = q ∧ z = t)) as [[-> ->]|Hne].
  - destruct Hyz as (cs & Hqa & Hcs & Ht & Ht0). exists t. rewrite written_alive. split.
    + apply (reach_in_A _ _ (counted_closed _ _ _ Hs) q); [|done]. apply rtc_once. by exists cs.
    + split; [left|done]. unfold bump. rewrite decide_True by done. pose proof (Hext t). lia.
  - destruct Hy as (r & HrA & Hr & Hreach). exists r. split; [done|]. split; [done|].
    eapply rtc_r; [done|]. apply written_edge; [done|]. destruct (decide (y = q)); [right|left]; naive_solver.
Qed.

Lemma candidate_path r x : candidate r → rtc (state_edge s) r x → candidate x.
Proof. intros Hr Hreach. induction Hreach as [|r y x Hry _ IH]; eauto using candidate_edge. Qed.

Lemma candidate_held r : 0 < ext r → candidate r.
Proof.
  intros Hr. exists r. rewrite written_alive. split; [|split; [left|done]].
  - apply (held_alive _ _ _ Hs). unfold bump. case_decide; lia.
  - unfold bump. case_decide; lia.
Qed.

Lemma candidate_root r : r ∈ alive s → 0 < bump 1 b ext r ∨ coloured PURPLE s r → candidate r.
Proof.
  intros HrA [Hr|Hr].
  - destruct (decide (0 < ext r)) as [?|Hz]; [by apply candidate_held|].
    assert (r = b ∧ b ≠ 0) as [-> Hb0] by (unfold bump in Hr; case_decide; [done|lia]).
    destruct Hq as (r0 & Hr0 & Hreach).
    destruct (candidate_path r0 q (candidate_held r0 Hr0) Hreach) as (r' & ? & ? & ?).
    exists r'. split; [done|]. split; [done|]. eapply rtc_r; [done|].
    exists (<[i := b]> (children o)). rewrite written_alive, graph_lookup. simpl. rewrite lookup_insert_eq.
    split; [apply writer_alive|]. split; [done|]. split; [|done].
    apply list_elem_of_lookup. exists i. apply list_lookup_insert_eq. by eapply lookup_lt_Some.
  - exists r. rewrite written_alive. split; [done|]. split; [right|done]. apply coloured_put.
    case_decide; [|done]. subst. apply coloured_inv in Hr as (? & ? & ?). by simplify_eq.
Qed.

Lemma write_counted : counted (bump 1 t ext) dy s'.
Proof.
  assert (Hb : ∀ x, x ≠ 0 → bump 1 t ext x = ext x + (if decide (t = x) then 1 else 0)).
  { intros x. apply bump_nonzero. }
  pose proof (c_null _ _ _ Hs) as Hnull. split.
  - apply (c_free _ _ _ Hs).
  - rewrite eq_None_not_Some, written_domain, Hnull. by apply is_Some_None.
  - apply (c_nodup _ _ _ Hs).
  - intros x. change (roots s') with (roots s). rewrite (c_roots _ _ _ Hs). split.
    + intros (o1 & Ho1 & Hb1). destruct (proj2 (written_domain x) (mk_is_Some _ _ Ho1)) as [ox Hox].
      exists ox. split; [done|]. apply written_lookup in Hox as (? & ? & _ & -> & _). by simplify_eq.
    + intros (ox & (o1 & ? & _ & -> & _)%written_lookup & ?). eauto.
  - intros x ox (o1 & Ho1 & -> & -> & -> & _)%written_lookup. by apply (c_colour _ _ _ Hs).
  - intros x ox (o1 & Ho1 & -> & _)%written_lookup. rewrite written_refs.
    assert (x ≠ 0) as Hx by (intros ->; congruence). rewrite Hb, (c_count _ _ _ Hs x o1 Ho1), bump_nonzero by done.
    lia.
  - intros x ox (o1 & Ho1 & -> & _)%written_lookup. by apply (c_range _ _ _ Hs x).
  - intros x. pose proof (Hext x). unfold bump. case_decide; lia.
  - intros x Hx. rewrite written_domain. destruct (decide (t = x ∧ x ≠ 0)) as [[-> Hx0]|Hne].
    + destruct (c_pointers _ _ _ Hs q o x Ho) as [?|?]; [|by eapply list_elem_of_lookup_2|done|done].
      pose proof writer_alive as (? & ? & ?)%elem_of_alive. by simplify_eq.
    + apply (c_held _ _ _ Hs). unfold bump in Hx |- *. rewrite decide_False in Hx by naive_solver. case_decide; lia.
  - intros x ox (o1 & Ho1 & -> & -> & -> & _)%written_lookup. by apply (c_dead _ _ _ Hs).
  - intros x Hx. destruct (c_dying _ _ _ Hs x Hx) as (o1 & Ho1 & Hz).
    destruct (proj2 (written_domain x) (mk_is_Some _ _ Ho1)) as [ox Hox]. exists ox. split; [done|].
    apply written_lookup in Hox as (? & ? & -> & _). by simplify_eq.
  - intros x ox y (o1 & Ho1 & -> & _ & _ & Hox)%written_lookup Hc Hy. rewrite written_domain.
    case_decide; subst; [|by apply (c_pointers _ _ _ Hs x o1)]. simplify_eq. simpl in Hy.
    apply list_elem_of_lookup in Hy as [j Hj]. destruct (decide (j = i)) as [->|Hji].
    + rewrite list_lookup_insert_eq in Hj by by eapply lookup_lt_Some. injection Hj as <-.
      destruct (decide (b = 0)) as [?|Hb0]; [by left|right]. apply (c_held _ _ _ Hs).
      unfold bump. rewrite decide_True by done. pose proof (Hext b). lia.
    + rewrite list_lookup_insert_ne in Hj by done. apply (c_pointers _ _ _ Hs q o); [done|done|].
      by eapply list_elem_of_lookup_2.
  - intros x Hx. rewrite written_alive in Hx.
    destruct (c_candidates _ _ _ Hs x Hx) as (r & HrA & Hr & Hreach).
    by apply (candidate_path r), Hreach; apply candidate_root.
Qed.
End write.

(** ** The calls keep the invariant *)

Section calls.
Context (fuel : nat) (Hfuel : (2 * Z.to_nat MCXX_MAX_ROOTS ≤ fuel)%nat).

(** Objects keep their pointers. *)
Lemma represents_step w s held' s' : represents w s → counted held' ∅ s' →
  (∀ x o', objects s' !! x = Some o' → ∃ o, objects s !! x = Some o ∧ children o' = children o) →
  represents (World held' (heap w)) s'.
Proof.
  intros [_ Hh Hsz] Hc Hsub. split; simpl; [done| |].
  - intros x o' Ho'. destruct (Hsub x o' Ho') as (o & Ho & ->). by apply Hh.
  - eapply Z.le_lt_trans; [|exact Hsz]. apply inj_le. rewrite <-!size_dom. apply subseteq_size.
    intros x. rewrite !elem_of_dom. intros [o' Ho']. destruct (Hsub x o' Ho') as (o & ? & _). eauto.
Qed.

Lemma alive_fuel w s : represents w s → (size (alive s) < fuel)%nat.
Proof.
  intros [_ _ Hsz]. unfold MCXX_MAX_ROOTS in *.
  assert (size (alive s) ≤ size (objects s))%nat; [|lia].
  rewrite <-(size_dom (D := gset Z) (objects s)). apply subseteq_size. intros x (o & ? & _)%elem_of_alive.
  apply elem_of_dom. eauto.
Qed.

Lemma increment_represents w s p : represents w s → p = 0 ∨ live w p → can_count p s →
  ∃ s', mcxx_increment p s = Ret s' ∧ represents (World (bump 1 p (held w)) (heap w)) s'
    ∧ ∀ x, reachable (held w) s x → reachable (held w) s' x.
Proof.
  intros Hr [->|Hp] Hcan.
  { exists s. split; [done|]. split; [|done]. apply (represents_step w s); [done| |eauto].
    eapply counted_ext; [|apply (rp_counted _ _ Hr)]. intros x. unfold bump. by rewrite decide_False by tauto. }
  pose proof (live_alive w s p Hr Hp) as (o & Ho & Hpos)%elem_of_alive.
  unfold can_count in Hcan. rewrite Ho in Hcan.
  destruct (increment_counted (held w) ∅ s p o (rp_counted _ _ Hr) Ho) as [Hi Hc]; [lia|].
  set (o' := with_colour BLACK (with_count (count o + 1) o)) in *.
  exists (put p o' s). split; [exact Hi|]. split.
  - apply (represents_step w s); [done|done|].
    intros x ox [[-> ->]|[_ ?]]%(recount_lookup s (put p o' s) p o' eq_refl); eauto.
  - intros x (r & Hr0 & Hreach). exists r. split; [done|].
    rewrite (recount_graph s (put p o' s) p o o') by done.
    rewrite (recount_alive s (put p o' s) p o o') by (done || (simpl; lia)). done.
Qed.

Lemma decrement_represents w s p : represents w s → p = 0 ∨ 0 < held w p →
  ∃ s', mcxx_decrement fuel p s = Ret s' ∧ represents (World (bump (-1) p (held w)) (heap w)) s'.
Proof.
  intros Hr Hp. destruct (decrement_counted fuel p s (held w) ∅ (rp_counted _ _ Hr) Hp) as (s' & Hs' & [Hc Hsh _]).
  - by apply (alive_fuel w).
  - apply (rp_size _ _ Hr).
  - exists s'. split; [done|]. apply (represents_step w s); [done|done|]. apply (sh_children _ _ Hsh).
Qed.

Lemma assign_represents w s q i b cs : represents w s → live w q → heap w !! q = Some cs →
  (i < length cs)%nat → b = 0 ∨ live w b → can_count b s →
  ∃ s', REF_SET fuel q i b s = Ret s' ∧ represents (World (held w) (write q i b (heap w))) s'.
Proof.
  intros Hr Hq Hcs Hi Hb Hcan. pose proof (live_alive w s q Hr Hq) as (o & Ho & _)%elem_of_alive.
  pose proof (rp_heap _ _ Hr q o Ho) as Hqo. rewrite Hcs in Hqo. injection Hqo as ->.
  destruct (lookup_lt_is_Some_2 _ _ Hi) as [t Ht].
  destruct (increment_represents w s b Hr Hb Hcan) as (s1 & Hs1 & Hr1 & Hkeep).
  assert (Hq1 : reachable (held w) s1 q) by (apply Hkeep; by apply live_reachable).
  assert (live (World (bump 1 b (held w)) (heap w)) q) as Hq1'.
  { destruct Hq as (r & Hr0 & Hreach). exists r. split; [|done]. simpl. unfold bump. case_decide; lia. }
  pose proof (live_alive _ s1 q Hr1 Hq1') as (o1 & Ho1 & _)%elem_of_alive.
  pose proof (rp_heap _ _ Hr1 q o1 Ho1) as Hqo. simpl in Hqo. rewrite Hcs in Hqo. injection Hqo as Hch.
  unfold REF_SET. rewrite (header_lookup _ _ _ Ho), bind_ret, Ht. simpl.
  rewrite Hs1, bind_ret, (header_lookup _ _ _ Ho1), bind_ret.
  pose proof (write_counted (held w) ∅ s1 q b t i o1 (rp_counted _ _ Hr1) (c_ext _ _ _ (rp_counted _ _ Hr))
    Hq1 Ho1) as Hc. rewrite <-Hch in Hc. specialize (Hc Ht).
  fold (written b i o1). set (s2 := put q (written b i o1) s1) in *.
  destruct (decrement_represents (World (bump 1 t (held w)) (write q i b (heap w))) s2 t) as (s' & Hs' & Hr').
  - split; simpl; [done| |].
    + unfold write. rewrite Hcs. intros x ox. destruct (decide (x = q)) as [->|Hx].
      * rewrite !lookup_insert_eq. intros [= <-]. simpl. by rewrite Hch.
      * rewrite !lookup_insert_ne by done. apply (rp_heap _ _ Hr1).
    + rewrite map_size_insert_Some by eauto. apply (rp_size _ _ Hr1).
  - destruct (decide (t = 0)) as [?|Ht0]; [by left|right]. simpl. unfold bump. rewrite decide_True by done.
    pose proof (c_ext _ _ _ (rp_counted _ _ Hr) t). lia.
  - exists s'. split; [done|]. destruct Hr' as [Hc' Hh' Hsz']. split; [|done|done].
    eapply counted_ext; [|exact Hc']. intros x. simpl. unfold bump. case_decide; lia.
Qed.

Lemma execute_represents c w s : represents w s → permitted c w s →
  ∃ s', execute fuel c s = Ret s' ∧ represents (perform c w) s'.
Proof.
  intros Hr Hp. destruct c as [p n|p|p|q i b|]; simpl in *.
  - destruct Hp as (Hp0 & Hp & Hsz).
    destruct (new_counted (held w) s (rp_counted _ _ Hr) p n Hp0 Hp) as [Hs' Hc].
    eexists. split; [exact Hs'|]. split; simpl; [done| |].
    + intros x o. destruct (decide (x = p)) as [->|Hx].
      * rewrite !lookup_insert_eq. by intros [= <-].
      * rewrite !lookup_insert_ne by done. apply (rp_heap _ _ Hr).
    + by rewrite map_size_insert_None.
  - destruct Hp as [Hp Hcan]. destruct (increment_represents w s p Hr Hp Hcan) as (s' & ? & ? & _). eauto.
  - by apply decrement_represents.
  - destruct Hp as (Hq & (cs & Hcs & Hi) & Hb & Hcan). by eapply assign_represents.
  - destruct (collect_cycles (held w) fuel s (rp_counted _ _ Hr)) as (s' & Hs' & Hcl).
    + pose proof (rp_size _ _ Hr). unfold MCXX_MAX_ROOTS in *. lia.
    + exists s'. split; [done|]. destruct w as [e h]. apply (represents_step (World e h) s); [done| |].
      * apply (cl_counted _ _ _ Hcl).
      * apply (cl_children _ _ _ Hcl).
Qed.

Lemma run_represents l : ∀ w s, represents w s → permitted_run fuel l w s →
  ∃ s', run fuel l s = Ret s' ∧ represents (performs l w) s'.
Proof.
  induction l as [|c l IH]; intros w s Hr Hp; [by exists s|]. simpl in Hp. destruct Hp as [Hp Hrest].
  destruct (execute_represents c w s Hr Hp) as (s1 & Hs1 & Hr1). rewrite Hs1 in Hrest.
  simpl. rewrite Hs1, bind_ret. by apply IH.
Qed.
End calls.

Definition no_objects : rc_state := RcState ∅ [] [] [].
Definition empty_world : world := World (λ _, 0) ∅.

Lemma nothing_represented : represents empty_world no_objects.
Proof.
  split; [|done|done]. split; try done; [apply NoDup_nil_2|].
  intros x. split; [by intros ?%elem_of_nil|]. by intros (? & ? & _).
Qed.

(** ** Correctness *)

(** C3: A client of the reference counts that has fewer than [MCXX_MAX_ROOTS]
    (1024) objects at any time, and that only names objects it reaches, cannot
    tell that objects are freed: every call returns, and each object the client
    reaches in a heap where nothing is freed is allocated, has the pointers that
    were last written to it, and counts exactly the references that the clients
    and the objects in use hold to it.  (With that many objects the buffer of
    roots can fill up, and an object in use be freed:
    [full_buffer_use_after_free].) *)
Theorem reachable_objects_stay fuel l :
  (2 * Z.to_nat MCXX_MAX_ROOTS ≤ fuel)%nat → permitted_run fuel l empty_world no_objects →
  ∃ s, run fuel l no_objects = Ret s ∧ ∀ x, live (performs l empty_world) x →
    ∃ o, objects s !! x = Some o ∧ heap (performs l empty_world) !! x = Some (children o)
      ∧ 0 < count o ∧ count o = held (performs l empty_world) x + state_refs s x.
Proof.
  intros Hfuel Hl. destruct (run_represents fuel Hfuel l _ _ nothing_represented Hl) as (s & Hs & Hr).
  exists s. split; [done|]. intros x Hx. pose proof (live_alive _ _ x Hr Hx) as (o & Ho & Hpos)%elem_of_alive.
  exists o. split; [done|]. split; [by apply (rp_heap _ _ Hr)|]. split; [done|].
  by apply (c_count _ _ _ (rp_counted _ _ Hr)).
Qed.

(** C4: After any run of a client that has fewer than [MCXX_MAX_ROOTS] (1024)
    objects at any time, a collection of cycles ends, and then the allocated
    objects are those that the clients reach: every other object, in a cycle or
    not, has been freed, exactly once.  (A collection that a full buffer of roots
    starts is outside: see [full_buffer_use_after_free].) *)
Theorem collectcycles_frees_garbage fuel l :
  (2 * Z.to_nat MCXX_MAX_ROOTS ≤ fuel)%nat → permitted_run fuel l empty_world no_objects →
  ∃ s s', run fuel l no_objects = Ret s ∧ mcxx_collectcycles fuel s = Ret s'
    ∧ (∀ x, is_Some (objects s' !! x) ↔ live (performs l empty_world) x)
    ∧ ∃ freed, deallocated s' = deallocated s ++ freed ∧ NoDup freed
      ∧ ∀ x, x ∈ freed ↔ is_Some (objects s !! x) ∧ ¬ live (performs l empty_world) x.
Proof.
  intros Hfuel Hl. destruct (run_represents fuel Hfuel l _ _ nothing_represented Hl) as (s & Hs & Hr).
  destruct (collect_cycles _ fuel s (rp_counted _ _ Hr)) as (s' & Hs' & [_ _ Hob _ (freed & Hd & Hnd & Hf)]).
  - pose proof (rp_size _ _ Hr). unfold MCXX_MAX_ROOTS in *. lia.
  - exists s, s'. split; [done|]. split; [done|]. split.
    + intros x. by rewrite Hob, live_reachable.
    + exists freed. split; [done|]. split; [done|]. intros x. by rewrite Hf, live_reachable.
Qed.

(** Two objects that refer to each other, dropped by the client, and a third
    that it keeps. *)
Definition cycle : list op :=
  [New 16 1; New 32 2; New 48 0; Assign 16 0 32; Assign 32 0 16; Assign 32 1 48; Unref 16; Unref 32].

Definition enough : nat := 2 * Z.to_nat MCXX_MAX_ROOTS.

Ltac allow := repeat first
  [ progress cbn [permitted_run permitted perform cycle] | exact I | split
  | match goal with
    | |- context [match execute ?f ?c ?s with _ => _ end] =>
        let r := eval vm_compute in (execute f c s) in
        replace (execute f c s) with r by (vm_compute; reflexivity)
    end
  | match goal with |- _ ∨ live _ _ => right | |- _ ∨ 0 < _ => right end
  | match goal with |- live _ ?q => exists q; split; [vm_compute; reflexivity|apply rtc_refl] end
  | match goal with |- ∃ _, _ !! _ = Some _ ∧ _ =>
      eexists; split; [vm_compute; reflexivity|vm_compute; lia] end
  | by vm_compute | vm_compute; lia ].

Lemma cycle_permitted : permitted_run enough cycle empty_world no_objects.
Proof. allow. Qed.

Lemma reachable_objects_stay_witness : ∃ s, run enough cycle no_objects = Ret s
  ∧ ∃ o, objects s !! 48 = Some o ∧ count o = 2.
Proof.
  destruct (reachable_objects_stay enough cycle) as (s & Hs & Hlive); [reflexivity|apply cycle_permitted|].
  exists s. split; [done|]. destruct (Hlive 48) as (o & Ho & _); [exists 48; split; [reflexivity|apply rtc_refl]|].
  exists o. split; [done|]. vm_compute in Hs. injection Hs as <-. vm_compute in Ho. by injection Ho as <-.
Defined.

Lemma collectcycles_frees_garbage_witness : ∃ s s', run enough cycle no_objects = Ret s
  ∧ mcxx_collectcycles enough s = Ret s' ∧ deallocated s = [] ∧ deallocated s' = [32; 16]
  ∧ is_Some (objects s' !! 48).
Proof.
  destruct (collectcycles_frees_garbage enough cycle) as (s & s' & Hs & Hs' & Hlive & _);
    [reflexivity|apply cycle_permitted|].
  exists s, s'. split; [done|]. split; [done|]. vm_compute in Hs. injection Hs as <-.
  vm_compute in Hs'. injection Hs' as <-. split; [done|]. split; [done|].
  apply Hlive. exists 48. split; [reflexivity|apply rtc_refl].
Defined.

(** ** The buffer of roots fills up while an object is released *)

(** With 1024 objects the bound on the number of objects is met: the last root
    is added while the pointers of a candidate root that has died are dropped.
    The collection that follows takes the references of the dead root away a
    second time, frees an object that a client holds, and the dead root, which
    [mcxx_release] then writes to. *)
Definition candidates (n : nat) : list op :=
  concat ((λ k, let p := 16 * (Z.of_nat k + 1) in [New p 0; Ref p; Unref p]) <$> seq 0 n).
Definition full_buffer : list op :=
  candidates 1022 ++ [New 8 1; Ref 8; Unref 8; New 4 0; Assign 8 0 4; Unref 8].

Lemma full_buffer_use_after_free :
  run enough full_buffer no_objects = Err Undef ∧ held (performs full_buffer empty_world) 4 = 1.
Proof. vm_compute. done. Qed.
