(* ===== verification/Ast.v ===== *)
(** * Abstract syntax trees: [frontend/cxx-ast.c], [frontend/cxx-ast-inline.h]

    A node keeps the children it has in an array without holes, and a bitmap
    that says which they are; an ambiguous node keeps an array of
    interpretations in the same place.  Nodes, arrays and the information of
    expressions are separate blocks of one memory, so that a node that is
    overwritten with another one ([ast_replace]) shares its array.  A text is
    its characters, a locus an address.  Diagnostics are left out. *)

From S2P Require Import Prelude Heap.
#[local] Open Scope Z_scope.

(** ** Data *)

(** The kinds of nodes that the code names; the others are a generated
    enumeration. *)
Inductive node_t := AST_INVALID_NODE | AST_NODE_LIST | AST_AMBIGUITY | AST_kind (n : Z).

#[export] Instance node_t_eq_dec : EqDecision node_t.
Proof. solve_decision. Defined.

Definition MCXX_MAX_AST_CHILDREN : nat := 4.

(** [num_ambig] is indeterminate until the node becomes ambiguous.  [children]
    is the union of [children] and [ambig]. *)
Record AST_tag := AST {
  node_type : node_t; bitmap_sons : Z; num_ambig : option Z; parent : Z; locus : Z;
  text : option string; children : Z; expr_info : Z }.

(** The elements of an array are indeterminate until they are written. *)
Inductive block := Node (n : AST_tag) | Vec (v : list (option Z)) | Info.

Notation mem := (M block).

Definition set_node_type k n := AST k (bitmap_sons n) (num_ambig n) (parent n) (locus n) (text n) (children n) (expr_info n).
Definition set_bitmap b n := AST (node_type n) b (num_ambig n) (parent n) (locus n) (text n) (children n) (expr_info n).
Definition set_num_ambig x n := AST (node_type n) (bitmap_sons n) (Some x) (parent n) (locus n) (text n) (children n) (expr_info n).
Definition set_parent p n := AST (node_type n) (bitmap_sons n) (num_ambig n) p (locus n) (text n) (children n) (expr_info n).
Definition set_locus l n := AST (node_type n) (bitmap_sons n) (num_ambig n) (parent n) l (text n) (children n) (expr_info n).
Definition set_text t n := AST (node_type n) (bitmap_sons n) (num_ambig n) (parent n) (locus n) t (children n) (expr_info n).
Definition set_children v n := AST (node_type n) (bitmap_sons n) (num_ambig n) (parent n) (locus n) (text n) v (expr_info n).
Definition set_expr_info x n := AST (node_type n) (bitmap_sons n) (num_ambig n) (parent n) (locus n) (text n) (children n) x.

(** ** Memory *)

Definition lift {A} (r : res A) : mem A := λ m, x ← r; Ret (x, m).

Definition as_node (b : block) : res AST_tag := match b with Node n => Ret n | _ => Err Undef end.
Definition as_vec (b : block) : res (list (option Z)) := match b with Vec v => Ret v | _ => Err Undef end.

(** [p->f], [*p] and [p->f = e] *)
Definition node (p : Z) : mem AST_tag := b ← ld id p; lift (as_node b).
Definition fld {A} (f : AST_tag → A) (p : Z) : mem A := n ← node p; mret (f n).
Definition upd (f : AST_tag → AST_tag) (p : Z) : mem unit := n ← node p; st (λ _, Node (f n)) p.

(** [v[i]] and [v[i] = x] *)
Definition vec_get (v i : Z) : mem Z :=
  b ← ld id v; l ← lift (as_vec b);
  if i <? 0 then lift (Err Undef) else o ← lift (get (l !! Z.to_nat i)); lift (get o).
Definition vec_set (v i x : Z) : mem unit :=
  b ← ld id v; l ← lift (as_vec b);
  if (i <? 0) || (Z.of_nat (length l) <=? i) then lift (Err Undef)
  else st (λ _, Vec (<[Z.to_nat i := Some x]> l)) v.

(** Blocks are aligned to two bytes or more. *)
Definition alloc (b : block) : mem Z :=
  λ m, let p := fresh_address m + fresh_address m mod 2 in Ret (p, <[p := b]> m).

(** [NEW_VEC]: [xmalloc] of no bytes is [NULL]. *)
Definition NEW_VEC (n : Z) : mem Z :=
  if n =? 0 then mret 0 else alloc (Vec (replicate (Z.to_nat n) None)).

Definition DELETE (p : Z) : mem unit := if p =? 0 then mret tt else xfree p.

(** [NEW_REALLOC] of an array: the old elements and room for more *)
Definition NEW_REALLOC (v n : Z) : mem Z :=
  if n =? 0 then DELETE v;; mret 0 else
  l ← (if v =? 0 then mret [] else b ← ld id v; lift (as_vec b));
  DELETE v;; alloc (Vec (take (Z.to_nat n) (l ++ replicate (Z.to_nat n) None))).

Definition condition (b : bool) : mem unit := lift (if b then Err Aborted else Ret tt).

(** ** Children *)

(** The bits below [num], counted one after the other. *)
Fixpoint count_bits (n : nat) (bitmap s : Z) : Z :=
  match n with
  | O => s
  | S n' => count_bits n' (Z.shiftr bitmap 1) (s + Z.land bitmap 1)
  end.

Definition ast_bitmap_to_index (bitmap num : Z) : res Z :=
  if Z.land (Z.shiftl 1 num) bitmap =? 0 then Err Aborted
  else Ret (count_bits (Z.to_nat num) bitmap 0).

(** The variant for compilers with [__builtin_popcount] *)
Definition popcount (x : Z) : Z := count_bits 32 x 0.
Definition ast_bitmap_to_index_builtin (bitmap num : Z) : res Z :=
  if Z.land (Z.shiftl 1 num) bitmap =? 0 then Err Aborted
  else Ret (popcount (Z.land bitmap (u32 (Z.lnot (u32 (Z.shiftl (u32 (Z.lnot 0)) num)))))).

Definition ast_count_bitmap (bitmap : Z) : Z := count_bits MCXX_MAX_AST_CHILDREN bitmap 0.

Definition ast_get_kind := fld node_type.
Definition ast_get_parent := fld parent.
Definition ast_get_text := fld text.
Definition ast_set_kind (a : Z) (k : node_t) := upd (set_node_type k) a.
Definition ast_set_parent (a p : Z) := upd (set_parent p) a.
Definition ast_set_text (a : Z) (t : option string) := upd (set_text t) a.
Definition ast_get_expr_info := fld expr_info.
Definition ast_set_expr_info (a : Z) (x : Z) := upd (set_expr_info x) a.

Definition ast_son_num_to_son_index (a num_son : Z) : mem Z :=
  b ← fld bitmap_sons a; lift (ast_bitmap_to_index b num_son).

Definition ast_has_son (a son : Z) : mem bool :=
  b ← fld bitmap_sons a; mret (negb (Z.land (Z.shiftl 1 son) b =? 0)).

Definition ast_get_child (a num_child : Z) : mem Z :=
  h ← ast_has_son a num_child;
  if (h : bool) then i ← ast_son_num_to_son_index a num_child; v ← fld children a; vec_get v i
  else mret 0.

Definition ast_num_children (a : Z) : mem Z := b ← fld bitmap_sons a; mret (ast_count_bitmap b).

(** One [ADD_SON] of [ast_make]: the index of the next son *)
Definition add_son (result idx child : Z) : mem Z :=
  if child =? 0 then mret idx
  else v ← fld children result; vec_set v idx child;; ast_set_parent child result;; mret (idx + 1).

Definition some_son (x : Z) : Z := if x =? 0 then 0 else 1.

(** The fields that [ast_make] does not set are indeterminate; no code reads
    them before they are set, and only [num_ambig] stays so. *)
Definition ast_make (type : node_t) (child0 child1 child2 child3 location : Z) (tx : option string) :
    mem Z :=
  result ← alloc (Node (AST type 0 None 0 location tx 0 0));
  let bitmap := Z.lor (some_son child0) (Z.lor (Z.shiftl (some_son child1) 1)
    (Z.lor (Z.shiftl (some_son child2) 2) (Z.shiftl (some_son child3) 3))) in
  upd (set_bitmap bitmap) result;;
  v ← NEW_VEC (ast_count_bitmap bitmap);
  upd (set_children v) result;;
  idx ← add_son result 0 child0;
  idx ← add_son result idx child1;
  idx ← add_son result idx child2;
  idx ← add_son result idx child3;
  upd (set_expr_info 0) result;;
  mret result.

Definition ASTLeaf (type : node_t) (location : Z) (tx : option string) : mem Z :=
  ast_make type 0 0 0 0 location tx.

(** The body of the loop of [ast_reallocate_children] *)
Definition move_child (a num_child new_child old_children old_bitmap i : Z) : mem unit :=
  h ← ast_has_son a i;
  if (h : bool) then
    v ← fld children a;
    j ← ast_son_num_to_son_index a i;
    if i =? num_child then vec_set v j new_child
    else k ← lift (ast_bitmap_to_index old_bitmap i); x ← vec_get old_children k; vec_set v j x
  else mret tt.

Definition ast_reallocate_children (a num_child new_child : Z) : mem unit :=
  old_children ← fld children a;
  old_bitmap ← fld bitmap_sons a;
  (if negb (new_child =? 0)
   then upd (set_bitmap (Z.land (Z.lor old_bitmap (Z.shiftl 1 num_child)) 15)) a
   else upd (set_bitmap (Z.land (Z.land old_bitmap (Z.lnot (Z.shiftl 1 num_child))) 15)) a);;
  b ← fld bitmap_sons a;
  v ← NEW_VEC (ast_count_bitmap b);
  upd (set_children v) a;;
  move_child a num_child new_child old_children old_bitmap 0;;
  move_child a num_child new_child old_children old_bitmap 1;;
  move_child a num_child new_child old_children old_bitmap 2;;
  move_child a num_child new_child old_children old_bitmap 3;;
  DELETE old_children.

Definition ast_set_child_but_parent (a num_child new_child : Z) : mem unit :=
  h ← ast_has_son a num_child;
  if new_child =? 0 then
    if (h : bool) then ast_reallocate_children a num_child new_child else mret tt
  else if (h : bool) then
    i ← ast_son_num_to_son_index a num_child; v ← fld children a; vec_set v i new_child
  else ast_reallocate_children a num_child new_child.

Definition ast_set_child (a num_child new_child : Z) : mem unit :=
  ast_set_child_but_parent a num_child new_child;;
  if negb (new_child =? 0) then ast_set_parent new_child a else mret tt.

Fixpoint num_of_child (parent child : Z) (ks : list Z) : mem Z :=
  match ks with
  | [] => mret (-1)
  | i :: ks' => c ← ast_get_child parent i; if c =? child then mret i else num_of_child parent child ks'
  end.

Definition ast_num_of_given_child (parent child : Z) : mem Z := num_of_child parent child [0; 1; 2; 3].

(** ** Lists

    A list is a node whose son 1 is its last element and whose son 0 is the
    list of the elements before. *)

(** [iter = list; while (ASTSon0(iter) != NULL) iter = ASTSon0(iter);] *)
Fixpoint first_node (fuel : nat) (iter : Z) : mem Z :=
  match fuel with
  | O => no_fuel
  | S fuel' => s ← ast_get_child iter 0; if s =? 0 then mret iter else first_node fuel' s
  end.

(** The values of [iter] in [for_each_element_in_range] *)
Fixpoint for_each_element_in_range (fuel : nat) (iter lst : Z) : mem (list Z) :=
  match fuel with
  | O => no_fuel
  | S fuel' =>
      if iter =? 0 then mret [] else
      next ← (if negb (iter =? lst) then ast_get_parent iter else mret 0);
      rest ← for_each_element_in_range fuel' next lst; mret (iter :: rest)
  end.

Definition for_each_element (fuel : nat) (lst : Z) : mem (list Z) :=
  iter ← first_node fuel lst; for_each_element_in_range fuel iter lst.

Definition ast_list (lst last_elem : Z) : mem Z :=
  condition (last_elem =? 0);;
  t ← ast_get_text last_elem;
  ast_make AST_NODE_LIST lst last_elem 0 0 0 t.

Definition ast_list_leaf (a : Z) : mem Z := ast_list 0 a.

Definition ast_list_head (fuel : nat) (lst : Z) : mem Z :=
  if lst =? 0 then mret 0 else
  k ← ast_get_kind lst;
  if decide (k ≠ AST_NODE_LIST) then mret 0 else first_node fuel lst.

Definition ast_list_concat (fuel : nat) (before after : Z) : mem Z :=
  if before =? 0 then mret after else
  if after =? 0 then mret before else
  kb ← ast_get_kind before; ka ← ast_get_kind after;
  if decide (kb ≠ AST_NODE_LIST ∨ ka ≠ AST_NODE_LIST) then mret 0 else
  head_after ← ast_list_head fuel after;
  ast_set_child head_after 0 before;;
  mret after.

(** The head and the tail *)
Definition ast_list_split_head_tail (fuel : nat) (lst : Z) : mem (Z * Z) :=
  if lst =? 0 then mret (0, 0) else
  first ← ast_list_head fuel lst;
  if first =? lst then mret (first, 0) else
  p ← ast_get_parent first;
  ast_set_child p 0 0;;
  ast_set_parent first 0;;
  mret (first, lst).

Fixpoint ast_get_locus (fuel : nat) (a : Z) : mem Z :=
  match fuel with
  | O => no_fuel
  | S fuel' =>
      if a =? 0 then mret 0 else
      k ← ast_get_kind a;
      if decide (k ≠ AST_NODE_LIST) then fld locus a
      else h ← ast_list_head fuel' a; s ← ast_get_child h 1; ast_get_locus fuel' s
  end.

Definition ast_set_locus (a l : Z) : mem unit :=
  k ← ast_get_kind a; condition (bool_decide (k = AST_NODE_LIST));; upd (set_locus l) a.

(** A list as the parser builds it: the nodes on the way to the first element *)
Fixpoint ast_check_list_tree (fuel : nat) (a : Z) : mem bool :=
  match fuel with
  | O => no_fuel
  | S fuel' =>
      if a =? 0 then mret false else
      k ← ast_get_kind a; s1 ← ast_get_child a 1;
      if decide (k ≠ AST_NODE_LIST ∨ s1 = 0) then mret false else
      k1 ← ast_get_kind s1;
      if decide (k1 = AST_NODE_LIST) then mret false else
      s0 ← ast_get_child a 0;
      if s0 =? 0 then mret true else
      k0 ← ast_get_kind s0; p0 ← ast_get_parent s0; p1 ← ast_get_parent s1;
      if decide (k0 ≠ AST_NODE_LIST ∨ p0 ≠ a ∨ p1 ≠ a) then mret false
      else ast_check_list_tree fuel' s0
  end.

(** ** Ambiguities *)

Definition ast_get_num_ambiguities (a : Z) : mem Z := o ← fld num_ambig a; lift (get o).
Definition ast_get_ambiguity (a num : Z) : mem Z := v ← fld children a; vec_get v num.

(** [for (i = 0; i < n; i++)] *)
Fixpoint for_all (f : Z → mem unit) (ks : list Z) : mem unit :=
  match ks with [] => mret tt | i :: ks' => f i;; for_all f ks' end.

(** [a->num_ambig += extra] and the array that has room for them *)
Definition more_ambiguities (a extra : Z) : mem unit :=
  n ← ast_get_num_ambiguities a;
  upd (set_num_ambig (n + extra)) a;;
  v ← fld children a;
  w ← NEW_REALLOC v (n + extra);
  upd (set_children w) a.

Definition set_ambiguity (a i x : Z) : mem unit := v ← fld children a; vec_set v i x.

Section ambiguous.
(** The locus that [make_locus] returns for no file; the new node gets that of
    its first interpretation at once. *)
Context (no_locus : Z).

Definition ast_make_ambiguous (son0 son1 : Z) : mem Z :=
  k0 ← ast_get_kind son0; k1 ← ast_get_kind son1;
  if decide (k0 = AST_AMBIGUITY) then
    if decide (k1 = AST_AMBIGUITY) then
      original_son0 ← ast_get_num_ambiguities son0;
      n1 ← ast_get_num_ambiguities son1;
      more_ambiguities son0 n1;;
      n1 ← ast_get_num_ambiguities son1;
      for_all (λ i, x ← ast_get_ambiguity son1 i; set_ambiguity son0 (original_son0 + i) x) (seqZ 0 n1);;
      mret son0
    else
      more_ambiguities son0 1;;
      n ← ast_get_num_ambiguities son0;
      set_ambiguity son0 (n - 1) son1;;
      mret son0
  else if decide (k1 = AST_AMBIGUITY) then
    more_ambiguities son1 1;;
    n ← ast_get_num_ambiguities son1;
    set_ambiguity son1 (n - 1) son0;;
    mret son1
  else
    result ← ASTLeaf AST_AMBIGUITY no_locus None;
    upd (set_num_ambig 2) result;;
    v ← NEW_VEC 2;
    upd (set_children v) result;;
    set_ambiguity result 0 son0;;
    set_ambiguity result 1 son1;;
    l ← fld locus son0;
    upd (set_locus l) result;;
    mret result.

Definition ast_copy_one_node (dest orig : Z) : mem unit :=
  n ← node orig; upd (λ _, n) dest;; upd (set_bitmap 0) dest;; upd (set_children 0) dest.

Definition ast_duplicate_one_node (orig : Z) : mem Z :=
  dest ← ASTLeaf AST_INVALID_NODE no_locus None; ast_copy_one_node dest orig;; mret dest.
End ambiguous.

Definition ast_replace (dest src : Z) : mem unit := n ← node src; upd (λ _, n) dest.

Fixpoint ast_fix_parents_inside_intepretation (fuel : nat) (n : Z) : mem unit :=
  match fuel with
  | O => no_fuel
  | S fuel' =>
      if n =? 0 then mret tt else
      k ← ast_get_kind n;
      if decide (k = AST_AMBIGUITY) then mret tt else
      for_all (λ i,
        c ← ast_get_child n i;
        if c =? 0 then mret tt
        else ast_set_parent c n;; ast_fix_parents_inside_intepretation fuel' c) [0; 1; 2; 3]
  end.

Definition ast_replace_with_ambiguity (fuel : nat) (a n : Z) : mem unit :=
  num ← ast_get_num_ambiguities a;
  condition (num <=? n);;
  condition (n <? 0);;
  p ← ast_get_parent a;
  chosen_ambig ← ast_get_ambiguity a n;
  ast_replace a chosen_ambig;;
  ast_set_parent a p;;
  ast_fix_parents_inside_intepretation fuel a.

(** ** Whole trees *)

Fixpoint ast_copy (fuel : nat) (a : Z) : mem Z :=
  match fuel with
  | O => no_fuel
  | S fuel' =>
      if a =? 0 then mret 0 else
      result ← alloc (Node (AST AST_INVALID_NODE 0 (Some 0) 0 0 None 0 0));
      ast_copy_one_node result a;;
      n ← node a;
      num ← (if decide (node_type n = AST_AMBIGUITY) then lift (get (num_ambig n)) else mret 0);
      (if 0 <? num then
         upd (set_num_ambig num) result;;
         v ← NEW_VEC num;
         upd (set_children v) result;;
         for_all (λ i, x ← ast_get_ambiguity a i; c ← ast_copy fuel' x; set_ambiguity result i c)
           (seqZ 0 num)
       else
         b ← fld bitmap_sons a;
         upd (set_bitmap b) result;;
         v ← NEW_VEC (ast_count_bitmap b);
         upd (set_children v) result;;
         for_all (λ i, x ← ast_get_child a i; c ← ast_copy fuel' x;
           if c =? 0 then mret tt else ast_set_child result i c) [0; 1; 2; 3]);;
      t ← ast_get_text a;
      (if (t : option string) then upd (set_text t) result else mret tt);;
      upd (set_parent 0) result;;
      mret result
  end.

Definition ast_copy_for_instantiation := ast_copy.

Definition ast_equal_node (ast1 ast2 : Z) : mem bool :=
  if ast1 =? ast2 then mret true else
  if (ast1 =? 0) || (ast2 =? 0) then mret false else
  k1 ← ast_get_kind ast1; k2 ← ast_get_kind ast2;
  if decide (k1 ≠ k2) then mret false else
  n1 ← ast_num_children ast1; n2 ← ast_num_children ast2;
  if decide (n1 ≠ n2) then mret false else
  t1 ← ast_get_text ast1; t2 ← ast_get_text ast2;
  mret (match t1, t2 with
        | None, None => true
        | Some x, Some y => bool_decide (x = y)
        | _, _ => false
        end).

(** The loop over the children: they are compared while they are equal. *)
Fixpoint for_all_equal (f : Z → mem bool) (ks : list Z) : mem bool :=
  match ks with
  | [] => mret true
  | i :: ks' => e ← f i; if (e : bool) then for_all_equal f ks' else mret false
  end.

Fixpoint ast_equal (fuel : nat) (ast1 ast2 : Z) : mem bool :=
  match fuel with
  | O => no_fuel
  | S fuel' =>
      e ← ast_equal_node ast1 ast2;
      if negb e then mret false else
      if ast1 =? 0 then mret true else
      for_all_equal (λ i,
        c1 ← ast_get_child ast1 i; c2 ← ast_get_child ast2 i; ast_equal fuel' c1 c2) [0; 1; 2; 3]
  end.

(** The children of [node] that are pushed on the stack, while they are linked
    to it *)
Fixpoint push_children (node : Z) (ks : list Z) (stack : list Z) : mem (bool * list Z) :=
  match ks with
  | [] => mret (true, stack)
  | i :: ks' =>
      c ← ast_get_child node i;
      if c =? 0 then push_children node ks' stack else
      p ← ast_get_parent c;
      if p =? node then push_children node ks' (c :: stack) else mret (false, stack)
  end.

Fixpoint push_ambiguities (node : Z) (ks : list Z) (stack : list Z) : mem (list Z) :=
  match ks with
  | [] => mret stack
  | i :: ks' => c ← ast_get_ambiguity node i; push_ambiguities node ks' (c :: stack)
  end.

(** A top level list is checked. *)
Definition check_top_list (fuel : nat) (node : Z) : mem bool :=
  k ← ast_get_kind node;
  if decide (k ≠ AST_NODE_LIST) then mret true else
  p ← ast_get_parent node;
  kp ← (if p =? 0 then mret AST_INVALID_NODE else ast_get_kind p);
  if decide (kp = AST_NODE_LIST) then mret true else ast_check_list_tree fuel node.

Fixpoint check_stack (fuel : nat) (stack : list Z) : mem bool :=
  match fuel with
  | O => no_fuel
  | S fuel' =>
      match stack with
      | [] => mret true
      | node :: stack =>
          k ← ast_get_kind node;
          if decide (k ≠ AST_AMBIGUITY) then
            '(ok, stack) ← push_children node [0; 1; 2; 3] stack;
            l ← check_top_list fuel' node;
            if ok && l then check_stack fuel' stack else mret false
          else
            n ← ast_get_num_ambiguities node;
            stack ← push_ambiguities node (seqZ 0 n) stack;
            check_stack fuel' stack
      end
  end.

Definition ast_check (fuel : nat) (root : Z) : mem bool := check_stack fuel [root].

(** A node that is being freed is marked in bit 0 of its parent. *)
Fixpoint ast_free (fuel : nat) (a : Z) : mem unit :=
  match fuel with
  | O => no_fuel
  | S fuel' =>
      if a =? 0 then mret tt else
      p ← fld parent a;
      if Z.testbit p 0 then mret tt else
      upd (set_parent (Z.lor p 1)) a;;
      k ← ast_get_kind a;
      (if decide (k = AST_AMBIGUITY) then
         n ← ast_get_num_ambiguities a;
         for_all (λ i, x ← ast_get_ambiguity a i; ast_free fuel' x) (seqZ 0 n)
       else
         for_all (λ i, x ← ast_get_child a i; ast_free fuel' x) [0; 1; 2; 3]);;
      x ← fld expr_info a; DELETE x;;
      v ← fld children a; DELETE v;;
      DELETE a
  end.
