(* ===== verification/AstNode.v ===== *)
(** * Nodes of syntax trees: bitmaps and arrays without holes

    What a node with four children, some of them null, is in memory, and the
    specifications of the accesses to its children in the separation logic of
    [Heap]. *)

From S2P Require Import Prelude Heap Ast.
#[local] Open Scope Z_scope.
#[local] Unset SsrRewrite.

(** ** Bitmaps *)

(** The bitmap of a vector of children, and the array of those that are there *)
Fixpoint bits (xs : list Z) : Z :=
  match xs with [] => 0 | x :: xs' => some_son x + 2 * bits xs' end.
Definition present (xs : list Z) : list Z := filter (λ x, x ≠ 0) xs.

Lemma some_son_cases x : some_son x = 0 ∧ x = 0 ∨ some_son x = 1 ∧ x ≠ 0.
Proof. unfold some_son. destruct (Z.eqb_spec x 0); [left|right]; done. Qed.

Lemma bits_nonneg xs : 0 ≤ bits xs.
Proof. induction xs as [|x xs IH]; simpl; [done|]. destruct (some_son_cases x) as [[-> _]|[-> _]]; lia. Qed.

Lemma bits_testbit xs : ∀ i, 0 ≤ i → Z.testbit (bits xs) i = negb (default 0 (xs !! Z.to_nat i) =? 0).
Proof.
  induction xs as [|x xs IH]; intros i Hi; simpl; [by rewrite Z.bits_0|].
  assert (some_son x = Z.b2z (negb (x =? 0))) as -> by (unfold some_son; by destruct (x =? 0)).
  destruct (decide (i = 0)) as [->|Hi0].
  - rewrite Z.add_comm, Z.testbit_0_r. done.
  - rewrite Z.add_comm. replace i with (Z.succ (i - 1)) at 1 by lia. rewrite Z.testbit_succ_r by lia.
    rewrite IH by lia. replace (Z.to_nat i) with (S (Z.to_nat (i - 1))) by lia. done.
Qed.

Lemma bit_test b i : 0 ≤ i → (Z.land (Z.shiftl 1 i) b =? 0) = negb (Z.testbit b i).
Proof.
  intros Hi. destruct (Z.testbit b i) eqn:Hb; simpl.
  - apply Z.eqb_neq. intros H. apply (f_equal (λ z, Z.testbit z i)) in H.
    rewrite Z.land_spec, Hb, Z.bits_0, Z.shiftl_spec, Z.sub_diag in H by done. done.
  - apply Z.eqb_eq, Z.bits_inj'. intros j Hj. rewrite Z.land_spec, Z.shiftl_spec, Z.bits_0 by done.
    destruct (decide (j = i)) as [->|Hne]; [by rewrite Hb, andb_false_r|].
    apply andb_false_iff. left. destruct (decide (j < i)).
    + by apply Z.testbit_neg_r; lia.
    + replace (j - i) with (Z.succ (j - i - 1)) by lia. change 1 with (2 ^ 0).
      by rewrite Z.pow2_bits_false by lia.
Qed.

Lemma bits_has xs i : 0 ≤ i →
  (Z.land (Z.shiftl 1 i) (bits xs) =? 0) = (default 0 (xs !! Z.to_nat i) =? 0).
Proof. intros Hi. by rewrite bit_test, bits_testbit, negb_involutive. Qed.

Lemma count_bits_present n : ∀ xs s, count_bits n (bits xs) s = s + Z.of_nat (length (present (take n xs))).
Proof.
  induction n as [|n IH]; intros xs s; simpl; [lia|].
  assert (Hx : Z.shiftr (bits xs) 1 = bits (tail xs) ∧ Z.land (bits xs) 1 = some_son (default 0 (head xs))).
  { destruct xs as [|x xs]; simpl; [done|]. rewrite Z.shiftr_div_pow2 by done.
    change (Z.land ?y 1) with (Z.land y (Z.ones 1)). rewrite Z.land_ones by done. change (2 ^ 1) with 2.
    rewrite Z.mul_comm, Z.div_add, Z_mod_plus_full by done.
    by destruct (some_son_cases x) as [[-> _]|[-> _]]. }
  destruct Hx as [-> ->]. rewrite IH. destruct xs as [|x xs]; [unfold some_son; simpl; rewrite take_nil; simpl; lia|].
  simpl. unfold present. rewrite filter_cons.
  destruct (some_son_cases x) as [[-> ?]|[-> ?]]; case_decide; simpl; try done; lia.
Qed.

Lemma index_present xs i : 0 ≤ i → default 0 (xs !! Z.to_nat i) ≠ 0 →
  ast_bitmap_to_index (bits xs) i = Ret (Z.of_nat (length (present (take (Z.to_nat i) xs)))).
Proof.
  intros Hi Hx. unfold ast_bitmap_to_index. rewrite bits_has, (proj2 (Z.eqb_neq _ _) Hx) by done.
  rewrite count_bits_present. f_equal.
Qed.

Lemma present_lookup xs i x : xs !! i = Some x → x ≠ 0 →
  present xs !! length (present (take i xs)) = Some x.
Proof.
  intros Hi Hx. assert (present xs = present (take i xs) ++ x :: present (drop (S i) xs)) as ->.
  { rewrite <-(take_drop_middle xs i x Hi) at 1. unfold present.
    by rewrite list.filter_app, filter_cons_True. }
  by rewrite lookup_app_r, Nat.sub_diag.
Qed.

Lemma count_present xs : length xs = MCXX_MAX_AST_CHILDREN →
  ast_count_bitmap (bits xs) = Z.of_nat (length (present xs)).
Proof.
  intros Hl. unfold ast_count_bitmap. rewrite count_bits_present, take_ge by lia. lia.
Qed.

Lemma count_bits_zero n s : count_bits n 0 s = s.
Proof. revert s. induction n as [|n IH]; intros s; simpl; [done|]. by rewrite Z.add_0_r. Qed.

(** The two variants of the index agree. *)
Lemma count_bits_mask n : ∀ b k s, (k ≤ n)%nat → 0 ≤ b →
  count_bits n (Z.land b (Z.ones (Z.of_nat k))) s = count_bits k b s.
Proof.
  induction n as [|n IH]; intros b k s Hk Hb.
  - by replace k with 0%nat by lia.
  - destruct k as [|k].
    + change (Z.ones (Z.of_nat 0)) with 0. rewrite Z.land_0_r. apply count_bits_zero.
    + simpl count_bits. rewrite <-(IH (Z.shiftr b 1) k) by (try apply Z.shiftr_nonneg; lia).
      f_equal.
      * apply Z.bits_inj'. intros j Hj. rewrite Z.shiftr_spec, !Z.land_spec, Z.shiftr_spec by done.
        f_equal. rewrite !Z.testbit_ones_nonneg by lia. destruct (Z.ltb_spec (j + 1) (Z.of_nat (S k)));
          destruct (Z.ltb_spec j (Z.of_nat k)); lia || done.
      * f_equal. rewrite <-Z.land_assoc. f_equal. change 1 with (Z.ones 1). apply Z.bits_inj'. intros j Hj.
        rewrite Z.land_spec, !Z.testbit_ones_nonneg by lia.
        destruct (Z.ltb_spec j 1); [|by rewrite andb_false_r].
        by rewrite (proj2 (Z.ltb_lt _ _)) by lia.
Qed.

Lemma index_variants b i : 0 ≤ i < 32 → 0 ≤ b < 2 ^ 32 →
  ast_bitmap_to_index_builtin b i = ast_bitmap_to_index b i.
Proof.
  intros Hi Hb. unfold ast_bitmap_to_index_builtin, ast_bitmap_to_index, popcount.
  split_if; [done|]. f_equal.
  assert (u32 (Z.lnot (u32 (Z.shiftl (u32 (Z.lnot 0)) i))) = Z.ones i) as ->.
  { change (u32 (Z.lnot 0)) with (Z.ones 32). unfold wrapu. rewrite <-!Z.land_ones by done.
    apply Z.bits_inj'. intros j Hj.
    rewrite !Z.land_spec, Z.lnot_spec, Z.land_spec, Z.shiftl_spec, (Z.testbit_ones_nonneg 32 j), (Z.testbit_ones_nonneg i j) by lia.
    destruct (Z.ltb_spec j 32), (Z.ltb_spec j i); try lia; rewrite ?andb_false_r, ?andb_true_r; try done.
    - by rewrite Z.testbit_neg_r by lia.
    - rewrite Z.testbit_ones_nonneg by lia. by rewrite (proj2 (Z.ltb_lt _ _)) by lia. }
  rewrite <-(Z2Nat.id i) at 1 by lia. apply count_bits_mask; lia.
Qed.

(** ** Steps of the code in the logic *)

Section steps.
Context `{!ghost_mapG Σ Z block} (γ : gname).
Notation "p ↦ b" := (p ↪[γ] b)%I (at level 20, b at level 30).

Lemma wp_lift {A} (x : A) Φ : Φ x ⊢ wp γ (lift (Ret x)) Φ.
Proof. apply wp_ret. Qed.

Lemma wp_node p n Φ : p ↦ Node n -∗ (p ↦ Node n -∗ Φ n) -∗ wp γ (node p) Φ.
Proof.
  iIntros "Hp H". unfold node. iApply (wp_ld_bind with "Hp"). iIntros "Hp". iApply wp_lift. by iApply "H".
Qed.

Lemma wp_fld {A} (f : AST_tag → A) p n Φ : p ↦ Node n -∗ (p ↦ Node n -∗ Φ (f n)) -∗ wp γ (fld f p) Φ.
Proof.
  iIntros "Hp H". unfold fld. iApply wp_bind. iApply (wp_node with "Hp"). iIntros "Hp".
  iApply wp_ret. by iApply "H".
Qed.

Lemma wp_upd f p n Φ : p ↦ Node n -∗ (p ↦ Node (f n) -∗ Φ tt) -∗ wp γ (upd f p) Φ.
Proof.
  iIntros "Hp H". unfold upd. iApply wp_bind. iApply (wp_node with "Hp"). iIntros "Hp".
  iApply (wp_st with "Hp"). iExact "H".
Qed.

Lemma wp_vec_get v os i x Φ : os !! i = Some (Some x) →
  v ↦ Vec os -∗ (v ↦ Vec os -∗ Φ x) -∗ wp γ (vec_get v (Z.of_nat i)) Φ.
Proof.
  iIntros (Hi) "Hv H". unfold vec_get. iApply (wp_ld_bind with "Hv"). iIntros "Hv". simpl.
  iApply wp_bind. iApply wp_lift. rewrite (proj2 (Z.ltb_ge _ _)) by lia. rewrite Nat2Z.id, Hi. simpl.
  iApply wp_bind. iApply wp_lift. iApply wp_lift. by iApply "H".
Qed.

Lemma wp_vec_set v os i x Φ : (i < length os)%nat →
  v ↦ Vec os -∗ (v ↦ Vec (<[i := Some x]> os) -∗ Φ tt) -∗ wp γ (vec_set v (Z.of_nat i) x) Φ.
Proof.
  iIntros (Hi) "Hv H". unfold vec_set. iApply (wp_ld_bind with "Hv"). iIntros "Hv". simpl.
  iApply wp_bind. iApply wp_lift. rewrite (proj2 (Z.ltb_ge _ _)), (proj2 (Z.leb_gt _ _)), Nat2Z.id by lia. simpl.
  iApply (wp_st with "Hv"). iExact "H".
Qed.

Lemma wp_alloc b Φ : (∀ p, ⌜0 < p ∧ Z.testbit p 0 = false⌝ -∗ p ↦ b -∗ Φ p) -∗ wp γ (alloc b) Φ.
Proof.
  iIntros "H" (m) "Hm". set (f := fresh_address m). set (p := f + f mod 2).
  pose proof (fresh_address_above m) as [Hpos Habove].
  assert (Hp : f ≤ p) by (unfold p; pose proof (Z.mod_pos_bound f 2); lia).
  iMod (ghost_map_insert p b with "Hm") as "[Hm Hp]".
  { apply eq_None_not_Some. intros Hs. apply Habove in Hs. fold f in Hs. lia. }
  iModIntro. iExists p, _. iFrame "Hm". iSplit; [done|]. iApply ("H" with "[%] Hp"). split; [lia|].
  rewrite Z.bit0_odd. unfold p. rewrite Z.odd_add, <-Z.bit0_mod, Z.bit0_odd.
  by destruct (Z.odd f).
Qed.

(** An array of children or interpretations, which is [NULL] when it is empty *)
Definition vec (v : Z) (os : list (option Z)) : iProp Σ :=
  match os with [] => ⌜v = 0⌝ | _ => ⌜v ≠ 0⌝ ∗ v ↦ Vec os end.

Lemma vec_cons v os : os ≠ [] → vec v os ⊣⊢ ⌜v ≠ 0⌝ ∗ v ↦ Vec os.
Proof. by destruct os. Qed.

Lemma wp_get v os i x Φ : os !! i = Some (Some x) →
  vec v os -∗ (vec v os -∗ Φ x) -∗ wp γ (vec_get v (Z.of_nat i)) Φ.
Proof.
  iIntros (Hi) "Hv H". assert (os ≠ []) as Hos by (by intros ->).
  rewrite vec_cons by done. iDestruct "Hv" as (Hv) "Hv". iApply (wp_vec_get with "Hv"); [done|].
  iIntros "Hv". iApply "H". by iFrame.
Qed.

Lemma wp_set v os i x Φ : (i < length os)%nat →
  vec v os -∗ (vec v (<[i := Some x]> os) -∗ Φ tt) -∗ wp γ (vec_set v (Z.of_nat i) x) Φ.
Proof.
  iIntros (Hi) "Hv H". assert (os ≠ []) as Hos by (intros ->; simpl in Hi; lia).
  rewrite vec_cons by done. iDestruct "Hv" as (Hv) "Hv". iApply (wp_vec_set with "Hv"); [done|].
  iIntros "Hv". iApply "H". rewrite vec_cons; [by iFrame|]. intros He. apply (f_equal length) in He.
  rewrite length_insert in He. destruct os; done.
Qed.

Lemma wp_NEW_VEC n Φ : (∀ v, vec v (replicate n None) -∗ Φ v) -∗ wp γ (NEW_VEC (Z.of_nat n)) Φ.
Proof.
  iIntros "H". unfold NEW_VEC. destruct (Z.eqb_spec (Z.of_nat n) 0) as [Hn|Hn].
  - replace n with 0%nat by lia. iApply wp_ret. by iApply "H".
  - iApply wp_alloc. iIntros (p [Hp _]) "Hp". iApply "H". rewrite Nat2Z.id.
    rewrite vec_cons by (destruct n; done). iFrame. iPureIntro. lia.
Qed.

Lemma wp_DELETE_vec v os Φ : vec v os -∗ Φ tt -∗ wp γ (DELETE v) Φ.
Proof.
  iIntros "Hv H". unfold DELETE. destruct os as [|o os].
  - iDestruct "Hv" as %->. by iApply wp_ret.
  - iDestruct "Hv" as (Hv) "Hv". rewrite (proj2 (Z.eqb_neq _ _) Hv). iApply (wp_xfree with "Hv"). iExact "H".
Qed.

(** Bind forms for the tactic below *)
Lemma wp_fld_bind {A B} (f : AST_tag → A) p n (k : A → mem B) Φ :
  p ↦ Node n -∗ (p ↦ Node n -∗ wp γ (k (f n)) Φ) -∗ wp γ (fld f p ≫= k) Φ.
Proof. iIntros "Hp H". iApply wp_bind. iApply (wp_fld with "Hp"). iExact "H". Qed.

Lemma wp_node_bind {B} p n (k : AST_tag → mem B) Φ :
  p ↦ Node n -∗ (p ↦ Node n -∗ wp γ (k n) Φ) -∗ wp γ (node p ≫= k) Φ.
Proof. iIntros "Hp H". iApply wp_bind. iApply (wp_node with "Hp"). iExact "H". Qed.

Lemma wp_upd_bind {B} f p n (k : unit → mem B) Φ :
  p ↦ Node n -∗ (p ↦ Node (f n) -∗ wp γ (k tt) Φ) -∗ wp γ (upd f p ≫= k) Φ.
Proof. iIntros "Hp H". iApply wp_bind. iApply (wp_upd with "Hp"). iExact "H". Qed.

Lemma wp_lift_bind {A B} (x : A) (k : A → mem B) Φ : wp γ (k x) Φ ⊢ wp γ (lift (Ret x) ≫= k) Φ.
Proof. iIntros "H". iApply wp_bind. by iApply wp_lift. Qed.
End steps.

#[global] Typeclasses Opaque vec.

Ltac ast_unfold :=
  unfold ast_get_kind, ast_get_parent, ast_get_text, ast_set_kind, ast_set_parent, ast_set_text.

Ltac astep :=
  lazymatch goal with
  | |- envs_entails _ (wp _ ((_ ≫= _) ≫= _) _) => iApply wp_bind_assoc
  | |- envs_entails _ (wp _ (mret _ ≫= _) _) => iApply wp_ret_bind
  | |- envs_entails _ (wp _ (lift (Ret _) ≫= _) _) => iApply wp_lift_bind
  | |- envs_entails _ (wp _ (fld _ ?p ≫= _) _) =>
      points_to_hyp p ltac:(fun H => iApply (wp_fld_bind with H); iIntros H)
  | |- envs_entails _ (wp _ (node ?p ≫= _) _) =>
      points_to_hyp p ltac:(fun H => iApply (wp_node_bind with H); iIntros H)
  | |- envs_entails _ (wp _ (upd _ ?p ≫= _) _) =>
      points_to_hyp p ltac:(fun H => iApply (wp_upd_bind with H); iIntros H)
  | |- envs_entails _ (wp _ (fld _ ?p) _) =>
      points_to_hyp p ltac:(fun H => iApply (wp_fld with H); iIntros H)
  | |- envs_entails _ (wp _ (upd _ ?p) _) =>
      points_to_hyp p ltac:(fun H => iApply (wp_upd with H); iIntros H)
  | |- envs_entails _ (wp _ (mret _) _) => iApply wp_ret
  | |- envs_entails _ (wp _ (lift (Ret _)) _) => iApply wp_lift
  end;
  cbn beta iota; cbn [node_type bitmap_sons num_ambig parent locus text children expr_info set_node_type
    set_bitmap set_num_ambig set_parent set_locus set_text set_children set_expr_info].

Ltac asteps := repeat astep.

(** ** A node and its children *)

(** The fields that the tree structure does not use *)
Record label := Label {
  l_kind : node_t; l_locus : Z; l_text : option string; l_num : option Z; l_info : Z }.

Definition mk_node (l : label) (b p v : Z) : AST_tag :=
  AST (l_kind l) b (l_num l) p (l_locus l) (l_text l) v (l_info l).

Definition son (xs : list Z) (i : nat) : Z := default 0 (xs !! i).

Lemma land_bits xs : length xs = 4%nat → Z.land (bits xs) 15 = bits xs.
Proof.
  intros Hl. change 15 with (Z.ones 4). apply Z.bits_inj'. intros j Hj.
  rewrite Z.land_spec, Z.testbit_ones_nonneg, bits_testbit by lia.
  destruct (Z.ltb_spec j 4); [by rewrite andb_true_r|]. rewrite andb_false_r.
  by rewrite lookup_ge_None_2 by lia.
Qed.

(** The bitmap with one more or one less son *)
Lemma bits_insert xs i c : (i < length xs)%nat → bits (<[i := c]> xs) =
  if c =? 0 then Z.land (bits xs) (Z.lnot (Z.shiftl 1 (Z.of_nat i)))
  else Z.lor (bits xs) (Z.shiftl 1 (Z.of_nat i)).
Proof.
  intros Hi. apply Z.bits_inj'. intros j Hj. rewrite bits_testbit by done.
  assert (Hb : Z.testbit (Z.shiftl 1 (Z.of_nat i)) j = bool_decide (j = Z.of_nat i)).
  { rewrite Z.shiftl_spec by done. case_bool_decide as E; [subst; by rewrite Z.sub_diag|].
    destruct (decide (j < Z.of_nat i)); [apply Z.testbit_neg_r; lia|].
    change 1 with (2 ^ 0). apply Z.pow2_bits_false. lia. }
  destruct (decide (j = Z.of_nat i)) as [->|Hne].
  - rewrite Nat2Z.id, list_lookup_insert_eq by done. simpl. destruct (c =? 0).
    + by rewrite Z.land_spec, Z.lnot_spec, Hb, bool_decide_eq_true_2, andb_false_r by done.
    + by rewrite Z.lor_spec, Hb, bool_decide_eq_true_2, orb_true_r by done.
  - rewrite list_lookup_insert_ne by lia. rewrite bool_decide_eq_false_2 in Hb by done.
    destruct (c =? 0).
    + by rewrite Z.land_spec, Z.lnot_spec, Hb, andb_true_r, bits_testbit by done.
    + by rewrite Z.lor_spec, Hb, orb_false_r, bits_testbit by done.
Qed.

Lemma present_insert xs i c : (i < length xs)%nat → son xs i ≠ 0 → c ≠ 0 →
  present (<[i := c]> xs) = <[length (present (take i xs)) := c]> (present xs).
Proof.
  intros Hi Hx Hc. apply lookup_lt_is_Some_2 in Hi as [x Hx']. unfold son in Hx. rewrite Hx' in Hx. simpl in Hx.
  rewrite insert_take_drop by (by eapply lookup_lt_Some). rewrite <-(take_drop_middle xs i x Hx') at 4.
  unfold present. rewrite !list.filter_app, !filter_cons_True by done.
  rewrite insert_app_r_alt by lia. by rewrite Nat.sub_diag.
Qed.

Section nodes.
Context `{!ghost_mapG Σ Z block} (γ : gname).
Notation "p ↦ b" := (p ↪[γ] b)%I (at level 20, b at level 30).

Definition node_rep (a p v : Z) (l : label) (xs : list Z) : iProp Σ :=
  a ↦ Node (mk_node l (bits xs) p v) ∗ vec γ v (Some <$> present xs).

Lemma wp_has_son a n xs (i : nat) Φ : bitmap_sons n = bits xs →
  a ↦ Node n -∗ (a ↦ Node n -∗ Φ (negb (son xs i =? 0))) -∗ wp γ (ast_has_son a (Z.of_nat i)) Φ.
Proof.
  iIntros (Hb) "Ha H". unfold ast_has_son. asteps. rewrite Hb, bits_has, Nat2Z.id by lia. by iApply "H".
Qed.

Lemma wp_son_index a n xs (i : nat) Φ : bitmap_sons n = bits xs → son xs i ≠ 0 →
  a ↦ Node n -∗ (a ↦ Node n -∗ Φ (Z.of_nat (length (present (take i xs))))) -∗
  wp γ (ast_son_num_to_son_index a (Z.of_nat i)) Φ.
Proof.
  iIntros (Hb Hx) "Ha H". unfold ast_son_num_to_son_index. asteps.
  rewrite Hb, index_present by (rewrite ?Nat2Z.id; done || lia). rewrite Nat2Z.id. iApply wp_lift. by iApply "H".
Qed.

Lemma wp_get_child a p v l xs (i : nat) Φ :
  node_rep a p v l xs -∗ (node_rep a p v l xs -∗ Φ (son xs i)) -∗ wp γ (ast_get_child a (Z.of_nat i)) Φ.
Proof.
  iIntros "[Ha Hv] H". unfold ast_get_child. iApply wp_bind.
  iApply (wp_has_son with "Ha"); [done|]. iIntros "Ha".
  destruct (Z.eqb_spec (son xs i) 0) as [Hx|Hx]; simpl.
  { iApply wp_ret. rewrite Hx. iApply "H". iFrame. }
  iApply wp_bind. iApply (wp_son_index with "Ha"); [done|done|]. iIntros "Ha". asteps.
  unfold son in *. destruct (xs !! i) as [x|] eqn:Hi; [|done]. simpl in *.
  iApply (wp_get with "Hv").
  { by rewrite list_lookup_fmap, (present_lookup xs i x). }
  iIntros "Hv". iApply "H". iFrame.
Qed.

(** The new array after the children below [j] have been moved *)
Definition moved (xs : list Z) (j : nat) : list (option Z) :=
  (Some <$> present (take j xs)) ++ replicate (length (present (drop j xs))) None.

Lemma moved_start xs : moved xs 0 = replicate (length (present xs)) None.
Proof. done. Qed.

Lemma moved_end xs : length xs = 4%nat → moved xs 4 = Some <$> present xs.
Proof. intros Hl. unfold moved. rewrite drop_ge, take_ge by lia. apply app_nil_r. Qed.

Lemma moved_skip xs j : son xs j = 0 → moved xs (S j) = moved xs j.
Proof.
  unfold moved, son. destruct (xs !! j) as [x|] eqn:Hj; simpl; intros Hx.
  - subst. rewrite (take_S_r _ _ _ Hj), (drop_S _ _ _ Hj). unfold present.
    by rewrite list.filter_app, !filter_cons_False, app_nil_r by (intros ?; done).
  - apply lookup_ge_None in Hj. by rewrite !take_ge, !drop_ge by lia.
Qed.

Lemma moved_set xs j : son xs j ≠ 0 →
  <[length (present (take j xs)) := Some (son xs j)]> (moved xs j) = moved xs (S j)
  ∧ (length (present (take j xs)) < length (moved xs j))%nat.
Proof.
  unfold moved, son. destruct (xs !! j) as [x|] eqn:Hj; simpl; intros Hx; [|done].
  rewrite (take_S_r _ _ _ Hj), (drop_S _ _ _ Hj). unfold present.
  rewrite list.filter_app, !filter_cons_True, fmap_app by done. simpl. split.
  - rewrite insert_app_r_alt by (by rewrite length_fmap). rewrite length_fmap, Nat.sub_diag. simpl.
    by rewrite <-app_assoc.
  - rewrite length_app, length_fmap. simpl. lia.
Qed.

Lemma wp_move_child a p v w l xs i c (j : nat) Φ : (i < length xs)%nat →
  let xs' := <[i := c]> xs in
  a ↦ Node (mk_node l (bits xs') p w) -∗ vec γ w (moved xs' j) -∗ vec γ v (Some <$> present xs) -∗
  (a ↦ Node (mk_node l (bits xs') p w) -∗ vec γ w (moved xs' (S j)) -∗ vec γ v (Some <$> present xs) -∗ Φ tt) -∗
  wp γ (move_child a (Z.of_nat i) c v (bits xs) (Z.of_nat j)) Φ.
Proof.
  iIntros (Hi xs') "Ha Hw Hv H". unfold move_child. iApply wp_bind.
  iApply (wp_has_son with "Ha"); [done|]. iIntros "Ha".
  destruct (Z.eqb_spec (son xs' j) 0) as [Hx|Hx]; simpl.
  { iApply wp_ret. iApply ("H" with "Ha [Hw] Hv"). by rewrite moved_skip. }
  asteps. iApply wp_bind. iApply (wp_son_index with "Ha"); [done|done|]. iIntros "Ha".
  destruct (moved_set xs' j Hx) as [Hset Hlen].
  destruct (Z.eqb_spec (Z.of_nat j) (Z.of_nat i)) as [Hji|Hji].
  - assert (j = i) as -> by lia.
    assert (son xs' i = c) as Hc by (unfold son, xs'; by rewrite list_lookup_insert_eq).
    iApply (wp_set with "Hw"); [done|]. iIntros "Hw".
    rewrite Hc in Hset. rewrite Hset. iApply ("H" with "Ha Hw Hv").
  - assert (son xs' j = son xs j) as Hs by (unfold son, xs'; by rewrite list_lookup_insert_ne by lia).
    assert (default 0 (xs !! Z.to_nat (Z.of_nat j)) ≠ 0) as Hx' by (rewrite Nat2Z.id; by rewrite Hs in Hx).
    rewrite index_present, Nat2Z.id by (done || lia).
    astep. iApply wp_bind. rewrite Nat2Z.id in Hx'.
    destruct (xs !! j) as [x|] eqn:Hj; [|done]. simpl in Hx'.
    assert (son xs j = x) as Hsx by (unfold son; by rewrite Hj).
    iApply (wp_get with "Hv").
    { by rewrite list_lookup_fmap, (present_lookup xs j x). }
    iIntros "Hv". iApply (wp_set with "Hw"); [done|]. iIntros "Hw".
    rewrite Hs, Hsx in Hset. rewrite Hset. iApply ("H" with "Ha Hw Hv").
Qed.

Lemma wp_reallocate_children a p v l xs i c Φ : length xs = 4%nat → (i < 4)%nat →
  node_rep a p v l xs -∗ (∀ w, node_rep a p w l (<[i := c]> xs) -∗ Φ tt) -∗
  wp γ (ast_reallocate_children a (Z.of_nat i) c) Φ.
Proof.
  iIntros (Hl Hi) "[Ha Hv] H". unfold ast_reallocate_children. asteps. simpl.
  set (xs' := <[i := c]> xs). assert (length xs' = 4%nat) as Hl' by by unfold xs'; rewrite length_insert.
  assert (Hb : bits xs' = Z.land (bits xs') 15) by by rewrite land_bits.
  unfold xs' in Hb at 2. rewrite bits_insert in Hb by lia.
  iApply wp_bind. iApply (wp_wand _ _ (λ _, a ↦ Node (mk_node l (bits xs') p v))%I with "[Ha]").
  { rewrite Hb. destruct (c =? 0); cbn [negb].
    all: astep. all: iFrame. }
  iIntros ([]) "Ha". astep. simpl bitmap_sons. rewrite (count_present xs') by done.
  iApply wp_bind. iApply wp_NEW_VEC. iIntros (w) "Hw". rewrite <-moved_start. astep.
  change (AST _ _ _ _ _ _ w _) with (mk_node l (bits xs') p w).
  iApply wp_bind. iApply (wp_move_child _ _ _ _ _ _ i c 0 with "Ha Hw Hv"); [lia|]. iIntros "Ha Hw Hv".
  iApply wp_bind. iApply (wp_move_child _ _ _ _ _ _ i c 1 with "Ha Hw Hv"); [lia|]. iIntros "Ha Hw Hv".
  iApply wp_bind. iApply (wp_move_child _ _ _ _ _ _ i c 2 with "Ha Hw Hv"); [lia|]. iIntros "Ha Hw Hv".
  iApply wp_bind. iApply (wp_move_child _ _ _ _ _ _ i c 3 with "Ha Hw Hv"); [lia|]. iIntros "Ha Hw Hv".
  iApply (wp_DELETE_vec with "Hv"). iApply "H". rewrite moved_end by done. iFrame.
Qed.

Lemma wp_set_child_but_parent a p v l xs i c Φ : length xs = 4%nat → (i < 4)%nat →
  node_rep a p v l xs -∗ (∀ w, node_rep a p w l (<[i := c]> xs) -∗ Φ tt) -∗
  wp γ (ast_set_child_but_parent a (Z.of_nat i) c) Φ.
Proof.
  iIntros (Hl Hi) "[Ha Hv] H". unfold ast_set_child_but_parent. iApply wp_bind.
  iApply (wp_has_son with "Ha"); [done|]. iIntros "Ha".
  assert (is_Some (xs !! i)) as [x Hx] by (apply lookup_lt_is_Some_2; lia).
  assert (son xs i = x) as Hs by by unfold son; rewrite Hx.
  destruct (Z.eqb_spec c 0) as [->|Hc], (Z.eqb_spec (son xs i) 0) as [Hz|Hz]; simpl.
  - iApply wp_ret. iApply "H". rewrite list_insert_id by congruence. iFrame.
  - iApply (wp_reallocate_children with "[$Ha $Hv]"); done.
  - iApply (wp_reallocate_children with "[$Ha $Hv]"); done.
  - iApply wp_bind. iApply (wp_son_index with "Ha"); [done|done|]. iIntros "Ha". astep. simpl.
    iApply (wp_set with "Hv").
    { rewrite length_fmap. eapply lookup_lt_Some, present_lookup; [done|congruence]. }
    iIntros "Hv". iApply "H". unfold node_rep. rewrite present_insert, list_fmap_insert by (done || lia).
    assert (bits (<[i := c]> xs) = bits xs) as ->; [|iFrame].
    apply Z.bits_inj'. intros j Hj. rewrite !bits_testbit by done.
    destruct (decide (Z.to_nat j = i)) as [->|Hne].
    + rewrite list_lookup_insert_eq, Hx by lia. simpl. rewrite <-Hs at 1.
      by rewrite !(proj2 (Z.eqb_neq _ _)).
    + by rewrite list_lookup_insert_ne.
Qed.
End nodes.
