(* ===== verification/AstTree.v ===== *)
(** * Syntax trees as data, and in memory

    A [tree] says what a tree is and where its nodes and arrays are; [blocks]
    lists what it occupies.  A program that is verified in the logic on the
    blocks of some trees runs without error on every memory that holds them
    ([wp_local]), and leaves the rest of the memory alone. *)

From S2P Require Import Prelude Heap Ast AstNode.
#[local] Open Scope Z_scope.
#[local] Unset SsrRewrite.

(** ** Trees *)

(** A node at [a] with its parent, its array [v] and four children; an ambiguous
    node with its interpretations. *)
Inductive tree :=
  | Null
  | Tree (a p v : Z) (l : label) (s0 s1 s2 s3 : tree)
  | Amb (a p v : Z) (l : label) (alts : list tree).

Section tree_ind.
Context (P : tree → Prop) (HNull : P Null)
  (HTree : ∀ a p v l s0 s1 s2 s3, P s0 → P s1 → P s2 → P s3 → P (Tree a p v l s0 s1 s2 s3))
  (HAmb : ∀ a p v l alts, Forall P alts → P (Amb a p v l alts)).

Fixpoint tree_induction (t : tree) : P t :=
  match t with
  | Null => HNull
  | Tree a p v l s0 s1 s2 s3 => HTree a p v l s0 s1 s2 s3
      (tree_induction s0) (tree_induction s1) (tree_induction s2) (tree_induction s3)
  | Amb a p v l alts => HAmb a p v l alts
      ((fix go (l : list tree) : Forall P l :=
        match l with [] => Forall_nil_2 P | t :: l' => Forall_cons_2 P t l' (tree_induction t) (go l') end) alts)
  end.
End tree_ind.

Definition addr (t : tree) : Z := match t with Null => 0 | Tree a _ _ _ _ _ _ _ | Amb a _ _ _ _ => a end.
Definition parent_of (t : tree) : Z := match t with Null => 0 | Tree _ p _ _ _ _ _ _ | Amb _ p _ _ _ => p end.
Definition relink (p : Z) (t : tree) : tree :=
  match t with
  | Null => Null
  | Tree a _ v l s0 s1 s2 s3 => Tree a p v l s0 s1 s2 s3
  | Amb a _ v l alts => Amb a p v l alts
  end.

Fixpoint height (t : tree) : nat :=
  match t with
  | Null => 0
  | Tree _ _ _ _ s0 s1 s2 s3 => S (height s0 `max` height s1 `max` (height s2 `max` height s3))
  | Amb _ _ _ _ alts => S (list_max (map height alts))
  end.

(** The tree without the addresses of its blocks *)
Fixpoint contents (t : tree) : tree :=
  match t with
  | Null => Null
  | Tree _ _ _ l s0 s1 s2 s3 => Tree 0 0 0 l (contents s0) (contents s1) (contents s2) (contents s3)
  | Amb _ _ _ l alts => Amb 0 0 0 l (map contents alts)
  end.

(** Every child points to its parent; the interpretations of a node may point
    anywhere. *)
Fixpoint linked (p : Z) (t : tree) : Prop :=
  match t with
  | Null => True
  | Tree a p' _ _ s0 s1 s2 s3 => p' = p ∧ linked a s0 ∧ linked a s1 ∧ linked a s2 ∧ linked a s3
  | Amb _ p' _ _ alts => p' = p ∧ fold_right (λ t P, linked (parent_of t) t ∧ P) True alts
  end.

(** ** Trees in memory *)

Definition vec_blocks (v : Z) (os : list (option Z)) : list (Z * block) :=
  match os with [] => [] | _ => [(v, Vec os)] end.
Definition vec_ok (v : Z) (os : list (option Z)) : Prop :=
  match os with [] => v = 0 | _ => v ≠ 0 end.

Definition sons (s0 s1 s2 s3 : tree) : list Z := [addr s0; addr s1; addr s2; addr s3].

Fixpoint blocks (t : tree) : list (Z * block) :=
  match t with
  | Null => []
  | Tree a p v l s0 s1 s2 s3 =>
      let xs := sons s0 s1 s2 s3 in
      (a, Node (mk_node l (bits xs) p v)) :: vec_blocks v (Some <$> present xs)
        ++ blocks s0 ++ blocks s1 ++ blocks s2 ++ blocks s3
  | Amb a p v l alts =>
      (a, Node (mk_node l 0 p v)) :: vec_blocks v (Some <$> map addr alts) ++ flat_map blocks alts
  end.

Definition address_ok (a : Z) : Prop := 0 < a ∧ Z.testbit a 0 = false.

Fixpoint wf (t : tree) : Prop :=
  match t with
  | Null => True
  | Tree a _ v l s0 s1 s2 s3 =>
      address_ok a ∧ l_kind l ≠ AST_AMBIGUITY ∧ vec_ok v (Some <$> present (sons s0 s1 s2 s3))
      ∧ wf s0 ∧ wf s1 ∧ wf s2 ∧ wf s3
  | Amb a _ v l alts =>
      address_ok a ∧ l_kind l = AST_AMBIGUITY ∧ l_num l = Some (Z.of_nat (length alts)) ∧ alts ≠ []
      ∧ vec_ok v (Some <$> map addr alts) ∧ fold_right (λ t P, wf t ∧ P) True alts
  end.

(** The memory has the blocks, and they are different ones. *)
Definition holds (m : gmap Z block) (l : list (Z * block)) : Prop :=
  NoDup l.*1 ∧ ∀ kb, kb ∈ l → m !! kb.1 = Some kb.2.

Lemma fold_right_forall {A} (P : A → Prop) l : fold_right (λ t Q, P t ∧ Q) True l ↔ Forall P l.
Proof.
  induction l as [|x l IH]; simpl; [by split; [constructor|]|]. by rewrite IH, Forall_cons.
Qed.

Lemma contents_relink p t : contents (relink p t) = contents t.
Proof. by destruct t. Qed.
Lemma addr_relink p t : addr (relink p t) = addr t.
Proof. by destruct t. Qed.
Lemma relink_linked p q t : linked p t → linked q (relink q t).
Proof. destruct t; simpl; naive_solver. Qed.
Lemma addr_contents t : addr t = 0 → wf t → t = Null.
Proof. unfold address_ok. destruct t; simpl; unfold address_ok; [done|lia..]. Qed.
Lemma contents_null t t' : contents t = contents t' → t = Null ↔ t' = Null.
Proof. by destruct t, t'. Qed.
Lemma wf_addr t : wf t → t ≠ Null → 0 < addr t.
Proof. destruct t; simpl; unfold address_ok; [done|lia..]. Qed.

(** ** Trees in the logic *)

Section reps.
Context `{!ghost_mapG Σ Z block} (γ : gname).
Notation "p ↦ b" := (p ↪[γ] b)%I (at level 20, b at level 30).

Fixpoint rep (t : tree) : iProp Σ :=
  match t with
  | Null => emp
  | Tree a p v l s0 s1 s2 s3 =>
      ⌜address_ok a ∧ l_kind l ≠ AST_AMBIGUITY⌝ ∗ node_rep γ a p v l (sons s0 s1 s2 s3)
      ∗ rep s0 ∗ rep s1 ∗ rep s2 ∗ rep s3
  | Amb a p v l alts =>
      ⌜address_ok a ∧ l_kind l = AST_AMBIGUITY ∧ l_num l = Some (Z.of_nat (length alts)) ∧ alts ≠ []⌝
      ∗ (a ↦ Node (mk_node l 0 p v) ∗ vec γ v (Some <$> map addr alts))
      ∗ fold_right (λ t P, rep t ∗ P)%I emp%I alts
  end.

Definition reps (ts : list tree) : iProp Σ := [∗ list] t ∈ ts, rep t.

Lemma reps_fold ts : fold_right (λ t P, rep t ∗ P)%I emp%I ts ⊣⊢ reps ts.
Proof. unfold reps. induction ts as [|t ts IH]; simpl; [done|]. by rewrite IH. Qed.

Definition own (l : list (Z * block)) : iProp Σ := [∗ list] kb ∈ l, kb.1 ↦ kb.2.

Lemma own_app l l' : own (l ++ l') ⊣⊢ own l ∗ own l'.
Proof. apply big_sepL_app. Qed.

Lemma vec_own v os : vec γ v os ⊣⊢ ⌜vec_ok v os⌝ ∗ own (vec_blocks v os).
Proof.
  destruct os as [|o os]; unfold own; simpl.
  - iSplit; [iIntros (->); auto|by iIntros "[$ _]"].
  - iSplit; [iIntros "[$ $]"|iIntros "($ & $ & _)"].
Qed.

Lemma rep_own t : rep t ⊣⊢ ⌜wf t⌝ ∗ own (blocks t).
Proof.
  induction t as [|a p v l s0 s1 s2 s3 H0 H1 H2 H3|a p v l alts IH] using tree_induction; simpl.
  - unfold own. iSplit; auto.
  - rewrite H0, H1, H2, H3. unfold node_rep. rewrite vec_own. unfold own. simpl.
    rewrite !big_sepL_app. iSplit.
    + iIntros "(% & ($ & % & $) & [% $] & [% $] & [% $] & [% $])". iPureIntro. tauto.
    + iIntros "((% & % & % & % & % & % & %) & $ & $ & $ & $ & $ & $)". iPureIntro. tauto.
  - rewrite reps_fold, fold_right_forall.
    assert (reps alts ⊣⊢ ⌜Forall wf alts⌝ ∗ own (flat_map blocks alts)) as ->.
    { unfold reps. induction IH as [|t alts Ht _ IHalts]; simpl.
      - unfold own. iSplit; auto.
      - rewrite Ht, IHalts, own_app, Forall_cons. iSplit.
        + iIntros "[[% $] [% $]]". auto.
        + iIntros "([% %] & $ & $)". auto. }
    rewrite vec_own. unfold own. simpl. rewrite !big_sepL_app. iSplit.
    + iIntros "(% & ($ & % & $) & % & $)". iPureIntro. tauto.
    + iIntros "((% & % & % & % & % & %) & $ & $ & $)". iPureIntro. tauto.
Qed.

Lemma reps_own ts : reps ts ⊣⊢ ⌜Forall wf ts⌝ ∗ own (flat_map blocks ts).
Proof.
  unfold reps. induction ts as [|t ts IH]; simpl.
  - unfold own. iSplit; auto.
  - rewrite rep_own, IH, own_app, Forall_cons. iSplit.
    + iIntros "[[% $] [% $]]". auto.
    + iIntros "([% %] & $ & $)". auto.
Qed.

Lemma own_holds m l : ghost_map_auth γ 1 m -∗ own l -∗ ⌜holds m l⌝.
Proof.
  iIntros "Hm Hl". unfold own, holds. iSplit.
  - iClear "Hm". iInduction l as [|kb l] "IH"; simpl; [iPureIntro; constructor|].
    iDestruct "Hl" as "[Hk Hl]". iDestruct ("IH" with "Hl") as %Hnd. rewrite NoDup_cons. iSplit; [|done].
    iIntros ([kb' [Hkb Hin]]%list_elem_of_fmap).
    iDestruct (big_sepL_elem_of with "Hl") as "Hk'"; [exact Hin|]. rewrite Hkb.
    by iDestruct (points_to_ne with "Hk Hk'") as %?.
  - iIntros (kb Hkb). iDestruct (big_sepL_elem_of with "Hl") as "Hk"; [exact Hkb|].
    by iDestruct (ghost_map_lookup with "Hm Hk") as %?.
Qed.
End reps.
#[global] Typeclasses Opaque rep reps own.
#[global] Arguments rep {_ _} _ _ : simpl never.

(** ** From the logic to runs *)

Lemma holds_map m l : holds m l → (list_to_map l : gmap Z block) ⊆ m.
Proof.
  intros [Hnd Hl]. apply map_subseteq_spec. intros k b Hk.
  apply elem_of_list_to_map_2 in Hk. by apply (Hl (k, b)).
Qed.

Lemma wp_local {A} (c : mem A) (l : list (Z * block)) (φ : A → list (Z * block) → Prop) m :
  (∀ Σ `{!ghost_mapG Σ Z block} γ, own γ l ⊢ wp γ c (λ a, ∃ l', ⌜φ a l'⌝ ∗ own γ l')) → holds m l →
  ∃ a m' l', c m = Ret (a, m') ∧ φ a l' ∧ holds m' l'
    ∧ ∀ k b, m !! k = Some b → k ∉ l.*1 → m' !! k = Some b ∧ k ∉ l'.*1.
Proof.
  intros H Hl. pose proof (holds_map m l Hl) as Hsub. destruct Hl as [Hnd Hl].
  apply (pure_soundness (PROP := iProp #[ghost_mapΣ Z block])).
  iMod (ghost_map_alloc (K := Z) (V := block) m) as (γ) "[Hm Hall]".
  rewrite <-(map_difference_union _ _ Hsub) at 2.
  rewrite big_sepM_union by (by apply map_disjoint_difference_r1).
  iDestruct "Hall" as "[Hl Hf]". rewrite big_sepM_list_to_map by done.
  iMod (H _ _ γ with "[Hl] Hm") as (a m') "(%Hc & Hm & %l' & %Hφ & Hl')".
  { unfold own. iApply (big_sepL_impl with "Hl"). by iIntros "!>" (i [k b] _) "$". }
  iDestruct (own_holds with "Hm Hl'") as %Hh.
  iAssert (⌜∀ k b, m !! k = Some b → k ∉ l.*1 → m' !! k = Some b ∧ k ∉ l'.*1⌝)%I as %Hrest.
  { iIntros (k b Hk Hkl). iDestruct (big_sepM_lookup _ _ k b with "Hf") as "Hk".
    { apply lookup_difference_Some. split; [done|]. by apply not_elem_of_list_to_map_1. }
    iDestruct (ghost_map_lookup with "Hm Hk") as %Hk'. iSplit; [done|].
    iIntros ([[k' b'] [-> Hin]]%list_elem_of_fmap). unfold own.
    iDestruct (big_sepL_elem_of with "Hl'") as "Hk'"; [exact Hin|]. simpl.
    by iDestruct (points_to_ne with "Hk Hk'") as %?. }
  iPureIntro. eauto 10.
Qed.
