(* ===== verification/AstCopy.v ===== *)
(** * Building and copying syntax trees

    The operations on nodes as operations on trees, and [ast_copy]. *)

From S2P Require Import Prelude Heap Ast AstNode AstTree.
#[local] Open Scope Z_scope.
#[local] Unset SsrRewrite.

(** The node at the root *)
Definition node_of (t : tree) : AST_tag :=
  match t with
  | Null => AST AST_INVALID_NODE 0 None 0 0 None 0 0
  | Tree _ p v l s0 s1 s2 s3 => mk_node l (bits (sons s0 s1 s2 s3)) p v
  | Amb _ p v l _ => mk_node l 0 p v
  end.

Section trees.
Context `{!ghost_mapG Σ Z block} (γ : gname).
Notation "p ↦ b" := (p ↪[γ] b)%I (at level 20, b at level 30).
Notation rep := (rep γ).

Lemma rep_tree a p v l s0 s1 s2 s3 : rep (Tree a p v l s0 s1 s2 s3) ⊣⊢
  ⌜address_ok a ∧ l_kind l ≠ AST_AMBIGUITY⌝ ∗ node_rep γ a p v l (sons s0 s1 s2 s3)
  ∗ rep s0 ∗ rep s1 ∗ rep s2 ∗ rep s3.
Proof. done. Qed.

Lemma rep_amb a p v l alts : rep (Amb a p v l alts) ⊣⊢
  ⌜address_ok a ∧ l_kind l = AST_AMBIGUITY ∧ l_num l = Some (Z.of_nat (length alts)) ∧ alts ≠ []⌝
  ∗ (a ↦ Node (mk_node l 0 p v) ∗ vec γ v (Some <$> map addr alts)) ∗ reps γ alts.
Proof. by rewrite <-reps_fold. Qed.

Lemma rep_open t : t ≠ Null →
  rep t -∗ ⌜0 < addr t⌝ ∗ addr t ↦ Node (node_of t) ∗ (addr t ↦ Node (node_of t) -∗ rep t).
Proof.
  intros Ht. destruct t as [|a p v l s0 s1 s2 s3|a p v l alts]; [done| |].
  - rewrite rep_tree. simpl. iIntros "([%Ha %Hk] & [$ Hv] & H)". destruct Ha as [Ha Ha'].
    iSplit; [done|]. iIntros "Ha". iFrame. done.
  - rewrite rep_amb. simpl. iIntros "((%Ha & %Hk) & [$ Hv] & H)". destruct Ha as [Ha Ha'].
    iSplit; [done|]. iIntros "Ha". iFrame. done.
Qed.

Lemma rep_addr t : rep t -∗ ⌜addr t = 0 ↔ t = Null⌝.
Proof.
  iIntros "Ht". destruct (decide (addr t = 0)) as [Ha|Ha].
  - destruct t as [|a p v l s0 s1 s2 s3|a p v l alts]; [done| |].
    + rewrite rep_tree. iDestruct "Ht" as "([%H _] & _)". simpl in Ha. destruct H. lia.
    + rewrite rep_amb. iDestruct "Ht" as "([%H _] & _)". simpl in Ha. destruct H. lia.
  - iPureIntro. split; [done|]. by intros ->.
Qed.

Lemma wp_tree_fld {A} (f : AST_tag → A) t Φ : t ≠ Null →
  rep t -∗ (rep t -∗ Φ (f (node_of t))) -∗ wp γ (fld f (addr t)) Φ.
Proof.
  iIntros (Ht) "Ht H". iDestruct (rep_open with "Ht") as "(_ & Ha & Hc)"; [done|].
  iApply (wp_fld with "Ha"). iIntros "Ha". iApply "H". by iApply "Hc".
Qed.

Lemma wp_set_parent t q Φ : t ≠ Null →
  rep t -∗ (rep (relink q t) -∗ Φ tt) -∗ wp γ (ast_set_parent (addr t) q) Φ.
Proof.
  iIntros (Ht) "Ht H". destruct t as [|a p v l s0 s1 s2 s3|a p v l alts]; [done| |]; simpl.
  - rewrite !rep_tree. iDestruct "Ht" as "(% & [Ha Hv] & Hs)".
    unfold ast_set_parent. astep. iApply "H". by iFrame.
  - rewrite !rep_amb. iDestruct "Ht" as "(% & [Ha Hv] & Hs)".
    unfold ast_set_parent. astep. iApply "H". by iFrame.
Qed.

(** ** The loop of [ast_copy] over the children

    The copy has the bitmap of the original, and the first [j] elements of its
    array. *)

Definition partial (r p w : Z) (l : label) (zs : list Z) (j : nat) : iProp Σ :=
  r ↦ Node (mk_node l (bits zs) p w) ∗ vec γ w (moved zs j).

Lemma bits_same xs ys : (∀ i, son xs i = 0 ↔ son ys i = 0) → bits xs = bits ys.
Proof.
  intros H. apply Z.bits_inj'. intros j Hj. rewrite !bits_testbit by done. f_equal.
  specialize (H (Z.to_nat j)). unfold son in H.
  destruct (Z.eqb_spec (default 0 (xs !! Z.to_nat j)) 0), (Z.eqb_spec (default 0 (ys !! Z.to_nat j)) 0); tauto.
Qed.

Lemma son_insert xs i c j : (i < length xs)%nat →
  son (<[i := c]> xs) j = if decide (j = i) then c else son xs j.
Proof.
  intros Hi. unfold son. case_decide as Hj; [subst; by rewrite list_lookup_insert_eq|].
  by rewrite list_lookup_insert_ne.
Qed.

Lemma moved_fill xs j c : (j < length xs)%nat → son xs j ≠ 0 → c ≠ 0 →
  <[length (present (take j xs)) := Some c]> (moved xs j) = moved (<[j := c]> xs) (S j)
  ∧ (length (present (take j xs)) < length (moved xs j))%nat.
Proof.
  intros Hj Hx Hc. destruct (moved_set (<[j := c]> xs) j) as [H1 H2].
  { by rewrite son_insert, decide_True. }
  rewrite son_insert, decide_True in H1 by done.
  assert (moved (<[j := c]> xs) j = moved xs j) as Hm.
  { unfold moved. rewrite take_insert_ge by lia. f_equal. f_equal.
    apply lookup_lt_is_Some_2 in Hj as [x Hx']. unfold son in Hx. rewrite Hx' in Hx. simpl in Hx.
    rewrite (drop_S _ _ _ Hx'), (drop_S (<[j:=c]> xs) c j), drop_insert_lt
      by (lia || (apply list_lookup_insert_eq; by eapply lookup_lt_Some)).
    unfold present. by rewrite !filter_cons_True. }
  rewrite take_insert_ge, Hm in H1, H2 by lia. done.
Qed.

Lemma wp_fill_child r p w l zs j t Φ : length zs = 4%nat → (j < 4)%nat → (son zs j = 0 ↔ t = Null) →
  partial r p w l zs j -∗ rep t -∗
  (partial r p w l (<[j := addr t]> zs) (S j) -∗ rep (relink r t) -∗ Φ tt) -∗
  wp γ (if addr t =? 0 then mret tt else ast_set_child r (Z.of_nat j) (addr t)) Φ.
Proof.
  iIntros (Hl Hj Hz) "[Hr Hw] Ht H". iDestruct (rep_addr with "Ht") as %Hat.
  assert (Hsame : bits (<[j := addr t]> zs) = bits zs).
  { apply bits_same. intros i. rewrite son_insert by lia. case_decide; [subst; tauto|done]. }
  destruct (Z.eqb_spec (addr t) 0) as [Ha|Ha].
  - apply Hat in Ha as ->. cbn [addr relink] in *. iApply wp_ret.
    iApply ("H" with "[Hr Hw] Ht"). unfold partial. rewrite Hsame, moved_skip.
    + rewrite list_insert_id; [iFrame|]. apply proj2 in Hz. specialize (Hz eq_refl). unfold son in Hz.
      destruct (zs !! j) eqn:E; [by f_equal|]. apply lookup_ge_None in E. lia.
    + by rewrite son_insert, decide_True by lia.
  - assert (t ≠ Null) as Ht by tauto. assert (son zs j ≠ 0) as Hs by tauto.
    destruct (moved_fill zs j (addr t)) as [Hm Hlen]; [lia|done|done|].
    unfold ast_set_child, ast_set_child_but_parent. rewrite (proj2 (Z.eqb_neq _ _) Ha). cbn [negb].
    iApply wp_bind. iApply wp_bind. iApply (wp_has_son _ _ _ zs with "Hr"); [done|]. iIntros "Hr".
    rewrite (proj2 (Z.eqb_neq _ _) Hs). cbn [negb].
    iApply wp_bind. iApply (wp_son_index _ _ _ zs with "Hr"); [done|done|]. iIntros "Hr". astep.
    iApply (wp_set with "Hw"); [done|]. iIntros "Hw". rewrite Hm.
    iApply (wp_set_parent with "Ht"); [done|]. iIntros "Ht". iApply ("H" with "[Hr Hw] Ht").
    unfold partial. rewrite Hsame. iFrame.
Qed.

(** ** [ast_copy] *)

Definition copy_of (t t' : tree) : Prop := contents t' = contents t ∧ linked 0 t'.

Definition copies (fuel : nat) : Prop := ∀ t Φ, (height t < fuel)%nat →
  rep t -∗ (∀ t', ⌜copy_of t t'⌝ -∗ rep t -∗ rep t' -∗ Φ (addr t')) -∗ wp γ (ast_copy fuel (addr t)) Φ.

Lemma copy_null t t' : copy_of t t' → t = Null ↔ t' = Null.
Proof. intros [H _]. symmetry in H. by apply contents_null. Qed.

Lemma wp_copy_child fuel a p v l xs r q w zs j t Φ : copies fuel → (height t < fuel)%nat →
  length zs = 4%nat → (j < 4)%nat → son xs j = addr t → son zs j = addr t →
  node_rep γ a p v l xs -∗ rep t -∗ partial r q w l zs j -∗
  (∀ t', ⌜contents t' = contents t ∧ linked r t'⌝ -∗ node_rep γ a p v l xs -∗ rep t -∗ rep t' -∗
    partial r q w l (<[j := addr t']> zs) (S j) -∗ Φ tt) -∗
  wp γ (x ← ast_get_child a (Z.of_nat j); c ← ast_copy fuel x;
        if c =? 0 then mret tt else ast_set_child r (Z.of_nat j) c) Φ.
Proof.
  iIntros (Hf Hh Hl Hj Hxs Hzs) "Hn Ht Hp H". iDestruct (rep_addr with "Ht") as %Ha.
  iApply wp_bind. iApply (wp_get_child with "Hn"). iIntros "Hn". rewrite Hxs.
  iApply wp_bind. iApply (Hf with "Ht"); [done|]. iIntros (t' Hc) "Ht Ht'".
  iApply (wp_fill_child with "Hp Ht'"); [done|done| |].
  { rewrite Hzs, Ha. by apply copy_null. }
  iIntros "Hp Ht'". rewrite <-(addr_relink r t'). iApply ("H" with "[%] Hn Ht Ht' Hp").
  destruct Hc as [Hc Hlk]. split; [by rewrite contents_relink|by eapply relink_linked].
Qed.

(** The loop over the interpretations: the first ones are copied. *)
Lemma wp_copy_alts fuel a v r w (rest : list tree) : copies fuel → ∀ (before : list tree) cs n n' Φ,
  Forall (λ t, height t < fuel)%nat rest → children n = v → children n' = w →
  length cs = length before →
  a ↦ Node n -∗ vec γ v (Some <$> map addr (before ++ rest)) -∗ reps γ rest -∗
  r ↦ Node n' -∗ vec γ w ((Some <$> cs) ++ replicate (length rest) None) -∗
  (∀ ts, ⌜Forall2 copy_of rest ts⌝ -∗ a ↦ Node n -∗ vec γ v (Some <$> map addr (before ++ rest)) -∗
    reps γ rest -∗ r ↦ Node n' -∗ reps γ ts -∗ vec γ w (Some <$> cs ++ map addr ts) -∗ Φ tt) -∗
  wp γ (for_all (λ i, x ← ast_get_ambiguity a i; c ← ast_copy fuel x; set_ambiguity r i c)
    (seqZ (Z.of_nat (length before)) (Z.of_nat (length rest)))) Φ.
Proof.
  intros Hf. induction rest as [|t rest IH]; intros before cs n n' Φ Hh Hn Hn' Hl;
    iIntros "Ha Hv Hts Hr Hw H".
  - simpl. iApply wp_ret. iApply ("H" $! [] with "[%] Ha Hv Hts Hr [] [Hw]"); [by apply Forall2_nil|by unfold reps|].
    by rewrite !app_nil_r.
  - apply Forall_cons in Hh as [Ht Hh]. cbn [length]. rewrite seqZ_cons by lia. cbn [for_all].
    unfold reps at 1. cbn [big_opL]. iDestruct "Hts" as "[Ht Hts]".
    iApply wp_bind. unfold ast_get_ambiguity. astep. astep. rewrite Hn. iApply wp_bind.
    iApply (wp_get with "Hv").
    { by rewrite list_lookup_fmap, map_app, lookup_app_r, length_map, Nat.sub_diag by (rewrite length_map; lia). }
    iIntros "Hv". iApply wp_bind. iApply (Hf with "Ht"); [done|]. iIntros (t' Hc) "Ht Ht'".
    unfold set_ambiguity. astep. rewrite Hn'. rewrite <-Hl at 1.
    iApply (wp_set with "Hw"); [rewrite length_app, length_fmap; simpl; lia|]. iIntros "Hw".
    rewrite insert_app_r_alt by (by rewrite length_fmap). rewrite length_fmap, Nat.sub_diag.
    cbn [replicate insert list_insert].
    replace (Z.succ (Z.of_nat (length before))) with (Z.of_nat (length (before ++ [t])))
      by (rewrite length_app; simpl; lia).
    replace (Z.pred (Z.of_nat (S (length rest)))) with (Z.of_nat (length rest)) by lia.
    replace (before ++ t :: rest) with ((before ++ [t]) ++ rest) by (by rewrite <-app_assoc).
    iApply (IH (before ++ [t]) (cs ++ [addr t']) with "Ha Hv Hts Hr [Hw]"); [done|done|done| | |].
    + rewrite !length_app. simpl. lia.
    + by rewrite fmap_app, <-app_assoc.
    + iIntros (ts Hts) "Ha Hv Hts Hr Hts' Hw". iApply ("H" $! (t' :: ts) with "[%] Ha Hv [Ht Hts] Hr [Ht' Hts'] [Hw]").
      * by constructor.
      * unfold reps. cbn [big_opL]. iFrame.
      * unfold reps. cbn [big_opL]. iFrame.
      * by rewrite <-app_assoc.
Qed.

Lemma label_eq n : mk_node (Label (node_type n) (locus n) (text n) (num_ambig n) (expr_info n))
  (bitmap_sons n) (parent n) (children n) = n.
Proof. by destruct n. Qed.

(** The end of [ast_copy]: the text is there already. *)
Lemma wp_copy_end t r n Φ : t ≠ Null → text n = text (node_of t) →
  rep t -∗ r ↦ Node n -∗ (rep t -∗ r ↦ Node (set_parent 0 n) -∗ Φ r) -∗
  wp γ (tx ← ast_get_text (addr t);
        (if (tx : option string) then upd (set_text tx) r else mret tt);;
        upd (set_parent 0) r;; mret r) Φ.
Proof.
  iIntros (Ht Htx) "Ht Hr H". unfold ast_get_text. iApply wp_bind.
  iApply (wp_tree_fld with "Ht"); [done|]. iIntros "Ht". rewrite <-Htx.
  destruct (text n) eqn:E; asteps; iApply ("H" with "Ht"); [|done]. destruct n. simpl in *. by subst.
Qed.

Lemma wp_copy_tree fuel a p v l s0 s1 s2 s3 Φ : copies fuel →
  let t := Tree a p v l s0 s1 s2 s3 in
  (height t < S fuel)%nat →
  rep t -∗ (∀ t', ⌜copy_of t t'⌝ -∗ rep t -∗ rep t' -∗ Φ (addr t')) -∗ wp γ (ast_copy (S fuel) a) Φ.
Proof.
  iIntros (Hf t Hh) "Ht H". unfold t in Hh. cbn [height] in Hh.
  unfold t at 1. rewrite rep_tree. iDestruct "Ht" as "([%Ha %Hk] & [Ha Hv] & H0 & H1 & H2 & H3)".
  cbn [ast_copy]. rewrite (proj2 (Z.eqb_neq a 0)) by (destruct Ha; lia).
  iApply wp_bind. iApply wp_alloc. iIntros (r Hr) "Hr". unfold ast_copy_one_node. asteps.
  rewrite decide_False by done. asteps. cbn [Z.ltb Z.compare]. asteps.
  set (xs := sons s0 s1 s2 s3). assert (length xs = 4%nat) as Hl by done.
  change (bitmap_sons (mk_node l (bits xs) p v)) with (bits xs).
  rewrite (count_present xs) by done. iApply wp_bind. iApply wp_NEW_VEC. iIntros (w) "Hw".
  rewrite <-moved_start. astep. astep. cbn [for_all].
  iAssert (partial r p w l xs 0) with "[Hr Hw]" as "Hp"; [unfold partial; iFrame|].
  iAssert (node_rep γ a p v l xs) with "[Ha Hv]" as "Hn"; [iFrame|].
  iApply wp_bind. iApply wp_bind. iApply (wp_copy_child fuel _ _ _ _ _ _ _ _ xs 0 s0 with "Hn H0 Hp"); [done|lia|done|lia|done|done|].
  iIntros (t0 Ht0) "Hn H0 H0' Hp".
  iApply wp_bind. iApply (wp_copy_child fuel _ _ _ _ _ _ _ _ _ 1 s1 with "Hn H1 Hp"); [done|lia|done|lia|done|done|].
  iIntros (t1 Ht1) "Hn H1 H1' Hp".
  iApply wp_bind. iApply (wp_copy_child fuel _ _ _ _ _ _ _ _ _ 2 s2 with "Hn H2 Hp"); [done|lia|done|lia|done|done|].
  iIntros (t2 Ht2) "Hn H2 H2' Hp".
  iApply wp_bind. iApply (wp_copy_child fuel _ _ _ _ _ _ _ _ _ 3 s3 with "Hn H3 Hp"); [done|lia|done|lia|done|done|].
  iIntros (t3 Ht3) "Hn H3 H3' [Hr Hw]". astep.
  cbn [insert list_insert xs sons]. fold (sons t0 t1 t2 t3). rewrite moved_end by done.
  iAssert (rep t) with "[Hn H0 H1 H2 H3]" as "Ht"; [unfold t; rewrite rep_tree; by iFrame|].
  iApply (wp_copy_end t with "Ht Hr"); [done|done|]. iIntros "Ht Hr".
  iApply ("H" $! (Tree r 0 w l t0 t1 t2 t3) with "[%] Ht [-]").
  - unfold copy_of. simpl. destruct Ht0 as [-> ?], Ht1 as [-> ?], Ht2 as [-> ?], Ht3 as [-> ?]. done.
  - rewrite rep_tree. iFrame. done.
Qed.

Lemma copies_contents alts ts : Forall2 copy_of alts ts → map contents ts = map contents alts
  ∧ fold_right (λ t P, linked (parent_of t) t ∧ P) True ts ∧ length ts = length alts.
Proof.
  induction 1 as [|t t' alts ts [Hc Hl] _ (IH1 & IH2 & IH3)]; simpl; [done|]. rewrite Hc, IH1, IH3.
  split; [done|]. split; [|done]. split; [|done]. destruct t'; simpl in *; naive_solver.
Qed.

Lemma wp_copy_amb fuel a p v l alts Φ : copies fuel →
  let t := Amb a p v l alts in
  (height t < S fuel)%nat →
  rep t -∗ (∀ t', ⌜copy_of t t'⌝ -∗ rep t -∗ rep t' -∗ Φ (addr t')) -∗ wp γ (ast_copy (S fuel) a) Φ.
Proof.
  iIntros (Hf t Hh) "Ht H". unfold t in Hh. cbn [height] in Hh.
  unfold t at 1. rewrite rep_amb. iDestruct "Ht" as "((%Ha & %Hk & %Hnum & %Hne) & [Ha Hv] & Hts)".
  cbn [ast_copy]. rewrite (proj2 (Z.eqb_neq a 0)) by (destruct Ha; lia).
  iApply wp_bind. iApply wp_alloc. iIntros (r Hr) "Hr". unfold ast_copy_one_node. asteps.
  rewrite decide_True by done. cbn [num_ambig mk_node]. rewrite Hnum. cbn [get]. asteps.
  assert (0 < length alts)%nat as Hpos by (destruct alts; simpl; [done|lia]).
  rewrite (proj2 (Z.ltb_lt _ _)) by lia. asteps. iApply wp_bind. iApply wp_NEW_VEC. iIntros (w) "Hw". asteps.
  iApply wp_bind.
  iApply (wp_copy_alts fuel a v r w alts Hf [] [] with "Ha Hv Hts Hr [Hw]"); [|done|done|done|done|].
  { apply Forall_forall. intros t' Ht'. apply list_elem_of_In in Ht'.
    pose proof (proj1 (list_max_le (map height alts) (list_max (map height alts))) (Nat.le_refl _)) as Hm.
    rewrite List.Forall_forall in Hm. specialize (Hm (height t') (in_map height _ _ Ht')). lia. }
  iIntros (ts Hts) "Ha Hv Hts Hr Hts' Hw". simpl app.
  iAssert (rep t) with "[Ha Hv Hts]" as "Ht"; [unfold t; rewrite rep_amb; iFrame; done|].
  iApply (wp_copy_end t with "Ht Hr"); [done|done|]. iIntros "Ht Hr".
  destruct (copies_contents _ _ Hts) as (Hc & Hlk & Hlen).
  iApply ("H" $! (Amb r 0 w l ts) with "[%] Ht [-]").
  - split; simpl; [by rewrite Hc|done].
  - rewrite rep_amb. iFrame. rewrite Hlen. iSplit.
    + iPureIntro. split; [done|]. split; [done|]. split; [done|]. intros ->. simpl in Hlen. lia.
    + replace (mk_node l 0 0 w) with (AST (l_kind l) 0 (Some (Z.of_nat (length alts))) 0 (l_locus l) (l_text l) w (l_info l)); [done|].
      unfold mk_node. by rewrite Hnum.
Qed.

Lemma wp_copy fuel : copies fuel.
Proof.
  induction fuel as [|fuel IH]; intros t Φ Hh; [lia|].
  destruct t as [|a p v l s0 s1 s2 s3|a p v l alts].
  - iIntros "Ht H". simpl. iApply wp_ret. iApply ("H" $! Null with "[%] Ht []"); [done|].
    by unfold AstTree.rep.
  - by apply wp_copy_tree.
  - by apply wp_copy_amb.
Qed.
End trees.
