(* ===== verification/AstRead.v ===== *)
(** * Reading syntax trees

    Functions that only read a tree: what they return on a memory that holds
    the tree, whatever else shares it. *)

From Stdlib Require Decidable.
From S2P Require Import Prelude Heap Ast AstNode AstTree AstCopy.
#[local] Open Scope Z_scope.
#[local] Unset SsrRewrite.

(** ** Running the code on a memory *)

Lemma run_bind {A B} (c : mem A) (k : A → mem B) m x m' :
  c m = Ret (x, m') → (c ≫= k) m = k x m'.
Proof. intros H. unfold mbind, M_bind. by rewrite H. Qed.

Lemma run_bind_assoc {A B C} (c : mem A) (k : A → mem B) (k' : B → mem C) m :
  ((c ≫= k) ≫= k') m = (c ≫= λ x, k x ≫= k') m.
Proof. unfold mbind, M_bind. simpl. by destruct (c m) as [[x m']|e]. Qed.

Lemma run_fld {A} (f : AST_tag → A) a m n : m !! a = Some (Node n) → fld f a m = Ret (f n, m).
Proof. intros H. unfold fld, node, ld, lift, mbind, M_bind. by rewrite H. Qed.

Lemma run_upd f a m n : m !! a = Some (Node n) → upd f a m = Ret (tt, <[a := Node (f n)]> m).
Proof. intros H. unfold upd, node, ld, st, lift, mbind, M_bind. by rewrite H; simpl; rewrite H. Qed.

Lemma run_vec_get v i os x m : m !! v = Some (Vec os) → os !! i = Some (Some x) →
  vec_get v (Z.of_nat i) m = Ret (x, m).
Proof.
  intros Hv Hi. unfold vec_get, ld, lift, mbind, M_bind. rewrite Hv. simpl.
  rewrite (proj2 (Z.ltb_ge _ _)) by lia. by rewrite Nat2Z.id, Hi.
Qed.

Lemma run_get_child a n xs i m : m !! a = Some (Node n) → bitmap_sons n = bits xs →
  (present xs ≠ [] → m !! children n = Some (Vec (Some <$> present xs))) →
  ast_get_child a (Z.of_nat i) m = Ret (son xs i, m).
Proof.
  intros Ha Hb Hv. unfold ast_get_child, ast_has_son, ast_son_num_to_son_index.
  erewrite run_bind by (erewrite run_bind by (by apply run_fld); reflexivity).
  rewrite Hb, bits_has, Nat2Z.id by lia. fold (son xs i).
  destruct (Z.eqb_spec (son xs i) 0) as [Hx|Hx]; cbn [negb]; [by rewrite Hx|].
  assert (default 0 (xs !! Z.to_nat (Z.of_nat i)) ≠ 0) as Hx' by by rewrite Nat2Z.id.
  erewrite run_bind.
  2: { erewrite run_bind by (by apply run_fld). rewrite Hb, index_present, Nat2Z.id by (done || lia). reflexivity. }
  erewrite run_bind by (by apply run_fld). unfold son in *.
  destruct (xs !! i) as [x|] eqn:Hi; [|done]. pose proof (present_lookup xs i x Hi Hx) as Hp.
  eapply run_vec_get.
  - apply Hv. intros He. by rewrite He in Hp.
  - by rewrite list_lookup_fmap, Hp.
Qed.

(** ** Trees held by a memory *)

Definition stored (m : gmap Z block) (t : tree) : Prop :=
  wf t ∧ ∀ kb, kb ∈ blocks t → m !! kb.1 = Some kb.2.

(** The children in the bitmap; an ambiguous node has none. *)
Definition child (t : tree) (i : nat) : tree :=
  match t with
  | Tree _ _ _ _ s0 s1 s2 s3 => match i with 0 => s0 | 1 => s1 | 2 => s2 | 3 => s3 | _ => Null end
  | _ => Null
  end%nat.

Definition kind_of (t : tree) : node_t := node_type (node_of t).
Definition text_of (t : tree) : option string := text (node_of t).

Lemma stored_node m t : stored m t → t ≠ Null → m !! addr t = Some (Node (node_of t)).
Proof.
  intros [_ H] Ht. destruct t as [|a p v l s0 s1 s2 s3|a p v l alts]; [done| |];
    apply (H (a, Node _)); by left.
Qed.

Lemma stored_child m t i : stored m t → stored m (child t i).
Proof.
  intros [Hw H]. destruct t as [|a p v l s0 s1 s2 s3|a p v l alts]; [done| |split; [done|]; by intros ? ?%elem_of_nil].
  destruct Hw as (_ & _ & _ & ? & ? & ? & ?).
  destruct i as [|[|[|[|i]]]]; (split; [done|]); simpl; try (intros kb Hkb; apply H; simpl; set_solver).
Qed.

Lemma run_child m t i : stored m t → t ≠ Null → (i < 4)%nat →
  ast_get_child (addr t) (Z.of_nat i) m = Ret (addr (child t i), m).
Proof.
  intros Hm Ht Hi. pose proof (stored_node m t Hm Ht) as Hn.
  destruct t as [|a p v l s0 s1 s2 s3|a p v l alts]; [done| |].
  - erewrite (run_get_child a _ (sons s0 s1 s2 s3)); [|exact Hn|done|].
    + by destruct i as [|[|[|[|i]]]]; [..|lia].
    + intros Hp. destruct Hm as [_ Hm]. apply (Hm (v, Vec _)). simpl. right.
      apply elem_of_app. left. fold (sons s0 s1 s2 s3). destruct (present _); [done|]. by left.
  - erewrite (run_get_child a _ [0;0;0;0]); [|exact Hn|done|done].
    by destruct i as [|[|[|[|i]]]]; [..|lia].
Qed.

Lemma stored_addr m t : stored m t → addr t = 0 ↔ t = Null.
Proof. intros [Hw _]. split; [|by intros ->]. intros H. by apply addr_contents. Qed.

Lemma child_height t i : t ≠ Null → (height (child t i) < height t)%nat.
Proof.
  intros Ht. destruct t as [|a p v l s0 s1 s2 s3|a p v l alts]; [done| |simpl; lia].
  destruct i as [|[|[|[|i]]]]; simpl; lia.
Qed.

(** ** [ast_equal] *)

(** What [ast_equal] compares: kinds, texts and children; interpretations are
    left out. *)
Fixpoint skeleton (t : tree) : tree :=
  match t with
  | Null => Null
  | Tree _ _ _ l s0 s1 s2 s3 => Tree 0 0 0 (Label (l_kind l) 0 (l_text l) None 0)
      (skeleton s0) (skeleton s1) (skeleton s2) (skeleton s3)
  | Amb _ _ _ l _ => Tree 0 0 0 (Label (l_kind l) 0 (l_text l) None 0) Null Null Null Null
  end.

Lemma skeleton_node t : t ≠ Null → skeleton t = Tree 0 0 0 (Label (kind_of t) 0 (text_of t) None 0)
  (skeleton (child t 0)) (skeleton (child t 1)) (skeleton (child t 2)) (skeleton (child t 3)).
Proof. by destruct t. Qed.

Lemma skeleton_null t : skeleton t = Null ↔ t = Null.
Proof. by destruct t. Qed.

Definition same_text (t1 t2 : option string) : bool :=
  match t1, t2 with None, None => true | Some x, Some y => bool_decide (x = y) | _, _ => false end.

Lemma same_text_spec t1 t2 : same_text t1 t2 = true ↔ t1 = t2.
Proof. destruct t1, t2; simpl; rewrite ?bool_decide_eq_true; naive_solver. Qed.

#[export] Instance null_dec t : Decision (t = Null).
Proof. refine (match t with Null => left _ | _ => right _ end); done. Defined.

Definition children_of (t : tree) : list Z := sons (child t 0) (child t 1) (child t 2) (child t 3).

Lemma bitmap_children t : t ≠ Null → bitmap_sons (node_of t) = bits (children_of t).
Proof. by destruct t. Qed.

Lemma wf_child t i : wf t → wf (child t i).
Proof.
  intros Hw. destruct t; [done| |done]. destruct i as [|[|[|[|i]]]]; simpl; simpl in Hw; tauto.
Qed.

Lemma same_arity t1 t2 : skeleton t1 = skeleton t2 → t1 ≠ Null → wf t1 → wf t2 →
  bitmap_sons (node_of t1) = bitmap_sons (node_of t2).
Proof.
  intros Hs H1 Hw1 Hw2. assert (t2 ≠ Null) as H2.
  { intros ->. apply H1. by apply skeleton_null. }
  rewrite !bitmap_children by done. apply bits_same. intros i.
  assert (Hz : ∀ s1 s2, skeleton s1 = skeleton s2 → wf s1 → wf s2 → addr s1 = 0 ↔ addr s2 = 0).
  { intros s1 s2 Hs12 Hs1 Hs2. split; intros Ha; apply addr_contents in Ha; [|done| |done]; subst.
    - symmetry in Hs12. by apply skeleton_null in Hs12 as ->.
    - by apply skeleton_null in Hs12 as ->. }
  rewrite (skeleton_node t1), (skeleton_node t2) in Hs by done. injection Hs as _ _ E0 E1 E2 E3.
  destruct i as [|[|[|[|i]]]]; simpl; try done; apply Hz; by try apply wf_child.
Qed.

Lemma run_equal_node m t1 t2 : stored m t1 → stored m t2 →
  ∃ b, ast_equal_node (addr t1) (addr t2) m = Ret (b, m)
  ∧ (skeleton t1 = skeleton t2 → b = true)
  ∧ (b = true → addr t1 = addr t2 ∨ (t1 ≠ Null ∧ t2 ≠ Null ∧ kind_of t1 = kind_of t2 ∧ text_of t1 = text_of t2)).
Proof.
  intros Hm1 Hm2. pose proof (stored_addr m t1 Hm1) as Ha1. pose proof (stored_addr m t2 Hm2) as Ha2.
  unfold ast_equal_node. destruct (Z.eqb_spec (addr t1) (addr t2)) as [He|He]; [exists true; by auto|].
  destruct (decide (t1 = Null)) as [->|H1].
  { exists false. split; [done|]. split; [|done]. intros Hs. symmetry in Hs. apply skeleton_null in Hs as ->. done. }
  destruct (decide (t2 = Null)) as [->|H2].
  { exists false. rewrite orb_true_r. split; [done|]. split; [|done]. intros Hs. by apply (proj1 (skeleton_null t1)) in Hs. }
  rewrite (proj2 (Z.eqb_neq (addr t1) 0)), (proj2 (Z.eqb_neq (addr t2) 0)) by tauto. cbn [orb].
  pose proof (stored_node m t1 Hm1 H1) as N1. pose proof (stored_node m t2 Hm2 H2) as N2.
  unfold ast_get_kind, ast_num_children, ast_get_text.
  erewrite run_bind by (by apply run_fld). erewrite run_bind by (by apply run_fld).
  fold (kind_of t1) (kind_of t2). case_decide as Hk.
  { exists false. split; [done|]. split; [|done]. intros Hs. rewrite (skeleton_node t1), (skeleton_node t2) in Hs by done. by injection Hs. }
  erewrite run_bind by (erewrite run_bind by (by apply run_fld); reflexivity).
  erewrite run_bind by (erewrite run_bind by (by apply run_fld); reflexivity).
  case_decide as Hn.
  { exists false. split; [done|]. split; [|done]. intros Hs. destruct Hn.
    by rewrite (same_arity t1 t2 Hs H1 (proj1 Hm1) (proj1 Hm2)). }
  erewrite run_bind by (by apply run_fld). erewrite run_bind by (by apply run_fld).
  exists (same_text (text_of t1) (text_of t2)). split; [unfold text_of; by destruct (text (node_of t1)), (text (node_of t2))|]. rewrite same_text_spec. split.
  - intros Hs. rewrite (skeleton_node t1), (skeleton_node t2) in Hs by done. by injection Hs.
  - intros Ht. right. done.
Qed.

(** Two trees at one address are one tree. *)
Lemma stored_same m t1 : ∀ t2, stored m t1 → stored m t2 → addr t1 = addr t2 → skeleton t1 = skeleton t2.
Proof.
  induction t1 as [|a p v l s0 s1 s2 s3 H0 H1 H2 H3|a p v l alts _] using tree_induction; intros t2 Hm1 Hm2 He.
  - by rewrite (proj1 (stored_addr m t2 Hm2) (eq_sym He)).
  - set (t1 := Tree a p v l s0 s1 s2 s3) in *.
    assert (t2 ≠ Null) as Hn2.
    { intros ->. by apply (stored_addr m t1 Hm1) in He. }
    assert (t1 ≠ Null) as Hn1 by done.
    pose proof (stored_node m t1 Hm1 Hn1) as N1. pose proof (stored_node m t2 Hm2 Hn2) as N2.
    rewrite <-He in N2. assert (node_of t1 = node_of t2) as N by congruence.
    assert (Hc : ∀ i, (i < 4)%nat → addr (child t1 i) = addr (child t2 i)).
    { intros i Hi. pose proof (run_child m t1 i Hm1 Hn1 Hi) as E1.
      pose proof (run_child m t2 i Hm2 Hn2 Hi) as E2. rewrite <-He, E1 in E2. by injection E2. }
    rewrite (skeleton_node t1), (skeleton_node t2) by done. unfold kind_of, text_of. rewrite N. f_equal.
    + apply H0; [apply (stored_child m t1 0)|apply stored_child|apply (Hc 0%nat)]; done || lia.
    + apply H1; [apply (stored_child m t1 1)|apply stored_child|apply (Hc 1%nat)]; done || lia.
    + apply H2; [apply (stored_child m t1 2)|apply stored_child|apply (Hc 2%nat)]; done || lia.
    + apply H3; [apply (stored_child m t1 3)|apply stored_child|apply (Hc 3%nat)]; done || lia.
  - set (t1 := Amb a p v l alts) in *.
    assert (t2 ≠ Null) as Hn2 by (intros ->; by apply (stored_addr m t1 Hm1) in He).
    assert (t1 ≠ Null) as Hn1 by done.
    pose proof (stored_node m t1 Hm1 Hn1) as N1. pose proof (stored_node m t2 Hm2 Hn2) as N2.
    rewrite <-He in N2. assert (node_of t1 = node_of t2) as N by congruence.
    assert (Hc : ∀ i, (i < 4)%nat → skeleton (child t2 i) = Null).
    { intros i Hi. pose proof (run_child m t1 i Hm1 Hn1 Hi) as E1.
      pose proof (run_child m t2 i Hm2 Hn2 Hi) as E2. rewrite <-He, E1 in E2. injection E2 as E2.
      apply skeleton_null, (stored_addr m); [by apply stored_child|]. by rewrite <-E2. }
    rewrite (skeleton_node t1), (skeleton_node t2) by done. unfold kind_of, text_of. rewrite N.
    by rewrite !Hc by lia.
Qed.

Lemma run_equal fuel m : ∀ t1 t2, stored m t1 → stored m t2 → (height t1 < fuel)%nat →
  ∃ b, ast_equal fuel (addr t1) (addr t2) m = Ret (b, m) ∧ (b = true ↔ skeleton t1 = skeleton t2).
Proof.
  induction fuel as [|fuel IH]; intros t1 t2 Hm1 Hm2 Hh; [lia|]. cbn [ast_equal].
  destruct (run_equal_node m t1 t2 Hm1 Hm2) as (b & Hb & Hs & Hb').
  erewrite run_bind by exact Hb. destruct b; cbn [negb].
  2: { exists false. split; [done|]. split; [done|]. intros H. by apply Hs. }
  destruct (decide (t1 = Null)) as [->|H1].
  { exists true. split; [done|]. split; [|done]. intros _. destruct (Hb' eq_refl) as [He|(? & _)]; [|done].
    symmetry in He. by rewrite (proj1 (stored_addr m t2 Hm2) He). }
  rewrite (proj2 (Z.eqb_neq _ _)) by (by rewrite (stored_addr m t1 Hm1)).
  assert (t2 ≠ Null) as H2.
  { intros ->. destruct (Hb' eq_refl) as [He|(_ & ? & _)]; [|done]. by apply (stored_addr m t1 Hm1) in He. }
  assert (Hkt : kind_of t1 = kind_of t2 ∧ text_of t1 = text_of t2).
  { destruct (Hb' eq_refl) as [He|(_ & _ & ? & ?)]; [|done].
    pose proof (stored_node m t1 Hm1 H1) as N1. pose proof (stored_node m t2 Hm2 H2) as N2.
    rewrite <-He in N2. assert (node_of t1 = node_of t2) as N by congruence. unfold kind_of, text_of. by rewrite N. }
  destruct Hkt as [Hk Ht].
  assert (Hloop : ∀ ks : list nat, Forall (λ i, i < 4)%nat ks → ∃ b,
    for_all_equal (λ i, c1 ← ast_get_child (addr t1) i; c2 ← ast_get_child (addr t2) i; ast_equal fuel c1 c2)
      (Z.of_nat <$> ks) m = Ret (b, m)
    ∧ (b = true ↔ Forall (λ i, skeleton (child t1 i) = skeleton (child t2 i)) ks)).
  { induction ks as [|i ks IHks]; intros Hks; simpl; [exists true; split; [done|]; by split|].
    apply Forall_cons in Hks as [Hi Hks].
    destruct (IH (child t1 i) (child t2 i)) as (e & He & Hes); [by apply stored_child..| |].
    { pose proof (child_height t1 i H1). lia. }
    erewrite run_bind.
    2: { erewrite run_bind by (by apply run_child). erewrite run_bind by (by apply run_child). exact He. }
    destruct e.
    - destruct (IHks Hks) as (b' & Hb1 & Hb2). exists b'. split; [done|].
      rewrite Forall_cons, <-Hes, Hb2. tauto.
    - exists false. split; [done|]. rewrite Forall_cons, <-Hes. split; [done|]. by intros [? _]. }
  destruct (Hloop [0; 1; 2; 3]%nat) as (b & Hrun & Hiff); [repeat constructor; lia|].
  exists b. split; [exact Hrun|]. rewrite Hiff, (skeleton_node t1), (skeleton_node t2), Hk, Ht by done.
  rewrite !Forall_cons, Forall_nil. split.
  - by intros (-> & -> & -> & -> & _).
  - intros Heq. by injection Heq as -> -> -> ->.
Qed.

(** ** [ast_check_list_tree] *)

(** A list: its last element, and the list of the elements before *)
Fixpoint list_ok (t : tree) : Prop :=
  match t with
  | Tree a _ _ l s0 s1 _ _ => l_kind l = AST_NODE_LIST ∧ s1 ≠ Null ∧ kind_of s1 ≠ AST_NODE_LIST
      ∧ (s0 = Null ∨ kind_of s0 = AST_NODE_LIST ∧ parent_of s0 = a ∧ parent_of s1 = a ∧ list_ok s0)
  | _ => False
  end.

Lemma parent_of_node t : t ≠ Null → parent (node_of t) = parent_of t.
Proof. by destruct t. Qed.

Lemma run_kind m t : stored m t → t ≠ Null → ast_get_kind (addr t) m = Ret (kind_of t, m).
Proof. intros Hm Ht. apply (run_fld node_type). by apply stored_node. Qed.

Lemma run_parent m t : stored m t → t ≠ Null → ast_get_parent (addr t) m = Ret (parent_of t, m).
Proof.
  intros Hm Ht. rewrite <-parent_of_node by done. apply (run_fld parent). by apply stored_node.
Qed.

Lemma run_check_list fuel m : ∀ t, stored m t → (height t < fuel)%nat →
  ∃ b, ast_check_list_tree fuel (addr t) m = Ret (b, m) ∧ (b = true ↔ list_ok t).
Proof.
  induction fuel as [|fuel IH]; intros t Hm Hh; [lia|]. cbn [ast_check_list_tree].
  destruct (decide (t = Null)) as [->|Ht]; [by exists false|].
  rewrite (proj2 (Z.eqb_neq _ _)) by (by rewrite (stored_addr m t Hm)).
  erewrite run_bind by (by apply run_kind). erewrite run_bind by (by apply (run_child m t 1); [..|lia]).
  pose proof (stored_child m t 0 Hm) as Hm0. pose proof (stored_child m t 1 Hm) as Hm1.
  assert (Hok : list_ok t ↔ kind_of t = AST_NODE_LIST ∧ child t 1 ≠ Null ∧ kind_of (child t 1) ≠ AST_NODE_LIST
    ∧ (child t 0 = Null ∨ kind_of (child t 0) = AST_NODE_LIST ∧ parent_of (child t 0) = addr t
       ∧ parent_of (child t 1) = addr t ∧ list_ok (child t 0))).
  { destruct t as [|a p v l s0 s1 s2 s3|a p v l alts]; [done|done|]. simpl. tauto. }
  assert (Hno : ¬ list_ok t → ∃ b, mret (M := mem) false m = Ret (b, m) ∧ (b = true ↔ list_ok t)).
  { intros H. by exists false. }
  case_decide as H1.
  { apply Hno. rewrite Hok, (stored_addr m _ Hm1) in *. tauto. }
  apply Decidable.not_or in H1 as [Hk H1]. rewrite (stored_addr m _ Hm1) in H1. apply dec_stable in Hk.
  erewrite run_bind by (by apply run_kind). case_decide as H2; [apply Hno; rewrite Hok; tauto|].
  erewrite run_bind by (by apply (run_child m t 0); [..|lia]).
  destruct (decide (child t 0 = Null)) as [H0|H0].
  { rewrite H0. exists true. split; [done|]. rewrite Hok. tauto. }
  rewrite (proj2 (Z.eqb_neq _ _)) by (by rewrite (stored_addr m _ Hm0)).
  erewrite run_bind by (by apply run_kind). erewrite run_bind by (by apply run_parent).
  erewrite run_bind by (by apply run_parent). case_decide as H3; [apply Hno; rewrite Hok; tauto|].
  apply Decidable.not_or in H3 as [Hk0 H3]. apply Decidable.not_or in H3 as [Hp0 Hp1].
  apply dec_stable in Hk0, Hp0, Hp1.
  destruct (IH (child t 0) Hm0) as (b & Hb & Hiff); [pose proof (child_height t 0 Ht); lia|].
  exists b. split; [done|]. rewrite Hiff, Hok. tauto.
Qed.

(** ** [ast_check] *)

Fixpoint nodes (t : tree) : nat :=
  match t with
  | Null => 0
  | Tree _ _ _ _ s0 s1 s2 s3 => S (nodes s0 + nodes s1 + nodes s2 + nodes s3)
  | Amb _ _ _ _ alts => S (sum_list_with nodes alts)
  end.

Definition list_at (m : gmap Z block) (a : Z) : bool :=
  match m !! a with
  | Some (Node n) => negb (a =? 0) && bool_decide (node_type n = AST_NODE_LIST)
  | _ => false
  end.

Definition is_list (t : tree) : bool := bool_decide (kind_of t = AST_NODE_LIST).

(** The lists whose parent is not a list are well built, in the interpretations
    of ambiguous nodes too. *)
Fixpoint lists_ok (m : gmap Z block) (t : tree) : Prop :=
  match t with
  | Null => True
  | Tree _ p _ _ s0 s1 s2 s3 =>
      (is_list t = true → list_at m p = false → list_ok t)
      ∧ lists_ok m s0 ∧ lists_ok m s1 ∧ lists_ok m s2 ∧ lists_ok m s3
  | Amb _ _ _ _ alts => fold_right (λ t P, lists_ok m t ∧ P) True alts
  end.

(** What [ast_check] looks for *)
Definition good (m : gmap Z block) (t : tree) : Prop := linked (parent_of t) t ∧ lists_ok m t.

(** The parent of [t] is null or a node. *)
Definition parent_valid (m : gmap Z block) (t : tree) : Prop :=
  parent_of t = 0 ∨ ∃ n, m !! parent_of t = Some (Node n).

(** The interpretations of ambiguous nodes are there, and their parents can be
    read: they are not the ambiguous node in general. *)
Fixpoint interpretations_valid (m : gmap Z block) (t : tree) : Prop :=
  match t with
  | Null => True
  | Tree _ _ _ _ s0 s1 s2 s3 => interpretations_valid m s0 ∧ interpretations_valid m s1
      ∧ interpretations_valid m s2 ∧ interpretations_valid m s3
  | Amb _ _ _ _ alts =>
      fold_right (λ t P, (t ≠ Null ∧ parent_valid m t ∧ interpretations_valid m t) ∧ P) True alts
  end.

Definition on_stack (m : gmap Z block) (t : tree) : Prop :=
  stored m t ∧ t ≠ Null ∧ parent_valid m t ∧ interpretations_valid m t.

(** The children that are pushed *)
Definition pushed (t : tree) (ks : list nat) : list tree :=
  flat_map (λ i, if decide (child t i = Null) then [] else [child t i]) ks.

Definition interpretations (t : tree) : list tree :=
  match t with Amb _ _ _ _ alts => alts | _ => [] end.

Lemma run_push_children m t ks : stored m t → t ≠ Null → Forall (λ i, i < 4)%nat ks → ∀ stack,
  ∃ ok stack', push_children (addr t) (Z.of_nat <$> ks) stack m = Ret ((ok, stack'), m)
  ∧ (ok = true ↔ Forall (λ s, parent_of s = addr t) (pushed t ks))
  ∧ (ok = true → stack' = reverse (addr <$> pushed t ks) ++ stack).
Proof.
  intros Hm Ht Hks. induction ks as [|i ks IH]; intros stack; simpl.
  { exists true, stack. split; [done|]. split; [|done]. split; [by constructor|done]. }
  apply Forall_cons in Hks as [Hi Hks]. erewrite run_bind by (by apply run_child).
  unfold pushed. simpl. case_decide as Hc.
  { rewrite Hc. simpl. by apply IH. }
  pose proof (stored_child m t i Hm) as Hmc.
  rewrite (proj2 (Z.eqb_neq _ _)) by (by rewrite (stored_addr m _ Hmc)).
  erewrite run_bind by (by apply run_parent). simpl. destruct (Z.eqb_spec (parent_of (child t i)) (addr t)) as [Hp|Hp].
  - destruct (IH Hks (addr (child t i) :: stack)) as (ok & stack' & Hrun & Hok & Hst).
    exists ok, stack'. split; [done|]. rewrite Forall_cons, Hok. split; [tauto|]. intros H.
    rewrite Hst by (by apply Hok). rewrite reverse_cons, <-app_assoc. done.
  - exists false, stack. split; [done|]. rewrite Forall_cons. split; [|done]. split; [done|]. by intros [? _].
Qed.

Lemma run_ambiguity m a p v l alts i t : stored m (Amb a p v l alts) → alts !! i = Some t →
  ast_get_ambiguity a (Z.of_nat i) m = Ret (addr t, m).
Proof.
  intros Hm Hi. unfold ast_get_ambiguity.
  erewrite run_bind by (apply (run_fld children), (stored_node m _ Hm); done).
  apply (run_vec_get v i (Some <$> map addr alts)).
  - apply (proj2 Hm (v, Vec _)). simpl. right. apply elem_of_app. left.
    destruct alts as [|s alts]; [done|]. by left.
  - by rewrite list_lookup_fmap, list_lookup_fmap, Hi.
Qed.

Lemma run_push_ambiguities m a p v l alts : stored m (Amb a p v l alts) → ∀ n i stack,
  (i + n ≤ length alts)%nat →
  push_ambiguities a (seqZ (Z.of_nat i) (Z.of_nat n)) stack m
  = Ret (reverse (addr <$> take n (drop i alts)) ++ stack, m).
Proof.
  intros Hm. induction n as [|n IH]; intros i stack Hn; [done|].
  destruct (lookup_lt_is_Some_2 alts i) as [t Hi]; [lia|].
  rewrite seqZ_cons by lia. simpl push_ambiguities.
  erewrite run_bind by (by apply (run_ambiguity m a p v l alts)).
  replace (Z.succ (Z.of_nat i)) with (Z.of_nat (S i)) by lia.
  replace (Z.pred (Z.of_nat (S n))) with (Z.of_nat n) by lia. rewrite IH by lia.
  rewrite (drop_S _ _ _ Hi). cbn [take fmap list_fmap]. by rewrite reverse_cons, <-app_assoc.
Qed.

Lemma run_check_top fuel m t : on_stack m t → (height t < fuel)%nat →
  ∃ b, check_top_list fuel (addr t) m = Ret (b, m)
  ∧ (b = true ↔ (is_list t = true → list_at m (parent_of t) = false → list_ok t)).
Proof.
  intros (Hm & Ht & Hf & _) Hh. unfold check_top_list.
  assert (Hl : is_list t = true ↔ kind_of t = AST_NODE_LIST) by apply bool_decide_eq_true.
  erewrite run_bind by (by apply run_kind).
  destruct (decide (kind_of t ≠ AST_NODE_LIST)) as [Hk|Hk].
  { exists true. split; [done|]. rewrite Hl. tauto. }
  apply dec_stable in Hk. erewrite run_bind by (by apply run_parent).
  destruct (run_check_list fuel m t Hm Hh) as (b & Hb & Hiff).
  destruct (Z.eqb_spec (parent_of t) 0) as [Hp|Hp].
  - erewrite run_bind by reflexivity. rewrite decide_False by done.
    exists b. split; [done|]. rewrite Hiff. unfold list_at. rewrite Hp.
    destruct (m !! 0) as [[]|]; tauto.
  - destruct Hf as [?|(n & Hn)]; [done|].
    erewrite run_bind by (by apply (run_fld node_type)). unfold list_at. rewrite Hn, (proj2 (Z.eqb_neq _ _) Hp).
    destruct (decide (node_type n = AST_NODE_LIST)) as [Hkn|Hkn].
    + exists true. split; [done|]. rewrite bool_decide_eq_true_2 by done. naive_solver.
    + exists b. split; [done|]. rewrite Hiff, bool_decide_eq_false_2 by done. tauto.
Qed.

Definition stack_size (ts : list tree) : nat := sum_list_with nodes ts.

Lemma stack_size_app l l' : stack_size (l ++ l') = (stack_size l + stack_size l')%nat.
Proof. unfold stack_size. induction l as [|x l IH]; simpl; [done|]. lia. Qed.

Lemma stack_size_reverse l : stack_size (reverse l) = stack_size l.
Proof.
  induction l as [|x l IH]; [done|]. rewrite reverse_cons, stack_size_app, IH. unfold stack_size. simpl. lia.
Qed.

Lemma pushed_size t : t ≠ Null →
  (stack_size (pushed t [0; 1; 2; 3]%nat) + stack_size (interpretations t) = nodes t - 1)%nat.
Proof.
  destruct t as [|a p v l s0 s1 s2 s3|a p v l alts]; [done| |].
  - intros _. unfold pushed. simpl. rewrite !app_nil_r, !stack_size_app. unfold stack_size.
    assert (H : ∀ s, sum_list_with nodes (if decide (s = Null) then [] else [s]) = nodes s).
    { intros s. case_decide; [by subst|]. simpl. lia. }
    rewrite !H. simpl. lia.
  - intros _. unfold stack_size. simpl. lia.
Qed.

Lemma pushed_good m t : kind_of t ≠ AST_AMBIGUITY → wf t → t ≠ Null → good m t ↔
  (is_list t = true → list_at m (parent_of t) = false → list_ok t)
  ∧ Forall (λ s, parent_of s = addr t ∧ good m s) (pushed t [0; 1; 2; 3]%nat).
Proof.
  destruct t as [|a p v l s0 s1 s2 s3|a p v l alts]; [done| |intros H (_ & ? & _); done].
  intros _ _ _. unfold pushed. cbn [flat_map].
  rewrite app_nil_r, !Forall_app. set (t := Tree a p v l s0 s1 s2 s3).
  assert (H : ∀ s, Forall (λ s, parent_of s = a ∧ good m s) (if decide (s = Null) then [] else [s])
    ↔ linked a s ∧ lists_ok m s).
  { intros s. case_decide as Hs; [subst; split; [done|by constructor]|]. rewrite Forall_singleton. unfold good.
    split.
    - intros [Hp Hg]. by rewrite Hp in Hg.
    - intros [Hl Hok]. assert (parent_of s = a) as Hp by (destruct s; simpl in *; naive_solver).
      by rewrite Hp. }
  simpl addr. simpl child. rewrite !H. unfold good. simpl. tauto.
Qed.

Lemma interpretations_good m t : kind_of t = AST_AMBIGUITY → wf t →
  good m t ↔ Forall (good m) (interpretations t).
Proof.
  destruct t as [|a p v l s0 s1 s2 s3|a p v l alts]; [done|intros ? (_ & ? & _); done|].
  intros _ _. unfold good. simpl. rewrite !fold_right_forall, Forall_and. tauto.
Qed.

Lemma pushed_on_stack m t : on_stack m t →
  Forall (λ s, parent_of s = addr t) (pushed t [0; 1; 2; 3]%nat) →
  Forall (on_stack m) (pushed t [0; 1; 2; 3]%nat).
Proof.
  intros (Hm & Ht & _ & Hv) Hpar. apply Forall_forall. intros s Hin. rewrite Forall_forall in Hpar.
  specialize (Hpar _ Hin). unfold pushed in Hin. apply list_elem_of_In, in_flat_map in Hin as (i & Hi & Hin).
  case_decide as Hs; [done|]. destruct Hin as [<-|[]].
  split; [by apply stored_child|]. split; [done|]. split.
  - right. exists (node_of t). rewrite Hpar. by apply stored_node.
  - destruct t as [|a p v l s0 s1 s2 s3|]; try done. simpl in Hv. destruct i as [|[|[|[|]]]]; simpl; tauto.
Qed.

Lemma interpretations_on_stack m t : on_stack m t → Forall (on_stack m) (interpretations t).
Proof.
  destruct t as [|a p v l s0 s1 s2 s3|a p v l alts]; [by constructor..|]. intros ([Hw Hm] & _ & _ & Hv).
  simpl in Hw, Hv. rewrite fold_right_forall in Hv. destruct Hw as (_ & _ & _ & _ & _ & Hw).
  rewrite fold_right_forall in Hw. apply Forall_forall. intros s Hs.
  rewrite ->Forall_forall in Hv, Hw. destruct (Hv s Hs) as (Hn & Hp & Hi).
  split; [|done]. split; [by apply Hw|]. intros kb Hkb. apply Hm. simpl. right. apply elem_of_app. right.
  apply list_elem_of_In, in_flat_map. exists s. by rewrite <-!list_elem_of_In.
Qed.

Lemma height_nodes t : (height t ≤ nodes t)%nat.
Proof.
  induction t as [|a p v l s0 s1 s2 s3|a p v l alts IH] using tree_induction; simpl; [lia..|].
  apply le_n_S. induction IH as [|t alts Ht _ IH]; simpl; lia.
Qed.

Lemma run_check fuel m : ∀ ts, Forall (on_stack m) ts → (S (stack_size ts) < fuel)%nat →
  ∃ b, check_stack fuel (addr <$> ts) m = Ret (b, m) ∧ (b = true ↔ Forall (good m) ts).
Proof.
  induction fuel as [|fuel IH]; intros ts Hst Hsz; [lia|].
  destruct ts as [|t ts]; [exists true; split; [done|by split; [constructor|]]|].
  apply Forall_cons in Hst as [Ht Hst]. pose proof Ht as (Hm & Hn & _).
  cbn [fmap list_fmap check_stack]. erewrite run_bind by (by apply run_kind).
  pose proof (height_nodes t) as Hh. pose proof (pushed_size t Hn) as Hps.
  change (stack_size (t :: ts)) with (nodes t + stack_size ts)%nat in Hsz.
  assert (Hpos : (0 < nodes t)%nat) by (destruct t; simpl; [done|lia..]).
  destruct (decide (kind_of t ≠ AST_AMBIGUITY)) as [Hk|Hk].
  - destruct (run_push_children m t [0;1;2;3]%nat Hm Hn) with (stack := addr <$> ts)
      as (ok & stack & Hpush & Hok & Hstack); [repeat constructor; lia|].
    erewrite run_bind by exact Hpush. cbn beta iota.
    destruct (run_check_top fuel m t Ht) as (b & Hb & Hbiff); [lia|].
    erewrite run_bind by exact Hb.
    pose proof (pushed_good m t Hk (proj1 Hm) Hn) as Hgood.
    destruct (ok && b) eqn:E.
    + apply andb_true_iff in E as [-> ->]. rewrite Hstack, <-fmap_reverse, <-fmap_app by done.
      destruct (IH (reverse (pushed t [0;1;2;3]%nat) ++ ts)) as (r & Hr & Hriff).
      * apply Forall_app. split; [|done]. apply Forall_reverse, pushed_on_stack; try done. by apply Hok.
      * rewrite stack_size_app, stack_size_reverse. lia.
      * exists r. split; [done|]. rewrite Hriff, Forall_app, Forall_cons, Forall_reverse, Hgood, Forall_and, <-Hok, <-Hbiff. tauto.
    + exists false. split; [done|]. rewrite Forall_cons, Hgood, Forall_and, <-Hok, <-Hbiff. split; [done|].
      intros ((-> & -> & _) & _). done.
  - apply dec_stable in Hk. pose proof (interpretations_good m t Hk (proj1 Hm)) as Hgood.
    pose proof (interpretations_on_stack m t Ht) as Hos.
    destruct t as [|a p v l s0 s1 s2 s3|a p v l alts]; [done|by destruct Hm as [(_ & ? & _) _]|].
    unfold ast_get_num_ambiguities.
    erewrite run_bind by (erewrite run_bind by (by apply run_fld, (stored_node m _ Hm)); 
      simpl; rewrite (proj1 (proj2 (proj2 (proj1 Hm)))); reflexivity).
    erewrite run_bind by (by apply (run_push_ambiguities m a p v l alts Hm (length alts) 0)).
    rewrite drop_0, firstn_all, <-fmap_reverse, <-fmap_app.
    destruct (IH (reverse alts ++ ts)) as (r & Hr & Hriff).
    + apply Forall_app. split; [by apply Forall_reverse|done].
    + rewrite stack_size_app, stack_size_reverse. simpl in *. lia.
    + exists r. split; [exact Hr|]. by rewrite Hriff, Forall_app, Forall_cons, Forall_reverse, Hgood.
Qed.
