(* ===== verification/AstList.v ===== *)
(** * Making nodes, and lists as sequences

    A list node holds its last element and the list of the elements before, so
    a list is read from its innermost node.  [elements] is the sequence. *)

From Stdlib Require Decidable.
From S2P Require Import Prelude Heap Ast AstNode AstTree AstCopy AstRead.
#[local] Open Scope Z_scope.
#[local] Unset SsrRewrite.

(** ** Lists as trees *)

Fixpoint elements (t : tree) : list tree :=
  match t with Tree _ _ _ _ s0 s1 _ _ => elements s0 ++ [s1] | _ => [] end.

(** The innermost node, and the list with another one in its place *)
Fixpoint first (t : tree) : tree :=
  match t with
  | Tree _ _ _ _ s0 _ _ _ => match s0 with Null => t | _ => first s0 end
  | _ => t
  end.

Fixpoint plug (t f : tree) : tree :=
  match t with
  | Tree a p v l s0 s1 s2 s3 =>
      match s0 with Null => f | _ => Tree a p v l (plug s0 f) s1 s2 s3 end
  | _ => f
  end.

Definition list_or_null (t : tree) : Prop := t = Null ∨ list_ok t.

Lemma list_ok_son t : list_ok t → list_or_null (child t 0).
Proof. destruct t; simpl; unfold list_or_null; tauto. Qed.

Lemma list_ok_node t : list_ok t → ∃ a p v l s0 s1 s2 s3, t = Tree a p v l s0 s1 s2 s3
  ∧ l_kind l = AST_NODE_LIST ∧ s1 ≠ Null ∧ kind_of s1 ≠ AST_NODE_LIST ∧ list_or_null s0.
Proof.
  destruct t as [|a p v l s0 s1 s2 s3|]; simpl; try done. intros (? & ? & ? & H).
  exists a, p, v, l, s0, s1, s2, s3. unfold list_or_null. naive_solver.
Qed.

Lemma list_induction (P : tree → Prop) :
  (∀ a p v l s1 s2 s3, list_ok (Tree a p v l Null s1 s2 s3) → P (Tree a p v l Null s1 s2 s3)) →
  (∀ a p v l s0 s1 s2 s3, s0 ≠ Null → list_ok s0 → list_ok (Tree a p v l s0 s1 s2 s3) → P s0 →
    P (Tree a p v l s0 s1 s2 s3)) → ∀ t, list_ok t → P t.
Proof.
  intros H1 H2 t. induction t as [|a p v l s0 s1 s2 s3 H0 _ _ _|] using tree_induction; try done.
  intros Hok. pose proof Hok as (_ & _ & _ & [->|(_ & _ & _ & Hok0)]); [by apply H1|].
  apply H2; auto. by intros ->.
Qed.

Lemma first_elements t : list_ok t → ∃ a p v l s1 s2 s3,
  first t = Tree a p v l Null s1 s2 s3 ∧ l_kind l = AST_NODE_LIST ∧ s1 ≠ Null ∧ kind_of s1 ≠ AST_NODE_LIST
  ∧ head (elements t) = Some s1.
Proof.
  induction 1 as [a p v l s1 s2 s3 (? & ? & ? & _)|a p v l s0 s1 s2 s3 Hn Hok0 _ IH] using list_induction.
  - exists a, p, v, l, s1, s2, s3. done.
  - destruct IH as (a' & p' & v' & l' & e & e2 & e3 & Hf & ? & ? & ? & He). exists a', p', v', l', e, e2, e3.
    split; [by destruct s0|]. split; [done|]. split; [done|]. split; [done|]. simpl.
    by destruct (elements s0).
Qed.

Lemma plug_elements t f : list_ok t → elements (plug t f) = elements f ++ tail (elements t).
Proof.
  induction 1 as [a p v l s1 s2 s3 H|a p v l s0 s1 s2 s3 Hn Hok0 _ IH] using list_induction.
  - simpl. by rewrite app_nil_r.
  - assert (elements s0 ≠ []) as He.
    { destruct (first_elements s0 Hok0) as (? & ? & ? & ? & ? & ? & ? & _ & _ & _ & _ & He). by destruct (elements s0). }
    assert (plug (Tree a p v l s0 s1 s2 s3) f = Tree a p v l (plug s0 f) s1 s2 s3) as -> by by destruct s0.
    simpl. rewrite IH. destruct (elements s0); [done|]. simpl. by rewrite <-app_assoc.
Qed.

(** A node that takes the place of the first one *)
Definition fits (f g : tree) : Prop :=
  f ≠ Null ∧ addr f = addr g ∧ kind_of f = kind_of g ∧ parent_of f = parent_of g.

Lemma plug_fits t f : list_ok t → fits f (first t) → fits (plug t f) t.
Proof.
  intros Hok. revert f. induction Hok as [a p v l s1 s2 s3 H|a p v l s0 s1 s2 s3 Hn Hok0 _ IH] using list_induction; intros f Hf.
  - done.
  - assert (plug (Tree a p v l s0 s1 s2 s3) f = Tree a p v l (plug s0 f) s1 s2 s3) as -> by by destruct s0.
    by split.
Qed.

Lemma plug_ok t f : list_ok t → list_ok f → fits f (first t) → list_ok (plug t f).
Proof.
  intros Hok Hf. revert f Hf. induction Hok as [a p v l s1 s2 s3 H|a p v l s0 s1 s2 s3 Hn Hok0 Hok IH] using list_induction;
    intros f Hf Hfit; [done|].
  assert (plug (Tree a p v l s0 s1 s2 s3) f = Tree a p v l (plug s0 f) s1 s2 s3) as -> by by destruct s0.
  destruct Hok as (? & ? & ? & [?|(Hk & Hp & ? & _)]); [done|].
  assert (fits f (first s0)) as Hfit0 by by destruct s0.
  destruct (plug_fits s0 f Hok0 Hfit0) as (_ & _ & Hk' & Hp').
  split; [done|]. split; [done|]. split; [done|]. right. rewrite Hk', Hp'. auto.
Qed.

(** Lists whose nodes point to their parents *)
Definition seq (t : tree) : Prop := list_ok t ∧ linked (parent_of t) t.
Definition seq_or_null (t : tree) : Prop := t = Null ∨ seq t.

Lemma first_linked t : list_ok t → ∀ p, linked p t → linked (parent_of (first t)) (first t).
Proof.
  induction 1 as [a q v l s1 s2 s3 H|a q v l s0 s1 s2 s3 Hn Hok0 _ IH] using list_induction; intros p Hl.
  - simpl in *. destruct Hl as [-> ?]. done.
  - assert (first (Tree a q v l s0 s1 s2 s3) = first s0) as -> by by destruct s0.
    apply (IH a). apply Hl.
Qed.

Lemma plug_linked t f : list_ok t → fits f (first t) → linked (parent_of f) f → ∀ p, linked p t → linked p (plug t f).
Proof.
  intros Hok Hf Hlf. revert Hf. induction Hok as [a q v l s1 s2 s3 H|a q v l s0 s1 s2 s3 Hn Hok0 _ IH] using list_induction;
    intros Hf p Hl.
  - simpl in *. destruct Hf as (_ & _ & _ & Hp). simpl in Hp. destruct Hl as [-> _]. by rewrite Hp in Hlf.
  - assert (plug (Tree a q v l s0 s1 s2 s3) f = Tree a q v l (plug s0 f) s1 s2 s3) as -> by by destruct s0.
    assert (fits f (first s0)) as Hf0 by by destruct s0. destruct Hl as (-> & H0 & Hl).
    split; [done|]. split; [by apply IH|done].
Qed.

(** The node around the innermost one, and the list with another one in its
    place *)
Fixpoint second (t : tree) : tree :=
  match t with
  | Tree _ _ _ _ s0 _ _ _ => match child s0 0 with Null => t | _ => second s0 end
  | _ => t
  end.

Fixpoint plug_second (t f : tree) : tree :=
  match t with
  | Tree a p v l s0 s1 s2 s3 =>
      match child s0 0 with Null => f | _ => Tree a p v l (plug_second s0 f) s1 s2 s3 end
  | _ => f
  end.

(** Induction over lists of two elements or more *)
Lemma long_list_induction (P : tree → Prop) :
  (∀ a p v l s0 s1 s2 s3, list_ok s0 → child s0 0 = Null → seq (Tree a p v l s0 s1 s2 s3) →
    P (Tree a p v l s0 s1 s2 s3)) →
  (∀ a p v l s0 s1 s2 s3, child s0 0 ≠ Null → seq s0 → seq (Tree a p v l s0 s1 s2 s3) → P s0 →
    P (Tree a p v l s0 s1 s2 s3)) → ∀ t, seq t → child t 0 ≠ Null → P t.
Proof.
  intros H1 H2 t. induction t as [|a p v l s0 s1 s2 s3 H0 _ _ _|] using tree_induction; try done.
  intros Hok Hn. pose proof Hok as [(_ & _ & _ & [?|(_ & Hp & _ & Hok0)]) (_ & Hl & _)]; [done|].
  assert (seq s0) as Hs0 by (split; [done|by rewrite Hp]).
  destruct (decide (child s0 0 = Null)); [by apply H1|]. apply H2; auto.
Qed.

Lemma second_spec t : seq t → child t 0 ≠ Null → ∃ a p v l s1 s2 s3,
  second t = Tree a p v l (first t) s1 s2 s3 ∧ parent_of (first t) = a
  ∧ l_kind l = AST_NODE_LIST ∧ s1 ≠ Null ∧ kind_of s1 ≠ AST_NODE_LIST
  ∧ linked a s1 ∧ linked a s2 ∧ linked a s3.
Proof.
  revert t. apply long_list_induction.
  - intros a p v l s0 s1 s2 s3 Hok Hc [(? & ? & ? & [->|(_ & Hp & _)]) (_ & _ & ?)]; [done|].
    exists a, p, v, l, s1, s2, s3. destruct s0 as [|? ? ? ? []|]; try done.
  - intros a p v l s0 s1 s2 s3 Hc Hok _ (a' & p' & v' & l' & e1 & e2 & e3 & Hs & Hrest).
    exists a', p', v', l', e1, e2, e3. destruct s0 as [|? ? ? ? s00|]; try done. simpl in Hc.
    split; [|done]. transitivity (second (Tree a0 p0 v0 l0 s00 s0_1 s0_2 s0_3)); [|exact Hs].
    simpl. destruct s00; done.
Qed.
Lemma plug_second_step a p v l s0 s1 s2 s3 f : child s0 0 ≠ Null →
  plug_second (Tree a p v l s0 s1 s2 s3) f = Tree a p v l (plug_second s0 f) s1 s2 s3
  ∧ second (Tree a p v l s0 s1 s2 s3) = second s0.
Proof. intros Hc. destruct s0 as [|? ? ? ? [] | ]; done. Qed.

Lemma plug_second_base a p v l s0 s1 s2 s3 f : child s0 0 = Null →
  plug_second (Tree a p v l s0 s1 s2 s3) f = f ∧ second (Tree a p v l s0 s1 s2 s3) = Tree a p v l s0 s1 s2 s3.
Proof. intros Hc. by destruct s0 as [|? ? ? ? [] | ]. Qed.

Lemma long_elements t : list_ok t → child t 0 ≠ Null → (2 ≤ length (elements t))%nat.
Proof.
  destruct t as [|a p v l s0 s1 s2 s3|]; try done. intros (_ & _ & _ & [->|(_ & _ & _ & Hok)]) Hc; [done|].
  destruct (first_elements s0 Hok) as (? & ? & ? & ? & ? & ? & ? & _ & _ & _ & _ & He).
  simpl. rewrite length_app. destruct (elements s0); simpl in *; [done|lia].
Qed.

(** What a node in the place of the second one makes of the list *)
Lemma plug_second_seq t f : seq t → child t 0 ≠ Null → seq f → fits f (second t) →
  fits (plug_second t f) t ∧ seq (plug_second t f)
  ∧ elements (plug_second t f) = elements f ++ drop 2 (elements t).
Proof.
  intros Ht Hc Hf. revert t Ht Hc. apply (long_list_induction (λ t, fits f (second t) → fits (plug_second t f) t
    ∧ seq (plug_second t f) ∧ elements (plug_second t f) = elements f ++ drop 2 (elements t))).
  - intros a p v l s0 s1 s2 s3 Hok Hc _ Hfit. destruct (plug_second_base a p v l s0 s1 s2 s3 f Hc) as [-> Hs].
    rewrite Hs in Hfit. split; [done|]. split; [done|]. simpl.
    destruct s0 as [|? ? ? ? []|]; try done. simpl. by rewrite app_nil_r.
  - intros a p v l s0 s1 s2 s3 Hc [Hok0 _] [Hok Hl] IH Hfit.
    destruct (plug_second_step a p v l s0 s1 s2 s3 f Hc) as [-> Hs]. rewrite Hs in Hfit.
    destruct (IH Hfit) as ((Hn' & Ha' & Hk' & Hp') & [Hok' Hl'] & He). split; [done|].
    destruct Hok as (? & ? & ? & [->|(Hk & Hp & ? & _)]); [done|].
    simpl parent_of in Hl. destruct Hl as (_ & _ & Hl). split; [split|].
    + split; [done|]. split; [done|]. split; [done|]. right. by rewrite Hk', Hp'.
    + split; [done|]. split; [by rewrite <-Hp, <-Hp'|done].
    + simpl. rewrite He. pose proof (long_elements s0 Hok0 Hc).
      rewrite drop_app_le by done. by rewrite app_assoc.
Qed.

Lemma take_elements t : seq t → child t 0 ≠ Null → take 2 (elements t) = [child (first t) 1; child (second t) 1].
Proof.
  revert t. apply long_list_induction.
  - intros a p v l s0 s1 s2 s3 Hok Hc _. rewrite (proj2 (plug_second_base a p v l s0 s1 s2 s3 Null Hc)).
    destruct s0 as [|? ? ? ? []|]; try done.
  - intros a p v l s0 s1 s2 s3 Hc Hs0 _ IH. rewrite (proj2 (plug_second_step a p v l s0 s1 s2 s3 Null Hc)).
    assert (first (Tree a p v l s0 s1 s2 s3) = first s0) as -> by by destruct s0.
    simpl elements. rewrite take_app_le by (by apply long_elements; [apply Hs0|]). done.
Qed.

Lemma seq_fields t : seq t → ∃ a p v l s0 s1 s2 s3, t = Tree a p v l s0 s1 s2 s3
  ∧ l_kind l = AST_NODE_LIST ∧ linked a s0 ∧ linked a s1 ∧ linked a s2 ∧ linked a s3.
Proof.
  intros [Hok Hl]. destruct t as [|a p v l s0 s1 s2 s3|]; try done. simpl in Hl. destruct Hl as (_ & Hl).
  exists a, p, v, l, s0, s1, s2, s3. split; [done|]. split; [apply Hok|done].
Qed.

Lemma elements_relink p t : elements (relink p t) = elements t.
Proof. by destruct t. Qed.

Lemma list_ok_relink p t : list_ok (relink p t) ↔ list_ok t.
Proof. by destruct t. Qed.

Lemma seq_relink p t : seq t → seq (relink p t).
Proof.
  intros [Hok Hl]. split; [by apply list_ok_relink|].
  assert (parent_of (relink p t) = p) as -> by by destruct t. by eapply relink_linked.
Qed.

(** ** [ast_make] *)

Section lists.
Context `{!ghost_mapG Σ Z block} (γ : gname).
Notation "p ↦ b" := (p ↪[γ] b)%I (at level 20, b at level 30).
Notation rep := (rep γ).
Notation partial := (partial γ).

Lemma wp_add_son r p w l zs j t Φ : length zs = 4%nat → (j < 4)%nat → son zs j = addr t →
  partial r p w l zs j -∗ rep t -∗
  (partial r p w l zs (S j) -∗ rep (relink r t) -∗ Φ (Z.of_nat (length (present (take (S j) zs))))) -∗
  wp γ (add_son r (Z.of_nat (length (present (take j zs)))) (addr t)) Φ.
Proof.
  iIntros (Hl Hj Hz) "[Hr Hw] Ht H". iDestruct (rep_addr with "Ht") as %Hat. unfold add_son.
  assert (zs !! j = Some (addr t)) as Hzs.
  { unfold son in Hz. destruct (zs !! j) eqn:E; [simpl in Hz; by f_equal|]. apply lookup_ge_None in E. lia. }
  destruct (Z.eqb_spec (addr t) 0) as [Ha|Ha].
  - apply Hat in Ha as ->. iApply wp_ret. cbn [relink].
    assert (present (take (S j) zs) = present (take j zs)) as Hp.
    { rewrite (take_S_r _ _ _ Hzs). unfold present. rewrite list.filter_app, filter_cons_False by (by intros ?).
      apply app_nil_r. }
    rewrite Hp. iApply ("H" with "[Hr Hw] Ht"). unfold AstCopy.partial. rewrite moved_skip by done. iFrame.
  - assert (t ≠ Null) as Ht by tauto. destruct (moved_set zs j) as [Hset Hlen]; [congruence|].
    asteps. simpl children. iApply wp_bind. iApply (wp_set with "Hw"); [done|]. iIntros "Hw".
    iApply wp_bind. iApply (wp_set_parent with "Ht"); [done|]. iIntros "Ht". iApply wp_ret.
    assert (Z.of_nat (length (present (take (S j) zs))) = Z.of_nat (length (present (take j zs))) + 1) as ->.
    { rewrite (take_S_r _ _ _ Hzs). unfold present. rewrite list.filter_app, filter_cons_True, length_app by done.
      simpl. lia. }
    iApply ("H" with "[Hr Hw] Ht"). unfold AstCopy.partial. rewrite Hz in Hset. rewrite Hset. iFrame.
Qed.

Lemma make_bits x0 x1 x2 x3 : Z.lor (some_son x0) (Z.lor (Z.shiftl (some_son x1) 1)
  (Z.lor (Z.shiftl (some_son x2) 2) (Z.shiftl (some_son x3) 3))) = bits [x0; x1; x2; x3].
Proof.
  unfold bits. destruct (some_son_cases x0) as [[-> _]|[-> _]], (some_son_cases x1) as [[-> _]|[-> _]],
    (some_son_cases x2) as [[-> _]|[-> _]], (some_son_cases x3) as [[-> _]|[-> _]]; reflexivity.
Qed.

Lemma wp_make type s0 s1 s2 s3 loc tx Φ : type ≠ AST_AMBIGUITY →
  rep s0 -∗ rep s1 -∗ rep s2 -∗ rep s3 -∗
  (∀ a v, rep (Tree a 0 v (Label type loc tx None 0) (relink a s0) (relink a s1) (relink a s2) (relink a s3)) -∗ Φ a) -∗
  wp γ (ast_make type (addr s0) (addr s1) (addr s2) (addr s3) loc tx) Φ.
Proof.
  iIntros (Hk) "H0 H1 H2 H3 H". unfold ast_make. iApply wp_bind. iApply wp_alloc. iIntros (r Hr) "Hr".
  rewrite make_bits. fold (sons s0 s1 s2 s3). set (zs := sons s0 s1 s2 s3). cbv zeta. astep.
  rewrite (count_present zs) by done. iApply wp_bind. iApply wp_NEW_VEC. iIntros (w) "Hw". rewrite <-moved_start. astep.
  set (l := Label type loc tx None 0). iAssert (partial r 0 w l zs 0) with "[Hr Hw]" as "Hp"; [iFrame|].
  iApply wp_bind. iApply (wp_add_son _ _ _ _ _ 0 s0 with "Hp H0"); [done|lia|done|]. iIntros "Hp H0".
  iApply wp_bind. iApply (wp_add_son _ _ _ _ _ 1 s1 with "Hp H1"); [done|lia|done|]. iIntros "Hp H1".
  iApply wp_bind. iApply (wp_add_son _ _ _ _ _ 2 s2 with "Hp H2"); [done|lia|done|]. iIntros "Hp H2".
  iApply wp_bind. iApply (wp_add_son _ _ _ _ _ 3 s3 with "Hp H3"); [done|lia|done|]. iIntros "[Hr Hw] H3".
  rewrite moved_end by done. asteps. iApply "H". rewrite rep_tree. unfold sons. rewrite !addr_relink. iFrame. done.
Qed.

(** ** Lists *)

Lemma rep_first t : list_ok t → rep t -∗
  rep (first t) ∗ ∀ f, ⌜fits f (first t)⌝ -∗ rep f -∗ rep (plug t f).
Proof.
  induction 1 as [a p v l s1 s2 s3 H|a p v l s0 s1 s2 s3 Hn Hok0 Hok IH] using list_induction; iIntros "Ht".
  - simpl. iFrame. by iIntros (f _) "$".
  - assert (first (Tree a p v l s0 s1 s2 s3) = first s0) as -> by by destruct s0.
    rewrite rep_tree. iDestruct "Ht" as "(% & Hn & H0 & H1 & H2 & H3)".
    iDestruct (IH with "H0") as "[$ Hplug]". iIntros (f Hf) "Hf".
    assert (plug (Tree a p v l s0 s1 s2 s3) f = Tree a p v l (plug s0 f) s1 s2 s3) as -> by by destruct s0.
    destruct (plug_fits s0 f Hok0 Hf) as (_ & Ha & _). rewrite rep_tree. unfold sons. rewrite Ha. iFrame.
    iSplit; [done|]. by iApply "Hplug".
Qed.

Lemma wp_first_node fuel t : ∀ Φ, list_ok t → (height t < fuel)%nat →
  rep t -∗ (rep t -∗ Φ (addr (first t))) -∗ wp γ (first_node fuel (addr t)) Φ.
Proof.
  revert t. induction fuel as [|fuel IH]; intros t Φ Hok Hh; [lia|]. iIntros "Ht H".
  destruct (list_ok_node t Hok) as (a & p & v & l & s0 & s1 & s2 & s3 & -> & _ & _ & _ & Hs0).
  rewrite rep_tree. iDestruct "Ht" as "(%Ha & Hn & H0 & Hr)". cbn [first_node addr].
  iApply wp_bind. iApply (wp_get_child _ _ _ _ _ _ 0 with "Hn"). iIntros "Hn".
  change (son (sons s0 s1 s2 s3) 0) with (addr s0).
  destruct Hs0 as [->|Hs0].
  - iApply wp_ret. simpl. iApply "H". iFrame. done.
  - iDestruct (rep_addr with "H0") as %Ha0. destruct (Z.eqb_spec (addr s0) 0) as [E|_].
    { apply Ha0 in E as ->. done. }
    iApply (IH with "H0"); [done|simpl in Hh; lia|]. iIntros "H0".
    assert (first (Tree a p v l s0 s1 s2 s3) = first s0) as -> by by destruct s0.
    iApply "H". iFrame. done.
Qed.

Lemma list_kind t : list_ok t → kind_of t = AST_NODE_LIST.
Proof. by destruct t; [|intros [? _]|]. Qed.

Lemma list_not_null t : list_ok t → t ≠ Null.
Proof. by destruct t. Qed.

Lemma wp_list_head fuel t Φ : list_ok t → (height t < fuel)%nat →
  rep t -∗ (rep t -∗ Φ (addr (first t))) -∗ wp γ (ast_list_head fuel (addr t)) Φ.
Proof.
  iIntros (Hok Hh) "Ht H". iDestruct (rep_addr with "Ht") as %Ha. pose proof (list_not_null t Hok).
  unfold ast_list_head. rewrite (proj2 (Z.eqb_neq _ _)) by tauto. unfold ast_get_kind.
  iApply wp_bind. iApply (wp_tree_fld with "Ht"); [done|]. iIntros "Ht".
  fold (kind_of t). rewrite (list_kind t Hok), decide_False by (intros H'; done).
  by iApply (wp_first_node with "Ht").
Qed.

(** Child 0 of a node *)
Lemma wp_set_son a p v l s0 s1 s2 s3 t Φ :
  rep (Tree a p v l s0 s1 s2 s3) -∗ rep t -∗
  (∀ w, rep (Tree a p w l (relink a t) s1 s2 s3) -∗ rep s0 -∗ Φ tt) -∗
  wp γ (ast_set_child a 0 (addr t)) Φ.
Proof.
  iIntros "Hn Ht H". iDestruct (rep_addr with "Ht") as %Hat. rewrite rep_tree.
  iDestruct "Hn" as "(%Ha & Hn & H0 & Hr)". unfold ast_set_child.
  iApply wp_bind. iApply (wp_set_child_but_parent _ _ _ _ _ _ 0 with "Hn"); [done|lia|]. iIntros (w) "Hn".
  change (<[0%nat := addr t]> (sons s0 s1 s2 s3)) with (sons t s1 s2 s3).
  destruct (Z.eqb_spec (addr t) 0) as [E|E]; cbn [negb].
  - apply Hat in E as ->. iApply wp_ret. iApply ("H" with "[-H0] H0"). rewrite rep_tree. iFrame. done.
  - iApply (wp_set_parent with "Ht"); [tauto|]. iIntros "Ht". iApply ("H" with "[-H0] H0"). rewrite rep_tree.
    unfold sons. rewrite addr_relink. iFrame. done.
Qed.

(** ** [ast_list_concat] *)

Lemma wp_list_concat fuel tb ta Φ : seq_or_null tb → seq_or_null ta → (height ta < fuel)%nat →
  rep tb -∗ rep ta -∗
  (∀ t, ⌜seq_or_null t ∧ elements t = elements tb ++ elements ta⌝ -∗ rep t -∗ Φ (addr t)) -∗
  wp γ (ast_list_concat fuel (addr tb) (addr ta)) Φ.
Proof.
  iIntros (Hb Ha Hh) "Hb Ha H". unfold ast_list_concat.
  iDestruct (rep_addr with "Hb") as %Hab. iDestruct (rep_addr with "Ha") as %Haa.
  destruct Hb as [->|Hb]; [iApply wp_ret; by iApply ("H" $! ta with "[%] Ha")|].
  pose proof (list_not_null tb (proj1 Hb)) as Hbn. rewrite (proj2 (Z.eqb_neq _ _)) by tauto.
  destruct Ha as [->|Ha].
  { iApply wp_ret. iApply ("H" $! tb with "[%] Hb"). simpl. rewrite app_nil_r. split; [by right|done]. }
  pose proof (list_not_null ta (proj1 Ha)) as Han. rewrite (proj2 (Z.eqb_neq _ _)) by tauto.
  unfold ast_get_kind. iApply wp_bind. iApply (wp_tree_fld with "Hb"); [done|]. iIntros "Hb".
  iApply wp_bind. iApply (wp_tree_fld with "Ha"); [done|]. iIntros "Ha".
  fold (kind_of tb) (kind_of ta). rewrite (list_kind tb (proj1 Hb)), (list_kind ta (proj1 Ha)).
  rewrite decide_False by (intros [?|?]; done).
  iApply wp_bind. iApply (wp_list_head with "Ha"); [apply Ha|done|]. iIntros "Ha".
  iDestruct (rep_first with "Ha") as "[Hf Hplug]"; [apply Ha|].
  destruct (first_elements ta (proj1 Ha)) as (a & p & v & l & s1 & s2 & s3 & Hf & Hk & Hs1 & Hks1 & Hhd).
  pose proof (first_linked ta (proj1 Ha) _ (proj2 Ha)) as Hlf. rewrite Hf in *.
  iApply wp_bind. iApply (wp_set_son with "Hf Hb"). iIntros (w) "Hf _".
  set (f := Tree a p w l (relink a tb) s1 s2 s3). iApply wp_ret.
  assert (fits f (first ta)) as Hfit by by rewrite Hf.
  assert (seq f) as Hsf.
  { destruct Hlf as (_ & _ & H1 & H2 & H3).
    assert (parent_of s1 = a) as Hp1 by (destruct s1; simpl in *; naive_solver).
    assert (linked a (relink a tb)) as Hlb by (eapply relink_linked, Hb).
    split; [|by split]. split; [done|]. split; [done|]. split; [done|]. right.
    split; [by destruct tb; try done; apply (list_kind _ (proj1 Hb))|].
    split; [by destruct tb|]. split; [done|]. apply list_ok_relink, Hb. }
  destruct (plug_fits ta f (proj1 Ha) Hfit) as (Hn' & Ha' & _ & Hp').
  rewrite <-Ha'. iApply ("H" $! (plug ta f) with "[%] [Hplug Hf]").
  - split.
    + right. split; [by apply plug_ok; [apply Ha|apply Hsf|]|]. rewrite Hp'.
      apply plug_linked; [apply Ha|done|apply Hsf|apply Ha].
    + rewrite plug_elements by apply Ha. simpl. rewrite elements_relink, <-app_assoc. simpl. f_equal.
      destruct (elements ta); [done|]. simpl in *. congruence.
  - iApply ("Hplug" with "[%] Hf"). by rewrite <-Hf.
Qed.

(** ** [ast_list_split_head_tail] *)

Lemma rep_second t : seq t → child t 0 ≠ Null → rep t ⊢
  rep (second t) ∗ ∀ f, ⌜seq f ∧ fits f (second t)⌝ -∗ rep f -∗ rep (plug_second t f).
Proof.
  revert t. apply (long_list_induction (λ t, rep t ⊢ rep (second t) ∗
    ∀ f, ⌜seq f ∧ fits f (second t)⌝ -∗ rep f -∗ rep (plug_second t f))).
  - intros a p v l s0 s1 s2 s3 Hok Hc _. iIntros "Ht".
    pose proof (plug_second_base a p v l s0 s1 s2 s3) as Hb. rewrite (proj2 (Hb Null Hc)). iFrame.
    iIntros (f _) "Hf". by rewrite (proj1 (Hb f Hc)).
  - intros a p v l s0 s1 s2 s3 Hc Hs0 _ IH. iIntros "Ht".
    pose proof (plug_second_step a p v l s0 s1 s2 s3) as Hb. rewrite (proj2 (Hb Null Hc)).
    rewrite rep_tree. iDestruct "Ht" as "(% & Hn & H0 & Hr)". iDestruct (IH with "H0") as "[$ Hplug]".
    iIntros (f Hf) "Hf". rewrite (proj1 (Hb f Hc)).
    destruct (plug_second_seq s0 f Hs0 Hc (proj1 Hf) (proj2 Hf)) as ((_ & Ha & _) & _ & _).
    rewrite rep_tree. unfold sons. rewrite Ha. iFrame. iSplit; [done|]. by iApply "Hplug".
Qed.

(** The first node of a list of two elements or more is not the list. *)
Lemma first_apart t : seq t → child t 0 ≠ Null → rep t -∗ ⌜addr (first t) ≠ addr t⌝.
Proof.
  intros Ht Hc. destruct t as [|a p v l s0 s1 s2 s3|]; try done. simpl in Hc.
  pose proof Ht as [(_ & _ & _ & [?|(_ & _ & _ & Hok0)]) _]; [done|]. iIntros "Ht".
  assert (first (Tree a p v l s0 s1 s2 s3) = first s0) as -> by by destruct s0.
  rewrite rep_tree. iDestruct "Ht" as "(_ & [Ha _] & H0 & _)".
  iDestruct (rep_first with "H0") as "[Hf _]"; [done|].
  destruct (first_elements s0 Hok0) as (? & ? & ? & ? & ? & ? & ? & Hf & _). rewrite Hf.
  iDestruct (rep_open with "Hf") as "(_ & Hf & _)"; [done|]. simpl.
  iDestruct (points_to_ne with "Hf Ha") as %?. done.
Qed.

Lemma wp_list_split fuel t Φ : seq t → (height t < fuel)%nat →
  rep t -∗
  (∀ h tl, ⌜seq h ∧ seq_or_null tl ∧ elements h = take 1 (elements t) ∧ elements tl = drop 1 (elements t)⌝ -∗
    rep h -∗ rep tl -∗ Φ (addr h, addr tl)) -∗
  wp γ (ast_list_split_head_tail fuel (addr t)) Φ.
Proof.
  iIntros (Ht Hh) "Ht H". iDestruct (rep_addr with "Ht") as %Hat. pose proof (list_not_null t (proj1 Ht)) as Htn.
  unfold ast_list_split_head_tail. rewrite (proj2 (Z.eqb_neq _ _)) by tauto.
  iApply wp_bind. iApply (wp_list_head with "Ht"); [apply Ht|done|]. iIntros "Ht".
  destruct (decide (child t 0 = Null)) as [Hc|Hc].
  - assert (first t = t) as -> by (destruct t as [|? ? ? ? []|]; done). rewrite Z.eqb_refl. iApply wp_ret.
    iApply ("H" $! t Null with "[%] Ht []"); [|by unfold AstTree.rep].
    split; [done|]. split; [by left|]. destruct t as [|? ? ? ? []|]; done.
  - iDestruct (first_apart with "Ht") as %Hne; [done|done|]. rewrite (proj2 (Z.eqb_neq _ _) Hne).
    destruct (first_elements t (proj1 Ht)) as (a & p & v & l & s1 & s2 & s3 & Hf & Hk & Hs1 & Hks1 & Hhd).
    destruct (second_spec t Ht Hc) as (b & q & w & k & e1 & e2 & e3 & Hs & Hpb & Hkk & He1 & Hke & Hl1 & Hl2 & Hl3).
    iDestruct (rep_first with "Ht") as "[Hf Hplug]"; [apply Ht|].
    assert (first t ≠ Null) as Hfn by by rewrite Hf.
    iApply wp_bind. unfold ast_get_parent. iApply (wp_tree_fld with "Hf"); [done|]. iIntros "Hf".
    rewrite parent_of_node, Hpb by done.
    iDestruct ("Hplug" $! (first t) with "[%] Hf") as "Ht"; [done|].
    assert (plug t (first t) = t) as ->.
    { clear -Ht. destruct Ht as [Hok _]. induction Hok as [|? ? ? ? ? ? ? ? Hn Hok0 _ IH] using list_induction; [done|].
      destruct s0; try done. simpl in *. by rewrite IH. }
    iDestruct (rep_second with "Ht") as "[Hs Hplug]"; [done|done|]. rewrite Hs.
    iApply wp_bind. iApply (wp_set_son _ _ _ _ _ _ _ _ Null with "Hs []"); [by unfold AstTree.rep|].
    iIntros (w') "Hs Hf". cbn [relink].
    iApply wp_bind. iApply (wp_set_parent with "Hf"); [done|]. iIntros "Hf". iApply wp_ret.
    set (f := Tree b q w' k Null e1 e2 e3).
    assert (seq f) as Hsf.
    { split; [|by split]. split; [done|]. split; [done|]. split; [done|]. by left. }
    assert (fits f (second t)) as Hfit by by rewrite Hs.
    destruct (plug_second_seq t f Ht Hc Hsf Hfit) as ((_ & Ha & _) & Hsp & He).
    rewrite <-Ha. rewrite <-(addr_relink 0 (first t)). iApply ("H" $! (relink 0 (first t)) (plug_second t f) with "[%] Hf [Hs Hplug]").
    + split; [|split; [by right|]].
      * apply seq_relink. split; [rewrite Hf; simpl; auto|]. by apply (first_linked t (proj1 Ht) (parent_of t)), Ht.
      * rewrite elements_relink, Hf, He. simpl.
        pose proof (take_elements t Ht Hc) as H2. rewrite Hf, Hs in H2.
        destruct (elements t) as [|x [|y es]]; try done. simpl in H2. injection H2 as -> ->. done.
    + iApply ("Hplug" with "[%] Hs"). by rewrite <-Hs.
Qed.
End lists.
