(* ===== verification/AstFree.v ===== *)
(** * Freeing syntax trees

    [ast_free] on a tree whose nodes are all different: it frees every block of
    the tree, once, and nothing else. *)

From S2P Require Import Prelude Heap Ast AstNode AstTree AstCopy AstRead.
#[local] Open Scope Z_scope.
#[local] Unset SsrRewrite.

Definition block_key (x : Z) : list Z := if decide (x = 0) then [] else [x].

(** The blocks that are freed: nodes, arrays and the information of expressions *)
Fixpoint keys (t : tree) : list Z :=
  match t with
  | Null => []
  | Tree a _ v l s0 s1 s2 s3 => a :: block_key v ++ block_key (l_info l)
      ++ keys s0 ++ keys s1 ++ keys s2 ++ keys s3
  | Amb a _ v l alts => a :: block_key v ++ block_key (l_info l) ++ flat_map keys alts
  end.

Fixpoint infos (t : tree) : list Z :=
  match t with
  | Null => []
  | Tree _ _ _ l s0 s1 s2 s3 => block_key (l_info l) ++ infos s0 ++ infos s1 ++ infos s2 ++ infos s3
  | Amb _ _ _ l alts => block_key (l_info l) ++ flat_map infos alts
  end.

(** No node is being freed: parents are addresses of nodes, or null. *)
Fixpoint unmarked (t : tree) : Prop :=
  match t with
  | Null => True
  | Tree _ p _ _ s0 s1 s2 s3 => Z.testbit p 0 = false ∧ unmarked s0 ∧ unmarked s1 ∧ unmarked s2 ∧ unmarked s3
  | Amb _ p _ _ alts => Z.testbit p 0 = false ∧ fold_right (λ t P, unmarked t ∧ P) True alts
  end.

Definition freeable (m : gmap Z block) (t : tree) : Prop :=
  stored m t ∧ unmarked t ∧ NoDup (keys t) ∧ ∀ x, x ∈ infos t → is_Some (m !! x).

(** The memory without some blocks *)
Definition without (ks : list Z) (m m' : gmap Z block) : Prop :=
  ∀ k, m' !! k = if decide (k ∈ ks) then None else m !! k.

Lemma block_key_in x k : k ∈ block_key x ↔ k = x ∧ x ≠ 0.
Proof. unfold block_key. case_decide; rewrite ?elem_of_nil, ?list_elem_of_singleton; naive_solver. Qed.

Lemma without_nil m : without [] m m.
Proof. intros k. by rewrite decide_False by apply not_elem_of_nil. Qed.

Lemma without_app ks ks' m m' m'' : without ks m m' → without ks' m' m'' → without (ks ++ ks') m m''.
Proof.
  intros H H' k. rewrite H', H. destruct (decide (k ∈ ks ++ ks')) as [Hk|Hk]; rewrite elem_of_app in Hk;
    repeat case_decide; tauto.
Qed.

Lemma run_delete x m : x = 0 ∨ is_Some (m !! x) → ∃ m', DELETE x m = Ret (tt, m') ∧ without (block_key x) m m'.
Proof.
  intros Hx. unfold DELETE, block_key. destruct (Z.eqb_spec x 0) as [->|Hx0].
  - rewrite decide_True by done. exists m. split; [done|apply without_nil].
  - destruct Hx as [?|[b Hb]]; [done|]. rewrite decide_False by done. exists (delete x m). split.
    + unfold xfree. by rewrite Hb.
    + intros k. destruct (decide (k = x)) as [->|Hk].
      * rewrite lookup_delete_eq, decide_True; [done|by apply list_elem_of_singleton].
      * rewrite lookup_delete_ne by done. rewrite decide_False; [done|]. by rewrite list_elem_of_singleton.
Qed.

Lemma blocks_keys t kb : wf t → kb ∈ blocks t → kb.1 ∈ keys t.
Proof.
  revert kb. induction t as [|a p v l s0 s1 s2 s3 H0 H1 H2 H3|a p v l alts IH] using tree_induction; intros kb Hw Hkb.
  - by apply elem_of_nil in Hkb.
  - destruct Hw as (_ & _ & Hv & W0 & W1 & W2 & W3). simpl in *. rewrite !elem_of_cons, !elem_of_app in *.
    destruct Hkb as [->|[Hkb|Hkb]]; [by left| |naive_solver].
    right. left. rewrite block_key_in. destruct (Some <$> _); [by apply elem_of_nil in Hkb|].
    apply list_elem_of_singleton in Hkb as ->. done.
  - destruct Hw as (_ & _ & _ & _ & Hv & W). rewrite fold_right_forall in W. simpl in *.
    rewrite !elem_of_cons, !elem_of_app in *. destruct Hkb as [->|[Hkb|Hkb]]; [by left| |].
    + right. left. rewrite block_key_in. destruct (Some <$> _); [by apply elem_of_nil in Hkb|].
      apply list_elem_of_singleton in Hkb as ->. done.
    + right. right. right. apply list_elem_of_In, in_flat_map in Hkb as (t & Ht & Hkb).
      apply list_elem_of_In, in_flat_map. exists t. split; [done|]. apply list_elem_of_In.
      rewrite Forall_forall in IH. rewrite Forall_forall in W. apply list_elem_of_In in Ht, Hkb. by apply IH; [| apply W|].
Qed.

Lemma infos_keys t x : x ∈ infos t → x ∈ keys t.
Proof.
  induction t as [|a p v l s0 s1 s2 s3 H0 H1 H2 H3|a p v l alts IH] using tree_induction; [done| |]; simpl;
    rewrite !elem_of_cons, !elem_of_app.
  - naive_solver.
  - intros [?|Hx]; [tauto|]. right. right. right. apply list_elem_of_In, in_flat_map in Hx as (t & Ht & Hx).
    apply list_elem_of_In, in_flat_map. exists t. split; [done|]. apply list_elem_of_In.
    rewrite Forall_forall in IH. apply list_elem_of_In in Ht, Hx. by apply IH.
Qed.

(** A tree is still there when other blocks change or are gone. *)
Lemma freeable_same m m' t : freeable m t → (∀ k, k ∈ keys t → m' !! k = m !! k) → freeable m' t.
Proof.
  intros ([Hw Hb] & Hu & Hnd & Hi) Hm'. split; [split; [done|]|split; [done|split; [done|]]].
  - intros kb Hkb. rewrite Hm'; [by apply Hb|]. by apply blocks_keys.
  - intros x Hx. rewrite Hm'; [by apply Hi|]. by apply infos_keys.
Qed.

Lemma freeable_other m m' ks t : freeable m t → without ks m m' → (∀ k, k ∈ keys t → k ∉ ks) → freeable m' t.
Proof.
  intros Ht Hm' Hdis. apply (freeable_same m); [done|]. intros k Hk. rewrite (Hm' k), decide_False; [done|].
  by apply Hdis.
Qed.

(** The loop over the subtrees, which are read from the blocks of [keep]. *)
Lemma free_loop fuel (rd : Z → mem Z) (keep : list Z) (m : gmap Z block) ks subs :
  (∀ t m, t ∈ subs → freeable m t → ∃ m', ast_free fuel (addr t) m = Ret (tt, m') ∧ without (keys t) m m') →
  Forall2 (λ i t, ∀ m', (∀ k, k ∈ keep → m' !! k = m !! k) → rd i m' = Ret (addr t, m')) ks subs →
  ∀ m1, (∀ k, k ∈ keep → m1 !! k = m !! k) →
  Forall (freeable m1) subs → NoDup (flat_map keys subs) → (∀ k, k ∈ keep → k ∉ flat_map keys subs) →
  ∃ m', for_all (λ i, x ← rd i; ast_free fuel x) ks m1 = Ret (tt, m') ∧ without (flat_map keys subs) m1 m'.
Proof.
  intros IH Hrd. revert IH.
  induction Hrd as [|i t ks subs Hi Hrd IHl]; intros IH m1 Hm1 Hf Hnd Hk; simpl.
  - exists m1. split; [done|apply without_nil].
  - apply Forall_cons in Hf as [Ht Hf]. simpl in Hnd. apply NoDup_app in Hnd as (_ & Hdis & Hnd).
    destruct (IH t m1) as (m2 & Hrun & Hw); [by left|done|].
    erewrite run_bind by (erewrite run_bind by (by apply Hi); exact Hrun).
    destruct (IHl) with (m1 := m2) as (m3 & Hrun' & Hw').
    + intros s m' Hs. apply IH. by right.
    + intros k Hkk. rewrite (Hw k), decide_False; [by apply Hm1|]. intros Hin. apply (Hk k Hkk). simpl. set_solver.
    + apply Forall_forall. intros s Hs. rewrite Forall_forall in Hf. eapply freeable_other; [by apply Hf|exact Hw|].
      intros k Hks Hkt. apply (Hdis k Hkt). apply list_elem_of_In, in_flat_map. exists s.
      rewrite <-!list_elem_of_In. done.
    + done.
    + intros k Hkk Hin. apply (Hk k Hkk). simpl. set_solver.
    + exists m3. split; [done|]. by eapply without_app.
Qed.

Section node.
Context (fuel : nat) (a : Z) (n : AST_tag) (subs : list tree) (m : gmap Z block).
Context (Ha0 : a ≠ 0).
Context (Hnd : NoDup (a :: block_key (children n) ++ block_key (expr_info n) ++ flat_map keys subs)).
Context (Hv : children n = 0 ∨ is_Some (m !! children n)).
Context (Hx : expr_info n = 0 ∨ is_Some (m !! expr_info n)).
Context (Hsubs : Forall (freeable m) subs).
Context (IH : ∀ t m, t ∈ subs → freeable m t →
  ∃ m', ast_free fuel (addr t) m = Ret (tt, m') ∧ without (keys t) m m').

Definition marked : AST_tag := set_parent (Z.lor (parent n) 1) n.

(** The blocks of the node, and those of its subtrees *)
Lemma node_apart : a ∉ flat_map keys subs ∧ NoDup (flat_map keys subs)
  ∧ (∀ k, k = children n ∨ k = expr_info n → k ≠ 0 → k ≠ a ∧ k ∉ flat_map keys subs)
  ∧ (children n = expr_info n → children n = 0).
Proof.
  apply NoDup_cons in Hnd as [Ha Hnd']. rewrite !elem_of_app in Ha.
  apply NoDup_app in Hnd' as (_ & Hd1 & Hnd'). apply NoDup_app in Hnd' as (_ & Hd2 & Hnd').
  split; [tauto|]. split; [done|]. split.
  - intros k Hk Hk0. split.
    + intros ->. destruct Hk as [Hk|Hk]; apply Ha; rewrite !block_key_in; [left|right; left]; by rewrite <-Hk.
    + destruct Hk as [->| ->].
      * intros H. apply (Hd1 (children n)); [by apply block_key_in|]. apply elem_of_app. by right.
      * by apply Hd2, block_key_in.
  - intros He. destruct (decide (children n = 0)) as [?|H0]; [done|]. exfalso.
    apply (Hd1 (children n)); [by apply block_key_in|]. apply elem_of_app. left. apply block_key_in. by rewrite <-He.
Qed.

Lemma free_node (rd : Z → mem Z) ks :
  Forall2 (λ i t, ∀ m', m' !! a = Some (Node marked) →
    (children n ≠ 0 → m' !! children n = m !! children n) → rd i m' = Ret (addr t, m')) ks subs →
  ∃ m', (for_all (λ i, x ← rd i; ast_free fuel x) ks;;
         x ← fld expr_info a; DELETE x;; v ← fld children a; DELETE v;; DELETE a)
        (<[a := Node marked]> m) = Ret (tt, m')
    ∧ without (a :: block_key (children n) ++ block_key (expr_info n) ++ flat_map keys subs) m m'.
Proof.
  intros Hrd. destruct node_apart as (Ha & Hnds & Hout & Hvx).
  set (m1 := <[a := Node marked]> m).
  assert (Hm1a : m1 !! a = Some (Node marked)) by apply lookup_insert_eq.
  assert (Hm1 : ∀ k, k ≠ a → m1 !! k = m !! k) by (intros k Hk; by apply lookup_insert_ne).
  destruct (free_loop fuel rd (a :: block_key (children n)) m1 ks subs IH) with (m1 := m1) as (m2 & Hloop & Hw2).
  - eapply Forall2_impl; [exact Hrd|]. intros i t Hi m' Hm'. apply Hi.
    + rewrite Hm' by (by left). done.
    + intros Hc. destruct (Hout (children n) (or_introl eq_refl) Hc) as [Hca _].
      rewrite Hm' by (right; by apply block_key_in). by apply Hm1.
  - done.
  - apply Forall_forall. intros t Ht. rewrite Forall_forall in Hsubs. apply (freeable_same m); [by apply Hsubs|].
    intros k Hk. apply Hm1. intros ->. apply Ha. apply list_elem_of_In, in_flat_map. exists t.
    by rewrite <-!list_elem_of_In.
  - done.
  - intros k [->|Hk]%elem_of_cons; [done|]. apply block_key_in in Hk as [-> Hk].
    by apply (Hout (children n) (or_introl eq_refl)).
  - assert (Hm2a : m2 !! a = Some (Node marked)) by (by rewrite (Hw2 a), decide_False).
    erewrite run_bind by exact Hloop. erewrite run_bind by (by apply (run_fld expr_info)).
    destruct (run_delete (expr_info n) m2) as (m3 & Hd3 & Hw3).
    { destruct Hx as [?|Hx']; [by left|]. destruct (decide (expr_info n = 0)) as [?|H0]; [by left|right].
      destruct (Hout (expr_info n) (or_intror eq_refl) H0) as [? ?].
      by rewrite (Hw2 _), decide_False, Hm1. }
    erewrite run_bind by exact Hd3.
    assert (Hm3a : m3 !! a = Some (Node marked)).
    { rewrite (Hw3 a), decide_False; [done|]. rewrite block_key_in. intros [He H0].
      by destruct (Hout a (or_intror He) ltac:(congruence)). }
    erewrite run_bind by (by apply (run_fld children)).
    destruct (run_delete (children n) m3) as (m4 & Hd4 & Hw4).
    { destruct Hv as [?|Hv']; [by left|]. destruct (decide (children n = 0)) as [?|H0]; [by left|right].
      destruct (Hout (children n) (or_introl eq_refl) H0) as [? ?].
      rewrite (Hw3 _), decide_False, (Hw2 _), decide_False, Hm1; [done..|]. rewrite block_key_in.
      intros [He _]. apply H0, Hvx. congruence. }
    erewrite run_bind by exact Hd4.
    assert (Hm4a : m4 !! a = Some (Node marked)).
    { rewrite (Hw4 a), decide_False; [done|]. rewrite block_key_in. intros [He H0].
      by destruct (Hout a (or_introl He) ltac:(congruence)). }
    destruct (run_delete a m4) as (m5 & Hd5 & Hw5); [right; eauto|]. exists m5. split; [done|].
    pose proof (without_app _ _ _ _ _ (without_app _ _ _ _ _ (without_app _ _ _ _ _ Hw2 Hw3) Hw4) Hw5) as Hw.
    assert (block_key a = [a]) as Hba by (unfold block_key; by rewrite decide_False). rewrite Hba in Hw.
    intros k. rewrite (Hw k).
    destruct (decide (k = a)) as [->|Hk].
    + rewrite !decide_True; [done|by left|]. rewrite !elem_of_app. right. by left.
    + rewrite Hm1 by done. apply decide_ext. rewrite !elem_of_app, !elem_of_cons, !elem_of_app, elem_of_nil. tauto.
Qed.
End node.

Lemma freeable_sub ts t : NoDup (flat_map keys ts) → t ∈ ts → NoDup (keys t).
Proof.
  intros Hnd Ht. apply list_elem_of_split in Ht as (l1 & l2 & ->).
  rewrite flat_map_app in Hnd. apply NoDup_app in Hnd as (_ & _ & Hnd). simpl in Hnd.
  by apply NoDup_app in Hnd as (Hnd & _ & _).
Qed.

Lemma run_free fuel : ∀ t m, freeable m t → (height t < fuel)%nat →
  ∃ m', ast_free fuel (addr t) m = Ret (tt, m') ∧ without (keys t) m m'.
Proof.
  induction fuel as [|fuel IH]; intros t m Hf Hh; [lia|]. pose proof Hf as (Hst & Hu & Hnd & Hi).
  pose proof Hst as [Hw Hb]. cbn [ast_free].
  destruct (decide (t = Null)) as [->|Ht]; [exists m; split; [done|apply without_nil]|].
  rewrite (proj2 (Z.eqb_neq _ _)) by (by rewrite (stored_addr m t Hst)).
  pose proof (stored_node m t Hst Ht) as Hn. pose proof (stored_addr m t Hst) as Ha.
  assert (Ha0 : addr t ≠ 0) by tauto.
  assert (Hp : Z.testbit (parent (node_of t)) 0 = false) by (destruct t; [done|apply Hu..]).
  erewrite run_bind by (by apply (run_fld parent)). rewrite Hp.
  erewrite run_bind by (by apply run_upd). fold (marked (node_of t)).
  set (m1 := <[addr t := Node (marked (node_of t))]> m).
  assert (Hm1 : m1 !! addr t = Some (Node (marked (node_of t)))) by apply lookup_insert_eq.
  erewrite run_bind by (by apply (run_fld node_type)).
  destruct t as [|a p v l s0 s1 s2 s3|a p v l alts]; [done| |].
  - simpl in Hw. destruct Hw as (_ & Hk & Hv & W0 & W1 & W2 & W3). rewrite decide_False by done.
    destruct (free_node fuel a (node_of (Tree a p v l s0 s1 s2 s3)) [s0; s1; s2; s3] m) with
      (rd := ast_get_child a) (ks := [0; 1; 2; 3]) as (m' & Hrun & Hwo).
    + exact Ha0.
    + simpl. simpl in Hnd. by rewrite app_nil_r.
    + simpl. destruct (present (sons s0 s1 s2 s3)) eqn:E; [by left|right].
      exists (Vec (Some <$> present (sons s0 s1 s2 s3))). apply (Hb (v, Vec _)). simpl. right.
      apply elem_of_app. left. fold (sons s0 s1 s2 s3). rewrite E. by left.
    + simpl. destruct (decide (l_info l = 0)) as [?|H0]; [by left|right]. apply Hi. simpl.
      apply elem_of_app. left. by apply block_key_in.
    + simpl in Hnd, Hu. assert (Hnds : NoDup (flat_map keys [s0; s1; s2; s3])).
      { apply NoDup_cons in Hnd as [_ Hnd]. apply NoDup_app in Hnd as (_ & _ & Hnd).
        apply NoDup_app in Hnd as (_ & _ & Hnd). simpl. by rewrite app_nil_r. }
      assert (Hsub : ∀ s, s ∈ [s0; s1; s2; s3] → stored m s → unmarked s →
        (∀ x, x ∈ infos s → is_Some (m !! x)) → freeable m s).
      { intros s Hs ? ? ?. split; [done|]. split; [done|]. split; [by eapply freeable_sub|done]. }
      destruct Hu as (_ & U0 & U1 & U2 & U3). simpl in Hi.
      repeat (apply Forall_cons; split); [..|by apply Forall_nil].
      * apply Hsub; [set_solver|exact (stored_child m (Tree a p v l s0 s1 s2 s3) 0 Hst)|done|set_solver].
      * apply Hsub; [set_solver|exact (stored_child m (Tree a p v l s0 s1 s2 s3) 1 Hst)|done|set_solver].
      * apply Hsub; [set_solver|exact (stored_child m (Tree a p v l s0 s1 s2 s3) 2 Hst)|done|set_solver].
      * apply Hsub; [set_solver|exact (stored_child m (Tree a p v l s0 s1 s2 s3) 3 Hst)|done|set_solver].
    + intros s m' Hs Hfs. apply IH; [done|]. simpl in Hh.
      assert (height s ≤ height s0 `max` height s1 `max` (height s2 `max` height s3))%nat; [|lia].
      rewrite !elem_of_cons, elem_of_nil in Hs. destruct Hs as [->|[->|[->|[->|[]]]]]; lia.
    + assert (Hrd : ∀ i m', (i < 4)%nat → m' !! a = Some (Node (marked (node_of (Tree a p v l s0 s1 s2 s3)))) →
        (v ≠ 0 → m' !! v = m !! v) → ast_get_child a (Z.of_nat i) m' = Ret (son (sons s0 s1 s2 s3) i, m')).
      { intros i m' Hi4 Hma Hmv. eapply run_get_child; [exact Hma|done|]. intros Hpr. simpl.
        rewrite Hmv.
        - apply (Hb (v, Vec _)). simpl. right. apply elem_of_app. left. fold (sons s0 s1 s2 s3).
          destruct (present _); [done|]. by left.
        - intros ->. by destruct (present (sons s0 s1 s2 s3)). }
      repeat constructor; intros m' Hma Hmv.
      * apply (Hrd 0%nat); [lia|done|done].
      * apply (Hrd 1%nat); [lia|done|done].
      * apply (Hrd 2%nat); [lia|done|done].
      * apply (Hrd 3%nat); [lia|done|done].
    + exists m'. split; [exact Hrun|]. simpl in Hwo. by rewrite app_nil_r in Hwo.
  - simpl in Hw. destruct Hw as (_ & Hk & Hnum & Hne & Hv & W). rewrite fold_right_forall in W.
    rewrite decide_True by done.
    simpl in Hu. destruct Hu as [_ Hu]. rewrite fold_right_forall in Hu.
    assert (Hvec : m !! v = Some (Vec (Some <$> map addr alts))).
    { apply (Hb (v, Vec _)). simpl. right. apply elem_of_app. left. destruct alts; [done|]. by left. }
    assert (Hnds : NoDup (flat_map keys alts)).
    { simpl in Hnd. apply NoDup_cons in Hnd as [_ Hnd]. apply NoDup_app in Hnd as (_ & _ & Hnd).
      by apply NoDup_app in Hnd as (_ & _ & Hnd). }
    assert (Hnumr : ast_get_num_ambiguities a m1 = Ret (Z.of_nat (length alts), m1)).
    { unfold ast_get_num_ambiguities. erewrite run_bind by (by apply (run_fld num_ambig)). simpl. by rewrite Hnum. }
    destruct (free_node fuel a (node_of (Amb a p v l alts)) alts m) with
      (rd := ast_get_ambiguity a) (ks := seqZ 0 (Z.of_nat (length alts))) as (m' & Hrun & Hwo).
    + exact Ha0.
    + exact Hnd.
    + right. eauto.
    + simpl. destruct (decide (l_info l = 0)) as [?|H0]; [by left|right]. apply Hi. simpl.
      apply elem_of_app. left. by apply block_key_in.
    + apply Forall_forall. intros s Hs. rewrite Forall_forall in W. rewrite Forall_forall in Hu.
      split; [split; [by apply W|]|split; [by apply Hu|split; [by eapply freeable_sub|]]].
      * intros kb Hkb. apply Hb. simpl. right. apply elem_of_app. right.
        apply list_elem_of_In, in_flat_map. exists s. by rewrite <-!list_elem_of_In.
      * intros x Hx. apply Hi. simpl. apply elem_of_app. right.
        apply list_elem_of_In, in_flat_map. exists s. by rewrite <-!list_elem_of_In.
    + intros s m' Hs Hfs. apply IH; [done|]. simpl in Hh.
      pose proof (proj1 (list_max_le (map height alts) (list_max (map height alts))) (Nat.le_refl _)) as Hm.
      rewrite List.Forall_forall in Hm. apply list_elem_of_In in Hs.
      specialize (Hm (height s) (in_map height _ _ Hs)). lia.
    + apply Forall2_same_length_lookup. split; [by rewrite length_seqZ, Nat2Z.id|].
      intros i k s Hk' Hs m' Hma Hmv. apply lookup_seqZ in Hk' as [-> Hi']. rewrite Z.add_0_l.
      unfold ast_get_ambiguity. erewrite run_bind by (by apply (run_fld children)).
      eapply run_vec_get; [etrans; [apply Hmv|exact Hvec]|].
      * simpl. intros ->. destruct alts; done.
      * rewrite list_lookup_fmap. change (map addr alts) with (addr <$> alts). by rewrite list_lookup_fmap, Hs.
    + exists m'. split; [|done]. rewrite run_bind_assoc. erewrite run_bind by exact Hnumr. exact Hrun.
Qed.
