(* ===== verification/AstAmbig.v ===== *)
(** * Ambiguities

    [ast_replace_with_ambiguity] puts one of the interpretations in the place of
    the ambiguous node. *)

From S2P Require Import Prelude Heap Ast AstNode AstTree AstCopy AstRead.
#[local] Open Scope Z_scope.
#[local] Unset SsrRewrite.

(** Children point to their parents, up to the ambiguous nodes. *)
Fixpoint linked_above (p : Z) (t : tree) : Prop :=
  match t with
  | Null => True
  | Tree a p' _ _ s0 s1 s2 s3 =>
      p' = p ∧ linked_above a s0 ∧ linked_above a s1 ∧ linked_above a s2 ∧ linked_above a s3
  | Amb _ p' _ _ _ => p' = p
  end.

(** What [ast_fix_parents_inside_intepretation] makes of a tree *)
Fixpoint relink_all (t : tree) : tree :=
  match t with
  | Tree a p v l s0 s1 s2 s3 => Tree a p v l (relink a (relink_all s0)) (relink a (relink_all s1))
      (relink a (relink_all s2)) (relink a (relink_all s3))
  | _ => t
  end.

Lemma relink_all_relink p t : relink_all (relink p t) = relink p (relink_all t).
Proof. by destruct t. Qed.

Lemma relink_all_addr t : addr (relink_all t) = addr t.
Proof. by destruct t. Qed.

Lemma relink_all_contents t : contents (relink_all t) = contents t.
Proof.
  induction t as [|a p v l s0 s1 s2 s3 H0 H1 H2 H3|] using tree_induction; [done| |done]. simpl.
  by rewrite !contents_relink, H0, H1, H2, H3.
Qed.

Lemma relink_above t : ∀ p, linked_above p (relink p (relink_all t)).
Proof.
  induction t as [|a q v l s0 s1 s2 s3 H0 H1 H2 H3|a q v l alts _] using tree_induction; intros p; simpl; try done.
Qed.

Lemma height_relink p t : height (relink p t) = height t.
Proof. by destruct t. Qed.

(** The chosen interpretation at the address of the ambiguous node *)
Definition move_to (a p : Z) (t : tree) : tree :=
  match t with
  | Null => Null
  | Tree _ _ v l s0 s1 s2 s3 => Tree a p v l s0 s1 s2 s3
  | Amb _ _ v l alts => Amb a p v l alts
  end.

Section ambiguities.
Context `{!ghost_mapG Σ Z block} (γ : gname).
Notation "p ↦ b" := (p ↪[γ] b)%I (at level 20, b at level 30).
Notation rep := (rep γ).

Definition fixes (fuel : nat) : Prop := ∀ t Φ, (height t < fuel)%nat →
  rep t -∗ (rep (relink_all t) -∗ Φ tt) -∗ wp γ (ast_fix_parents_inside_intepretation fuel (addr t)) Φ.

Lemma wp_fix_child fuel a p v l xs j s Φ : fixes fuel → (height s < fuel)%nat → son xs j = addr s →
  node_rep γ a p v l xs -∗ rep s -∗
  (node_rep γ a p v l xs -∗ rep (relink a (relink_all s)) -∗ Φ tt) -∗
  wp γ (c ← ast_get_child a (Z.of_nat j);
        if c =? 0 then mret tt
        else ast_set_parent c a;; ast_fix_parents_inside_intepretation fuel c) Φ.
Proof.
  iIntros (Hf Hh Hs) "Hn Hs H". iDestruct (rep_addr with "Hs") as %Ha.
  iApply wp_bind. iApply (wp_get_child with "Hn"). iIntros "Hn". rewrite Hs.
  destruct (Z.eqb_spec (addr s) 0) as [E|E].
  - apply Ha in E as ->. iApply wp_ret. iApply ("H" with "Hn Hs").
  - iApply wp_bind. iApply (wp_set_parent with "Hs"); [tauto|]. iIntros "Hs".
    rewrite <-(addr_relink a s) at 1. iApply (Hf with "Hs"); [by rewrite height_relink|]. iIntros "Hs".
    rewrite relink_all_relink. iApply ("H" with "Hn Hs").
Qed.

Lemma wp_fix fuel : fixes fuel.
Proof.
  induction fuel as [|fuel IH]; intros t Φ Hh; [lia|]. iIntros "Ht H".
  iDestruct (rep_addr with "Ht") as %Ha. cbn [ast_fix_parents_inside_intepretation].
  destruct (Z.eqb_spec (addr t) 0) as [E|E].
  { apply Ha in E as ->. iApply wp_ret. by iApply "H". }
  assert (t ≠ Null) as Ht by tauto. iApply wp_bind. unfold ast_get_kind.
  iApply (wp_tree_fld with "Ht"); [done|]. iIntros "Ht".
  destruct t as [|a p v l s0 s1 s2 s3|a p v l alts]; [done| |].
  - rewrite rep_tree. iDestruct "Ht" as "([%Ha' %Hk] & Hn & H0 & H1 & H2 & H3)".
    rewrite decide_False by done. cbn [for_all addr].
    iApply wp_bind. iApply (wp_fix_child fuel _ _ _ _ _ 0 s0 with "Hn H0"); [done|simpl in Hh; lia|done|].
    iIntros "Hn H0".
    iApply wp_bind. iApply (wp_fix_child fuel _ _ _ _ _ 1 s1 with "Hn H1"); [done|simpl in Hh; lia|done|].
    iIntros "Hn H1".
    iApply wp_bind. iApply (wp_fix_child fuel _ _ _ _ _ 2 s2 with "Hn H2"); [done|simpl in Hh; lia|done|].
    iIntros "Hn H2".
    iApply wp_bind. iApply (wp_fix_child fuel _ _ _ _ _ 3 s3 with "Hn H3"); [done|simpl in Hh; lia|done|].
    iIntros "Hn H3". iApply wp_ret. iApply "H". cbn [relink_all]. rewrite rep_tree.
    unfold sons. rewrite !addr_relink, !relink_all_addr. iFrame. done.
  - rewrite rep_amb. iDestruct "Ht" as "(%Hp & Ht)". rewrite decide_True by tauto.
    iApply wp_ret. iApply "H". cbn [relink_all]. rewrite rep_amb. by iFrame.
Qed.

Lemma wp_replace_with_ambiguity fuel a p v l alts i t Φ : alts !! i = Some t → t ≠ Null → (height t < fuel)%nat →
  rep (Amb a p v l alts) -∗ (rep (relink_all (move_to a p t)) -∗ Φ tt) -∗
  wp γ (ast_replace_with_ambiguity fuel a (Z.of_nat i)) Φ.
Proof.
  iIntros (Hi Ht Hh) "Ha H". rewrite rep_amb.
  iDestruct "Ha" as "((%Ha & %Hk & %Hnum & %Hne) & [Ha Hv] & Hts)".
  pose proof (lookup_lt_Some _ _ _ Hi) as Hlen.
  unfold ast_replace_with_ambiguity, ast_get_num_ambiguities, condition, ast_get_parent, ast_get_ambiguity, ast_replace.
  asteps. cbn [num_ambig mk_node]. rewrite Hnum. cbn [get]. asteps.
  rewrite (proj2 (Z.leb_gt _ _)) by lia. asteps. rewrite (proj2 (Z.ltb_ge _ _)) by lia. asteps.
  simpl children. simpl parent. iApply wp_bind. iApply (wp_get with "Hv").
  { rewrite list_lookup_fmap. change (map addr alts) with (addr <$> alts). by rewrite list_lookup_fmap, Hi. }
  iIntros "_". iDestruct (big_sepL_lookup _ _ i t with "Hts") as "Ht"; [done|].
  assert (wp γ (ast_fix_parents_inside_intepretation fuel (addr (move_to a p t))) Φ
    ⊢ wp γ (ast_fix_parents_inside_intepretation fuel a) Φ) as Hfix by by destruct t.
  destruct t as [|b q w k s0 s1 s2 s3|b q w k alts']; [done| |]; cbn [addr].
  - rewrite rep_tree. iDestruct "Ht" as "([%Hb %Hkb] & [Hb Hw] & Hs)". asteps. unfold ast_set_parent. astep.
    iApply Hfix. iApply (wp_fix with "[Ha Hw Hs]"); [done| |iExact "H"]. cbn [move_to]. rewrite rep_tree.
    by iFrame.
  - rewrite rep_amb. iDestruct "Ht" as "(%Hb & [Hb Hw] & Hs)". asteps. unfold ast_set_parent. astep.
    iApply Hfix. iApply (wp_fix with "[Ha Hw Hs]"); [done| |iExact "H"]. cbn [move_to]. rewrite rep_amb.
    iFrame. iPureIntro. tauto.
Qed.
End ambiguities.
