(* ===== verification/AstIter.v ===== *)
(** * The loop over a list of syntax trees

    [for_each_element] goes from the innermost node of a list to the outermost
    one through the parents; the elements are their sons 1. *)

From S2P Require Import Prelude Heap Ast AstNode AstTree AstCopy AstRead AstList.
#[local] Open Scope Z_scope.
#[local] Unset SsrRewrite.

(** The elements that the body of the loop finds in [ASTSon1(iter)] *)
Fixpoint sons1 (iters : list Z) : mem (list Z) :=
  match iters with
  | [] => mret []
  | iter :: iters' => e ← ast_get_child iter 1; es ← sons1 iters'; mret (e :: es)
  end.

(** The nodes of a list, in the order of the elements *)
Fixpoint spine (t : tree) : list Z :=
  match t with Tree a _ _ _ s0 _ _ _ => spine s0 ++ [a] | _ => [] end.

Lemma stored_tree_addr m a p v l s0 s1 s2 s3 : stored m (Tree a p v l s0 s1 s2 s3) → a ≠ 0.
Proof. intros Hm Ha. by apply (stored_addr m _ Hm) in Ha. Qed.

Lemma first_step a p v l s0 s1 s2 s3 : s0 ≠ Null → first (Tree a p v l s0 s1 s2 s3) = first s0.
Proof. by destruct s0. Qed.

Lemma run_first_node fuel m : ∀ t, stored m t → list_ok t → (height t < fuel)%nat →
  first_node fuel (addr t) m = Ret (addr (first t), m).
Proof.
  induction fuel as [|fuel IH]; intros t Hm Hok Hh; [lia|]. cbn [first_node].
  pose proof (list_not_null t Hok) as Ht.
  erewrite run_bind by (by apply (run_child m t 0); [..|lia]).
  pose proof (stored_child m t 0 Hm) as Hm0. pose proof (stored_addr m _ Hm0) as Ha.
  destruct (Z.eqb_spec (addr (child t 0)) 0) as [E|E].
  - apply Ha in E. destruct t as [|a p v l s0 s1 s2 s3|]; try done. simpl in E. by rewrite E.
  - destruct (list_ok_son t Hok) as [E'|Hok0]; [by rewrite E' in E|].
    rewrite IH; [|done|done|pose proof (child_height t 0 Ht); lia].
    destruct t as [|a p v l s0 s1 s2 s3|]; try done. rewrite first_step; [done|by intros ->].
Qed.


Lemma list_skeleton t : list_ok t → length (elements (skeleton t)) = length (elements t).
Proof.
  induction 1 as [a p v l s1 s2 s3 H|a p v l s0 s1 s2 s3 Hn Hok0 _ IH] using list_induction; simpl; [done|].
  by rewrite !length_app, IH.
Qed.

(** The rest of the loop after the nodes of a part [t] of the list *)
Lemma run_range m lst N t : (∀ s, stored m s → list_ok s → addr s = lst → length (elements s) = N) →
  list_ok t → stored m t → (length (elements t) ≤ N)%nat → ∀ fuel rest,
  for_each_element_in_range fuel (if addr t =? lst then 0 else parent_of t) lst m = Ret (rest, m) →
  for_each_element_in_range (length (elements t) + fuel) (addr (first t)) lst m = Ret (spine t ++ rest, m).
Proof.
  intros HN. induction 1 as [a p v l s1 s2 s3 Hok|a p v l s0 s1 s2 s3 Hn Hok0 Hok IH] using list_induction;
    intros Hm Hlen fuel rest Hrest.
  - simpl in Hrest |- *. rewrite (proj2 (Z.eqb_neq a 0)) by (by eapply stored_tree_addr).
    destruct (Z.eqb_spec a lst) as [E|E]; cbn [negb].
    + erewrite run_bind by reflexivity. by erewrite run_bind by exact Hrest.
    + erewrite run_bind by (by apply (run_parent m (Tree a p v l _ s1 s2 s3) Hm)). by erewrite run_bind by exact Hrest.
  - rewrite first_step by done. pose proof (stored_child m _ 0 Hm) as Hm0. simpl in Hm0.
    simpl in Hlen |- *. rewrite length_app in Hlen |- *. simpl in Hlen |- *.
    replace (length (elements s0) + 1 + fuel)%nat with (length (elements s0) + S fuel)%nat by lia.
    rewrite <-app_assoc. apply IH; [done|lia|].
    rewrite (proj2 (Z.eqb_neq _ lst)) by (intros E; specialize (HN s0 Hm0 Hok0 E); lia).
    destruct Hok as (_ & _ & _ & [?|(_ & -> & _)]); [done|]. cbn [for_each_element_in_range].
    rewrite (proj2 (Z.eqb_neq a 0)) by (by eapply stored_tree_addr). simpl in Hrest.
    destruct (Z.eqb_spec a lst) as [E|E]; cbn [negb].
    + erewrite run_bind by reflexivity. by erewrite run_bind by exact Hrest.
    + erewrite run_bind by (by apply (run_parent m (Tree a p v l _ s1 s2 s3) Hm)). by erewrite run_bind by exact Hrest.
Qed.

Lemma run_sons1 m t : list_ok t → stored m t → ∀ rest es, sons1 rest m = Ret (es, m) →
  sons1 (spine t ++ rest) m = Ret (map addr (elements t) ++ es, m).
Proof.
  induction 1 as [a p v l s1 s2 s3 Hok|a p v l s0 s1 s2 s3 Hn Hok0 Hok IH] using list_induction;
    intros Hm rest es Hes; simpl.
  - erewrite run_bind by (apply (run_child m (Tree a p v l _ s1 s2 s3) 1 Hm); [done|lia]). by erewrite run_bind by exact Hes.
  - rewrite map_app, <-!app_assoc. apply IH; [by apply (stored_child m _ 0 Hm)|]. simpl.
    erewrite run_bind by (apply (run_child m (Tree a p v l _ s1 s2 s3) 1 Hm); [done|lia]). by erewrite run_bind by exact Hes.
Qed.


Lemma list_height t : list_ok t → (length (elements t) ≤ height t)%nat.
Proof.
  induction 1 as [a p v l s1 s2 s3 H|a p v l s0 s1 s2 s3 Hn Hok0 _ IH] using list_induction; simpl; [lia|].
  rewrite length_app. simpl. lia.
Qed.

Lemma range_more fuel lst m : ∀ fuel' iter r, (fuel ≤ fuel')%nat →
  for_each_element_in_range fuel iter lst m = Ret r → for_each_element_in_range fuel' iter lst m = Ret r.
Proof.
  induction fuel as [|fuel IH]; intros fuel' iter r Hf H; [done|].
  destruct fuel' as [|fuel']; [lia|]. cbn [for_each_element_in_range] in *.
  destruct (iter =? 0); [done|].
  destruct ((if negb (iter =? lst) then ast_get_parent iter else mret 0) m) as [[next m1]|e] eqn:E.
  2: { unfold mbind, M_bind in H. by rewrite E in H. }
  assert (m1 = m) as ->.
  { destruct (negb _); [|by injection E]. unfold ast_get_parent, fld, node, ld, lift, mbind, M_bind in E. simpl in E.
    by destruct (m !! iter) as [[]|]; simpl in E; try done; injection E. }
  erewrite run_bind in H by exact E. erewrite run_bind by exact E.
  destruct (for_each_element_in_range fuel next lst m) as [[rest m2]|] eqn:E2.
  - erewrite run_bind in H by exact E2. by erewrite run_bind by (apply IH; [lia|exact E2]).
  - unfold mbind, M_bind in H. by rewrite E2 in H.
Qed.

Lemma run_for_each fuel m t : stored m t → list_ok t → (height t < fuel)%nat →
  for_each_element fuel (addr t) m = Ret (spine t, m).
Proof.
  intros Hm Hok Hh. unfold for_each_element. erewrite run_bind by (by apply run_first_node).
  apply (range_more (length (elements t) + 1)); [pose proof (list_height t Hok); lia|].
  rewrite <-(app_nil_r (spine t)). apply (run_range m (addr t) (length (elements t))).
  - intros s Hs Hoks E. rewrite <-(list_skeleton s Hoks), <-(list_skeleton t Hok). by rewrite (stored_same m s t Hs Hm E).
  - done.
  - done.
  - done.
  - by rewrite Z.eqb_refl.
Qed.
