(* ===== verification/AstProps.v ===== *)
(** * Properties of syntax trees

    What copying, comparing, checking, freeing, concatenating and splitting
    trees do to a memory, with examples.  [stored m t] says that the memory [m]
    has the blocks of the tree [t]; [holds] says that they are different ones. *)

From S2P Require Import Prelude Heap Ast AstNode AstTree AstCopy AstRead AstList AstFree AstAmbig AstIter.
#[local] Open Scope Z_scope.
#[local] Unset SsrRewrite.

(** ** Examples *)

Definition memory_of (l : list (Z * block)) : gmap Z block := list_to_map l.

Lemma memory_holds l : NoDup l.*1 → holds (memory_of l) l.
Proof.
  intros Hnd. split; [done|]. intros [k b] Hkb. simpl. by apply elem_of_list_to_map_1.
Qed.

Definition leaf_label (n : Z) (tx : string) : label := Label (AST_kind n) 100 (Some tx) None 0.
Definition list_label (tx : string) : label := Label AST_NODE_LIST 100 (Some tx) None 0.

Definition leaf (a p : Z) (tx : string) : tree := Tree a p 0 (leaf_label 7 tx) Null Null Null Null.

(** The sequences [x, y] and [z], as the parser builds them *)
Definition xy : tree :=
  Tree 2 0 4 (list_label "y") (Tree 6 2 8 (list_label "x") Null (leaf 10 6 "x") Null Null)
    (leaf 12 2 "y") Null Null.
Definition z : tree := Tree 14 0 16 (list_label "z") Null (leaf 18 14 "z") Null Null.

(** The ambiguity [(f x)], as a cast and as a call *)
Definition cast_or_call : tree :=
  Amb 20 2 22 (Label AST_AMBIGUITY 100 None (Some 2) 0)
    [Tree 24 0 26 (leaf_label 8 "cast") (leaf 28 0 "f") Null (leaf 30 0 "x") Null;
     Tree 32 0 34 (leaf_label 9 "call") (leaf 36 0 "f") (leaf 38 0 "x") Null Null].

Ltac small := vm_compute; repeat first [done | split | constructor; set_solver | lia | constructor].

(** ** Trees as values *)

Lemma own_holds_app m (l l' : list (Z * block)) : holds m (l ++ l') →
  holds m l ∧ holds m l' ∧ ∀ k, k ∈ l.*1 → k ∉ l'.*1.
Proof.
  intros [Hnd H]. rewrite fmap_app in Hnd. apply NoDup_app in Hnd as (Hnd & Hd & Hnd').
  split; [split; [done|]|split; [split; [done|]|done]]; intros kb Hkb; apply H; set_solver.
Qed.

Lemma holds_stored m t : wf t → holds m (blocks t) → stored m t.
Proof. intros Hw [_ H]. by split. Qed.

(** C8: [ast_copy] makes a tree that has the same kinds, texts, loci, shapes and
    interpretations, whose nodes all point to their parents and whose root has
    none; all its nodes and arrays are new, and nothing else in memory changes. *)
Theorem ast_copy_duplicates fuel t m : wf t → holds m (blocks t) → (height t < fuel)%nat →
  ∃ t' m', ast_copy fuel (addr t) m = Ret (addr t', m')
  ∧ contents t' = contents t ∧ linked 0 t' ∧ wf t' ∧ holds m' (blocks t')
  ∧ ∀ k b, m !! k = Some b → m' !! k = Some b ∧ k ∉ (blocks t').*1.
Proof.
  intros Hw Hm Hh.
  destruct (wp_local (ast_copy fuel (addr t)) (blocks t)
    (λ a l, ∃ t', a = addr t' ∧ l = blocks t ++ blocks t' ∧ copy_of t t' ∧ wf t') m)
    as (a & m' & l' & Hrun & (t' & -> & -> & [Hc Hl] & Hw') & Hh' & Hrest); [|done|].
  - iIntros (Σ HΣ γ) "Hl". iApply (wp_copy γ fuel t with "[Hl]"); [done|rewrite rep_own; by iFrame|].
    iIntros (t' Hc) "Ht Ht'". rewrite !rep_own. iDestruct "Ht" as "[_ Ht]". iDestruct "Ht'" as "[% Ht']".
    iExists (blocks t ++ blocks t'). rewrite own_app. iFrame. iPureIntro. eauto 10.
  - apply own_holds_app in Hh' as (Ho & Hn & Hd). exists t', m'. repeat (split; [done|]).
    intros k b Hk. destruct (decide (k ∈ (blocks t).*1)) as [Hin|Hout].
    + split; [|by apply Hd]. apply list_elem_of_fmap in Hin as (kb & -> & Hin).
      rewrite (proj2 Hm _ Hin) in Hk. injection Hk as <-. by apply (proj2 Ho).
    + destruct (Hrest k b Hk Hout) as [? H]. split; [done|]. intros H'. apply H. rewrite fmap_app. set_solver.
Qed.

Lemma ast_copy_duplicates_witness : ∃ t' m',
  ast_copy 5 20 (memory_of (blocks cast_or_call)) = Ret (addr t', m') ∧ contents t' = contents cast_or_call
  ∧ 20 ∉ (blocks t').*1.
Proof.
  destruct (ast_copy_duplicates 5 cast_or_call (memory_of (blocks cast_or_call)))
    as (t' & m' & Hrun & Hc & _ & _ & _ & Hm').
  - small.
  - apply memory_holds. apply (bool_decide_unpack _). vm_compute. done.
  - vm_compute. lia.
  - exists t', m'. split; [exact Hrun|]. split; [exact Hc|].
    by destruct (Hm' 20 (Node (AST AST_AMBIGUITY 0 (Some 2) 2 100 None 22 0))).
Defined.

(** C37: [ast_equal] ends, changes nothing, and returns true exactly when the two
    trees have the same shape with the same kinds and texts, ambiguous nodes
    being compared without their interpretations. *)
Theorem ast_equal_compares_skeletons fuel m t1 t2 :
  stored m t1 → stored m t2 → (height t1 < fuel)%nat →
  ∃ b, ast_equal fuel (addr t1) (addr t2) m = Ret (b, m) ∧ (b = true ↔ skeleton t1 = skeleton t2).
Proof. apply run_equal. Qed.

Lemma ast_equal_compares_skeletons_witness : ∃ b m,
  ast_equal 5 6 14 m = Ret (b, m) ∧ (b = true ↔ False).
Proof.
  set (m := memory_of (blocks xy ++ blocks z)).
  assert (H : holds m (blocks xy ++ blocks z)).
  { apply memory_holds. apply (bool_decide_unpack _). vm_compute. done. }
  apply own_holds_app in H as ([_ Hxy] & [_ Hz] & _).
  destruct (ast_equal_compares_skeletons 5 m (child xy 0) z) as (b & Hb & Hiff).
  - split; [small|]. intros kb Hkb. apply Hxy. simpl in *. set_solver.
  - split; [small|exact Hz].
  - vm_compute. lia.
  - exists b, m. split; [exact Hb|]. rewrite Hiff. by vm_compute.
Defined.

(** C33: On a tree in memory whose root and interpretations have parents that
    can be read, or none, [ast_check] ends, changes nothing and returns true
    exactly when every child points to its parent, the children inside the
    interpretations of ambiguous nodes included, and every list whose parent is
    not a list is well built.  The parents of the root and of the interpretations
    themselves are not checked. *)
Theorem ast_check_characterised fuel m t : stored m t → t ≠ Null → parent_valid m t →
  interpretations_valid m t → (S (nodes t) < fuel)%nat →
  ∃ b, ast_check fuel (addr t) m = Ret (b, m)
  ∧ (b = true ↔ linked (parent_of t) t ∧ lists_ok m t).
Proof.
  intros Hm Hn Hp Hv Hf. destruct (run_check fuel m [t]) as (b & Hb & Hiff).
  - by constructor.
  - unfold stack_size. simpl. lia.
  - exists b. split; [exact Hb|]. by rewrite Hiff, Forall_singleton.
Qed.

(** A list with an ambiguous element, and the same with a child of an
    interpretation that points elsewhere *)
Definition ambiguous_list (p : Z) : tree :=
  Tree 2 0 4 (list_label "y") Null
    (Amb 20 2 22 (Label AST_AMBIGUITY 100 None (Some 2) 0)
      [Tree 24 0 26 (leaf_label 8 "cast") (leaf 28 24 "f") Null (leaf 30 24 "x") Null;
       Tree 32 2 34 (leaf_label 9 "call") (leaf 36 32 "f") (leaf 38 p "x") Null Null]) Null Null.

Lemma ambiguous_list_valid p :
  interpretations_valid (memory_of (blocks (ambiguous_list p))) (ambiguous_list p).
Proof.
  cbn [ambiguous_list interpretations_valid fold_right leaf]. repeat split; try done; [by left|].
  right. eexists. reflexivity.
Qed.

Lemma ast_check_characterised_witness :
  (∃ b m, ast_check 20 2 m = Ret (b, m) ∧ b = true) ∧ ∃ b m, ast_check 20 2 m = Ret (b, m) ∧ b = false.
Proof.
  assert (H : ∀ p, stored (memory_of (blocks (ambiguous_list p))) (ambiguous_list p)).
  { intros p. apply holds_stored; [small|]. apply memory_holds. apply (bool_decide_unpack _). vm_compute. done. }
  split.
  - destruct (ast_check_characterised 20 _ _ (H 32)) as (b & Hb & Hiff);
      [done|by left|by apply ambiguous_list_valid|vm_compute; lia|].
    exists b, (memory_of (blocks (ambiguous_list 32))). split; [exact Hb|]. apply Hiff.
    unfold lists_ok, list_ok. cbn. intuition discriminate.
  - destruct (ast_check_characterised 20 _ _ (H 24)) as (b & Hb & Hiff);
      [done|by left|by apply ambiguous_list_valid|vm_compute; lia|].
    exists b, (memory_of (blocks (ambiguous_list 24))). split; [exact Hb|]. destruct b; [|done].
    destruct (proj1 Hiff eq_refl) as [Hl _]. simpl in Hl. exfalso. intuition discriminate.
Defined.

(** C9: [ast_free] of a tree whose nodes, arrays and expression information are
    all different blocks, in use and not being freed, ends without error; it
    frees exactly these blocks. *)
Theorem ast_free_frees_the_tree fuel m t : freeable m t → (height t < fuel)%nat →
  ∃ m', ast_free fuel (addr t) m = Ret (tt, m')
  ∧ ∀ k, m' !! k = if decide (k ∈ keys t) then None else m !! k.
Proof. intros Hf Hh. exact (run_free fuel t m Hf Hh). Qed.

Lemma ast_free_frees_the_tree_witness : ∃ m', 
  ast_free 5 20 (memory_of (blocks cast_or_call ++ blocks xy)) = Ret (tt, m')
  ∧ m' !! 30 = None ∧ is_Some (m' !! 6).
Proof.
  set (m := memory_of (blocks cast_or_call ++ blocks xy)).
  assert (H : holds m (blocks cast_or_call ++ blocks xy)).
  { apply memory_holds. apply (bool_decide_unpack _). vm_compute. done. }
  apply own_holds_app in H as (Hm & _).
  destruct (ast_free_frees_the_tree 5 m cast_or_call) as (m' & Hrun & Hm').
  - split; [apply holds_stored; [small|done]|]. split; [small|].
    split; [apply (bool_decide_unpack _); by vm_compute|]. by intros x Hx%elem_of_nil.
  - vm_compute. lia.
  - exists m'. split; [exact Hrun|]. rewrite !Hm'. split; [done|].
    eexists. vm_compute. reflexivity.
Defined.

Lemma frame_of (m m' : gmap Z block) (l l' : list (Z * block)) :
  (∀ k b, m !! k = Some b → k ∉ l.*1 → m' !! k = Some b ∧ k ∉ l'.*1) →
  ∀ k b, m !! k = Some b → k ∉ l.*1 → m' !! k = Some b.
Proof. intros H k b Hk Hl. by destruct (H k b Hk Hl). Qed.

(** C31: [ast_replace_with_ambiguity] puts the chosen interpretation at the
    address of the ambiguous node, with the parent of this node, and makes the
    nodes below point to their parents, down to the ambiguous nodes that remain. *)
Theorem ast_replace_with_ambiguity_chooses fuel m a p v l alts i t :
  wf (Amb a p v l alts) → holds m (blocks (Amb a p v l alts)) → alts !! i = Some t → t ≠ Null →
  (height t < fuel)%nat →
  ∃ t' m', ast_replace_with_ambiguity fuel a (Z.of_nat i) m = Ret (tt, m')
  ∧ addr t' = a ∧ contents t' = contents t ∧ linked_above p t' ∧ wf t' ∧ holds m' (blocks t')
  ∧ ∀ k b, m !! k = Some b → k ∉ (blocks (Amb a p v l alts)).*1 → m' !! k = Some b.
Proof.
  intros Hw Hm Hi Ht Hh. set (t' := relink_all (move_to a p t)).
  destruct (wp_local (ast_replace_with_ambiguity fuel a (Z.of_nat i)) (blocks (Amb a p v l alts))
    (λ _ l', l' = blocks t' ∧ wf t') m) as ([] & m' & l' & Hrun & [-> Hw'] & Hm' & Hrest); [|done|].
  - iIntros (Σ HΣ γ) "Hl". iApply (wp_replace_with_ambiguity γ fuel a p v l alts i t with "[Hl]");
      [done..|rewrite rep_own; by iFrame|].
    rewrite rep_own. iIntros "[% Hl]". iExists (blocks t'). by iFrame.
  - exists t', m'. split; [done|]. split; [by unfold t'; rewrite relink_all_addr; destruct t|].
    split; [by unfold t'; rewrite relink_all_contents; destruct t|].
    split; [|by eauto using frame_of].
    assert (t' = relink p (relink_all (move_to a p t))) as -> by by unfold t'; destruct t.
    apply relink_above.
Qed.

Lemma ast_replace_with_ambiguity_chooses_witness : ∃ t' m',
  ast_replace_with_ambiguity 5 20 1 (memory_of (blocks cast_or_call)) = Ret (tt, m')
  ∧ addr t' = 20 ∧ kind_of t' = AST_kind 9 ∧ parent_of t' = 2 ∧ m' !! 20 = Some (Node (node_of t')).
Proof.
  destruct (ast_replace_with_ambiguity_chooses 5 (memory_of (blocks cast_or_call)) 20 2 22
    (Label AST_AMBIGUITY 100 None (Some 2) 0)
    [Tree 24 0 26 (leaf_label 8 "cast") (leaf 28 0 "f") Null (leaf 30 0 "x") Null;
     Tree 32 0 34 (leaf_label 9 "call") (leaf 36 0 "f") (leaf 38 0 "x") Null Null] 1
    (Tree 32 0 34 (leaf_label 9 "call") (leaf 36 0 "f") (leaf 38 0 "x") Null Null))
    as (t' & m' & Hrun & Ha & Hc & Hl & Hw & Hm' & _).
  - small.
  - apply memory_holds. apply (bool_decide_unpack _). vm_compute. done.
  - done.
  - done.
  - vm_compute. lia.
  - exists t', m'. split; [exact Hrun|]. split; [done|].
    assert (m' !! addr t' = Some (Node (node_of t'))) as Hn.
    { apply stored_node; [by apply holds_stored|]. by intros ->. }
    rewrite Ha in Hn. destruct t' as [|a' p' v' l' s0 s1 s2 s3|a' p' v' l' alts']; [done| |by destruct Hl].
    injection Hc as -> _ _ _ _. destruct Hl as [-> _]. done.
Defined.

(** C24: [ast_list_concat] of two lists gives the elements of the first and then
    those of the second, in a list that [for_each_element] visits in this order. *)
Theorem ast_list_concat_appends fuel m tb ta : wf tb → wf ta → holds m (blocks tb ++ blocks ta) →
  seq_or_null tb → seq_or_null ta → (height ta < fuel)%nat →
  ∃ t m', ast_list_concat fuel (addr tb) (addr ta) m = Ret (addr t, m')
  ∧ seq_or_null t ∧ elements t = elements tb ++ elements ta ∧ wf t ∧ holds m' (blocks t)
  ∧ (∀ n, t ≠ Null → (height t < n)%nat →
       (for_each_element n (addr t) ≫= sons1) m' = Ret (map addr (elements tb ++ elements ta), m'))
  ∧ ∀ k b, m !! k = Some b → k ∉ (blocks tb ++ blocks ta).*1 → m' !! k = Some b.
Proof.
  intros Hwb Hwa Hm Hb Ha Hh.
  destruct (wp_local (ast_list_concat fuel (addr tb) (addr ta)) (blocks tb ++ blocks ta)
    (λ r l', ∃ t, r = addr t ∧ l' = blocks t ∧ wf t ∧ seq_or_null t ∧ elements t = elements tb ++ elements ta) m)
    as (r & m' & l' & Hrun & (t & -> & -> & Hw & Hs & He) & Hm' & Hrest); [|done|].
  - iIntros (Σ HΣ γ) "Hl". rewrite own_app. iDestruct "Hl" as "[Hlb Hla]".
    iApply (wp_list_concat γ fuel tb ta with "[Hlb] [Hla]"); [done..|rewrite rep_own; by iFrame|rewrite rep_own; by iFrame|].
    iIntros (t [Hs He]) "Ht". rewrite rep_own. iDestruct "Ht" as "[% Ht]". iExists (blocks t). iFrame. eauto 10.
  - exists t, m'. repeat (split; [done|]). split; [|by eauto using frame_of].
    intros n Hn Hh'. destruct Hs as [?|[Hok _]]; [done|].
    erewrite run_bind by (apply run_for_each; [by apply holds_stored|done|done]).
    rewrite <-He, <-(app_nil_r (spine t)), <-(app_nil_r (map addr (elements t))).
    by apply run_sons1; [|apply holds_stored|].
Qed.

Lemma ast_list_concat_appends_witness : ∃ m' r,
  ast_list_concat 5 2 14 (memory_of (blocks xy ++ blocks z)) = Ret (r, m')
  ∧ (for_each_element 9 r ≫= sons1) m' = Ret ([10; 12; 18], m').
Proof.
  destruct (ast_list_concat_appends 5 (memory_of (blocks xy ++ blocks z)) xy z)
    as (t & m' & Hrun & Hs & He & Hw & Hm' & Hvisit & _).
  - small.
  - small.
  - apply memory_holds. apply (bool_decide_unpack _). vm_compute. done.
  - right. split; unfold list_ok; cbn; intuition discriminate.
  - right. split; unfold list_ok; cbn; intuition discriminate.
  - vm_compute. lia.
  - exists m', (addr t). split; [exact Hrun|].
    generalize dependent (addr t). intros r Hrun _. vm_compute in Hrun. injection Hrun as <- <-. by vm_compute.
Defined.

(** [ast_list_split_head_tail] of a list gives the list of its first element
    and that of the others, which is null when there are none. *)
Theorem ast_list_split_head_tail_splits fuel m t : wf t → holds m (blocks t) → seq t → (height t < fuel)%nat →
  ∃ h tl m', ast_list_split_head_tail fuel (addr t) m = Ret ((addr h, addr tl), m')
  ∧ seq h ∧ seq_or_null tl ∧ elements h = take 1 (elements t) ∧ elements tl = drop 1 (elements t)
  ∧ wf h ∧ wf tl ∧ holds m' (blocks h ++ blocks tl)
  ∧ ∀ k b, m !! k = Some b → k ∉ (blocks t).*1 → m' !! k = Some b.
Proof.
  intros Hw Hm Hs Hh.
  destruct (wp_local (ast_list_split_head_tail fuel (addr t)) (blocks t)
    (λ r l', ∃ h tl, r = (addr h, addr tl) ∧ l' = blocks h ++ blocks tl ∧ wf h ∧ wf tl
      ∧ seq h ∧ seq_or_null tl ∧ elements h = take 1 (elements t) ∧ elements tl = drop 1 (elements t)) m)
    as (r & m' & l' & Hrun & (h & tl & -> & -> & Hwh & Hwtl & Hsh & Hstl & Heh & Hetl) & Hm' & Hrest); [|done|].
  - iIntros (Σ HΣ γ) "Hl". iApply (wp_list_split γ fuel t with "[Hl]"); [done..|rewrite rep_own; by iFrame|].
    iIntros (h tl (? & ? & ? & ?)) "Hh Htl". rewrite !rep_own. iDestruct "Hh" as "[% Hh]". iDestruct "Htl" as "[% Htl]".
    iExists (blocks h ++ blocks tl). rewrite own_app. iFrame. iPureIntro. eauto 15.
  - exists h, tl, m'. repeat (split; [done|]). eauto using frame_of.
Qed.

Lemma ast_list_split_head_tail_splits_witness : ∃ m',
  ast_list_split_head_tail 5 2 (memory_of (blocks xy)) = Ret ((6, 2), m')
  ∧ (for_each_element 9 2 ≫= sons1) m' = Ret ([12], m').
Proof.
  destruct (ast_list_split_head_tail_splits 5 (memory_of (blocks xy)) xy) as (h & tl & m' & Hrun & _).
  - small.
  - apply memory_holds. apply (bool_decide_unpack _). vm_compute. done.
  - split; unfold list_ok; cbn; intuition discriminate.
  - vm_compute. lia.
  - exists m'. vm_compute in Hrun. injection Hrun as Hh Htl <-. by vm_compute.
Defined.

(** ** Where the trees share blocks *)

(** Interpretations are not compared. *)
Definition other_ambiguity : tree :=
  Amb 40 0 42 (Label AST_AMBIGUITY 100 None (Some 2) 0) [leaf 44 0 "a"; leaf 46 0 "b"].

Lemma ambiguities_are_equal :
  ast_equal 5 20 40 (memory_of (blocks cast_or_call ++ blocks other_ambiguity))
  = Ret (true, memory_of (blocks cast_or_call ++ blocks other_ambiguity)).
Proof. by vm_compute. Qed.

(** A node that two interpretations share is freed, and then looked at. *)
Lemma free_shared_node :
  ast_free 5 20 (memory_of (blocks (Amb 20 0 22 (Label AST_AMBIGUITY 100 None (Some 2) 0)
    [Tree 24 0 26 (leaf_label 8 "cast") (leaf 28 0 "f") Null Null Null;
     Tree 32 0 34 (leaf_label 9 "call") (leaf 28 0 "f") Null Null Null]))) = Err Undef.
Proof. by vm_compute. Qed.

(** A copy has the expression information of the original, which is freed with
    each of them. *)
Lemma free_copy_and_original :
  (c ← ast_copy 5 20; ast_free 5 20;; ast_free 5 c)
    (<[50 := Info]> (memory_of (blocks (Tree 20 0 0 (Label (AST_kind 7) 100 None None 50) Null Null Null Null))))
  = Err Undef.
Proof. by vm_compute. Qed.
