(* ===== verification/CxxTypes.v ===== *)
(** * C and C++ types: qualifiers, typedefs and equivalence
    ([frontend/cxx-typeutils.c])

    A type is a value.  The code makes types unique, so that it can compare some
    of them by address; what is modelled here compares them by contents.  A
    typedef is an indirect node over the type of its symbol, with qualifiers of
    its own.  Left out: dependent types, [typeof], packs and braced lists, sizes
    of arrays that are not constant, and the Intel vector types. *)

From stdpp Require Import gmap.
From S2P Require Import Prelude.
#[local] Open Scope Z_scope.

(** ** Qualifiers *)

Definition CV_NONE : Z := 0.
Definition CV_CONST : Z := 2.
Definition CV_VOLATILE : Z := 4.
Definition CV_RESTRICT : Z := 8.

Definition is_const_qualified (cv : Z) : bool := Z.land cv CV_CONST =? CV_CONST.
Definition is_volatile_qualified (cv : Z) : bool := Z.land cv CV_VOLATILE =? CV_VOLATILE.
Definition is_restrict_qualified (cv : Z) : bool := Z.land cv CV_RESTRICT =? CV_RESTRICT.

Definition cv_qualifiers : list Z :=
  [CV_CONST; CV_VOLATILE; CV_RESTRICT; Z.lor CV_CONST CV_VOLATILE; Z.lor CV_CONST CV_RESTRICT;
   Z.lor CV_VOLATILE CV_RESTRICT; Z.lor (Z.lor CV_CONST CV_VOLATILE) CV_RESTRICT].

Definition is_less_cv_qualified (cv1 cv2 : Z) : bool :=
  if (cv1 =? CV_NONE) && negb (cv2 =? CV_NONE) then true
  else if negb (cv1 =? cv2)
       then existsb (λ q, (cv1 =? q) && (Z.land cv2 q =? q)) cv_qualifiers
       else false.

Definition is_equal_cv_qualified (cv1 cv2 : Z) : bool := cv1 =? cv2.
Definition equivalent_cv_qualification (cv1 cv2 : Z) : bool := cv1 =? cv2.
Definition is_less_or_equal_cv_qualified (cv1 cv2 : Z) : bool :=
  is_less_cv_qualified cv1 cv2 || is_equal_cv_qualified cv1 cv2.
Definition is_more_cv_qualified (cv1 cv2 : Z) : bool := negb (is_less_or_equal_cv_qualified cv1 cv2).
Definition is_more_or_equal_cv_qualified (cv1 cv2 : Z) : bool := negb (is_less_cv_qualified cv1 cv2).

(** ** Types *)

Inductive builtin_type_t :=
  | BT_INT | BT_BOOL | BT_FLOAT | BT_DOUBLE | BT_OTHER_FLOAT | BT_BYTE | BT_CHAR | BT_WCHAR
  | BT_VOID | BT_NULLPTR_T | BT_CHAR16_T | BT_CHAR32_T.

#[export] Instance builtin_type_t_eq_dec : EqDecision builtin_type_t.
Proof. solve_decision. Defined.

(** [is_long] is 1 for [long], 2 for [long long], 3 for [__int128]; [size] is
    that of the type, which distinguishes booleans. *)
Record simple_type_t := Simple {
  builtin_type : builtin_type_t; is_long : Z; is_short : bool; is_unsigned : bool; is_signed : bool;
  size : Z }.

#[export] Instance simple_type_t_eq_dec : EqDecision simple_type_t.
Proof. solve_decision. Defined.

Inductive reference_kind := TK_LVALUE_REFERENCE | TK_RVALUE_REFERENCE | TK_REBINDABLE_REFERENCE.
Inductive ref_qualifier_t := REF_QUALIFIER_NONE | REF_QUALIFIER_LVALUE | REF_QUALIFIER_RVALUE.

#[export] Instance reference_kind_eq_dec : EqDecision reference_kind.
Proof. solve_decision. Defined.
#[export] Instance ref_qualifier_t_eq_dec : EqDecision ref_qualifier_t.
Proof. solve_decision. Defined.

(** The first argument is [cv_qualifier].  [Class] and [Enum] are the types with
    their members, known by their address; [Indirect] is a name: of a class or an
    enumeration, or of a typedef when [is_indirect].  [is_zero_type] marks the
    type of a literal 0.  A parameter of a function is [None] for [...]. *)
Inductive type_t :=
  | Builtin (cv : Z) (is_zero_type : bool) (s : simple_type_t)
  | Class (cv c : Z)
  | Enum (cv e : Z)
  | Indirect (cv : Z) (is_indirect : bool) (symbol : Z) (type_information : type_t)
  | Complex (cv : Z) (complex_element : type_t)
  | Vector (cv vector_size : Z) (vector_element : type_t)
  | Mask (cv num_bits : Z) (underlying : type_t)
  | Pointer (cv : Z) (pointee : type_t)
  | Reference (cv : Z) (kind : reference_kind) (pointee : type_t)
  | PointerToMember (cv : Z) (pointee pointee_class_type : type_t)
  | Array (cv : Z) (element_type : type_t) (whole_size : option Z) (is_string_literal : bool)
  | Function (cv : Z) (return_type : type_t) (parameter_list : list (option type_t))
      (ref_qualifier : ref_qualifier_t).

Definition cv_qualifier (t : type_t) : Z :=
  match t with
  | Builtin cv _ _ | Class cv _ | Enum cv _ | Indirect cv _ _ _ | Complex cv _ | Vector cv _ _
  | Mask cv _ _ | Pointer cv _ | Reference cv _ _ | PointerToMember cv _ _ | Array cv _ _ _
  | Function cv _ _ _ => cv
  end.

Definition set_cv (cv : Z) (t : type_t) : type_t :=
  match t with
  | Builtin _ z s => Builtin cv z s
  | Class _ c => Class cv c
  | Enum _ e => Enum cv e
  | Indirect _ i s t => Indirect cv i s t
  | Complex _ t => Complex cv t
  | Vector _ n t => Vector cv n t
  | Mask _ n t => Mask cv n t
  | Pointer _ t => Pointer cv t
  | Reference _ k t => Reference cv k t
  | PointerToMember _ t c => PointerToMember cv t c
  | Array _ t n l => Array cv t n l
  | Function _ r ps q => Function cv r ps q
  end.

(** [unqualified_type] *)
Definition unqualified_type := set_cv CV_NONE.

Definition is_array (t : type_t) : bool := match t with Array _ _ _ _ => true | _ => false end.

(** ** Typedefs *)

(** The type under the typedefs, and the qualifiers on the way; arrays add those
    of their elements. *)
Fixpoint advance_over_typedefs_with_cv_qualif (t : type_t) : type_t * Z :=
  match t with
  | Indirect cv true _ t' =>
      let '(result, cv') := advance_over_typedefs_with_cv_qualif t' in (result, Z.lor cv cv')
  | Array cv e _ _ => (t, Z.lor cv (advance_over_typedefs_with_cv_qualif e).2)
  | _ => (t, cv_qualifier t)
  end.

Notation advance := advance_over_typedefs_with_cv_qualif.

(** [get_qualified_type] that does not qualify arrays; their elements are
    qualified instead. *)
Fixpoint get_cv_qualified_type (original : type_t) (cv : Z) : type_t :=
  if cv =? (advance original).2 then original else
  (fix advanced (t : type_t) : type_t :=
     match t with
     | Indirect _ true _ t' => advanced t'
     | Array _ e n l => Array CV_NONE (get_cv_qualified_type e cv) n l
     | _ => set_cv cv (if is_more_cv_qualified cv (advance original).2 then original else t)
     end) original.

Definition get_restrict_qualified_type (t : type_t) : type_t :=
  get_cv_qualified_type t (Z.lor (cv_qualifier t) CV_RESTRICT).

Definition advance_over_typedefs (t : type_t) : type_t :=
  match t with
  | Indirect _ true _ _ =>
      let '(advanced_unqualif, cv) := advance t in
      if negb (cv =? CV_NONE) then get_cv_qualified_type advanced_unqualif cv else advanced_unqualif
  | _ => t
  end.

(** The depth of a type bounds the recursions below. *)
Fixpoint depth (t : type_t) : nat :=
  match t with
  | Builtin _ _ _ | Class _ _ | Enum _ _ => 1
  | Indirect _ _ _ t | Complex _ t | Vector _ _ t | Mask _ _ t | Pointer _ t | Reference _ _ t
  | Array _ t _ _ => S (depth t)
  | PointerToMember _ t c => S (depth t `max` depth c)
  | Function _ r ps _ =>
      S (depth r `max` list_max (map (λ p, match p with None => O | Some t => depth t end) ps))
  end.

(** The element's qualifiers stand for those of an array. *)
Fixpoint get_cv_qualifier_ (fuel : nat) (t : type_t) : Z :=
  match fuel with
  | O => cv_qualifier t
  | S fuel' =>
      match advance_over_typedefs t with
      | Array _ e _ _ => get_cv_qualifier_ fuel' e
      | _ => cv_qualifier t
      end
  end.
Definition get_cv_qualifier (t : type_t) : Z := get_cv_qualifier_ (depth t) t.

Fixpoint get_unqualified_type_ (fuel : nat) (t : type_t) : type_t :=
  let t' := advance_over_typedefs t in
  match fuel, t' with
  | S fuel', Array _ e n l => Array CV_NONE (get_unqualified_type_ fuel' e) n l
  | _, _ =>
      let cv := get_cv_qualifier t' in
      let is_restricted := Z.land cv CV_RESTRICT =? CV_RESTRICT in
      if negb is_restricted then if cv =? CV_NONE then t else unqualified_type t'
      else if cv =? CV_RESTRICT then get_restrict_qualified_type t
           else get_restrict_qualified_type (unqualified_type t')
  end.
Definition get_unqualified_type (t : type_t) : type_t := get_unqualified_type_ (depth t) t.

(** Qualifiers of a type, through its typedefs *)
Definition is_const_qualified_type (t : type_t) : bool := is_const_qualified (advance t).2.
Definition is_volatile_qualified_type (t : type_t) : bool := is_volatile_qualified (advance t).2.
Definition is_restrict_qualified_type (t : type_t) : bool := is_restrict_qualified (advance t).2.
Definition is_less_cv_qualified_type (t1 t2 : type_t) : bool :=
  is_less_cv_qualified (advance t1).2 (advance t2).2.
Definition is_equally_cv_qualified_type (t1 t2 : type_t) : bool :=
  is_equal_cv_qualified (advance t1).2 (advance t2).2.
Definition is_less_or_equal_cv_qualified_type (t1 t2 : type_t) : bool :=
  is_less_cv_qualified_type t1 t2 || is_equally_cv_qualified_type t1 t2.
Definition is_more_cv_qualified_type (t1 t2 : type_t) : bool := negb (is_less_or_equal_cv_qualified_type t1 t2).
Definition is_more_or_equal_cv_qualified_type (t1 t2 : type_t) : bool := negb (is_less_cv_qualified_type t1 t2).

(** ** Equivalence *)

Definition equivalent_builtin_type (t1 t2 : simple_type_t) : bool :=
  let bt := builtin_type t1 in
  if decide (bt ≠ builtin_type t2) then false else
  if bool_decide (bt = BT_INT ∨ bt = BT_DOUBLE) && negb (is_long t1 =? is_long t2) then false else
  if bool_decide (bt = BT_INT) && negb (eqb (is_short t1) (is_short t2)) then false else
  if bool_decide (bt = BT_INT ∨ bt = BT_BYTE ∨ bt = BT_CHAR)
     && negb (eqb (is_unsigned t1) (is_unsigned t2)) then false else
  if bool_decide (bt = BT_INT ∨ bt = BT_BYTE ∨ bt = BT_CHAR)
     && negb (eqb (is_signed t1) (is_signed t2)) then false else
  if bool_decide (bt = BT_BOOL) && negb (size t1 =? size t2) then false else true.

(** The sizes of arrays are constants, or are missing. *)
Definition equivalent_sizes (n1 n2 : option Z) : bool :=
  match n1, n2 with
  | Some x, Some y => x =? y
  | None, None => true
  | _, _ => false
  end.

Section equivalent.
Context (equivalent_types : type_t → type_t → bool).

(** A parameter: an array and a pointer, or a function and a pointer, are the same. *)
Definition compatible_parameter (p1 p2 : option type_t) : bool :=
  match p1, p2 with
  | None, None => true
  | None, _ | _, None => false
  | Some t1, Some t2 =>
      let par1 := get_cv_qualified_type t1 CV_NONE in
      let par2 := get_cv_qualified_type t2 CV_NONE in
      if equivalent_types par1 par2 then true
      else match par1, par2 with
           | Array _ e _ _, Pointer _ p | Pointer _ p, Array _ e _ _ => equivalent_types e p
           | Function _ _ _ _, Pointer _ (Function _ _ _ _ as p) => equivalent_types p par1
           | Pointer _ (Function _ _ _ _ as p), Function _ _ _ _ => equivalent_types p par2
           | _, _ => false
           end
  end.

(** The loop of [compatible_parameters], which ends at the first difference *)
Fixpoint all_compatible (ps1 ps2 : list (option type_t)) : bool :=
  match ps1, ps2 with
  | p1 :: ps1', p2 :: ps2' => if compatible_parameter p1 p2 then all_compatible ps1' ps2' else false
  | _, _ => true
  end.

Definition compatible_parameters (ps1 ps2 : list (option type_t)) : bool :=
  if negb (Nat.eqb (length ps1) (length ps2)) then false else all_compatible ps1 ps2.

Definition equivalent_named_types (s1 s2 : Z) (t1 t2 : type_t) : bool :=
  if s1 =? s2 then true else equivalent_types t1 t2.

(** The nodes under the typedefs, without their qualifiers *)
Definition equivalent_nodes (t1 t2 : type_t) : bool :=
  match t1, t2 with
  | Builtin _ _ s1, Builtin _ _ s2 => equivalent_builtin_type s1 s2
  | Class _ c1, Class _ c2 => c1 =? c2
  | Enum _ e1, Enum _ e2 => e1 =? e2
  | Indirect _ _ s1 t1', Indirect _ _ s2 t2' => equivalent_named_types s1 s2 t1' t2'
  | Complex _ t1', Complex _ t2' => equivalent_types t1' t2'
  | Vector _ n1 t1', Vector _ n2 t2' => equivalent_types t1' t2' && (n1 =? n2)
  | Mask _ n1 _, Mask _ n2 _ => n1 =? n2
  | Pointer _ t1', Pointer _ t2' => equivalent_types t1' t2'
  | Reference _ k1 t1', Reference _ k2 t2' =>
      if decide (k1 = k2) then equivalent_types t1' t2' else false
  | PointerToMember _ t1' c1, PointerToMember _ t2' c2 => equivalent_types t1' t2' && equivalent_types c1 c2
  | Array _ e1 n1 _, Array _ e2 n2 _ =>
      if negb (equivalent_types e1 e2) then false else equivalent_sizes n1 n2
  | Function cv1 r1 ps1 q1, Function cv2 r2 ps2 q2 =>
      if negb (equivalent_types r1 r2) then false else
      if negb (compatible_parameters ps1 ps2) then false else
      if decide (q1 ≠ q2) then false else equivalent_cv_qualification cv1 cv2
  | _, _ => false
  end.
End equivalent.

Fixpoint equivalent_types_ (fuel : nat) (t1 t2 : type_t) : bool :=
  match fuel with
  | O => false
  | S fuel' =>
      let '(t1', cv1) := advance t1 in
      let '(t2', cv2) := advance t2 in
      equivalent_nodes (equivalent_types_ fuel') t1' t2' && equivalent_cv_qualification cv1 cv2
  end.
Definition equivalent_types (t1 t2 : type_t) : bool := equivalent_types_ (depth t1 `max` depth t2) t1 t2.
