(* ===== verification/CxxEquiv.v ===== *)
(** * The equivalence of types is equality of canonical types

    The canonical type has no typedefs: their qualifiers are added to the nodes
    under them.  [equivalent_types] decides equality of canonical types, hence
    it is an equivalence relation, on types whose parameters are adjusted: no
    arrays and no functions. *)

From stdpp Require Import gmap.
From S2P Require Import Prelude CxxTypes.
#[local] Open Scope Z_scope.

(** ** Canonical types *)

(** The fields that tell builtin types apart *)
Definition canon_builtin (s : simple_type_t) : simple_type_t :=
  let bt := builtin_type s in
  let integer := bool_decide (bt = BT_INT ∨ bt = BT_BYTE ∨ bt = BT_CHAR) in
  Simple bt (if bool_decide (bt = BT_INT ∨ bt = BT_DOUBLE) then is_long s else 0)
    (bool_decide (bt = BT_INT) && is_short s) (integer && is_unsigned s) (integer && is_signed s)
    (if bool_decide (bt = BT_BOOL) then size s else 0).

(** [c] are the qualifiers of the typedefs around the type.  A name stands for
    its type; a function keeps the qualifiers of its node next to the others. *)
Fixpoint canon (c : Z) (t : type_t) : type_t :=
  match t with
  | Builtin cv _ s => Builtin (Z.lor c cv) false (canon_builtin s)
  | Class cv k => Class (Z.lor c cv) k
  | Enum cv k => Enum (Z.lor c cv) k
  | Indirect cv true _ t' => canon (Z.lor c cv) t'
  | Indirect cv false _ t' => Indirect (Z.lor c cv) false 0 (canon CV_NONE t')
  | Complex cv t' => Complex (Z.lor c cv) (canon CV_NONE t')
  | Vector cv n t' => Vector (Z.lor c cv) n (canon CV_NONE t')
  | Mask cv n _ => Mask (Z.lor c cv) n (Class 0 0)
  | Pointer cv t' => Pointer (Z.lor c cv) (canon CV_NONE t')
  | Reference cv k t' => Reference (Z.lor c cv) k (canon CV_NONE t')
  | PointerToMember cv t' k => PointerToMember (Z.lor c cv) (canon CV_NONE t') (canon CV_NONE k)
  | Array cv e n _ => Array (Z.lor (Z.lor c cv) (advance e).2) (canon CV_NONE e) n false
  | Function cv r ps q =>
      Indirect (Z.lor c cv) true 0 (Function cv (canon CV_NONE r)
        (map (λ p, match p with Some t => Some (set_cv CV_NONE (canon CV_NONE t)) | None => None end) ps) q)
  end.

Definition canonical : type_t → type_t := canon CV_NONE.

(** The canonical type of a node with all its qualifiers *)
Definition canon_node (cv : Z) (t : type_t) : type_t :=
  match t with
  | Builtin _ _ s => Builtin cv false (canon_builtin s)
  | Class _ k => Class cv k
  | Enum _ k => Enum cv k
  | Indirect _ _ _ t' => Indirect cv false 0 (canonical t')
  | Complex _ t' => Complex cv (canonical t')
  | Vector _ n t' => Vector cv n (canonical t')
  | Mask _ n _ => Mask cv n (Class 0 0)
  | Pointer _ t' => Pointer cv (canonical t')
  | Reference _ k t' => Reference cv k (canonical t')
  | PointerToMember _ t' k => PointerToMember cv (canonical t') (canonical k)
  | Array _ e n _ => Array cv (canonical e) n false
  | Function cv' r ps q =>
      Indirect cv true 0 (Function cv' (canonical r)
        (map (λ p, match p with Some t => Some (set_cv CV_NONE (canonical t)) | None => None end) ps) q)
  end.

(** A typedef, the only node that [advance] goes through *)
Definition is_typedef (t : type_t) : bool := match t with Indirect _ true _ _ => true | _ => false end.

Lemma advance_node t : is_typedef (advance t).1 = false.
Proof.
  induction t as [| | |cv i s t IH| | | | | | | |]; simpl; try done. destruct i; [|done].
  by destruct (advance t).
Qed.

Lemma canon_advance t : ∀ c, canon c t = canon_node (Z.lor c (advance t).2) (advance t).1.
Proof.
  induction t as [| | |cv i s t IH| | | | | | |cv e IH n l|]; intros q; simpl; try done.
  - destruct i; [|done]. rewrite IH. destruct (advance t) as [t' cv']. simpl. by rewrite Z.lor_assoc.
  - by rewrite Z.lor_assoc.
Qed.

Lemma canonical_advance t : canonical t = canon_node (advance t).2 (advance t).1.
Proof. unfold canonical. by rewrite canon_advance. Qed.

Lemma advance_depth t : (depth (advance t).1 ≤ depth t)%nat.
Proof.
  induction t as [| | |cv i s t IH| | | | | | | |]; simpl; try done. destruct i; [|done].
  destruct (advance t). simpl in *. lia.
Qed.

Lemma advance_idempotent t : advance (advance t).1 = ((advance t).1, (advance (advance t).1).2).
Proof.
  pose proof (advance_node t) as H. destruct (advance t) as [t' cv]. simpl in *.
  destruct t' as [| | |cv' [] ?| | | | | | | |]; simpl in *; done.
Qed.

(** ** Types of a program *)

(** A name has one type, the parameters of functions are neither arrays nor
    functions, and only typedefs and nodes that can be qualified are. *)
Definition adjusted (t : type_t) : Prop :=
  match (advance t).1 with Array _ _ _ _ | Function _ _ _ _ => False | _ => True end.

Fixpoint proper (symbols : Z → type_t) (t : type_t) : Prop :=
  match t with
  | Builtin _ _ _ | Class _ _ | Enum _ _ | Mask _ _ _ => True
  | Indirect _ _ s t' => t' = symbols s ∧ proper symbols t'
  | Complex _ t' | Vector _ _ t' | Pointer _ t' | Reference _ _ t' | Array _ t' _ _ => proper symbols t'
  | PointerToMember _ t' k => proper symbols t' ∧ proper symbols k
  | Function _ r ps _ =>
      proper symbols r
      ∧ fold_right (λ p P, match p with Some t => proper symbols t ∧ adjusted t | None => True end ∧ P) True ps
  end.

Lemma canon_builtin_spec s1 s2 : equivalent_builtin_type s1 s2 = true ↔ canon_builtin s1 = canon_builtin s2.
Proof.
  destruct s1 as [b1 l1 h1 u1 g1 z1], s2 as [b2 l2 h2 u2 g2 z2]. unfold equivalent_builtin_type, canon_builtin. simpl.
  destruct (decide (b1 = b2)) as [<-|Hb].
  2: { rewrite decide_True by done. split; [done|]. intros H. by injection H. }
  rewrite decide_False by (by intros H; apply H).
  destruct b1; simpl; destruct (Z.eqb_spec l1 l2), (Z.eqb_spec z1 z2); destruct h1, h2, u1, u2, g1, g2; simpl;
    split; intros H; try done; try congruence.
Qed.

Section equivalence.
Context (symbols : Z → type_t).
Notation proper := (proper symbols).

Lemma proper_advance t : proper t → proper (advance t).1.
Proof.
  induction t as [| | |cv i s t IH| | | | | | | |]; simpl; try done. destruct i; [|done].
  intros [_ H]. destruct (advance t). by apply IH.
Qed.

Lemma proper_set_cv cv t : proper (set_cv cv t) ↔ proper t.
Proof. by destruct t. Qed.
Lemma depth_set_cv cv t : depth (set_cv cv t) = depth t.
Proof. by destruct t. Qed.

(** A type that is not an array, without its qualifiers *)
Lemma get_unqualified_cases t : is_array (advance t).1 = false →
  get_cv_qualified_type t CV_NONE = if 0 =? (advance t).2 then t else set_cv CV_NONE (advance t).1.
Proof.
  intros Ha. assert (Hmore : ∀ cv, is_more_cv_qualified CV_NONE cv = false).
  { intros cv. unfold is_more_cv_qualified, is_less_or_equal_cv_qualified, is_less_cv_qualified, is_equal_cv_qualified.
    simpl. unfold CV_NONE. destruct (Z.eqb_spec cv 0) as [->|H]; [done|]. by destruct cv. }
  assert (Haux : ∀ old u, is_array (advance u).1 = false →
    (fix advanced (t0 : type_t) : type_t :=
     match t0 with
     | Indirect _ true _ t' => advanced t'
     | Array _ e n l => Array CV_NONE (get_cv_qualified_type e CV_NONE) n l
     | _ => set_cv CV_NONE (if is_more_cv_qualified CV_NONE old then t else t0)
     end) u = set_cv CV_NONE (advance u).1).
  { intros old. induction u as [| | |cv i s u IH| | | | | | | |]; intros Hu;
      try done; try (simpl; by rewrite Hmore).
    destruct i; [|simpl; by rewrite Hmore]. simpl in Hu |- *. destruct (advance u) as [u' cv'] eqn:E. simpl in *. by apply IH. }
  destruct t; try (by discriminate Ha); cbn [get_cv_qualified_type]; unfold CV_NONE at 1;
    (destruct (0 =? _); [done|]); exact (Haux _ _ Ha).
Qed.


Lemma set_cv_canon_node cv cv' t : (∀ c r ps q, t ≠ Function c r ps q) →
  set_cv cv (canon_node cv' t) = canon_node cv (set_cv CV_NONE t).
Proof. intros H. destruct t; try done. by destruct (H cv0 t parameter_list ref_qualifier). Qed.

Lemma canonical_unqualified t : adjusted t →
  canonical (get_cv_qualified_type t CV_NONE) = set_cv CV_NONE (canonical t)
  ∧ (proper t → proper (get_cv_qualified_type t CV_NONE))
  ∧ (depth (get_cv_qualified_type t CV_NONE) ≤ depth t)%nat
  ∧ adjusted (get_cv_qualified_type t CV_NONE).
Proof.
  intros Ha. unfold adjusted in Ha. assert (is_array (advance t).1 = false) as Harr by by destruct (advance t).1.
  rewrite get_unqualified_cases by done. rewrite canonical_advance.
  pose proof (advance_node t) as Hn. pose proof (advance_depth t) as Hd. pose proof (proper_advance t) as Hp.
  destruct (Z.eqb_spec 0 (advance t).2) as [H|H].
  - rewrite canonical_advance, <-H. split; [by destruct (advance t).1|]. done.
  - rewrite canonical_advance. unfold adjusted. destruct (advance t) as [t' cv]. simpl in *.
    assert (advance (set_cv CV_NONE t') = (set_cv CV_NONE t', CV_NONE)) as ->.
    { destruct t' as [| | |? [] ?| | | | | | | |]; simpl in *; done. }
    simpl. rewrite proper_set_cv, depth_set_cv. split; [|split; [done|split; [done|by destruct t']]].
    rewrite set_cv_canon_node; [done|]. by intros c r ps q ->.
Qed.

(** ** [equivalent_types] decides equality of canonical types *)

Definition drop_qualifiers (p : option type_t) : option type_t :=
  match p with Some t => Some (set_cv CV_NONE (canonical t)) | None => None end.

Definition decides (e : type_t → type_t → bool) (n : nat) : Prop :=
  ∀ t1 t2, proper t1 → proper t2 → (depth t1 ≤ n)%nat → (depth t2 ≤ n)%nat →
  e t1 t2 = true ↔ canonical t1 = canonical t2.

Definition proper_parameters (ps : list (option type_t)) : Prop :=
  fold_right (λ p P, match p with Some t => proper t ∧ adjusted t | None => True end ∧ P) True ps.
Definition parameters_depth (ps : list (option type_t)) : nat :=
  list_max (map (λ p, match p with None => O | Some t => depth t end) ps).

Lemma parameter_kind t : adjusted t →
  match get_cv_qualified_type t CV_NONE with Array _ _ _ _ | Function _ _ _ _ => False | _ => True end.
Proof.
  intros Ha. apply canonical_unqualified in Ha as (_ & _ & _ & Ha). unfold adjusted in Ha.
  by destruct (get_cv_qualified_type t CV_NONE).
Qed.

Lemma compatible_parameter_spec e n t1 t2 : decides e n → proper t1 → proper t2 → adjusted t1 → adjusted t2 →
  (depth t1 ≤ n)%nat → (depth t2 ≤ n)%nat →
  compatible_parameter e (Some t1) (Some t2) = true
    ↔ set_cv CV_NONE (canonical t1) = set_cv CV_NONE (canonical t2).
Proof.
  intros He Hp1 Hp2 Ha1 Ha2 Hd1 Hd2. pose proof (parameter_kind t1 Ha1) as Hk1. pose proof (parameter_kind t2 Ha2) as Hk2.
  destruct (canonical_unqualified t1 Ha1) as (<- & Hp1' & Hd1' & _), (canonical_unqualified t2 Ha2) as (<- & Hp2' & Hd2' & _).
  unfold compatible_parameter. rewrite <-(He (get_cv_qualified_type t1 CV_NONE) (get_cv_qualified_type t2 CV_NONE)) by (auto || lia).
  destruct (e (get_cv_qualified_type t1 CV_NONE) (get_cv_qualified_type t2 CV_NONE)); [done|].
  split; [|done]. by destruct (get_cv_qualified_type t1 CV_NONE), (get_cv_qualified_type t2 CV_NONE); repeat case_match.
Qed.

Lemma compatible_parameters_spec e n ps1 ps2 : decides e n → proper_parameters ps1 → proper_parameters ps2 →
  (parameters_depth ps1 ≤ n)%nat → (parameters_depth ps2 ≤ n)%nat →
  compatible_parameters e ps1 ps2 = true ↔ map drop_qualifiers ps1 = map drop_qualifiers ps2.
Proof.
  intros He. revert ps2. unfold compatible_parameters. induction ps1 as [|p1 ps1 IH]; intros [|p2 ps2] H1 H2 D1 D2; simpl; try done.
  assert (Hcons : ∀ p ps, parameters_depth (p :: ps)
    = ((match p with None => O | Some t => depth t end) `max` parameters_depth ps)%nat) by done.
  rewrite Hcons in D1, D2. specialize (IH ps2 (proj2 H1) (proj2 H2) ltac:(lia) ltac:(lia)).
  change (Nat.eqb (length (p1 :: ps1)) (length (p2 :: ps2))) with (Nat.eqb (length ps1) (length ps2)).
  assert (Hp : compatible_parameter e p1 p2 = true ↔ drop_qualifiers p1 = drop_qualifiers p2).
  { destruct p1 as [t1|], p2 as [t2|]; simpl; try done. destruct H1 as [[? ?] _], H2 as [[? ?] _].
    etrans; [apply (compatible_parameter_spec e n t1 t2); auto; lia|]. split; [congruence|]. intros Hinj. by injection Hinj. }
  destruct (Nat.eqb _ _); simpl in IH |- *.
  - destruct (compatible_parameter e p1 p2).
    + rewrite IH. split; [intros ->; f_equal; by apply Hp|]. intros H. by injection H.
    + split; [done|]. intros H. injection H as H _. by apply Hp in H.
  - split; [done|]. intros H. injection H as _ H. by apply IH in H.
Qed.

Lemma equivalent_sizes_spec n1 n2 : equivalent_sizes n1 n2 = true ↔ n1 = n2.
Proof. destruct n1, n2; simpl; rewrite ?Z.eqb_eq; naive_solver. Qed.

Lemma equivalent_nodes_spec e n t1 t2 cv1 cv2 : decides e n → proper t1 → proper t2 →
  is_typedef t1 = false → is_typedef t2 = false → (depth t1 ≤ S n)%nat → (depth t2 ≤ S n)%nat →
  equivalent_nodes e t1 t2 && equivalent_cv_qualification cv1 cv2 = true ↔ canon_node cv1 t1 = canon_node cv2 t2.
Proof.
  intros He Hp1 Hp2 Ht1 Ht2 Hd1 Hd2. unfold equivalent_cv_qualification. rewrite andb_true_iff, Z.eqb_eq.
  destruct t1 as [? ? b1|? k1|? k1|? [] s1 u1|? u1|? n1 u1|? n1 ?|? u1|? k1 u1|? u1 k1|? u1 n1 ?|c1 r1 ps1 q1];
    destruct t2 as [? ? b2|? k2|? k2|? [] s2 u2|? u2|? n2 u2|? n2 ?|? u2|? k2 u2|? u2 k2|? u2 n2 ?|c2 r2 ps2 q2];
    try discriminate Ht1; try discriminate Ht2; simpl in Hp1, Hp2, Hd1, Hd2 |- *; try (split; [by intros [? _]|discriminate]).
  - rewrite canon_builtin_spec. split; [by intros [-> ->]|]. intros H. split.
    + exact (f_equal (λ t, match t with Builtin _ _ s => s | _ => canon_builtin b1 end) H).
    + exact (f_equal cv_qualifier H).
  - rewrite Z.eqb_eq. split; [by intros [-> ->]|]. intros H. by injection H as -> ->.
  - rewrite Z.eqb_eq. split; [by intros [-> ->]|]. intros H. by injection H as -> ->.
  - unfold equivalent_named_types. destruct Hp1 as [E1 Hp1], Hp2 as [E2 Hp2].
    destruct (Z.eqb_spec s1 s2) as [->|Hs].
    + rewrite E1, E2. split; [by intros [_ ->]|]. intros H. by injection H as ->.
    + rewrite (He u1 u2) by (auto || lia). split; [by intros [-> ->]|]. intros H. by injection H as -> ->.
  - rewrite (He u1 u2) by (auto || lia). split; [by intros [-> ->]|]. intros H. by injection H as -> ->.
  - rewrite andb_true_iff, Z.eqb_eq, (He u1 u2) by (auto || lia). split; [by intros [[-> ->] ->]|].
    intros H. by injection H as -> -> ->.
  - rewrite Z.eqb_eq. split; [by intros [-> ->]|]. intros H. by injection H as -> ->.
  - rewrite (He u1 u2) by (auto || lia). split; [by intros [-> ->]|]. intros H. by injection H as -> ->.
  - destruct (decide (k1 = k2)) as [->|Hk].
    + rewrite (He u1 u2) by (auto || lia). split; [by intros [-> ->]|]. intros H. by injection H as -> ->.
    + split; [by intros [? _]|]. intros H. by injection H.
  - rewrite andb_true_iff, (He u1 u2), (He k1 k2) by (naive_solver || lia). split; [by intros [[-> ->] ->]|].
    intros H. by injection H as -> -> ->.
  - destruct (e u1 u2) eqn:E; simpl.
    + apply (He u1 u2) in E; [|auto || lia..]. rewrite equivalent_sizes_spec, E. split; [by intros [-> ->]|].
      intros H. by injection H as -> ->.
    + split; [by intros [? _]|]. intros H. injection H as _ H _. apply (He u1 u2) in H; [congruence|auto || lia..].
  - destruct Hp1 as [Hr1 Hps1], Hp2 as [Hr2 Hps2].
    pose proof (compatible_parameters_spec e n ps1 ps2 He Hps1 Hps2) as Hps. unfold parameters_depth in Hps.
    specialize (Hps ltac:(lia) ltac:(lia)). fold drop_qualifiers. pose proof (He r1 r2 Hr1 Hr2 ltac:(lia) ltac:(lia)) as Hr.
    destruct (e r1 r2); simpl.
    2: { split; [by intros [? _]|]. intros H. injection H as _ _ H _ _. by apply Hr in H. }
    destruct (compatible_parameters e ps1 ps2); simpl.
    2: { split; [by intros [? _]|]. intros H. injection H as _ _ _ H _. by apply Hps in H. }
    rewrite (proj1 Hr), (proj1 Hps) by done. destruct (decide (q1 = q2)) as [->|Hq].
    + rewrite decide_False by (by intros H; apply H). rewrite Z.eqb_eq. split; [by intros [-> ->]|].
      intros H. by injection H as -> ->.
    + rewrite decide_True by done. split; [by intros [? _]|]. intros H. by injection H.
Qed.

Lemma equivalent_types_decides fuel : decides (equivalent_types_ fuel) fuel.
Proof.
  induction fuel as [|fuel IH]; intros t1 t2 Hp1 Hp2 Hd1 Hd2; [destruct t1; simpl in Hd1; lia|].
  rewrite !canonical_advance. pose proof (advance_depth t1). pose proof (advance_depth t2).
  pose proof (proper_advance t1 Hp1). pose proof (proper_advance t2 Hp2).
  pose proof (advance_node t1). pose proof (advance_node t2). cbn [equivalent_types_].
  destruct (advance t1) as [t1' cv1], (advance t2) as [t2' cv2]. simpl in *.
  apply (equivalent_nodes_spec _ fuel); auto; lia.
Qed.

Lemma equivalent_types_canonical t1 t2 : proper t1 → proper t2 →
  equivalent_types t1 t2 = true ↔ canonical t1 = canonical t2.
Proof. intros H1 H2. apply equivalent_types_decides; auto; lia. Qed.
End equivalence.
