(* ===== verification/CxxBases.v ===== *)
(** * Base classes: [class_type_is_base_] and ambiguous bases
    ([frontend/cxx-typeutils.c])

    Classes are known by the address of their type.  Classes that are not
    specializations of templates are complete when they are derived from. *)

From S2P Require Import Prelude.
#[local] Open Scope Z_scope.

Record base_class_info_t := BaseInfo {
  class_symbol : Z; is_virtual : bool; is_dependent : bool; is_expansion : bool }.

Section bases.
Context (base_classes_list : Z → list base_class_info_t).

(** The loops over the bases: [is_base] of one of them *)
Fixpoint some_base (is_base : Z → res bool) (l : list base_class_info_t) : res bool :=
  match l with
  | [] => Ret false
  | b :: l' =>
      if is_dependent b then some_base is_base l' else
      found ← is_base (class_symbol b);
      if (found : bool) then Ret true else some_base is_base l'
  end.

Fixpoint class_type_is_base_ (fuel : nat) (possible_base possible_derived : Z) : res bool :=
  match fuel with
  | O => Err NoFuel
  | S fuel' =>
      if possible_base =? possible_derived then Ret true else
      direct ← some_base (λ c, Ret (c =? possible_base)) (base_classes_list possible_derived);
      if (direct : bool) then Ret true
      else some_base (class_type_is_base_ fuel' possible_base) (base_classes_list possible_derived)
  end.

(** ** Ambiguous bases *)

(** [class_path_t]: the classes on the way and whether they are virtual.  The
    code adds the base that it looks for, not the class of the step. *)
Notation class_path_t := (list (Z * bool)).

(** Two paths, from their ends *)
Fixpoint different_subobjects_ (p q : class_path_t) (different : bool) : bool :=
  match p, q with
  | (c, v) :: p', (c', v') :: q' =>
      different_subobjects_ p' q' (if (c =? c') && (v && v') then false else different)
  | _, _ => different
  end.
Definition different_subobjects (p q : class_path_t) : bool := different_subobjects_ (rev p) (rev q) true.

(** Some two of the paths that found the base *)
Fixpoint found_to_be_ambiguous (paths : list class_path_t) : bool :=
  match paths with
  | [] => false
  | p :: paths' => existsb (different_subobjects p) paths' || found_to_be_ambiguous paths'
  end.

(** The loop over the bases; [step] looks for the base in a class, with a path
    to it. *)
Fixpoint search_bases (step : Z → class_path_t → bool → res (class_path_t * bool * bool))
    (base_class : Z) (path : class_path_t) (l : list base_class_info_t) (is_ambiguous : bool) :
    res (list (class_path_t * bool) * bool) :=
  match l with
  | [] => Ret ([], is_ambiguous)
  | b :: l' =>
      '(p, found, is_ambiguous) ←
        (if is_dependent b || is_expansion b then Ret (path, false, is_ambiguous)
         else
           let p := path ++ [(base_class, is_virtual b)] in
           if class_symbol b =? base_class then Ret (p, true, is_ambiguous)
           else step (class_symbol b) p is_ambiguous);
      '(rest, is_ambiguous) ← search_bases step base_class path l' is_ambiguous;
      Ret ((p, found) :: rest, is_ambiguous)
  end.

(** The path of the caller, [base_found] and [is_ambiguous] at the end *)
Fixpoint class_type_is_ambiguous_base_of_class_aux (fuel : nat) (base_class derived_class : Z)
    (base_class_path : class_path_t) (is_ambiguous : bool) : res (class_path_t * bool * bool) :=
  match fuel with
  | O => Err NoFuel
  | S fuel' =>
      '(found, is_ambiguous) ←
        search_bases (class_type_is_ambiguous_base_of_class_aux fuel' base_class) base_class
          base_class_path (base_classes_list derived_class) is_ambiguous;
      let paths := map fst (filter (λ pf : class_path_t * bool, pf.2 = true) found) in
      let base_found := negb (Nat.eqb (length paths) 0) in
      if (is_ambiguous : bool) then Ret (base_class_path, base_found, true)
      else if found_to_be_ambiguous paths then Ret (base_class_path, base_found, true)
      else match last paths with
           | Some p => Ret (base_class_path ++ p, true, false)
           | None => Ret (base_class_path, false, false)
           end
  end.

Definition class_type_is_ambiguous_base_of_derived_class (fuel : nat) (base_class derived_class : Z) : res bool :=
  if base_class =? derived_class then Ret false else
  '(_, base_found, is_ambiguous) ←
    class_type_is_ambiguous_base_of_class_aux fuel base_class derived_class [] false;
  if negb (base_found : bool) then Err Aborted else Ret is_ambiguous.
End bases.
