(* ===== verification/CxxBasesProps.v ===== *)
(** * Base classes: correctness of the searches

    In an acyclic hierarchy the search for a base ends and is correct; without
    virtual bases, the search for ambiguities counts the paths to a base. *)

From S2P Require Import Prelude CxxBases.
#[local] Open Scope Z_scope.

Section hierarchy.
Context (base_classes_list : Z → list base_class_info_t) (rank : Z → nat).
Hypothesis acyclic : ∀ c b, b ∈ base_classes_list c → (rank (class_symbol b) < rank c)%nat.

(** [direct d b]: [b] is a base of [d] that depends on no template parameter. *)
Definition direct (d c : Z) : Prop :=
  ∃ b, b ∈ base_classes_list d ∧ is_dependent b = false ∧ class_symbol b = c.

Lemma some_base_spec (f : Z → res bool) (Q : Z → Prop) l :
  (∀ b, b ∈ l → ∃ r, f (class_symbol b) = Ret r ∧ (r = true ↔ Q (class_symbol b))) →
  ∃ r, some_base f l = Ret r
  ∧ (r = true ↔ ∃ b, b ∈ l ∧ is_dependent b = false ∧ Q (class_symbol b)).
Proof.
  induction l as [|b l IH]; intros H; simpl.
  { exists false. split; [done|]. split; [done|]. intros (b & Hb & _). by apply elem_of_nil in Hb. }
  destruct IH as (r & Hr & Hiff); [intros b' Hb'; apply H; by right|].
  destruct (is_dependent b) eqn:Hd.
  - exists r. split; [done|]. rewrite Hiff. split.
    + intros (b' & Hb' & ?). exists b'. split; [by right|done].
    + intros (b' & [->|Hb']%elem_of_cons & Hd' & ?); [congruence|]. by exists b'.
  - destruct (H b) as (rb & -> & Hrb); [by left|]. simpl. destruct rb.
    + exists true. split; [done|]. split; [|done]. intros _. exists b. split; [by left|]. split; [done|by apply Hrb].
    + exists r. split; [done|]. rewrite Hiff. split.
      * intros (b' & Hb' & ?). exists b'. split; [by right|done].
      * intros (b' & [->|Hb']%elem_of_cons & Hd' & Hq); [by apply Hrb in Hq|]. by exists b'.
Qed.

Lemma is_base_spec fuel : ∀ b d, (rank d < fuel)%nat →
  ∃ r, class_type_is_base_ base_classes_list fuel b d = Ret r ∧ (r = true ↔ rtc direct d b).
Proof.
  induction fuel as [|fuel IH]; intros b d Hd; [lia|]. cbn [class_type_is_base_].
  destruct (Z.eqb_spec b d) as [->|Hne].
  { exists true. split; [done|]. split; [|done]. intros _. apply rtc_refl. }
  destruct (some_base_spec (λ c, Ret (c =? b)) (λ c, c = b) (base_classes_list d)) as (r & -> & Hr).
  { intros b' _. eexists. split; [done|]. apply Z.eqb_eq. }
  simpl. destruct r.
  { exists true. split; [done|]. split; [|done]. intros _. destruct (proj1 Hr eq_refl) as (b' & ? & ? & <-).
    apply rtc_once. by exists b'. }
  destruct (some_base_spec (class_type_is_base_ base_classes_list fuel b) (λ c, rtc direct c b) (base_classes_list d))
    as (r & Hrun & Hiff).
  { intros b' Hb'. apply IH. pose proof (acyclic d b' Hb'). lia. }
  exists r. split; [done|]. rewrite Hiff. split.
  - intros (b' & ? & ? & Hrtc). eapply rtc_l; [by exists b'|done].
  - intros Hrtc. apply rtc_inv in Hrtc as [->|(c & (b' & ? & ? & <-) & ?)]; [done|]. by exists b'.
Qed.

(** ** Paths to a base *)

Hypothesis no_virtual : ∀ c b, b ∈ base_classes_list c →
  is_virtual b = false ∧ is_dependent b = false ∧ is_expansion b = false.

(** The number of paths from a class to a base *)
Fixpoint count_paths (fuel : nat) (b d : Z) : nat :=
  match fuel with
  | O => 0
  | S fuel' => if d =? b then 1 else sum_list (map (λ x, count_paths fuel' b (class_symbol x)) (base_classes_list d))
  end.

Lemma count_paths_enough b : ∀ n m d, (rank d < n)%nat → (rank d < m)%nat → count_paths n b d = count_paths m b d.
Proof.
  induction n as [|n IH]; intros m d Hn Hm; [lia|]. destruct m as [|m]; [lia|]. simpl.
  destruct (d =? b); [done|]. f_equal. apply map_ext_in. intros x Hx. apply list_elem_of_In in Hx.
  pose proof (acyclic d x Hx). apply IH; lia.
Qed.

(** Paths without virtual steps lead to different subobjects. *)
Definition nonvirtual (p : list (Z * bool)) : Prop := Forall (λ cv, cv.2 = false) p.

Lemma different_nonvirtual p q d : nonvirtual p → different_subobjects_ p q d = d.
Proof.
  intros H. revert q d. induction H as [|[c v] p Hv _ IH]; intros q d; simpl; [done|]. simpl in Hv. subst.
  destruct q as [|[c' v'] q]; [done|]. rewrite IH. by rewrite andb_false_r.
Qed.

Lemma ambiguous_nonvirtual ps : Forall nonvirtual ps → found_to_be_ambiguous ps = (2 <=? length ps)%nat.
Proof.
  destruct ps as [|p [|q ps]]; [done|done|]. intros [Hp _]%Forall_cons. simpl.
  unfold different_subobjects. rewrite different_nonvirtual; [done|]. unfold nonvirtual. by apply Forall_rev.
Qed.

Notation aux := (class_type_is_ambiguous_base_of_class_aux base_classes_list).

Definition many (l : list nat) : bool := existsb (λ n, 2 <=? n)%nat l.

Lemma many_cons n l : many (n :: l) = (2 <=? n)%nat || many l.
Proof. done. Qed.

Lemma search_bases_spec (step : Z → list (Z * bool) → bool → res (list (Z * bool) * bool * bool)) (count : Z → nat) b p l :
  nonvirtual p →
  (∀ x, x ∈ l → is_virtual x = false ∧ is_dependent x = false ∧ is_expansion x = false) →
  count b = 1%nat →
  (∀ x p amb, x ∈ l → class_symbol x ≠ b → nonvirtual p → ∃ p', nonvirtual p'
    ∧ step (class_symbol x) p amb = Ret (p', (0 <? count (class_symbol x))%nat, amb || (2 <=? count (class_symbol x))%nat)) →
  ∀ amb, ∃ found, search_bases step b p l amb
    = Ret (found, amb || many (map (λ x, count (class_symbol x)) l))
  ∧ map snd found = map (λ x, 0 <? count (class_symbol x))%nat l ∧ Forall (λ pf, nonvirtual pf.1) found.
Proof.
  intros Hp Hv Hb Hstep. induction l as [|x l IH]; intros amb; simpl.
  { exists []. by rewrite orb_false_r. }
  destruct (Hv x) as (Hxv & -> & ->); [by left|]. simpl.
  assert (nonvirtual (p ++ [(b, is_virtual x)])) as Hp'.
  { apply Forall_app. split; [done|]. by constructor. }
  assert (∃ p', nonvirtual p' ∧ (if class_symbol x =? b then Ret (p ++ [(b, is_virtual x)], true, amb)
    else step (class_symbol x) (p ++ [(b, is_virtual x)]) amb)
    = Ret (p', (0 <? count (class_symbol x))%nat, amb || (2 <=? count (class_symbol x))%nat)) as (p' & Hp'' & ->).
  { destruct (Z.eqb_spec (class_symbol x) b) as [->|Hx]; [|by apply Hstep; [left|..]].
    eexists. split; [exact Hp'|]. by rewrite Hb, orb_false_r. }
  rewrite bind_ret. cbn beta iota. destruct (IH ltac:(intros y Hy; apply Hv; by right)) with
    (amb := amb || (2 <=? count (class_symbol x))%nat) as (found & -> & Hf & Hn).
  { intros y q a Hy. apply Hstep. by right. }
  rewrite bind_ret. cbn beta iota. eexists. split; [by rewrite <-orb_assoc|]. simpl. rewrite Hf.
  split; [done|]. by constructor.
Qed.

Lemma found_length (found : list (list (Z * bool) * bool)) (l : list nat) :
  map snd found = map (λ n, 0 <? n)%nat l →
  let n := length (filter (λ pf, pf.2 = true) found) in
  ((0 <? n) = (0 <? sum_list l))%nat ∧ many l || (2 <=? n)%nat = (2 <=? sum_list l)%nat.
Proof.
  intros H n. assert (Hn : (n ≤ sum_list l)%nat ∧ ((0 < sum_list l)%nat → (0 < n)%nat)
    ∧ (many l = false → n = sum_list l) ∧ (many l = true → (2 ≤ sum_list l)%nat)).
  { unfold n. clear n. revert l H. induction found as [|[p b] found IH]; intros [|k l] H; simpl in H; try done.
    injection H as -> H. destruct (IH l H) as (H1 & H2 & H3 & H4). rewrite filter_cons, many_cons.
    change (sum_list (k :: l)) with (k + sum_list l)%nat. cbn [snd].
    destruct (Nat.leb_spec 2 k) as [Hk2|Hk2]; cbn [orb]; destruct (Nat.ltb_spec 0 k) as [Hk|Hk];
      rewrite ?decide_True by done; rewrite ?decide_False by done; cbn [length]; try lia.
    - split; [lia|]. split; [lia|]. split; intros Hm; [specialize (H3 Hm)|specialize (H4 Hm)]; lia.
    - split; [lia|]. split; [lia|]. split; intros Hm; [specialize (H3 Hm)|specialize (H4 Hm)]; lia. }
  destruct Hn as (H1 & H2 & H3 & H4). split.
  - destruct (Nat.ltb_spec 0 n), (Nat.ltb_spec 0 (sum_list l)); [done|lia|lia|done].
  - destruct (many l); cbn [orb].
    + specialize (H4 eq_refl). by destruct (Nat.leb_spec 2 (sum_list l)); [|lia].
    + by rewrite H3.
Qed.

Lemma aux_spec fuel b : ∀ d p amb, (rank d < fuel)%nat → d ≠ b → nonvirtual p → ∃ p', nonvirtual p'
  ∧ aux fuel b d p amb = Ret (p', (0 <? count_paths fuel b d)%nat, amb || (2 <=? count_paths fuel b d)%nat).
Proof.
  induction fuel as [|fuel IH]; intros d p amb Hd Hne Hp; [lia|]. cbn [class_type_is_ambiguous_base_of_class_aux].
  destruct (search_bases_spec (aux fuel b) (λ c, if c =? b then 1%nat else count_paths fuel b c) b p (base_classes_list d))
    with (amb := amb) as (found & -> & Hf & Hn); [done|apply no_virtual|by rewrite Z.eqb_refl| |].
  { intros x q a Hx Hxb Hq. rewrite (proj2 (Z.eqb_neq _ _) Hxb). apply IH; [|done|done]. pose proof (acyclic d x Hx). lia. }
  rewrite bind_ret. cbn beta iota zeta.
  set (l := map (λ x, if class_symbol x =? b then 1%nat else count_paths fuel b (class_symbol x)) (base_classes_list d)) in *.
  assert (Hcount : count_paths (S fuel) b d = sum_list l).
  { simpl. rewrite (proj2 (Z.eqb_neq _ _) Hne). unfold l. f_equal. apply map_ext_in. intros x Hx.
    destruct (Z.eqb_spec (class_symbol x) b) as [E|E]; [|done]. apply list_elem_of_In in Hx. pose proof (acyclic d x Hx).
    destruct fuel; [lia|]. simpl. by rewrite E, Z.eqb_refl. }
  rewrite Hcount. destruct (found_length found l) as [H0 H2]; [by unfold l; rewrite map_map|].
  assert (Hps : Forall nonvirtual (map fst (filter (λ pf, pf.2 = true) found))).
  { apply Forall_fmap, Forall_forall. intros pf [_ Hpf]%list_elem_of_filter. rewrite Forall_forall in Hn. by apply Hn. }
  rewrite length_map. rewrite ambiguous_nonvirtual by done. rewrite length_map, <-H0.
  assert (Hbf : ∀ n, negb (Nat.eqb n 0) = (0 <? n)%nat) by by intros [|n].
  rewrite Hbf, <-H2. set (n := length (filter (λ pf, pf.2 = true) found)) in *.
  destruct amb; [by exists p|]. destruct (many l); cbn [orb]; [by exists p|].
  destruct (2 <=? n)%nat; [by exists p|].
  set (ps := map fst (filter (λ pf, pf.2 = true) found)) in *.
  assert (length ps = n) as Hlen by (by unfold ps, n; rewrite length_map).
  destruct (last ps) as [q|] eqn:E.
  - exists (p ++ q). apply last_Some in E as [ps' E]. split.
    + apply Forall_app. split; [done|]. rewrite E in Hps. apply Forall_app in Hps as [_ Hps]. by apply Forall_inv in Hps.
    + assert (0 < n)%nat as Hn0 by (rewrite <-Hlen, E, length_app; simpl; lia).
      apply Nat.ltb_lt in Hn0. by rewrite Hn0.
  - exists p. apply last_None in E. by rewrite <-Hlen, E.
Qed.

Lemma is_ambiguous_spec fuel b d : (rank d < fuel)%nat → (b = d ∨ 0 < count_paths fuel b d)%nat →
  class_type_is_ambiguous_base_of_derived_class base_classes_list fuel b d = Ret (2 <=? count_paths fuel b d)%nat.
Proof.
  intros Hd Hpos. unfold class_type_is_ambiguous_base_of_derived_class. destruct (Z.eqb_spec b d) as [->|Hne].
  - destruct fuel; [lia|]. cbn [count_paths]. by rewrite Z.eqb_refl.
  - destruct Hpos as [?|Hpos]; [done|].
    destruct (aux_spec fuel b d [] false) as (p & _ & ->); [done|congruence|by constructor|].
    rewrite bind_ret. apply Nat.ltb_lt in Hpos. by rewrite Hpos.
Qed.

Lemma count_paths_base fuel b : ∀ d, (rank d < fuel)%nat → (0 < count_paths fuel b d)%nat ↔ rtc direct d b.
Proof.
  induction fuel as [|fuel IH]; intros d Hd; [lia|]. cbn [count_paths].
  destruct (Z.eqb_spec d b) as [->|Hne]; [split; [intros _; apply rtc_refl|lia]|].
  assert (Hsum : ∀ l : list nat, (0 < sum_list l)%nat ↔ ∃ n, n ∈ l ∧ (0 < n)%nat).
  { induction l as [|n l IHl]; simpl; [split; [lia|by intros (n & ?%elem_of_nil & _)]|].
    split.
    - intros H. destruct (decide (0 < n)%nat); [exists n; split; [by left|done]|].
      destruct (proj1 IHl ltac:(lia)) as (k & ? & ?). exists k. split; [by right|done].
    - intros (k & [->|Hk]%elem_of_cons & ?); [lia|]. assert (0 < sum_list l)%nat by (apply IHl; eauto). lia. }
  rewrite Hsum. split.
  - intros (n & Hn & Hpos). apply list_elem_of_In, in_map_iff in Hn as (x & <- & Hx). apply list_elem_of_In in Hx.
    eapply rtc_l; [|apply (IH (class_symbol x)); [|exact Hpos]].
    + exists x. split; [done|]. split; [|done]. by apply (no_virtual d).
    + pose proof (acyclic d x Hx). lia.
  - intros Hrtc. apply rtc_inv in Hrtc as [->|(c & (x & Hx & _ & <-) & Hrtc)]; [done|].
    exists (count_paths fuel b (class_symbol x)). split.
    + apply list_elem_of_In, in_map_iff. exists x. split; [done|by apply list_elem_of_In].
    + apply IH; [|done]. pose proof (acyclic d x Hx). lia.
Qed.
End hierarchy.

(** ** The path of a virtual step *)

(** [D] has two virtual steps, to different classes, on its paths to [A]: the
    code takes the two [A]s for one. *)
Definition diamond_of_copies (c : Z) : list base_class_info_t :=
  match c with
  | 2 | 3 => [BaseInfo 1 false false false]
  | 4 => [BaseInfo 2 true false false]
  | 5 => [BaseInfo 3 true false false]
  | 6 => [BaseInfo 4 false false false; BaseInfo 5 false false false]
  | _ => []
  end.

Lemma copies_taken_for_one :
  class_type_is_ambiguous_base_of_derived_class diamond_of_copies 9 1 6 = Ret false
  ∧ count_paths diamond_of_copies 9 1 6 = 2%nat.
Proof. by vm_compute. Qed.
