(* ===== verification/CxxConv.v ===== *)
(** * Standard conversions ([frontend/cxx-typeutils.c])

    Predicates on types, the conversion of pointers, and
    [standard_conversion_between_types].  Left out: the Intel vector types, which
    are an option of the compiler, and classes of templates that are instantiated
    on the way. *)

From S2P Require Import Prelude CxxTypes CxxBases.
#[local] Open Scope Z_scope.

Definition MCXX_MAX_QUALIFIER_CONVERSION : nat := 256.

Inductive language := C_LANGUAGE | CXX_LANGUAGE.

(** [underlying_type_for_conversion] is the type that holds the enumerators. *)
Record enum_info_t := EnumInfo {
  is_scoped : bool; underlying_type_is_fixed : bool; underlying_type : type_t;
  underlying_type_for_conversion : type_t }.

(** What a compilation knows: the language, the identifier of its type
    environment and the type of [wchar_t] in it, and the classes and
    enumerations. *)
Record program := Program {
  lang : language; environ_id : string; wchar_t_type : type_t;
  enum_info : Z → enum_info_t; base_classes_list : Z → list base_class_info_t }.

Inductive standard_conversion_item_t :=
  | SCI_INVALID | SCI_NO_CONVERSION | SCI_IDENTITY | SCI_DERIVED_TO_BASE
  | SCI_LVALUE_TO_RVALUE | SCI_ARRAY_TO_POINTER | SCI_FUNCTION_TO_POINTER
  | SCI_INTEGRAL_PROMOTION | SCI_VECTOR_INTEGRAL_PROMOTION | SCI_FLOATING_PROMOTION
  | SCI_INTEGRAL_CONVERSION | SCI_FLOATING_CONVERSION | SCI_FLOATING_INTEGRAL_CONVERSION
  | SCI_INTEGRAL_FLOATING_CONVERSION
  | SCI_ZERO_TO_POINTER_CONVERSION | SCI_ZERO_TO_NULLPTR | SCI_NULLPTR_TO_POINTER_CONVERSION
  | SCI_CLASS_POINTER_DERIVED_TO_BASE_CONVERSION | SCI_POINTER_TO_MEMBER_BASE_TO_DERIVED_CONVERSION
  | SCI_POINTER_TO_VOID_CONVERSION | SCI_VOID_TO_POINTER_CONVERSION
  | SCI_INTEGRAL_TO_POINTER_CONVERSION | SCI_POINTER_TO_INTEGRAL_CONVERSION
  | SCI_POINTER_TO_POINTER_CONVERSION | SCI_BOOLEAN_CONVERSION
  | SCI_INTEGRAL_TO_COMPLEX_CONVERSION | SCI_FLOAT_TO_COMPLEX_PROMOTION | SCI_FLOAT_TO_COMPLEX_CONVERSION
  | SCI_COMPLEX_FLOATING_INTEGRAL_CONVERSION | SCI_COMPLEX_CONVERSION | SCI_COMPLEX_PROMOTION
  | SCI_COMPLEX_TO_INTEGRAL_CONVERSION | SCI_COMPLEX_TO_FLOAT_CONVERSION
  | SCI_SCALAR_TO_VECTOR_CONVERSION | SCI_QUALIFICATION_CONVERSION.

#[export] Instance sci_eq_dec : EqDecision standard_conversion_item_t.
Proof. solve_decision. Defined.
#[export] Instance language_eq_dec : EqDecision language.
Proof. solve_decision. Defined.

Record standard_conversion_t := SCS {
  orig : type_t; dest : type_t;
  conv0 : standard_conversion_item_t; conv1 : standard_conversion_item_t; conv2 : standard_conversion_item_t }.

Definition get_identity_scs (t_orig t_dest : type_t) : standard_conversion_t :=
  SCS t_orig t_dest SCI_IDENTITY SCI_NO_CONVERSION SCI_NO_CONVERSION.

Definition standard_conversion_is_invalid (scs : standard_conversion_t) : bool :=
  bool_decide (conv0 scs = SCI_NO_CONVERSION) && bool_decide (conv1 scs = SCI_NO_CONVERSION)
  && bool_decide (conv2 scs = SCI_NO_CONVERSION).

(** ** Predicates *)

(** The node under the typedefs *)
Definition node_of (t : type_t) : type_t := (advance t).1.

Definition builtin_of (t : type_t) : option simple_type_t :=
  match node_of t with Builtin _ _ s => Some s | _ => None end.
Definition is_builtin (p : simple_type_t → bool) (t : type_t) : bool :=
  match builtin_of t with Some s => p s | None => false end.
Definition has_kind (k : builtin_type_t) (s : simple_type_t) : bool := bool_decide (builtin_type s = k).

Definition is_void_type := is_builtin (has_kind BT_VOID).
Definition is_bool_type := is_builtin (has_kind BT_BOOL).
Definition is_nullptr_type := is_builtin (has_kind BT_NULLPTR_T).
Definition is_char16_t_type := is_builtin (has_kind BT_CHAR16_T).
Definition is_char32_t_type := is_builtin (has_kind BT_CHAR32_T).
Definition is_character_type := is_builtin (has_kind BT_CHAR).
Definition is_char_type := is_builtin (λ s, has_kind BT_CHAR s && negb (is_signed s) && negb (is_unsigned s)).
Definition is_signed_char_type := is_builtin (λ s, has_kind BT_CHAR s && is_signed s && negb (is_unsigned s)).
Definition is_unsigned_char_type := is_builtin (λ s, has_kind BT_CHAR s && negb (is_signed s) && is_unsigned s).
Definition is_any_int_type := is_builtin (λ s, has_kind BT_INT s || has_kind BT_BYTE s).
Definition is_int_ (sign short : bool) : type_t → bool :=
  is_builtin (λ s, has_kind BT_INT s && eqb (is_signed s) sign && eqb (is_unsigned s) (negb sign)
                   && (is_long s =? 0) && eqb (is_short s) short).
Definition is_signed_int_type := is_int_ true false.
Definition is_signed_short_int_type := is_int_ true true.
Definition is_unsigned_short_int_type := is_int_ false true.
Definition is_floating_type :=
  is_builtin (λ s, has_kind BT_FLOAT s || has_kind BT_DOUBLE s || has_kind BT_OTHER_FLOAT s).
Definition is_float_type := is_builtin (has_kind BT_FLOAT).
Definition is_double_type := is_builtin (λ s, has_kind BT_DOUBLE s && (is_long s =? 0)).
Definition is_long_double_type := is_builtin (λ s, has_kind BT_DOUBLE s && negb (is_long s =? 0)).

(** [is_zero_type]: the type of a literal 0 *)
Definition is_zero (t : type_t) : bool := match node_of t with Builtin _ z _ => z | _ => false end.

Definition is_complex_type (t : type_t) : bool := match node_of t with Complex _ _ => true | _ => false end.
Definition is_vector_type (t : type_t) : bool := match node_of t with Vector _ _ _ => true | _ => false end.
Definition is_mask_type (t : type_t) : bool := match node_of t with Mask _ _ _ => true | _ => false end.
Definition is_pointer_type (t : type_t) : bool := match node_of t with Pointer _ _ => true | _ => false end.
Definition is_pointer_to_member_type (t : type_t) : bool :=
  match node_of t with PointerToMember _ _ _ => true | _ => false end.
Definition is_array_type (t : type_t) : bool := match node_of t with Array _ _ _ _ => true | _ => false end.
Definition is_function_type (t : type_t) : bool :=
  match node_of t with Function _ _ _ _ => true | _ => false end.
(** References that can be bound again count as lvalue references. *)
Definition is_lvalue_reference_type (t : type_t) : bool :=
  match node_of t with
  | Reference _ (TK_LVALUE_REFERENCE | TK_REBINDABLE_REFERENCE) _ => true | _ => false end.
Definition is_rvalue_reference_type (t : type_t) : bool :=
  match node_of t with Reference _ TK_RVALUE_REFERENCE _ => true | _ => false end.
Definition is_any_reference_type (t : type_t) : bool :=
  is_lvalue_reference_type t || is_rvalue_reference_type t.

(** Parts of types.  The code calls these functions after the predicate that
    their [ERROR_CONDITION] states. *)
Definition pointer_type_get_pointee_type (t : type_t) : type_t :=
  match node_of t with Pointer _ u | PointerToMember _ u _ => u | u => u end.
Definition pointer_to_member_type_get_class_type (t : type_t) : type_t :=
  match node_of t with PointerToMember _ _ c => c | u => u end.
Definition reference_type_get_referenced_type (t : type_t) : type_t :=
  match node_of t with Reference _ _ u => u | u => u end.
Definition array_type_get_element_type (t : type_t) : type_t :=
  match advance_over_typedefs t with Array _ u _ _ => u | u => u end.
Definition array_type_is_string_literal (t : type_t) : bool :=
  match node_of t with Array _ _ _ l => l | _ => false end.
Definition complex_type_get_base_type (t : type_t) : type_t :=
  match node_of t with Complex _ u => u | u => u end.
Definition vector_type_get_element_type (t : type_t) : type_t :=
  match node_of t with Vector _ _ u => u | u => u end.
Definition vector_type_get_vector_size_in_bytes (t : type_t) : Z :=
  match node_of t with Vector _ n _ => n | _ => 0 end.
Definition mask_type_get_underlying_type (t : type_t) : type_t :=
  match node_of t with Mask _ _ u => u | u => u end.

Definition no_ref (t : type_t) : type_t :=
  if is_lvalue_reference_type t || is_rvalue_reference_type t then reference_type_get_referenced_type t else t.

Definition is_void_pointer_type (t : type_t) : bool :=
  match node_of t with Pointer _ u => is_void_type u | _ => false end.
Definition is_pointer_to_void_type (t : type_t) : bool :=
  is_pointer_type t && is_void_type (pointer_type_get_pointee_type t).

(** A class or an enumeration, through its name *)
Definition get_actual_class_type (t : type_t) : option Z :=
  match node_of t with
  | Indirect _ _ _ (Class _ c) | Class _ c => Some c
  | _ => None
  end.
Definition is_class_type (t : type_t) : bool := bool_decide (is_Some (get_actual_class_type t)).
Definition is_pointer_to_class_type (t : type_t) : bool :=
  is_pointer_type t && is_class_type (pointer_type_get_pointee_type t).
Definition is_any_reference_to_class_type (t : type_t) : bool :=
  is_any_reference_type t && is_class_type (reference_type_get_referenced_type t).

Definition get_actual_enum_type (t : type_t) : option Z :=
  match node_of t with
  | Enum _ e => Some e
  | Indirect _ _ _ t' => match node_of t' with Enum _ e => Some e | _ => None end
  | _ => None
  end.
Definition is_enum_type (t : type_t) : bool := bool_decide (is_Some (get_actual_enum_type t)).

Section conversions.
Context (P : program) (fuel : nat).

Definition IS_C_LANGUAGE : bool := bool_decide (lang P = C_LANGUAGE).
Definition IS_CXX_LANGUAGE : bool := bool_decide (lang P = CXX_LANGUAGE).

Definition is_unscoped_enum_type (t : type_t) : bool :=
  match get_actual_enum_type t with Some e => negb (is_scoped (enum_info P e)) | None => false end.
Definition enum_type_get_underlying_type_for_conversion (t : type_t) : type_t :=
  match get_actual_enum_type t with
  | Some e => let i := enum_info P e in
      if underlying_type_is_fixed i then underlying_type i else underlying_type_for_conversion i
  | None => t
  end.

Definition is_wchar_t_type (t : type_t) : bool :=
  if IS_C_LANGUAGE then equivalent_types (advance_over_typedefs t) (wchar_t_type P)
  else is_builtin (has_kind BT_WCHAR) t.
Definition is_integral_type (t : type_t) : bool :=
  is_any_int_type t || is_bool_type t || is_character_type t || is_char16_t_type t || is_char32_t_type t
  || is_wchar_t_type t || (is_enum_type t && IS_C_LANGUAGE) || is_mask_type t.
Definition is_integer_type := is_integral_type.
Definition is_arithmetic_type (t : type_t) : bool :=
  is_integral_type t || is_floating_type t || is_complex_type t.

(** ** Class hierarchies *)

Definition class_type_is_base (possible_base possible_derived : type_t) : res bool :=
  match get_actual_class_type possible_base, get_actual_class_type possible_derived with
  | Some b, Some d => class_type_is_base_ (base_classes_list P) fuel b d
  | _, _ => Err Aborted
  end.
Definition class_type_is_derived (possible_derived possible_base : type_t) : res bool :=
  class_type_is_base possible_base possible_derived.
Definition class_type_is_base_strict (possible_base possible_derived : type_t) : res bool :=
  if equivalent_types (get_unqualified_type (advance_over_typedefs possible_base))
       (get_unqualified_type (advance_over_typedefs possible_derived))
  then Ret false else class_type_is_base possible_base possible_derived.
Definition is_ambiguous_base (base_class derived_class : type_t) : res bool :=
  match get_actual_class_type base_class, get_actual_class_type derived_class with
  | Some b, Some d => class_type_is_ambiguous_base_of_derived_class (base_classes_list P) fuel b d
  | _, _ => Err Aborted
  end.

(** [a && b], where [b] may fail *)
Definition and_then (a : bool) (b : res bool) : res bool := if a then b else Ret false.

Definition is_unambiguous_base (is_base : type_t → type_t → res bool) (base derived : type_t) : res bool :=
  b ← is_base base derived;
  if (b : bool) then a ← is_ambiguous_base base derived; Ret (negb a) else Ret false.

(** ** Pointers *)

Definition decay (t : type_t) : type_t :=
  if is_array_type t then Pointer CV_NONE (array_type_get_element_type t)
  else if is_function_type t then Pointer CV_NONE t else t.

(** The loop that goes under the pointers of both types *)
Fixpoint under_pointers (n : nat) (t1 t2 : type_t) : type_t * type_t :=
  match n with
  | O => (t1, t2)
  | S n' =>
      if is_pointer_type t1 && is_pointer_type t2
      then under_pointers n' (pointer_type_get_pointee_type t1) (pointer_type_get_pointee_type t2)
      else (t1, t2)
  end.

Definition pointer_types_are_similar (t_orig t_dest : type_t) : bool :=
  let orig := decay t_orig in
  let dest := decay t_dest in
  if (is_void_pointer_type orig && is_pointer_type dest) || (is_pointer_type orig && is_void_pointer_type dest)
  then true
  else if IS_C_LANGUAGE
       && ((is_pointer_type orig && is_pointer_type dest)
           || (is_integer_type orig && is_pointer_type dest) || (is_integer_type dest && is_pointer_type orig))
  then true
  else if (is_zero orig && is_pointer_type dest) || (is_zero dest && is_pointer_type orig) then true
  else if negb (is_pointer_type orig) || negb (is_pointer_type dest) then false
  else let '(o, d) := under_pointers (depth orig) orig dest in
       equivalent_types (get_unqualified_type o) (get_unqualified_type d).

Definition both_pointers (t1 t2 : type_t) : bool :=
  (is_pointer_type t1 && is_pointer_type t2)
  || (is_pointer_to_member_type t1 && is_pointer_to_member_type t2).

(** The first loop: the qualifiers under the pointers, outermost first, and
    whether the types are similar.  [room] is what is left of the arrays. *)
Fixpoint gather_qualifs (room : nat) (t1 t2 : type_t) : res (bool * list (Z * Z)) :=
  match room with
  | O => Err Aborted
  | S room' =>
      let q := (get_cv_qualifier t1, get_cv_qualifier t2) in
      if both_pointers t1 t2 then
        if is_pointer_to_member_type t1 && is_pointer_to_member_type t2
           && negb (equivalent_types (pointer_to_member_type_get_class_type t1)
                      (pointer_to_member_type_get_class_type t2))
        then Ret (false, [q])
        else
          '(ok, qs) ← gather_qualifs room' (pointer_type_get_pointee_type t1) (pointer_type_get_pointee_type t2);
          Ret (ok, q :: qs)
      else Ret (equivalent_types (get_unqualified_type t1) (get_unqualified_type t2), [q])
  end.

(** The second loop, over [i]; [before] are the qualifiers of the destination
    between 1 and [i] *)
Fixpoint check_qualifs (before : list Z) (qs : list (Z * Z)) : bool :=
  match qs with
  | [] => true
  | (q1, q2) :: qs' =>
      if is_const_qualified q1 && negb (is_const_qualified q2) then false
      else if is_volatile_qualified q1 && negb (is_volatile_qualified q2) then false
      else if negb (is_equal_cv_qualified q1 q2) && negb (forallb is_const_qualified before) then false
      else check_qualifs (before ++ [q2]) qs'
  end.

Definition pointer_types_can_be_converted (orig dest : type_t) : res bool :=
  if negb (both_pointers orig dest) then Err Aborted else
  '(similar, qualifs) ← gather_qualifs MCXX_MAX_QUALIFIER_CONVERSION orig dest;
  Ret ((similar : bool) && check_qualifs [] (tail qualifs)).

(** ** [standard_conversion_between_types]

    A conversion, or [None] when there is none.  A phase that goes on gives
    [None] in an option of its own. *)

Notation answer := (option standard_conversion_t).

(** C: binding to a reference, an extension of the compiler *)
Definition c_binding (t_orig t_dest : type_t) : option answer :=
  if IS_C_LANGUAGE && is_lvalue_reference_type t_dest then
    if negb (is_lvalue_reference_type t_orig) then Some None else
    let ref_dest := reference_type_get_referenced_type t_dest in
    let ref_orig := reference_type_get_referenced_type t_orig in
    if equivalent_types (get_unqualified_type ref_orig) (get_unqualified_type ref_dest)
    then Some (Some (get_identity_scs t_orig t_dest))
    else if is_void_type ref_orig then Some (Some (get_identity_scs t_orig t_dest)) else None
  else None.

(** The types are the same, or one is a base of the other, qualifiers apart. *)
Definition reference_compatible (ref_orig ref_dest : type_t) : res bool :=
  let unqualif_ref_orig := get_unqualified_type ref_orig in
  let unqualif_ref_dest := get_unqualified_type ref_dest in
  if equivalent_types unqualif_ref_orig unqualif_ref_dest then Ret true
  else and_then (is_class_type unqualif_ref_dest && is_class_type unqualif_ref_orig)
         (is_unambiguous_base class_type_is_base unqualif_ref_dest unqualif_ref_orig).

(** [cv1 T1& -> cv2 T2&] and [cv1 T1&& -> cv2 T2&&] *)
Definition bind_lvalue (t_orig t_dest : type_t) : res (option answer) :=
  if is_lvalue_reference_type t_orig && is_lvalue_reference_type t_dest then
    let ref_dest := reference_type_get_referenced_type t_dest in
    let ref_orig := reference_type_get_referenced_type t_orig in
    compatible ← reference_compatible ref_orig ref_dest;
    Ret (if (compatible : bool) then
           Some (if negb (is_more_or_equal_cv_qualified_type ref_dest ref_orig) then None
                 else Some (get_identity_scs t_orig t_dest))
         else None)
  else Ret None.

Definition bind_rvalue (t_orig t_dest : type_t) : res (option answer) :=
  if is_rvalue_reference_type t_orig && is_rvalue_reference_type t_dest then
    let ref_dest := reference_type_get_referenced_type t_dest in
    let ref_orig := reference_type_get_referenced_type t_orig in
    compatible ← reference_compatible ref_orig ref_dest;
    Ret (if (compatible : bool) then
           Some (if negb (is_more_or_equal_cv_qualified_type ref_dest ref_orig) then None
                 else Some (get_identity_scs t_orig t_dest))
         else if is_nullptr_type ref_orig && is_pointer_type ref_dest then
           Some (Some (SCS t_orig t_dest SCI_NO_CONVERSION SCI_NULLPTR_TO_POINTER_CONVERSION SCI_NO_CONVERSION))
         else None)
  else Ret None.

(** [cv1 T1 -> const T2&] and [cv1 T1 -> cv2 T2&&]; [rec] is the conversion of
    the values.  When the function goes on, [conv[0]] is what this phase left in
    it. *)
Definition bind_temporary (rec : type_t → type_t → res answer) (orig dest : type_t) :
    res (answer + standard_conversion_item_t) :=
  if (is_lvalue_reference_type dest && is_const_qualified_type (reference_type_get_referenced_type dest))
     || (negb (is_lvalue_reference_type orig) && is_rvalue_reference_type dest
         && is_more_or_equal_cv_qualified_type (no_ref dest) (no_ref orig))
  then
    derived ← and_then (is_class_type (no_ref orig) && is_class_type (no_ref dest))
      (b ← class_type_is_base (no_ref dest) (get_unqualified_type (no_ref orig));
       if (b : bool) then a ← is_ambiguous_base (no_ref dest) (no_ref orig); Ret (negb a) else Ret false);
    if (derived : bool) then Ret (inl (Some (get_identity_scs orig dest))) else
    conversion_among_lvalues ← rec (no_ref orig) (get_unqualified_type (no_ref dest));
    Ret (match conversion_among_lvalues with
         | Some c => inl (Some (SCS orig dest (conv0 c) (conv1 c) (conv2 c)))
         | None => inr SCI_IDENTITY
         end)
  else Ret (inr SCI_NO_CONVERSION).

(** The first kind of conversion: [conv[0]], [start] before, and the new origin *)
Definition lvalue_transformation (start : standard_conversion_item_t) (orig dest : type_t) : standard_conversion_item_t * type_t :=
  if is_array_type (no_ref orig) then
    (SCI_ARRAY_TO_POINTER, Pointer CV_NONE (array_type_get_element_type (no_ref orig)))
  else if is_function_type (no_ref orig) then (SCI_FUNCTION_TO_POINTER, Pointer CV_NONE (no_ref orig))
  else if is_lvalue_reference_type orig && negb (is_lvalue_reference_type dest) then
    (SCI_LVALUE_TO_RVALUE, reference_type_get_referenced_type orig)
  else (start, orig).

Definition unpack_mask (t : type_t) : type_t :=
  if is_mask_type t then get_cv_qualified_type (mask_type_get_underlying_type t) (get_cv_qualifier t) else t.

(** Types that are promoted to [int] *)
Definition is_promoted_to_int (t : type_t) : bool :=
  is_char_type t || is_signed_char_type t || is_unsigned_char_type t || is_signed_short_int_type t
  || is_unsigned_short_int_type t || is_char16_t_type t || is_char32_t_type t || is_wchar_t_type t
  || is_bool_type t.

(** The second kind of conversion between arithmetic types; the origin becomes
    the destination. *)
Definition arithmetic_conversion (orig dest : type_t) : option standard_conversion_item_t :=
  let orig_underlying_type := enum_type_get_underlying_type_for_conversion orig in
  if is_signed_int_type dest && is_promoted_to_int orig then Some SCI_INTEGRAL_PROMOTION
  else if is_signed_int_type dest && is_unscoped_enum_type orig
          && (is_promoted_to_int orig_underlying_type || is_signed_int_type orig_underlying_type)
  then Some SCI_INTEGRAL_PROMOTION
  else if is_integer_type dest && is_unscoped_enum_type orig && is_integer_type orig_underlying_type
          && equivalent_types orig_underlying_type dest
  then Some SCI_INTEGRAL_PROMOTION
  else if (is_double_type dest && is_float_type orig)
          || (is_long_double_type dest && (is_float_type orig || is_double_type orig))
  then Some SCI_FLOATING_PROMOTION
  else if is_integer_type dest && is_integer_type orig && negb (is_bool_type dest) && negb (is_bool_type orig)
          && negb (equivalent_types dest orig)
  then Some SCI_INTEGRAL_CONVERSION
  else if is_integer_type dest && negb (is_bool_type dest) && is_unscoped_enum_type orig
          && is_integer_type orig_underlying_type && negb (equivalent_types orig_underlying_type dest)
  then Some SCI_INTEGRAL_CONVERSION
  else if is_bool_type dest && negb (is_bool_type orig)
          && (is_arithmetic_type orig || is_unscoped_enum_type orig || is_pointer_type orig
              || is_pointer_to_member_type orig)
  then Some SCI_BOOLEAN_CONVERSION
  else if is_integer_type dest && is_bool_type orig then Some SCI_INTEGRAL_CONVERSION
  else if is_floating_type dest && is_floating_type orig then Some SCI_FLOATING_CONVERSION
  else if is_floating_type orig && is_integer_type dest then Some SCI_FLOATING_INTEGRAL_CONVERSION
  else if is_floating_type dest && is_integer_type orig then Some SCI_INTEGRAL_FLOATING_CONVERSION
  else if is_floating_type dest && is_bool_type orig then Some SCI_INTEGRAL_FLOATING_CONVERSION
  else if is_floating_type dest && is_unscoped_enum_type orig then Some SCI_INTEGRAL_FLOATING_CONVERSION
  else None.

Notation step := (standard_conversion_item_t * type_t * type_t)%type.

(** The second kind of conversion between pointers: the conversion, the new
    origin and the new destination *)
Definition pointer_conversion (orig dest : type_t) : res (option step) :=
  if is_zero orig && (is_pointer_type dest || is_pointer_to_member_type dest) then
    Ret (Some (SCI_ZERO_TO_POINTER_CONVERSION, dest, dest))
  else if IS_CXX_LANGUAGE && is_nullptr_type orig && (is_pointer_type dest || is_pointer_to_member_type dest) then
    Ret (Some (SCI_NULLPTR_TO_POINTER_CONVERSION, dest, dest))
  else if IS_CXX_LANGUAGE && is_zero orig && is_nullptr_type dest then
    Ret (Some (SCI_ZERO_TO_NULLPTR, dest, dest))
  else if is_pointer_type orig && is_pointer_to_void_type dest then
    Ret (Some (SCI_POINTER_TO_VOID_CONVERSION,
      Pointer CV_NONE (get_cv_qualified_type (Builtin CV_NONE false (Simple BT_VOID 0 false false false 0))
        (get_cv_qualifier (pointer_type_get_pointee_type orig))), dest))
  else if IS_C_LANGUAGE && is_pointer_type dest && negb (is_pointer_to_void_type dest)
          && is_pointer_to_void_type orig then
    Ret (Some (SCI_VOID_TO_POINTER_CONVERSION, orig, get_unqualified_type orig))
  else if IS_C_LANGUAGE && is_integral_type orig && is_pointer_type dest then
    Ret (Some (SCI_INTEGRAL_TO_POINTER_CONVERSION, orig, get_unqualified_type orig))
  else if IS_C_LANGUAGE && is_integral_type dest && is_pointer_type orig then
    Ret (Some (SCI_POINTER_TO_INTEGRAL_CONVERSION, orig, get_unqualified_type orig))
  else
    to_base ← and_then (is_pointer_to_class_type orig && is_pointer_to_class_type dest)
      (is_unambiguous_base class_type_is_base_strict
         (pointer_type_get_pointee_type dest) (pointer_type_get_pointee_type orig));
    if (to_base : bool) then
      Ret (Some (SCI_CLASS_POINTER_DERIVED_TO_BASE_CONVERSION,
        Pointer CV_NONE (get_unqualified_type (pointer_type_get_pointee_type dest)), dest))
    else
    to_derived ← and_then (is_pointer_to_member_type orig && is_pointer_to_member_type dest)
      (is_unambiguous_base class_type_is_base_strict
         (pointer_to_member_type_get_class_type orig) (pointer_to_member_type_get_class_type dest));
    if (to_derived : bool) then
      Ret (Some (SCI_POINTER_TO_MEMBER_BASE_TO_DERIVED_CONVERSION,
        PointerToMember CV_NONE (get_unqualified_type (pointer_type_get_pointee_type dest))
          (pointer_to_member_type_get_class_type dest), dest))
    else Ret None.

(** A promotion between floating types *)
Definition is_wider_floating (orig dest : type_t) : bool :=
  (is_double_type dest && is_float_type orig)
  || (is_long_double_type dest && (is_float_type orig || is_double_type orig)).

(** The second kind of conversion with [_Complex]; the origin becomes the
    destination. *)
Definition complex_conversion (orig dest : type_t) : option standard_conversion_item_t :=
  let base_dest := complex_type_get_base_type dest in
  let base_orig := complex_type_get_base_type orig in
  if is_integer_type orig && is_complex_type dest && is_floating_type base_dest
  then Some SCI_INTEGRAL_TO_COMPLEX_CONVERSION
  else if is_complex_type orig && is_floating_type base_orig && is_integer_type dest
  then Some SCI_COMPLEX_TO_INTEGRAL_CONVERSION
  else if is_floating_type orig && negb (is_complex_type orig) && is_complex_type dest
          && is_wider_floating orig base_dest
  then Some SCI_FLOAT_TO_COMPLEX_PROMOTION
  else if is_complex_type orig && is_complex_type dest
          && ((is_floating_type base_orig && is_integer_type base_dest)
              || (is_integer_type base_orig && is_floating_type base_dest))
  then Some SCI_COMPLEX_FLOATING_INTEGRAL_CONVERSION
  else if is_floating_type orig && negb (is_complex_type orig) && is_complex_type dest
  then Some SCI_FLOAT_TO_COMPLEX_CONVERSION
  else if is_complex_type orig && is_complex_type dest && is_wider_floating base_orig base_dest
  then Some SCI_COMPLEX_PROMOTION
  else if is_complex_type orig && is_complex_type dest then Some SCI_COMPLEX_CONVERSION
  else if is_complex_type orig && is_floating_type dest then Some SCI_COMPLEX_TO_FLOAT_CONVERSION
  else None.

(** Vectors of the SSE types that are declared with other elements: they are
    compatible, without a conversion. *)
Definition compatible_sse_vectors (orig dest : type_t) : bool :=
  let size := vector_type_get_vector_size_in_bytes orig in
  bool_decide (environ_id P = "linux-x86_64"%string ∨ environ_id P = "linux-i386"%string)
  && is_vector_type orig && is_vector_type dest
  && ((size =? 8) || (size =? 16) || (size =? 32))
  && (size =? vector_type_get_vector_size_in_bytes dest)
  && (eqb (is_integral_type (vector_type_get_element_type orig)) (is_integral_type (vector_type_get_element_type dest))
      || eqb (is_floating_type (vector_type_get_element_type orig))
           (is_floating_type (vector_type_get_element_type dest))).

(** The second kind of conversion *)
Definition second_conversion (orig dest : type_t) : res step :=
  if equivalent_types (get_unqualified_type dest) (get_unqualified_type orig)
  then Ret (SCI_NO_CONVERSION, orig, dest) else
  match arithmetic_conversion orig dest with
  | Some c => Ret (c, dest, dest)
  | None =>
      p ← pointer_conversion orig dest;
      match p with
      | Some s => Ret s
      | None =>
          Ret (match complex_conversion orig dest with
               | Some c => (c, dest, dest)
               | None =>
                   if is_arithmetic_type orig && is_vector_type dest then
                     (SCI_SCALAR_TO_VECTOR_CONVERSION, orig, vector_type_get_element_type (no_ref dest))
                   else if compatible_sse_vectors orig dest then (SCI_NO_CONVERSION, dest, dest)
                   else (SCI_NO_CONVERSION, orig, dest)
               end)
      end
  end.

(** The third kind of conversion; in C it may change the second one. *)
Definition third_conversion (is_string_literal : bool) (second : standard_conversion_item_t) (orig dest : type_t) :
    res (standard_conversion_item_t * standard_conversion_item_t * type_t) :=
  if negb (equivalent_types orig dest) && both_pointers orig dest then
    can ← pointer_types_can_be_converted orig dest;
    let pointee := pointer_type_get_pointee_type dest in
    Ret (if (can : bool) then (second, SCI_QUALIFICATION_CONVERSION, dest)
         else if IS_CXX_LANGUAGE && is_string_literal && is_pointer_type dest
                 && is_char_type pointee && negb (is_const_qualified_type pointee)
         then (second, SCI_QUALIFICATION_CONVERSION, dest)
         else if IS_CXX_LANGUAGE && is_string_literal && is_pointer_type dest
                 && is_wchar_t_type pointee && negb (is_const_qualified_type pointee)
         then (second, SCI_QUALIFICATION_CONVERSION, dest)
         else if IS_C_LANGUAGE then (SCI_POINTER_TO_POINTER_CONVERSION, SCI_NO_CONVERSION, dest)
         else (second, SCI_NO_CONVERSION, orig))
  else Ret (second, SCI_NO_CONVERSION, orig).

(** [restrict] and [volatile] at the top do not matter. *)
Definition drop_restrict_volatile (t : type_t) : type_t :=
  let t := if is_restrict_qualified_type t
           then get_cv_qualified_type t (Z.land (get_cv_qualifier t) (Z.lnot CV_RESTRICT)) else t in
  if is_volatile_qualified_type t
  then get_cv_qualified_type t (Z.land (get_cv_qualifier t) (Z.lnot CV_VOLATILE)) else t.

(** The conversion of values, after the bindings *)
Definition value_conversion (start : standard_conversion_item_t) (t_orig t_dest : type_t) : res answer :=
  let orig := if is_rvalue_reference_type t_orig then no_ref t_orig else t_orig in
  let is_string_literal := is_array_type (no_ref orig) && array_type_is_string_literal (no_ref orig) in
  let '(first, orig) := lvalue_transformation start orig t_dest in
  '(second, orig, dest) ← second_conversion (unpack_mask orig) (unpack_mask t_dest);
  '(second, third, orig) ← third_conversion is_string_literal second orig dest;
  let orig := get_unqualified_type (drop_restrict_volatile orig) in
  let dest := drop_restrict_volatile dest in
  if negb (equivalent_types orig dest) then Ret None else
  let result := SCS t_orig t_dest first second third in
  Ret (Some (if standard_conversion_is_invalid result then get_identity_scs t_orig t_dest else result)).

(** The recursion goes under the reference of the destination. *)
Fixpoint standard_conversion_between_types (n : nat) (t_orig t_dest : type_t) : res answer :=
  match n with
  | O => Err NoFuel
  | S n' =>
      if equivalent_types t_orig t_dest then Ret (Some (get_identity_scs t_orig t_dest)) else
      match c_binding t_orig t_dest with
      | Some a => Ret a
      | None =>
          b ← bind_lvalue t_orig t_dest;
          match b with Some a => Ret a | None =>
          b ← bind_rvalue t_orig t_dest;
          match b with Some a => Ret a | None =>
          b ← bind_temporary (standard_conversion_between_types n') t_orig t_dest;
          match b with inl a => Ret a | inr start => value_conversion start t_orig t_dest end end end
      end
  end.
End conversions.
