(* ===== verification/CxxQual.v ===== *)
(** * Qualification conversions

    [pointer_types_can_be_converted] is the rule of the C++ standard
    ([conv.qual]) on the qualifiers that it reads; they are ordered as sets, and
    the conversions compose. *)

From S2P Require Import Prelude CxxTypes CxxEquiv CxxConv.
#[local] Open Scope Z_scope.

(** ** Sets of qualifiers *)

Definition all_qualifiers : list Z := [0; 2; 4; 6; 8; 10; 12; 14].

(** A proper subset *)
Definition fewer (q1 q2 : Z) : bool := (Z.land q1 q2 =? q1) && negb (q1 =? q2).

Lemma is_less_cv_qualified_subset q1 q2 : q1 ∈ all_qualifiers → q2 ∈ all_qualifiers →
  is_less_cv_qualified q1 q2 = fewer q1 q2.
Proof.
  intros H1 H2. assert (forallb (λ q1, forallb (λ q2, eqb (is_less_cv_qualified q1 q2) (fewer q1 q2)) all_qualifiers)
    all_qualifiers = true) as H by by vm_compute.
  rewrite forallb_forall in H. specialize (H q1 (proj1 (list_elem_of_In _ _) H1)). rewrite forallb_forall in H.
  specialize (H q2 (proj1 (list_elem_of_In _ _) H2)). by apply eqb_prop in H.
Qed.

(** [const] and [volatile] are each at least as qualified as the other. *)
Lemma incomparable_qualifiers :
  is_more_or_equal_cv_qualified CV_CONST CV_VOLATILE = true
  ∧ is_more_or_equal_cv_qualified CV_VOLATILE CV_CONST = true
  ∧ fewer CV_CONST CV_VOLATILE = false ∧ fewer CV_VOLATILE CV_CONST = false.
Proof. by vm_compute. Qed.

(** ** The rule *)

(** The pointers under the outermost one, with the type at the end: the
    qualifiers of the origin and of the destination. *)
Definition convertible (qs : list (Z * Z)) : Prop :=
  ∀ i q1 q2, qs !! i = Some (q1, q2) →
  (is_const_qualified q1 = true → is_const_qualified q2 = true)
  ∧ (is_volatile_qualified q1 = true → is_volatile_qualified q2 = true)
  ∧ (q1 ≠ q2 → ∀ j r1 r2, (j < i)%nat → qs !! j = Some (r1, r2) → is_const_qualified r2 = true).

(** Types that differ in qualifiers at most: the qualifiers of both *)
Inductive similar : type_t → type_t → list (Z * Z) → Prop :=
  | similar_end t1 t2 : both_pointers t1 t2 = false →
      equivalent_types (get_unqualified_type t1) (get_unqualified_type t2) = true →
      similar t1 t2 [(get_cv_qualifier t1, get_cv_qualifier t2)]
  | similar_pointer t1 t2 qs : is_pointer_type t1 = true → is_pointer_type t2 = true →
      similar (pointer_type_get_pointee_type t1) (pointer_type_get_pointee_type t2) qs →
      similar t1 t2 ((get_cv_qualifier t1, get_cv_qualifier t2) :: qs)
  | similar_member t1 t2 qs : is_pointer_to_member_type t1 = true → is_pointer_to_member_type t2 = true →
      equivalent_types (pointer_to_member_type_get_class_type t1) (pointer_to_member_type_get_class_type t2) = true →
      similar (pointer_type_get_pointee_type t1) (pointer_type_get_pointee_type t2) qs →
      similar t1 t2 ((get_cv_qualifier t1, get_cv_qualifier t2) :: qs).

Lemma pointer_kinds t : is_pointer_type t = true → is_pointer_to_member_type t = false.
Proof. unfold is_pointer_type, is_pointer_to_member_type. by destruct (node_of t). Qed.

Lemma pointee_depth t : is_pointer_type t = true ∨ is_pointer_to_member_type t = true →
  (depth (pointer_type_get_pointee_type t) < depth t)%nat.
Proof.
  unfold is_pointer_type, is_pointer_to_member_type, pointer_type_get_pointee_type, node_of. intros H.
  pose proof (advance_depth t) as Hd. destruct (advance t).1; simpl in *; try (destruct H; done); lia.
Qed.

Lemma both_true t1 t2 : is_pointer_type t1 = true → is_pointer_type t2 = true → both_pointers t1 t2 = true.
Proof. unfold both_pointers. by intros -> ->. Qed.
Lemma both_true_member t1 t2 :
  is_pointer_to_member_type t1 = true → is_pointer_to_member_type t2 = true → both_pointers t1 t2 = true.
Proof. unfold both_pointers. intros -> ->. apply orb_true_r. Qed.

Ltac pose_once H :=
  let T := type of H in lazymatch goal with _ : T |- _ => fail | _ => pose proof H end.

(** The cases of [similar] that the kinds of the types exclude *)
Ltac other_kind :=
  repeat match goal with
  | H1 : is_pointer_type ?t1 = true, H2 : is_pointer_type ?t2 = true |- _ =>
      pose_once (both_true t1 t2 H1 H2); pose_once (pointer_kinds t1 H1)
  | H1 : is_pointer_to_member_type ?t1 = true, H2 : is_pointer_to_member_type ?t2 = true |- _ =>
      pose_once (both_true_member t1 t2 H1 H2)
  end; congruence.

Lemma gather_spec n : ∀ t1 t2, (depth t1 < n)%nat →
  ∃ b qs, gather_qualifs n t1 t2 = Ret (b, qs) ∧ (b = true → similar t1 t2 qs) ∧ (∀ qs', similar t1 t2 qs' → b = true ∧ qs = qs').
Proof.
  induction n as [|n IH]; intros t1 t2 Hd; [lia|]. cbn [gather_qualifs]. destruct (both_pointers t1 t2) eqn:Hb.
  - assert (Hdp : is_pointer_type t1 = true ∨ is_pointer_to_member_type t1 = true).
    { unfold both_pointers in Hb. apply orb_true_iff in Hb as [Hb|Hb]; apply andb_true_iff in Hb; tauto. }
    pose proof (pointee_depth t1 Hdp) as Hdep.
    destruct (IH (pointer_type_get_pointee_type t1) (pointer_type_get_pointee_type t2) ltac:(lia)) as (b & qs & -> & H1 & H2).
    destruct (is_pointer_to_member_type t1 && is_pointer_to_member_type t2) eqn:Hm; cbn [andb].
    + apply andb_true_iff in Hm as [Hm1 Hm2]. destruct (equivalent_types (pointer_to_member_type_get_class_type t1) _) eqn:Hc; cbn [negb].
      * exists b, ((get_cv_qualifier t1, get_cv_qualifier t2) :: qs). split; [done|]. split; [intros Hb'; by apply similar_member; auto|].
        intros qs' Hs. inversion Hs as [| |? ? qs'' _ _ _ Hs']; subst; [other_kind..|]. by apply H2 in Hs' as [-> ->].
      * eexists false, _. split; [done|]. split; [done|]. intros qs' Hs.
        inversion Hs; subst; other_kind.
    + assert (is_pointer_type t1 && is_pointer_type t2 = true) as Hp.
      { unfold both_pointers in Hb. by rewrite Hm, orb_false_r in Hb. }
      apply andb_true_iff in Hp as [Hp1 Hp2].
      exists b, ((get_cv_qualifier t1, get_cv_qualifier t2) :: qs). split; [done|]. split; [intros Hb'; by apply similar_pointer; auto|].
      intros qs' Hs. inversion Hs as [|? ? qs'' _ _ Hs'|]; subst; [other_kind| |other_kind]. by apply H2 in Hs' as [-> ->].
  - destruct (equivalent_types (get_unqualified_type t1) (get_unqualified_type t2)) eqn:He.
    + eexists true, _. split; [done|]. split; [by constructor|]. intros qs' Hs.
      inversion Hs; subst; [done|other_kind..].
    + eexists false, _. split; [done|]. split; [done|]. intros qs' Hs.
      inversion Hs; subst; other_kind.
Qed.

Definition consts (before : list Z) : Prop := Forall (λ q, is_const_qualified q = true) before.

Lemma check_qualifs_spec qs : ∀ before, check_qualifs before qs = true ↔
  convertible qs ∧ (∀ i q1 q2, qs !! i = Some (q1, q2) → q1 ≠ q2 → consts before).
Proof.
  induction qs as [|[q1 q2] qs IH]; intros before; simpl; [split; [|done]; intros _; split; intros ???; done|].
  assert (Hconsts : forallb is_const_qualified before = true ↔ consts before).
  { unfold consts. by rewrite forallb_forall, List.Forall_forall. }
  assert (Hsplit : convertible ((q1, q2) :: qs) ∧ (∀ i p1 p2, ((q1, q2) :: qs) !! i = Some (p1, p2) → p1 ≠ p2 → consts before)
    ↔ (is_const_qualified q1 = true → is_const_qualified q2 = true)
      ∧ (is_volatile_qualified q1 = true → is_volatile_qualified q2 = true)
      ∧ (q1 ≠ q2 → consts before)
      ∧ convertible qs ∧ (∀ i p1 p2, qs !! i = Some (p1, p2) → p1 ≠ p2 → consts (before ++ [q2]))).
  { unfold consts. setoid_rewrite Forall_app. setoid_rewrite Forall_singleton. split.
    - intros [Hc Hb]. destruct (Hc 0%nat q1 q2 eq_refl) as (? & ? & _). split; [done|]. split; [done|].
      split; [by apply (Hb 0%nat)|]. split.
      + intros i p1 p2 Hi. destruct (Hc (S i) p1 p2 Hi) as (? & ? & Hd). split; [done|]. split; [done|].
        intros Hne j r1 r2 Hj Hr. apply (Hd Hne (S j) r1 r2); [lia|done].
      + intros i p1 p2 Hi Hne. split; [by apply (Hb (S i) p1 p2)|].
        destruct (Hc (S i) p1 p2 Hi) as (_ & _ & Hd). apply (Hd Hne 0%nat q1 q2); [lia|done].
    - intros (H1 & H2 & H3 & Hc & Hb). split.
      + intros [|i] p1 p2 Hi.
        * injection Hi as <- <-. split; [done|]. split; [done|]. intros _ j ? ? Hj. lia.
        * simpl in Hi. destruct (Hc i p1 p2 Hi) as (? & ? & Hd). split; [done|]. split; [done|].
          intros Hne [|j] r1 r2 Hj Hr; [injection Hr as <- <-; by apply (Hb i p1 p2)|]. apply (Hd Hne j r1 r2); [lia|done].
      + intros [|i] p1 p2 Hi Hne; [injection Hi as <- <-; auto|]. by apply (Hb i p1 p2). }
  rewrite Hsplit, <-IH. clear Hsplit. unfold is_equal_cv_qualified.
  destruct (is_const_qualified q1) eqn:C1, (is_const_qualified q2) eqn:C2; cbn [andb negb];
    try (split; [done|intros (Hn & _); by specialize (Hn eq_refl)]);
  (destruct (is_volatile_qualified q1) eqn:V1, (is_volatile_qualified q2) eqn:V2; cbn [andb negb];
    try (split; [done|intros (_ & Hn & _); by specialize (Hn eq_refl)]));
  (destruct (Z.eqb_spec q1 q2) as [E|E]; cbn [andb negb];
    [tauto|rewrite <-Hconsts; destruct (forallb is_const_qualified before); cbn [negb]; [tauto|]];
    split; [done|]; intros (_ & _ & Hn & _); by specialize (Hn E)).
Qed.

(** Conversions compose. *)
Lemma convertible_trans (l : list (Z * Z * Z)) :
  convertible (map (λ q, (q.1.1, q.1.2)) l) → convertible (map (λ q, (q.1.2, q.2)) l) →
  convertible (map (λ q, (q.1.1, q.2)) l).
Proof.
  intros H12 H23 i q1 q3 Hi. change (map ?f l) with (f <$> l) in *. rewrite list_lookup_fmap in Hi.
  destruct (l !! i) as [[[p1 p2] p3]|] eqn:E; [|done]. injection Hi as <- <-. simpl in *.
  destruct (H12 i p1 p2) as (C12 & V12 & D12); [by rewrite list_lookup_fmap, E|].
  destruct (H23 i p2 p3) as (C23 & V23 & D23); [by rewrite list_lookup_fmap, E|].
  split; [tauto|]. split; [tauto|]. intros Hne j r1 r3 Hj Hr. rewrite list_lookup_fmap in Hr.
  destruct (l !! j) as [[[s1 s2] s3]|] eqn:E'; [|done]. injection Hr as <- <-.
  destruct (decide (p2 = p3)) as [->|H].
  - destruct (H23 j s2 s3) as (C & _); [by rewrite list_lookup_fmap, E'|]. apply C.
    apply (D12 Hne j s1 s2); [done|]. by rewrite list_lookup_fmap, E'.
  - apply (D23 H j s2 s3); [done|]. by rewrite list_lookup_fmap, E'.
Qed.

Lemma can_be_converted_spec orig dest : both_pointers orig dest = true →
  (depth orig < MCXX_MAX_QUALIFIER_CONVERSION)%nat →
  ∃ b, pointer_types_can_be_converted orig dest = Ret b
  ∧ (b = true ↔ ∃ q qs, similar orig dest (q :: qs) ∧ convertible qs).
Proof.
  intros Hb Hd. unfold pointer_types_can_be_converted. rewrite Hb. cbn [negb].
  destruct (gather_spec MCXX_MAX_QUALIFIER_CONVERSION orig dest Hd) as (b & qs & -> & H1 & H2).
  rewrite bind_ret. cbn beta iota. eexists. split; [done|]. destruct b; cbn [andb].
  - specialize (H1 eq_refl). rewrite check_qualifs_spec. split.
    + intros [Hc _]. assert (∃ q qs', qs = q :: qs') as (q & qs' & ->) by (destruct H1; eauto). eauto.
    + intros (q & qs' & Hs & Hc). destruct (H2 _ Hs) as [_ ->]. split; [done|]. intros. constructor.
  - split; [done|]. intros (q & qs' & Hs & _). by destruct (H2 _ Hs).
Qed.

(** ** The rule, on types without typedefs

    What [similar] reads with the functions of the code is what the types say
    once their typedefs are gone, provided that the typedefs on the way have no
    qualifiers: the code does not see those. *)

Fixpoint bare (c : type_t) : type_t :=
  match c with
  | Array _ e n l => Array CV_NONE (bare e) n l
  | _ => set_cv CV_NONE c
  end.

(** Two canonical types that differ in qualifiers at most, under pointers and
    pointers to members of one class: the qualifiers of both, outermost first *)
Inductive similar_types : type_t → type_t → list (Z * Z) → Prop :=
  | similar_pointers cv1 cv2 t1 t2 qs : similar_types t1 t2 qs →
      similar_types (Pointer cv1 t1) (Pointer cv2 t2) ((cv1, cv2) :: qs)
  | similar_members cv1 cv2 t1 t2 k qs : similar_types t1 t2 qs →
      similar_types (PointerToMember cv1 t1 k) (PointerToMember cv2 t2 k) ((cv1, cv2) :: qs)
  | similar_others t1 t2 :
      match t1, t2 with
      | Pointer _ _, Pointer _ _ | PointerToMember _ _ _, PointerToMember _ _ _ => False
      | _, _ => True
      end →
      bare t1 = bare t2 → similar_types t1 t2 [(cv_qualifier t1, cv_qualifier t2)].

(** Qualifiers of C++, without [restrict] *)
Definition cpp_qualifier (cv : Z) : bool :=
  bool_decide (cv ∈ [CV_NONE; CV_CONST; CV_VOLATILE; Z.lor CV_CONST CV_VOLATILE]).

(** Along the pointers of the type, the types that typedefs name have no
    qualifiers, and the qualifiers of arrays are on their elements. *)
Fixpoint visible_qualifiers (t : type_t) : bool :=
  match t with
  | Indirect cv true _ t' =>
      cpp_qualifier cv && ((advance t').2 =? CV_NONE) && visible_qualifiers t'
      && match (advance t').1 with Array _ _ _ _ | Function _ _ _ _ => cv =? CV_NONE | _ => true end
  | Pointer cv t' | PointerToMember cv t' _ => cpp_qualifier cv && visible_qualifiers t'
  | Array cv e _ _ => (cv =? CV_NONE) && visible_qualifiers e
  | Function cv _ _ _ => cv =? CV_NONE
  | _ => cpp_qualifier (cv_qualifier t)
  end.

Lemma cpp_qualifier_restrict cv : cpp_qualifier cv = true → Z.land cv CV_RESTRICT =? CV_RESTRICT = false.
Proof.
  unfold cpp_qualifier. rewrite bool_decide_eq_true. rewrite !elem_of_cons, elem_of_nil.
  by intros [->|[->|[->|[->|[]]]]].
Qed.

Lemma visible_advance t : visible_qualifiers t = true → visible_qualifiers (advance t).1 = true.
Proof.
  induction t as [| | |cv i s t IH| | | | | | | |]; try done. destruct i; [|done]. cbn [visible_qualifiers].
  intros [[_ H]%andb_true_iff _]%andb_true_iff. simpl. specialize (IH H). by destruct (advance t).
Qed.

(** What a typedef names has no qualifiers. *)
Lemma visible_typedef t : visible_qualifiers t = true → is_typedef t = true → (advance (advance t).1).2 = CV_NONE.
Proof.
  induction t as [| | |cv i s t IH| | | | | | | |]; try done. destruct i; [|done]. cbn [visible_qualifiers].
  intros [[[_ H0%Z.eqb_eq]%andb_true_iff H]%andb_true_iff _]%andb_true_iff _.
  change ((advance (Indirect cv true s t)).1) with (let '(r, c) := advance t in (r, Z.lor cv c)).1.
  destruct (is_typedef t) eqn:Ht.
  - specialize (IH H eq_refl). by destruct (advance t).
  - assert ((advance t).1 = t) as E by (destruct t as [| | |? [] ?| | | | | | | |]; done).
    rewrite (surjective_pairing (advance t)), E. exact H0.
Qed.

Lemma visible_others t : visible_qualifiers t = true → is_array (advance t).1 = false →
  (advance t).2 = cv_qualifier t ∧ cpp_qualifier (cv_qualifier t) = true.
Proof.
  destruct t as [| | |cv i s t| | | |cv t|cv k t|cv t c|cv e n l|cv r ps q]; try done.
  - destruct i; [|done]. cbn [visible_qualifiers].
    intros [[[Hc H0%Z.eqb_eq]%andb_true_iff _]%andb_true_iff _]%andb_true_iff _. split; [|done].
    simpl. destruct (advance t) as [r c]. simpl in *. subst c. unfold CV_NONE. by rewrite Z.lor_0_r.
  - simpl. by intros [H _]%andb_true_iff.
  - simpl. by intros [H _]%andb_true_iff.
  - cbn [visible_qualifiers]. by intros ->%Z.eqb_eq.
Qed.

Lemma visible_array t c e n l : visible_qualifiers t = true → (advance t).1 = Array c e n l →
  c = CV_NONE ∧ (advance t).2 = (advance e).2 ∧ visible_qualifiers e = true ∧ (is_typedef t = true → cv_qualifier t = CV_NONE).
Proof.
  intros Hv E. pose proof (visible_advance t Hv) as Hu. rewrite E in Hu. cbn [visible_qualifiers] in Hu.
  apply andb_true_iff in Hu as [->%Z.eqb_eq He]. split; [done|]. destruct (is_typedef t) eqn:Ht.
  - pose proof (visible_typedef t Hv Ht) as H0. rewrite E in H0. cbn [advance snd] in H0.
    change (Z.lor CV_NONE (advance e).2 = CV_NONE) in H0. unfold CV_NONE in H0. rewrite Z.lor_0_l in H0.
    destruct t as [| | |cv i s t| | | | | | | |]; try done. destruct i; [|done]. cbn [visible_qualifiers] in Hv.
    apply andb_true_iff in Hv as [[[_ H1%Z.eqb_eq]%andb_true_iff _]%andb_true_iff Hc].
    simpl in E |- *. destruct (advance t) as [r c]. simpl in *. subst r c. apply Z.eqb_eq in Hc as ->.
    split; [by rewrite H0|done].
  - assert (t = Array CV_NONE e n l) as ->; [|done].
    destruct t as [| | |? [] ?| | | | | | | |]; simpl in *; congruence.
Qed.

Lemma set_own_cv t : set_cv (cv_qualifier t) t = t.
Proof. by destruct t. Qed.

Lemma cv_set_cv cv t : cv_qualifier (set_cv cv t) = cv.
Proof. by destruct t. Qed.

Lemma advance_set_cv cv t : is_typedef t = false → is_array t = false → advance (set_cv cv t) = (set_cv cv t, cv).
Proof. by destruct t as [| | |? [] ?| | | | | | | |]. Qed.

(** The type under the typedefs gets the qualifiers of the outermost one. *)
Lemma visible_advance_over t : visible_qualifiers t = true →
  advance_over_typedefs t = if is_array (advance t).1 then (advance t).1 else set_cv (cv_qualifier t) (advance t).1.
Proof.
  intros Hv. destruct (is_typedef t) eqn:Ht.
  2: { destruct t as [| | |? [] ?| | | | | | | |]; done. }
  pose proof (visible_typedef t Hv Ht) as H0. pose proof (advance_node t) as Hn.
  assert (Hover : advance_over_typedefs t = let '(u, cv) := advance t in
    if negb (cv =? CV_NONE) then get_cv_qualified_type u cv else u).
  { by destruct t as [| | |? [] ?| | | | | | | |]. }
  rewrite Hover. clear Hover. destruct (is_array (advance t).1) eqn:Ha.
  - destruct (advance t).1 as [| | | | | | | | | |c e n l|] eqn:E; try done.
    destruct (visible_array t c e n l Hv E) as (-> & H2 & _ & _). rewrite (surjective_pairing (advance t)), E, H2.
    simpl in H0. change (Z.lor CV_NONE (advance e).2 = CV_NONE) in H0. unfold CV_NONE in H0. rewrite Z.lor_0_l in H0.
    by rewrite H0.
  - destruct (visible_others t Hv Ha) as [Hq Hc]. rewrite (surjective_pairing (advance t)), Hq. simpl.
    destruct (advance t) as [u c]. simpl in *.
    assert (Hu : (advance u).2 = cv_qualifier u) by (by destruct u as [| | |? [] ?| | | | | | | |]).
    destruct (Z.eqb_spec (cv_qualifier t) CV_NONE) as [->|Hne]; simpl.
    + rewrite Hu in H0. by rewrite <-H0, set_own_cv.
    + assert (Hmore : is_more_cv_qualified (cv_qualifier t) CV_NONE = true).
      { unfold is_more_cv_qualified, is_less_or_equal_cv_qualified, is_less_cv_qualified, is_equal_cv_qualified.
        change (CV_NONE =? CV_NONE) with true. rewrite andb_false_r, (proj2 (Z.eqb_neq _ _) Hne).
        unfold cpp_qualifier in Hc. apply bool_decide_eq_true in Hc.
        rewrite !elem_of_cons, elem_of_nil in Hc. destruct Hc as [E|[E|[E|[E|[]]]]]; rewrite E; [by rewrite E in Hne|done..]. }
      destruct u as [| | |? [] ?| | | | | | | |]; try discriminate Hn; try discriminate Ha; cbn [get_cv_qualified_type];
        rewrite H0, (proj2 (Z.eqb_neq _ _) Hne), Hmore; done.
Qed.

Lemma cv_canonical t : cv_qualifier (canonical t) = (advance t).2.
Proof. rewrite canonical_advance. by destruct (advance t).1. Qed.

Lemma visible_cv n : ∀ t, visible_qualifiers t = true → (depth t ≤ n)%nat →
  get_cv_qualifier_ n t = cv_qualifier (canonical t).
Proof.
  induction n as [|n IH]; intros t Hv Hd; [destruct t; simpl in Hd; lia|]. cbn [get_cv_qualifier_].
  rewrite visible_advance_over, cv_canonical by done. destruct (is_array (advance t).1) eqn:Ha.
  - destruct (advance t).1 as [| | | | | | | | | |c e m l|] eqn:E; try done.
    destruct (visible_array t c e m l Hv E) as (-> & -> & He & _). rewrite IH, cv_canonical; [done|done|].
    pose proof (advance_depth t) as Hd'. rewrite E in Hd'. simpl in Hd'. lia.
  - destruct (visible_others t Hv Ha) as [-> _]. by destruct (advance t).1.
Qed.

Lemma bare_canon_node cv u : is_typedef u = false → is_array u = false → visible_qualifiers u = true →
  bare (canon_node cv u) = canonical (set_cv CV_NONE u).
Proof.
  intros Ht Ha Hv. rewrite canonical_advance, advance_set_cv by done.
  destruct u as [| | |? [] ?| | | | | | | |]; try done. cbn [visible_qualifiers] in Hv. by apply Z.eqb_eq in Hv as ->.
Qed.

Section canonical_rule.
Context (symbols : Z → type_t).
Notation proper := (proper symbols).

Lemma visible_unqualified n : ∀ t, visible_qualifiers t = true → proper t → (depth t ≤ n)%nat →
  canonical (get_unqualified_type_ n t) = bare (canonical t) ∧ proper (get_unqualified_type_ n t).
Proof.
  induction n as [|n IH]; intros t Hv Hp Hd; [destruct t; simpl in Hd; lia|]. cbn [get_unqualified_type_].
  rewrite visible_advance_over by done. pose proof (proper_advance symbols t Hp) as Hpa.
  pose proof (advance_node t) as Hn. rewrite (canonical_advance t). destruct (is_array (advance t).1) eqn:Ha.
  - destruct (advance t).1 as [| | | | | | | | | |c e m l|] eqn:E; try done. simpl in Hpa.
    destruct (visible_array t c e m l Hv E) as (-> & _ & He & _).
    destruct (IH e He Hpa) as [Hc Hp']; [pose proof (advance_depth t) as Hd'; rewrite E in Hd'; simpl in Hd'; lia|].
    split; [|done]. rewrite canonical_advance. simpl. rewrite Hc. f_equal.
    rewrite <-cv_canonical, Hc. by destruct (canonical e).
  - destruct (visible_others t Hv Ha) as [Hq Hc]. set (u := (advance t).1) in *.
    assert (get_cv_qualifier (set_cv (cv_qualifier t) u) = cv_qualifier t) as E.
    { unfold get_cv_qualifier. destruct u as [| | |? [] ?| | | | | | | |]; try done. }
    assert (Hv' : visible_qualifiers u = true) by by apply visible_advance.
    rewrite E, cpp_qualifier_restrict by done. simpl negb. cbn iota.
    assert (Hr : (if cv_qualifier t =? CV_NONE then t else unqualified_type (set_cv (cv_qualifier t) u))
      = if cv_qualifier t =? CV_NONE then t else set_cv CV_NONE u).
    { destruct (_ =? _); [done|]. by destruct u. }
    assert (canonical (if cv_qualifier t =? CV_NONE then t else set_cv CV_NONE u) = bare (canon_node (advance t).2 u)
      ∧ proper (if cv_qualifier t =? CV_NONE then t else set_cv CV_NONE u)) as Hgoal.
    { rewrite Hq. destruct (Z.eqb_spec (cv_qualifier t) CV_NONE) as [E0|Hne].
      - split; [|done]. rewrite (canonical_advance t), Hq, E0. fold u. by destruct u as [| | |? [] ?| | | | | | | |].
      - split; [by rewrite bare_canon_node|by rewrite proper_set_cv]. }
    rewrite <-Hr in Hgoal. by destruct (set_cv (cv_qualifier t) u) eqn:Es; try exact Hgoal; destruct u.
Qed.

Lemma pointer_canonical t : visible_qualifiers t = true → proper t → is_pointer_type t = true →
  let p := pointer_type_get_pointee_type t in
  canonical t = Pointer (get_cv_qualifier t) (canonical p) ∧ visible_qualifiers p = true ∧ proper p.
Proof.
  intros Hv Hp H. assert (Hq : get_cv_qualifier t = (advance t).2).
  { rewrite <-cv_canonical. by apply visible_cv. }
  apply visible_advance in Hv. apply proper_advance in Hp. rewrite canonical_advance, Hq.
  unfold is_pointer_type, pointer_type_get_pointee_type, node_of in *.
  destruct (advance t).1; try done. simpl in *. apply andb_true_iff in Hv as [_ Hv]. done.
Qed.

Lemma member_canonical t : visible_qualifiers t = true → proper t → is_pointer_to_member_type t = true →
  let p := pointer_type_get_pointee_type t in
  let k := pointer_to_member_type_get_class_type t in
  canonical t = PointerToMember (get_cv_qualifier t) (canonical p) (canonical k)
  ∧ visible_qualifiers p = true ∧ proper p ∧ proper k.
Proof.
  intros Hv Hp H. assert (Hq : get_cv_qualifier t = (advance t).2).
  { rewrite <-cv_canonical. by apply visible_cv. }
  apply visible_advance in Hv. apply proper_advance in Hp. rewrite canonical_advance, Hq.
  unfold is_pointer_to_member_type, pointer_type_get_pointee_type, pointer_to_member_type_get_class_type, node_of in *.
  destruct (advance t).1; try done. simpl in *. apply andb_true_iff in Hv as [_ Hv]. naive_solver.
Qed.

Lemma pointer_kind_canonical t : is_pointer_type t = match canonical t with Pointer _ _ => true | _ => false end.
Proof. unfold is_pointer_type, node_of. rewrite canonical_advance. by destruct (advance t).1. Qed.
Lemma member_kind_canonical t :
  is_pointer_to_member_type t = match canonical t with PointerToMember _ _ _ => true | _ => false end.
Proof. unfold is_pointer_to_member_type, node_of. rewrite canonical_advance. by destruct (advance t).1. Qed.

Lemma similar_canonical t1 t2 qs : similar t1 t2 qs →
  visible_qualifiers t1 = true → visible_qualifiers t2 = true → proper t1 → proper t2 →
  similar_types (canonical t1) (canonical t2) qs.
Proof.
  induction 1 as [t1 t2 Hb He|t1 t2 qs H1 H2 _ IH|t1 t2 qs H1 H2 Hk _ IH]; intros V1 V2 P1 P2.
  - pose proof (visible_unqualified (depth t1) t1 V1 P1 ltac:(done)) as [C1 Q1].
    pose proof (visible_unqualified (depth t2) t2 V2 P2 ltac:(done)) as [C2 Q2].
    unfold get_unqualified_type in He. rewrite (equivalent_types_canonical symbols) in He by done. rewrite C1, C2 in He.
    unfold get_cv_qualifier. rewrite !visible_cv by done. apply similar_others; [|done].
    unfold both_pointers in Hb. rewrite !pointer_kind_canonical, !member_kind_canonical in Hb.
    by destruct (canonical t1), (canonical t2).
  - destruct (pointer_canonical t1 V1 P1 H1) as (-> & V1' & P1'), (pointer_canonical t2 V2 P2 H2) as (-> & V2' & P2').
    apply similar_pointers. by apply IH.
  - destruct (member_canonical t1 V1 P1 H1) as (-> & V1' & P1' & K1), (member_canonical t2 V2 P2 H2) as (-> & V2' & P2' & K2).
    rewrite (equivalent_types_canonical symbols) in Hk by done. rewrite Hk. apply similar_members. by apply IH.
Qed.

Lemma canonical_similar n : ∀ t1 t2 qs, similar_types (canonical t1) (canonical t2) qs → (depth t1 ≤ n)%nat →
  visible_qualifiers t1 = true → visible_qualifiers t2 = true → proper t1 → proper t2 → similar t1 t2 qs.
Proof.
  induction n as [|n IH]; intros t1 t2 qs Hs Hd V1 V2 P1 P2; [destruct t1; simpl in Hd; lia|].
  destruct (is_pointer_type t1 && is_pointer_type t2) eqn:Hp; [|destruct (is_pointer_to_member_type t1 && is_pointer_to_member_type t2) eqn:Hm].
  - apply andb_true_iff in Hp as [H1 H2]. pose proof (pointee_depth t1 (or_introl H1)).
    destruct (pointer_canonical t1 V1 P1 H1) as (E1 & V1' & P1'), (pointer_canonical t2 V2 P2 H2) as (E2 & V2' & P2').
    rewrite E1, E2 in Hs. inversion Hs; subst; [|done]. apply similar_pointer; [done..|]. apply IH; auto; lia.
  - apply andb_true_iff in Hm as [H1 H2]. pose proof (pointee_depth t1 (or_intror H1)).
    destruct (member_canonical t1 V1 P1 H1) as (E1 & V1' & P1' & K1), (member_canonical t2 V2 P2 H2) as (E2 & V2' & P2' & K2).
    rewrite E1, E2 in Hs. inversion Hs as [|? ? ? ? k' qs' Hs' Ea Eb|]; subst; [|done].
    apply similar_member; [done..| |apply IH; auto; lia].
    rewrite (equivalent_types_canonical symbols) by done. congruence.
  - assert (Hb : both_pointers t1 t2 = false) by (unfold both_pointers; by rewrite Hp, Hm).
    rewrite !pointer_kind_canonical in Hp. rewrite !member_kind_canonical in Hm.
    inversion Hs as [? ? ? ? ? ? E1 E2|? ? ? ? ? ? ? E1 E2|? ? _ E]; subst.
    + by rewrite <-E1, <-E2 in Hp.
    + by rewrite <-E1, <-E2 in Hm.
    + pose proof (visible_unqualified (depth t1) t1 V1 P1 ltac:(done)) as [C1 Q1].
      pose proof (visible_unqualified (depth t2) t2 V2 P2 ltac:(done)) as [C2 Q2].
      pose proof (visible_cv (depth t1) t1 V1 ltac:(done)) as <-. pose proof (visible_cv (depth t2) t2 V2 ltac:(done)) as <-.
      apply similar_end; [done|]. unfold get_unqualified_type. rewrite (equivalent_types_canonical symbols) by done. congruence.
Qed.

Lemma converted_by_rule orig dest : both_pointers orig dest = true →
  (depth orig < MCXX_MAX_QUALIFIER_CONVERSION)%nat → proper orig → proper dest →
  visible_qualifiers orig = true → visible_qualifiers dest = true →
  ∃ b, pointer_types_can_be_converted orig dest = Ret b
  ∧ (b = true ↔ ∃ q qs, similar_types (canonical orig) (canonical dest) (q :: qs) ∧ convertible qs).
Proof.
  intros Hb Hd P1 P2 V1 V2. destruct (can_be_converted_spec orig dest Hb Hd) as (b & Hr & Hiff).
  exists b. split; [done|]. rewrite Hiff. split; intros (q & qs & Hs & Hc); exists q, qs; (split; [|done]).
  - by apply similar_canonical.
  - by apply (canonical_similar (depth orig)).
Qed.
End canonical_rule.
