(* ===== verification/CxxRank.v ===== *)
(** * Ranking of standard conversions ([frontend/cxx-overload.c])

    Which of two standard conversions of an argument overload resolution
    prefers.  Left out: the Intel vector types. *)

From S2P Require Import Prelude CxxTypes CxxBases CxxConv.
#[local] Open Scope Z_scope.

Definition none_ (c : standard_conversion_item_t) : bool := bool_decide (c = SCI_NO_CONVERSION).

(** One step of the loop over the conversions 1 and 2 *)
Definition item_is_subsequence (c1 c2 : standard_conversion_item_t) : option nat :=
  if decide (c1 = c2) then Some 0%nat else if none_ c1 then Some 1%nat else None.

Definition standard_conversion_is_subsequence (scs1 scs2 : standard_conversion_t) : bool :=
  if none_ (conv1 scs1) && none_ (conv2 scs1) && (negb (none_ (conv1 scs2)) || negb (none_ (conv2 scs2)))
  then true
  else match item_is_subsequence (conv1 scs1) (conv1 scs2), item_is_subsequence (conv2 scs1) (conv2 scs2) with
       | Some n, Some m => negb (Nat.eqb (n + m) 0)
       | _, _ => false
       end.

Inductive standard_conversion_rank_t := SCR_INVALID | SCR_EXACT_MATCH | SCR_PROMOTION | SCR_CONVERSION.

#[export] Instance rank_eq_dec : EqDecision standard_conversion_rank_t.
Proof. solve_decision. Defined.

Definition rank_number (r : standard_conversion_rank_t) : Z :=
  match r with SCR_INVALID => 0 | SCR_EXACT_MATCH => 1 | SCR_PROMOTION => 2 | SCR_CONVERSION => 3 end.

Definition is_pointer_conversion (sci : standard_conversion_item_t) : bool :=
  match sci with
  | SCI_POINTER_TO_VOID_CONVERSION | SCI_ZERO_TO_POINTER_CONVERSION | SCI_ZERO_TO_NULLPTR
  | SCI_CLASS_POINTER_DERIVED_TO_BASE_CONVERSION | SCI_NULLPTR_TO_POINTER_CONVERSION => true
  | _ => false
  end.

Definition has_promotion_rank (sci : standard_conversion_item_t) : bool :=
  match sci with
  | SCI_INTEGRAL_PROMOTION | SCI_VECTOR_INTEGRAL_PROMOTION | SCI_FLOATING_PROMOTION
  | SCI_FLOAT_TO_COMPLEX_PROMOTION | SCI_COMPLEX_PROMOTION | SCI_COMPLEX_FLOATING_INTEGRAL_CONVERSION
  | SCI_FLOAT_TO_COMPLEX_CONVERSION | SCI_COMPLEX_TO_FLOAT_CONVERSION | SCI_COMPLEX_CONVERSION
  | SCI_SCALAR_TO_VECTOR_CONVERSION => true
  | _ => false
  end.

Definition has_conversion_rank (sci : standard_conversion_item_t) : bool :=
  match sci with
  | SCI_INTEGRAL_CONVERSION | SCI_FLOATING_CONVERSION | SCI_FLOATING_INTEGRAL_CONVERSION
  | SCI_INTEGRAL_TO_COMPLEX_CONVERSION | SCI_COMPLEX_TO_INTEGRAL_CONVERSION | SCI_INTEGRAL_FLOATING_CONVERSION
  | SCI_POINTER_TO_MEMBER_BASE_TO_DERIVED_CONVERSION | SCI_BOOLEAN_CONVERSION => true
  | _ => is_pointer_conversion sci
  end.

Definition standard_conversion_get_rank (scs : standard_conversion_t) : res standard_conversion_rank_t :=
  if decide (conv0 scs = SCI_IDENTITY) then Ret SCR_EXACT_MATCH else
  if decide (conv0 scs = SCI_DERIVED_TO_BASE) then Ret SCR_CONVERSION else
  let result := if decide (conv0 scs = SCI_LVALUE_TO_RVALUE ∨ conv0 scs = SCI_FUNCTION_TO_POINTER
                           ∨ conv0 scs = SCI_ARRAY_TO_POINTER ∨ conv2 scs = SCI_QUALIFICATION_CONVERSION)
                then SCR_EXACT_MATCH else SCR_INVALID in
  let result := if has_promotion_rank (conv1 scs) then SCR_PROMOTION else result in
  let result := if has_conversion_rank (conv1 scs) then SCR_CONVERSION else result in
  if decide (result = SCR_INVALID) then Err Aborted else Ret result.

Definition standard_conversion_is_pointer_to_bool (scs : standard_conversion_t) : bool :=
  (is_pointer_type (no_ref (orig scs)) || is_pointer_to_member_type (no_ref (orig scs))
   || (is_array_type (no_ref (orig scs)) && bool_decide (conv0 scs = SCI_ARRAY_TO_POINTER)))
  && is_bool_type (no_ref (dest scs)).

(** [a && b] and [if (a) return 1; b] *)
Notation "a '&&&' b" := (x ← a; and_then x b) (at level 40, left associativity).
Notation "a '|||' b" := (x ← a; if (x : bool) then Ret true else b) (at level 50, left associativity).

Section rank.
Context (P : program) (fuel : nat).
Notation derived := (class_type_is_derived P fuel).
Notation pointee := pointer_type_get_pointee_type.
Notation member_class := pointer_to_member_type_get_class_type.
Notation referenced := reference_type_get_referenced_type.

(** A reference to a pointer to a class stands for the pointer. *)
Definition drop_redundant_reference (scs : standard_conversion_t) : standard_conversion_t :=
  if is_any_reference_type (orig scs) && is_pointer_to_class_type (referenced (orig scs))
  then SCS (referenced (orig scs)) (dest scs) (conv0 scs) (conv1 scs) (conv2 scs)
  else scs.

(** Both target types are the same, qualifiers apart. *)
Definition same_target (dest1 dest2 : type_t) : bool :=
  equivalent_types (get_unqualified_type (no_ref dest1)) (get_unqualified_type (no_ref dest2))
  || (is_pointer_to_class_type dest1 && is_pointer_to_class_type dest2
      && equivalent_types (get_unqualified_type (pointee dest1)) (get_unqualified_type (pointee dest2))).

(** The conversions start from the same type: from a class to one of its bases,
    the nearer base is better, and any base is better than [void*]. *)
Definition nearer_base (orig1 dest1 orig2 dest2 : type_t) : res bool :=
  (Ret (is_pointer_to_class_type orig1 && is_pointer_to_class_type dest1)
    &&& derived (pointee orig1) (pointee dest1) &&& Ret (is_pointer_to_void_type dest2))
  ||| (Ret (is_pointer_to_class_type orig1 && is_pointer_to_class_type dest1)
    &&& derived (pointee orig1) (pointee dest1) &&& Ret (is_pointer_to_class_type dest2)
    &&& derived (pointee dest1) (pointee dest2))
  ||| (Ret (is_pointer_to_member_type orig1 && is_pointer_to_member_type dest1)
    &&& derived (member_class dest1) (member_class orig1) &&& Ret (is_pointer_to_member_type dest2)
    &&& derived (member_class dest2) (member_class dest1))
  ||| (Ret (is_class_type orig1 && is_class_type dest1) &&& derived orig1 dest1
    &&& Ret (is_class_type orig2 && is_class_type dest2) &&& derived dest1 dest2)
  ||| (Ret (is_class_type (no_ref orig1) && is_any_reference_to_class_type dest1)
    &&& derived (no_ref orig1) (referenced dest1) &&& Ret (is_any_reference_to_class_type dest2)
    &&& derived (referenced dest1) (referenced dest2)).

(** The conversions end in the same type: from the nearer class is better. *)
Definition nearer_derived (orig1 dest1 orig2 dest2 : type_t) : res bool :=
  (Ret (is_pointer_to_class_type orig1 && is_pointer_to_void_type dest1 && is_pointer_to_class_type orig2)
    &&& derived (pointee orig2) (pointee orig1))
  ||| (Ret (is_pointer_to_class_type orig1 && is_pointer_to_class_type dest1)
    &&& derived (pointee orig1) (pointee dest1)
    &&& Ret (is_pointer_to_class_type orig2 && is_pointer_to_class_type dest2)
    &&& derived (pointee orig2) (pointee orig1))
  ||| (Ret (is_class_type orig1 && is_class_type dest1) &&& derived orig1 dest1
    &&& Ret (is_class_type orig2) &&& derived orig2 orig1)
  ||| (Ret (is_class_type (no_ref orig1) && is_any_reference_to_class_type dest1)
    &&& derived (no_ref orig1) (referenced dest1) &&& Ret (is_class_type orig2)
    &&& derived orig2 (no_ref orig1)).

(** GCC extension: from a scalar type, complex types are worse. *)
Definition scalar_before_complex (scs1 scs2 : standard_conversion_t) : bool :=
  is_arithmetic_type P (orig scs1) && negb (is_complex_type (orig scs1))
  && is_arithmetic_type P (no_ref (dest scs1)) && negb (is_complex_type (no_ref (dest scs1)))
  && is_complex_type (no_ref (dest scs2)).

(** Conversions of the same rank *)
Definition better_in_rank (scs1 scs2 : standard_conversion_t) : res bool :=
  if negb (standard_conversion_is_pointer_to_bool scs1) && standard_conversion_is_pointer_to_bool scs2
  then Ret true else
  let same_orig := equivalent_types (orig scs1) (orig scs2) in
  if same_orig && scalar_before_complex scs1 scs2 then Ret true else
  if same_orig && same_target (dest scs1) (dest scs2) then Ret false else
  let scs1 := if same_orig then drop_redundant_reference scs1 else scs1 in
  let scs2 := if same_orig then drop_redundant_reference scs2 else scs2 in
  (if same_orig then nearer_base (orig scs1) (dest scs1) (orig scs2) (dest scs2) else Ret false)
  ||| (if equivalent_types (dest scs1) (dest scs2)
       then nearer_derived (orig scs1) (dest scs1) (orig scs2) (dest scs2) else Ret false).

Definition standard_conversion_has_better_rank (scs1 scs2 : standard_conversion_t) : res bool :=
  rank1 ← standard_conversion_get_rank scs1;
  rank2 ← standard_conversion_get_rank scs2;
  if decide (rank1 = SCR_INVALID ∨ rank2 = SCR_INVALID) then Ret false
  else if rank_number rank1 <? rank_number rank2 then Ret true
  else if rank_number rank1 =? rank_number rank2 then better_in_rank scs1 scs2
  else Ret false.

(** The conversions differ in their qualifiers, and the first adds fewer. *)
Definition standard_conversion_differs_qualification (scs1 scs2 : standard_conversion_t) : bool :=
  if bool_decide (conv0 scs1 = conv0 scs2) && is_pointer_type (dest scs1) && is_pointer_type (dest scs2)
     && pointer_types_are_similar P (dest scs1) (dest scs2)
  then is_more_cv_qualified_type (pointee (dest scs2)) (pointee (dest scs1))
  else if bool_decide (conv0 scs1 = conv0 scs2) && bool_decide (conv1 scs1 = conv1 scs2)
          && is_any_reference_type (dest scs1) && is_any_reference_type (dest scs2)
  then equivalent_types (get_unqualified_type (referenced (dest scs1))) (get_unqualified_type (referenced (dest scs2)))
       && is_more_cv_qualified_type (referenced (dest scs2)) (referenced (dest scs1))
  else false.

Definition standard_conversion_is_better (scs1 scs2 : standard_conversion_t) : res bool :=
  if standard_conversion_is_subsequence scs1 scs2 then Ret true else
  standard_conversion_has_better_rank scs1 scs2 |||
  Ret ((is_rvalue_reference_type (dest scs1) && negb (is_lvalue_reference_type (orig scs1))
          && is_lvalue_reference_type (dest scs2))
       || (is_lvalue_reference_type (orig scs1) && is_function_type (no_ref (orig scs1))
           && is_lvalue_reference_type (dest scs1) && is_lvalue_reference_type (orig scs2)
           && is_function_type (no_ref (orig scs2)) && is_rvalue_reference_type (dest scs2))
       || standard_conversion_differs_qualification scs1 scs2).
End rank.
