(* ===== verification/CxxRankProps.v ===== *)
(** * Ranks of standard conversions

    A conversion that is found in C++ has a rank; conversions between arithmetic
    types are found, and are ranked and ordered as a table says. *)

From S2P Require Import Prelude CxxTypes CxxEquiv CxxBases CxxConv CxxQual CxxRank.
#[local] Open Scope Z_scope.

(** ** Conversions have ranks *)

Definition item_ranked (c : standard_conversion_item_t) : bool := has_promotion_rank c || has_conversion_rank c.

Definition first_item (c : standard_conversion_item_t) : Prop :=
  c = SCI_IDENTITY ∨ c = SCI_LVALUE_TO_RVALUE ∨ c = SCI_ARRAY_TO_POINTER ∨ c = SCI_FUNCTION_TO_POINTER.

Definition ranked (s : standard_conversion_t) : Prop :=
  first_item (conv0 s) ∨ item_ranked (conv1 s) = true ∨ conv2 s = SCI_QUALIFICATION_CONVERSION.

Lemma ranked_rank s : ranked s → ∃ r, standard_conversion_get_rank s = Ret r.
Proof.
  unfold ranked, first_item, item_ranked, standard_conversion_get_rank.
  destruct s as [o d c0 c1 c2]. cbn [conv0 conv1 conv2]. intros H.
  destruct (decide (c0 = SCI_IDENTITY)); [eauto|]. destruct (decide (c0 = SCI_DERIVED_TO_BASE)); [eauto|].
  destruct (has_promotion_rank c1), (has_conversion_rank c1); cbn [orb] in H;
    try (rewrite decide_False by done; eauto; fail).
  rewrite (decide_True (P := c0 = SCI_LVALUE_TO_RVALUE ∨ _)) by (destruct H as [H|[H|H]]; [|done|]; tauto).
  rewrite decide_False by done. eauto.
Qed.

Section cxx.
Context (P : program) (fuel : nat) (Hlang : lang P = CXX_LANGUAGE).

Lemma is_cxx : IS_C_LANGUAGE P = false ∧ IS_CXX_LANGUAGE P = true.
Proof. unfold IS_C_LANGUAGE, IS_CXX_LANGUAGE. by rewrite Hlang. Qed.

Lemma arithmetic_ranked o d c : arithmetic_conversion P o d = Some c → item_ranked c = true.
Proof. unfold arithmetic_conversion. intros H. repeat case_match; simplify_eq; done. Qed.

Lemma complex_ranked o d c : complex_conversion P o d = Some c → item_ranked c = true.
Proof. unfold complex_conversion. intros H. repeat case_match; simplify_eq; done. Qed.

Lemma pointer_ranked o d s : pointer_conversion P fuel o d = Ret (Some s) → item_ranked s.1.1 = true.
Proof.
  unfold pointer_conversion. destruct is_cxx as [-> ->]. cbn [andb]. intros H.
  repeat (case_match; simplify_eq; try done).
  apply bind_ret_inv in H as (b & _ & H). destruct b; simplify_eq; [done|].
  apply bind_ret_inv in H as (b & _ & H). by destruct b; simplify_eq.
Qed.

Lemma second_ranked o d s : second_conversion P fuel o d = Ret s →
  s.1.1 = SCI_NO_CONVERSION ∨ item_ranked s.1.1 = true.
Proof.
  unfold second_conversion. destruct (equivalent_types _ _); [intros [= <-]; by left|].
  destruct (arithmetic_conversion P o d) eqn:E; [intros [= <-]; right; by eapply arithmetic_ranked|].
  intros H. apply bind_ret_inv in H as (p & Hp & H). destruct p as [p|]; simplify_eq.
  { right. by eapply pointer_ranked. }
  destruct (complex_conversion P o d) eqn:E'; simplify_eq; [right; by eapply complex_ranked|].
  repeat case_match; simplify_eq; by auto.
Qed.

Lemma third_ranked lit c o d r : third_conversion P lit c o d = Ret r →
  r.1.1 = c ∧ (r.1.2 = SCI_NO_CONVERSION ∨ r.1.2 = SCI_QUALIFICATION_CONVERSION).
Proof.
  unfold third_conversion. destruct is_cxx as [-> ->]. destruct (_ && _); [|intros [= <-]; auto].
  intros H. apply bind_ret_inv in H as (b & _ & H). simplify_eq. repeat case_match; simplify_eq; auto.
Qed.

Definition start_item (c : standard_conversion_item_t) : Prop := c = SCI_NO_CONVERSION ∨ first_item c.

Lemma first_ranked c o d : start_item c → start_item (lvalue_transformation c o d).1.
Proof. unfold lvalue_transformation, start_item, first_item. intros H. repeat case_match; simpl; tauto. Qed.

Lemma value_ranked start o d s : start_item start → value_conversion P fuel start o d = Ret (Some s) → ranked s.
Proof.
  intros Hst H. unfold value_conversion in H.
  set (o' := if is_rvalue_reference_type o then no_ref o else o) in *.
  pose proof (first_ranked start o' d Hst) as H1. destruct (lvalue_transformation start o' d) as [c0 o1].
  apply bind_ret_inv in H as ([[c1 o2] d2] & H2 & H). apply second_ranked in H2.
  apply bind_ret_inv in H as ([[c1' c2] o3] & H3 & H). apply third_ranked in H3 as [? H3]. simpl in *. subst c1'.
  destruct (negb _); [done|]. injection H as <-. unfold standard_conversion_is_invalid. cbn [conv0 conv1 conv2].
  unfold ranked. destruct (decide (c0 = SCI_NO_CONVERSION)) as [->|N0].
  2: { rewrite bool_decide_eq_false_2 by done. left. by destruct H1. }
  destruct H2 as [->|H2].
  2: { rewrite (bool_decide_eq_false_2 (c1 = _)) by (by intros ->). rewrite andb_false_r. cbn. auto. }
  destruct H3 as [->| ->]; cbn; unfold first_item; auto.
Qed.

Lemma bind_temporary_ranked rec o d r : (∀ o d s, rec o d = Ret (Some s) → ranked s) →
  bind_temporary P fuel rec o d = Ret r →
  match r with inl (Some s) => ranked s | inl None => True | inr c => start_item c end.
Proof.
  intros Hrec H. unfold bind_temporary in H. destruct (_ || _); [|injection H as <-; by left].
  apply bind_ret_inv in H as (b & _ & H). destruct b; [injection H as <-; by left; left|].
  apply bind_ret_inv in H as (c & Hc & H). injection H as <-. destruct c as [c|]; [|right; by left].
  apply Hrec in Hc. exact Hc.
Qed.

Lemma reference_ranked (a : res (option (option standard_conversion_t))) o d r :
  a = bind_lvalue P fuel o d ∨ a = bind_rvalue P fuel o d → a = Ret r →
  match r with Some (Some s) => ranked s | _ => True end.
Proof.
  intros [->| ->]; unfold bind_lvalue, bind_rvalue; (destruct (_ && _); [|by intros [= <-]]);
    intros H; apply bind_ret_inv in H as (b & _ & H); injection H as <-; repeat case_match; simplify_eq; try done;
    first [by left; left|by right; left].
Qed.

Lemma conversion_ranked n : ∀ o d s, standard_conversion_between_types P fuel n o d = Ret (Some s) → ranked s.
Proof.
  induction n as [|n IH]; intros o d s H; [done|]. cbn [standard_conversion_between_types] in H.
  destruct (equivalent_types o d); [injection H as <-; by left; left|].
  unfold c_binding in H. rewrite (proj1 is_cxx) in H. cbn [andb] in H.
  apply bind_ret_inv in H as (b1 & H1 & H). apply (reference_ranked _ o d) in H1; [|by left].
  destruct b1; simplify_eq; [done|].
  apply bind_ret_inv in H as (b2 & H2 & H). apply (reference_ranked _ o d) in H2; [|by right].
  destruct b2; simplify_eq; [done|].
  apply bind_ret_inv in H as (b3 & H3 & H). apply bind_temporary_ranked in H3; [|exact IH].
  destruct b3 as [a|c]; simplify_eq; [done|]. by eapply value_ranked.
Qed.
End cxx.
