(* ===== verification/CxxArith.v ===== *)
(** * Conversions between arithmetic types

    The C++ conversions between the arithmetic types, for all of their
    qualifications and for values and references: they are found, and they are
    ranked and ordered as a table says. *)

From S2P Require Import Prelude CxxTypes CxxConv CxxRank.
#[local] Open Scope Z_scope.

(** ** The arithmetic types *)

Definition int_of (long : Z) (short unsigned : bool) : simple_type_t :=
  Simple BT_INT long short unsigned (negb unsigned) 0.
Definition char_of (unsigned signed : bool) : simple_type_t := Simple BT_CHAR 0 false unsigned signed 0.
Definition plain (k : builtin_type_t) (long size : Z) : simple_type_t := Simple k long false false false size.

Definition bool_types : list simple_type_t := [plain BT_BOOL 0 1].
Definition small_types : list simple_type_t :=
  [char_of false false; char_of false true; char_of true false; int_of 0 true false; int_of 0 true true;
   plain BT_WCHAR 0 0; plain BT_CHAR16_T 0 0; plain BT_CHAR32_T 0 0].
Definition the_int : simple_type_t := int_of 0 false false.
Definition large_types : list simple_type_t :=
  [the_int; int_of 0 false true; int_of 1 false false; int_of 1 false true; int_of 2 false false;
   int_of 2 false true; int_of 3 false false; int_of 3 false true].
Definition floating_types : list simple_type_t :=
  [plain BT_FLOAT 0 0; plain BT_DOUBLE 0 0; plain BT_DOUBLE 1 0].
Definition arithmetic_types : list simple_type_t := bool_types ++ small_types ++ large_types ++ floating_types.

(** ** The table *)

(** The place of a floating type among them *)
Definition precision (s : simple_type_t) : Z :=
  match builtin_type s with BT_FLOAT => 1 | BT_DOUBLE => 2 + is_long s | _ => 0 end.

Definition is_promotion (o d : simple_type_t) : bool :=
  (bool_decide (d = the_int) && bool_decide (o ∈ bool_types ++ small_types))
  || ((0 <? precision o) && (precision o <? precision d)).

Definition rank_table (o d : simple_type_t) : standard_conversion_rank_t :=
  if bool_decide (o = d) then SCR_EXACT_MATCH else if is_promotion o d then SCR_PROMOTION else SCR_CONVERSION.

(** A value, or a reference to one *)
Inductive form := AsValue | AsLvalue | AsRvalue.
Definition forms : list form := [AsValue; AsLvalue; AsRvalue].
Definition as_form (f : form) (t : type_t) : type_t :=
  match f with
  | AsValue => t
  | AsLvalue => Reference CV_NONE TK_LVALUE_REFERENCE t
  | AsRvalue => Reference CV_NONE TK_RVALUE_REFERENCE t
  end.

Definition qualifications : list Z := [CV_NONE; CV_CONST; CV_VOLATILE; Z.lor CV_CONST CV_VOLATILE].
Definition unqualifieds : list Z := [CV_NONE; CV_VOLATILE].
Definition consts : list Z := [CV_CONST; Z.lor CV_CONST CV_VOLATILE].
Definition argument (f : form) (q : Z) (s : simple_type_t) : type_t := as_form f (Builtin q false s).

(** ** The checks *)

Lemma forallb_in {A} (p : A → bool) l x : forallb p l = true → x ∈ l → p x = true.
Proof. rewrite forallb_forall. intros H Hx. by apply H, list_elem_of_In. Qed.

Lemma in_forms f : f ∈ forms.
Proof. destruct f; rewrite list_elem_of_In; simpl; tauto. Qed.

Ltac at_element H x := apply (fun H => forallb_in _ _ x H) in H; [cbn beta in H|first [apply in_forms|assumption]].

Section table.
Context (P : program) (fuel n : nat).

Definition found (o d : type_t) : option standard_conversion_t :=
  match standard_conversion_between_types P fuel (S n) o d with Ret s => s | Err _ => None end.

Definition rank_is (r : standard_conversion_rank_t) (s : option standard_conversion_t) : bool :=
  match s with
  | Some s => match standard_conversion_get_rank s with Ret r' => bool_decide (r = r') | Err _ => false end
  | None => false
  end.

Definition table_holds : bool :=
  forallb (λ f, forallb (λ q, forallb (λ o, forallb (λ q', forallb (λ d,
    rank_is (rank_table o d) (found (argument f q o) (Builtin q' false d)))
    arithmetic_types) unqualifieds) arithmetic_types) qualifications) forms.

(** A [const] destination is not assigned to. *)
Definition no_conversion (o d : type_t) : bool :=
  match standard_conversion_between_types P fuel (S n) o d with Ret None => true | _ => false end.

Definition consts_hold : bool :=
  forallb (λ f, forallb (λ q, forallb (λ o, forallb (λ q', forallb (λ d,
    equivalent_types (argument f q o) (Builtin q' false d) || no_conversion (argument f q o) (Builtin q' false d))
    arithmetic_types) consts) arithmetic_types) qualifications) forms.

Definition order_is (b : bool) (r : res bool) : bool := match r with Ret b' => eqb b b' | Err _ => false end.

Definition ordered (s1 s2 : Z * option standard_conversion_t) : bool :=
  match s1.2, s2.2 with
  | Some c1, Some c2 => order_is (s1.1 <? s2.1) (standard_conversion_is_better P fuel c1 c2)
  | _, _ => false
  end.

Definition to_type (o : type_t) (s d : simple_type_t) : Z * option standard_conversion_t :=
  (rank_number (rank_table s d), found o (Builtin CV_NONE false d)).

Definition order_row (o : type_t) (s : simple_type_t) (l : list simple_type_t) : bool :=
  let row := map (to_type o s) l in forallb (λ s1, forallb (ordered s1) row) row.

Definition order_holds : bool :=
  forallb (λ f, forallb (λ q, forallb (λ o, order_row (argument f q o) o arithmetic_types)
    arithmetic_types) qualifications) forms.

Lemma order_row_spec o s l d1 d2 : order_row o s l = true → d1 ∈ l → d2 ∈ l →
  ordered (to_type o s d1) (to_type o s d2) = true.
Proof.
  intros H H1 H2. assert (Hin : ∀ d, d ∈ l → to_type o s d ∈ map (to_type o s) l).
  { intros d Hd. apply list_elem_of_In, in_map. by apply list_elem_of_In. }
  apply (forallb_in _ _ (to_type o s d1)) in H; [|by apply Hin].
  exact (forallb_in _ _ (to_type o s d2) H (Hin d2 H2)).
Qed.

Lemma ordered_spec o s d1 d2 s1 s2 :
  ordered (to_type o s d1) (to_type o s d2) = true →
  standard_conversion_between_types P fuel (S n) o (Builtin CV_NONE false d1) = Ret (Some s1) →
  standard_conversion_between_types P fuel (S n) o (Builtin CV_NONE false d2) = Ret (Some s2) →
  standard_conversion_is_better P fuel s1 s2 = Ret (rank_number (rank_table s d1) <? rank_number (rank_table s d2)).
Proof.
  intros H H1 H2. revert H. unfold ordered, to_type, found, order_is. cbn [fst snd]. rewrite H1, H2.
  destruct (standard_conversion_is_better _ _ _ _) as [r|]; [|done]. by intros ->%eqb_prop.
Qed.
Lemma table_spec f q o q' d : table_holds = true →
  q ∈ qualifications → q' ∈ unqualifieds → o ∈ arithmetic_types → d ∈ arithmetic_types →
  rank_is (rank_table o d) (found (argument f q o) (Builtin q' false d)) = true.
Proof.
  intros H Hq Hq' Ho Hd. unfold table_holds in H.
  at_element H f; at_element H q; at_element H o; at_element H q'; at_element H d. exact H.
Qed.

Lemma consts_spec f q o q' d : consts_hold = true →
  q ∈ qualifications → q' ∈ consts → o ∈ arithmetic_types → d ∈ arithmetic_types →
  equivalent_types (argument f q o) (Builtin q' false d) || no_conversion (argument f q o) (Builtin q' false d) = true.
Proof.
  intros H Hq Hq' Ho Hd. unfold consts_hold in H.
  at_element H f; at_element H q; at_element H o; at_element H q'; at_element H d. exact H.
Qed.

Lemma order_spec f q o d1 d2 : order_holds = true →
  q ∈ qualifications → o ∈ arithmetic_types → d1 ∈ arithmetic_types → d2 ∈ arithmetic_types →
  ordered (to_type (argument f q o) o d1) (to_type (argument f q o) o d2) = true.
Proof.
  intros H Hq Ho Hd1 Hd2. unfold order_holds in H.
  at_element H f; at_element H q; at_element H o. by eapply order_row_spec.
Qed.

Lemma found_spec o d r : rank_is r (found o d) = true →
  ∃ s, standard_conversion_between_types P fuel (S n) o d = Ret (Some s) ∧ standard_conversion_get_rank s = Ret r.
Proof.
  unfold rank_is, found. destruct (standard_conversion_between_types _ _ _ _ _) as [[s|]|]; [|done..].
  intros H. exists s. split; [done|]. destruct (standard_conversion_get_rank s) as [r'|]; [|done].
  apply bool_decide_eq_true in H. by rewrite <-H.
Qed.

Lemma no_conversion_spec o d : no_conversion o d = true →
  standard_conversion_between_types P fuel (S n) o d = Ret None.
Proof. unfold no_conversion. by destruct (standard_conversion_between_types _ _ _ _ _) as [[s|]|]. Qed.
End table.

Lemma table_checked id w e b fuel n : table_holds (Program CXX_LANGUAGE id w e b) fuel n = true.
Proof. vm_compute. reflexivity. Qed.

Lemma consts_checked id w e b fuel n : consts_hold (Program CXX_LANGUAGE id w e b) fuel n = true.
Proof. vm_compute. reflexivity. Qed.

Lemma order_checked id w e b fuel n : order_holds (Program CXX_LANGUAGE id w e b) fuel n = true.
Proof. vm_compute. reflexivity. Qed.

(** ** The results *)

Section results.
Context (P : program) (fuel n : nat) (Hlang : lang P = CXX_LANGUAGE).
Notation converts := (standard_conversion_between_types P fuel (S n)).
Notation better := (standard_conversion_is_better P fuel).

Lemma arithmetic_rank f q o q' d :
  q ∈ qualifications → q' ∈ unqualifieds → o ∈ arithmetic_types → d ∈ arithmetic_types →
  ∃ s, converts (argument f q o) (Builtin q' false d) = Ret (Some s)
  ∧ standard_conversion_get_rank s = Ret (rank_table o d).
Proof.
  intros Hq Hq' Ho Hd. destruct P as [l id w e b]. simpl in Hlang. subst l.
  by apply found_spec, table_spec; [apply table_checked|..].
Qed.

Lemma arithmetic_const f q o q' d :
  q ∈ qualifications → q' ∈ consts → o ∈ arithmetic_types → d ∈ arithmetic_types →
  equivalent_types (argument f q o) (Builtin q' false d) = false →
  converts (argument f q o) (Builtin q' false d) = Ret None.
Proof.
  intros Hq Hq' Ho Hd He. destruct P as [l id w e b]. simpl in Hlang. subst l.
  pose proof (consts_spec _ fuel n f q o q' d (consts_checked id w e b fuel n) Hq Hq' Ho Hd) as H.
  apply no_conversion_spec. by rewrite He in H.
Qed.

Lemma arithmetic_order f q o d1 d2 s1 s2 :
  q ∈ qualifications → o ∈ arithmetic_types → d1 ∈ arithmetic_types → d2 ∈ arithmetic_types →
  converts (argument f q o) (Builtin CV_NONE false d1) = Ret (Some s1) →
  converts (argument f q o) (Builtin CV_NONE false d2) = Ret (Some s2) →
  better s1 s2 = Ret (rank_number (rank_table o d1) <? rank_number (rank_table o d2)).
Proof.
  intros Hq Ho Hd1 Hd2 H1 H2. destruct P as [l id w e b]. simpl in Hlang. subst l.
  refine (ordered_spec _ _ _ _ _ _ _ _ _ (order_spec _ fuel n f q o d1 d2 (order_checked id w e b fuel n) Hq Ho Hd1 Hd2) H1 H2).
Qed.
End results.
