(* ===== verification/CxxBetter.v ===== *)
(** * No conversion is better than itself

    The equivalence of types is reflexive, and so the comparison of conversions
    is irreflexive. *)

From S2P Require Import Prelude CxxTypes CxxEquiv CxxBases CxxConv CxxRank.
#[local] Open Scope Z_scope.

(** ** Depths *)

Lemma get_cv_qualified_depth_ n : ∀ t cv, (depth t ≤ n)%nat → (depth (get_cv_qualified_type t cv) ≤ depth t)%nat.
Proof.
  induction n as [|n IH]; intros t cv Hn; [destruct t; simpl in Hn; lia|].
  assert (Hadv : ∀ u, (depth u ≤ depth t)%nat →
    (depth ((fix advanced (t' : type_t) : type_t :=
       match t' with
       | Indirect _ true _ t'' => advanced t''
       | Array _ e n l => Array CV_NONE (get_cv_qualified_type e cv) n l
       | _ => set_cv cv (if is_more_cv_qualified cv (advance t).2 then t else t')
       end) u) ≤ depth t)%nat).
  { intros u. induction u as [| | |? [] ? u IHu| | | | | | |? e IHe ? ?|]; intros Hu;
      try (rewrite depth_set_cv; destruct (is_more_cv_qualified _ _); done).
    - apply IHu. simpl in Hu. lia.
    - simpl in *. pose proof (IH e cv ltac:(lia)). lia. }
  destruct t; cbn [get_cv_qualified_type]; destruct (_ =? _); try done;
    match goal with |- (_ ≤ depth ?x)%nat => exact (Hadv x (le_n _)) end.
Qed.

Lemma get_cv_qualified_depth t cv : (depth (get_cv_qualified_type t cv) ≤ depth t)%nat.
Proof. by eapply get_cv_qualified_depth_. Qed.

Lemma parameter_depth (ps : list (option type_t)) t : Some t ∈ ps →
  (depth t ≤ list_max (map (λ p, match p with None => O | Some t => depth t end) ps))%nat.
Proof.
  intros H. induction ps as [|p ps IH]; [by apply elem_of_nil in H|]. simpl.
  apply elem_of_cons in H as [<-|H]; [lia|]. specialize (IH H). lia.
Qed.

(** ** Reflexivity *)

Lemma equivalent_builtin_refl s : equivalent_builtin_type s s = true.
Proof. by apply canon_builtin_spec. Qed.

Section reflexive.
Context (e : type_t → type_t → bool) (n : nat) (Hrefl : ∀ t, (depth t ≤ n)%nat → e t t = true).

Lemma compatible_parameters_refl ps : (∀ t, Some t ∈ ps → (depth t ≤ n)%nat) → compatible_parameters e ps ps = true.
Proof.
  intros H. unfold compatible_parameters. rewrite Nat.eqb_refl. cbn [negb]. induction ps as [|[t|] ps IH]; simpl; [done|..].
  - assert (e (get_cv_qualified_type t CV_NONE) (get_cv_qualified_type t CV_NONE) = true) as ->.
    { apply Hrefl. etrans; [apply get_cv_qualified_depth|]. apply H. by left. }
    apply IH. intros u Hu. apply H. by right.
  - apply IH. intros u Hu. apply H. by right.
Qed.

Lemma equivalent_nodes_refl t : (depth t ≤ S n)%nat → equivalent_nodes e t t = true.
Proof.
  intros Hd. destruct t; simpl in Hd |- *; rewrite ?Z.eqb_refl; unfold equivalent_named_types; rewrite ?Z.eqb_refl;
    rewrite ?Hrefl by lia; simpl; try done.
  - apply equivalent_builtin_refl.
  - by rewrite decide_True.
  - by destruct whole_size; simpl; rewrite ?Z.eqb_refl.
  - rewrite compatible_parameters_refl; simpl.
    + rewrite decide_False by (by intros H; apply H). done.
    + intros t' Ht. apply parameter_depth in Ht. lia.
Qed.
End reflexive.

Lemma equivalent_types_refl_ fuel : ∀ t, (depth t ≤ fuel)%nat → equivalent_types_ fuel t t = true.
Proof.
  induction fuel as [|fuel IH]; intros t Hd; [destruct t; simpl in Hd; lia|]. cbn [equivalent_types_].
  pose proof (advance_depth t). destruct (advance t) as [t' cv]. simpl in *.
  rewrite (equivalent_nodes_refl _ fuel IH) by lia. apply Z.eqb_refl.
Qed.

Lemma equivalent_types_refl t : equivalent_types t t = true.
Proof. apply equivalent_types_refl_. lia. Qed.

(** ** Irreflexivity *)

Section irreflexive.
Context (P : program) (fuel : nat).

Lemma subsequence_irrefl s : standard_conversion_is_subsequence s s = false.
Proof.
  unfold standard_conversion_is_subsequence, item_is_subsequence.
  rewrite !decide_True by done. by destruct (none_ (conv1 s)), (none_ (conv2 s)).
Qed.

Lemma better_in_rank_irrefl s : better_in_rank P fuel s s = Ret false.
Proof.
  unfold better_in_rank. destruct (standard_conversion_is_pointer_to_bool s); cbn [negb andb];
    unfold scalar_before_complex, same_target; rewrite !equivalent_types_refl; cbn [andb orb];
    by destruct (is_complex_type (no_ref (dest s))); rewrite ?andb_false_r; cbn.
Qed.

Lemma more_qualified_irrefl t : is_more_cv_qualified_type t t = false.
Proof.
  unfold is_more_cv_qualified_type, is_less_or_equal_cv_qualified_type, is_equally_cv_qualified_type, is_equal_cv_qualified.
  by rewrite Z.eqb_refl, orb_true_r.
Qed.

Lemma reference_kinds t : is_rvalue_reference_type t = true → is_lvalue_reference_type t = false.
Proof. unfold is_rvalue_reference_type, is_lvalue_reference_type. by destruct (node_of t) as [| | | | | | | |? []| | |]. Qed.

Lemma better_irrefl s r : standard_conversion_get_rank s = Ret r → standard_conversion_is_better P fuel s s = Ret false.
Proof.
  intros Hr. unfold standard_conversion_is_better. rewrite subsequence_irrefl.
  assert (standard_conversion_has_better_rank P fuel s s = Ret false) as ->.
  { unfold standard_conversion_has_better_rank. rewrite Hr, !bind_ret, Z.ltb_irrefl, Z.eqb_refl.
    destruct (decide _); [done|]. apply better_in_rank_irrefl. }
  rewrite bind_ret. unfold standard_conversion_differs_qualification. rewrite !more_qualified_irrefl, andb_false_r.
  destruct (is_rvalue_reference_type (dest s)) eqn:E; [apply reference_kinds in E; rewrite E|];
    rewrite ?andb_false_r; cbn [andb orb]; by repeat case_match.
Qed.
End irreflexive.
