(* ===== verification/CxxTotal.v ===== *)
(** * [standard_conversion_between_types] always answers

    In an acyclic hierarchy of classes, and for types less than 255 deep, the
    function ends: no assertion fails and its recursion is as deep as the
    references of the destination. *)

From S2P Require Import Prelude CxxTypes CxxEquiv CxxBases CxxBasesProps CxxConv CxxQual CxxBetter.
#[local] Open Scope Z_scope.

(** ** What qualifiers do not change *)

(** A type without typedefs and qualifiers, down the arrays *)
Fixpoint shape (t : type_t) : type_t :=
  match t with
  | Indirect _ true _ t' => shape t'
  | Array _ e n l => Array CV_NONE (shape e) n l
  | _ => set_cv CV_NONE t
  end.

Lemma shape_set_cv cv t : is_array t = false → shape (set_cv cv t) = shape t.
Proof. by destruct t as [| | |? []| | | | | | | |]. Qed.

Lemma shape_advance t : shape (advance t).1 = shape t.
Proof.
  induction t as [| | |? [] ? t IH| | | | | | | |]; simpl; try done. by destruct (advance t).
Qed.

Lemma shape_qualified_ n : ∀ t cv, (depth t ≤ n)%nat → shape (get_cv_qualified_type t cv) = shape t.
Proof.
  induction n as [|n IH]; intros t cv Hn; [destruct t; simpl in Hn; lia|].
  assert (Hadv : ∀ u, (depth u ≤ depth t)%nat → shape u = shape t →
    shape ((fix advanced (t' : type_t) : type_t :=
       match t' with
       | Indirect _ true _ t'' => advanced t''
       | Array _ e n l => Array CV_NONE (get_cv_qualified_type e cv) n l
       | _ => set_cv cv (if is_more_cv_qualified cv (advance t).2 then t else t')
       end) u) = shape t).
  { intros u. induction u as [| | |? [] ? u IHu| | | | | | |? e IHe ? ?|]; intros Hd Hs;
      try (destruct (is_more_cv_qualified _ _); (rewrite shape_set_cv; [done|]); [|done]; by destruct t).
    - apply IHu; [|done]. simpl in Hd. lia.
    - cbn [shape] in Hs |- *. rewrite IH; [done|]. simpl in Hd. lia. }
  destruct t; cbn [get_cv_qualified_type]; destruct (_ =? _); try done;
    match goal with |- _ = shape ?x => exact (Hadv x (le_n _) eq_refl) end.
Qed.

Lemma shape_qualified t cv : shape (get_cv_qualified_type t cv) = shape t.
Proof. by eapply shape_qualified_. Qed.

(** A property of shapes, and a bound of the depth, that qualifiers keep *)
Definition keeps (t t' : type_t) : Prop := shape t' = shape t ∧ (depth t' ≤ depth t)%nat.

Lemma keeps_trans t1 t2 t3 : keeps t1 t2 → keeps t2 t3 → keeps t1 t3.
Proof. intros [? ?] [? ?]. split; [congruence|lia]. Qed.

Lemma qualified_keeps t cv : keeps t (get_cv_qualified_type t cv).
Proof. split; [apply shape_qualified|apply get_cv_qualified_depth]. Qed.

Lemma advance_keeps t : keeps t (advance t).1.
Proof. split; [apply shape_advance|apply advance_depth]. Qed.

Lemma advance_over_typedefs_keeps t : keeps t (advance_over_typedefs t).
Proof.
  destruct t as [| | |cv [] s t| | | | | | | |]; try done. unfold advance_over_typedefs.
  pose proof (advance_keeps (Indirect cv true s t)) as H. destruct (advance _) as [u cv']. simpl in H.
  destruct (negb _); [|done]. eapply keeps_trans; [exact H|]. apply qualified_keeps.
Qed.

Lemma unqualified_keeps_ n : ∀ t, (depth t ≤ n)%nat → keeps t (get_unqualified_type_ n t).
Proof.
  assert (Hend : ∀ t, is_array (advance_over_typedefs t) = false → keeps t
    (let t' := advance_over_typedefs t in let cv := get_cv_qualifier t' in
     if negb (Z.land cv CV_RESTRICT =? CV_RESTRICT) then if cv =? CV_NONE then t else unqualified_type t'
     else if cv =? CV_RESTRICT then get_restrict_qualified_type t else get_restrict_qualified_type (unqualified_type t'))).
  { intros t Ha. pose proof (advance_over_typedefs_keeps t) as [Hs Hd]. cbv zeta.
    assert (Hu : keeps t (unqualified_type (advance_over_typedefs t))).
    { unfold unqualified_type. split; [by rewrite shape_set_cv|by rewrite depth_set_cv]. }
    destruct (negb _); [by destruct (_ =? _)|]. unfold get_restrict_qualified_type.
    destruct (_ =? _); [apply qualified_keeps|]. eapply keeps_trans; [exact Hu|apply qualified_keeps]. }
  induction n as [|n IH]; intros t Hn; [destruct t; simpl in Hn; lia|].
  pose proof (Hend t) as He. pose proof (advance_over_typedefs_keeps t) as [Hs Hd].
  cbn [get_unqualified_type_]. cbv zeta in He |- *.
  destruct (advance_over_typedefs t) as [| | | | | | | | | |cv e m l|] eqn:E; try by apply He.
  simpl in Hd. destruct (IH e) as [Hs' Hd']; [lia|]. split; simpl in *; [by rewrite Hs'|lia].
Qed.

Lemma unqualified_keeps t : keeps t (get_unqualified_type t).
Proof. by apply unqualified_keeps_. Qed.

Lemma node_keeps t : keeps t (node_of t).
Proof. apply advance_keeps. Qed.

Lemma class_shape t : get_actual_class_type t = get_actual_class_type (shape t).
Proof.
  unfold get_actual_class_type. rewrite <-(shape_advance t). unfold node_of.
  pose proof (advance_node t) as Hn. destruct (advance t).1 as [| | |? [] ? u| | | | | | | |]; try done.
Qed.

Lemma class_keeps t t' : keeps t t' → get_actual_class_type t' = get_actual_class_type t.
Proof. intros [Hs _]. by rewrite class_shape, Hs, <-class_shape. Qed.

Lemma is_class_keeps t t' : keeps t t' → is_class_type t' = is_class_type t.
Proof. intros H. unfold is_class_type. by rewrite (class_keeps t t' H). Qed.

(** Pointers to members are of classes. *)
Fixpoint members (t : type_t) : Prop :=
  match t with
  | Builtin _ _ _ | Class _ _ | Enum _ _ | Function _ _ _ _ => True
  | Indirect _ _ _ t' | Complex _ t' | Vector _ _ t' | Mask _ _ t' | Pointer _ t' | Reference _ _ t'
  | Array _ t' _ _ => members t'
  | PointerToMember _ t' c => members t' ∧ is_class_type c = true
  end.

Lemma members_shape t : members t ↔ members (shape t).
Proof. induction t as [| | |? [] ? t IH| | | | | | | |]; simpl; done. Qed.

(** Types for which the conversion ends: less than [n] deep *)
Definition fits (n : nat) (t : type_t) : Prop := members t ∧ (depth t < n)%nat.

Lemma fits_keeps n t t' : keeps t t' → fits n t → fits n t'.
Proof. intros [Hs Hd] [Hm Hn]. split; [|lia]. by rewrite members_shape, Hs, <-members_shape. Qed.

(** The parts of a type *)
Lemma fits_node n t : fits n t → fits n (node_of t).
Proof. apply fits_keeps, node_keeps. Qed.

Lemma fits_no_ref n t : fits n t → fits n (no_ref t).
Proof.
  intros H. unfold no_ref. destruct (_ || _); [|done]. apply fits_node in H as [Hm Hn].
  unfold fits, reference_type_get_referenced_type. destruct (node_of t); simpl in *; try done. split; [done|lia].
Qed.

Lemma qualified_not_typedef t cv : is_typedef t = false → is_typedef (get_cv_qualified_type t cv) = false.
Proof.
  destruct t as [| | |? [] ? ?| | | | | | | |]; intros H; try done; simpl;
    destruct (_ =? _); try done; by destruct (is_more_cv_qualified _ _).
Qed.

Lemma advance_over_typedefs_not_typedef t : is_typedef (advance_over_typedefs t) = false.
Proof.
  destruct t as [| | |cv [] s t| | | | | | | |]; try done. unfold advance_over_typedefs.
  pose proof (advance_node (Indirect cv true s t)) as H. destruct (advance _) as [u cv']. simpl in H.
  destruct (negb _); [by apply qualified_not_typedef|done].
Qed.

Lemma advanced_array t : is_array_type t = true → is_array (advance_over_typedefs t) = true.
Proof.
  unfold is_array_type. intros Ha. destruct (advance_over_typedefs_keeps t) as [Hs _], (node_keeps t) as [Hs' _].
  rewrite <-Hs' in Hs. pose proof (advance_over_typedefs_not_typedef t) as Ht.
  destruct (node_of t); try done; destruct (advance_over_typedefs t) as [| | |? [] ? ?| | | | | | | |]; done.
Qed.

Lemma fits_element n t : is_array_type t = true → fits n t → fits n (Pointer CV_NONE (array_type_get_element_type t)).
Proof.
  intros Ha H. apply (fits_keeps _ _ _ (advance_over_typedefs_keeps t)) in H as [Hm Hn]. apply advanced_array in Ha.
  unfold array_type_get_element_type. destruct (advance_over_typedefs t); done.
Qed.

Lemma fits_function n t : is_function_type t = true → fits n t → fits (S n) (Pointer CV_NONE t).
Proof. intros Hf [Hm Hn]. split; simpl; [done|lia]. Qed.

Lemma fits_mono n m t : (n ≤ m)%nat → fits n t → fits m t.
Proof. intros Hle [Hm Hn]. split; [done|lia]. Qed.

Lemma fits_pointee n t : fits n t → fits n (pointer_type_get_pointee_type t).
Proof.
  intros H. apply fits_node in H as [Hm Hn]. unfold fits, pointer_type_get_pointee_type.
  destruct (node_of t); simpl in *; try done; try (split; [done|lia]). destruct Hm. split; [done|lia].
Qed.

Lemma fits_unpack n t : fits n t → fits n (unpack_mask t).
Proof.
  intros H. unfold unpack_mask. destruct (is_mask_type t) eqn:Hm; [|done]. eapply fits_keeps; [apply qualified_keeps|].
  apply fits_node in H as [Hm' Hn]. unfold mask_type_get_underlying_type, is_mask_type in *. unfold fits.
  destruct (node_of t); try done. simpl in *. split; [done|lia].
Qed.

Lemma member_class n t : fits n t → is_pointer_to_member_type t = true →
  is_class_type (pointer_to_member_type_get_class_type t) = true.
Proof.
  intros H Hp. apply fits_node in H as [Hm _]. unfold pointer_to_member_type_get_class_type, is_pointer_to_member_type in *.
  destruct (node_of t); try done. apply Hm.
Qed.

Lemma transformed_fits n start o d : fits n o → fits (S n) (lvalue_transformation start o d).2.
Proof.
  intros H. pose proof (fits_no_ref n o H) as Hr. assert (n ≤ S n)%nat by lia. unfold lvalue_transformation.
  destruct (is_array_type (no_ref o)) eqn:Ha; [by eapply fits_mono, fits_element|].
  destruct (is_function_type (no_ref o)) eqn:Hf; [by apply fits_function|].
  destruct (is_lvalue_reference_type o) eqn:Hl; cbn [andb]; [|by eapply fits_mono].
  destruct (negb _); [|by eapply fits_mono]. unfold no_ref in Hr. rewrite Hl in Hr. by eapply fits_mono.
Qed.

(** ** The search for ambiguous bases ends *)

Section bases.
Context (bases : Z → list base_class_info_t) (rank : Z → nat).
Hypothesis acyclic : ∀ c b, b ∈ bases c → (rank (class_symbol b) < rank c)%nat.
Hypothesis no_expansion : ∀ c b, b ∈ bases c → is_expansion b = false.

Lemma search_bases_total (step : Z → list (Z * bool) → bool → res (list (Z * bool) * bool * bool)) b p (Q : Z → Prop) l :
  (∀ x, x ∈ l → is_expansion x = false) →
  (∀ x p amb, x ∈ l → ∃ p' r amb', step (class_symbol x) p amb = Ret (p', r, amb') ∧ (Q (class_symbol x) → r = true)) →
  ∀ amb, ∃ found amb', search_bases step b p l amb = Ret (found, amb')
  ∧ ((∃ x, x ∈ l ∧ is_dependent x = false ∧ (class_symbol x = b ∨ Q (class_symbol x))) →
     ∃ pf, pf ∈ found ∧ pf.2 = true).
Proof.
  induction l as [|x l IH]; intros Hexp Hstep amb; cbn [search_bases].
  { eexists _, _. split; [done|]. by intros (x & ?%elem_of_nil & _). }
  assert (Hhead : ∃ q r amb', (if is_dependent x || is_expansion x then Ret (p, false, amb)
       else if class_symbol x =? b then Ret (p ++ [(b, is_virtual x)], true, amb)
            else step (class_symbol x) (p ++ [(b, is_virtual x)]) amb) = Ret (q, r, amb')
    ∧ (is_dependent x = false → class_symbol x = b ∨ Q (class_symbol x) → r = true)).
  { rewrite (Hexp x) by left. destruct (is_dependent x); cbn [orb]; [by eexists _, _, _|].
    destruct (Z.eqb_spec (class_symbol x) b) as [E|E]; [by eexists _, _, _|].
    destruct (Hstep x (p ++ [(b, is_virtual x)]) amb) as (q & r & amb' & Hs & Hr); [by left|].
    eexists _, _, _. split; [exact Hs|]. intros _ [?|?]; [done|by apply Hr]. }
  destruct Hhead as (q & r & amb' & -> & Hr). rewrite bind_ret. cbn beta iota.
  destruct (IH ltac:(intros y Hy; apply Hexp; by right) ltac:(intros y ? ? Hy; apply Hstep; by right) amb')
    as (found & amb'' & -> & Hf). rewrite bind_ret. cbn beta iota. eexists _, _. split; [done|].
  intros (y & [->|Hy]%elem_of_cons & Hd & H); [exists (q, r); split; [by left|by apply Hr]|].
  destruct Hf as (pf & ? & ?); [by exists y|]. exists pf. split; [by right|done].
Qed.

Lemma aux_total fuel b : ∀ d p amb, (rank d < fuel)%nat →
  ∃ p' r amb', class_type_is_ambiguous_base_of_class_aux bases fuel b d p amb = Ret (p', r, amb')
  ∧ (tc (direct bases) d b → r = true).
Proof.
  induction fuel as [|fuel IH]; intros d p amb Hd; [lia|]. cbn [class_type_is_ambiguous_base_of_class_aux].
  destruct (search_bases_total (class_type_is_ambiguous_base_of_class_aux bases fuel b) b p
    (λ c, tc (direct bases) c b) (bases d)) with (amb := amb) as (found & amb' & -> & Hf); [apply no_expansion| |].
  { intros x q a Hx. apply IH. pose proof (acyclic d x Hx). lia. }
  rewrite bind_ret. cbn beta iota zeta. set (paths := map fst _).
  assert (Hfound : tc (direct bases) d b → negb (Nat.eqb (length paths) 0) = true ∧ last paths ≠ None).
  { intros Htc. destruct Hf as (pf & Hpf & H).
    { inversion Htc as [? ? (x & ? & ? & ?)|? c ? (x & ? & ? & <-) ?]; exists x; auto. }
    assert (Hin : pf ∈ filter (λ pf : list (Z * bool) * bool, pf.2 = true) found) by by apply list_elem_of_filter.
    unfold paths. destruct (filter _ _) as [|pf' l]; [by apply elem_of_nil in Hin|]. simpl. split; [done|].
    rewrite last_cons. by destruct (last _). }
  destruct amb'; [|destruct (found_to_be_ambiguous paths)];
    [eexists _, _, _; split; [done|]; intros H; by apply Hfound in H as [? _]..|].
  destruct (last paths); eexists _, _, _; (split; [done|]); [done|]. intros H. by apply Hfound in H as [_ ?].
Qed.

Lemma ambiguous_total fuel b d : (rank d < fuel)%nat → rtc (direct bases) d b →
  ∃ r, class_type_is_ambiguous_base_of_derived_class bases fuel b d = Ret r.
Proof.
  intros Hd H. unfold class_type_is_ambiguous_base_of_derived_class. destruct (Z.eqb_spec b d) as [|Hne]; [eauto|].
  apply rtc_inv in H as [?|(c & H & Hr)]; [congruence|].
  destruct (aux_total fuel b d [] false Hd) as (p & r & amb & -> & Hf). rewrite bind_ret. cbn beta iota.
  rewrite Hf; [by eexists|]. eapply tc_rtc_r; [by apply tc_once|done].
Qed.
End bases.

(** ** Every phase answers *)

(** A class known by its name or not is in the hierarchy. *)
Section total.
Context (P : program) (fuel : nat) (rank : Z → nat).
Hypothesis acyclic : ∀ c b, b ∈ base_classes_list P c → (rank (class_symbol b) < rank c)%nat.
Hypothesis no_expansion : ∀ c b, b ∈ base_classes_list P c → is_expansion b = false.
Hypothesis enough : ∀ c, (rank c < fuel)%nat.

Definition answers {A} (m : res A) : Prop := ∃ r, m = Ret r.

Lemma answers_ret {A} (x : A) : answers (Ret x).
Proof. by exists x. Qed.

Lemma answers_bind {A B} (m : res A) (f : A → res B) : answers m → (∀ x, m = Ret x → answers (f x)) → answers (m ≫= f).
Proof. intros [x ->] Hf. rewrite bind_ret. by apply Hf. Qed.

Lemma answers_and (a : bool) m : (a = true → answers m) → answers (and_then a m).
Proof. intros H. destruct a; [by apply H|apply answers_ret]. Qed.

Lemma class_of t : is_class_type t = true → ∃ c, get_actual_class_type t = Some c.
Proof. unfold is_class_type. intros [c Hc]%bool_decide_eq_true. by exists c. Qed.

Lemma is_base_answers b d : is_class_type b = true → is_class_type d = true →
  ∃ r, class_type_is_base P fuel b d = Ret r ∧ (r = true → answers (is_ambiguous_base P fuel b d)).
Proof.
  intros [b' Hb]%class_of [d' Hd]%class_of. unfold class_type_is_base, is_ambiguous_base. rewrite Hb, Hd.
  destruct (is_base_spec (base_classes_list P) rank acyclic fuel b' d' (enough d')) as (r & -> & Hr).
  exists r. split; [done|]. intros ->. by apply (ambiguous_total _ rank acyclic no_expansion), Hr.
Qed.

Lemma unambiguous_answers is_base b d : is_class_type b = true → is_class_type d = true →
  is_base = class_type_is_base P fuel ∨ is_base = class_type_is_base_strict P fuel →
  answers (is_unambiguous_base P fuel is_base b d).
Proof.
  intros Hb Hd Hf. destruct (is_base_answers b d Hb Hd) as (r & Hr & Ha). unfold is_unambiguous_base.
  assert (∃ r', is_base b d = Ret r' ∧ (r' = true → r = true)) as (r' & -> & Hr').
  { destruct Hf as [-> | ->]; [by exists r|]. unfold class_type_is_base_strict. destruct (equivalent_types _ _); [by exists false|].
    by exists r. }
  rewrite bind_ret. destruct r'; [|apply answers_ret]. destruct (Ha (Hr' eq_refl)) as [a ->]. apply answers_ret.
Qed.

Lemma reference_compatible_answers o d : answers (reference_compatible P fuel o d).
Proof.
  unfold reference_compatible. destruct (equivalent_types _ _); [apply answers_ret|]. apply answers_and.
  intros [? ?]%andb_true_iff. apply unambiguous_answers; auto.
Qed.

Lemma bind_lvalue_answers o d : answers (bind_lvalue P fuel o d).
Proof.
  unfold bind_lvalue. destruct (_ && _); [|apply answers_ret].
  apply answers_bind; [apply reference_compatible_answers|]. intros x _. apply answers_ret.
Qed.

Lemma bind_rvalue_answers o d : answers (bind_rvalue P fuel o d).
Proof.
  unfold bind_rvalue. destruct (_ && _); [|apply answers_ret].
  apply answers_bind; [apply reference_compatible_answers|]. intros x _. apply answers_ret.
Qed.

Lemma bind_temporary_answers rec o d :
  (is_any_reference_type d = true → answers (rec (no_ref o) (get_unqualified_type (no_ref d)))) →
  answers (bind_temporary P fuel rec o d).
Proof.
  intros Hrec. unfold bind_temporary. destruct (_ || _) eqn:Hc; [|apply answers_ret].
  assert (is_any_reference_type d = true) as Hd.
  { unfold is_any_reference_type. destruct (is_lvalue_reference_type d); [done|]. cbn [andb orb] in Hc |- *.
    by destruct (is_rvalue_reference_type d); rewrite ?andb_false_r in Hc. }
  apply answers_bind.
  - apply answers_and. intros [Ho Hdc]%andb_true_iff.
    pose proof (unqualified_keeps (no_ref o)) as Hk.
    destruct (is_base_answers (no_ref d) (get_unqualified_type (no_ref o))) as (r & -> & Ha);
      [done|by rewrite (is_class_keeps _ _ Hk)|]. rewrite bind_ret. destruct r; [|apply answers_ret].
    destruct (Ha eq_refl) as [a Hamb]. unfold is_ambiguous_base in *. rewrite (class_keeps _ _ Hk) in Hamb.
    rewrite Hamb. apply answers_ret.
  - intros [] _; [apply answers_ret|]. apply answers_bind; [by apply Hrec|]. intros; apply answers_ret.
Qed.

Lemma pointer_conversion_answers n o d : fits n o → fits n d → answers (pointer_conversion P fuel o d).
Proof.
  intros Ho Hd. unfold pointer_conversion. repeat (destruct (_ && _); [apply answers_ret|]).
  apply answers_bind.
  { apply answers_and. intros [Ho' Hd']%andb_true_iff. apply unambiguous_answers; [| |auto].
    - by apply andb_true_iff in Hd' as [_ ?].
    - by apply andb_true_iff in Ho' as [_ ?]. }
  intros [] _; [apply answers_ret|]. apply answers_bind; [|intros [] _; apply answers_ret].
  apply answers_and. intros [Ho' Hd']%andb_true_iff. apply unambiguous_answers; [by eapply member_class..|auto].
Qed.

Lemma fits_unqualified_pointee n t : fits n t → is_pointer_type t = true ∨ is_pointer_to_member_type t = true →
  fits n (Pointer CV_NONE (get_unqualified_type (pointer_type_get_pointee_type t))).
Proof.
  intros Ht Hp. pose proof (pointee_depth t Hp) as Hd. pose proof (unqualified_keeps (pointer_type_get_pointee_type t)) as Hk.
  destruct (fits_keeps n _ _ Hk (fits_pointee n t Ht)) as [Hm _]. destruct Hk as [_ Hk], Ht as [_ Ht].
  split; [done|]. simpl. lia.
Qed.

(** The new origin of a conversion of pointers is not deeper than the types. *)
Lemma pointer_conversion_fits n o d s : (2 < n)%nat → fits n o → fits n d →
  pointer_conversion P fuel o d = Ret (Some s) → fits n s.1.2.
Proof.
  intros Hn Ho Hd. unfold pointer_conversion.
  assert (Hvoid : fits n (Pointer CV_NONE (get_cv_qualified_type (Builtin CV_NONE false (Simple BT_VOID 0 false false false 0))
    (get_cv_qualifier (pointer_type_get_pointee_type o))))).
  { set (v := Builtin _ _ _). destruct (fits_keeps 2 _ _ (qualified_keeps v (get_cv_qualifier (pointer_type_get_pointee_type o))))
      as [Hm Hv]; [split; simpl; [done|lia]|]. split; [exact Hm|]. cbn [depth]. lia. }
  repeat (destruct (_ && _); [intros [= <-]; first [exact Ho|exact Hd|exact Hvoid]|]).
  intros H. apply bind_ret_inv in H as (b & Hb & H). destruct b.
  { injection H as <-. apply fits_unqualified_pointee; [done|]. left. unfold and_then in Hb.
    destruct (is_pointer_to_class_type d) eqn:E; [|by rewrite andb_false_r in Hb].
    by apply andb_true_iff in E as [? _]. }
  clear Hb. apply bind_ret_inv in H as (b & Hb & H). destruct b; [|done]. injection H as <-.
  destruct (is_pointer_to_member_type d) eqn:E; [|by rewrite andb_false_r in Hb].
  destruct (fits_unqualified_pointee n d Hd (or_intror E)) as [Hm Hdd]. simpl in Hm, Hdd |- *.
  pose proof (member_class n d Hd E) as Hc. split; simpl; [done|].
  apply fits_node in Hd as [_ Hdn]. unfold is_pointer_to_member_type, pointer_to_member_type_get_class_type in *.
  destruct (node_of d); try done. simpl in Hdn. lia.
Qed.

Lemma second_answers n o d : (2 < n)%nat → fits n o → fits n d →
  ∃ s, second_conversion P fuel o d = Ret s ∧ fits n s.1.2.
Proof.
  intros Hn Ho Hd. unfold second_conversion. destruct (equivalent_types _ _); [by eexists|].
  destruct (arithmetic_conversion P o d); [by eexists|].
  destruct (pointer_conversion_answers n o d Ho Hd) as [[s|] Hp]; rewrite Hp, bind_ret.
  { eexists. split; [done|]. exact (pointer_conversion_fits n o d s Hn Ho Hd Hp). }
  eexists. split; [done|]. destruct (complex_conversion P o d); [done|].
  destruct (_ && _); [done|]. by destruct (compatible_sse_vectors P o d).
Qed.

Lemma third_answers lit c n o d : (n ≤ MCXX_MAX_QUALIFIER_CONVERSION)%nat → fits n o →
  answers (third_conversion P lit c o d).
Proof.
  intros Hn [_ Ho]. unfold third_conversion. destruct (negb _); cbn [andb]; [|apply answers_ret].
  destruct (both_pointers o d) eqn:Hb; [|apply answers_ret].
  destruct (can_be_converted_spec o d Hb ltac:(lia)) as (b & -> & _). apply answers_ret.
Qed.

Lemma value_answers start n o d : (2 < n)%nat → (S n ≤ MCXX_MAX_QUALIFIER_CONVERSION)%nat → fits n o → fits n d →
  answers (value_conversion P fuel start o d).
Proof.
  intros H2 Hn Ho Hd. unfold value_conversion.
  set (o' := if is_rvalue_reference_type o then no_ref o else o).
  assert (Ho' : fits n o') by (unfold o'; destruct (is_rvalue_reference_type o); [by apply fits_no_ref|done]).
  pose proof (transformed_fits n start o' d Ho') as H1. destruct (lvalue_transformation start o' d) as [c0 o1].
  destruct (second_answers (S n) (unpack_mask o1) (unpack_mask d)) as ([[c1 o2] d2] & -> & Hs);
    [lia|by apply fits_unpack|apply fits_unpack; eapply fits_mono; [|done]; lia|].
  rewrite bind_ret. cbn beta iota.
  apply answers_bind; [by eapply third_answers|]. intros [[c1' c2] o3] _. destruct (negb _); apply answers_ret.
Qed.

Lemma no_ref_depth t : is_any_reference_type t = true → (depth (no_ref t) < depth t)%nat.
Proof.
  unfold is_any_reference_type, no_ref. intros H. rewrite H. pose proof (advance_depth t) as Hd.
  unfold is_lvalue_reference_type, is_rvalue_reference_type, reference_type_get_referenced_type, node_of in *.
  destruct (advance t).1; done.
Qed.

Lemma conversion_answers n : ∀ o d, fits 255 o → fits 255 d → (depth d < n)%nat →
  answers (standard_conversion_between_types P fuel n o d).
Proof.
  induction n as [|n IH]; intros o d Ho Hd Hn; [lia|]. cbn [standard_conversion_between_types].
  destruct (equivalent_types o d); [apply answers_ret|]. destruct (c_binding P o d); [apply answers_ret|].
  apply answers_bind; [apply bind_lvalue_answers|]. intros [] _; [apply answers_ret|].
  apply answers_bind; [apply bind_rvalue_answers|]. intros [] _; [apply answers_ret|].
  apply answers_bind; [|intros [] _; [apply answers_ret|]].
  - apply bind_temporary_answers. intros Hr. pose proof (no_ref_depth d Hr).
    destruct (unqualified_keeps (no_ref d)) as [Hs Hu]. apply IH; [by apply fits_no_ref| |lia].
    eapply fits_keeps; [by split|]. by apply fits_no_ref.
  - apply (value_answers _ 255); [lia|unfold MCXX_MAX_QUALIFIER_CONVERSION; lia|done|done].
Qed.
End total.
