(* ===== verification/CxxProps.v ===== *)
(** * Properties of C++ types and conversions

    The equivalence of types, the searches in class hierarchies, the conversion
    of pointers, and that standard conversions are found and ranked; with
    examples, and with conversions that the C++ standard does not have. *)

From S2P Require Import Prelude CxxTypes CxxEquiv CxxBases CxxBasesProps CxxConv CxxQual CxxRank CxxRankProps CxxArith CxxBetter CxxTotal.
#[local] Open Scope Z_scope.

(** ** Examples *)

Definition char_type : type_t := Builtin CV_NONE false (char_of false false).
Definition int_type : type_t := Builtin CV_NONE false the_int.
Definition void_type : type_t := Builtin CV_NONE false (plain BT_VOID 0 0).
Definition const_ : type_t → type_t := set_cv CV_CONST.
Definition volatile_ : type_t → type_t := set_cv CV_VOLATILE.
Definition lvalue_reference_to : type_t → type_t := Reference CV_NONE TK_LVALUE_REFERENCE.
Definition rvalue_reference_to : type_t → type_t := Reference CV_NONE TK_RVALUE_REFERENCE.

(** [typedef char T;] is the symbol 1, [typedef const char U;] the symbol 2. *)
Definition some_symbols (s : Z) : type_t := if s =? 1 then char_type else const_ char_type.
Definition name_of (cv s : Z) : type_t := Indirect cv true s (some_symbols s).

(** [struct A {}; struct B : A {}; struct C : B {}; struct D : B, C {};] *)
Definition some_bases (c : Z) : list base_class_info_t :=
  if c =? 2 then [BaseInfo 1 false false false]
  else if c =? 3 then [BaseInfo 2 false false false]
  else if c =? 4 then [BaseInfo 2 false false false; BaseInfo 3 false false false]
  else [].

Definition some_rank (c : Z) : nat :=
  if c =? 2 then 1 else if c =? 3 then 2 else if c =? 4 then 3 else 0.

Definition some_program : program :=
  Program CXX_LANGUAGE "linux-x86_64" (Builtin CV_NONE false (plain BT_WCHAR 0 0))
    (λ _, EnumInfo false false int_type int_type) some_bases.

Lemma some_bases_facts c b : b ∈ some_bases c →
  (some_rank (class_symbol b) < some_rank c)%nat
  ∧ is_virtual b = false ∧ is_dependent b = false ∧ is_expansion b = false.
Proof.
  unfold some_bases, some_rank. intros H.
  destruct (c =? 2); [|destruct (c =? 3); [|destruct (c =? 4)]];
    repeat (apply elem_of_cons in H as [-> | H]); try (by apply elem_of_nil in H); simpl; repeat split; lia.
Qed.

Lemma some_rank_bound c : (some_rank c < 4)%nat.
Proof. unfold some_rank. repeat case_match; lia. Qed.

(** ** Equivalence of types *)

(** C12: On [proper] types, whose typedefs have one definition each and whose
    function parameters are neither arrays nor functions, [equivalent_types]
    decides equality of the canonical types, where typedefs are replaced by their
    definitions with the qualifiers added; hence it is an equivalence relation
    there.  (With parameters that are arrays it is not:
    [arrays_as_parameters_not_transitive].) *)
Theorem equivalent_types_decides_canonical symbols t1 t2 : proper symbols t1 → proper symbols t2 →
  equivalent_types t1 t2 = true ↔ canonical t1 = canonical t2.
Proof. apply equivalent_types_canonical. Qed.

(** [T const *] and [U *] are the same type, [T *] is another one. *)
Lemma equivalent_types_decides_canonical_witness :
  proper some_symbols (Pointer CV_NONE (name_of CV_CONST 1)) ∧ proper some_symbols (Pointer CV_NONE (name_of CV_NONE 2))
  ∧ canonical (Pointer CV_NONE (name_of CV_CONST 1)) = canonical (Pointer CV_NONE (name_of CV_NONE 2))
  ∧ canonical (Pointer CV_NONE (name_of CV_NONE 1)) ≠ canonical (Pointer CV_NONE (name_of CV_NONE 2)).
Proof.
  split; [vm_compute; tauto|]. split; [vm_compute; tauto|]. split.
  - apply (equivalent_types_decides_canonical some_symbols); [vm_compute; tauto|vm_compute; tauto|vm_compute; reflexivity].
  - intros H. apply (equivalent_types_decides_canonical some_symbols) in H; [|vm_compute; tauto|vm_compute; tauto].
    vm_compute in H. discriminate H.
Defined.

(** ** Base classes *)

(** C30: In a hierarchy without cycles the search for a base class ends, and it
    finds exactly the class itself and its direct and indirect bases; without
    virtual and dependent bases, a base is ambiguous if and only if two paths of
    the hierarchy lead to it. *)
Theorem base_classes_found bases (rank : Z → nat) fuel b d :
  (∀ c x, x ∈ bases c → (rank (class_symbol x) < rank c)%nat) → (rank d < fuel)%nat →
  (∃ r, class_type_is_base_ bases fuel b d = Ret r ∧ (r = true ↔ rtc (direct bases) d b))
  ∧ ((∀ c x, x ∈ bases c → is_virtual x = false ∧ is_dependent x = false ∧ is_expansion x = false) →
     rtc (direct bases) d b →
     class_type_is_ambiguous_base_of_derived_class bases fuel b d = Ret (2 <=? count_paths bases fuel b d)%nat).
Proof.
  intros Hacyclic Hd. split; [by apply (is_base_spec bases rank)|]. intros Hplain Hrtc.
  apply (is_ambiguous_spec bases rank); [done..|]. right. by apply (count_paths_base bases rank).
Qed.

(** [A] is a base of [D], on two paths. *)
Lemma base_classes_found_witness :
  (∃ r, class_type_is_base_ some_bases 4 1 4 = Ret r ∧ (r = true ↔ rtc (direct some_bases) 4 1))
  ∧ rtc (direct some_bases) 4 1
  ∧ class_type_is_ambiguous_base_of_derived_class some_bases 4 1 4 = Ret true.
Proof.
  assert (Hrtc : rtc (direct some_bases) 4 1).
  { eapply rtc_l; [exists (BaseInfo 2 false false false); split; [apply list_elem_of_here|split; reflexivity]|].
    eapply rtc_once. exists (BaseInfo 1 false false false). split; [apply list_elem_of_here|split; reflexivity]. }
  destruct (base_classes_found some_bases some_rank 4 1 4) as [H1 H2];
    [intros c x Hx; by apply some_bases_facts|apply some_rank_bound|].
  split; [exact H1|]. split; [exact Hrtc|]. rewrite H2; [vm_compute; reflexivity| |exact Hrtc].
  intros c x Hx. by apply (some_bases_facts c).
Defined.

(** ** Qualification conversions *)

(** C23: On types without [restrict], in which the types that typedefs name have
    no qualifiers of their own, pointers less than 256 deep are converted if and
    only if the rule of the C++ standard allows it: with the typedefs replaced
    by their definitions, the types differ in qualifiers at most, no [const] or
    [volatile] under the pointers is lost, and where the qualifiers differ all
    the outer ones of the destination are [const].  The rule is transitive.
    (The qualifiers of what a typedef names are not seen, as in
    [const_of_typedef_lost], and those of functions are taken for qualifiers that
    can be added, as in [member_function_becomes_const].) *)
Theorem qualification_conversions_follow_the_rule symbols orig dest : both_pointers orig dest = true →
  (depth orig < MCXX_MAX_QUALIFIER_CONVERSION)%nat → proper symbols orig → proper symbols dest →
  visible_qualifiers orig = true → visible_qualifiers dest = true →
  (∃ b, pointer_types_can_be_converted orig dest = Ret b
   ∧ (b = true ↔ ∃ q qs, similar_types (canonical orig) (canonical dest) (q :: qs) ∧ convertible qs))
  ∧ ∀ l : list (Z * Z * Z),
      convertible (map (λ q, (q.1.1, q.1.2)) l) → convertible (map (λ q, (q.1.2, q.2)) l) →
      convertible (map (λ q, (q.1.1, q.2)) l).
Proof. intros Hb Hd P1 P2 V1 V2. split; [by apply (converted_by_rule symbols)|]. apply convertible_trans. Qed.

(** With [typedef char T;], [T**] becomes [T const* const*] but not
    [char const**]. *)
Lemma qualification_conversions_follow_the_rule_witness :
  let pp (cv1 : Z) (t : type_t) := Pointer CV_NONE (Pointer cv1 t) in
  (∃ q qs, similar_types (canonical (pp CV_NONE (name_of CV_NONE 1))) (canonical (pp CV_CONST (name_of CV_CONST 1))) (q :: qs)
     ∧ convertible qs)
  ∧ ¬ (∃ q qs, similar_types (canonical (pp CV_NONE (name_of CV_NONE 1))) (canonical (pp CV_NONE (const_ char_type))) (q :: qs)
     ∧ convertible qs).
Proof.
  intros pp. assert (Hd : (depth (pp CV_NONE (name_of CV_NONE 1)) < MCXX_MAX_QUALIFIER_CONVERSION)%nat).
  { apply Nat.ltb_lt. vm_compute. reflexivity. }
  split.
  - destruct (qualification_conversions_follow_the_rule some_symbols (pp CV_NONE (name_of CV_NONE 1)) (pp CV_CONST (name_of CV_CONST 1)))
      as [(b & Hr & Hb) _];
      [vm_compute; reflexivity|exact Hd|vm_compute; tauto|vm_compute; tauto|vm_compute; reflexivity|vm_compute; reflexivity|].
    apply Hb. vm_compute in Hr. injection Hr as <-. reflexivity.
  - destruct (qualification_conversions_follow_the_rule some_symbols (pp CV_NONE (name_of CV_NONE 1)) (pp CV_NONE (const_ char_type)))
      as [(b & Hr & Hb) _];
      [vm_compute; reflexivity|exact Hd|vm_compute; tauto|vm_compute; tauto|vm_compute; reflexivity|vm_compute; reflexivity|].
    intros H. apply Hb in H. subst b. vm_compute in Hr. discriminate Hr.
Defined.

(** ** Standard conversions *)

(** C11: In C++, over a hierarchy without cycles and for types less than 255
    deep, [standard_conversion_between_types] ends without failing an assertion,
    and a conversion that it finds has a rank and is not better than itself. *)
Theorem standard_conversion_answers P fuel n (rank : Z → nat) orig dest :
  lang P = CXX_LANGUAGE →
  (∀ c b, b ∈ base_classes_list P c → (rank (class_symbol b) < rank c)%nat ∧ is_expansion b = false) →
  (∀ c, (rank c < fuel)%nat) → fits 255 orig → fits 255 dest → (depth dest < n)%nat →
  ∃ r, standard_conversion_between_types P fuel n orig dest = Ret r
  ∧ match r with
    | Some s => (∃ k, standard_conversion_get_rank s = Ret k) ∧ standard_conversion_is_better P fuel s s = Ret false
    | None => True
    end.
Proof.
  intros Hl Hc Hf Ho Hd Hn.
  destruct (conversion_answers P fuel rank) with (n := n) (o := orig) (d := dest) as [r Hr]; try done;
    [intros c b Hb; by apply (Hc c b)..|].
  exists r. split; [exact Hr|]. destruct r as [s|]; [|done].
  apply conversion_ranked in Hr as [k Hk]%ranked_rank; [|done]. split; [by exists k|]. by eapply better_irrefl.
Qed.

(** [C*] to [A const*] *)
Lemma standard_conversion_answers_witness :
  ∃ r, standard_conversion_between_types some_program 4 4 (Pointer CV_NONE (Class CV_NONE 3)) (Pointer CV_NONE (Class CV_CONST 1))
    = Ret (Some r)
  ∧ conv1 r = SCI_CLASS_POINTER_DERIVED_TO_BASE_CONVERSION ∧ conv2 r = SCI_QUALIFICATION_CONVERSION
  ∧ standard_conversion_is_better some_program 4 r r = Ret false.
Proof.
  destruct (standard_conversion_answers some_program 4 4 some_rank
    (Pointer CV_NONE (Class CV_NONE 3)) (Pointer CV_NONE (Class CV_CONST 1))) as (r & Hr & H);
    [reflexivity|intros c b Hb; by destruct (some_bases_facts c b Hb) as (? & _ & _ & ?)|exact some_rank_bound
    |split; [exact I|apply Nat.ltb_lt; vm_compute; reflexivity]|split; [exact I|apply Nat.ltb_lt; vm_compute; reflexivity]
    |apply Nat.ltb_lt; vm_compute; reflexivity|].
  destruct r as [s|]; [|vm_compute in Hr; discriminate Hr].
  destruct H as [_ H]. exists s. split; [exact Hr|]. vm_compute in Hr. injection Hr as <-.
  split; [reflexivity|]. split; [reflexivity|exact H].
Defined.

(** C13: In C++ a value of an arithmetic type, or a reference to one, of any
    qualification, converts to every arithmetic type: exactly to the same type,
    by promotion from a type smaller than [int] to [int] and from a floating
    type to a wider one, and by a conversion otherwise; and of the conversions
    from one argument the one of smaller rank is better. *)
Theorem arithmetic_conversions_ranked P fuel n f q o d1 d2 : lang P = CXX_LANGUAGE →
  q ∈ qualifications → o ∈ arithmetic_types → d1 ∈ arithmetic_types → d2 ∈ arithmetic_types →
  ∃ s1 s2,
    standard_conversion_between_types P fuel (S n) (argument f q o) (Builtin CV_NONE false d1) = Ret (Some s1)
    ∧ standard_conversion_between_types P fuel (S n) (argument f q o) (Builtin CV_NONE false d2) = Ret (Some s2)
    ∧ standard_conversion_get_rank s1 = Ret (rank_table o d1)
    ∧ standard_conversion_get_rank s2 = Ret (rank_table o d2)
    ∧ standard_conversion_is_better P fuel s1 s2
        = Ret (rank_number (rank_table o d1) <? rank_number (rank_table o d2)).
Proof.
  intros Hl Hq Ho Hd1 Hd2. assert (H0 : CV_NONE ∈ unqualifieds) by by left.
  destruct (arithmetic_rank P fuel n Hl f q o CV_NONE d1) as (s1 & H1 & R1); [done..|].
  destruct (arithmetic_rank P fuel n Hl f q o CV_NONE d2) as (s2 & H2 & R2); [done..|].
  exists s1, s2. do 4 (split; [done|]). by apply (arithmetic_order P fuel n Hl f q o d1 d2).
Qed.

(** A [const char&] is promoted to [int], which is better than [double]. *)
Lemma arithmetic_conversions_ranked_witness :
  ∃ s1 s2,
    standard_conversion_between_types some_program 4 2 (argument AsLvalue CV_CONST (char_of false false)) int_type = Ret (Some s1)
    ∧ standard_conversion_between_types some_program 4 2 (argument AsLvalue CV_CONST (char_of false false))
        (Builtin CV_NONE false (plain BT_DOUBLE 0 0)) = Ret (Some s2)
    ∧ standard_conversion_get_rank s1 = Ret SCR_PROMOTION
    ∧ standard_conversion_get_rank s2 = Ret SCR_CONVERSION
    ∧ standard_conversion_is_better some_program 4 s1 s2 = Ret true.
Proof.
  apply (arithmetic_conversions_ranked some_program 4 1 AsLvalue CV_CONST (char_of false false) the_int (plain BT_DOUBLE 0 0));
    [reflexivity|apply (bool_decide_unpack _); vm_compute; exact I..].
Defined.

(** ** Conversions that the standard does not have *)

Definition converted (o d : type_t) : option (standard_conversion_item_t * standard_conversion_item_t * standard_conversion_item_t) :=
  match standard_conversion_between_types some_program 4 5 o d with
  | Ret (Some s) => Some (conv0 s, conv1 s, conv2 s)
  | _ => None
  end.

(** [volatile int&] to [const int&]: the qualifiers are not comparable. *)
Lemma volatile_lost_under_reference :
  converted (lvalue_reference_to (volatile_ int_type)) (lvalue_reference_to (const_ int_type))
  = Some (SCI_IDENTITY, SCI_NO_CONVERSION, SCI_NO_CONVERSION).
Proof. by vm_compute. Qed.

(** [U*] loses the [const] of the typedef, to [char*] and to [void*]; a
    [const char*] does not. *)
Lemma const_of_typedef_lost :
  converted (Pointer CV_NONE (name_of CV_NONE 2)) (Pointer CV_NONE char_type)
    = Some (SCI_NO_CONVERSION, SCI_NO_CONVERSION, SCI_QUALIFICATION_CONVERSION)
  ∧ converted (Pointer CV_NONE (name_of CV_NONE 2)) (Pointer CV_NONE void_type)
    = Some (SCI_NO_CONVERSION, SCI_POINTER_TO_VOID_CONVERSION, SCI_NO_CONVERSION)
  ∧ converted (Pointer CV_NONE (const_ char_type)) (Pointer CV_NONE char_type) = None
  ∧ converted (Pointer CV_NONE (const_ char_type)) (Pointer CV_NONE void_type) = None.
Proof. by vm_compute. Qed.

(** A pointer to a member function becomes one to a [const] member function, as
    if the function were qualified as an object is. *)
Lemma member_function_becomes_const :
  let member cv := PointerToMember CV_NONE (Function cv void_type [] REF_QUALIFIER_NONE) (Indirect CV_NONE false 5 (Class CV_NONE 1)) in
  converted (member CV_NONE) (member CV_CONST)
  = Some (SCI_NO_CONVERSION, SCI_NO_CONVERSION, SCI_QUALIFICATION_CONVERSION)
  ∧ converted (member CV_CONST) (member CV_NONE) = None.
Proof. by vm_compute. Qed.

(** [const volatile int] and a typedef of it *)
Lemma typedef_of_qualified_destination :
  let cv := Z.lor CV_CONST CV_VOLATILE in
  converted int_type (set_cv cv int_type) = None
  ∧ converted int_type (Indirect CV_NONE true 3 (set_cv cv int_type)) = Some (SCI_IDENTITY, SCI_NO_CONVERSION, SCI_NO_CONVERSION).
Proof. by vm_compute. Qed.

Definition better (o1 d1 o2 d2 : type_t) : option bool :=
  match standard_conversion_between_types some_program 4 5 o1 d1, standard_conversion_between_types some_program 4 5 o2 d2 with
  | Ret (Some s1), Ret (Some s2) =>
      match standard_conversion_is_better some_program 4 s1 s2 with Ret b => Some b | Err _ => None end
  | _, _ => None
  end.

(** A temporary of [C] binds to [A&&] and to [const C&]: each is better than the
    other. *)
Lemma each_better_than_the_other :
  let C := Class CV_NONE 3 in
  let A := rvalue_reference_to (Class CV_NONE 1) in
  let C' := lvalue_reference_to (Class CV_CONST 3) in
  better C A C C' = Some true ∧ better C C' C A = Some true.
Proof. by vm_compute. Qed.

(** A [double] becomes [long double], and a [char32_t] becomes [int], by
    promotion. *)
Lemma promotions_of_the_table :
  rank_table (plain BT_DOUBLE 0 0) (plain BT_DOUBLE 1 0) = SCR_PROMOTION
  ∧ rank_table (plain BT_CHAR32_T 0 0) the_int = SCR_PROMOTION.
Proof. by vm_compute. Qed.

(** Functions whose parameters are written [int a[3]], [int *a] and [int a[4]]:
    the first and the third are equivalent to the second, not to each other. *)
Lemma arrays_as_parameters_not_transitive :
  let f t := Function CV_NONE void_type [Some t] REF_QUALIFIER_NONE in
  let a n := f (Array CV_NONE int_type (Some n) false) in
  equivalent_types (a 3) (f (Pointer CV_NONE int_type)) = true
  ∧ equivalent_types (f (Pointer CV_NONE int_type)) (a 4) = true ∧ equivalent_types (a 3) (a 4) = false.
Proof. by vm_compute. Qed.
