(* ===== verification/Locus.v ===== *)
(** * Unique loci: [frontend/cxx-locus.c]

    Places of the sources are compared by address: [make_locus] gives one
    address per file, line and column.  The table is an array of buckets that
    grow; loci live in pools of 1024 and their file names are unique strings, of
    which only the interface is used.  An address is a pool and a place in it. *)

From stdpp Require Import list pretty.
From S2P Require Import Prelude UniqueStr.
#[local] Open Scope Z_scope.

Definition POOL_SIZE : nat := 1024.
Definition table_size : Z := 49999.

Definition address : Type := nat * nat.

Record locus_t := Locus { filename : Z; line : Z; col : Z }.
Record locus_item_t := LocusItem { hash : Z; locus : address }.

(** [num] is the length of [items]. *)
Record locus_bucket_t := LocusBucket { capacity : Z; items : list locus_item_t }.

Definition hash_locus (filename : list Z) (line col : Z) : Z :=
  let step hash x := Z.lxor (u32 (u32 (Z.shiftl hash 5) + hash)) x in
  step (step (foldl (λ hash c, step hash (u32 (s8 c))) 0 filename) line) col.

(** The pools, the newest first, with the loci that are in use *)
Definition pools : Type := list (list locus_t).

Definition pool_at (pool_locus : pools) (a : address) : option locus_t :=
  p ← rev pool_locus !! a.1; p !! a.2.

(** [pool_locus_alloc] and the fields of the new locus *)
Definition pool_locus_alloc (l : locus_t) (pool_locus : pools) : address * pools :=
  let new_pool :=
    match pool_locus with
    | [] => true
    | p :: _ => (length p =? POOL_SIZE)%nat
    end in
  match if new_pool then [] :: pool_locus else pool_locus with
  | [] => ((0, 0)%nat, [])
  | p :: older => ((length older, length p), (p ++ [l]) :: older)
  end.

Section locus.
Context {St} `{Interner St}.

Record state := State { hash_table : gmap Z locus_bucket_t; pool_locus : pools; names : St }.

Definition init : state := State ∅ [] interner_init.

Definition string_at (s : state) (p : Z) : option (list Z) := strings (interner_heap (names s)) !! p.
Definition bucket (s : state) (i : Z) : locus_bucket_t := default (LocusBucket 0 []) (hash_table s !! i).

(** The loop over the items of a bucket *)
Fixpoint find_item (s : state) (hash_ : Z) (filename_ : list Z) (line_ col_ : Z) (l : list locus_item_t) : res (option address) :=
  match l with
  | [] => Ret None
  | x :: l' =>
      same ← (if hash x =? hash_ then
                l ← get (pool_at (pool_locus s) (locus x));
                f ← get (string_at s (filename l));
                Ret (bool_decide (f = filename_) && (line l =? line_) && (col l =? col_))
              else Ret false);
      if (same : bool) then Ret (Some (locus x)) else find_item s hash_ filename_ line_ col_ l'
  end.

(** The capacity for one more item, an [int] *)
Definition grow (b : locus_bucket_t) : res Z :=
  if Z.of_nat (length (items b)) =? capacity b then
    if capacity b =? 0 then Ret 16
    else if 2 ^ 31 <=? 2 * (capacity b + 1) then Err Undef else Ret (2 * (capacity b + 1))
  else Ret (capacity b).

Definition make_locus (filename_ : option (list Z)) (line_ col_ : Z) (s : state) : res (address * state) :=
  let filename_ := default [] filename_ in
  let hash_ := hash_locus filename_ line_ col_ in
  let hash_index := hash_ mod table_size in
  let b := bucket s hash_index in
  r ← find_item s hash_ filename_ line_ col_ (items b);
  match r with
  | Some a => Ret (a, State (<[hash_index := b]> (hash_table s)) (pool_locus s) (names s))
  | None =>
      c ← grow b;
      '(f, names') ← uniquestr (Some filename_) (names s);
      let '(a, pool') := pool_locus_alloc (Locus f line_ col_) (pool_locus s) in
      Ret (a, State (<[hash_index := LocusBucket c (items b ++ [LocusItem hash_ a])]> (hash_table s)) pool' names')
  end.

(** ** What is asked of a locus; [None] is [NULL]. *)

Definition at_address {A} (null : A) (f : locus_t → A) (a : option address) (s : state) : res A :=
  match a with
  | None => Ret null
  | Some a => l ← get (pool_at (pool_locus s) a); Ret (f l)
  end.

Definition locus_get_filename (a : option address) (s : state) : res (list Z) :=
  match a with
  | None => Ret []
  | Some a => l ← get (pool_at (pool_locus s) a); get (string_at s (filename l))
  end.
Definition locus_get_line : option address → state → res Z := at_address 0 line.
Definition locus_get_column : option address → state → res Z := at_address 0 col.

(** The text that [locus_to_str] makes unique; [%d] prints an [int]. *)
Definition locus_text (a : option address) (s : state) : res (list Z) :=
  match a with
  | None => Ret (bytes ":0")
  | Some a =>
      l ← get (pool_at (pool_locus s) a);
      f ← get (string_at s (filename l));
      let number n := bytes ":" ++ bytes (pretty (wraps 32 n)) in
      Ret (f ++ number (line l) ++ if negb (col l =? 0) then number (col l) else [])
  end.
End locus.

(** ** Pools *)

Definition pools_ok (ps : pools) : Prop :=
  Forall (λ p, length p = POOL_SIZE) (tail ps) ∧ Forall (λ p, (length p ≤ POOL_SIZE)%nat) ps.

Lemma pool_at_head ps p a : pool_at (p :: ps) a = if decide (a.1 = length ps) then p !! a.2 else pool_at ps a.
Proof.
  unfold pool_at. cbn [rev]. case_decide as E.
  - rewrite E, lookup_app_r by (rewrite length_rev; lia). by rewrite length_rev, Nat.sub_diag.
  - destruct (decide (a.1 < length ps)%nat).
    + by rewrite lookup_app_l by (rewrite length_rev; lia).
    + rewrite !lookup_ge_None_2 by (rewrite ?length_app, ?length_rev; simpl; lia). done.
Qed.

Lemma pool_at_old ps a l : pool_at ps a = Some l → (a.1 < length ps)%nat.
Proof.
  unfold pool_at. destruct (rev ps !! a.1) eqn:E; [|done]. apply lookup_lt_Some in E. by rewrite length_rev in E.
Qed.

(** A new locus has a new address, and the others keep theirs. *)
Lemma pool_locus_alloc_spec l ps : pools_ok ps →
  let '(a, ps') := pool_locus_alloc l ps in
  pools_ok ps' ∧ pool_at ps a = None ∧ ∀ b, pool_at ps' b = if decide (b = a) then Some l else pool_at ps b.
Proof.
  intros [Ht Hp]. unfold pool_locus_alloc.
  set (ps1 := if match ps with [] => true | p :: _ => (length p =? POOL_SIZE)%nat end then [] :: ps else ps).
  assert (∃ p older, ps1 = p :: older ∧ (length p < POOL_SIZE)%nat ∧ Forall (λ p, length p = POOL_SIZE) older ∧
    ∀ b, pool_at ps1 b = pool_at ps b) as (p & older & E & Hlen & Hold & Hsame).
  { unfold ps1. destruct ps as [|p older]; [exists [], []; split; [done|split; [unfold POOL_SIZE; simpl; lia|split; [done|]]]|].
    - intros b. rewrite pool_at_head. by case_decide.
    - destruct (Nat.eqb_spec (length p) POOL_SIZE) as [Ep|Ep].
      + exists [], (p :: older). split; [done|]. split; [unfold POOL_SIZE; simpl; lia|]. split; [by constructor|].
        intros b. rewrite pool_at_head. case_decide as Eb; [|done]. destruct (pool_at (p :: older) b) eqn:Hb; [|done].
        apply pool_at_old in Hb. lia.
      + exists p, older. split; [done|]. apply Forall_cons in Hp as [Hp _]. split; [lia|]. done. }
  clearbody ps1. subst ps1. assert (Hnew : pool_at (p :: older) (length older, length p) = None).
  { rewrite pool_at_head. cbn [fst snd]. rewrite decide_True by done. by apply lookup_ge_None_2. }
  split; [split; [done|]|split; [by rewrite <-Hsame|]].
  - constructor; [rewrite length_app; simpl; lia|]. eapply Forall_impl; [exact Hold|]. simpl. lia.
  - intros b. rewrite <-Hsame, !pool_at_head. destruct b as [k i]. cbn [fst snd]. destruct (decide (k = length older)) as [->|Hk].
    + destruct (decide (i = length p)) as [->|Hi].
      * rewrite decide_True by done. by rewrite lookup_app_r, Nat.sub_diag by done.
      * rewrite decide_False by congruence. destruct (decide (i < length p)%nat); [by rewrite lookup_app_l|].
        rewrite !lookup_ge_None_2; [done|lia|rewrite length_app; simpl; lia].
    + rewrite decide_False by congruence. done.
Qed.

(** ** The table *)

Section canonical.
Context {St} `{InternerOk St}.

Notation state := (state (St := St)).

(** A file, a line and a column *)
Definition place : Type := list Z * Z * Z.
Definition hash_place (p : place) : Z := hash_locus p.1.1 p.1.2 p.2.
Definition index_of (p : place) : Z := hash_place p mod table_size.

(** The address holds the place. *)
Definition denotes (s : state) (p : place) (a : address) : Prop :=
  ∃ l, pool_at (pool_locus s) a = Some l ∧ string_at s (filename l) = Some p.1.1 ∧ line l = p.1.2 ∧ col l = p.2.

Definition item_ok (s : state) (i : Z) (x : locus_item_t) : Prop :=
  ∃ p, denotes s p (locus x) ∧ hash x = hash_place p ∧ i = index_of p.

(** The capacity of a bucket when it has been made larger a number of times *)
Definition bucket_ok (n : Z) (b : locus_bucket_t) : Prop :=
  Z.of_nat (length (items b)) ≤ n ∧ Z.of_nat (length (items b)) ≤ capacity b ∧
  (capacity b ≤ 16 ∨ capacity b ≤ 2 * Z.of_nat (length (items b))).

(** At most [n] loci were made. *)
Record wf (n : Z) (s : state) : Prop := {
  wf_names : interner_inv (names s);
  wf_pools : pools_ok (pool_locus s);
  wf_buckets : ∀ i, bucket_ok n (bucket s i) ∧ Forall (item_ok s i) (items (bucket s i));
  wf_loci : ∀ a l, pool_at (pool_locus s) a = Some l → ∃ p, denotes s p a ∧ LocusItem (hash_place p) a ∈ items (bucket s (index_of p));
  wf_unique : ∀ p a b, denotes s p a → denotes s p b → a = b }.

Lemma denotes_functional s p q a : denotes s p a → denotes s q a → p = q.
Proof.
  intros (l & H1 & H2 & H3 & H4) (l' & H5 & H6 & H7 & H8). rewrite H1 in H5. injection H5 as <-. destruct p as [[f x] y], q as [[g u] v].
  simpl in *. congruence.
Qed.

Lemma bucket_insert (s : state) i b i' ps (nm : St) : bucket (State (<[i := b]> (hash_table s)) ps nm) i' = if decide (i = i') then b else bucket s i'.
Proof. unfold bucket. simpl. case_decide as E; [subst; by rewrite lookup_insert_eq|by rewrite lookup_insert_ne]. Qed.

Lemma find_item_spec s p l : Forall (item_ok s (index_of p)) l →
  ∃ r, find_item s (hash_place p) p.1.1 p.1.2 p.2 l = Ret r ∧
    match r with Some a => denotes s p a | None => ∀ x, x ∈ l → ¬ denotes s p (locus x) end.
Proof.
  induction 1 as [|x l (q & Hq & Hh & Hi) _ IH]; cbn [find_item]; [exists None; split; [done|by intros x ?%not_elem_of_nil]|].
  destruct Hq as (lo & H1 & H2 & H3 & H4). rewrite Hh, H1. destruct (decide (q = p)) as [->|Hne].
  - rewrite Z.eqb_refl. simpl. rewrite H2. simpl. rewrite bool_decide_eq_true_2, H3, H4, !Z.eqb_refl by done. simpl.
    exists (Some (locus x)). split; [done|]. by exists lo.
  - destruct IH as (r & IH & Hr).
    assert ((if hash_place q =? hash_place p then
      l ← get (Some lo); f ← get (string_at s (filename l)); Ret (bool_decide (f = p.1.1) && (line l =? p.1.2) && (col l =? p.2))
      else Ret false) = Ret false) as ->.
    { destruct (_ =? _); [|done]. simpl. rewrite H2. simpl. f_equal. apply not_true_is_false.
      intros [[Hf%bool_decide_eq_true Hl%Z.eqb_eq]%andb_true_iff Hc%Z.eqb_eq]%andb_true_iff. apply Hne.
      destruct p as [[? ?] ?], q as [[? ?] ?]. simpl in *. congruence. }
    rewrite bind_ret, IH. exists r. split; [done|]. destruct r; [done|]. intros y [->|Hy]%elem_of_cons; [|by apply Hr].
    intros Hp. apply Hne. eapply denotes_functional; [by exists lo|done].
Qed.

Lemma grow_bucket_spec n b : bucket_ok n b → n < 2 ^ 29 → ∃ c, grow b = Ret c ∧ Z.of_nat (S (length (items b))) ≤ c ∧
  (c ≤ 16 ∨ c ≤ 2 * Z.of_nat (S (length (items b)))).
Proof.
  intros (H1 & H2 & H3) Hn. unfold grow. destruct (Z.eqb_spec (Z.of_nat (length (items b))) (capacity b)) as [E|E]; [|exists (capacity b); split; [done|lia]].
  destruct (Z.eqb_spec (capacity b) 0); [exists 16; split; [done|lia]|]. rewrite (proj2 (Z.leb_gt _ _)) by lia. eexists. split; [done|lia].
Qed.

Lemma make_locus_unfold (p : place) (s : state) : make_locus (Some p.1.1) p.1.2 p.2 s =
  (r ← find_item s (hash_place p) p.1.1 p.1.2 p.2 (items (bucket s (index_of p)));
   match r with
   | Some a => Ret (a, State (<[index_of p := bucket s (index_of p)]> (hash_table s)) (pool_locus s) (names s))
   | None =>
       c ← grow (bucket s (index_of p));
       '(f, names') ← uniquestr (Some p.1.1) (names s);
       let '(a, pool') := pool_locus_alloc (Locus f p.1.2 p.2) (pool_locus s) in
       Ret (a, State (<[index_of p := LocusBucket c (items (bucket s (index_of p)) ++ [LocusItem (hash_place p) a])]> (hash_table s))
                 pool' names')
   end).
Proof. unfold make_locus, index_of, hash_place. cbn [default id]. reflexivity. Qed.

Lemma make_locus_spec n s p : wf n s → n < 2 ^ 29 → cstring p.1.1 →
  ∃ a s', make_locus (Some p.1.1) p.1.2 p.2 s = Ret (a, s') ∧ wf (n + 1) s' ∧ denotes s' p a ∧ ∀ q b, denotes s q b → denotes s' q b.
Proof.
  intros [Hnames Hpools Hbuckets Hloci Huniq] Hn Hc. rewrite (make_locus_unfold p s).
  destruct (Hbuckets (index_of p)) as [Hb Hitems]. destruct (find_item_spec s p _ Hitems) as (r & -> & Hr). rewrite bind_ret.
  assert (Hmore : ∀ b, bucket_ok n b → bucket_ok (n + 1) b) by (unfold bucket_ok; intros; lia).
  destruct r as [a|].
  - set (s' := State _ _ _). assert (Hbk : ∀ i, bucket s' i = bucket s i) by (intros i; unfold s'; rewrite bucket_insert; by case_decide; subst).
    exists a, s'. split; [done|]. split; [|by split]. split; try done.
    + intros i. rewrite Hbk. destruct (Hbuckets i). split; [by apply Hmore|done].
    + intros b l Hbl. destruct (Hloci b l Hbl) as (q & Hq & Hin). exists q. by rewrite Hbk.
  - destruct (grow_bucket_spec n _ Hb Hn) as (c & -> & Hc1 & Hc2). rewrite bind_ret.
    destruct (uniquestr_denotes (names s) p.1.1 Hnames Hc) as (f & names' & -> & Hnames' & Hfp & Hsub). rewrite bind_ret.
    pose proof (pool_locus_alloc_spec (Locus f p.1.2 p.2) (pool_locus s) Hpools) as Hp.
    destruct (pool_locus_alloc (Locus f p.1.2 p.2) (pool_locus s)) as [a ps']. destruct Hp as (Hpools' & Hnew & Hat).
    set (s' := State _ ps' names').
    assert (Hkeep : ∀ q b, denotes s q b → denotes s' q b).
    { intros q b (l & H1 & H2 & H3). exists l. split; [|split; [by eapply lookup_weaken|done]]. simpl. rewrite Hat.
      case_decide; [congruence|done]. }
    assert (Ha : denotes s' p a) by (exists (Locus f p.1.2 p.2); simpl; rewrite Hat, decide_True by done; done).
    assert (Hold : ∀ q b, denotes s' q b → b ≠ a → denotes s q b).
    { intros q b (l & H1 & H2 & H3 & H4) Hba. simpl in H1. rewrite Hat, decide_False in H1 by done.
      destruct (Hloci b l H1) as (q' & Hq' & _). assert (q' = q) as <-; [|done].
      eapply denotes_functional; [by apply Hkeep|]. exists l. simpl. by rewrite Hat, decide_False. }
    assert (Hnone : ∀ b, ¬ denotes s p b).
    { intros b Hb'. pose proof Hb' as (l & Hl & _). destruct (Hloci b l Hl) as (q & Hq & Hin).
      assert (q = p) as -> by by eapply denotes_functional. by apply (Hr _ Hin). }
    assert (Hitem : ∀ i x, item_ok s i x → item_ok s' i x) by (intros i x (q & Hq & ?); exists q; split; [by apply Hkeep|done]).
    assert (Hbk : ∀ i, bucket s' i = if decide (index_of p = i)
      then LocusBucket c (items (bucket s (index_of p)) ++ [LocusItem (hash_place p) a]) else bucket s i) by (intros; apply bucket_insert).
    exists a, s'. split; [done|]. split; [|by split]. split; [exact Hnames'|exact Hpools'|..].
    + intros i. rewrite Hbk. destruct (Hbuckets i) as [Hbi Hii]. destruct (decide (index_of p = i)) as [<-|Hi].
      * split; [unfold bucket_ok in *; simpl; rewrite length_app; simpl; lia|]. simpl. apply Forall_app. split.
        -- eapply Forall_impl; [exact Hitems|]. intros x. apply Hitem.
        -- constructor; [|done]. by exists p.
      * split; [by apply Hmore|]. eapply Forall_impl; [exact Hii|]. intros x. apply Hitem.
    + intros b l Hbl. simpl in Hbl. rewrite Hat in Hbl. case_decide as E.
      * subst b. exists p. split; [done|]. rewrite Hbk, decide_True by done. simpl. rewrite elem_of_app. right. by left.
      * destruct (Hloci b l Hbl) as (q & Hq & Hin). exists q. split; [by apply Hkeep|]. rewrite Hbk.
        case_decide as E'; [|done]. simpl. rewrite elem_of_app, E'. by left.
    + intros q b1 b2 H1 H2. destruct (decide (b1 = a)) as [->|N1], (decide (b2 = a)) as [->|N2]; [done|..].
      * assert (q = p) as -> by exact (denotes_functional s' q p a H1 Ha). destruct (Hnone b2 (Hold p b2 H2 N2)).
      * assert (q = p) as -> by exact (denotes_functional s' q p a H2 Ha). destruct (Hnone b1 (Hold p b1 H1 N1)).
      * by apply (Huniq q); apply Hold.
Qed.

(** ** Runs *)

(** The arguments of a call: a [NULL] file name is an empty one. *)
Definition call : Type := option (list Z) * Z * Z.
Definition place_of (c : call) : place := (default [] c.1.1, c.1.2, c.2).
Definition argument (c : call) : Prop := cstring (place_of c).1.1.

Fixpoint run (calls : list call) (s : state) : res (list address * state) :=
  match calls with
  | [] => Ret ([], s)
  | c :: calls' =>
      '(a, s) ← make_locus c.1.1 c.1.2 c.2 s;
      '(l, s) ← run calls' s;
      Ret (a :: l, s)
  end.

Lemma init_wf : wf 0 (init (St := St)).
Proof.
  split.
  - apply inv_init.
  - by split; constructor.
  - intros i. unfold bucket. simpl. rewrite lookup_empty. split; [unfold bucket_ok; simpl; lia|constructor].
  - intros a l Hl. apply pool_at_old in Hl. simpl in Hl. lia.
  - intros p a b (l & Hl & _). apply pool_at_old in Hl. simpl in Hl. lia.
Qed.

Lemma locus_run_spec calls : ∀ n s, wf n s → n + Z.of_nat (length calls) < 2 ^ 29 → Forall argument calls →
  ∃ l s', run calls s = Ret (l, s') ∧ wf (n + Z.of_nat (length calls)) s' ∧
    Forall2 (λ c a, denotes s' (place_of c) a) calls l ∧ ∀ q b, denotes s q b → denotes s' q b.
Proof.
  induction calls as [|c calls IH]; intros n s Hs Hn Ha; cbn [run length] in *.
  - exists [], s. change (Z.of_nat 0) with 0. rewrite Z.add_0_r. split; [done|]. split; [done|]. split; [constructor|done].
  - apply Forall_cons in Ha as [Hc Ha]. destruct (make_locus_spec n s (place_of c) Hs) as (a & s1 & E1 & Hs1 & Hd1 & Hk1); [lia|done|].
    assert (make_locus c.1.1 c.1.2 c.2 s = Ret (a, s1)) as -> by (destruct c as [[[f|] x] y]; exact E1).
    rewrite bind_ret. destruct (IH (n + 1) s1 Hs1) as (l & s2 & E2 & Hs2 & Hd2 & Hk2); [lia|done|]. cbn beta iota. rewrite E2, bind_ret.
    exists (a :: l), s2. split; [done|]. split; [by replace (n + Z.of_nat (S (length calls))) with (n + 1 + Z.of_nat (length calls)) by lia|].
    split; [constructor; [by apply Hk2|done]|]. intros q b Hq. by apply Hk2, Hk1.
Qed.

(** C14: for every implementation of unique strings, in every run of [make_locus]
    two calls return the same address exactly when they were given the same file
    name, line and column, and at the end every address that was returned still
    gives the file name, the line and the column of its call. *)
Theorem loci_are_unique calls :
  Z.of_nat (length calls) < 2 ^ 29 → Forall argument calls →
  ∃ l s, run calls init = Ret (l, s) ∧ length l = length calls ∧
    (∀ i j c d a b, calls !! i = Some c → calls !! j = Some d → l !! i = Some a → l !! j = Some b → (a = b ↔ place_of c = place_of d)) ∧
    ∀ i c a, calls !! i = Some c → l !! i = Some a →
      locus_get_filename (Some a) s = Ret (place_of c).1.1 ∧ locus_get_line (Some a) s = Ret c.1.2 ∧ locus_get_column (Some a) s = Ret c.2.
Proof.
  intros Hlen Ha. destruct (locus_run_spec calls 0 init init_wf Hlen Ha) as (l & s & E & Hs & Hd & _). exists l, s. split; [done|].
  split; [by symmetry; eapply Forall2_length|]. split.
  - intros i j c d a b Hc Hdj Ha' Hb. pose proof (Forall2_lookup_lr _ _ _ _ _ _ Hd Hc Ha') as H1.
    pose proof (Forall2_lookup_lr _ _ _ _ _ _ Hd Hdj Hb) as H2. cbn beta in *. split.
    + intros ->. by apply (denotes_functional s _ _ b).
    + intros Hp. rewrite Hp in H1. by apply (wf_unique _ _ Hs (place_of d)).
  - intros i c a Hc Ha'. destruct (Forall2_lookup_lr _ _ _ _ _ _ Hd Hc Ha') as (lo & H1 & H2 & H3 & H4).
    unfold locus_get_filename, locus_get_line, locus_get_column, at_address. rewrite H1. simpl. rewrite H2. simpl in *. by rewrite H3, H4.
Qed.
End canonical.

Lemma loci_are_unique_witness : let calls := [(Some (bytes "a.c"), 3, 4); (None, 0, 0); (Some (bytes "a.c"), 3, 5); (Some [], 0, 0);
    (Some (bytes "a.c"), 3, 4)] in
  (∃ l s, run (St := CharHash.state) calls init = Ret (l, s) ∧ length l = length calls ∧
    (∀ i j c d a b, calls !! i = Some c → calls !! j = Some d → l !! i = Some a → l !! j = Some b → (a = b ↔ place_of c = place_of d)) ∧
    ∀ i c a, calls !! i = Some c → l !! i = Some a →
      locus_get_filename (Some a) s = Ret (place_of c).1.1 ∧ locus_get_line (Some a) s = Ret c.1.2 ∧ locus_get_column (Some a) s = Ret c.2)
  ∧ fst <$> run (St := CharHash.state) calls init = Ret [(0, 0); (0, 1); (0, 2); (0, 1); (0, 0)]%nat.
Proof.
  intros calls. split; [|vm_compute; reflexivity]. apply (loci_are_unique calls); [done|].
  unfold calls, argument, cstring. repeat (apply Forall_cons; split); try apply Forall_nil_2; simpl; lia.
Defined.

(** The text of a locus does not tell a column from a line after a colon. *)
Lemma locus_text_is_ambiguous : match run (St := CharHash.state) [(Some (bytes "a:1"), 2, 0); (Some (bytes "a"), 1, 2)] init with
  | Ret ([a; b], s) => a ≠ b ∧ locus_text (Some a) s = Ret (bytes "a:1:2") ∧ locus_text (Some b) s = Ret (bytes "a:1:2")
  | _ => False
  end.
Proof. vm_compute. done. Qed.
