(* ===== verification/CStream.v ===== *)
(** * Strings and streams of the C library

    A C string is the list of its characters before the NUL; a [FILE] that is
    read is what is left of its characters. *)

From stdpp Require Import list.
From S2P Require Import Prelude.
#[local] Open Scope Z_scope.

Abbreviation cstr := (list Z).

Definition NEWLINE : Z := 10.

(** The string in a buffer of characters *)
Fixpoint c_string (l : list Z) : cstr :=
  match l with
  | [] => []
  | c :: l' => if c =? 0 then [] else c :: c_string l'
  end.

(** A [FILE] and its end-of-file indicator *)
Record stream := Stream { rest : list Z; feof : bool }.

(** At most [n] characters, up to a newline; whether the end was seen *)
Fixpoint take_line (n : nat) (l : list Z) : list Z * list Z * bool :=
  match n with
  | O => ([], l, false)
  | S n' =>
      match l with
      | [] => ([], [], true)
      | c :: l' =>
          if c =? NEWLINE then ([c], l', false)
          else let '(r, l'', e) := take_line n' l' in (c :: r, l'', e)
      end
  end.

(** [None] is [NULL], when there are no more characters. *)
Definition fgets (size : Z) (f : stream) : option (list Z) * stream :=
  let '(r, l, e) := take_line (Z.to_nat (size - 1)) (rest f) in
  (if bool_decide (r = []) then None else Some r, Stream l (feof f || e)).

Lemma c_string_all l : 0 ∉ l → c_string l = l.
Proof.
  induction l as [|c l IH]; intros H; simpl; [done|]. apply not_elem_of_cons in H as [Hc H].
  rewrite (proj2 (Z.eqb_neq _ _)) by congruence. by rewrite IH.
Qed.

Lemma take_line_spec body l : NEWLINE ∉ body → ∀ n,
  take_line n (body ++ NEWLINE :: l) =
    if (length body <? n)%nat then (body ++ [NEWLINE], l, false)
    else (take n body, drop n body ++ NEWLINE :: l, false).
Proof.
  induction body as [|c body IH]; intros H n; [by destruct n|]. apply not_elem_of_cons in H as [Hc H].
  destruct n as [|n]; [done|]. cbn [app take_line]. rewrite (proj2 (Z.eqb_neq _ _)) by congruence. rewrite IH by done.
  change (length (c :: body) <? S n)%nat with (length body <? n)%nat. by destruct (_ <? _)%nat.
Qed.
