(* ===== verification/Tpp.v ===== *)
(** * The tiny preprocessor: [lib/tpp.c]

    Conditional lines, definitions and included files.  The files are a function
    of their names, a parameter; the output is a list of characters; the options
    of the command line are arguments.  The regular expressions of the code are
    written out as a function on one line. *)

From stdpp Require Import list pretty.
From S2P Require Import Prelude CStream.
#[local] Open Scope Z_scope.

Definition MAX_TEXT_LINE : Z := 1024.
Definition MAX_INCLUDE_NESTING : nat := 32.
Definition MAX_IF_NESTING : nat := 32.
Definition MAX_DEFINES : nat := 32.

(** ** Directives *)

Definition blank (c : Z) : bool := (c =? 32) || (c =? 9).

(** [[^[:blank:]*]], which does not match a newline either *)
Definition name_character (c : Z) : bool := negb (blank c) && negb (c =? 42) && negb (c =? NEWLINE).

(** The longest prefix of characters in a class, and the rest *)
Fixpoint span (p : Z → bool) (l : cstr) : cstr * cstr :=
  match l with
  | [] => ([], [])
  | c :: l' => if p c then let '(a, b) := span p l' in (c :: a, b) else ([], l)
  end.

(** What follows a text *)
Fixpoint after (t l : cstr) : option cstr :=
  match t, l with
  | [], _ => Some l
  | x :: t', c :: l' => if x =? c then after t' l' else None
  | _ :: _, [] => None
  end.

(** [[[:blank:]]*[*]/[[:blank:]]*$] *)
Definition closes (l : cstr) : bool :=
  match after (bytes "*/") (span blank l).2 with
  | None => false
  | Some l => match (span blank l).2 with [] => true | c :: _ => c =? NEWLINE end
  end.

(** [^[[:blank:]]*/[*]!keyword[[:blank:]]+([^[:blank:]*]+)] and the end: the name *)
Definition directive_name (keyword : string) (buffer : cstr) : option cstr :=
  l ← after (bytes "/*!" ++ bytes keyword) (span blank buffer).2;
  let '(blanks, l) := span blank l in
  let '(name, l) := span name_character l in
  if bool_decide (blanks = []) || bool_decide (name = []) || negb (closes l) then None else Some name.

(** The expression of [!endif], without a name *)
Definition is_endif (buffer : cstr) : bool :=
  match after (bytes "/*!endif") (span blank buffer).2 with
  | None => false
  | Some l => closes l
  end.

(** ** State *)

(** [file_description_t] *)
Record file_description := FileDescription { file : stream; name : cstr; line : Z }.

(** The globals and the local variables of [conditional_process] but the stack of
    files; [num_defines] is the length of [defines]. *)
Record tpp := Tpp {
  defines : list cstr; output_enable_stack : list bool; block_nesting : nat; output : cstr }.

Definition put (l : cstr) (s : tpp) : tpp := Tpp (defines s) (output_enable_stack s) (block_nesting s) (output s ++ l).
Definition set_defines (d : list cstr) (s : tpp) : tpp := Tpp d (output_enable_stack s) (block_nesting s) (output s).

Definition output_enabled (s : tpp) : res bool :=
  match output_enable_stack s !! block_nesting s with Some b => Ret b | None => Err Undef end.

Definition found (n : cstr) (s : tpp) : bool := existsb (λ d, bool_decide (d = n)) (defines s).

Definition add_define (n : cstr) (s : tpp) : res tpp :=
  if found n s then Ret s
  else if (length (defines s) =? MAX_DEFINES)%nat then Err Aborted
  else Ret (set_defines (defines s ++ [n]) s).

(** The first one that is equal is removed. *)
Fixpoint remove_first (n : cstr) (l : list cstr) : list cstr :=
  match l with
  | [] => []
  | d :: l' => if bool_decide (d = n) then l' else d :: remove_first n l'
  end.
Definition remove_define (n : cstr) (s : tpp) : tpp := set_defines (remove_first n (defines s)) s.

(** [block_nesting++] and the new entry of the stack *)
Definition open_block (condition : bool) (s : tpp) : res tpp :=
  b ← output_enabled s;
  if (S (block_nesting s) <? MAX_IF_NESTING)%nat
  then Ret (Tpp (defines s) (<[S (block_nesting s) := condition && b]> (output_enable_stack s)) (S (block_nesting s)) (output s))
  else Err Undef.

Definition close_block (s : tpp) : res tpp :=
  match block_nesting s with
  | O => Err Aborted
  | S n => Ret (Tpp (defines s) (output_enable_stack s) n (output s))
  end.

Section process.
Context (fopen : cstr → option (list Z)) (include_dirs : list cstr) (enable_line_markers : bool).

(** The first directory with the file; paths are cut at 510 characters. *)
Fixpoint find_include (dirs : list cstr) (include_name : cstr) : option (cstr * list Z) :=
  match dirs with
  | [] => None
  | d :: dirs' =>
      let full_path := take 510 (d ++ bytes "/" ++ include_name) in
      match fopen full_path with
      | Some content => Some (full_path, content)
      | None => find_include dirs' include_name
      end
  end.

(** [#line n "name"] *)
Definition line_marker (n : Z) (file_name : cstr) : cstr :=
  bytes "#line " ++ bytes (pretty n) ++ [32; 34] ++ file_name ++ [34; NEWLINE].

Definition include (include_name : cstr) (s : tpp) (input_stack : list file_description) :
    res (tpp * list file_description) :=
  if (length input_stack =? MAX_INCLUDE_NESTING)%nat then Err Aborted else
  match find_include include_dirs include_name with
  | None => Err Aborted
  | Some (full_path, content) =>
      Ret (put (if enable_line_markers then line_marker 1 full_path else [NEWLINE]) s,
           FileDescription (Stream content false) full_path 0 :: input_stack)
  end.

(** One line *)
Definition process_line (buffer : cstr) (s : tpp) (input_stack : list file_description) :
    res (tpp * list file_description) :=
  b ← output_enabled s;
  let enabled keyword := if (b : bool) then directive_name keyword buffer else None in
  match enabled "include" with
  | Some n => include n s input_stack
  | None =>
      s ← match enabled "define" with
          | Some n => s ← add_define n s; Ret (put [NEWLINE] s)
          | None =>
              match enabled "undefine" with
              | Some n => Ret (put [NEWLINE] (remove_define n s))
              | None =>
                  match directive_name "if" buffer with
                  | Some n => s ← open_block (found n s) s; Ret (put [NEWLINE] s)
                  | None =>
                      match directive_name "ifnot" buffer with
                      | Some n => s ← open_block (negb (found n s)) s; Ret (put [NEWLINE] s)
                      | None =>
                          if is_endif buffer then s ← close_block s; Ret (put [NEWLINE] s)
                          else Ret (put (if b then buffer else [NEWLINE]) s)
                      end
                  end
              end
          end;
      Ret (s, input_stack)
  end.

(** A line of the file on top, or its end *)
Definition process_file (s : tpp) (f : file_description) (below : list file_description) :
    res (tpp * list file_description) :=
  let '(r, input) := fgets MAX_TEXT_LINE (file f) in
  match r with
  | Some l => process_line (c_string l) s (FileDescription input (name f) (line f + 1) :: below)
  | None =>
      Ret (match below with
           | g :: _ => if enable_line_markers then put (line_marker (line g + 1) (name g)) s else s
           | [] => s
           end, below)
  end.

(** [while (top_input_stack >= 0)] *)
Fixpoint process_files (fuel : nat) (s : tpp) (input_stack : list file_description) : res tpp :=
  match input_stack with
  | [] => Ret s
  | f :: below =>
      match fuel with
      | O => Err NoFuel
      | S fuel' => '(s, input_stack) ← process_file s f below; process_files fuel' s input_stack
      end
  end.

(** The output; the defines are those of the command line. *)
Definition conditional_process (fuel : nat) (defs : list cstr) (input_filename : cstr) : res cstr :=
  match fopen input_filename with
  | None => Err Aborted
  | Some content =>
      s ← process_files fuel (Tpp defs (true :: replicate (MAX_IF_NESTING - 1) false) 0 [])
            [FileDescription (Stream content false) (take 511 input_filename) 0];
      if (0 <? block_nesting s)%nat then Err Aborted else Ret (output s)
  end.
End process.
