(* ===== verification/TppProps.v ===== *)
(** * The tiny preprocessor: it ends, and conditional blocks are what they say

    On every system of files the preprocessor ends, since includes are nested at
    most 32 deep.  A file of well-nested blocks gives the lines of the blocks
    whose conditions hold, and an empty line for every other one. *)

From stdpp Require Import list gmap.
From S2P Require Import Prelude CStream Tpp.
#[local] Open Scope Z_scope.

(** ** Termination *)

Section ends.
Context (fopen : cstr → option (list Z)) (include_dirs : list cstr) (enable_line_markers : bool).

Notation process_files := (process_files fopen include_dirs enable_line_markers).
Notation process_file := (process_file fopen include_dirs enable_line_markers).
Notation process_line := (process_line fopen include_dirs enable_line_markers).

(** With any larger fuel the answer is the same. *)
Definition ends (s : tpp) (input_stack : list file_description) : Prop :=
  ∃ fuel r, r ≠ Err NoFuel ∧ ∀ k, process_files (fuel + k) s input_stack = r.

Lemma ends_step s f below : match process_file s f below with
                            | Ret (s', input_stack) => ends s' input_stack
                            | Err e => e ≠ NoFuel
                            end → ends s (f :: below).
Proof.
  unfold ends. intros H. destruct (process_file s f below) as [[s' stack]|e] eqn:E.
  - destruct H as (fuel & r & Hr & Hk). exists (S fuel), r. split; [done|]. intros k. cbn [plus Tpp.process_files].
    rewrite E, bind_ret. apply Hk.
  - exists 1%nat, (Err e). split; [congruence|]. intros k. cbn [plus Tpp.process_files]. by rewrite E.
Qed.

(** A line either changes the stack by an included file or leaves it; it does not
    run out of fuel. *)
Definition line_result (input_stack : list file_description) (r : res (tpp * list file_description)) : Prop :=
  match r with
  | Ret (_, stack) => stack = input_stack ∨ (length input_stack ≠ MAX_INCLUDE_NESTING ∧ ∃ f, stack = f :: input_stack)
  | Err e => e ≠ NoFuel
  end.

Lemma line_result_same {input_stack} (m : res tpp) : (∀ e, m = Err e → e ≠ NoFuel) →
  line_result input_stack (s ← m; Ret (s, input_stack)).
Proof. intros H. destruct m as [s|e]; simpl; [by left|by apply H]. Qed.

Lemma operations_fuel s : (∀ n e, add_define n s = Err e → e ≠ NoFuel) ∧ (∀ b e, open_block b s = Err e → e ≠ NoFuel) ∧
  ∀ e, close_block s = Err e → e ≠ NoFuel.
Proof.
  unfold add_define, open_block, close_block, output_enabled. split; [|split]; intros.
  - repeat case_match; simplify_eq; done.
  - destruct (_ !! _); simpl in *; repeat case_match; simplify_eq; done.
  - repeat case_match; simplify_eq; done.
Qed.

Lemma bind_fuel {A B} (m : res A) (f : A → res B) : (∀ e, m = Err e → e ≠ NoFuel) → (∀ x e, f x = Err e → e ≠ NoFuel) →
  ∀ e, m ≫= f = Err e → e ≠ NoFuel.
Proof. destruct m as [x|e']; intros H1 H2 e H; [by apply (H2 x)|]. injection H as <-. by apply H1. Qed.

Lemma process_line_result buffer s input_stack : line_result input_stack (process_line buffer s input_stack).
Proof.
  unfold Tpp.process_line. destruct (operations_fuel s) as (Hadd & Hopen & Hclose).
  destruct (output_enabled s) as [b|e] eqn:Eb.
  - rewrite bind_ret. cbv zeta. destruct (if b then directive_name "include" buffer else None) as [n|].
    + unfold include. destruct (Nat.eqb_spec (length input_stack) MAX_INCLUDE_NESTING) as [|Hne]; [done|].
      destruct (find_include _ _ _) as [[p c]|]; [|done]. right. split; [done|]. by eexists.
    + apply line_result_same. repeat case_match; try done; apply bind_fuel; eauto; by intros.
  - unfold output_enabled in Eb. destruct (_ !! _); [done|]. by injection Eb as <-.
Qed.

(** What is left of a file is shorter after a line. *)
Lemma fgets_shorter f l f' : fgets MAX_TEXT_LINE f = (Some l, f') → (length (rest f') < length (rest f))%nat.
Proof.
  assert (H : ∀ n l0 a b e, take_line n l0 = (a, b, e) → (length a + length b = length l0)%nat).
  { induction n as [|n IH]; intros l0 a b e E; simpl in E; [injection E as <- <- <-; done|].
    destruct l0 as [|c l0]; [injection E as <- <- <-; done|]. destruct (c =? NEWLINE); [injection E as <- <- <-; done|].
    destruct (take_line n l0) as [[a' b'] e'] eqn:E'. injection E as <- <- <-. apply IH in E'. simpl. lia. }
  unfold fgets. destruct (take_line _ (rest f)) as [[a b] e] eqn:E. intros [= E1 <-]. apply H in E.
  destruct a as [|x a]; [done|]. simpl in *. lia.
Qed.

Lemma stack_ends d : ∀ below, (length below + 1 + d = MAX_INCLUDE_NESTING)%nat → (∀ s, ends s below) → ∀ f s, ends s (f :: below).
Proof.
  induction d as [d IHd] using lt_wf_ind. intros below Hlen Hbelow f.
  remember (length (rest (file f))) as n eqn:En. revert f En. induction n as [n IHn] using lt_wf_ind. intros f En s.
  apply ends_step. unfold Tpp.process_file. destruct (fgets MAX_TEXT_LINE (file f)) as [[l|] input] eqn:E; [|by apply Hbelow].
  apply fgets_shorter in E. set (f' := FileDescription input (name f) (line f + 1)).
  assert (Hf' : ∀ s, ends s (f' :: below)) by (intros s'; apply (IHn (length (rest input))); [lia|done]).
  pose proof (process_line_result (c_string l) s (f' :: below)) as Hr.
  destruct (process_line (c_string l) s (f' :: below)) as [[s' stack]|e]; [|done].
  destruct Hr as [->|(Hne & g & ->)]; [apply Hf'|]. simpl in Hne.
  destruct d as [|d]; [lia|]. apply (IHd d); [lia|simpl; lia|done].
Qed.

Lemma files_end f s : ends s [f].
Proof. apply (stack_ends 31); [done|]. intros s'. exists 0%nat, (Ret s'). split; [done|]. by intros []. Qed.
End ends.

(** ** Blocks *)

(** Lines, without their newline, definitions and conditional blocks *)
Inductive blocks :=
  | Done
  | Text (text : cstr) (next : blocks)
  | Define (n : cstr) (next : blocks)
  | Undefine (n : cstr) (next : blocks)
  | If (positive : bool) (n : cstr) (body next : blocks).

Definition directive (keyword : string) (n : cstr) : cstr := (bytes "/*!" ++ bytes keyword) ++ 32 :: n ++ bytes "*/".

Fixpoint lines (b : blocks) : list cstr :=
  match b with
  | Done => []
  | Text t b => t :: lines b
  | Define n b => directive "define" n :: lines b
  | Undefine n b => directive "undefine" n :: lines b
  | If positive n body b => directive (if positive then "if" else "ifnot") n :: lines body ++ bytes "/*!endif*/" :: lines b
  end.

(** What the blocks mean: the names that are defined after them, and a line for
    each of their lines *)
Fixpoint meaning (on : bool) (defs : gset cstr) (b : blocks) : gset cstr * list cstr :=
  match b with
  | Done => (defs, [])
  | Text t b => let '(d, l) := meaning on defs b in (d, (if on then t else []) :: l)
  | Define n b => let '(d, l) := meaning on (if on then {[n]} ∪ defs else defs) b in (d, [] :: l)
  | Undefine n b => let '(d, l) := meaning on (if on then defs ∖ {[n]} else defs) b in (d, [] :: l)
  | If positive n body b =>
      let '(d1, l1) := meaning (eqb (bool_decide (n ∈ defs)) positive && on) defs body in
      let '(d2, l2) := meaning on d1 b in
      (d2, [] :: l1 ++ [] :: l2)
  end.

Fixpoint depth (b : blocks) : nat :=
  match b with
  | Done => 0
  | Text _ b | Define _ b | Undefine _ b => depth b
  | If _ _ body b => S (depth body) `max` depth b
  end.
Fixpoint definitions (b : blocks) : nat :=
  match b with
  | Done => 0
  | Text _ b | Undefine _ b => definitions b
  | Define _ b => S (definitions b)
  | If _ _ body b => definitions body + definitions b
  end.

(** A line that is no directive, and a name *)
Definition plain_line (t : cstr) : bool :=
  bool_decide (NEWLINE ∉ t) && bool_decide (0 ∉ t) && (length t <? 1023)%nat &&
  forallb (λ k, bool_decide (directive_name k (t ++ [NEWLINE]) = None)) ["include"; "define"; "undefine"; "if"; "ifnot"] &&
  negb (is_endif (t ++ [NEWLINE])).
Definition good_name (n : cstr) : bool :=
  forallb (λ c, name_character c && negb (c =? 0)) n && bool_decide (n ≠ []) && (length n <? 1000)%nat.
Fixpoint good (b : blocks) : bool :=
  match b with
  | Done => true
  | Text t b => plain_line t && good b
  | Define n b | Undefine n b => good_name n && good b
  | If _ n body b => good_name n && good body && good b
  end.

(** *** Lines are recognised *)

Lemma span_all p l c m : forallb p l = true → p c = false → span p (l ++ c :: m) = (l, c :: m).
Proof.
  induction l as [|x l IH]; intros Hl Hc; simpl; [by rewrite Hc|]. simpl in Hl. apply andb_true_iff in Hl as [-> Hl]. by rewrite IH.
Qed.

Lemma good_name_spec n : good_name n = true → forallb name_character n = true ∧ 0 ∉ n ∧ NEWLINE ∉ n ∧ n ≠ [] ∧ (length n < 1000)%nat.
Proof.
  intros [[Hn Hne%bool_decide_eq_true]%andb_true_iff Hl%Nat.ltb_lt]%andb_true_iff. rewrite forallb_forall in Hn. split; [|split; [|split; [|done]]].
  - apply forallb_forall. intros c Hc. by apply Hn, andb_true_iff in Hc as [? _].
  - intros H0%list_elem_of_In. by apply Hn in H0.
  - intros H0%list_elem_of_In. by apply Hn in H0.
Qed.

Lemma after_itself t l : after t (t ++ l) = Some l.
Proof. induction t as [|x t IH]; simpl; [done|]. by rewrite Z.eqb_refl. Qed.

Lemma directive_name_hit k n : good_name n = true → directive_name k (directive k n ++ [NEWLINE]) = Some n.
Proof.
  intros (Hn & _ & _ & Hne & _)%good_name_spec. unfold directive, directive_name. rewrite <-app_assoc.
  change (span blank ((bytes "/*!" ++ bytes k) ++ (32 :: n ++ bytes "*/") ++ [NEWLINE])).2
    with ((bytes "/*!" ++ bytes k) ++ (32 :: n ++ bytes "*/") ++ [NEWLINE]).
  rewrite after_itself. cbn [mbind option_bind app]. rewrite <-app_assoc.
  destruct n as [|x n']; [done|]. assert (Hx : blank x = false) by (simpl in Hn; unfold name_character in Hn; by destruct (blank x)).
  assert (span blank (32 :: (x :: n') ++ bytes "*/" ++ [NEWLINE]) = ([32], (x :: n') ++ bytes "*/" ++ [NEWLINE])) as ->
    by (cbn [span app]; by rewrite Hx).
  cbn beta iota. change (bytes "*/" ++ [NEWLINE]) with (42 :: [47; NEWLINE]). by rewrite (span_all name_character).
Qed.

(** The kind of a directive is that of its keyword. *)
Lemma directive_name_miss : let keywords := ["include"; "define"; "undefine"; "if"; "ifnot"]%string in
  ∀ k keyword n, k ∈ keywords → keyword ∈ keywords → k ≠ keyword → directive_name k (directive keyword n ++ [NEWLINE]) = None.
Proof.
  intros keywords k keyword n Hk Hk' Hne. unfold keywords in *. rewrite !elem_of_cons, elem_of_nil in Hk, Hk'.
  unfold directive_name, directive. destruct Hk as [->|[->|[->|[->|[->|[]]]]]], Hk' as [->|[->|[->|[->|[->|[]]]]]]; try done.
Qed.

Lemma directive_not_endif k n : k ∈ ["include"; "define"; "undefine"; "if"; "ifnot"]%string →
  is_endif (directive k n ++ [NEWLINE]) = false.
Proof. rewrite !elem_of_cons, elem_of_nil. by intros [->|[->|[->|[->|[->|[]]]]]]. Qed.

(** A line as [fgets] reads it *)
Definition one_line (t : cstr) : Prop := NEWLINE ∉ t ∧ 0 ∉ t ∧ (length t < 1023)%nat.

Lemma directive_line k n : k ∈ ["include"; "define"; "undefine"; "if"; "ifnot"]%string → good_name n = true → one_line (directive k n).
Proof.
  rewrite !elem_of_cons, elem_of_nil. intros Hk (_ & H0 & Hnl & _ & Hlen)%good_name_spec. unfold directive, one_line.
  rewrite !length_app. cbn [length]. rewrite length_app.
  destruct Hk as [->|[->|[->|[->|[->|[]]]]]]; (split; [|split; [|simpl; lia]]);
    cbn -[elem_of NEWLINE]; rewrite ?not_elem_of_cons, not_elem_of_app; repeat split; try done; set_solver.
Qed.

(** *** Runs *)

Section runs.
Context (fopen : cstr → option (list Z)) (include_dirs : list cstr) (enable_line_markers : bool).

Notation process_files := (process_files fopen include_dirs enable_line_markers).
Notation process_line := (process_line fopen include_dirs enable_line_markers).

(** The characters of lines *)
Definition text (l : list cstr) : cstr := concat (map (λ t, t ++ [NEWLINE]) l).

Lemma text_app l1 l2 : text (l1 ++ l2) = text l1 ++ text l2.
Proof. unfold text. by rewrite map_app, concat_app. Qed.

(** The state of the code for an enabled or a disabled block *)
Record state_of (on : bool) (defs : gset cstr) (nesting : nat) (s : tpp) : Prop := {
  state_nesting : block_nesting s = nesting;
  state_enabled : output_enable_stack s !! nesting = Some on;
  state_stack : length (output_enable_stack s) = MAX_IF_NESTING;
  state_nodup : NoDup (defines s);
  state_defines : ∀ n, n ∈ defines s ↔ n ∈ defs }.

Lemma found_defined on defs k s n : state_of on defs k s → found n s = bool_decide (n ∈ defs).
Proof.
  intros H. unfold found. apply eq_true_iff_eq. rewrite existsb_exists, bool_decide_eq_true, <-(state_defines _ _ _ _ H n). split.
  - intros (d & Hd%list_elem_of_In & ->%bool_decide_eq_true). done.
  - intros Hn. exists n. by rewrite <-list_elem_of_In, bool_decide_eq_true.
Qed.

Lemma state_put on defs k s l : state_of on defs k s → state_of on defs k (put l s).
Proof. by intros []; split. Qed.

Lemma add_define_spec on defs k s n : state_of on defs k s → (length (defines s) < MAX_DEFINES)%nat →
  ∃ s', add_define n s = Ret s' ∧ state_of on ({[n]} ∪ defs) k s' ∧ output s' = output s ∧
    output_enable_stack s' = output_enable_stack s ∧ (length (defines s') ≤ S (length (defines s)))%nat.
Proof.
  intros H Hlen. unfold add_define. rewrite (found_defined _ _ _ _ n H). destruct H as [H1 H2 H3 H4 H5]. case_bool_decide as Hn.
  - exists s. split; [done|]. split; [split; try done|auto]. intros m. rewrite H5. set_solver.
  - rewrite (proj2 (Nat.eqb_neq _ _)) by lia. eexists. split; [done|].
    split; [split; try done|simpl; rewrite length_app; simpl; auto with lia]; simpl.
    + apply NoDup_app. split; [done|]. split; [|apply NoDup_singleton]. intros m Hm ->%list_elem_of_singleton. by apply Hn, H5.
    + intros m. rewrite elem_of_app, list_elem_of_singleton, H5. set_solver.
Qed.

Lemma remove_first_elem n l : NoDup l → NoDup (remove_first n l) ∧ (∀ m, m ∈ remove_first n l ↔ m ∈ l ∧ m ≠ n) ∧
  (length (remove_first n l) ≤ length l)%nat.
Proof.
  induction l as [|d l IH]; intros Hl; simpl; [split; [done|split; [set_solver|done]]|].
  apply NoDup_cons in Hl as [Hd Hl]. destruct (IH Hl) as (H1 & H2 & H3). case_bool_decide as E.
  - subst d. split; [done|]. split; [|simpl; lia]. intros m. rewrite elem_of_cons. naive_solver.
  - split; [apply NoDup_cons; split; [rewrite H2; naive_solver|done]|]. split; [|simpl; lia]. intros m. rewrite !elem_of_cons, H2.
    naive_solver.
Qed.

Lemma remove_define_spec on defs k s n : state_of on defs k s → state_of on (defs ∖ {[n]}) k (remove_define n s).
Proof.
  intros [H1 H2 H3 H4 H5]. destruct (remove_first_elem n _ H4) as (H6 & H7 & _). split; try done. intros m. simpl. rewrite H7, H5.
  set_solver.
Qed.

Lemma open_block_spec on defs k s c : state_of on defs k s → (S k < MAX_IF_NESTING)%nat →
  ∃ s', open_block c s = Ret s' ∧ state_of (c && on) defs (S k) s' ∧ output s' = output s ∧ defines s' = defines s ∧
    output_enable_stack s' = <[S k := c && on]> (output_enable_stack s).
Proof.
  intros [H1 H2 H3 H4 H5] Hk. unfold open_block, output_enabled. rewrite H1, H2, bind_ret, (proj2 (Nat.ltb_lt _ _)) by done.
  eexists. split; [done|]. split; [split; simpl; try done|done].
  - apply list_lookup_insert_eq. lia.
  - by rewrite length_insert.
Qed.

Lemma close_block_spec on defs k s on' : state_of on defs (S k) s → output_enable_stack s !! k = Some on' →
  ∃ s', close_block s = Ret s' ∧ state_of on' defs k s' ∧ output s' = output s ∧ defines s' = defines s ∧
    output_enable_stack s' = output_enable_stack s.
Proof. intros [H1 H2 H3 H4 H5] Hk. unfold close_block. rewrite H1. eexists. split; [done|]. by split. Qed.

(** One line is read. *)
Lemma process_read t l fuel s n k below : one_line t →
  process_files (S fuel) s (FileDescription (Stream (text (t :: l)) false) n k :: below)
  = '(s, stack) ← process_line (t ++ [NEWLINE]) s (FileDescription (Stream (text l) false) n (k + 1) :: below);
    process_files fuel s stack.
Proof.
  intros (Hnl & H0 & Hlen). cbn [Tpp.process_files]. unfold process_file, fgets. cbn [file name line rest feof text map concat].
  rewrite <-app_assoc. cbn [app]. rewrite take_line_spec by done. change (Z.to_nat (MAX_TEXT_LINE - 1)) with 1023%nat.
  rewrite (proj2 (Nat.ltb_lt _ _)) by done. rewrite bool_decide_eq_false_2 by (by destruct t). cbn [orb].
  by rewrite c_string_all by (rewrite elem_of_app, list_elem_of_singleton; intros [?|?]; done).
Qed.

Lemma process_one_line t l fuel s n k below s' : one_line t →
  (∀ stack, process_line (t ++ [NEWLINE]) s stack = Ret (s', stack)) →
  process_files (S fuel) s (FileDescription (Stream (text (t :: l)) false) n k :: below)
  = process_files fuel s' (FileDescription (Stream (text l) false) n (k + 1) :: below).
Proof. intros Ht Hp. rewrite process_read by done. by rewrite Hp, bind_ret. Qed.

Lemma process_one_failure t l fuel s n k below e : one_line t → (∀ stack, process_line (t ++ [NEWLINE]) s stack = Err e) →
  process_files (S fuel) s (FileDescription (Stream (text (t :: l)) false) n k :: below) = Err e.
Proof. intros Ht Hp. rewrite process_read by done. by rewrite Hp. Qed.

Lemma process_text on defs k s t stack : state_of on defs k s → plain_line t = true →
  process_line (t ++ [NEWLINE]) s stack = Ret (put ((if on then t else []) ++ [NEWLINE]) s, stack).
Proof.
  intros H ((_ & Hd)%andb_true_iff & He)%andb_true_iff. apply negb_true_iff in He. rewrite forallb_forall in Hd.
  assert (Hk : ∀ k, In k ["include"; "define"; "undefine"; "if"; "ifnot"]%string → directive_name k (t ++ [NEWLINE]) = None).
  { intros k' Hk. by apply (bool_decide_unpack _), Is_true_true, Hd. }
  unfold Tpp.process_line, output_enabled. rewrite (state_nesting _ _ _ _ H), (state_enabled _ _ _ _ H), bind_ret. cbv zeta.
  rewrite !Hk, He by (simpl; tauto). by destruct on.
Qed.

Lemma process_line_directive on defs k s kw n stack : state_of on defs k s → good_name n = true →
  kw ∈ ["define"; "undefine"; "if"; "ifnot"]%string →
  process_line (directive kw n ++ [NEWLINE]) s stack
  = (s ← (if bool_decide (kw = "if"%string) then open_block (found n s) s
          else if bool_decide (kw = "ifnot"%string) then open_block (negb (found n s)) s
          else if on then if bool_decide (kw = "define"%string) then add_define n s else Ret (remove_define n s)
          else Ret s);
     Ret (put [NEWLINE] s, stack)).
Proof.
  intros H Hn Hkw. unfold Tpp.process_line, output_enabled. rewrite (state_nesting _ _ _ _ H), (state_enabled _ _ _ _ H), bind_ret.
  cbv zeta. rewrite !elem_of_cons, elem_of_nil in Hkw.
  assert (Hmiss : ∀ k, k ∈ ["include"; "define"; "undefine"; "if"; "ifnot"]%string → k ≠ kw →
    directive_name k (directive kw n ++ [NEWLINE]) = None) by (intros; apply directive_name_miss; [done|set_solver|done]).
  pose proof (directive_name_hit kw n Hn) as Hhit.
  pose proof (directive_not_endif kw n ltac:(set_solver)) as Hend.
  destruct Hkw as [->|[->|[->|[->|[]]]]], on; rewrite ?Hhit, ?Hmiss, ?Hend by (done || set_solver); cbn beta iota;
    first [done | by destruct (add_define n s) | by destruct (open_block (found n s) s) | by destruct (open_block (negb (found n s)) s)].
Qed.

Lemma process_line_endif on defs k s stack : state_of on defs k s →
  process_line (bytes "/*!endif*/" ++ [NEWLINE]) s stack = (s ← close_block s; Ret (put [NEWLINE] s, stack)).
Proof.
  intros H. unfold Tpp.process_line, output_enabled. rewrite (state_nesting _ _ _ _ H), (state_enabled _ _ _ _ H), bind_ret.
  by destruct on, (close_block s).
Qed.

(** A part of a run over lines: the state after it and what it adds to the
    output, with the stack of the enclosing blocks as it was *)
Record runs_to (ls : list cstr) (on : bool) (defs' : gset cstr) (outs : list cstr) (k : nat) (s s' : tpp) : Prop := {
  runs_lines : ∀ fuel more n ln below,
    process_files (length ls + fuel) s (FileDescription (Stream (text (ls ++ more)) false) n ln :: below)
    = process_files fuel s' (FileDescription (Stream (text more) false) n (ln + Z.of_nat (length ls)) :: below);
  runs_state : state_of on defs' k s';
  runs_output : output s' = output s ++ text outs }.

Lemma runs_nil on defs k s : state_of on defs k s → runs_to [] on defs [] k s s.
Proof. intros H. split; [|done|by rewrite app_nil_r]. intros. cbn [length plus app]. by rewrite Z.add_0_r. Qed.

Lemma runs_one t on defs o k s s' : one_line t → (∀ stack, process_line (t ++ [NEWLINE]) s stack = Ret (s', stack)) →
  state_of on defs k s' → output s' = output s ++ o ++ [NEWLINE] → runs_to [t] on defs [o] k s s'.
Proof.
  intros Ht Hp Hs Ho. split; [|done|unfold text; simpl; by rewrite app_nil_r]. intros. cbn [length plus app].
  by rewrite (process_one_line t more fuel s n ln below s').
Qed.

Lemma runs_app l1 l2 on1 on2 d1 d2 o1 o2 k1 k2 s s1 s2 : runs_to l1 on1 d1 o1 k1 s s1 → runs_to l2 on2 d2 o2 k2 s1 s2 →
  runs_to (l1 ++ l2) on2 d2 (o1 ++ o2) k2 s s2.
Proof.
  intros [H1 H2 H3] [H4 H5 H6]. split; [|done|by rewrite H6, H3, text_app, app_assoc]. intros. rewrite length_app, <-!app_assoc.
  rewrite <-Nat.add_assoc, H1, H4. do 3 f_equal. lia.
Qed.

Lemma plain_line_one t : plain_line t = true → one_line t.
Proof.
  intros [[[[H1 H2]%andb_true_iff H3]%andb_true_iff _]%andb_true_iff _]%andb_true_iff.
  by apply bool_decide_eq_true in H1, H2; apply Nat.ltb_lt in H3.
Qed.

(** Entries of the stack up to a nesting *)
Definition same_below (k : nat) (s s' : tpp) : Prop := ∀ i, (i ≤ k)%nat → output_enable_stack s' !! i = output_enable_stack s !! i.

Lemma runs_blocks b : ∀ on defs k s, state_of on defs k s → good b = true → (k + depth b < MAX_IF_NESTING)%nat →
  (length (defines s) + definitions b ≤ MAX_DEFINES)%nat →
  ∃ s', runs_to (lines b) on (meaning on defs b).1 (meaning on defs b).2 k s s' ∧ same_below k s s' ∧
    (length (defines s') ≤ length (defines s) + definitions b)%nat.
Proof.
  induction b as [|t b IH|n b IH|n b IH|pos n body IHbody b IH]; intros on defs k s Hs Hg Hd Hn; cbn [lines meaning depth definitions good] in *.
  - exists s. split; [by apply runs_nil|]. split; [done|lia].
  - apply andb_true_iff in Hg as [Ht Hg]. set (s1 := put ((if on then t else []) ++ [NEWLINE]) s).
    destruct (IH on defs k s1) as (s2 & H1 & H2 & H3); [by apply state_put|done..|]. destruct (meaning on defs b) as [d l].
    exists s2. split; [|by split]. apply (runs_app [t] _ on _ defs _ [if on then t else []] _ k _ _ s1); [|done].
    apply runs_one; [by apply plain_line_one|intros; by apply (process_text on defs k)|by apply state_put|done].
  - apply andb_true_iff in Hg as [Hname Hg].
    assert (∃ s1, state_of on (if on then {[n]} ∪ defs else defs) k s1 ∧ output s1 = output s ++ [NEWLINE] ∧
      output_enable_stack s1 = output_enable_stack s ∧ (length (defines s1) ≤ S (length (defines s)))%nat ∧
      ∀ stack, process_line (directive "define" n ++ [NEWLINE]) s stack = Ret (s1, stack)) as (s1 & Hs1 & Ho & Hst & Hlen & Hp).
    { destruct on.
      - destruct (add_define_spec true defs k s n Hs) as (s1 & E & Hs1 & Ho & Hst & Hlen); [lia|]. exists (put [NEWLINE] s1).
        split; [by apply state_put|]. split; [simpl; by rewrite Ho|]. split; [done|]. split; [done|]. intros stack.
        rewrite (process_line_directive true defs k) by (done || set_solver). simpl. by rewrite E.
      - exists (put [NEWLINE] s). split; [by apply state_put|]. split; [done|]. split; [done|]. split; [simpl; lia|]. intros stack.
        by rewrite (process_line_directive false defs k) by (done || set_solver). }
    destruct (IH on _ k s1 Hs1) as (s2 & H1 & H2 & H3); [done..|lia|]. destruct (meaning on _ b) as [d l]. exists s2.
    split; [|split; [unfold same_below; by rewrite <-Hst|lia]].
    apply (runs_app [directive "define" n] _ on _ (if on then {[n]} ∪ defs else defs) _ [[]] _ k _ _ s1); [|done].
    apply runs_one; [apply directive_line; [set_solver|done]|done..].
  - apply andb_true_iff in Hg as [Hname Hg]. set (s1 := put [NEWLINE] (if on then remove_define n s else s)).
    assert (Hs1 : state_of on (if on then defs ∖ {[n]} else defs) k s1) by (apply state_put; destruct on; [by apply remove_define_spec|done]).
    assert (Hlen : (length (defines s1) ≤ length (defines s))%nat).
    { destruct on; [|done]. apply (remove_first_elem n (defines s)), Hs. }
    destruct (IH on _ k s1 Hs1) as (s2 & H1 & H2 & H3); [done..|lia|]. destruct (meaning on _ b) as [d l]. exists s2.
    split; [|split; [by destruct on|lia]].
    apply (runs_app [directive "undefine" n] _ on _ (if on then defs ∖ {[n]} else defs) _ [[]] _ k _ _ s1); [|done].
    apply runs_one; [apply directive_line; [set_solver|done]| |done|by destruct on].
    intros stack. rewrite (process_line_directive on defs k) by (done || set_solver). by destruct on.
  - apply andb_true_iff in Hg as [[Hname Hgb]%andb_true_iff Hg].
    set (c := eqb (bool_decide (n ∈ defs)) pos). destruct (open_block_spec on defs k s c Hs) as (s1 & E1 & Hs1 & Ho1 & Hd1 & Hst1); [lia|].
    destruct (IHbody _ _ _ (put [NEWLINE] s1) (state_put _ _ _ _ _ Hs1) Hgb) as (s2 & [Hl2 Hs2 Ho2] & Hb2 & Hn2); [lia|simpl; rewrite Hd1; lia|].
    fold c. destruct (meaning (c && on) defs body) as [d1 l1]. cbn [fst snd] in *.
    destruct (close_block_spec (c && on) d1 k s2 on Hs2) as (s3 & E3 & Hs3 & Ho3 & Hd3 & Hst3).
    { rewrite Hb2 by lia. simpl. rewrite Hst1, list_lookup_insert_ne by lia. apply Hs. }
    simpl in Hn2. rewrite Hd1 in Hn2.
    destruct (IH on d1 k (put [NEWLINE] s3) (state_put _ _ _ _ _ Hs3) Hg) as (s4 & H4 & Hb4 & Hn4); [lia|simpl; rewrite Hd3; lia|].
    simpl in Hn4. rewrite Hd3 in Hn4. destruct (meaning on d1 b) as [d2 l2]. cbn [fst snd] in *. exists s4.
    split; [|split; [|lia]].
    + apply (runs_app [directive (if pos then "if" else "ifnot") n] _ (c && on) _ defs _ [[]] _ (S k) _ _ (put [NEWLINE] s1)).
      { apply runs_one; [apply directive_line; [destruct pos; set_solver|done]| |by apply state_put|simpl; by rewrite Ho1].
        intros stack. rewrite (process_line_directive on defs k) by (destruct pos; done || set_solver).
        rewrite (found_defined on defs k s n Hs). unfold c in E1. destruct pos; simpl;
          [destruct (bool_decide (n ∈ defs)) | destruct (bool_decide (n ∈ defs))]; simpl in *; by rewrite E1. }
      apply (runs_app (lines body) (bytes "/*!endif*/" :: lines b) (c && on) _ d1 _ l1 ([] :: l2) (S k) _ _ s2); [by split|].
      apply (runs_app [bytes "/*!endif*/"] _ on _ d1 _ [[]] _ k _ _ (put [NEWLINE] s3)); [|done].
      apply runs_one; [split; [vm_compute; set_solver|split; [vm_compute; set_solver|simpl; lia]]| |by apply state_put|simpl; by rewrite Ho3].
      intros stack. rewrite (process_line_endif (c && on) d1 (S k)) by done. by rewrite E3.
    + intros i Hi. rewrite Hb4 by done. simpl. rewrite Hst3, Hb2 by lia. simpl. by rewrite Hst1, list_lookup_insert_ne by lia.
Qed.
End runs.

(** ** Lines in any order *)

Inductive line_item :=
  | TextLine (t : cstr)
  | DefineLine (n : cstr)
  | UndefineLine (n : cstr)
  | IfLine (positive : bool) (n : cstr)
  | EndifLine.

Definition render (i : line_item) : cstr :=
  match i with
  | TextLine t => t
  | DefineLine n => directive "define" n
  | UndefineLine n => directive "undefine" n
  | IfLine positive n => directive (if positive then "if" else "ifnot") n
  | EndifLine => bytes "/*!endif*/"
  end.

Definition good_line (i : line_item) : bool :=
  match i with
  | TextLine t => plain_line t
  | DefineLine n | UndefineLine n | IfLine _ n => good_name n
  | EndifLine => true
  end.

(** The nesting after lines that start inside [k] blocks, unless one of them
    closes a block that is not open *)
Fixpoint nesting_after (k : nat) (l : list line_item) : option nat :=
  match l with
  | [] => Some k
  | IfLine _ _ :: l => nesting_after (S k) l
  | EndifLine :: l => match k with O => None | S k' => nesting_after k' l end
  | _ :: l => nesting_after k l
  end.

(** The deepest nesting, up to the first line that closes too much *)
Fixpoint deepest (k : nat) (l : list line_item) : nat :=
  match l with
  | [] => k
  | IfLine _ _ :: l => deepest (S k) l
  | EndifLine :: l => match k with O => O | S k' => k `max` deepest k' l end
  | _ :: l => deepest k l
  end.

Fixpoint defined_names (l : list line_item) : nat :=
  match l with
  | [] => 0
  | DefineLine _ :: l => S (defined_names l)
  | _ :: l => defined_names l
  end.

Lemma deepest_above k l : (k ≤ deepest k l)%nat.
Proof.
  revert k. induction l as [|[t|n|n|p n|] l IH]; intros k; simpl; auto.
  - specialize (IH (S k)). lia.
  - destruct k; lia.
Qed.

Section lines_in_order.
Context (fopen : cstr → option (list Z)) (include_dirs : list cstr) (enable_line_markers : bool).

Notation process_files := (process_files fopen include_dirs enable_line_markers).
Notation process_line := (process_line fopen include_dirs enable_line_markers).

(** A line that leaves the preprocessor inside [k'] blocks *)
Definition steps_to (i : line_item) (s : tpp) (k' room : nat) : Prop :=
  ∃ on d s', (∀ stack, process_line (render i ++ [NEWLINE]) s stack = Ret (s', stack))
    ∧ state_of on d k' s' ∧ (length (defines s') ≤ room)%nat.

Lemma text_steps t on d k s : state_of on d k s → plain_line t = true →
  steps_to (TextLine t) s k (length (defines s)).
Proof.
  intros Hs Hg. eexists on, d, _. split; [intros; by apply (process_text _ _ _ on d k)|].
  split; [by apply state_put|done].
Qed.

Lemma define_steps n on d k s : state_of on d k s → good_name n = true → (length (defines s) < MAX_DEFINES)%nat →
  steps_to (DefineLine n) s k (S (length (defines s))).
Proof.
  intros Hs Hg Hl. destruct on.
  - destruct (add_define_spec fopen true d k s n Hs Hl) as (s1 & E & Hs1 & _ & _ & Hlen).
    eexists true, _, (put [NEWLINE] s1). split; [|split; [by apply state_put|done]]. intros stack.
    cbn [render]. rewrite (process_line_directive _ _ _ true d k) by (done || set_solver). simpl. by rewrite E.
  - exists false, d, (put [NEWLINE] s). split; [|split; [by apply state_put|simpl; lia]]. intros stack.
    cbn [render]. by rewrite (process_line_directive _ _ _ false d k) by (done || set_solver).
Qed.

Lemma undefine_steps n on d k s : state_of on d k s → good_name n = true →
  steps_to (UndefineLine n) s k (length (defines s)).
Proof.
  intros Hs Hg. destruct on.
  - exists true, (d ∖ {[n]}), (put [NEWLINE] (remove_define n s)).
    split; [|split; [by apply state_put, remove_define_spec|apply (remove_first_elem fopen n (defines s)), Hs]].
    intros stack. cbn [render]. by rewrite (process_line_directive _ _ _ true d k) by (done || set_solver).
  - exists false, d, (put [NEWLINE] s). split; [|split; [by apply state_put|done]]. intros stack.
    cbn [render]. by rewrite (process_line_directive _ _ _ false d k) by (done || set_solver).
Qed.

Lemma if_steps p n on d k s : state_of on d k s → good_name n = true → (S k < MAX_IF_NESTING)%nat →
  steps_to (IfLine p n) s (S k) (length (defines s)).
Proof.
  intros Hs Hg Hk. destruct (open_block_spec on d k s (if p then found n s else negb (found n s)) Hs Hk)
    as (s1 & E & Hs1 & _ & Hd & _).
  eexists _, d, (put [NEWLINE] s1). split; [|split; [by apply state_put|simpl; by rewrite Hd]].
  intros stack. cbn [render]. rewrite (process_line_directive _ _ _ on d k) by (destruct p; done || set_solver).
  destruct p; simpl; by rewrite E.
Qed.

Lemma endif_steps on d k s : state_of on d (S k) s → steps_to EndifLine s k (length (defines s)).
Proof.
  intros Hs. destruct (lookup_lt_is_Some_2 (output_enable_stack s) k) as [on' Hon'].
  { pose proof (lookup_lt_Some _ _ _ (state_enabled _ _ _ _ Hs)). lia. }
  destruct (close_block_spec on d k s on' Hs Hon') as (s1 & E & Hs1 & _ & Hd & _).
  exists on', d, (put [NEWLINE] s1). split; [|split; [by apply state_put|simpl; by rewrite Hd]].
  intros stack. cbn [render]. rewrite (process_line_endif _ _ _ on d (S k)) by done. by rewrite E.
Qed.

Lemma good_line_one i : good_line i = true → one_line (render i).
Proof.
  destruct i as [t|n|n|p n|]; simpl; intros Hg; [by apply plain_line_one|apply directive_line; [set_solver|done]..| |].
  - apply directive_line; [destruct p; set_solver|done].
  - split; [vm_compute; set_solver|split; [vm_compute; set_solver|simpl; lia]].
Qed.

(** The run over lines ends inside as many blocks as they leave open, and fails
    at the first line that closes too much. *)
Lemma run_lines l : ∀ fuel on d k s n ln, state_of on d k s → Forall (λ i, good_line i = true) l →
  (deepest k l < MAX_IF_NESTING)%nat → (length (defines s) + defined_names l ≤ MAX_DEFINES)%nat →
  let r := process_files (S (length l) + fuel) s [FileDescription (Stream (text (map render l)) false) n ln] in
  match nesting_after k l with
  | Some k' => ∃ s', r = Ret s' ∧ block_nesting s' = k'
  | None => r = Err Aborted
  end.
Proof.
  induction l as [|i l IH]; intros fuel on d k s n ln Hs Hg Hk Hd r.
  { exists s. split; [by destruct fuel|apply Hs]. }
  apply Forall_cons in Hg as [Hi Hg]. pose proof (good_line_one i Hi) as Hone.
  assert (Hstep : ∀ k' room, steps_to i s k' room → (deepest k' l < MAX_IF_NESTING)%nat →
    (room + defined_names l ≤ MAX_DEFINES)%nat →
    match nesting_after k' l with
    | Some k'' => ∃ s', r = Ret s' ∧ block_nesting s' = k''
    | None => r = Err Aborted
    end).
  { intros k' room (on' & d' & s' & Hp & Hs' & Hroom) Hk' Hd'.
    assert (r = process_files (S (length l) + fuel) s' [FileDescription (Stream (text (map render l)) false) n (ln + 1)])
      as -> by (apply process_one_line; done).
    apply (IH fuel on' d' k' s'); [done..|lia]. }
  destruct i as [t|m|m|p m|]; cbn [nesting_after deepest defined_names good_line] in *.
  - apply (Hstep k (length (defines s))); [by apply (text_steps t on d)|done..].
  - apply (Hstep k (S (length (defines s)))); [apply (define_steps m on d); [done..|lia]|done|lia].
  - apply (Hstep k (length (defines s))); [by apply (undefine_steps m on d)|done..].
  - pose proof (deepest_above (S k) l).
    apply (Hstep (S k) (length (defines s))); [apply (if_steps p m on d); [done..|lia]|done..].
  - destruct k as [|k].
    + apply process_one_failure; [done|]. intros stack. cbn [render]. rewrite (process_line_endif _ _ _ on d 0) by done.
      unfold close_block. by rewrite (state_nesting _ _ _ _ Hs).
    + apply (Hstep k (length (defines s))); [by apply (endif_steps on d)|lia|done].
Qed.
End lines_in_order.

(** ** The theorems *)

(** C28: on every system of files the preprocessor ends: there is a number of
    steps after which it has its output or has failed, whatever files are
    included, also when they include themselves. *)
Theorem tpp_ends fopen include_dirs markers defs input :
  ∃ fuel r, r ≠ Err NoFuel ∧ ∀ k, conditional_process fopen include_dirs markers (fuel + k) defs input = r.
Proof.
  unfold conditional_process. destruct (fopen input) as [content|]; [|exists 0%nat, (Err Aborted); done].
  set (s := Tpp defs _ 0 []). set (f := FileDescription _ _ 0).
  destruct (files_end fopen include_dirs markers f s) as (fuel & r & Hr & Hk). exists fuel. destruct r as [s'|e].
  - eexists. split; [|intros k; rewrite Hk, bind_ret; done]. by destruct (_ <? _)%nat.
  - exists (Err e). split; [congruence|]. intros k. by rewrite Hk.
Qed.

(** The state before the first line *)
Lemma initial_state defs : NoDup defs →
  state_of true (list_to_set defs) 0 (Tpp defs (true :: replicate (MAX_IF_NESTING - 1) false) 0 []).
Proof. intros H. split; try done. intros n. simpl. by rewrite elem_of_list_to_set. Qed.

(** A file up to its end *)
Lemma process_end fopen include_dirs markers fuel s n k :
  process_files fopen include_dirs markers (S fuel) s [FileDescription (Stream (text []) false) n k] = Ret s.
Proof. by destruct fuel. Qed.

Lemma meaning_length b : ∀ on d, length (meaning on d b).2 = length (lines b).
Proof.
  induction b as [|t b IH|n b IH|n b IH|p n body IHb b IH]; intros on d; cbn [meaning lines]; [done|..].
  - specialize (IH on d). destruct (meaning _ _ b). simpl in *. congruence.
  - specialize (IH on (if on then {[n]} ∪ d else d)). destruct (meaning _ _ b). simpl in *. congruence.
  - specialize (IH on (if on then d ∖ {[n]} else d)). destruct (meaning _ _ b). simpl in *. congruence.
  - specialize (IHb (eqb (bool_decide (n ∈ d)) p && on) d). destruct (meaning _ _ body) as [d1 l1]. specialize (IH on d1).
    destruct (meaning _ _ b). simpl in *. rewrite !length_app. simpl. congruence.
Qed.

Section balanced.
Context (fopen : cstr → option (list Z)) (include_dirs : list cstr) (markers : bool) (defs : list cstr) (input : cstr) (b : blocks).
Hypothesis blocks_good : good b = true.
Hypothesis blocks_depth : (depth b < MAX_IF_NESTING)%nat.
Hypothesis defs_nodup : NoDup defs.
Hypothesis defs_fit : (length defs + definitions b ≤ MAX_DEFINES)%nat.

(** C21: the output of a file of well-nested blocks has a line for each line of
    the file: the text of the blocks whose conditions hold, given the names that
    are defined there, and empty lines for all the others. *)
Theorem tpp_conditional_blocks fuel : fopen input = Some (text (lines b)) →
  conditional_process fopen include_dirs markers (S (length (lines b)) + fuel) defs input
    = Ret (text (meaning true (list_to_set defs) b).2)
  ∧ length (meaning true (list_to_set defs) b).2 = length (lines b).
Proof.
  intros Hf. split.
  - unfold conditional_process. rewrite Hf.
    destruct (runs_blocks fopen include_dirs markers b _ _ _ _ (initial_state defs defs_nodup) blocks_good) as (s' & [H1 H2 H3] & _); [done|done|].
    rewrite <-(app_nil_r (lines b)) at 2. replace (S (length (lines b)) + fuel)%nat with (length (lines b) + S fuel)%nat by lia.
    rewrite H1, process_end, bind_ret, (state_nesting _ _ _ _ H2), H3. done.
  - apply meaning_length.
Qed.
End balanced.

(** C40: a file of lines of text, definitions, conditions and [!endif]s in any
    order, without included files, is accepted exactly when its blocks are well
    nested: an [!endif] that closes no block, wherever it is, and an [!if] that is
    not closed at the end are errors, and nothing else is.  Blocks are nested at
    most 31 deep and at most 32 names are defined. *)
Theorem tpp_unbalanced_blocks fopen include_dirs markers defs input l fuel :
  Forall (λ i, good_line i = true) l → (deepest 0 l < MAX_IF_NESTING)%nat → NoDup defs →
  (length defs + defined_names l ≤ MAX_DEFINES)%nat → fopen input = Some (text (map render l)) →
  let r := conditional_process fopen include_dirs markers (S (length l) + fuel) defs input in
  if bool_decide (nesting_after 0 l = Some 0%nat) then ∃ out, r = Ret out else r = Err Aborted.
Proof.
  intros Hg Hk Hd Hn Hf. unfold conditional_process. rewrite Hf.
  pose proof (run_lines fopen include_dirs markers l fuel true _ 0 _ (take 511 input) 0 (initial_state defs Hd) Hg Hk Hn)
    as Hr. destruct (nesting_after 0 l) as [k|]; cbn zeta in *.
  - destruct Hr as (s' & -> & <-). rewrite bind_ret. case_bool_decide as E.
    + injection E as ->. by eexists.
    + by destruct (block_nesting s').
  - by rewrite Hr.
Qed.

(** ** Concrete files *)

Definition one_file (content : cstr) (n : cstr) : option (list Z) := if bool_decide (n = bytes "in") then Some content else None.

Definition sample : blocks :=
  Text (bytes "a")
    (If true (bytes "X") (Text (bytes "b") (Define (bytes "Y") (If false (bytes "Y") (Text (bytes "c") Done) Done)))
      (Undefine (bytes "X") (If false (bytes "X") (Text (bytes "d") Done) Done))).

Lemma tpp_conditional_blocks_witness :
  let fopen := one_file (text (lines sample)) in
  (conditional_process fopen [bytes "."] false (S (length (lines sample)) + 0) [bytes "X"] (bytes "in")
    = Ret (text (meaning true (list_to_set [bytes "X"]) sample).2)
  ∧ length (meaning true (list_to_set [bytes "X"]) sample).2 = length (lines sample))
  ∧ (meaning true (list_to_set [bytes "X"]) sample).2
    = map bytes ["a"; ""; "b"; ""; ""; ""; ""; ""; ""; ""; "d"; ""].
Proof.
  split; [|vm_compute; reflexivity].
  apply (tpp_conditional_blocks (one_file (text (lines sample))) [bytes "."] false [bytes "X"] (bytes "in") sample).
  - vm_compute. reflexivity.
  - apply Nat.leb_le. reflexivity.
  - apply NoDup_singleton.
  - apply Nat.leb_le. reflexivity.
  - vm_compute. reflexivity.
Defined.

(** An [!endif] too many inside a file that has an [!if] too many after it, and
    the lines of two blocks *)
Definition crossed : list line_item :=
  [TextLine (bytes "a"); IfLine true (bytes "X"); DefineLine (bytes "Y"); EndifLine; EndifLine;
   IfLine false (bytes "X"); TextLine (bytes "b")].
Definition two_blocks : list line_item :=
  [IfLine true (bytes "X"); IfLine false (bytes "Y"); TextLine (bytes "a"); EndifLine; EndifLine; TextLine (bytes "b")].

Lemma tpp_unbalanced_blocks_witness :
  conditional_process (one_file (text (map render crossed))) [bytes "."] false 8 [bytes "X"] (bytes "in") = Err Aborted ∧
  (∃ out, conditional_process (one_file (text (map render two_blocks))) [bytes "."] false 7 [bytes "X"] (bytes "in") = Ret out) ∧
  conditional_process (one_file (text (map render (two_blocks ++ [IfLine true (bytes "X")])))) [bytes "."] false 8 [bytes "X"]
    (bytes "in") = Err Aborted.
Proof.
  assert (Hg : ∀ l : list line_item, forallb good_line l = true → Forall (λ i, good_line i = true) l).
  { intros l Hl. apply Forall_forall. intros i Hi%list_elem_of_In. by apply (proj1 (forallb_forall _ _) Hl). }
  split; [|split].
  - apply (tpp_unbalanced_blocks _ [bytes "."] false [bytes "X"] (bytes "in") crossed 0); 
      [apply Hg; reflexivity|apply Nat.ltb_lt; reflexivity|apply NoDup_singleton|apply Nat.leb_le; reflexivity|reflexivity].
  - apply (tpp_unbalanced_blocks _ [bytes "."] false [bytes "X"] (bytes "in") two_blocks 0);
      [apply Hg; reflexivity|apply Nat.ltb_lt; reflexivity|apply NoDup_singleton|apply Nat.leb_le; reflexivity|reflexivity].
  - apply (tpp_unbalanced_blocks _ [bytes "."] false [bytes "X"] (bytes "in") (two_blocks ++ [IfLine true (bytes "X")]) 0);
      [apply Hg; reflexivity|apply Nat.ltb_lt; reflexivity|apply NoDup_singleton|apply Nat.leb_le; reflexivity|reflexivity].
Defined.

(** ** Where the code departs from what it means *)

(** The nesting of conditions is not bounded by the array of 32 conditions. *)
Lemma deep_conditions : conditional_process (one_file (text (replicate 32 (directive "if" (bytes "X"))))) [bytes "."] false 40 []
  (bytes "in") = Err Undef.
Proof. vm_compute. reflexivity. Qed.

(** A name that is defined twice on the command line is still defined after it
    is undefined. *)
Lemma undefined_once : let file := text [directive "undefine" (bytes "X"); directive "if" (bytes "X"); bytes "a"; bytes "/*!endif*/"] in
  conditional_process (one_file file) [bytes "."] false 10 [bytes "X"; bytes "X"] (bytes "in") = Ret (text (map bytes [""; ""; "a"; ""])) ∧
  conditional_process (one_file file) [bytes "."] false 10 [bytes "X"] (bytes "in") = Ret (text (map bytes [""; ""; ""; ""])).
Proof. split; vm_compute; reflexivity. Qed.

(** A line of more than 1023 characters that is left out gives two lines. *)
Lemma long_lines_are_two : let file := text [directive "if" (bytes "X"); replicate 1030 65; bytes "/*!endif*/"] in
  conditional_process (one_file file) [bytes "."] false 10 [] (bytes "in") = Ret (text [[]; []; []; []]).
Proof. vm_compute. reflexivity. Qed.

(** A file that includes itself is read until the files are nested too deep. *)
Lemma self_inclusion : let file := text [directive "include" (bytes "in")] in
  conditional_process (λ _, Some file) [bytes "."] false 40 [] (bytes "in") = Err Aborted.
Proof. vm_compute. reflexivity. Qed.

(** Lines of included files come where they are included, with line markers. *)
Lemma included_lines : let files n := if bool_decide (n = bytes "in") then Some (text [directive "include" (bytes "f"); bytes "b"])
    else if bool_decide (n = bytes "d/f") then Some (text [bytes "a"]) else None in
  conditional_process files [bytes "."; bytes "d"] true 10 [] (bytes "in")
  = Ret (line_marker 1 (bytes "d/f") ++ text [bytes "a"] ++ line_marker 2 (bytes "in") ++ text [bytes "b"]).
Proof. vm_compute. reflexivity. Qed.
