(* ===== verification/FortranChars.v ===== *)
(** * The characters of Fortran sources: [frontend/fortran/fortran03-scanner.c]

    The reader under the scanner of free form, which joins continued lines and
    keeps track of strings, Hollerith constants, comments and line markers.  The
    buffer of a file is a list of (signed) characters; the buffer of a string
    has its end after [buffer_size].  A read past the buffer is undefined. *)

From stdpp Require Import list.
From S2P Require Import Prelude CStream.
#[local] Open Scope Z_scope.

(** ** Characters *)

Definition EOF : Z := -1.
Definition RETURN : Z := 13.
Definition TAB : Z := 9.
Definition BLANK : Z := 32.
Definition BANG : Z := 33.
Definition QUOTE : Z := 34.
Definition HASH : Z := 35.
Definition DOLLAR : Z := 36.
Definition AMPERSAND : Z := 38.
Definition APOSTROPHE : Z := 39.

Definition is_blank (c : Z) : bool := (c =? BLANK) || (c =? TAB).
Definition is_newline (c : Z) : bool := (c =? NEWLINE) || (c =? RETURN).
Definition is_letter (c : Z) : bool := ((97 <=? c) && (c <=? 122)) || ((65 <=? c) && (c <=? 90)).
Definition is_decimal_digit (c : Z) : bool := (48 <=? c) && (c <=? 57).

(** The C library leaves the negative characters alone. *)
Definition tolower (c : Z) : Z := if (65 <=? c) && (c <=? 90) then c + 32 else c.

(** A value that is stored into a [char] *)
Definition schar (v : Z) : Z := (v + 128) mod 256 - 128.

(** [strcasecmp] of two strings is 0. *)
Definition same_letters (s1 s2 : cstr) : bool := bool_decide (map tolower s1 = map tolower s2).

(** ** The state of the scanner that the reader uses *)

(** The file, the place in it, and what is known about the characters before;
    [hollerith_length] is [character_context_hollerith_length].  [current_pos]
    is the distance to the start of the buffer. *)
Record scanner := Scanner {
  current_pos : nat; filename : cstr; line : Z; column : Z;
  bol : bool; sentinel : option cstr;
  character_context : bool; character_context_delim : Z; hollerith_length : Z;
  previous_was_letter : bool; in_comment : bool }.

(** [token_location_t]: the file, the line and the column *)
Definition token_location_t : Type := cstr * Z * Z.
Definition current_location (s : scanner) : token_location_t := (filename s, line s, column s).

Definition move (pos : nat) (l c : Z) (s : scanner) : scanner :=
  Scanner pos (filename s) l c (bol s) (sentinel s) (character_context s) (character_context_delim s)
    (hollerith_length s) (previous_was_letter s) (in_comment s).
Definition set_pos (pos : nat) (s : scanner) : scanner := move pos (line s) (column s) s.
Definition set_location (f : cstr) (l c : Z) (s : scanner) : scanner :=
  Scanner (current_pos s) f l c (bol s) (sentinel s) (character_context s) (character_context_delim s)
    (hollerith_length s) (previous_was_letter s) (in_comment s).
Definition set_bol (b : bool) (s : scanner) : scanner :=
  Scanner (current_pos s) (filename s) (line s) (column s) b (sentinel s) (character_context s)
    (character_context_delim s) (hollerith_length s) (previous_was_letter s) (in_comment s).
Definition set_context (context : bool) (delim hollerith : Z) (letter comment : bool) (s : scanner) : scanner :=
  Scanner (current_pos s) (filename s) (line s) (column s) (bol s) (sentinel s) context delim hollerith letter comment.
Definition set_comment (s : scanner) : scanner :=
  set_context (character_context s) (character_context_delim s) (hollerith_length s) (previous_was_letter s) true s.

(** [current_pos++; column++], and a line *)
Definition advance (s : scanner) : scanner := move (S (current_pos s)) (line s) (column s + 1) s.
Definition next_line (s : scanner) : scanner := move (S (current_pos s)) (line s + 1) 1 s.
Definition skip (s : scanner) : scanner := set_pos (S (current_pos s)) s.

(** The configuration that the reader asks *)
Record configuration := Configuration {
  pragma_custom_prefix : list cstr; disable_empty_sentinels : bool; input_column_width : Z }.

Section reader.
Context (config : configuration) (buffer : list Z) (buffer_size : nat).

Definition past_eof (s : scanner) : bool := (buffer_size <=? current_pos s)%nat.

(** [current_pos[0]] *)
Definition current (s : scanner) : res Z :=
  match buffer !! current_pos s with Some c => Ret c | None => Err Undef end.

(** What is left of the file bounds the loops. *)
Definition left (s : scanner) : nat := buffer_size - current_pos s.

(** [while (!past_eof() && p(current_pos[0])) { current_pos++; column++; }] *)
Fixpoint skip_while_ (fuel : nat) (p : Z → bool) (s : scanner) : res scanner :=
  match fuel with
  | O => Ret s
  | S fuel' =>
      if past_eof s then Ret s else
      c ← current s;
      if p c then skip_while_ fuel' p (advance s) else Ret s
  end.
Definition skip_while (p : Z → bool) (s : scanner) : res scanner := skip_while_ (left s) p s.
Definition skip_blanks := skip_while is_blank.
Definition skip_line := skip_while (λ c, negb (is_newline c)).

(** A number: its digits are added to [value], an [int]. *)
Fixpoint read_number_ (fuel : nat) (value : Z) (s : scanner) : res (Z * scanner) :=
  match fuel with
  | O => Ret (value, s)
  | S fuel' =>
      if past_eof s then Ret (value, s) else
      c ← current s;
      if is_decimal_digit c
      then if 2 ^ 31 <=? 10 * value + (c - 48) then Err Undef
           else read_number_ fuel' (10 * value + (c - 48)) (advance s)
      else Ret (value, s)
  end.
Definition read_number (s : scanner) : res (Z * scanner) := read_number_ (left s) 0 s.

(** The characters between two positions *)
Definition text (start final : nat) : cstr := take (final - start) (drop start buffer).

(** What follows ["line"] after its first letter: the characters of [c] that
    are there *)
Fixpoint match_word (c : cstr) (s : scanner) : res (cstr * scanner) :=
  match c with
  | [] => Ret ([], s)
  | x :: c' =>
      if past_eof s then Ret (c, s) else
      y ← current s;
      if x =? y then match_word c' (advance s) else Ret (c, s)
  end.

(** The flags of a line marker; the warnings are left out. *)
Fixpoint skip_flags (fuel : nat) (s : scanner) : res scanner :=
  match fuel with
  | O => Err NoFuel
  | S fuel' =>
      s ← skip_blanks s;
      if past_eof s then Ret s else
      c ← current s;
      if is_newline c then Ret s else
      if is_decimal_digit c then '(_, s) ← read_number s; skip_flags fuel' s
      else Ret s
  end.

(** Over a newline, which may be of two characters; the location is set after. *)
Definition skip_newline (s : scanner) : res scanner :=
  c ← current s;
  if c =? RETURN then
    if past_eof (skip s) then Ret (skip s) else
    c ← current (skip s);
    Ret (if c =? NEWLINE then skip (skip s) else skip s)
  else Ret (skip s).

(** The end of a line marker without a valid file name *)
Definition skip_invalid_marker (s : scanner) : res scanner :=
  s ← skip_line s;
  if past_eof s then Ret s else
  let s := move (current_pos s) (line s + 1) 1 s in
  c ← current s;
  if negb (c =? NEWLINE) then Ret (skip s)
  else
    if past_eof (skip s) then Ret (skip s) else
    c ← current (skip s);
    Ret (if negb (c =? NEWLINE) then skip (skip s) else skip s).

(** The name of the file and the flags, after the opening quote *)
Definition marker_file (linenum : Z) (s : scanner) : res (option scanner) :=
  let start := current_pos s in
  s ← skip_while (λ c, negb (c =? QUOTE) && negb (is_newline c)) s;
  c ← current s;
  if negb (c =? QUOTE) then Ret None else
  if (current_pos s - start =? 1)%nat then Ret None else
  let name := c_string (text start (current_pos s)) in
  s ← skip_flags (S (left (advance s))) (advance s);
  s ← skip_line s;
  s ← (if past_eof s then Ret s else skip_newline s);
  Ret (Some (set_location name linenum 1 s)).

(** The first word and the number of a line marker *)
Definition marker_line (s : scanner) : res (option (Z * scanner)) :=
  s ← skip_blanks s;
  if past_eof s then Ret None else
  c ← current s;
  after ←
    (if c =? 108 then
       '(rest, s) ← match_word [105; 110; 101] (skip s);
       if past_eof s || negb (bool_decide (rest = [])) then Ret None else
       c ← current s;
       if negb (is_blank c) then Ret None else s ← skip_blanks s; Ret (Some s)
     else Ret (Some s));
  match after with
  | None => Ret None
  | Some s =>
      c ← current s;
      if negb (is_decimal_digit c) then Ret None else
      '(linenum, s) ← read_number s;
      Ret (Some (if linenum =? 0 then 1 else linenum, s))
  end.

(** [None] stands for [ROLLBACK] *)
Definition line_marker (s : scanner) : res (option scanner) :=
  m ← marker_line s;
  match m with
  | None => Ret None
  | Some (linenum, s) =>
      s ← skip_blanks s;
      if past_eof s then Ret (Some (move (current_pos s) linenum 1 s)) else
      c ← current s;
      if is_newline c then s ← skip_newline s; Ret (Some (move (current_pos s) linenum 1 s))
      else if c =? QUOTE then marker_file linenum (advance s)
      else s ← skip_invalid_marker s; Ret (Some s)
  end.

(** Whether there was a line marker after the [#] *)
Definition handle_preprocessor_line (s : scanner) : res (bool * scanner) :=
  m ← line_marker s;
  Ret (match m with
       | Some s' => (true, s')
       | None => (false, s)
       end).

(** ** The end of a character *)

(** The letters at a position *)
Fixpoint letters_ (fuel : nat) (pos : nat) : res cstr :=
  match fuel with
  | O => Ret []
  | S fuel' =>
      match buffer !! pos with
      | None => Err Undef
      | Some c => if is_letter c then l ← letters_ fuel' (S pos); Ret (c :: l) else Ret []
      end
  end.

Definition is_known_sentinel_str (s : cstr) : bool := existsb (same_letters s) (pragma_custom_prefix config).

(** Whether the [!] at the current position starts a comment *)
Definition starts_comment (s : scanner) : res bool :=
  let s1 := skip s in
  if past_eof s1 then Ret false else
  c ← current s1;
  if negb (c =? DOLLAR) then Ret true else
  let s2 := skip s1 in
  if past_eof s2 then Ret false else
  c ← current s2;
  if is_blank c then Ret (disable_empty_sentinels config)
  else if is_letter c then
    l ← letters_ (left s2) (current_pos s2);
    Ret (negb (is_known_sentinel_str l))
  else Ret true.

(** The characters of a string *)
Definition in_character (result : Z) (s : scanner) : scanner :=
  if 0 <? hollerith_length s then
    let n := schar (hollerith_length s - 1) in
    set_context (if n =? 0 then false else true) (character_context_delim s) n false (in_comment s) s
  else if result =? character_context_delim s then set_context false 0 (hollerith_length s) false (in_comment s) s
  else set_context true (character_context_delim s) (hollerith_length s) false (in_comment s) s.

(** The characters outside of strings *)
Definition in_code (result : Z) (s : scanner) : scanner :=
  let letter := is_letter result in
  let hollerith := hollerith_length s in
  if is_decimal_digit result then
    let n := if hollerith =? 0 then (if negb (previous_was_letter s) then schar (result - 48) else hollerith)
             else schar (hollerith * 10 + result - 48) in
    set_context false (character_context_delim s) n letter false s
  else if (result =? APOSTROPHE) || (result =? QUOTE) then
    set_context true result hollerith letter false s
  else if (tolower result =? 104) && (0 <? hollerith) then
    set_context true (character_context_delim s) hollerith letter false s
  else set_context false (character_context_delim s) 0 letter false s.

Definition finish_character (result : Z) (s : scanner) : res (Z * scanner) :=
  if negb (is_newline result) then
    s ← (if character_context s then Ret (in_character result s)
         else if in_comment s then Ret s
         else
           let s := in_code result s in
           if result =? BANG then comment ← starts_comment s; Ret (if (comment : bool) then set_comment s else s)
           else Ret s);
    Ret (result, advance s)
  else
    let s := next_line (set_context false (character_context_delim s) 0 (previous_was_letter s) false s) in
    if (result =? RETURN) && negb (past_eof s) then
      c ← current s;
      Ret (result, if c =? NEWLINE then skip s else s)
    else Ret (result, s).

(** ** Continued lines *)

(** [ROLLBACK]: back to the [&] *)
Definition rollback (keep : scanner) (s : scanner) : scanner :=
  set_bol (bol keep) (set_location (filename keep) (line keep) (column keep) (set_pos (current_pos keep) s)).

(** The letters of the sentinel that are at the place, without case *)
Fixpoint match_sentinel (letters : cstr) (s : scanner) : res (cstr * scanner) :=
  match letters with
  | [] => Ret ([], s)
  | x :: letters' =>
      if past_eof s then Ret (letters, s) else
      c ← current s;
      if tolower c =? tolower x then match_sentinel letters' (advance s) else Ret (letters, s)
  end.

(** How an iteration over the lines after a [&] ends: with another line, or at
    the place reached; [do_rollback] is what is to be done then. *)
Inductive continuation := Continue (s : scanner) | Stop (do_rollback : bool) (s : scanner).

(** A [!] when there is a sentinel: a comment, or the sentinel that continues
    the directive *)
Definition continued_sentinel (keep : scanner) (letters : cstr) (s : scanner) : res continuation :=
  if past_eof s then Ret (Stop false s) else
  c ← current s;
  if negb (c =? DOLLAR) then
    s ← skip_line s;
    Ret (if past_eof s then Stop false s else Continue s)
  else
    let s := advance s in
    if past_eof s then Ret (Stop false s) else
    '(rest, s) ← match_sentinel letters s;
    if past_eof s then Ret (Stop false (rollback keep s))
    else if negb (bool_decide (rest = [])) then Ret (Stop true s)
    else s ← skip_blanks s; Ret (Stop false s).

(** The line that is empty at the place *)
Definition empty_line (s : scanner) : res continuation :=
  c ← current s;
  if c =? NEWLINE then Ret (if past_eof (next_line s) then Stop false (next_line s) else Continue (next_line s))
  else
    if past_eof (next_line s) then Ret (Continue (next_line s)) else
    c ← current (next_line s);
    Ret (if c =? NEWLINE
         then if past_eof (skip (next_line s)) then Stop false (skip (next_line s)) else Continue (skip (next_line s))
         else Continue (next_line s)).

(** One iteration: a line with only blanks or only a comment is skipped. *)
Definition continued_line (keep : scanner) (s : scanner) : res continuation :=
  s ← skip_blanks s;
  if past_eof s then Ret (Stop false s) else
  c ← current s;
  if is_newline c then empty_line s
  else if c =? BANG then
    match sentinel s with
    | Some letters => continued_sentinel keep letters (advance s)
    | None => s ← skip_line s; Ret (if past_eof s then Stop false s else Continue s)
    end
  else if c =? HASH then
    let s := advance s in
    if past_eof s then Ret (Stop false s) else
    '(marker, s) ← handle_preprocessor_line s;
    Ret (if (marker : bool) then Continue s else Stop false s)
  else Ret (Stop (bool_decide (is_Some (sentinel s))) s).

Fixpoint continued_lines (fuel : nat) (keep : scanner) (s : scanner) : res (bool * scanner) :=
  match fuel with
  | O => Err NoFuel
  | S fuel' =>
      r ← continued_line keep s;
      match r with
      | Continue s => continued_lines fuel' keep s
      | Stop do_rollback s => Ret (do_rollback, s)
      end
  end.

(** From the [&] to the start of the next line; [None] stands for [ROLLBACK]. *)
Definition end_of_continued (s : scanner) : res (option scanner) :=
  s ← skip_blanks (set_bol false (advance s));
  if past_eof s then Ret None else
  s ←
    (if character_context s then Ret (Some s) else
     c ← current s;
     if c =? BANG then s ← skip_line s; Ret (if past_eof s then None else Some s)
     else Ret (if is_newline c then Some s else None));
  match s with
  | None => Ret None
  | Some s =>
      c ← current s;
      if c =? NEWLINE then Ret (if past_eof (next_line s) then None else Some (next_line s))
      else if c =? RETURN then
        if past_eof (next_line s) then Ret (Some (next_line s)) else
        c ← current (next_line s);
        Ret (if c =? NEWLINE
             then if past_eof (skip (next_line s)) then None else Some (skip (next_line s))
             else Some (next_line s))
      else Ret None
  end.

(** The character after a continuation, and the place before the character that
    [finish_character] is to pass *)
Definition continue_line (s : scanner) : res (option (Z * scanner)) :=
  after ← end_of_continued s;
  match after with
  | None => Ret None
  | Some s' =>
      '(do_rollback, s') ← continued_lines (S (left s')) s s';
      if past_eof s' || (do_rollback : bool) then Ret None else
      c ← current s';
      if c =? AMPERSAND then
        if past_eof (advance s') then Ret None else
        c ← current (advance s'); Ret (Some (c, advance s'))
      else if character_context s' then Ret (Some (c, s'))
      else Ret (Some (BLANK, move (current_pos s' - 1) (line s') (column s' - 1) s'))
  end.

(** [while (result == '&' && !in_comment)] *)
Fixpoint join_lines (fuel : nat) (result : Z) (s : scanner) : res (Z * scanner) :=
  match fuel with
  | O => Err NoFuel
  | S fuel' =>
      if negb (result =? AMPERSAND) || in_comment s then Ret (result, s) else
      next ← continue_line s;
      match next with
      | None => Ret (result, s)
      | Some (result, s) => join_lines fuel' result s
      end
  end.

(** The character, its location and the state after it *)
Definition free_form_get (s : scanner) : res (Z * token_location_t * scanner) :=
  if past_eof s then Ret (EOF, current_location s, s) else
  result ← current s;
  '(result, s) ← join_lines (S (left s)) result s;
  let loc := current_location s in
  '(result, s) ← finish_character result s;
  Ret (result, loc, s).
End reader.
