(* ===== verification/FortranPeek.v ===== *)
(** * The queue of characters that the scanner has peeked
    ([frontend/fortran/fortran03-scanner.c])

    The queue lives in a buffer that is filled from its end to its start and
    grows to the left.  Every run of the operations of the scanner gives the
    answers of a list of pending characters in front of the input. *)

From stdpp Require Import list.
From S2P Require Import Prelude.
#[local] Open Scope Z_scope.

Definition PEEK_INITIAL_SIZE : Z := 16.

Section queue.
Context {loc : Type}.

(** [peek_token_info_t]: a letter and its location *)
Notation item := (Z * loc)%type.

(** [peek_queue_tag]: [front] and [back] are negative offsets from the last
    place.  A place that was never written is [None]. *)
Record peek_queue := PeekQueue { buffer : list (option item); size : Z; front : Z; back : Z }.

(** An [int] *)
Definition int (v : Z) : res Z := if (- 2 ^ 31 <=? v) && (v <? 2 ^ 31) then Ret v else Err Undef.

Definition store (i : Z) (x : option item) (b : list (option item)) : res (list (option item)) :=
  if (0 <=? i) && (i <? Z.of_nat (length b)) then Ret (<[Z.to_nat i := x]> b) else Err Undef.
Definition load (i : Z) (b : list (option item)) : res (option item) :=
  if 0 <=? i then match b !! Z.to_nat i with Some x => Ret x | None => Err Undef end else Err Undef.

(** The buffer of a queue is kept when there is one. *)
Definition peek_init (q : option peek_queue) : peek_queue :=
  match q with
  | None => PeekQueue (replicate (Z.to_nat PEEK_INITIAL_SIZE) None) PEEK_INITIAL_SIZE 0 0
  | Some q => PeekQueue (buffer q) (size q) 0 0
  end.

Definition peek_empty (q : peek_queue) : bool := front q =? back q.
Definition peek_size (q : peek_queue) : Z := front q - back q.

(** [memcpy] to the place [to] of a new buffer of [new_size] items *)
Definition peek_grow (q : peek_queue) : res peek_queue :=
  new_size ← int (size q * 2);
  let to := (new_size - 1) + back q + 1 in
  if (0 <=? to) && (to + size q <=? new_size) && (size q <=? Z.of_nat (length (buffer q))) then
    Ret (PeekQueue (replicate (Z.to_nat to) None ++ take (Z.to_nat (size q)) (buffer q)
                      ++ replicate (Z.to_nat (new_size - to - size q)) None)
           new_size (front q) (back q))
  else Err Undef.

Definition peek_add (c : Z) (l : loc) (q : peek_queue) : res peek_queue :=
  q ← (if (size q - 1) + back q <? 0 then peek_grow q else Ret q);
  b ← store ((size q - 1) + back q) (Some (c, l)) (buffer q);
  back' ← int (back q - 1);
  Ret (PeekQueue b (size q) (front q) back').

Definition peek_take (q : peek_queue) : res peek_queue :=
  if back q =? front q then Err Aborted else
  front' ← int (front q - 1);
  Ret (if back q =? front' then PeekQueue (buffer q) (size q) 0 0
       else PeekQueue (buffer q) (size q) front' (back q)).

(** A place that was never written has no value. *)
Definition peek_get (n : Z) (q : peek_queue) : res item :=
  if ((size q - 1) + front q) - n <? 0 then Err Aborted else
  x ← load (((size q - 1) + front q) - n) (buffer q);
  match x with Some x => Ret x | None => Err Undef end.

(** [while (i < front - n) buffer[size - 1 + i] = buffer[size - 1 + i + 1];] *)
Fixpoint shift_left (fuel : nat) (i final sz : Z) (b : list (option item)) : res (list (option item)) :=
  match fuel with
  | O => Err NoFuel
  | S fuel' =>
      if i <? final then
        x ← load ((sz - 1) + i + 1) b;
        b ← store ((sz - 1) + i) x b;
        shift_left fuel' (i + 1) final sz b
      else Ret b
  end.

Definition peek_insert (n c : Z) (l : loc) (q : peek_queue) : res peek_queue :=
  if ((size q - 1) + front q) - n <? 0 then Err Aborted else
  q ← (if (size q - 1) + back q <? 0 then peek_grow q else Ret q);
  b ← shift_left (S (Z.to_nat (front q - n - back q))) (back q) (front q - n) (size q) (buffer q);
  back' ← int (back q - 1);
  b ← store (((size q - 1) + front q) - n) (Some (c, l)) b;
  Ret (PeekQueue b (size q) (front q) back').

(** ** Reading *)

Context {St : Type} (input_get : St → res (item * St)).

Definition get_loc (q : peek_queue) (st : St) : res (item * (peek_queue * St)) :=
  if negb (peek_empty q) then
    p ← peek_get 0 q;
    q ← peek_take q;
    Ret (p, (q, st))
  else
    '(p, st) ← input_get st;
    Ret (p, (q, st)).

(** [d] more characters *)
Fixpoint peek_more (d : nat) (q : peek_queue) (st : St) : res (peek_queue * St) :=
  match d with
  | O => Ret (q, st)
  | S d' =>
      '(p, st) ← input_get st;
      q ← peek_add p.1 p.2 q;
      peek_more d' q st
  end.

Definition peek_loc (n : Z) (q : peek_queue) (st : St) : res (item * (peek_queue * St)) :=
  let s := peek_size q in
  '(q, st) ← (if s <=? n then d ← int (n - s + 1); peek_more (Z.to_nat d) q st else Ret (q, st));
  p ← peek_get n q;
  Ret (p, (q, st)).
End queue.
Arguments peek_queue : clear implicits.

(** ** The pending characters as a list *)

Section lists.
Context {loc : Type}.
Notation item := (Z * loc)%type.
Notation peek_queue := (peek_queue loc).

(** [A] bounds the additions since the queue was made. *)
Record pending (A : Z) (q : peek_queue) (l : list item) : Prop := {
  pending_size : size q = Z.of_nat (length (buffer q));
  pending_range : 0 < size q ∧ - size q ≤ back q ∧ front q ≤ 0;
  pending_length : front q - back q = Z.of_nat (length l);
  pending_lookup k x : l !! k = Some x → buffer q !! Z.to_nat (size q - 1 + front q - Z.of_nat k) = Some (Some x);
  pending_bound : - back q ≤ A ∧ (size q ≤ PEEK_INITIAL_SIZE ∨ size q ≤ 2 * A) ∧ A < 2 ^ 30 }.

Lemma int_ok v : - 2 ^ 31 ≤ v < 2 ^ 31 → int v = Ret v.
Proof. intros [H1 H2]. unfold int. apply Z.leb_le in H1. apply Z.ltb_lt in H2. by rewrite H1, H2. Qed.

Lemma store_ok i x (b : list (option item)) : 0 ≤ i < Z.of_nat (length b) → store i x b = Ret (<[Z.to_nat i := x]> b).
Proof. intros [H1 H2]. unfold store. apply Z.leb_le in H1. apply Z.ltb_lt in H2. by rewrite H1, H2. Qed.

Lemma load_ok i (b : list (option item)) x : 0 ≤ i → b !! Z.to_nat i = Some x → load i b = Ret x.
Proof. intros H1 H2. unfold load. apply Z.leb_le in H1. by rewrite H1, H2. Qed.

Lemma init_pending : pending 0 (peek_init None) [].
Proof. split; simpl; unfold PEEK_INITIAL_SIZE; [done|lia|done|done|lia]. Qed.

Lemma empty_spec A q l : pending A q l → peek_empty q = bool_decide (l = []).
Proof.
  intros [_ _ Hl _ _]. unfold peek_empty. destruct l as [|x l]; simpl in Hl.
  - rewrite bool_decide_eq_true_2 by done. apply Z.eqb_eq. lia.
  - rewrite bool_decide_eq_false_2 by done. apply Z.eqb_neq. lia.
Qed.

(** [peek_grow], when there is no place left *)
Lemma grow_spec A q l : pending A q l → size q - 1 + back q < 0 →
  ∃ q', peek_grow q = Ret q' ∧ pending A q' l ∧ front q' = front q ∧ back q' = back q ∧ 0 ≤ size q' - 1 + back q'.
Proof.
  intros [Hs (H0 & Hb & Hf) Hl Hk (HA & Hsz & HA')] Hfull. unfold peek_grow, PEEK_INITIAL_SIZE in *.
  assert (Hback : back q = - size q) by lia. rewrite int_ok by lia. rewrite bind_ret.
  replace (size q * 2 - 1 + back q + 1) with (size q) by lia.
  rewrite !(proj2 (Z.leb_le _ _)) by lia. cbn [andb]. eexists. split; [done|].
  replace (size q * 2 - size q - size q) with 0 by lia. cbn [Z.to_nat replicate]. rewrite app_nil_r, take_ge by lia.
  split; [|simpl; lia]. split; simpl; [rewrite length_app, length_replicate; lia|lia|done| |unfold PEEK_INITIAL_SIZE; lia].
  intros k x Hx. pose proof (lookup_lt_Some _ _ _ Hx). rewrite lookup_app_r; rewrite length_replicate; [|lia].
  rewrite <-(Hk k x Hx). f_equal. lia.
Qed.

(** The growth that starts [peek_add] and [peek_insert] *)
Lemma room_spec A q l : pending A q l →
  ∃ q', (if size q - 1 + back q <? 0 then peek_grow q else Ret q) = Ret q' ∧ pending A q' l
  ∧ 0 ≤ size q' - 1 + back q' ∧ front q' = front q ∧ back q' = back q ∧ size q ≤ size q'.
Proof.
  intros H. destruct (Z.ltb_spec (size q - 1 + back q) 0) as [Hlt|Hge]; [|exists q; split; [done|]; split; [done|lia]].
  destruct (grow_spec A q l H Hlt) as (q' & -> & H' & Hf & Hb & Hr). exists q'. split; [done|].
  destruct H, H'. split; [by split|]. split; [done|]. split; [done|]. split; [done|]. lia.
Qed.

Lemma add_spec A q l c lc : pending A q l → A + 1 < 2 ^ 30 →
  ∃ q', peek_add c lc q = Ret q' ∧ pending (A + 1) q' (l ++ [(c, lc)]).
Proof.
  intros H HA. unfold peek_add. destruct (room_spec A q l H) as (q' & -> & [Hs (H0 & Hb & Hf) Hl Hk HB] & Hr & _ & _).
  rewrite bind_ret, store_ok, bind_ret, int_ok, bind_ret by lia. eexists. split; [done|].
  split; simpl; [by rewrite length_insert|lia|rewrite length_app; simpl; lia| |unfold PEEK_INITIAL_SIZE in *; lia].
  intros k x Hx. destruct (decide (k = length l)) as [->|Hne].
  - rewrite lookup_app_r, Nat.sub_diag in Hx by lia. injection Hx as <-.
    rewrite list_lookup_insert_Some. left. split; [|split; [done|lia]]. lia.
  - assert (k < length l)%nat as Hlt.
    { apply lookup_lt_Some in Hx. rewrite length_app in Hx. simpl in Hx. lia. }
    rewrite lookup_app_l in Hx by done. rewrite list_lookup_insert_ne by lia. by apply Hk.
Qed.

Lemma take_spec A q x l : pending A q (x :: l) → ∃ q', peek_take q = Ret q' ∧ pending A q' l.
Proof.
  intros [Hs (H0 & Hb & Hf) Hl Hk HB]. simpl in Hl. unfold peek_take, PEEK_INITIAL_SIZE in *.
  rewrite (proj2 (Z.eqb_neq _ _)), int_ok, bind_ret by lia. eexists. split; [done|].
  destruct (Z.eqb_spec (back q) (front q - 1)) as [E|E].
  - destruct l; simpl in Hl; [|lia]. split; simpl; [done|lia|done|done|unfold PEEK_INITIAL_SIZE; lia].
  - split; simpl; [done|lia|lia| |unfold PEEK_INITIAL_SIZE; lia]. intros k y Hy. rewrite <-(Hk (S k) y Hy). f_equal. lia.
Qed.

Lemma get_spec A q l n x : pending A q l → l !! n = Some x → peek_get (Z.of_nat n) q = Ret x.
Proof.
  intros [Hs (H0 & Hb & Hf) Hl Hk HB] Hx. pose proof (lookup_lt_Some _ _ _ Hx). unfold peek_get.
  rewrite (proj2 (Z.ltb_ge _ _)), (load_ok _ _ (Some x)), bind_ret by (auto || lia). done.
Qed.

(** The loop moves the places between [i] and [final] down by one. *)
Lemma shift_spec fuel sz : ∀ i final (b : list (option item)), (Z.to_nat (final - i) < fuel)%nat →
  0 ≤ sz - 1 + i → sz - 1 + final < Z.of_nat (length b) →
  ∃ b', shift_left fuel i final sz b = Ret b' ∧ length b' = length b
  ∧ ∀ p : nat, b' !! p =
      if bool_decide (sz - 1 + i ≤ Z.of_nat p < sz - 1 + final) then b !! S p else b !! p.
Proof.
  induction fuel as [|fuel IH]; intros i final b Hfuel Hi Hf; [lia|]. cbn [shift_left].
  destruct (Z.ltb_spec i final) as [Hlt|Hge].
  - destruct (lookup_lt_is_Some_2 b (Z.to_nat (sz - 1 + i + 1))) as [x Hx]; [lia|].
    rewrite (load_ok _ _ x), bind_ret, store_ok, bind_ret by (auto || lia).
    destruct (IH (i + 1) final (<[Z.to_nat (sz - 1 + i) := x]> b)) as (b' & -> & Hlen & Hb');
      [lia|lia|by rewrite length_insert|]. exists b'. split; [done|]. rewrite length_insert in Hlen. split; [done|].
    intros p. rewrite Hb'. destruct (decide (Z.of_nat p = sz - 1 + i)) as [E|E].
    + rewrite bool_decide_eq_false_2, bool_decide_eq_true_2 by lia. replace p with (Z.to_nat (sz - 1 + i)) by lia.
      rewrite list_lookup_insert_eq by lia. rewrite <-Hx. f_equal. lia.
    + destruct (decide (sz - 1 + i < Z.of_nat p < sz - 1 + final)).
      * rewrite !bool_decide_eq_true_2 by lia. by rewrite list_lookup_insert_ne by lia.
      * rewrite !bool_decide_eq_false_2 by lia. by rewrite list_lookup_insert_ne by lia.
  - exists b. split; [done|]. split; [done|]. intros p. by rewrite bool_decide_eq_false_2 by lia.
Qed.

Lemma peek_insert_spec A q l n c lc : pending A q l → A + 1 < 2 ^ 30 → (n < length l)%nat →
  ∃ q', peek_insert (Z.of_nat n) c lc q = Ret q' ∧ pending (A + 1) q' (take n l ++ (c, lc) :: drop n l).
Proof.
  intros H HA Hn. unfold peek_insert. rewrite (proj2 (Z.ltb_ge _ _)) by (destruct H; lia).
  destruct (room_spec A q l H) as (q' & -> & [Hs (H0 & Hb & Hf) Hl Hk HB] & Hr & _ & _). rewrite bind_ret.
  unfold PEEK_INITIAL_SIZE in *.
  destruct (shift_spec (S (Z.to_nat (front q' - Z.of_nat n - back q'))) (size q') (back q') (front q' - Z.of_nat n) (buffer q'))
    as (b & -> & Hlen & Hlook); [lia..|]. rewrite bind_ret, int_ok, bind_ret, store_ok, bind_ret by lia.
  eexists. split; [done|]. split; simpl; [by rewrite length_insert, Hlen|lia| | |unfold PEEK_INITIAL_SIZE; lia].
  - rewrite length_app, length_take. cbn [length]. rewrite length_drop. lia.
  - intros k x Hx. assert (Hle : (k ≤ length l)%nat).
    { apply lookup_lt_Some in Hx. rewrite length_app, length_take in Hx. cbn [length] in Hx. rewrite length_drop in Hx. lia. }
    destruct (decide (k = n)) as [->|Hkn].
    + rewrite lookup_app_r, length_take, Nat.min_l, Nat.sub_diag in Hx by (rewrite ?length_take; lia).
      injection Hx as <-. rewrite list_lookup_insert_Some. left. split; [done|]. split; [done|lia].
    + rewrite list_lookup_insert_ne, Hlook by lia. destruct (decide (k < n)%nat).
      * rewrite lookup_app_l, lookup_take_lt in Hx by (rewrite ?length_take; lia).
        rewrite bool_decide_eq_false_2 by lia. by apply Hk.
      * rewrite lookup_app_r, length_take, Nat.min_l in Hx by (rewrite ?length_take; lia).
        destruct (k - n)%nat as [|j] eqn:Ej; [lia|]. simpl in Hx. rewrite lookup_drop in Hx.
        rewrite bool_decide_eq_true_2 by lia. rewrite <-(Hk (n + j)%nat x Hx). f_equal. lia.
Qed.
End lists.

(** ** Runs of the scanner *)

(** Characters are taken with [get_loc] and peeked with [peek_loc]; blanks are
    inserted in front of peeked ones. *)
Inductive operation {loc : Type} := Get | Peek (n : nat) | Insert (n : nat) (c : Z) (l : loc).
Arguments operation : clear implicits.

Section runs.
Context {loc St : Type} (input_get : St → res ((Z * loc) * St)).
Notation item := (Z * loc)%type.

Definition step (o : operation loc) (qs : peek_queue loc * St) : res (list item * (peek_queue loc * St)) :=
  let '(q, st) := qs in
  match o with
  | Get => '(x, qs) ← get_loc input_get q st; Ret ([x], qs)
  | Peek n => '(x, qs) ← peek_loc input_get (Z.of_nat n) q st; Ret ([x], qs)
  | Insert n c l => q ← peek_insert (Z.of_nat n) c l q; Ret ([], (q, st))
  end.

(** [d] characters of the input *)
Fixpoint pull (d : nat) (st : St) : res (list item * St) :=
  match d with
  | O => Ret ([], st)
  | S d' => '(x, st) ← input_get st; '(l, st) ← pull d' st; Ret (x :: l, st)
  end.

(** The same with a list of pending characters *)
Definition step_spec (o : operation loc) (ls : list item * St) : res (list item * (list item * St)) :=
  let '(l, st) := ls in
  match o with
  | Get =>
      match l with
      | x :: l' => Ret ([x], (l', st))
      | [] => '(x, st) ← input_get st; Ret ([x], ([], st))
      end
  | Peek n =>
      '(more, st) ← pull (S n - length l) st;
      match (l ++ more) !! n with Some x => Ret ([x], (l ++ more, st)) | None => Err Undef end
  | Insert n c lc =>
      if (n <? length l)%nat then Ret ([], (take n l ++ (c, lc) :: drop n l, st)) else Err Undef
  end.

Fixpoint run {S} (f : operation loc → S → res (list item * S)) (os : list (operation loc)) (s : S) :
    res (list item * S) :=
  match os with
  | [] => Ret ([], s)
  | o :: os' => '(r, s) ← f o s; '(rs, s) ← run f os' s; Ret (r ++ rs, s)
  end.

(** What an operation may add to the queue *)
Definition cost (o : operation loc) : Z :=
  match o with Get => 0 | Peek n => Z.of_nat n + 1 | Insert _ _ _ => 1 end.
Definition costs (os : list (operation loc)) : Z := foldr Z.add 0 (map cost os).

Lemma pending_more A A' (q : peek_queue loc) l : pending A q l → A ≤ A' < 2 ^ 30 → pending A' q l.
Proof. intros [] ?. split; try done. lia. Qed.

Lemma peek_more_spec d : ∀ A q l st more st', pending A q l → A + Z.of_nat d < 2 ^ 30 →
  pull d st = Ret (more, st') →
  ∃ q', peek_more input_get d q st = Ret (q', st') ∧ pending (A + Z.of_nat d) q' (l ++ more).
Proof.
  induction d as [|d IH]; intros A q l st more st' H HA Hp; cbn [pull peek_more] in *.
  - injection Hp as <- <-. exists q. rewrite app_nil_r, Z.add_0_r. done.
  - apply bind_ret_inv in Hp as ([[c lc] st1] & Hin & Hp). apply bind_ret_inv in Hp as ([m st2] & Hp & [= <- <-]).
    rewrite Hin, bind_ret. cbn beta iota. destruct (add_spec A q l c lc H) as (q1 & Hq & H1); [lia|].
    cbn [fst snd]. rewrite Hq, bind_ret. destruct (IH (A + 1) q1 _ st1 m st2 H1) as (q2 & -> & H2); [lia|done|].
    exists q2. split; [done|]. rewrite <-app_assoc in H2. by replace (A + Z.of_nat (S d)) with (A + 1 + Z.of_nat d) by lia.
Qed.

Lemma step_refines A o q l st r l' st' : pending A q l → A + cost o < 2 ^ 30 →
  step_spec o (l, st) = Ret (r, (l', st')) →
  ∃ q', step o (q, st) = Ret (r, (q', st')) ∧ pending (A + cost o) q' l'.
Proof.
  intros H HA. assert (0 ≤ A) by (destruct H; lia). destruct o as [|n|n c lc]; cbn [step_spec step cost] in *.
  - rewrite Z.add_0_r. unfold get_loc. rewrite (empty_spec A q l H). destruct l as [|x l].
    + intros Hs. apply bind_ret_inv in Hs as ([x st1] & Hin & [= <- <- <-]). rewrite bool_decide_eq_true_2 by done.
      cbn [negb]. rewrite Hin, !bind_ret. by exists q.
    + intros [= <- <- <-]. rewrite bool_decide_eq_false_2 by done. cbn [negb].
      change 0 with (Z.of_nat 0) at 1. rewrite (get_spec A q (x :: l) 0 x) by done.
      destruct (take_spec A q x l H) as (q' & Hq & H'). rewrite bind_ret, Hq, !bind_ret. by exists q'.
  - intros Hs. apply bind_ret_inv in Hs as ([more st1] & Hp & Hs).
    destruct ((l ++ more) !! n) as [x|] eqn:Hx; [|done]. injection Hs as <- <- <-.
    destruct (peek_more_spec (S n - length l) A q l st more st1 H) as (q' & Hq & H'); [lia|done|].
    assert (Hsize : peek_size q = Z.of_nat (length l)) by apply H.
    exists q'. split; [|eapply pending_more; [exact H'|lia]]. unfold peek_loc. rewrite Hsize.
    destruct (Z.leb_spec (Z.of_nat (length l)) (Z.of_nat n)) as [Hle|Hgt].
    + rewrite int_ok, bind_ret by lia. replace (Z.to_nat (Z.of_nat n - Z.of_nat (length l) + 1)) with (S n - length l)%nat by lia.
      rewrite Hq, bind_ret. cbn beta iota. by rewrite (get_spec _ q' _ n x H' Hx).
    + replace (S n - length l)%nat with 0%nat in * by lia. injection Hp as <- <-. injection Hq as <-.
      rewrite app_nil_r in *. rewrite bind_ret. cbn beta iota. by rewrite (get_spec _ q _ n x H Hx).
  - destruct (Nat.ltb_spec n (length l)) as [Hle|]; [|done]. intros [= <- <- <-].
    destruct (peek_insert_spec A q l n c lc H HA Hle) as (q' & -> & H'). rewrite bind_ret. by exists q'.
Qed.

Lemma cost_nonneg o : 0 ≤ cost o.
Proof. destruct o; simpl; lia. Qed.

Lemma costs_nonneg os : 0 ≤ costs os.
Proof. induction os as [|o os IH]; [done|]. pose proof (cost_nonneg o). unfold costs in *. simpl. lia. Qed.

Lemma peek_run_refines os : ∀ A q l st r l' st', pending A q l → A + costs os < 2 ^ 30 →
  run step_spec os (l, st) = Ret (r, (l', st')) →
  ∃ q', run step os (q, st) = Ret (r, (q', st')) ∧ pending (A + costs os) q' l'.
Proof.
  induction os as [|o os IH]; intros A q l st r l' st' H HA Hr; cbn [run] in *.
  - injection Hr as <- <- <-. exists q. split; [done|]. unfold costs. simpl. by rewrite Z.add_0_r.
  - apply bind_ret_inv in Hr as ([r1 [l1 st1]] & Hs & Hr). apply bind_ret_inv in Hr as ([r2 [l2 st2]] & Hr & [= <- <- <-]).
    assert (Hc : costs (o :: os) = cost o + costs os) by done. pose proof (costs_nonneg os).
    destruct (step_refines A o q l st r1 l1 st1 H) as (q1 & -> & H1); [lia|done|]. rewrite bind_ret. cbn beta iota.
    destruct (IH (A + cost o) q1 l1 st1 r2 l2 st2 H1) as (q2 & -> & H2); [lia|done|]. rewrite bind_ret.
    exists q2. split; [done|]. by rewrite Hc, Z.add_assoc.
Qed.
End runs.
