(* ===== verification/FortranSplit.v ===== *)
(** * Splitting of long Fortran lines: [frontend/fortran/fortran03-split.c]

    The Fortran that the compiler writes is split at the column limit of free
    form: statements between their tokens, tokens and directives with a double
    continuation.  The tokens of a line, that [mf03lex] gives, are a parameter;
    the output is returned. *)

From stdpp Require Import list.
From S2P Require Import Prelude CStream FortranChars.
#[local] Open Scope Z_scope.

(** ** Reading lines *)

(** The loop of [read_whole_line]: [str] is the string in the buffer, which is
    made twice as large for every piece. *)
Fixpoint read_pieces (fuel : nat) (str : cstr) (buffer_size : Z) (f : stream) : res (cstr * stream) :=
  match fuel with
  | O => Err NoFuel
  | S fuel' =>
      match last str with
      | None => Err Undef
      | Some c =>
          if negb (c =? NEWLINE) && negb (feof f) then
            if 2 ^ 31 <=? 2 * buffer_size then Err Undef else
            let '(r, f) := fgets buffer_size f in
            match r with
            | None => read_pieces fuel' str (2 * buffer_size) f
            | Some r =>
                if 2 * buffer_size <? Z.of_nat (length str + length r + 1) then Err Undef
                else read_pieces fuel' (str ++ c_string r) (2 * buffer_size) f
            end
          else Ret (str, f)
      end
  end.

Definition read_whole_line (f : stream) : res (option cstr * stream) :=
  let buffer_size := 1024 in
  let '(r, f) := fgets buffer_size f in
  let str := c_string (default [] r) in
  if bool_decide (str = []) then Ret (None, f) else
  '(str, f) ← read_pieces (S (S (length (rest f)))) str buffer_size f;
  Ret (Some str, f).

(** ** Lines *)

(** The blanks at the start *)
Fixpoint trim_left (p : Z → bool) (c : cstr) : cstr :=
  match c with
  | [] => []
  | x :: c' => if p x then trim_left p c' else c
  end.

(** The spaces at the end are cut, from the last one to the first one. *)
Definition trim_right (c : cstr) : cstr := rev (trim_left (Z.eqb BLANK) (rev c)).

Definition trim_right_line (c : cstr) : res cstr :=
  match last c with
  | None => Err Undef
  | Some x =>
      let save_newline := x =? NEWLINE in
      let body := if save_newline then take (length c - 1) c else c in
      Ret (if bool_decide (body = []) then c
           else trim_right body ++ (if save_newline then [NEWLINE] else []))
  end.

Definition check_for_comment (c : cstr) : bool :=
  match trim_left is_blank c with x :: _ => x =? BANG | [] => false end.

(** The prefix of a directive, up to a blank; [None] when it is longer than
    [max_length]. *)
Fixpoint read_prefix (max_length : nat) (c : cstr) : option cstr :=
  match c with
  | [] => Some []
  | x :: c' =>
      if (x =? BLANK) || (x =? TAB) then Some []
      else match max_length with
           | O => None
           | S n => cons x <$> read_prefix n c'
           end
  end.

(** The prefix of a directive of the configuration *)
Definition check_for_construct (config : configuration) (c : cstr) (max_length : nat) : option cstr :=
  match trim_left is_blank c with
  | x :: y :: c' =>
      if (x =? BANG) && (y =? DOLLAR) then
        match read_prefix max_length c' with
        | Some prefix => if is_known_sentinel_str config prefix then Some prefix else None
        | None => None
        end
      else None
  | _ => None
  end.

(** ** Double continuations *)

(** [mark] is written at the last column; the line goes on at column [start]. *)
Fixpoint continuate (mark : cstr) (start : Z) (c : cstr) (width column : Z) : cstr * Z :=
  match c with
  | [] => ([], column)
  | x :: c' =>
      let cut := (column =? width) && negb (x =? NEWLINE) in
      let '(out, final) := continuate mark start c' width ((if cut then start else column) + 1) in
      ((if cut then mark else []) ++ x :: out, final)
  end.

Definition double_continuate : cstr → Z → Z → cstr * Z := continuate [AMPERSAND; NEWLINE; AMPERSAND] 2.

(** [snprintf(prefix_start, 63, "!$%s&", prefix)] *)
Definition prefix_start (prefix : cstr) : cstr := take 62 (BANG :: DOLLAR :: prefix ++ [AMPERSAND]).

Definition double_continuate_construct (prefix : cstr) : cstr → Z → Z → cstr * Z :=
  continuate (AMPERSAND :: NEWLINE :: prefix_start prefix) (1 + Z.of_nat (length (prefix_start prefix))).

(** ** Statements *)

Definition starts_with (t s : cstr) : bool := bool_decide (take (length t) s = t).

(** How far the first occurrence is *)
Fixpoint strstr (s t : cstr) : option nat :=
  if starts_with t s then Some 0%nat
  else match s with
       | [] => None
       | _ :: s' => S <$> strstr s' t
       end.

(** One token: the output, the column and the position after it *)
Definition split_token (width : Z) (token position : cstr) (column : Z) : res (cstr * Z * cstr) :=
  match strstr position token with
  | None => Err Aborted
  | Some blanks =>
      let len := Z.of_nat (length token) in
      let next_column := column + Z.of_nat blanks in
      let cut := (column =? width) || (width <=? next_column + len) in
      let column := (if cut then 1 else column) + Z.of_nat blanks in
      let '(out, column) := if width <=? column + len then double_continuate token width column
                            else (token, column + len) in
      Ret ((if cut then [AMPERSAND; NEWLINE] else []) ++ take blanks position ++ out, column,
           drop (blanks + length token) position)
  end.

Fixpoint split_tokens (width : Z) (tokens : list cstr) (position : cstr) (column : Z) : res cstr :=
  match tokens with
  | [] => Ret [NEWLINE]
  | token :: tokens' =>
      '(out, column, position) ← split_token width token position column;
      out' ← split_tokens width tokens' position column;
      Ret (out ++ out')
  end.

(** ** Files *)

Section lines.
Context (config : configuration) (mf03lex_tokens : cstr → list cstr).

Definition split_line (width : Z) (line : cstr) : res cstr :=
  line ← trim_right_line line;
  if Z.of_nat (length line) <=? width then Ret line else
  match check_for_construct config line 32 with
  | Some prefix => Ret ((double_continuate_construct prefix line width 1).1 ++ [NEWLINE])
  | None =>
      if check_for_comment line then Ret line
      else split_tokens width (mf03lex_tokens line) line 1
  end.

Fixpoint split_lines (fuel : nat) (width : Z) (input : stream) : res cstr :=
  match fuel with
  | O => Err NoFuel
  | S fuel' =>
      '(line, input) ← read_whole_line input;
      match line with
      | None => Ret []
      | Some line =>
          out ← split_line width line;
          out' ← split_lines fuel' width input;
          Ret (out ++ out')
      end
  end.

Definition fortran_split_lines (input : stream) (width : Z) : res cstr :=
  if width <=? 0 then Err Aborted else split_lines (S (length (rest input))) width input.
End lines.
