(* ===== verification/FortranLines.v ===== *)
(** * Fortran lines: files are split line by line, and lines fit

    The buffer of [read_whole_line] is large enough for every line, a file is
    split line by line, and the lines that a statement or a directive is split
    into have at most [width] characters. *)

From stdpp Require Import list.
From S2P Require Import Prelude CStream FortranChars FortranSplit.
#[local] Open Scope Z_scope.

(** ** Files *)

(** A line without its newline *)
Definition one_line (body : cstr) : Prop := NEWLINE ∉ body ∧ 0 ∉ body.

Lemma last_newline body : last (body ++ [NEWLINE]) = Some NEWLINE.
Proof. apply last_snoc. Qed.

(** A part of the line that is in the buffer *)
Lemma last_part k body : NEWLINE ∉ body → (0 < k ≤ length body)%nat → ∃ c, last (take k body) = Some c ∧ c ≠ NEWLINE.
Proof.
  intros H Hk. destruct (take k body) as [|x l] eqn:E.
  { apply (f_equal length) in E. rewrite length_take in E. simpl in E. lia. }
  destruct (last (x :: l)) as [c|] eqn:El; [|apply last_None in El; discriminate]. exists c. split; [done|]. intros ->.
  apply H. apply last_Some in El as [l' El]. rewrite <-E in El. rewrite <-(take_drop k body), El. set_solver.
Qed.

Lemma read_pieces_spec l : ∀ fuel k body buffer_size, one_line body → Z.of_nat (length body) < 2 ^ 29 →
  (S (length body - k) < fuel)%nat → (k ≤ length body)%nat → 1024 ≤ buffer_size → Z.of_nat k ≤ buffer_size ≤ 2 * Z.of_nat k →
  read_pieces fuel (take k body) buffer_size (Stream (drop k body ++ NEWLINE :: l) false)
    = Ret (body ++ [NEWLINE], Stream l false).
Proof.
  induction fuel as [|fuel IH]; intros k body bs [Hn Hz] Hlen Hfuel Hk H1024 Hbs; [lia|]. cbn [read_pieces].
  destruct (last_part k body Hn) as (c & -> & Hc); [lia|]. rewrite (proj2 (Z.eqb_neq _ _)) by done. cbn [negb andb feof rest].
  rewrite (proj2 (Z.leb_gt _ _)) by lia. unfold fgets. cbn [rest feof].
  assert (Hdrop : NEWLINE ∉ drop k body) by (intros H; apply Hn; rewrite <-(take_drop k body); set_solver).
  assert (Hz' : 0 ∉ drop k body) by (intros H; apply Hz; rewrite <-(take_drop k body); set_solver).
  rewrite take_line_spec by done. rewrite length_drop.
  destruct (Nat.ltb_spec (length body - k) (Z.to_nat (bs - 1))) as [Hlt|Hge].
  - rewrite bool_decide_eq_false_2 by (by destruct (drop k body)). cbn [orb].
    rewrite length_take, length_app, length_drop. cbn [length]. rewrite (proj2 (Z.ltb_ge _ _)) by lia.
    rewrite c_string_all by set_solver. rewrite app_assoc, take_drop.
    destruct fuel as [|fuel]; [lia|]. cbn [read_pieces]. by rewrite last_newline.
  - assert (Htake : take (Z.to_nat (bs - 1)) (drop k body) ≠ []).
    { intros E. apply (f_equal length) in E. rewrite length_take, length_drop in E. simpl in E. lia. }
    rewrite bool_decide_eq_false_2 by done. cbn [orb]. rewrite !length_take, length_drop.
    rewrite (proj2 (Z.ltb_ge _ _)) by lia.
    rewrite c_string_all by (intros H; apply Hz'; rewrite <-(take_drop (Z.to_nat (bs - 1)) (drop k body)); set_solver).
    rewrite take_take_drop, drop_drop. apply IH; [done|lia..].
Qed.

Lemma read_whole_line_spec body l : one_line body → Z.of_nat (length body) < 2 ^ 29 →
  read_whole_line (Stream (body ++ NEWLINE :: l) false) = Ret (Some (body ++ [NEWLINE]), Stream l false).
Proof.
  intros [Hn Hz] Hlen. unfold read_whole_line, fgets. cbn [rest feof]. rewrite take_line_spec by done.
  change (Z.to_nat (1024 - 1)) with 1023%nat. destruct (Nat.ltb_spec (length body) 1023) as [Hlt|Hge].
  - assert (Hne : body ++ [NEWLINE] ≠ []) by (by destruct body).
    rewrite (bool_decide_eq_false_2 _ Hne). cbn [default id orb].
    rewrite c_string_all by set_solver. rewrite (bool_decide_eq_false_2 _ Hne).
    cbn [read_pieces].
    rewrite last_newline. done.
  - assert (Htake : take 1023 body ≠ []).
    { intros E. apply (f_equal length) in E. rewrite length_take in E. cbn [length] in E. lia. }
    rewrite (bool_decide_eq_false_2 _ Htake). cbn [default id orb].
    rewrite c_string_all by (intros H; apply Hz; rewrite <-(take_drop 1023 body); set_solver).
    rewrite (bool_decide_eq_false_2 _ Htake).
    rewrite (read_pieces_spec l _ 1023 body 1024); [done|done|lia| |lia..].
    cbn [rest]. rewrite length_app, length_drop. cbn [length]. lia.
Qed.

(** The end of the file *)
Lemma read_end e : read_whole_line (Stream [] e) = Ret (None, Stream [] (e || true)).
Proof. done. Qed.

Section files.
Context (config : configuration) (tokens : cstr → list cstr) (width : Z).

Lemma split_lines_spec bodies outs : ∀ fuel,
  Forall (λ body, one_line body ∧ Z.of_nat (length body) < 2 ^ 29) bodies →
  Forall2 (λ body out, split_line config tokens width (body ++ [NEWLINE]) = Ret out) bodies outs →
  (length bodies < fuel)%nat →
  split_lines config tokens fuel width (Stream (concat (map (λ body, body ++ [NEWLINE]) bodies)) false) = Ret (concat outs).
Proof.
  intros fuel Hb Ho. revert fuel. induction Ho as [|body out bodies outs Hout Ho IH]; intros fuel Hf;
    (destruct fuel as [|fuel]; [simpl in Hf; lia|]); [done|]. apply Forall_cons in Hb as [[H1 H2] Hb].
  cbn [split_lines map concat]. rewrite <-app_assoc. cbn [app].
  rewrite read_whole_line_spec by done. rewrite bind_ret. cbn beta iota. rewrite Hout, bind_ret.
  rewrite IH by (done || simpl in Hf; lia). done.
Qed.

Lemma many_lines (bodies : list cstr) : (length bodies ≤ length (concat (map (λ body, body ++ [NEWLINE]) bodies)))%nat.
Proof. induction bodies as [|b bodies IH]; simpl; [done|]. rewrite !length_app. simpl. lia. Qed.

End files.

(** ** Columns *)

(** The column after a text *)
Definition next_column (column : Z) (c : Z) : Z := if c =? NEWLINE then 1 else column + 1.
Definition end_column (column : Z) (l : cstr) : Z := fold_left next_column l column.

(** No line of a text that starts at a column is longer than [width]. *)
Fixpoint fits (width column : Z) (l : cstr) : bool :=
  match l with
  | [] => true
  | c :: l' => ((c =? NEWLINE) || (column <=? width)) && fits width (next_column column c) l'
  end.

Lemma fits_app w l1 : ∀ column l2, fits w column (l1 ++ l2) = fits w column l1 && fits w (end_column column l1) l2.
Proof. induction l1 as [|c l1 IH]; intros col l2; simpl; [done|]. by rewrite IH, andb_assoc. Qed.

Lemma end_column_app l1 l2 column : end_column column (l1 ++ l2) = end_column (end_column column l1) l2.
Proof. apply fold_left_app. Qed.

Lemma plain_fits w l : ∀ column, NEWLINE ∉ l → column + Z.of_nat (length l) - 1 ≤ w →
  fits w column l = true ∧ end_column column l = column + Z.of_nat (length l).
Proof.
  unfold end_column. induction l as [|c l IH]; intros col H Hw; simpl; [split; [done|lia]|].
  apply not_elem_of_cons in H as [Hc H]. cbn [length] in Hw. unfold next_column at 1 3.
  rewrite (proj2 (Z.eqb_neq _ _)) by congruence. destruct (IH (col + 1) H) as [H1 H2]; [lia|].
  rewrite H1, H2, (proj2 (Z.leb_le _ _)) by lia. split; [done|lia].
Qed.

Lemma mark_fits w mark column : NEWLINE ∉ mark → column ≤ w → Z.of_nat (length mark) ≤ w →
  fits w column (AMPERSAND :: NEWLINE :: mark) = true
  ∧ end_column column (AMPERSAND :: NEWLINE :: mark) = 1 + Z.of_nat (length mark).
Proof.
  intros Hm Hc Hl. destruct (plain_fits w mark 1 Hm) as [H1 H2]; [lia|].
  unfold end_column in *. cbn. rewrite (proj2 (Z.leb_le _ _)), H1, H2 by done. done.
Qed.

(** Double continuations keep to the columns. *)
Lemma continuate_fits w mark start c : ∀ column, NEWLINE ∉ mark → start = 1 + Z.of_nat (length mark) →
  start < w → 1 ≤ column ≤ w → NEWLINE ∉ c →
  fits w column (continuate (AMPERSAND :: NEWLINE :: mark) start c w column).1 = true
  ∧ end_column column (continuate (AMPERSAND :: NEWLINE :: mark) start c w column).1
    = (continuate (AMPERSAND :: NEWLINE :: mark) start c w column).2
  ∧ 1 ≤ (continuate (AMPERSAND :: NEWLINE :: mark) start c w column).2 ≤ w.
Proof.
  induction c as [|x c IH]; intros column Hm Hs Hw Hc Hn; [simpl; by rewrite andb_true_r || (split; [done|split; [done|lia]])|].
  apply not_elem_of_cons in Hn as [Hx Hn]. cbn [continuate].
  rewrite (proj2 (Z.eqb_neq x NEWLINE)) by congruence. cbn [negb]. rewrite andb_true_r.
  destruct (Z.eqb_spec column w) as [->|Hne].
  - destruct (IH (start + 1) Hm Hs Hw ltac:(lia) Hn) as (H1 & H2 & H3).
    destruct (continuate _ start c w (start + 1)) as [out final]. cbn [fst snd] in *.
    destruct (mark_fits w mark w Hm) as [M1 M2]; [lia..|].
    rewrite fits_app, M1, M2, end_column_app, M2, <-Hs. unfold end_column in *. cbn [fits fold_left]. unfold next_column at 1 3.
    rewrite (proj2 (Z.eqb_neq x NEWLINE)) by congruence. rewrite (proj2 (Z.leb_le _ _)), H1 by lia. done.
  - destruct (IH (column + 1) Hm Hs Hw ltac:(lia) Hn) as (H1 & H2 & H3).
    destruct (continuate _ start c w (column + 1)) as [out final]. cbn [fst snd app] in *.
    unfold end_column in *. cbn [fits fold_left]. unfold next_column at 1 3.
    rewrite (proj2 (Z.eqb_neq x NEWLINE)) by congruence. rewrite (proj2 (Z.leb_le _ _)), H1 by lia. done.
Qed.

(** ** Statements *)

(** A line with its tokens and the blanks before each of them; [strstr] finds
    every token after its blanks. *)
Inductive located : list cstr → cstr → list (cstr * cstr) → Prop :=
  | located_nil position : located [] position []
  | located_cons token tokens blanks position pairs :
      strstr (blanks ++ token ++ position) token = Some (length blanks) →
      located tokens position pairs →
      located (token :: tokens) (blanks ++ token ++ position) ((blanks, token) :: pairs).

(** A cut before a token, the column of the token, and the token *)
Definition cut_before (width : Z) (blanks token : cstr) (column : Z) : bool :=
  (column =? width) || (width <=? column + Z.of_nat (length blanks) + Z.of_nat (length token)).
Definition token_column (width : Z) (blanks token : cstr) (column : Z) : Z :=
  (if cut_before width blanks token column then 1 else column) + Z.of_nat (length blanks).
Definition put_token (width : Z) (token : cstr) (column : Z) : cstr * Z :=
  if width <=? column + Z.of_nat (length token) then double_continuate token width column
  else (token, column + Z.of_nat (length token)).
Definition put_cut (cut : bool) : cstr := if cut then [AMPERSAND; NEWLINE] else [].

Lemma split_token_spec w blanks token position column :
  strstr (blanks ++ token ++ position) token = Some (length blanks) →
  split_token w token (blanks ++ token ++ position) column
  = let b := put_token w token (token_column w blanks token column) in
    Ret (put_cut (cut_before w blanks token column) ++ blanks ++ b.1, b.2, position).
Proof.
  intros H. unfold split_token. rewrite H. unfold put_token, token_column, cut_before, put_cut. cbv zeta.
  rewrite take_app_length, app_assoc, <-length_app, drop_app_length.
  by destruct (_ <=? _); [destruct (double_continuate _ _ _)|].
Qed.

(** A token whose column is in the line stays in it. *)
Lemma put_token_fits w token column : NEWLINE ∉ token → 3 ≤ w → 1 ≤ column ≤ w →
  fits w column (put_token w token column).1 = true
  ∧ end_column column (put_token w token column).1 = (put_token w token column).2
  ∧ 1 ≤ (put_token w token column).2 ≤ w.
Proof.
  intros Hn Hw Hc. unfold put_token. destruct (Z.leb_spec w (column + Z.of_nat (length token))) as [H|H].
  - apply (continuate_fits w [AMPERSAND] 2); [set_solver|done|lia..|done].
  - destruct (plain_fits w token column Hn) as [H1 H2]; [lia|]. cbn [fst snd]. rewrite H1, H2. split; [done|]. split; [done|lia].
Qed.

Definition short_blanks (w : Z) (bt : cstr * cstr) : Prop :=
  NEWLINE ∉ bt.1 ∧ NEWLINE ∉ bt.2 ∧ Z.of_nat (length bt.1) + 1 < w.

#[export] Instance short_blanks_dec w bt : Decision (short_blanks w bt).
Proof. unfold short_blanks. apply _. Defined.

Lemma token_fits w blanks token column : short_blanks w (blanks, token) → 3 ≤ w → 1 ≤ column ≤ w →
  let cut := cut_before w blanks token column in
  let column' := token_column w blanks token column in
  fits w column (put_cut cut ++ blanks) = true ∧ end_column column (put_cut cut ++ blanks) = column' ∧ 1 ≤ column' ≤ w.
Proof.
  intros (Hb & Ht & Hlen) Hw Hc. unfold token_column, cut_before, put_cut. cbn [fst snd] in *. cbv zeta.
  destruct (Z.eqb_spec column w) as [E|E]; [|destruct (Z.leb_spec w (column + Z.of_nat (length blanks) + Z.of_nat (length token))) as [H|H]];
    cbn [orb app].
  1,2: destruct (plain_fits w blanks 1 Hb) as [H1 H2]; [lia|]; unfold end_column in *; cbn; rewrite H1, H2;
    rewrite (proj2 (Z.leb_le _ _)) by lia; split; [done|split; [done|lia]].
  destruct (plain_fits w blanks column Hb) as [H1 H2]; [lia|]. rewrite H1, H2. split; [done|split; [done|lia]].
Qed.

Lemma split_tokens_fits w tokens position pairs : located tokens position pairs → 3 ≤ w →
  Forall (short_blanks w) pairs → ∀ column, 1 ≤ column ≤ w →
  ∃ out, split_tokens w tokens position column = Ret out ∧ fits w column out = true.
Proof.
  intros Hl Hw. induction Hl as [|token tokens blanks position pairs Hs Hl IH]; intros Hp column Hc; cbn [split_tokens].
  { exists [NEWLINE]. split; [done|]. done. }
  apply Forall_cons in Hp as [Hb Hp]. rewrite split_token_spec by done. cbv zeta. rewrite bind_ret. cbn beta iota.
  destruct (token_fits w blanks token column Hb Hw Hc) as (H1 & H2 & H3). destruct Hb as (_ & Ht & _).
  destruct (put_token_fits w token _ Ht Hw H3) as (H4 & H5 & H6). destruct (IH Hp _ H6) as (out & -> & H7).
  eexists. split; [done|]. rewrite (app_assoc (put_cut _)), fits_app, fits_app, H1, (end_column_app (_ ++ blanks)), H2, H4, H5, H7. done.
Qed.

(** ** Directives *)

Lemma continuate_newline mark start w c : ∀ column,
  (continuate mark start (c ++ [NEWLINE]) w column).1 = (continuate mark start c w column).1 ++ [NEWLINE].
Proof.
  induction c as [|x c IH]; intros column; cbn [app continuate]; [by rewrite andb_false_r|].
  specialize (IH ((if (column =? w) && negb (x =? NEWLINE) then start else column) + 1)).
  destruct (continuate mark start (c ++ [NEWLINE]) w _), (continuate mark start c w _). cbn [fst] in *.
  by rewrite IH, <-app_assoc.
Qed.

(** The text before the last column is left as it is. *)
Lemma continuate_app mark start w pre c : ∀ column, column + Z.of_nat (length pre) ≤ w →
  (continuate mark start (pre ++ c) w column).1 = pre ++ (continuate mark start c w (column + Z.of_nat (length pre))).1.
Proof.
  induction pre as [|x pre IH]; intros column H; cbn [app continuate]; [by rewrite Z.add_0_r|]. cbn [length] in *.
  rewrite (proj2 (Z.eqb_neq column w)) by lia. cbn [andb app]. specialize (IH (column + 1)).
  destruct (continuate mark start (pre ++ c) w _). cbn [fst] in *. rewrite IH by lia. by replace (column + Z.of_nat (S (length pre))) with (column + 1 + Z.of_nat (length pre)) by lia.
Qed.

Lemma prefix_start_short prefix : (length prefix ≤ 32)%nat → prefix_start prefix = BANG :: DOLLAR :: prefix ++ [AMPERSAND].
Proof. intros H. unfold prefix_start. rewrite take_ge; [done|]. cbn [length]. rewrite length_app. cbn [length]. lia. Qed.

Lemma read_prefix_length n c : ∀ prefix, read_prefix n c = Some prefix → (length prefix ≤ n)%nat.
Proof.
  revert n. induction c as [|x c IH]; intros n prefix H; destruct n as [|n]; cbn [read_prefix] in H.
  1,2: injection H as <-; simpl; lia.
  - destruct (_ || _); [|done]. injection H as <-. simpl. lia.
  - destruct (_ || _); [injection H as <-; simpl; lia|].
    destruct (read_prefix n c) as [p|] eqn:E; [|done]. injection H as <-. apply IH in E. simpl. lia.
Qed.

Lemma check_for_construct_length config c n prefix : check_for_construct config c n = Some prefix → (length prefix ≤ n)%nat.
Proof.
  unfold check_for_construct. destruct (trim_left is_blank c) as [|x [|y c']]; try done. destruct (_ && _); [|done].
  destruct (read_prefix n c') as [p|] eqn:E; [|done]. destruct (is_known_sentinel_str config p); [|done].
  intros [= <-]. by apply (read_prefix_length _ c').
Qed.

Lemma construct_fits w prefix line : NEWLINE ∉ prefix → NEWLINE ∉ line → (length prefix ≤ 32)%nat →
  Z.of_nat (length prefix) + 4 < w →
  fits w 1 ((double_continuate_construct prefix (line ++ [NEWLINE]) w 1).1 ++ [NEWLINE]) = true.
Proof.
  intros Hp Hl H32 Hw. unfold double_continuate_construct. rewrite continuate_newline, prefix_start_short by done.
  set (mark := BANG :: DOLLAR :: prefix ++ [AMPERSAND]).
  assert (Hmark : length mark = (length prefix + 3)%nat) by (unfold mark; cbn [length]; rewrite length_app; simpl; lia).
  destruct (continuate_fits w mark (1 + Z.of_nat (length mark)) line 1) as (H1 & _ & _);
    [unfold mark; set_solver|done|lia..|done|]. rewrite <-app_assoc, fits_app, H1. done.
Qed.

(** ** Looking for the tokens *)

Lemma strstr_found s t : ∀ n, strstr s t = Some n → s = take n s ++ t ++ drop (n + length t) s ∧ (n ≤ length s)%nat.
Proof.
  assert (Hs : ∀ s, starts_with t s = true → s = t ++ drop (length t) s).
  { intros s' H%bool_decide_eq_true. rewrite <-H at 1. by rewrite take_drop. }
  induction s as [|x s IH]; intros n H; cbn [strstr] in H.
  - destruct (starts_with t []) eqn:E; [|done]. injection H as <-. split; [by apply Hs|simpl; lia].
  - destruct (starts_with t (x :: s)) eqn:E; [injection H as <-; split; [by apply Hs|simpl; lia]|].
    destruct (strstr s t) as [k|] eqn:Ek; [|done]. injection H as <-. destruct (IH k eq_refl) as [H1 H2].
    split; [|simpl; lia]. simpl. f_equal. exact H1.
Qed.

(** The blanks before each token *)
Fixpoint locate (tokens : list cstr) (position : cstr) : option (list (cstr * cstr)) :=
  match tokens with
  | [] => Some []
  | token :: tokens' =>
      n ← strstr position token;
      pairs ← locate tokens' (drop (n + length token) position);
      Some ((take n position, token) :: pairs)
  end.

Lemma locate_located tokens : ∀ position pairs, locate tokens position = Some pairs → located tokens position pairs.
Proof.
  induction tokens as [|t tokens IH]; intros position pairs H; cbn [locate] in H; [injection H as <-; constructor|].
  destruct (strstr position t) as [n|] eqn:E; [|done]. cbn [mbind option_bind] in H.
  destruct (locate tokens _) as [pairs'|] eqn:El; [|done]. injection H as <-.
  destruct (strstr_found _ _ _ E) as [Hp Hn]. rewrite Hp at 1. constructor; [|by apply IH].
  rewrite <-Hp, E. f_equal. rewrite length_take. lia.
Qed.
