(* ===== verification/FortranRead.v ===== *)
(** * Reading split lines back

    The reader of free form gives the characters of a statement or a directive
    that was split, with a blank where the line was cut between two tokens. *)

From stdpp Require Import list.
From S2P Require Import Prelude CStream FortranChars FortranSplit FortranLines.
#[local] Open Scope Z_scope.

(** ** What the characters before have left *)

Definition flags (s : scanner) := (sentinel s, character_context s, character_context_delim s, hollerith_length s,
  previous_was_letter s, in_comment s).

(** The state after a character that starts no comment *)
Definition after_char (c : Z) (s : scanner) : scanner := if character_context s then in_character c s else in_code c s.
Definition after_text (l : cstr) (s : scanner) : scanner := fold_left (λ s c, after_char c s) l s.

(** A character of a statement: not an ampersand, an end of line, or an
    exclamation mark outside of a string *)
Definition plain_char (s : scanner) (c : Z) : bool :=
  negb (is_newline c) && negb (c =? AMPERSAND) && (character_context s || negb (c =? BANG)) && negb (in_comment s).

Fixpoint plain_text (s : scanner) (l : cstr) : bool :=
  match l with
  | [] => true
  | c :: l' => plain_char s c && plain_text (after_char c s) l'
  end.

Lemma flags_eq s s' : flags s = flags s' → sentinel s = sentinel s' ∧ character_context s = character_context s'
  ∧ character_context_delim s = character_context_delim s' ∧ hollerith_length s = hollerith_length s'
  ∧ previous_was_letter s = previous_was_letter s' ∧ in_comment s = in_comment s'.
Proof. unfold flags. by intros [= -> -> -> -> -> ->]. Qed.

Lemma after_char_flags c s s' : flags s = flags s' → flags (after_char c s) = flags (after_char c s').
Proof.
  intros (Es & Ec & Ed & Eh & Ep & Em)%flags_eq. unfold after_char, in_character, in_code. rewrite Ec, Eh, Ed, Ep, Em.
  repeat case_match; unfold flags; simpl; congruence.
Qed.

Lemma plain_char_flags c s s' : flags s = flags s' → plain_char s c = plain_char s' c.
Proof. intros (_ & Ec & _ & _ & _ & Em)%flags_eq. unfold plain_char. by rewrite Ec, Em. Qed.

Lemma plain_text_flags l : ∀ s s', flags s = flags s' → plain_text s l = plain_text s' l.
Proof.
  induction l as [|c l IH]; intros s s' H; simpl; [done|]. rewrite (plain_char_flags c s s' H). f_equal.
  by apply IH, after_char_flags.
Qed.

Lemma after_text_flags l : ∀ s s', flags s = flags s' → flags (after_text l s) = flags (after_text l s').
Proof. unfold after_text. induction l as [|c l IH]; intros s s' H; simpl; [done|]. by apply IH, after_char_flags. Qed.

Lemma after_text_app l1 l2 s : after_text (l1 ++ l2) s = after_text l2 (after_text l1 s).
Proof. apply fold_left_app. Qed.

Lemma plain_text_app l1 : ∀ s l2, plain_text s (l1 ++ l2) = plain_text s l1 && plain_text (after_text l1 s) l2.
Proof. induction l1 as [|c l1 IH]; intros s l2; simpl; [done|]. by rewrite IH, andb_assoc. Qed.

Lemma after_char_sentinel c s : sentinel (after_char c s) = sentinel s.
Proof. unfold after_char, in_character, in_code. by repeat case_match. Qed.

Section reading.
Context (config : configuration) (buffer : list Z) (buffer_size : nat).
Hypothesis size_ok : (buffer_size ≤ length buffer)%nat.

Notation past_eof := (past_eof buffer_size).
Notation current := (current buffer).
Notation get := (free_form_get config buffer buffer_size).

(** ** The text ahead *)

Definition ahead (s : scanner) (l : list Z) : Prop :=
  (current_pos s ≤ buffer_size)%nat ∧ drop (current_pos s) (take buffer_size buffer) = l.

Lemma ahead_nil s : ahead s [] → past_eof s = true.
Proof.
  intros [Hp H]. apply (f_equal length) in H. rewrite length_drop, length_take in H. cbn [length] in H.
  unfold FortranChars.past_eof. apply Nat.leb_le. lia.
Qed.

Lemma ahead_length s l : ahead s l → left buffer_size s = length l.
Proof. intros [Hp <-]. unfold left. rewrite length_drop, length_take. lia. Qed.

Lemma ahead_cons s c l : ahead s (c :: l) →
  past_eof s = false ∧ current s = Ret c ∧ ∀ s', current_pos s' = S (current_pos s) → ahead s' l.
Proof.
  intros [Hp H]. assert (Hc : take buffer_size buffer !! current_pos s = Some c).
  { rewrite <-(Nat.add_0_r (current_pos s)), <-lookup_drop, H. done. }
  pose proof (lookup_lt_Some _ _ _ Hc) as Hlt. rewrite length_take in Hlt. split; [|split].
  - unfold FortranChars.past_eof. apply Nat.leb_gt. lia.
  - unfold FortranChars.current. rewrite lookup_take_lt in Hc by lia. by rewrite Hc.
  - intros s' Es. unfold ahead. rewrite Es. split; [lia|]. rewrite <-Nat.add_1_r, <-drop_drop, H. done.
Qed.

Lemma ahead_same s s' l : current_pos s' = current_pos s → ahead s l → ahead s' l.
Proof. unfold ahead. by intros ->. Qed.

(** ** Loops *)

Lemma skip_while_ahead p g : ∀ s x l, ahead s (g ++ x :: l) → forallb p g = true → p x = false →
  ∃ s', skip_while buffer buffer_size p s = Ret s' ∧ ahead s' (x :: l) ∧ flags s' = flags s.
Proof.
  unfold skip_while. induction g as [|y g IH]; intros s x l Ha Hg Hx; rewrite (ahead_length s _ Ha); cbn [app length skip_while_] in *.
  - apply ahead_cons in Ha as Ha'. destruct Ha' as (-> & -> & _). rewrite bind_ret, Hx. by exists s.
  - apply ahead_cons in Ha as (-> & -> & Hnext). apply andb_true_iff in Hg as [Hy Hg]. rewrite bind_ret, Hy.
    destruct (IH (advance s) x l (Hnext (advance s) eq_refl) Hg Hx) as (s' & Hs & Ha' & Hf).
    rewrite (ahead_length (advance s) (g ++ x :: l)) in Hs by by apply Hnext.
    exists s'. split; [exact Hs|]. split; [done|]. exact Hf.
Qed.

Lemma match_sentinel_ahead letters : ∀ prefix s x l, ahead s (prefix ++ x :: l) → map tolower prefix = map tolower letters →
  ∃ s', match_sentinel buffer buffer_size letters s = Ret ([], s') ∧ ahead s' (x :: l) ∧ flags s' = flags s.
Proof.
  induction letters as [|y letters IH]; intros prefix s x l Ha Hp; (destruct prefix as [|z prefix]; [|try discriminate]);
    try discriminate; cbn [match_sentinel app] in *.
  - by exists s.
  - apply ahead_cons in Ha as (-> & -> & Hnext). injection Hp as Hz Hp. rewrite bind_ret, Hz, Z.eqb_refl.
    destruct (IH prefix (advance s) x l (Hnext (advance s) eq_refl) Hp) as (s' & -> & Ha' & Hf). by exists s'.
Qed.

(** ** One character *)

Lemma finish_plain c s l : ahead s (c :: l) ∨ (is_blank c = true ∧ ∀ s', current_pos s' = S (current_pos s) → ahead s' l) →
  plain_char s c = true →
  ∃ s', finish_character config buffer buffer_size c s = Ret (c, s') ∧ ahead s' l ∧ flags s' = flags (after_char c s).
Proof.
  intros Ha (((Hnl & Hamp)%andb_true_iff & Hb)%andb_true_iff & Hcom)%andb_true_iff. unfold finish_character, after_char.
  assert (Hnext : ∀ s', current_pos s' = S (current_pos s) → ahead s' l).
  { destruct Ha as [Ha|[_ Ha]]; [|done]. by apply ahead_cons in Ha as (_ & _ & ?). }
  rewrite Hnl. apply negb_true_iff in Hcom. rewrite Hcom. destruct (character_context s) eqn:Ec; rewrite bind_ret || cbn [orb] in Hb.
  - eexists. split; [done|]. split; [|done]. apply Hnext. unfold in_character. by repeat case_match.
  - apply negb_true_iff in Hb. rewrite Hb, bind_ret. eexists. split; [done|]. split; [|done]. apply Hnext.
    unfold in_code. by repeat case_match.
Qed.

Lemma get_plain s c l : ahead s (c :: l) → plain_char s c = true →
  ∃ loc s', get s = Ret (c, loc, s') ∧ ahead s' l ∧ flags s' = flags (after_char c s).
Proof.
  intros Ha Hp. pose proof Ha as Ha'. apply ahead_cons in Ha' as (He & Hcur & _). unfold free_form_get.
  rewrite He, Hcur, bind_ret. cbn [join_lines].
  assert (c =? AMPERSAND = false) as ->.
  { unfold plain_char in Hp. destruct (c =? AMPERSAND); [|done]. by rewrite !andb_false_r in Hp. }
  cbn [negb orb]. rewrite bind_ret. cbn beta iota zeta.
  destruct (finish_plain c s l (or_introl Ha) Hp) as (s' & -> & ? & ?). rewrite bind_ret. by eexists _, s'.
Qed.

(** ** After a mark *)

(** The character after a mark is read as if the mark was not there. *)
Definition transparent (mark : cstr) (sent : option cstr) : Prop := ∀ s x l,
  ahead s (mark ++ x :: l) → sentinel s = sent → plain_char s x = true →
  ∃ loc s', get s = Ret (x, loc, s') ∧ ahead s' l ∧ flags s' = flags (after_char x s).

Lemma plain_not s c : plain_char s c = true → c ≠ AMPERSAND ∧ is_newline c = false ∧ in_comment s = false.
Proof.
  intros (((Hnl & Ha)%andb_true_iff & _)%andb_true_iff & Hc)%andb_true_iff.
  by apply negb_true_iff in Hnl, Ha, Hc; apply Z.eqb_neq in Ha.
Qed.

(** The end of the line after an ampersand *)
Lemma end_of_continued_ahead s l : ahead s (AMPERSAND :: NEWLINE :: l) → l ≠ [] →
  ∃ s', end_of_continued buffer buffer_size s = Ret (Some s') ∧ ahead s' l ∧ flags s' = flags s.
Proof.
  intros (_ & _ & H1)%ahead_cons Hl. specialize (H1 (set_bol false (advance s)) eq_refl). unfold end_of_continued.
  destruct (skip_while_ahead is_blank [] _ _ _ H1 eq_refl eq_refl) as (s1 & E & Ha & Hf). unfold skip_blanks. rewrite E, bind_ret.
  apply ahead_cons in Ha as (-> & Hc & Hn). rewrite Hc.
  assert ((if character_context s1 then Ret (Some s1) else
    c ← Ret NEWLINE;
    if c =? BANG then s ← skip_line buffer buffer_size s1; Ret (if past_eof s then None else Some s)
    else Ret (if is_newline c then Some s1 else None)) = Ret (Some s1)) as -> by (by destruct (character_context s1)).
  rewrite !bind_ret. cbn beta iota. rewrite ?Hc, ?bind_ret. change (NEWLINE =? NEWLINE) with true. cbn iota. specialize (Hn (next_line s1) eq_refl).
  destruct l as [|y l]; [done|]. apply ahead_cons in Hn as Hn'. destruct Hn' as (-> & _). exists (next_line s1).
  split; [done|]. split; [done|]. exact Hf.
Qed.

(** A line that goes on with an ampersand *)
Lemma continue_ampersand s s' s'' x l : end_of_continued buffer buffer_size s = Ret (Some s') →
  continued_line buffer buffer_size s s' = Ret (Stop false s'') → ahead s'' (AMPERSAND :: x :: l) →
  ∃ s3, continue_line buffer buffer_size s = Ret (Some (x, s3)) ∧ ahead s3 (x :: l) ∧ flags s3 = flags s''.
Proof.
  intros E1 E2 Ha. unfold continue_line. rewrite E1, bind_ret. cbn [continued_lines]. rewrite E2, bind_ret. cbn beta iota. rewrite bind_ret.
  apply ahead_cons in Ha as (-> & -> & Hn). cbn [orb]. rewrite bind_ret. change (AMPERSAND =? AMPERSAND) with true. cbn iota.
  specialize (Hn (advance s'') eq_refl). apply ahead_cons in Hn as Hn'. destruct Hn' as (-> & -> & _). rewrite bind_ret.
  by exists (advance s'').
Qed.

Lemma get_continued s x l s1 s3 : ahead s (AMPERSAND :: l) → continue_line buffer buffer_size s = Ret (Some (x, s3)) →
  plain_char s x = true → flags s3 = flags s →
  ahead s3 (x :: s1) ∨ (is_blank x = true ∧ ∀ s', current_pos s' = S (current_pos s3) → ahead s' s1) →
  ∃ loc s', get s = Ret (x, loc, s') ∧ ahead s' s1 ∧ flags s' = flags (after_char x s).
Proof.
  intros Ha E Hp Hf H3. rewrite (plain_char_flags x s s3 (eq_sym Hf)) in Hp.
  destruct (finish_plain x s3 s1 H3 Hp) as (s' & Hfin & Ha' & Hf'). apply plain_not in Hp as (Hx & _ & Hcom).
  apply flags_eq in Hf as Hf2. destruct Hf2 as (_ & _ & _ & _ & _ & Hcom'). rewrite Hcom in Hcom'.
  unfold free_form_get. rewrite (ahead_length s _ Ha). apply ahead_cons in Ha as (-> & -> & _).
  rewrite bind_ret. cbn [join_lines length]. rewrite <-Hcom'. change (AMPERSAND =? AMPERSAND) with true. cbn [negb orb].
  rewrite E, bind_ret. cbn beta iota. rewrite (proj2 (Z.eqb_neq _ _) Hx). cbn [negb orb]. rewrite bind_ret. cbn beta iota zeta.
  rewrite Hfin, bind_ret. eexists _, s'. split; [done|]. split; [done|]. rewrite Hf'. by apply after_char_flags.
Qed.

Lemma double_continuation_transparent : transparent [AMPERSAND; NEWLINE; AMPERSAND] None.
Proof.
  intros s x l Ha Hs Hp. cbn [app] in Ha. destruct (end_of_continued_ahead s _ Ha) as (s1 & E1 & H1 & F1); [done|].
  destruct (skip_while_ahead is_blank [] _ _ _ H1 eq_refl eq_refl) as (s2 & E2 & H2 & F2).
  assert (Hline : continued_line buffer buffer_size s s1 = Ret (Stop false s2)).
  { unfold continued_line, skip_blanks. rewrite E2, bind_ret. apply ahead_cons in H2 as (-> & -> & _). rewrite bind_ret.
    rewrite F1 in F2. apply flags_eq in F2 as (F2 & _). rewrite F2, Hs. done. }
  destruct (continue_ampersand s s1 s2 x l E1 Hline H2) as (s3 & E3 & H3 & F3).
  apply (get_continued s x _ l s3 Ha E3 Hp); [congruence|by left].
Qed.

Lemma directive_transparent prefix letters : map tolower prefix = map tolower letters →
  transparent (AMPERSAND :: NEWLINE :: BANG :: DOLLAR :: prefix ++ [AMPERSAND]) (Some letters).
Proof.
  intros Hl s x l Ha Hs Hp. cbn [app] in Ha. rewrite <-app_assoc in Ha. cbn [app] in Ha.
  destruct (end_of_continued_ahead s _ Ha) as (s1 & E1 & H1 & F1); [done|].
  destruct (skip_while_ahead is_blank [] _ _ _ H1 eq_refl eq_refl) as (s2 & E2 & H2 & F2).
  pose proof H2 as (N2 & C2 & H3)%ahead_cons. specialize (H3 (advance s2) eq_refl). pose proof H3 as (N3 & C3 & H4)%ahead_cons.
  specialize (H4 (advance (advance s2)) eq_refl).
  destruct (match_sentinel_ahead letters prefix _ _ _ H4 Hl) as (s5 & E5 & H5 & F5).
  destruct (skip_while_ahead is_blank [] _ _ _ H5 eq_refl eq_refl) as (s6 & E6 & H6 & F6).
  assert (N4 : past_eof (advance (advance s2)) = false).
  { destruct prefix; cbn [app] in H4; by apply ahead_cons in H4 as (? & _). }
  assert (Hline : continued_line buffer buffer_size s s1 = Ret (Stop false s6)).
  { unfold continued_line, skip_blanks. rewrite E2, bind_ret, N2, C2, bind_ret. change (is_newline BANG) with false.
    change (BANG =? BANG) with true. cbn iota. rewrite F1 in F2. apply flags_eq in F2 as (F2 & _). rewrite F2, Hs.
    unfold continued_sentinel. rewrite N3, C3, bind_ret. change (DOLLAR =? DOLLAR) with true. cbn [negb]. rewrite N4, E5, bind_ret.
    cbn beta iota. apply ahead_cons in H5 as (-> & _). rewrite bool_decide_eq_true_2 by done. cbn [negb]. unfold skip_blanks.
    by rewrite E6. }
  destruct (continue_ampersand s s1 s6 x l E1 Hline H6) as (s7 & E7 & H7 & F7).
  apply (get_continued s x _ l s7 Ha E7 Hp); [|by left]. rewrite F7, F6, F5. change (flags s2 = flags s). congruence.
Qed.

(** A cut before a token: the blanks of the next line are read as one. *)
Lemma get_cut s blanks x l : ahead s (AMPERSAND :: NEWLINE :: blanks ++ x :: l) → sentinel s = None →
  character_context s = false → in_comment s = false → forallb is_blank blanks = true →
  is_blank x = false → is_newline x = false → x ≠ AMPERSAND → x ≠ BANG → x ≠ HASH →
  ∃ loc s', get s = Ret (BLANK, loc, s') ∧ ahead s' (x :: l) ∧ flags s' = flags (after_char BLANK s).
Proof.
  intros Ha Hs Hc Hm Hb Hx Hn Hamp Hbang Hhash.
  destruct (end_of_continued_ahead s _ Ha) as (s1 & E1 & H1 & F1); [by destruct blanks|].
  destruct (skip_while_ahead is_blank blanks _ _ _ H1 Hb Hx) as (s2 & E2 & H2 & F2).
  pose proof H2 as (N2 & C2 & _)%ahead_cons. rewrite F1 in F2. apply flags_eq in F2 as F. destruct F as (Fs & Fc & _).
  assert (Hpos : (0 < current_pos s2)%nat).
  { pose proof (ahead_length s _ Ha) as L1. pose proof (ahead_length s2 _ H2) as L2. unfold left in *. cbn [length] in *.
    rewrite length_app in L1. cbn [length] in L1. lia. }
  assert (Hline : continued_line buffer buffer_size s s1 = Ret (Stop false s2)).
  { unfold continued_line, skip_blanks. rewrite E2, bind_ret, N2, C2, bind_ret, Hn, (proj2 (Z.eqb_neq _ _) Hbang),
      (proj2 (Z.eqb_neq _ _) Hhash), Fs, Hs. done. }
  assert (Hcl : continue_line buffer buffer_size s
    = Ret (Some (BLANK, move (current_pos s2 - 1) (line s2) (column s2 - 1) s2))).
  { unfold continue_line. rewrite E1, bind_ret. cbn [continued_lines]. rewrite Hline, bind_ret. cbn beta iota. rewrite bind_ret, N2, C2.
    cbn [orb]. rewrite bind_ret, (proj2 (Z.eqb_neq _ _) Hamp), Fc, Hc. done. }
  apply (get_continued s BLANK _ (x :: l) _ Ha Hcl).
  - unfold plain_char. by rewrite Hc, Hm.
  - exact F2.
  - right. split; [done|]. intros s' Es. apply (ahead_same s2); [|done]. rewrite Es. cbn. lia.
Qed.

(** ** Texts *)

(** The next characters *)
Fixpoint gets (n : nat) (s : scanner) : res (cstr * scanner) :=
  match n with
  | O => Ret ([], s)
  | S n' =>
      '(c, _, s) ← get s;
      '(l, s) ← gets n' s;
      Ret (c :: l, s)
  end.

Lemma gets_app s l1 s1 l2 s2 : gets (length l1) s = Ret (l1, s1) → gets (length l2) s1 = Ret (l2, s2) →
  gets (length (l1 ++ l2)) s = Ret (l1 ++ l2, s2).
Proof.
  revert s. induction l1 as [|c l1 IH]; intros s H1 H2; cbn [length app gets] in *; [by injection H1 as ->|].
  destruct (get s) as [[[c' loc] s']|] eqn:E; [|discriminate]. rewrite bind_ret in *. cbn beta iota in *.
  destruct (gets (length l1) s') as [[l3 s3]|] eqn:E1; [|discriminate]. rewrite bind_ret in H1. injection H1 as -> -> ->.
  by rewrite (IH s' E1 H2), bind_ret.
Qed.

Lemma gets_one s c loc s' : get s = Ret (c, loc, s') → gets (length [c]) s = Ret ([c], s').
Proof. intros E. cbn [length gets]. by rewrite E. Qed.

(** A text with double continuations in it *)
Lemma read_continuate mark start w c : ∀ s column l, transparent mark (sentinel s) →
  ahead s ((continuate mark start c w column).1 ++ l) → plain_text s c = true →
  ∃ s', gets (length c) s = Ret (c, s') ∧ ahead s' l ∧ flags s' = flags (after_text c s).
Proof.
  induction c as [|x c IH]; intros s column l Hm Ha Hp; [by exists s|]. cbn [continuate plain_text] in *.
  apply andb_true_iff in Hp as [Hx Hp]. set (cut := (column =? w) && negb (x =? NEWLINE)) in *.
  set (column' := (if cut then start else column) + 1) in *.
  assert (∃ loc s1, get s = Ret (x, loc, s1) ∧ ahead s1 ((continuate mark start c w column').1 ++ l) ∧ flags s1 = flags (after_char x s))
    as (loc & s1 & E1 & H1 & F1).
  { destruct (continuate mark start c w column') as [out final]. cbn [fst] in *. destruct cut.
    - rewrite <-app_assoc in Ha. by apply Hm.
    - by apply get_plain. }
  destruct (IH s1 column' l) as (s2 & E2 & H2 & F2); [|done| |].
  - apply flags_eq in F1 as (-> & _). by rewrite after_char_sentinel.
  - by rewrite (plain_text_flags c s1 _ F1).
  - exists s2. split; [|split; [done|]]; [|exact (eq_trans F2 (after_text_flags c _ _ F1))].
    cbn [length gets]. rewrite E1, bind_ret. cbn beta iota. by rewrite E2, bind_ret.
Qed.

Lemma read_plain c s l : ahead s (c ++ l) → plain_text s c = true →
  ∃ s', gets (length c) s = Ret (c, s') ∧ ahead s' l ∧ flags s' = flags (after_text c s).
Proof.
  revert s. induction c as [|x c IH]; intros s Ha Hp; [by exists s|]. cbn [plain_text app] in *.
  apply andb_true_iff in Hp as [Hx Hp]. destruct (get_plain s x (c ++ l) Ha Hx) as (loc & s1 & E1 & H1 & F1).
  destruct (IH s1 H1) as (s2 & E2 & H2 & F2); [by rewrite (plain_text_flags c s1 _ F1)|].
  exists s2. split; [|split; [done|exact (eq_trans F2 (after_text_flags c _ _ F1))]].
  cbn [length gets]. rewrite E1, bind_ret. cbn beta iota. by rewrite E2, bind_ret.
Qed.

Lemma get_newline s l : ahead s (NEWLINE :: l) → ∃ loc s', get s = Ret (NEWLINE, loc, s') ∧ ahead s' l.
Proof.
  intros (N & C & Hn)%ahead_cons. unfold free_form_get. rewrite N, C, bind_ret. cbn [join_lines].
  change (NEWLINE =? AMPERSAND) with false. cbn [negb orb]. rewrite bind_ret. unfold finish_character.
  change (is_newline NEWLINE) with true. change (NEWLINE =? RETURN) with false. cbn [negb andb]. cbn beta iota zeta.
  rewrite bind_ret. eexists _, _. split; [done|]. by apply Hn.
Qed.

(** ** Statements *)

Lemma read_token w token column : ∀ s l, sentinel s = None → ahead s ((put_token w token column).1 ++ l) → plain_text s token = true →
  ∃ s', gets (length token) s = Ret (token, s') ∧ ahead s' l ∧ flags s' = flags (after_text token s).
Proof.
  intros s l Hs Ha Hp. unfold put_token in Ha. destruct (_ <=? _).
  - apply (read_continuate [AMPERSAND; NEWLINE; AMPERSAND] 2 w token s column l); [rewrite Hs; apply double_continuation_transparent|exact Ha|done].
  - by apply read_plain.
Qed.

Lemma blanks_plain s blanks : forallb is_blank blanks = true → character_context s = false → in_comment s = false →
  plain_text s blanks = true ∧ character_context (after_text blanks s) = false ∧ in_comment (after_text blanks s) = false.
Proof.
  revert s. induction blanks as [|b blanks IH]; intros s Hb Hc Hm; [done|]. apply andb_true_iff in Hb as [Hx Hb]. cbn [plain_text].
  assert (b = BLANK ∨ b = TAB) as Hbt by (unfold is_blank in Hx; apply orb_true_iff in Hx as [?%Z.eqb_eq|?%Z.eqb_eq]; auto).
  assert (plain_char s b = true) as -> by (unfold plain_char; rewrite Hc, Hm; by destruct Hbt as [-> | ->]).
  apply (IH (after_char b s) Hb); unfold after_char; rewrite Hc; unfold in_code; by destruct Hbt as [-> | ->].
Qed.
End reading.

Lemma put_token_head w x token column : column < w → ∃ l, (put_token w (x :: token) column).1 = x :: l.
Proof.
  intros Hc. unfold put_token, double_continuate. destruct (_ <=? _); [|by exists token]. cbn [continuate].
  rewrite (proj2 (Z.eqb_neq _ _)) by lia. destruct (continuate _ _ _ _ _) as [out final]. by exists out.
Qed.

(** A token that may be the first one of a line *)
Definition starts_line (token : cstr) : bool :=
  match token with
  | [] => false
  | x :: _ => negb (is_blank x) && negb (x =? HASH)
  end.

(** The blanks and the tokens of a statement, of which none starts in a string
    or is in a comment, also when the blanks before a token are read as one *)
Fixpoint plain_tokens (s : scanner) (pairs : list (cstr * cstr)) : bool :=
  match pairs with
  | [] => true
  | (blanks, token) :: pairs' =>
      forallb is_blank blanks && negb (character_context s) && negb (in_comment s) && starts_line token
      && plain_text (after_text blanks s) token && plain_tokens (after_text (blanks ++ token) s) pairs'
      && plain_text (after_text [BLANK] s) token && plain_tokens (after_text ([BLANK] ++ token) s) pairs'
  end.

(** What is read of a statement: the blanks before a token, or one blank *)
Inductive joined : list (cstr * cstr) → cstr → Prop :=
  | joined_nil : joined [] []
  | joined_same blanks token pairs text : joined pairs text → joined ((blanks, token) :: pairs) ((blanks ++ token) ++ text)
  | joined_cut blanks token pairs text : joined pairs text → joined ((blanks, token) :: pairs) (([BLANK] ++ token) ++ text).

Lemma plain_tokens_flags pairs : ∀ s s', flags s = flags s' → plain_tokens s pairs = plain_tokens s' pairs.
Proof.
  induction pairs as [|[b t] pairs IH]; intros s s' H; cbn [plain_tokens]; [done|]. pose proof H as (_ & -> & _ & _ & _ & ->)%flags_eq.
  rewrite (plain_text_flags t _ _ (after_text_flags b _ _ H)), (plain_text_flags t _ _ (after_text_flags [BLANK] _ _ H)).
  by rewrite (IH _ _ (after_text_flags (b ++ t) _ _ H)), (IH _ _ (after_text_flags ([BLANK] ++ t) _ _ H)).
Qed.

Lemma after_text_sentinel l : ∀ s, sentinel (after_text l s) = sentinel s.
Proof. unfold after_text. induction l as [|c l IH]; intros s; simpl; [done|]. by rewrite IH, after_char_sentinel. Qed.

Section statements.
Context (config : configuration) (buffer : list Z) (buffer_size : nat).
Hypothesis size_ok : (buffer_size ≤ length buffer)%nat.

Notation gets := (gets config buffer buffer_size).
Notation ahead := (ahead buffer buffer_size).

Lemma read_blanks_token w blanks token column s l :
  short_blanks w (blanks, token) → 3 ≤ w → 1 ≤ column ≤ w → sentinel s = None →
  ahead s ((put_cut (cut_before w blanks token column) ++ blanks) ++ (put_token w token (token_column w blanks token column)).1 ++ l) →
  forallb is_blank blanks = true → character_context s = false → in_comment s = false → starts_line token = true →
  plain_text (after_text blanks s) token = true → plain_text (after_text [BLANK] s) token = true →
  ∃ pre s', (pre = blanks ∨ pre = [BLANK]) ∧ gets (length (pre ++ token)) s = Ret (pre ++ token, s') ∧ ahead s' l
    ∧ flags s' = flags (after_text (pre ++ token) s).
Proof.
  intros (_ & _ & Hlen) Hw Hc Hs Ha Hb Hcx Hm Ht Hp1 Hp2. cbn [fst snd] in Hlen.
  assert (∃ pre s1, (pre = blanks ∨ pre = [BLANK]) ∧ gets (length pre) s = Ret (pre, s1) ∧
    ahead s1 ((put_token w token (token_column w blanks token column)).1 ++ l) ∧ flags s1 = flags (after_text pre s)
    ∧ plain_text (after_text pre s) token = true) as (pre & s1 & Hpre & E1 & H1 & F1 & Hp).
  { unfold token_column in *. destruct (cut_before w blanks token column); cbn [put_cut app] in Ha.
    - destruct token as [|x token]; [done|].
      destruct (put_token_head w x token (1 + Z.of_nat (length blanks))) as [t' Ht']; [lia|]. rewrite Ht' in Ha |- *. cbn [app] in Ha |- *.
      cbn [starts_line] in Ht. apply andb_true_iff in Ht as [Hx Hh]. apply negb_true_iff in Hx, Hh. apply Z.eqb_neq in Hh.
      pose proof Hp2 as [Hpx _]%andb_true_iff. pose proof (plain_not _ _ Hpx) as (Hamp & Hnl & _).
      destruct (get_cut config buffer buffer_size size_ok s blanks x (t' ++ l) Ha Hs Hcx Hm Hb Hx Hnl Hamp) as (loc & s1 & E1 & H1 & F1); [|done|].
      { intros ->. unfold plain_char in Hpx. destruct (blanks_plain s [BLANK] eq_refl Hcx Hm) as (_ & Hc2 & _).
        rewrite Hc2 in Hpx. cbn [orb] in Hpx. by rewrite andb_false_r in Hpx. }
      exists [BLANK], s1. split; [by right|]. split; [by apply (gets_one _ _ _ _ _ loc)|]. done.
    - destruct (blanks_plain s blanks Hb Hcx Hm) as (Hpb & _).
      destruct (read_plain config buffer buffer_size size_ok _ _ _ Ha Hpb) as (s1 & E1 & H1 & F1).
      exists blanks, s1. split; [by left|]. done. }
  destruct (read_token config buffer buffer_size size_ok w token (token_column w blanks token column) s1 l) with (2 := H1) as (s2 & E2 & H2 & F2).
  - apply flags_eq in F1 as (-> & _). by rewrite after_text_sentinel.
  - by rewrite (plain_text_flags token _ _ F1).
  - exists pre, s2. split; [done|]. split; [by apply (gets_app _ _ _ _ _ s1)|]. split; [done|].
    rewrite F2, after_text_app. by apply after_text_flags.
Qed.

Lemma read_tokens w tokens position pairs : located tokens position pairs → 3 ≤ w → Forall (short_blanks w) pairs →
  ∀ column s out l, 1 ≤ column ≤ w → sentinel s = None → plain_tokens s pairs = true →
  split_tokens w tokens position column = Ret out → ahead s (out ++ l) →
  ∃ text s', joined pairs text ∧ gets (length (text ++ [NEWLINE])) s = Ret (text ++ [NEWLINE], s') ∧ ahead s' l.
Proof.
  intros Hl Hw. induction Hl as [|token tokens blanks position pairs Hf Hl IH]; intros Hsh column s out l Hc Hs Hp E Ha.
  { injection E as <-. destruct (get_newline config buffer buffer_size size_ok s l Ha) as (loc & s' & E & Ha').
    exists [], s'. split; [constructor|]. split; [by apply (gets_one _ _ _ _ _ loc)|done]. }
  apply Forall_cons in Hsh as [Hb Hsh]. cbn [split_tokens] in E. rewrite split_token_spec in E by done. cbv zeta in E.
  rewrite bind_ret in E. cbn beta iota in E. cbn [plain_tokens] in Hp.
  destruct (token_fits w blanks token column Hb Hw Hc) as (_ & _ & Hc').
  destruct (put_token_fits w token (token_column w blanks token column)) as (_ & _ & Hc''); [apply Hb|done|done|].
  destruct (split_tokens w tokens position _) as [out'|] eqn:E'; [|discriminate]. rewrite bind_ret in E. injection E as <-.
  apply andb_true_iff in Hp as [((((((Hbl & Hcx)%andb_true_iff & Hm)%andb_true_iff & Hst)%andb_true_iff & Hp1)%andb_true_iff
    & Hr1)%andb_true_iff & Hp2)%andb_true_iff Hr2]. apply negb_true_iff in Hcx, Hm.
  destruct (read_blanks_token w blanks token column s (out' ++ l) Hb Hw Hc Hs) as (pre & s1 & Hpre & E1 & H1 & F1);
    [by rewrite <-!app_assoc in *|done..|].
  destruct (IH Hsh _ s1 out' l Hc'') with (3 := E') as (text & s2 & Hj & E2 & H2); [| |done|].
  - apply flags_eq in F1 as (-> & _). by rewrite after_text_sentinel.
  - rewrite (plain_tokens_flags pairs _ _ F1). by destruct Hpre as [-> | ->].
  - exists ((pre ++ token) ++ text), s2. split; [destruct Hpre as [-> | ->]; by constructor|]. split; [|done].
    rewrite <-app_assoc. by apply (gets_app _ _ _ _ _ s1).
Qed.

(** ** Directives *)

Lemma read_directive w prefix letters body l s column : map tolower prefix = map tolower letters → (length prefix ≤ 32)%nat →
  sentinel s = Some letters → plain_text s body = true →
  ahead s ((double_continuate_construct prefix body w column).1 ++ l) →
  ∃ s', gets (length body) s = Ret (body, s') ∧ ahead s' l ∧ flags s' = flags (after_text body s).
Proof.
  intros Hl H32 Hs Hp Ha. unfold double_continuate_construct in Ha.
  rewrite (prefix_start_short prefix H32) in Ha. eapply (read_continuate config buffer buffer_size size_ok); [|exact Ha|done]. rewrite Hs.
  by apply directive_transparent.
Qed.
End statements.
