(* ===== verification/FortranFixed.v ===== *)
(** * The characters of Fortran sources of fixed form
    ([frontend/fortran/fortran03-scanner.c])

    The reader of fixed form drops blanks and comments, pads strings with blanks
    up to the last column, and joins the lines that are continued; [input_get]
    chooses between the readers of the two forms. *)

From stdpp Require Import list.
From S2P Require Import Prelude CStream FortranChars.
#[local] Open Scope Z_scope.

Definition STAR : Z := 42.
Definition ZERO : Z := 48.
Definition LETTER_C : Z := 99.
Definition LETTER_D : Z := 100.

Inductive lexer_textual_form := LEXER_TEXTUAL_INVALID_FORM | LEXER_TEXTUAL_FREE_FORM | LEXER_TEXTUAL_FIXED_FORM.

Section reader.
Context (config : configuration) (buffer : list Z) (buffer_size : nat).

Notation past_eof := (past_eof buffer_size).
Notation current := (current buffer).
Notation left := (left buffer_size).
Notation skip_line := (skip_line buffer buffer_size).

(** ** Lines that are passed *)

(** [while (!is_newline(current_pos[0]))]: without a test of the end *)
Fixpoint find_newline (fuel : nat) (s : scanner) : res scanner :=
  match fuel with
  | O => Err NoFuel
  | S fuel' =>
      c ← current s;
      if is_newline c then Ret s else find_newline fuel' (advance s)
  end.

(** Over a newline; [None] at the end of the file *)
Definition pass_newline (s : scanner) : res (option scanner) :=
  c ← current s;
  if c =? NEWLINE then Ret (if past_eof (next_line s) then None else Some (next_line s))
  else if c =? RETURN then
    if past_eof (next_line s) then Ret None else
    c ← current (next_line s);
    if c =? NEWLINE
    then Ret (if past_eof (skip (next_line s)) then None else Some (skip (next_line s)))
    else Ret (Some (next_line s))
  else Err Aborted.

(** To the start of the next line *)
Definition pass_line (s : scanner) : res (option scanner) :=
  s ← skip_line s;
  if past_eof s then Ret None else pass_newline s.

(** At most [n] letters; [None] when the file ends before *)
Fixpoint sentinel_letters (n : nat) (s : scanner) : res (option cstr) :=
  match n with
  | O => Ret (Some [])
  | S n' =>
      if past_eof s then Ret None else
      c ← current s;
      if negb (is_letter c) then Ret (Some []) else
      l ← sentinel_letters n' (advance s);
      Ret (option_map (cons c) l)
  end.

(** Whether the comment, after its first character, is a line that must not be
    passed: the file ends, or there is a sentinel.  Also the place after it. *)
Definition stops_at_sentinel (s : scanner) : res (bool * scanner) :=
  if past_eof s then Ret (false, s) else
  c ← current s;
  if negb (c =? DOLLAR) then Ret (false, s) else
  l ← sentinel_letters 3 (advance s);
  match l with
  | None => Ret (true, s)
  | Some l =>
      let stops := (bool_decide (length l = 3%nat) && is_known_sentinel_str config l)
        || (bool_decide (l = [BLANK; BLANK; BLANK]) && negb (disable_empty_sentinels config)) in
      Ret (stops, move (S (current_pos s) + length l) (line s) (column s + 1 + Z.of_nat (length l)) s)
  end.

(** The blanks at the start of a line; a tab in the first column leads to the
    sixth one. *)
Fixpoint skip_field_ (fuel : nat) (s : scanner) : res scanner :=
  match fuel with
  | O => Ret s
  | S fuel' =>
      if past_eof s then Ret s else
      c ← current s;
      if negb (is_blank c) then Ret s
      else if (c =? TAB) && (column s =? 1) then skip_field_ fuel' (move (S (current_pos s)) (line s) 6 s)
      else skip_field_ fuel' (advance s)
  end.
Definition skip_field (s : scanner) : res scanner := skip_field_ (left s) s.

Definition is_comment_letter (c : Z) : bool := (c =? BANG) || (c =? STAR) || (tolower c =? LETTER_C).

(** The lines that are comments or blank are passed; [None] when the file ends
    or a sentinel was met ([can_continue]). *)
Fixpoint comment_lines (fuel : nat) (s : scanner) : res (option scanner) :=
  match fuel with
  | O => Err NoFuel
  | S fuel' =>
      c ← current s;
      let is_debug := tolower c =? LETTER_D in
      if (bool_decide (sentinel s = None) && is_comment_letter c) || is_debug then
        '(stops, s) ← (if is_debug then Ret (false, s) else stops_at_sentinel (advance s));
        if (stops : bool) then Ret None else
        next ← pass_line s;
        match next with
        | None => Ret None
        | Some s => comment_lines fuel' s
        end
      else if is_blank c || is_newline c then
        s' ← skip_field s;
        if past_eof s' then Ret (Some s) else
        c ← current s';
        if ((c =? BANG) && negb (column s' =? 6)) || is_newline c then
          next ← pass_line s';
          match next with
          | None => Ret None
          | Some s => comment_lines fuel' s
          end
        else Ret (Some s)
      else Ret (Some s)
  end.

(** ** Continued lines *)

(** The label field: five blanks, or a tab ([is_tab_form]) *)
Fixpoint label_field (i n : nat) (s : scanner) : res (option (bool * scanner)) :=
  match n with
  | O => Ret (Some (false, s))
  | S n' =>
      if past_eof s then Ret None else
      c ← current s;
      if negb (c =? BLANK) && negb (c =? TAB) then Ret None
      else if (i =? 0)%nat && (c =? TAB) then Ret (Some (true, move (S (current_pos s)) (line s) 6 s))
      else label_field (S i) n' (advance s)
  end.

(** A line without a continuation mark, which is passed when there is nothing
    on it but blanks or a comment *)
Definition unmarked_line (s : scanner) : res (option scanner) :=
  s ← skip_blanks buffer buffer_size s;
  if past_eof s then Ret None else
  c ← current s;
  if is_newline c then Ret (Some s)
  else if c =? BANG then
    s ← skip_line (advance s);
    Ret (if past_eof s then None else Some s)
  else Ret None.

Definition continued_statement (s : scanner) : res (option scanner) :=
  field ← label_field 0 5 s;
  match field with
  | None => Ret None
  | Some (is_tab_form, s) =>
      if past_eof s then Ret None else
      c ← current s;
      if is_newline c then Ret None
      else if (is_tab_form : bool) then
        if negb (is_decimal_digit c) || (c =? ZERO) then Ret None else Ret (Some (advance s))
      else if (c =? ZERO) || (c =? BLANK) || (c =? TAB) then unmarked_line s
      else Ret (Some (advance s))
  end.

(** [n] spaces *)
Fixpoint match_spaces (n : nat) (s : scanner) : res (option scanner) :=
  match n with
  | O => Ret (Some s)
  | S n' =>
      if past_eof s then Ret None else
      c ← current s;
      if negb (c =? BLANK) then Ret None else match_spaces n' (advance s)
  end.

Definition continued_directive (letters : cstr) (s : scanner) : res (option scanner) :=
  let n := length letters in
  if negb (n =? 0)%nat && negb (n =? 3)%nat then Err Aborted else
  c ← current s;
  if negb (is_comment_letter c) then Ret None else
  if past_eof (advance s) then Ret None else
  c ← current (advance s);
  if negb (c =? DOLLAR) then Ret None else
  '(rest, s) ← match_sentinel buffer buffer_size letters (advance (advance s));
  if negb (bool_decide (rest = [])) then Ret None else
  spaces ← match_spaces (5 - (2 + n)) s;
  match spaces with
  | None => Ret None
  | Some s =>
      if past_eof s then Ret None else
      c ← current s;
      if (c =? ZERO) || (c =? BLANK) then Ret None else Ret (Some (advance s))
  end.

(** The end of a line: the place where the statement goes on, if it does
    ([None] stands for [ROLLBACK]) *)
Definition end_of_line (s : scanner) : res (option scanner) :=
  c ← current s;
  s ← (if c =? BANG then find_newline (S (length buffer - current_pos s)) s else Ret s);
  if past_eof s then Ret None else
  next ← pass_newline s;
  match next with
  | None => Ret None
  | Some s =>
      next ← comment_lines (S (left s)) s;
      match next with
      | None => Ret None
      | Some s =>
          match sentinel s with
          | None => continued_statement s
          | Some letters => continued_directive letters s
          end
      end
  end.

(** ** Characters *)

Definition inline_comment (result : Z) (s : scanner) : bool :=
  (result =? BANG) && negb (in_comment s) && negb (character_context s) && negb (column s =? 1) && negb (column s =? 6)
  && (column s <=? input_column_width config).

(** [while (!past_eof())]: the character and its place *)
Fixpoint next_character (fuel : nat) (result : Z) (s : scanner) : res (Z * scanner) :=
  match fuel with
  | O => Err NoFuel
  | S fuel' =>
      if past_eof s then Ret (result, s) else
      result ← current s;
      if is_newline result || inline_comment result s then
        if is_newline result && character_context s && (column s <=? input_column_width config) then
          if (current_pos s =? 0)%nat then Err Undef else Ret (BLANK, set_pos (current_pos s - 1) s)
        else
          next ← end_of_line s;
          match next with
          | None => Ret (result, s)
          | Some s => next_character fuel' result s
          end
      else if input_column_width config <? column s then next_character fuel' result (advance s)
      else if result =? BLANK then
        if character_context s then Ret (result, s) else next_character fuel' result (advance s)
      else if result =? TAB then
        if character_context s then Ret (result, s)
        else next_character fuel' result
               (move (S (current_pos s)) (line s) (if column s <? 6 then column s + 6 else column s + 1) s)
      else if (column s =? 1) && ((tolower result =? LETTER_C) || (tolower result =? LETTER_D) || (result =? STAR)) then
        Ret (BANG, s)
      else if (column s =? 6) && (result =? ZERO) then next_character fuel' result (advance s)
      else Ret (result, s)
  end.

Definition fixed_form_get (s : scanner) : res (Z * token_location_t * scanner) :=
  '(result, s) ← next_character (S (left s)) EOF s;
  let loc := current_location s in
  if past_eof s then Ret (EOF, loc, s) else
  '(result, s) ← finish_character config buffer buffer_size result s;
  Ret (result, loc, s).

Definition input_get (form : lexer_textual_form) (s : scanner) : res (Z * token_location_t * scanner) :=
  match form with
  | LEXER_TEXTUAL_FREE_FORM => free_form_get config buffer buffer_size s
  | LEXER_TEXTUAL_FIXED_FORM => fixed_form_get s
  | LEXER_TEXTUAL_INVALID_FORM => Err Aborted
  end.
End reader.
