(* ===== verification/FortranTotal.v ===== *)
(** * The reader of free form ends

    Without a [#] that could start a line marker, the reader gives a character
    at every place of a file and leaves it for a later one, within the file. *)

From stdpp Require Import list.
From S2P Require Import Prelude CStream FortranChars.
#[local] Open Scope Z_scope.

(** The computation has a result, and the result has a property. *)
Definition gives {A} (P : A → Prop) (m : res A) : Prop :=
  match m with Ret x => P x | Err _ => False end.

Lemma gives_bind {A B} (P : A → Prop) (Q : B → Prop) m (f : A → res B) :
  gives P m → (∀ x, P x → gives Q (f x)) → gives Q (m ≫= f).
Proof. destruct m; [|done]. intros H1 H2. by apply H2. Qed.

Lemma gives_weaken {A} (P Q : A → Prop) m : gives P m → (∀ x, P x → Q x) → gives Q m.
Proof. destruct m; [|done]. intros H1 H2. by apply H2. Qed.

Lemma gives_inv {A} (P : A → Prop) m : gives P m → ∃ x, m = Ret x ∧ P x.
Proof. destruct m; [|done]. intros H. by eexists. Qed.

(** ** Files *)

Section files.
Context (get : scanner → res (Z * token_location_t * scanner)).

(** The characters up to the end of the file *)
Fixpoint read_all (fuel : nat) (s : scanner) : res cstr :=
  match fuel with
  | O => Err NoFuel
  | S fuel' =>
      '(c, _, s) ← get s;
      if c =? EOF then Ret [] else l ← read_all fuel' s; Ret (c :: l)
  end.

Context (invariant : scanner → Prop) (measure : scanner → nat).
Hypothesis get_decreases : ∀ s, invariant s →
  gives (λ r, r.1.1 = EOF ∨ invariant r.2 ∧ (measure r.2 < measure s)%nat) (get s).

Lemma read_all_total fuel : ∀ s, invariant s → (measure s < fuel)%nat →
  gives (λ l, (length l ≤ measure s)%nat) (read_all fuel s).
Proof.
  induction fuel as [|fuel IH]; intros s Hs Hf; [lia|]. cbn [read_all].
  eapply gives_bind; [by apply get_decreases|]. intros [[c loc] s'] H. cbn [fst snd] in H.
  destruct (Z.eqb_spec c EOF) as [->|Hc]; [simpl; lia|]. destruct H as [?|[Hi Hm]]; [done|].
  eapply gives_bind; [apply IH; [done|lia]|]. intros l Hl. simpl in *. lia.
Qed.
End files.

Section total.
Context (config : configuration) (buffer : list Z) (buffer_size : nat).
Hypothesis size_ok : (buffer_size ≤ length buffer)%nat.

Notation past_eof := (past_eof buffer_size).
Notation current := (current buffer).
Notation left := (left buffer_size).

(** From a place to another one of the file *)
Definition from (pos : nat) (s : scanner) : Prop := (pos ≤ current_pos s ≤ buffer_size)%nat.

Lemma not_past s : past_eof s = false ↔ (current_pos s < buffer_size)%nat.
Proof. unfold FortranChars.past_eof. apply Nat.leb_gt. Qed.

Lemma past s : past_eof s = true ↔ (buffer_size ≤ current_pos s)%nat.
Proof. unfold FortranChars.past_eof. apply Nat.leb_le. Qed.

Lemma current_returns s : past_eof s = false → ∃ c, current s = Ret c ∧ buffer !! current_pos s = Some c.
Proof.
  intros H%not_past. unfold FortranChars.current. destruct (lookup_lt_is_Some_2 buffer (current_pos s)) as [c ->]; [lia|].
  by exists c.
Qed.

(** ** Loops *)

Lemma skip_while_total p s : (current_pos s ≤ buffer_size)%nat →
  gives (λ s', from (current_pos s) s' ∧ (past_eof s' = false → ∃ c, current s' = Ret c ∧ p c = false)
    ∧ sentinel s' = sentinel s ∧ column s ≤ column s') (skip_while buffer buffer_size p s).
Proof.
  unfold skip_while. remember (left s) as fuel eqn:E. revert s E. induction fuel as [|fuel IH]; intros s E Hs; cbn [skip_while_].
  - unfold FortranChars.left in E. split; [unfold from; lia|]. split; [|split; [done|lia]]. intros H%not_past. lia.
  - destruct (past_eof s) eqn:N; [split; [unfold from; lia|split; [congruence|split; [done|lia]]]|]. destruct (current_returns s N) as (c & Hc & _).
    apply not_past in N. rewrite Hc, bind_ret. destruct (p c) eqn:Hp; [|split; [unfold from; lia|split; [by exists c|split; [done|lia]]]].
    eapply gives_weaken; [apply (IH (advance s))|]; [unfold FortranChars.left in *; simpl; lia|simpl; lia|].
    intros s' (H1 & H2 & H3 & H4). unfold from in *. simpl in H1, H4. split; [lia|]. split; [done|]. split; [done|lia].
Qed.

Lemma match_sentinel_total letters : ∀ s, (current_pos s ≤ buffer_size)%nat →
  gives (λ r, from (current_pos s) r.2 ∧ sentinel r.2 = sentinel s ∧ column s ≤ column r.2)
    (match_sentinel buffer buffer_size letters s).
Proof.
  induction letters as [|x letters IH]; intros s Hs; cbn [match_sentinel]; [unfold from; simpl; split; [lia|split; [done|lia]]|].
  destruct (past_eof s) eqn:N; [unfold from; simpl; split; [lia|split; [done|lia]]|].
  destruct (current_returns s N) as (c & Hc & _). apply not_past in N.
  rewrite Hc, bind_ret. destruct (_ =? _); [|unfold from; simpl; split; [lia|split; [done|lia]]].
  eapply gives_weaken; [apply (IH (advance s)); simpl; lia|]. intros r (H & H2 & H3). unfold from in *. simpl in H, H2, H3.
  split; [lia|]. split; [done|lia].
Qed.

Lemma letters_total fuel : ∀ pos, (pos + fuel ≤ length buffer)%nat → gives (λ _, True) (letters_ buffer fuel pos).
Proof.
  induction fuel as [|fuel IH]; intros pos Hp; cbn [letters_]; [done|].
  destruct (lookup_lt_is_Some_2 buffer pos) as [c ->]; [lia|]. destruct (is_letter c); [|done].
  eapply gives_bind; [apply IH; lia|]. done.
Qed.

(** ** The end of a character *)

Lemma starts_comment_total s : gives (λ _, True) (starts_comment config buffer buffer_size s).
Proof.
  unfold starts_comment. destruct (past_eof (skip s)) eqn:N; [done|]. destruct (current_returns _ N) as (c & -> & _). rewrite bind_ret.
  destruct (negb _); [done|]. destruct (past_eof (skip (skip s))) eqn:N2; [done|]. destruct (current_returns _ N2) as (c2 & -> & _).
  rewrite bind_ret. destruct (is_blank c2); [done|]. destruct (is_letter c2); [|done].
  eapply gives_bind; [apply letters_total; unfold FortranChars.left; apply not_past in N2; lia|]. done.
Qed.

Lemma in_context_place c s : let s1 := in_character c s in let s2 := in_code c s in
  (current_pos s1 = current_pos s ∧ sentinel s1 = sentinel s ∧ column s1 = column s) ∧
  current_pos s2 = current_pos s ∧ sentinel s2 = sentinel s ∧ column s2 = column s.
Proof. unfold in_character, in_code. by repeat case_match. Qed.

Lemma finish_character_total c s : (current_pos s < buffer_size)%nat →
  gives (λ r, from (S (current_pos s)) r.2 ∧ sentinel r.2 = sentinel s ∧
    if is_newline c then column r.2 = 1 else current_pos r.2 = S (current_pos s) ∧ column r.2 = column s + 1)
    (finish_character config buffer buffer_size c s).
Proof.
  intros Hs. destruct (in_context_place c s) as [P1 P2]. unfold finish_character. destruct (is_newline c); cbn [negb].
  - set (s' := next_line _). assert (Hp : current_pos s' = S (current_pos s) ∧ sentinel s' = sentinel s ∧ column s' = 1) by done.
    destruct (past_eof s') eqn:N; cbn [negb]; [rewrite andb_false_r; cbn [gives snd]; split; [unfold from; lia|by split; apply Hp]|].
    rewrite andb_true_r. destruct (c =? RETURN); [|cbn [gives snd]; split; [unfold from; lia|by split; apply Hp]].
    destruct (current_returns _ N) as (y & -> & _). rewrite bind_ret.
    apply not_past in N. destruct (y =? NEWLINE); (split; [unfold from; simpl in *; lia|by split]).
  - eapply (gives_bind (λ s', current_pos s' = current_pos s ∧ sentinel s' = sentinel s ∧ column s' = column s));
      [|intros s' Hp; split; [unfold from; simpl; lia|split; simpl; [apply Hp|lia]]].
    destruct (character_context s); [done|]. destruct (in_comment s); [done|]. cbv zeta. destruct (c =? BANG); [|done].
    eapply gives_bind; [apply starts_comment_total|]. intros [|] _; done.
Qed.

(** ** Continued lines *)

Context (no_hash : HASH ∉ take buffer_size buffer).

Lemma not_hash s c : past_eof s = false → current s = Ret c → c ≠ HASH.
Proof.
  intros N Hc ->. destruct (current_returns s N) as (x & Hx & Hl). rewrite Hc in Hx. injection Hx as <-. apply not_past in N.
  apply no_hash. apply (list_elem_of_lookup_2 _ (current_pos s)). by rewrite lookup_take_lt.
Qed.

(** A line was passed, or this one is the last. *)
Definition goes_on (keep s : scanner) (r : continuation) : Prop :=
  match r with
  | Continue s' => from (S (current_pos s)) s'
  | Stop _ s' => from (current_pos s) s' ∨ current_pos s' = current_pos keep
  end.

Lemma empty_line_total keep s : past_eof s = false → gives (goes_on keep s) (empty_line buffer buffer_size s).
Proof.
  intros N. unfold empty_line. destruct (current_returns s N) as (c & -> & _). rewrite bind_ret. apply not_past in N.
  assert (Hp : current_pos (next_line s) = S (current_pos s)) by done.
  destruct (c =? NEWLINE).
  - destruct (past_eof (next_line s)); cbn [gives goes_on]; [left|]; unfold from; lia.
  - destruct (past_eof (next_line s)) eqn:N2; [cbn [gives goes_on]; unfold from; lia|].
    destruct (current_returns _ N2) as (c2 & -> & _). rewrite bind_ret. apply not_past in N2.
    assert (Hp2 : current_pos (skip (next_line s)) = S (S (current_pos s))) by done.
    destruct (c2 =? NEWLINE); [destruct (past_eof (skip (next_line s)))|]; cbn [gives goes_on]; try left; unfold from; lia.
Qed.

Lemma skip_line_total keep s0 s : (current_pos s0 < current_pos s ≤ buffer_size)%nat →
  gives (goes_on keep s0) (s ← skip_line buffer buffer_size s; Ret (if past_eof s then Stop false s else Continue s)).
Proof.
  intros Hs. eapply gives_bind; [apply skip_while_total; lia|]. intros s' (H1 & _). unfold from in H1.
  destruct (past_eof s'); cbn [gives goes_on]; [left|]; unfold from; lia.
Qed.

Lemma continued_sentinel_total keep letters s0 s : (current_pos s0 < current_pos s ≤ buffer_size)%nat →
  gives (goes_on keep s0) (continued_sentinel buffer buffer_size keep letters s).
Proof.
  intros Hs. unfold continued_sentinel. destruct (past_eof s) eqn:N; [left; unfold from; lia|].
  destruct (current_returns _ N) as (c & -> & _). rewrite bind_ret. apply not_past in N.
  destruct (negb _); [by apply skip_line_total|]. assert (Hp : current_pos (advance s) = S (current_pos s)) by done.
  destruct (past_eof (advance s)) eqn:N2; [left; unfold from; lia|]. apply not_past in N2.
  eapply gives_bind; [apply match_sentinel_total; lia|]. intros [rest s'] [H _]. unfold from in H. simpl in H.
  destruct (past_eof s'); [by right|]. destruct (negb _); [left; unfold from; lia|].
  eapply gives_bind; [apply skip_while_total; lia|]. intros s2 (H2 & _). unfold from in H2. left. unfold from. lia.
Qed.

Lemma continued_line_total keep s : (current_pos s ≤ buffer_size)%nat →
  gives (goes_on keep s) (continued_line buffer buffer_size keep s).
Proof.
  intros Hs. unfold continued_line. eapply gives_bind; [apply skip_while_total; lia|]. intros s1 (H1 & _ & _). unfold from in H1.
  assert (Hw : ∀ r, goes_on keep s1 r → goes_on keep s r) by (unfold goes_on, from; intros []; lia).
  destruct (past_eof s1) eqn:N; [left; unfold from; lia|]. destruct (current_returns _ N) as (c & Hc & _). rewrite Hc, bind_ret.
  pose proof (not_hash s1 c N Hc) as Hh. destruct (is_newline c) eqn:Hnl; [eapply gives_weaken; [by apply empty_line_total|done]|].
  apply not_past in N. destruct (c =? BANG).
  - destruct (sentinel s1) as [letters|].
    + eapply gives_weaken; [apply (continued_sentinel_total _ _ s1); simpl; lia|done].
    + eapply gives_bind; [apply skip_while_total; lia|]. intros s2 (H2 & H3 & _). unfold from in H2.
      destruct (past_eof s2) eqn:N2; [left; unfold from; lia|]. cbn [gives goes_on].
      assert (current_pos s2 ≠ current_pos s1); [|unfold from; lia]. intros E. destruct (H3 eq_refl) as (c2 & Hc2 & Hn2).
      unfold FortranChars.current in Hc, Hc2. rewrite E, Hc in Hc2. injection Hc2 as <-. by rewrite Hnl in Hn2.
  - rewrite (proj2 (Z.eqb_neq _ _) Hh). left. unfold from. lia.
Qed.

Lemma continued_lines_total keep fuel : ∀ s, (current_pos s ≤ buffer_size)%nat → (left s < fuel)%nat →
  gives (λ r, from (current_pos s) r.2 ∨ current_pos r.2 = current_pos keep)
    (continued_lines buffer buffer_size fuel keep s).
Proof.
  induction fuel as [|fuel IH]; intros s Hs Hf; [lia|]. cbn [continued_lines].
  eapply gives_bind; [by apply continued_line_total|]. intros [s'|b s'] H; [|exact H]. cbn [goes_on] in H. unfold from in H.
  eapply gives_weaken; [apply IH; unfold FortranChars.left in *; lia|]. cbn beta. unfold from. lia.
Qed.

(** The start of the next line is after the ampersand and a newline. *)
Lemma end_of_continued_total s : (current_pos s < buffer_size)%nat →
  gives (λ r, match r with Some s' => from (S (S (current_pos s))) s' | None => True end) (end_of_continued buffer buffer_size s).
Proof.
  intros Hs. unfold end_of_continued. eapply gives_bind; [apply skip_while_total; simpl; lia|]. intros s1 (H1 & _). unfold from in H1.
  simpl in H1. destruct (past_eof s1) eqn:N; [done|]. destruct (current_returns _ N) as (c & Hc & _).
  eapply (gives_bind (λ r, match r with Some s' => from (S (current_pos s)) s' ∧ past_eof s' = false | None => True end)).
  { destruct (character_context s1); [split; [unfold from; lia|done]|]. rewrite Hc, bind_ret. destruct (c =? BANG).
    - eapply gives_bind; [apply skip_while_total; lia|]. intros s2 (H2 & _). unfold from in H2.
      destruct (past_eof s2) eqn:N2; [done|]. split; [unfold from; lia|done].
    - destruct (is_newline c); [split; [unfold from; lia|done]|done]. }
  intros [s2|] H; [|done]. destruct H as [H2 N2]. unfold from in H2. destruct (current_returns _ N2) as (c2 & -> & _). rewrite bind_ret.
  apply not_past in N2. assert (Hp : current_pos (next_line s2) = S (current_pos s2)) by done.
  destruct (c2 =? NEWLINE); [destruct (past_eof (next_line s2)); [done|]; cbn [gives]; unfold from; lia|].
  destruct (c2 =? RETURN); [|done]. destruct (past_eof (next_line s2)) eqn:N3; [cbn [gives]; unfold from; lia|].
  destruct (current_returns _ N3) as (c3 & -> & _). rewrite bind_ret. apply not_past in N3.
  assert (Hp2 : current_pos (skip (next_line s2)) = S (S (current_pos s2))) by done.
  destruct (c3 =? NEWLINE); [destruct (past_eof (skip (next_line s2))); [done|]|]; cbn [gives]; unfold from; lia.
Qed.

(** A continuation goes on after the ampersand, at a place of the file; another
    ampersand is the character of that place. *)
Lemma continue_line_total s : (current_pos s < buffer_size)%nat → current s = Ret AMPERSAND →
  gives (λ r, match r with
                | Some (c, s') => (current_pos s < current_pos s' < buffer_size)%nat ∧ (c = AMPERSAND → current s' = Ret AMPERSAND)
                | None => True
                end) (continue_line buffer buffer_size s).
Proof.
  intros Hs Hamp. unfold continue_line. eapply gives_bind; [by apply end_of_continued_total|]. intros [s1|] H1; [|done].
  unfold from in H1. eapply gives_bind; [apply continued_lines_total; lia|]. intros [b s2] H2. unfold from in H2. cbn [snd] in H2.
  destruct (past_eof s2) eqn:N2; [done|]. destruct b; [done|]. cbn [orb].
  destruct (current_returns _ N2) as (c & Hc & _). rewrite Hc, bind_ret. apply not_past in N2.
  assert (Hp : current_pos (advance s2) = S (current_pos s2)) by done. destruct (Z.eqb_spec c AMPERSAND) as [->|Hne].
  - destruct (past_eof (advance s2)) eqn:N3; [done|]. destruct (current_returns _ N3) as (c3 & Hc3 & _). rewrite Hc3, bind_ret.
    apply not_past in N3. cbn [gives]. split; [lia|congruence].
  - assert (current_pos s2 ≠ current_pos s).
    { intros E. unfold FortranChars.current in Hc, Hamp. rewrite E, Hamp in Hc. by injection Hc as <-. }
    destruct (character_context s2); cbn [gives]; [split; [lia|done]|]. split; [simpl; lia|done].
Qed.

Lemma join_lines_total fuel : ∀ c s, (current_pos s < buffer_size)%nat → (left s < fuel)%nat →
  (c = AMPERSAND → current s = Ret AMPERSAND) →
  gives (λ r, (current_pos s ≤ current_pos r.2 < buffer_size)%nat) (join_lines buffer buffer_size fuel c s).
Proof.
  induction fuel as [|fuel IH]; intros c s Hs Hf Hc; [lia|]. cbn [join_lines]. destruct (Z.eqb_spec c AMPERSAND) as [->|]; [|simpl; lia].
  cbn [negb orb]. destruct (in_comment s); [simpl; lia|]. eapply gives_bind; [by apply continue_line_total, Hc|].
  intros [[c' s']|] H; [|simpl; lia]. destruct H as [H Hc']. eapply gives_weaken; [apply IH; [lia|unfold FortranChars.left in *; lia|done]|].
  cbn beta. lia.
Qed.

(** ** Characters *)

Lemma free_form_get_total s : (current_pos s < buffer_size)%nat →
  gives (λ r, from (S (current_pos s)) r.2) (free_form_get config buffer buffer_size s).
Proof.
  intros Hs. unfold free_form_get. rewrite (proj2 (not_past s)) by done. destruct (current_returns s) as (c & Hc & _); [by apply not_past|].
  rewrite Hc, bind_ret. eapply gives_bind; [apply join_lines_total; [done|lia|congruence]|]. intros [c' s1] H1. cbn [snd] in H1.
  cbv zeta. eapply gives_bind; [apply finish_character_total; lia|]. intros [c2 s2] [H2 _]. unfold from in *. simpl in *. lia.
Qed.

Lemma free_form_get_measure s : (current_pos s ≤ buffer_size)%nat →
  gives (λ r, r.1.1 = EOF ∨ (current_pos r.2 ≤ buffer_size)%nat ∧ (left r.2 < left s)%nat)
    (free_form_get config buffer buffer_size s).
Proof.
  intros Hs. destruct (past_eof s) eqn:N; [unfold free_form_get; rewrite N; by left|]. apply not_past in N.
  eapply gives_weaken; [by apply free_form_get_total|]. intros r H. right. unfold from, FortranChars.left in *. lia.
Qed.
End total.
