(* ===== verification/FortranFixedTotal.v ===== *)
(** * The reader of fixed form ends

    When the file ends with a newline, the reader gives a character at every
    place, and is then at a later place, or at a later column of the blanks that
    pad a string. *)

From stdpp Require Import list.
From S2P Require Import Prelude CStream FortranChars FortranFixed FortranTotal.
#[local] Open Scope Z_scope.

Section total.
Context (config : configuration) (buffer : list Z) (buffer_size : nat).
Hypothesis size_ok : (buffer_size ≤ length buffer)%nat.
Hypothesis newline_at_end : ∃ c, buffer !! (buffer_size - 1)%nat = Some c ∧ is_newline c = true.

Notation past_eof := (past_eof buffer_size).
Notation current := (current buffer).
Notation left := (left buffer_size).
Notation width := (input_column_width config).

(** From a place on, in the file, with the sentinel of [s] *)
Definition later (pos : nat) (s s' : scanner) : Prop :=
  (pos ≤ current_pos s' ≤ buffer_size)%nat ∧ sentinel s' = sentinel s ∧ 1 ≤ column s'.

(** There is a character at the place, if there is one. *)
Definition inside (pos : nat) (s : scanner) (o : option scanner) : Prop :=
  match o with Some s' => later pos s s' ∧ (current_pos s' < buffer_size)%nat | None => True end.
Definition after (pos : nat) (s : scanner) (o : option scanner) : Prop :=
  match o with Some s' => later pos s s' | None => True end.

Lemma later_weaken p p' s1 s2 s : later p' s2 s → (p ≤ p')%nat → sentinel s2 = sentinel s1 → later p s1 s.
Proof. unfold later. intros (H1 & -> & H3) Hp ->. repeat split; [lia..|done]. Qed.

Lemma inside_weaken p p' s1 s2 o : inside p' s2 o → (p ≤ p')%nat → sentinel s2 = sentinel s1 → inside p s1 o.
Proof. destruct o; [|done]. intros [H ?] ? ?. split; [by eapply later_weaken|done]. Qed.

Lemma after_weaken p p' s1 s2 o : after p' s2 o → (p ≤ p')%nat → sentinel s2 = sentinel s1 → after p s1 o.
Proof. destruct o; [|done]. apply later_weaken. Qed.

Lemma skip_while_later p s : (current_pos s ≤ buffer_size)%nat → 1 ≤ column s →
  gives (λ s', later (current_pos s) s s' ∧ (past_eof s' = false → ∃ c, current s' = Ret c ∧ p c = false))
    (skip_while buffer buffer_size p s).
Proof.
  intros Hs Hc. eapply gives_weaken; [by apply skip_while_total|]. intros s' (H1 & H2 & H3 & H4).
  split; [|done]. unfold from in H1. unfold later. repeat split; [lia..|done|lia].
Qed.

Lemma here s : past_eof s = false → ∃ c, current s = Ret c ∧ (current_pos s < buffer_size)%nat.
Proof. intros N. destruct (current_returns buffer buffer_size size_ok s N) as (c & Hc & _). apply not_past in N. by exists c. Qed.

(** ** Lines that are passed *)

Lemma find_newline_total fuel : ∀ s, (current_pos s < buffer_size)%nat → 1 ≤ column s →
  (length buffer - current_pos s < fuel)%nat →
  gives (λ s', later (current_pos s) s s' ∧ (current_pos s' < buffer_size)%nat ∧ ∃ c, current s' = Ret c ∧ is_newline c = true)
    (find_newline buffer fuel s).
Proof.
  induction fuel as [|fuel IH]; intros s Hs Hc Hf; [lia|]. cbn [find_newline].
  destruct (here s) as (c & Hcur & _); [by apply not_past|]. rewrite Hcur, bind_ret. destruct (is_newline c) eqn:Hn.
  { split; [|split; [done|by exists c]]. unfold later. repeat split; lia. }
  assert (S (current_pos s) ≠ buffer_size).
  { intros E. destruct newline_at_end as (x & Hx & Hxn). rewrite <-E, Nat.sub_succ, Nat.sub_0_r in Hx.
    unfold FortranChars.current in Hcur. rewrite Hx in Hcur. injection Hcur as <-. congruence. }
  eapply gives_weaken; [apply (IH (advance s)); simpl; lia|]. intros s' (H1 & H2). split; [|done].
  eapply later_weaken; [exact H1|simpl; lia|done].
Qed.

Lemma pass_newline_total s c : (current_pos s < buffer_size)%nat → current s = Ret c → is_newline c = true →
  gives (inside (S (current_pos s)) s) (pass_newline buffer buffer_size s).
Proof.
  intros Hs Hc Hn. unfold pass_newline. rewrite Hc, bind_ret.
  assert (H1 : inside (S (current_pos s)) s (if past_eof (next_line s) then None else Some (next_line s))).
  { destruct (past_eof (next_line s)) eqn:N; [done|]. apply not_past in N. simpl in *. unfold later. simpl. repeat split; lia. }
  destruct (c =? NEWLINE) eqn:E1; [done|]. destruct (c =? RETURN) eqn:E2; [|unfold is_newline in Hn; by rewrite E1, E2 in Hn].
  destruct (past_eof (next_line s)) eqn:N; [done|]. destruct (here _ N) as (c2 & -> & _). rewrite bind_ret.
  destruct (c2 =? NEWLINE); [|done]. destruct (past_eof (skip (next_line s))) eqn:N2; [done|]. apply not_past in N2.
  simpl in *. unfold later. simpl. repeat split; lia.
Qed.

Lemma pass_line_total s : (current_pos s ≤ buffer_size)%nat → 1 ≤ column s →
  gives (inside (S (current_pos s)) s) (pass_line buffer buffer_size s).
Proof.
  intros Hs Hc. unfold pass_line. eapply gives_bind; [by apply skip_while_later|]. intros s1 [(H1 & H2 & H3) H4].
  destruct (past_eof s1) eqn:N; [done|]. destruct (H4 eq_refl) as (c & Hcur & Hn). apply negb_false_iff in Hn. apply not_past in N.
  eapply gives_weaken; [by apply (pass_newline_total s1 c)|]. intros o Ho. by eapply inside_weaken; [exact Ho|lia|].
Qed.

Lemma sentinel_letters_total n : ∀ s, (current_pos s ≤ buffer_size)%nat →
  gives (λ o, match o with Some l => (current_pos s + length l ≤ buffer_size)%nat | None => True end)
    (sentinel_letters buffer buffer_size n s).
Proof.
  induction n as [|n IH]; intros s Hs; cbn [sentinel_letters]; [simpl; lia|]. destruct (past_eof s) eqn:N; [done|].
  destruct (here s N) as (c & -> & Hlt). rewrite bind_ret. destruct (is_letter c); cbn [negb]; [|simpl; lia].
  eapply gives_bind; [apply (IH (advance s)); simpl; lia|]. intros [l|] H; simpl in *; [lia|done].
Qed.

Lemma stops_at_sentinel_total s : (current_pos s ≤ buffer_size)%nat → 1 ≤ column s →
  gives (λ r, later (current_pos s) s r.2) (stops_at_sentinel config buffer buffer_size s).
Proof.
  intros Hs Hc. assert (Hl : later (current_pos s) s s) by (unfold later; repeat split; lia). unfold stops_at_sentinel.
  destruct (past_eof s) eqn:N; [done|]. destruct (here s N) as (c & -> & Hlt). rewrite bind_ret. destruct (negb _); [done|].
  eapply gives_bind; [apply sentinel_letters_total; simpl; lia|]. intros [l|] H; [|done]. simpl in *. unfold later. simpl.
  repeat split; lia.
Qed.

Lemma skip_field_total s : (current_pos s ≤ buffer_size)%nat → 1 ≤ column s →
  gives (later (current_pos s) s) (skip_field buffer buffer_size s).
Proof.
  unfold skip_field. generalize (left s). intros fuel. revert s. induction fuel as [|fuel IH]; intros s Hs Hc; cbn [skip_field_].
  { unfold later. simpl. repeat split; lia. }
  assert (Hl : later (current_pos s) s s) by (unfold later; repeat split; lia).
  destruct (past_eof s) eqn:N; [done|]. destruct (here s N) as (c & -> & Hlt). rewrite bind_ret. destruct (negb _); [done|].
  destruct (_ && _); (eapply gives_weaken; [apply IH; simpl; lia|]; intros s' H; eapply later_weaken; [exact H|simpl; lia|done]).
Qed.

Lemma comment_lines_total fuel : ∀ s, (current_pos s < buffer_size)%nat → 1 ≤ column s → (left s < fuel)%nat →
  gives (inside (current_pos s) s) (comment_lines config buffer buffer_size fuel s).
Proof.
  induction fuel as [|fuel IH]; intros s Hs Hc Hf; [lia|]. cbn [comment_lines].
  assert (Hself : inside (current_pos s) s (Some s)) by (unfold inside, later; repeat split; lia).
  assert (Hnext : ∀ s1, later (current_pos s) s s1 →
    gives (inside (current_pos s) s) (next ← pass_line buffer buffer_size s1;
      match next with Some s => comment_lines config buffer buffer_size fuel s | None => Ret None end)).
  { intros s1 (H1 & H2 & H3). eapply gives_bind; [apply pass_line_total; [lia|done]|]. intros [s2|] H; [|done].
    destruct H as [(H4 & H5 & H6) H7]. eapply gives_weaken; [apply IH; unfold FortranChars.left in *; lia|].
    intros o Ho. eapply inside_weaken; [exact Ho|lia|congruence]. }
  destruct (here s) as (c & -> & _); [by apply not_past|]. rewrite bind_ret. destruct (_ || _).
  - eapply (gives_bind (λ r, later (current_pos s) s r.2)).
    { destruct (_ =? _); [unfold later; simpl; repeat split; lia|].
      eapply gives_weaken; [apply stops_at_sentinel_total; simpl; lia|]. intros r H. eapply later_weaken; [exact H|simpl; lia|done]. }
    intros [[|] s1] H; [done|]. by apply Hnext.
  - destruct (_ || _); [|done]. eapply gives_bind; [apply skip_field_total; [lia|done]|]. intros s1 H1.
    destruct (past_eof s1) eqn:N; [done|]. destruct (here s1 N) as (c1 & -> & _). rewrite bind_ret.
    destruct (_ || _); [by apply Hnext|done].
Qed.

(** ** Continued lines *)

Lemma label_field_total n : ∀ i s, (current_pos s ≤ buffer_size)%nat → 1 ≤ column s →
  gives (λ o, after (current_pos s) s (option_map snd o)) (label_field buffer buffer_size i n s).
Proof.
  induction n as [|n IH]; intros i s Hs Hc; cbn [label_field]; [unfold after, later; simpl; repeat split; lia|].
  destruct (past_eof s) eqn:N; [done|]. destruct (here s N) as (c & -> & Hlt). rewrite bind_ret. destruct (_ && _); [done|].
  destruct (_ && _); [unfold after, later; simpl; repeat split; lia|].
  eapply gives_weaken; [apply (IH (S i) (advance s)); simpl; lia|]. intros o H. eapply after_weaken; [exact H|simpl; lia|done].
Qed.

Lemma unmarked_line_total s : (current_pos s ≤ buffer_size)%nat → 1 ≤ column s →
  gives (after (current_pos s) s) (unmarked_line buffer buffer_size s).
Proof.
  intros Hs Hc. unfold unmarked_line. eapply gives_bind; [by apply skip_while_later|]. intros s1 [H1 _].
  destruct (past_eof s1) eqn:N; [done|]. destruct (here s1 N) as (c & -> & Hlt). rewrite bind_ret.
  destruct (is_newline c); [done|]. destruct (_ =? _); [|done]. destruct H1 as (H1 & H2 & H3).
  eapply gives_bind; [apply (skip_while_later _ (advance s1)); simpl; lia|]. intros s2 [H4 _]. destruct (past_eof s2); [done|].
  simpl. eapply later_weaken; [exact H4|simpl; lia|done].
Qed.

Lemma continued_statement_total s : (current_pos s ≤ buffer_size)%nat → 1 ≤ column s →
  gives (after (current_pos s) s) (continued_statement buffer buffer_size s).
Proof.
  intros Hs Hc. unfold continued_statement. eapply gives_bind; [by apply label_field_total|]. intros [[tab s1]|] H1; [|done].
  destruct H1 as (H1 & H2 & H3). simpl in H1, H2, H3. destruct (past_eof s1) eqn:N; [done|].
  destruct (here s1 N) as (c & -> & Hlt). rewrite bind_ret.
  assert (Hadv : after (current_pos s) s (Some (advance s1))) by (unfold after, later; simpl; repeat split; [lia..|done|lia]).
  destruct (is_newline c); [done|]. destruct tab; [by destruct (_ || _)|]. destruct (_ || _); [|done].
  eapply gives_weaken; [apply unmarked_line_total; lia|]. intros o H. by eapply after_weaken; [exact H|lia|].
Qed.

Lemma match_spaces_total n : ∀ s, (current_pos s ≤ buffer_size)%nat → 1 ≤ column s →
  gives (after (current_pos s) s) (match_spaces buffer buffer_size n s).
Proof.
  induction n as [|n IH]; intros s Hs Hc; cbn [match_spaces]; [unfold after, later; simpl; repeat split; lia|].
  destruct (past_eof s) eqn:N; [done|]. destruct (here s N) as (c & -> & Hlt). rewrite bind_ret. destruct (negb _); [done|].
  eapply gives_weaken; [apply (IH (advance s)); simpl; lia|]. intros o H. eapply after_weaken; [exact H|simpl; lia|done].
Qed.

(** The sentinels of fixed form *)
Definition fixed_sentinel (sent : option cstr) : Prop :=
  match sent with Some l => length l = 0%nat ∨ length l = 3%nat | None => True end.

Lemma continued_directive_total letters s : (current_pos s < buffer_size)%nat → 1 ≤ column s → fixed_sentinel (Some letters) →
  gives (after (current_pos s) s) (continued_directive buffer buffer_size letters s).
Proof.
  intros Hs Hc Hl. unfold continued_directive.
  assert (negb (length letters =? 0)%nat && negb (length letters =? 3)%nat = false) as -> by by destruct Hl as [-> | ->].
  destruct (here s) as (c & -> & _); [by apply not_past|]. rewrite bind_ret. destruct (negb _); [done|].
  destruct (past_eof (advance s)) eqn:N; [done|]. destruct (here _ N) as (c1 & -> & Hlt). rewrite bind_ret. destruct (negb _); [done|].
  simpl in Hlt. eapply gives_bind; [apply match_sentinel_total; [done|simpl; lia]|]. intros [rest s1] (H1 & H2 & H3).
  unfold from in H1. simpl in H1, H2, H3. destruct (negb _); [done|].
  eapply gives_bind; [apply match_spaces_total; lia|]. intros [s2|] H; [|done]. destruct H as (H4 & H5 & H6).
  destruct (past_eof s2) eqn:N2; [done|]. destruct (here _ N2) as (c2 & -> & Hlt2). rewrite bind_ret. destruct (_ || _); [done|].
  unfold after, later. simpl. repeat split; [lia..|congruence|lia].
Qed.

Lemma end_of_line_total s c : (current_pos s < buffer_size)%nat → 1 ≤ column s → fixed_sentinel (sentinel s) →
  current s = Ret c → is_newline c || (c =? BANG) = true →
  gives (after (S (current_pos s)) s) (end_of_line config buffer buffer_size s).
Proof.
  intros Hs Hc Hf Hcur Hn. unfold end_of_line. rewrite Hcur, bind_ret.
  eapply (gives_bind (λ s', later (current_pos s) s s' ∧ (current_pos s' < buffer_size)%nat ∧ ∃ c, current s' = Ret c ∧ is_newline c = true)).
  { destruct (c =? BANG); [apply find_newline_total; lia|]. rewrite orb_false_r in Hn. unfold gives, later.
    repeat split; [lia..|by exists c]. }
  intros s1 ((H1 & H2 & H3) & Hlt & c1 & Hc1 & Hn1). rewrite (proj2 (not_past _ s1)) by done.
  eapply gives_bind; [by apply (pass_newline_total s1 c1)|]. intros [s2|] H; [|done]. destruct H as [(H4 & H5 & H6) H7].
  eapply gives_bind; [apply comment_lines_total; lia|]. intros [s3|] H; [|done]. destruct H as [(H8 & H9 & H10) H11].
  assert (Hw : ∀ o, after (current_pos s3) s3 o → after (S (current_pos s)) s o).
  { intros o Ho. eapply after_weaken; [exact Ho|lia|congruence]. }
  destruct (sentinel s3) as [letters|] eqn:E.
  - eapply gives_weaken; [apply continued_directive_total; [lia..|]|exact Hw]. congruence.
  - eapply gives_weaken; [apply continued_statement_total; lia|exact Hw].
Qed.

(** ** Characters *)

(** A character at a place, or a blank that pads a string: the place is the one
    before the newline, which [finish_character] goes back to. *)
Definition found (s : scanner) (r : Z * scanner) : Prop :=
  later (current_pos s) s r.2 ∨
  ∃ p, S (current_pos r.2) = p ∧ (p < buffer_size)%nat ∧ r.1 = BLANK ∧ 1 ≤ column r.2 ≤ width ∧ sentinel r.2 = sentinel s ∧
    ((current_pos s < p)%nat ∨ p = current_pos s ∧ column r.2 = column s).

Lemma found_later p s s1 r : later p s s1 → (current_pos s < p)%nat → found s1 r → found s r.
Proof.
  intros (H1 & H2 & H3) Hp [Hl|(q & Hq & Hlt & Hb & Hc & Hs & Hd)]; [left; by eapply later_weaken; [exact Hl|lia|]|].
  right. exists q. repeat split; [done..|lia|lia|congruence|left; lia].
Qed.

Lemma next_character_total fuel : ∀ result s, (current_pos s ≤ buffer_size)%nat → 1 ≤ column s → fixed_sentinel (sentinel s) →
  (current_pos s = 0%nat → character_context s = false) → (left s < fuel)%nat →
  gives (found s) (next_character config buffer buffer_size fuel result s).
Proof.
  induction fuel as [|fuel IH]; intros result s Hs Hc Hf H0 Hfuel; [lia|]. cbn [next_character].
  assert (Hself : ∀ c, found s (c, s)) by (intros c; left; unfold later; simpl; repeat split; lia).
  destruct (past_eof s) eqn:N; [apply Hself|]. destruct (here s N) as (c & Hcur & Hlt). rewrite Hcur, bind_ret.
  assert (Hrec : ∀ s1 c1, later (S (current_pos s)) s s1 → gives (found s) (next_character config buffer buffer_size fuel c1 s1)).
  { intros s1 c1 Hl. pose proof Hl as (H1 & H2 & H3). eapply gives_weaken; [apply IH|]; [lia|done|congruence|lia| |].
    - unfold FortranChars.left in *. lia.
    - intros r. apply (found_later (S (current_pos s))); [done|lia]. }
  assert (Hadv : ∀ col, 1 ≤ col → later (S (current_pos s)) s (move (S (current_pos s)) (line s) col s)).
  { intros col Hcol. unfold later. simpl. repeat split; lia. }
  destruct (is_newline c || inline_comment config c s) eqn:Hend.
  - destruct (is_newline c && character_context s && (column s <=? width)) eqn:Hpad.
    + apply andb_true_iff in Hpad as [[_ Hcc]%andb_true_iff Hw%Z.leb_le].
      destruct (current_pos s =? 0)%nat eqn:Ep; [apply Nat.eqb_eq in Ep; rewrite H0 in Hcc by done; discriminate|].
      apply Nat.eqb_neq in Ep. right. exists (current_pos s). simpl. repeat split; [lia..|]. by right.
    + eapply gives_bind; [apply (end_of_line_total s c); [done..|]|].
      { apply orb_true_iff in Hend as [->|Hi]; [done|]. unfold inline_comment in Hi. destruct (c =? BANG); [|done]. apply orb_true_r. }
      intros [s1|] H1; [by apply Hrec|apply Hself].
  - destruct (width <? column s); [apply Hrec, Hadv; lia|]. destruct (c =? BLANK).
    { destruct (character_context s); [apply Hself|]. apply Hrec, Hadv. lia. }
    destruct (c =? TAB).
    { destruct (character_context s); [apply Hself|]. apply Hrec, Hadv. destruct (_ <? _); lia. }
    destruct (_ && _); [apply Hself|]. destruct (_ && _); [apply Hrec, Hadv; lia|apply Hself].
Qed.

(** What holds between characters, and what decreases with each *)
Definition fixed_state (s : scanner) : Prop :=
  (current_pos s ≤ buffer_size)%nat ∧ 1 ≤ column s ∧ fixed_sentinel (sentinel s) ∧
  (current_pos s = 0%nat → character_context s = false).
Definition fixed_measure (s : scanner) : nat := left s * S (S (Z.to_nat width)) + Z.to_nat (width + 1 - column s).

Lemma fixed_form_get_measure s : fixed_state s →
  gives (λ r, r.1.1 = EOF ∨ fixed_state r.2 ∧ (fixed_measure r.2 < fixed_measure s)%nat) (fixed_form_get config buffer buffer_size s).
Proof.
  intros (Hs & Hc & Hf & H0). unfold fixed_form_get. eapply gives_bind; [apply next_character_total; [done..|lia]|].
  intros [c s1] H. cbv zeta. destruct (past_eof s1) eqn:N; [by left|]. apply not_past in N.
  eapply gives_bind; [by apply finish_character_total|]. intros [c2 s2] (H1 & H2 & H3). unfold from in H1. cbn [fst snd gives] in *. right.
  assert (Hm : (current_pos s < current_pos s2)%nat ∨ current_pos s2 = current_pos s ∧ column s2 = column s + 1 ∧ column s ≤ width).
  { destruct H as [(H4 & _)|(p & Hp & _ & Hb & Hw & _ & Hd)]; [left; simpl in *; lia|]. cbn [fst snd] in *. subst c.
    destruct H3 as [H3 H6]. destruct Hd as [Hd|[Hd1 Hd2]]; [left; lia|right; lia]. }
  assert (Hcol : 1 ≤ column s2).
  { assert (1 ≤ column s1) by (destruct H as [(_ & _ & ?)|(p & _ & _ & _ & ? & _)]; simpl in *; lia). destruct (is_newline c); lia. }
  assert (Hsent : sentinel s2 = sentinel s) by (destruct H as [(_ & ? & _)|(p & _ & _ & _ & _ & ? & _)]; simpl in *; congruence).
  split; [repeat split; [lia|done|by rewrite Hsent|lia]|]. unfold fixed_measure, FortranChars.left.
  destruct Hm as [Hm|(-> & -> & Hw)]; [|lia]. nia.
Qed.
End total.
