(* ===== verification/FortranProps.v ===== *)
(** * Fortran lines: the theorems

    Long lines are split into lines that fit and are read back as they were;
    the reader ends; and the queue of peeked characters is a list. *)

From stdpp Require Import list.
From S2P Require Import Prelude CStream FortranChars FortranPeek FortranSplit FortranLines FortranRead FortranTotal FortranFixed FortranFixedTotal.
#[local] Open Scope Z_scope.

(** ** Long lines *)

Section long.
Context (config : configuration) (tokens : cstr → list cstr) (width : Z) (line line' : cstr).

(** A line that is longer than the limit, without the blanks at its end *)
Definition long_line : Prop := trim_right_line line = Ret line' ∧ width < Z.of_nat (length line').

Lemma split_long_directive prefix : long_line → check_for_construct config line' 32 = Some prefix →
  split_line config tokens width line = Ret ((double_continuate_construct prefix line' width 1).1 ++ [NEWLINE]).
Proof. intros [E H] Hp. unfold split_line. rewrite E, bind_ret, (proj2 (Z.leb_gt _ _)) by done. by rewrite Hp. Qed.

Lemma split_long_statement : long_line → check_for_construct config line' 32 = None → check_for_comment line' = false →
  split_line config tokens width line = split_tokens width (tokens line') line' 1.
Proof. intros [E H] Hp Hc. unfold split_line. rewrite E, bind_ret, (proj2 (Z.leb_gt _ _)) by done. by rewrite Hp, Hc. Qed.
End long.

(** Where the reader starts: after [n] characters of a file, outside of strings
    and of comments, in a directive when there is a sentinel *)
Definition start (n : nat) (sent : option cstr) : scanner :=
  Scanner n [] 1 (Z.of_nat n + 1) false sent false 0 0 false false.

Lemma start_ahead n sent pre l : n = length pre → ahead (pre ++ l) (length (pre ++ l)) (start n sent) l.
Proof. intros ->. unfold ahead. cbn. rewrite length_app. split; [lia|]. rewrite <-length_app, firstn_all. apply drop_app_length. Qed.

(** C17: a statement that is longer than the limit is split, and what the
    scanner reads of the lines, up to the newline, is the statement, with one
    blank for the blanks before the tokens that start a line. *)
Theorem split_statement_read_back config tokens width line line' pairs more :
  3 ≤ width → long_line width line line' → check_for_construct config line' 32 = None → check_for_comment line' = false →
  locate (tokens line') line' = Some pairs → Forall (short_blanks width) pairs → plain_tokens (start 0 None) pairs = true →
  ∃ out text s', split_line config tokens width line = Ret out ∧ joined pairs text ∧
    gets config (out ++ more) (length (out ++ more)) (length (text ++ [NEWLINE])) (start 0 None) = Ret (text ++ [NEWLINE], s') ∧
    ahead (out ++ more) (length (out ++ more)) s' more.
Proof.
  intros Hw Hl Hc1 Hc2 Hp%locate_located Hb Ht. rewrite (split_long_statement _ _ _ _ _ Hl Hc1 Hc2).
  destruct (split_tokens_fits width _ _ _ Hp Hw Hb 1) as (out & E & _); [lia|].
  destruct (read_tokens config (out ++ more) (length (out ++ more)) ltac:(lia) width _ _ _ Hp Hw Hb 1 (start 0 None) out more)
    as (text & s' & Hj & Hg & Ha); [lia|done|done|done|by apply (start_ahead 0 None [])|].
  by exists out, text, s'.
Qed.

(** C19: a directive that is longer than the limit is split, and what the scanner
    reads of the lines after the sentinel is what follows it in the directive. *)
Theorem split_directive_read_back config tokens width line pre body prefix letters more :
  long_line width line (pre ++ body ++ [NEWLINE]) → Z.of_nat (length pre) < width →
  check_for_construct config (pre ++ body ++ [NEWLINE]) 32 = Some prefix → map tolower prefix = map tolower letters →
  plain_text (start (length pre) (Some letters)) body = true →
  ∃ out s', split_line config tokens width line = Ret out ∧
    gets config (out ++ more) (length (out ++ more)) (length (body ++ [NEWLINE])) (start (length pre) (Some letters))
      = Ret (body ++ [NEWLINE], s') ∧
    ahead (out ++ more) (length (out ++ more)) s' (NEWLINE :: more).
Proof.
  intros Hl Hpre Hp Hletters Hb. pose proof (check_for_construct_length _ _ _ _ Hp) as H32.
  rewrite (split_long_directive _ _ _ _ _ _ Hl Hp). unfold double_continuate_construct.
  rewrite continuate_app, continuate_newline by lia. set (out := (continuate _ _ body width _).1).
  set (file := ((pre ++ out ++ [NEWLINE]) ++ [NEWLINE]) ++ more).
  assert (Ha : ahead file (length file) (start (length pre) (Some letters)) (out ++ NEWLINE :: NEWLINE :: more)).
  { assert (file = pre ++ out ++ NEWLINE :: NEWLINE :: more) as -> by (unfold file; by rewrite <-!app_assoc). by apply start_ahead. }
  destruct (read_directive config file (length file) ltac:(lia) width prefix letters body (NEWLINE :: NEWLINE :: more) (start (length pre) (Some letters)) (1 + Z.of_nat (length pre)) Hletters H32 eq_refl Hb Ha)
    as (s1 & E1 & H1 & _).
  destruct (get_newline config file (length file) ltac:(lia) s1 _ H1) as (loc & s2 & E2 & H2).
  eexists _, s2. split; [done|]. split; [|done]. by apply (gets_app _ _ _ _ _ s1); [|apply (gets_one _ _ _ _ _ loc)].
Qed.

(** C35: none of the lines that a long statement or a long directive is split
    into is longer than the limit. *)
Theorem split_lines_fit config tokens width line line' :
  3 ≤ width → long_line width line line' →
  (check_for_construct config line' 32 = None ∧ check_for_comment line' = false ∧
     ∃ pairs, locate (tokens line') line' = Some pairs ∧ Forall (short_blanks width) pairs) ∨
  (∃ prefix body, check_for_construct config line' 32 = Some prefix ∧ Z.of_nat (length prefix) + 4 < width ∧
     line' = body ++ [NEWLINE] ∧ NEWLINE ∉ body ∧ NEWLINE ∉ prefix) →
  ∃ out, split_line config tokens width line = Ret out ∧ fits width 1 out = true.
Proof.
  intros Hw Hl [(Hc1 & Hc2 & pairs & Hp%locate_located & Hb)|(prefix & body & Hc & Hlen & -> & Hn1 & Hn2)].
  - rewrite (split_long_statement _ _ _ _ _ Hl Hc1 Hc2). apply (split_tokens_fits width _ _ _ Hp Hw Hb 1). lia.
  - rewrite (split_long_directive _ _ _ _ _ _ Hl Hc). eexists. split; [done|].
    by apply construct_fits; [..|apply (check_for_construct_length _ _ _ _ Hc)|].
Qed.

(** C39: a file of lines, each below the size where the buffer of the line would
    overflow, is split line by line, in their order. *)
Theorem fortran_files_split_by_lines config tokens width bodies outs : 0 < width →
  Forall (λ body, one_line body ∧ Z.of_nat (length body) < 2 ^ 29) bodies →
  Forall2 (λ body out, split_line config tokens width (body ++ [NEWLINE]) = Ret out) bodies outs →
  fortran_split_lines config tokens (Stream (concat (map (λ body, body ++ [NEWLINE]) bodies)) false) width
    = Ret (concat outs).
Proof.
  intros Hw Hb Ho. unfold fortran_split_lines. rewrite (proj2 (Z.leb_gt _ _)) by done.
  apply split_lines_spec; [done..|]. pose proof (many_lines bodies). cbn [rest]. lia.
Qed.

(** ** Reading *)

(** Where a reader may start.  In free form there must be no character that can
    start a line marker, which is not bounded by the end of the file; in fixed
    form a newline must end the file, since comments are not either. *)
Definition readable (form : lexer_textual_form) (buffer : list Z) (s : scanner) : Prop :=
  (current_pos s ≤ length buffer)%nat ∧
  match form with
  | LEXER_TEXTUAL_INVALID_FORM => False
  | LEXER_TEXTUAL_FREE_FORM => HASH ∉ buffer
  | LEXER_TEXTUAL_FIXED_FORM =>
      (∃ c, buffer !! (length buffer - 1)%nat = Some c ∧ is_newline c = true) ∧ 1 ≤ column s ∧ fixed_sentinel (sentinel s) ∧
      (current_pos s = 0%nat → character_context s = false)
  end.

(** At most the characters of the file, each with blanks up to the last column *)
Definition most_characters (config : configuration) (buffer : list Z) (s : scanner) : nat :=
  length buffer * S (S (Z.to_nat (input_column_width config))) + Z.to_nat (input_column_width config + 1 - column s).

(** C27: the readers of both forms read every file up to its end: they end, never
    read past the buffer, and the number of the characters that they give is
    bounded. *)
Theorem input_reads_files config form buffer s : readable form buffer s →
  ∃ l, read_all (input_get config buffer (length buffer) form) (S (most_characters config buffer s)) s = Ret l ∧
    (length l ≤ most_characters config buffer s)%nat.
Proof.
  unfold readable, most_characters. intros [Hs H]. apply gives_inv. destruct form; [done| |].
  - eapply gives_weaken.
    + apply (read_all_total _ (λ s, (current_pos s ≤ length buffer)%nat) (left (length buffer))); [|done|unfold left; lia].
      intros s' Hs'. apply free_form_get_measure; [done| |done]. by rewrite firstn_all.
    + intros l Hl. unfold left in Hl. simpl in Hl. lia.
  - destruct H as (Hn & Hc & Hf & H0). eapply gives_weaken.
    + apply (read_all_total _ (fixed_state (length buffer)) (fixed_measure config (length buffer)));
        [intros s' Hs'; by apply fixed_form_get_measure|done|unfold fixed_measure, left; nia].
    + intros l Hl. unfold fixed_measure, left in Hl. simpl in Hl. nia.
Qed.

(** C29: with the queue of peeked characters, every sequence of reads, peeks and
    insertions gives the characters that a list of pending characters in front
    of the input gives, and takes the same characters of the input. *)
Theorem peeked_characters_are_a_queue {loc St} (input_get : St → res ((Z * loc) * St)) os st r l' st' :
  costs os < 2 ^ 30 → run (step_spec input_get) os ([], st) = Ret (r, (l', st')) →
  ∃ q', run (step input_get) os (peek_init None, st) = Ret (r, (q', st')) ∧
    peek_size q' = Z.of_nat (length l') ∧ ∀ k x, l' !! k = Some x → peek_get (Z.of_nat k) q' = Ret x.
Proof.
  intros Hc Hr. destruct (peek_run_refines input_get os 0 (peek_init None) [] st r l' st' init_pending Hc Hr) as (q' & E & H).
  exists q'. split; [done|]. split; [apply H|]. intros k x Hx. by apply (get_spec (0 + costs os) _ l').
Qed.

(** ** Concrete files *)

(** The words of a line, as a lexer of statements of words gives them *)
Definition separates (c : Z) : bool := is_blank c || is_newline c.
Fixpoint words (l : cstr) : list cstr :=
  match l with
  | [] => []
  | c :: l' =>
      if separates c then words l' else
      match words l' with
      | [] => [[c]]
      | w :: ws => if forallb separates (take 1 l') then [c] :: w :: ws else (c :: w) :: ws
      end
  end.

Definition omp : configuration := Configuration [bytes "omp"] false 72.
Definition statement : cstr := bytes "  xyz = alpha  +  a_very_long_name" ++ [NEWLINE].
Definition directive : cstr := bytes "!$omp parallel do private(abc)".

Lemma split_statement_read_back_witness :
  (∃ out text s', split_line omp words 12 statement = Ret out ∧
    joined (default [] (locate (words statement) statement)) text ∧
    gets omp (out ++ [NEWLINE]) (length (out ++ [NEWLINE])) (length (text ++ [NEWLINE])) (start 0 None) = Ret (text ++ [NEWLINE], s') ∧
    ahead (out ++ [NEWLINE]) (length (out ++ [NEWLINE])) s' [NEWLINE])
  ∧ split_line omp words 12 statement
    = Ret (concat (map (λ l, bytes l ++ [NEWLINE]) ["  xyz =&"; " alpha  +&"; "  a_very_lo&"; "&ng_name"])).
Proof.
  split; [|vm_compute; reflexivity].
  apply (split_statement_read_back omp words 12 statement statement); try (vm_compute; reflexivity); [done|split; vm_compute; done|].
  refine (bool_decide_eq_true_1 _ _). vm_compute. reflexivity.
Defined.

Lemma split_directive_read_back_witness :
  ∃ out s', split_line omp words 20 (directive ++ [NEWLINE]) = Ret out ∧
    gets omp (out ++ []) (length (out ++ [])) (length (drop 5 directive ++ [NEWLINE])) (start 5 (Some (bytes "OMP")))
      = Ret (drop 5 directive ++ [NEWLINE], s') ∧
    ahead (out ++ []) (length (out ++ [])) s' (NEWLINE :: []).
Proof.
  apply (split_directive_read_back omp words 20 (directive ++ [NEWLINE]) (take 5 directive) (drop 5 directive) (bytes "omp"));
    try (vm_compute; reflexivity). split; vm_compute; done.
Defined.

Lemma split_lines_fit_witness :
  (∃ out, split_line omp words 12 statement = Ret out ∧ fits 12 1 out = true)
  ∧ ∃ out, split_line omp words 12 (directive ++ [NEWLINE]) = Ret out ∧ fits 12 1 out = true.
Proof.
  split.
  - apply (split_lines_fit omp words 12 statement statement); [done|split; vm_compute; done|]. left. split; [done|]. split; [done|].
    eexists. split; [vm_compute; reflexivity|]. refine (bool_decide_eq_true_1 _ _). vm_compute. reflexivity.
  - apply (split_lines_fit omp words 12 _ (directive ++ [NEWLINE])); [done|split; vm_compute; done|]. right.
    exists (bytes "omp"), directive. split; [vm_compute; reflexivity|]. split; [done|]. split; [done|].
    split; refine (bool_decide_eq_true_1 _ _); vm_compute; reflexivity.
Defined.

Lemma fortran_files_split_by_lines_witness :
  fortran_split_lines omp words (Stream (directive ++ [NEWLINE] ++ bytes "end" ++ [NEWLINE]) false) 20
    = Ret (concat (map (λ l, bytes l ++ [NEWLINE]) ["!$omp parallel do p&"; "!$omp&rivate(abc)"; ""; "end"])).
Proof.
  apply (fortran_files_split_by_lines omp words 20 [directive; bytes "end"]
    [concat (map (λ l, bytes l ++ [NEWLINE]) ["!$omp parallel do p&"; "!$omp&rivate(abc)"; ""]); bytes "end" ++ [NEWLINE]]);
    [done| |repeat constructor].
  repeat (apply Forall_cons; split); [..|constructor]; (split; [split; refine (bool_decide_eq_true_1 _ _); vm_compute; reflexivity|done]).
Defined.

(** The file of a statement that goes on after a comment *)
Definition continued_file : cstr :=
  concat (map (λ l, bytes l ++ [NEWLINE]) ["x = 'it''s & ' // &  ! a comment"; ""; "  ! another"; "  & y&"; "&z"]).

(** The lines of a file *)
Definition file_of (lines : list string) : cstr := concat (map (λ l, bytes l ++ [NEWLINE]) lines).

(** A file of fixed form with 16 columns: a string that goes on after comments *)
Definition narrow : configuration := Configuration [bytes "omp"] false 16.
Definition fixed_file : cstr := file_of ["      s = 'ab"; "c a comment"; "   ! another"; "     +cd'  ! end"; "     1 + 1       extra"].

Lemma input_reads_files_witness :
  (∃ l, read_all (input_get omp continued_file (length continued_file) LEXER_TEXTUAL_FREE_FORM)
      (S (most_characters omp continued_file (start 0 None))) (start 0 None) = Ret l
    ∧ (length l ≤ most_characters omp continued_file (start 0 None))%nat)
  ∧ (∃ l, read_all (input_get narrow fixed_file (length fixed_file) LEXER_TEXTUAL_FIXED_FORM)
      (S (most_characters narrow fixed_file (start 0 None))) (start 0 None) = Ret l
    ∧ (length l ≤ most_characters narrow fixed_file (start 0 None))%nat)
  ∧ read_all (input_get omp continued_file (length continued_file) LEXER_TEXTUAL_FREE_FORM) 40 (start 0 None)
    = Ret (bytes "x = 'it''s & ' //  yz" ++ [NEWLINE])
  ∧ read_all (input_get narrow fixed_file (length fixed_file) LEXER_TEXTUAL_FIXED_FORM) 40 (start 0 None)
    = Ret (bytes "s='ab   cd'+1" ++ [NEWLINE]).
Proof.
  split; [|split; [|split; vm_compute; reflexivity]].
  - apply (input_reads_files omp LEXER_TEXTUAL_FREE_FORM continued_file (start 0 None)). split; [simpl; lia|].
    refine (bool_decide_eq_true_1 _ _). vm_compute. reflexivity.
  - apply (input_reads_files narrow LEXER_TEXTUAL_FIXED_FORM fixed_file (start 0 None)). split; [simpl; lia|].
    split; [exists NEWLINE; done|]. split; [simpl; lia|]. done.
Defined.

Definition reads : list (operation token_location_t) :=
  [Get; Peek 2; Insert 0 BLANK ([], 7, 7); Get; Get; Peek 17; Get; Get].
Definition next_of_file : scanner → res (Z * token_location_t * scanner) :=
  free_form_get omp continued_file (length continued_file).

Lemma peeked_characters_are_a_queue_witness :
  match run (step_spec next_of_file) reads ([], start 0 None) with
  | Ret (r, (l', st')) =>
      (∃ q', run (step next_of_file) reads (peek_init None, start 0 None) = Ret (r, (q', st')) ∧
        peek_size q' = Z.of_nat (length l') ∧ ∀ k x, l' !! k = Some x → peek_get (Z.of_nat k) q' = Ret x) ∧
      length l' = 16%nat ∧ map fst r = bytes "x   y= "
  | Err _ => False
  end.
Proof.
  destruct (run (step_spec next_of_file) reads ([], start 0 None)) as [[r [l' st']]|] eqn:E; [|vm_compute in E; discriminate].
  split; [apply (peeked_characters_are_a_queue next_of_file reads _ r l' st'); [vm_compute; reflexivity|exact E]|].
  vm_compute in E. injection E as <- <- <-. split; vm_compute; reflexivity.
Defined.

(** ** Where the code departs from its comments *)

(** The length of a Hollerith constant is a [char]. *)
Lemma hollerith_length_is_a_char :
  character_context (after_text (bytes "100H") (start 0 None)) = true ∧
  character_context (after_text (bytes "200H") (start 0 None)) = false.
Proof. by vm_compute. Qed.

Definition preprocessor_line (file : cstr) : option (bool * nat * cstr) :=
  match handle_preprocessor_line file (length file) (start 0 None) with
  | Ret (marker, s) => Some (marker, current_pos s, filename s)
  | Err _ => None
  end.

(** The first character after an invalid line marker is lost. *)
Lemma invalid_marker_takes_a_character : preprocessor_line (bytes " 3 abc" ++ [NEWLINE] ++ bytes "x") = Some (true, 8%nat, []).
Proof. vm_compute. reflexivity. Qed.

(** The name of the file may be empty, and may not be of one letter. *)
Lemma marker_file_names : preprocessor_line (bytes " 3 " ++ [QUOTE] ++ bytes "abc" ++ [QUOTE]) = Some (true, 8%nat, bytes "abc") ∧
  preprocessor_line (bytes " 3 " ++ [QUOTE] ++ bytes "a" ++ [QUOTE]) = Some (false, 0%nat, []) ∧
  preprocessor_line (bytes " 3 " ++ [QUOTE; QUOTE]) = Some (true, 5%nat, []).
Proof. repeat split; vm_compute; reflexivity. Qed.

(** The end of the file is not tested before a number and after a name. *)
Lemma marker_reads_past_the_end : preprocessor_line (bytes " line ") = None ∧
  preprocessor_line (bytes " 3 " ++ [QUOTE] ++ bytes "abc") = None.
Proof. split; vm_compute; reflexivity. Qed.

Definition next_of (sent : option cstr) (file : cstr) : option Z :=
  match free_form_get omp file (length file) (start 0 sent) with Ret (c, _, _) => Some c | Err _ => None end.

(** When the file ends in the sentinel of a continued directive, the ampersand
    is dropped; after another sentinel it is given. *)
Lemma sentinel_at_the_end_drops_the_ampersand :
  next_of (Some (bytes "omp")) (AMPERSAND :: NEWLINE :: bytes "!$omp") = Some NEWLINE ∧
  next_of (Some (bytes "omp")) (AMPERSAND :: NEWLINE :: bytes "!$acc") = Some AMPERSAND.
Proof. by vm_compute. Qed.

(** An insertion after the last character fails when the queue is full. *)
Lemma insertion_into_a_full_queue :
  match run (step next_of_file) [Peek 14; Insert 15 BLANK ([], 7, 7)] (peek_init None, start 0 None),
        run (step next_of_file) [Peek 15; Insert 16 BLANK ([], 7, 7)] (peek_init None, start 0 None) with
  | Ret _, Err Aborted => True
  | _, _ => False
  end.
Proof. by vm_compute. Qed.

(** Lines of two columns: a word is cut once only. *)
Lemma two_columns_overflow :
  split_line omp words 2 (bytes "abcdef" ++ [NEWLINE])
    = Ret (concat (map (λ l, bytes l ++ [NEWLINE]) ["&"; "a&"; "&bcdef"])).
Proof. vm_compute. reflexivity. Qed.

(** Many blanks before a token are not cut, and when they leave the last column
    only, the token cannot be read back. *)
Lemma many_blanks_overflow :
  match split_line omp words 8 (bytes "          x = y" ++ [NEWLINE]) with Ret out => fits 8 1 out | Err _ => true end = false.
Proof. vm_compute. reflexivity. Qed.

Lemma blanks_break_a_statement :
  split_line omp words 8 (bytes "x =       y" ++ [NEWLINE])
    = Ret (concat (map (λ l, bytes l ++ [NEWLINE]) ["x =&"; "       &"; "&y"])) ∧
  read_all (free_form_get omp (concat (map (λ l, bytes l ++ [NEWLINE]) ["x =&"; "       &"; "&y"])) 17) 20 (start 0 None)
    = Ret (bytes "x =" ++ [NEWLINE] ++ bytes "&y" ++ [NEWLINE]).
Proof. split; vm_compute; reflexivity. Qed.

(** A comment of fixed form on the last line is followed past the end of a file
    without a newline. *)
Lemma last_comment_reads_past_the_end : let file := bytes "      x ! end" in
  read_all (input_get omp file (length file) LEXER_TEXTUAL_FIXED_FORM) 10 (start 0 None) = Err Undef.
Proof. vm_compute. reflexivity. Qed.

(** A line with the empty sentinel is passed as a comment between the lines of a
    statement, although empty sentinels are enabled: the blanks that they are
    recognised by are never among the letters read. *)
Lemma empty_sentinels_passed : let file := file_of ["      x"; "!$    y"; "     &z"] in
  disable_empty_sentinels omp = false ∧
  read_all (input_get omp file (length file) LEXER_TEXTUAL_FIXED_FORM) 10 (start 0 None) = Ret (bytes "xz" ++ [NEWLINE]).
Proof. split; vm_compute; reflexivity. Qed.
